(* ===== verification/_CoqProject ===== *)
-Q . S2P
Prelude.v
Sha256.v
Names.v
CephVersion.v
GoTime.v
Topology.v
Kube.v
Disruption.v
DisruptionProofs.v
Domains.v
DrainState.v
Reconcile.v
Upgrade.v
MonStore.v
Mon.v
MonProofs.v
MonHealth.v
MonPlacement.v
Cephx.v
OsdBase.v
OsdSpec.v
OsdReplace.v
OsdRollout.v
Devices.v
Provision.v
Prepare.v
Remove.v
KeyRotation.v
HostCleanup.v
NodeLab.v
HostSafety.v
OsdReplaceProofs.v
OsdSafety.v
OsdRolloutProofs.v
RolloutSafety.v
DeviceSafety.v
PrepareSafety.v
RemoveSafety.v
KeySafety.v
Pools.v
BlockPool.v
PoolLab.v
PoolSafety.v
PoolFacts.v
FsClient.v
Mds.v
FileController.v
SubVolume.v
CsiKeys.v
RadosNamespace.v
Cleanup.v
FsCalm.v
FsLab.v
FsSafety.v
CleanupSafety.v
CsiSafety.v
NamespaceSafety.v
MdsSafety.v
FsFacts.v
