(* ===== verification/Prelude.v ===== *)
(** * The Rook operator for Ceph: a verification library

    Rook is a Kubernetes operator, written in Go, that runs Ceph.  Its controllers watch custom
    resources and call reconcile functions; a reconcile reads objects of the Kubernetes API
    server and the state of Ceph (through the command [ceph] and its JSON output), decides, and
    writes objects or runs commands.  The operator keeps little state of its own: what must
    survive is kept in config maps, annotations and labels.  The correctness questions are
    therefore about decisions and their order: when may a daemon be stopped, a mon be removed,
    an OSD be destroyed, a node be drained, and what is left behind when a step fails.

    ** Files and the code they model (all paths under [src/pkg])

    - Prelude (this file): Go's integers, errors, error wrapping, strings, and the state and
      error monad [M W] in which the handlers are written; no code of the repository.
    - Sha256: SHA-256 and its hexadecimal form, behind [k8sutil.Hash].
    - Names: [operator/k8sutil/name.go] (module [DaemonName]), names and labels of
      [operator/k8sutil/k8sutil.go] (module [ObjectName]).
    - CephVersion: [operator/ceph/version/version.go].
    - GoTime: the RFC 3339 time stamps the operator stores.
    - Topology: [operator/ceph/cluster/osd/topology/topology.go].
    - Kube: the objects of the API server and the class [Cluster] of its operations with the
      laws [ClusterLaws] the disruption controller relies on, and a world that satisfies them.  The laws
      take what is read as up to date; the client of the controller reads from a cache, so that the
      theorems on this controller speak of a reconcile whose cache has caught up with its own writes.
    - Disruption: the controller [operator/ceph/disruption/clusterdisruption]; its theorems are
      in DisruptionProofs (helper lemmas), Domains, DrainState and Reconcile.
    - Upgrade: [util/retry.go], [daemon/ceph/client/upgrade.go], parts of [status.go] and
      [osd.go] there, and [operator/ceph/cluster/version.go].
    - MonStore: the endpoints of the mons and the config map that keeps them.
    - Mon: [operator/ceph/cluster/mon]: [health.go], [drain.go], [util.go], [node.go] and the
      orchestration of [mon.go]; its theorems are in MonProofs, MonHealth and MonPlacement.
    - Cephx: [operator/ceph/config/keyring/cephx.go], when the keys of daemons are rotated.
    - OsdBase, OsdSpec, OsdReplace, OsdRollout: [operator/ceph/cluster/osd], the OSD part of the
      operator: deployments and commands; the storage spec resolved for a node; replacement,
      destruction and health of OSDs; the rollout of updates, new OSDs and migrations.  Theorems:
      OsdReplaceProofs and OsdSafety, OsdRolloutProofs and RolloutSafety.
    - Devices, Provision, Prepare, Remove, KeyRotation: [daemon/ceph/osd] with [util/sys] and
      [clusterd/disk.go], the code that runs on a node: devices and their wiping; ceph-volume; the
      prepare job and the start of an OSD; removal; keys of encrypted devices.  Theorems:
      DeviceSafety, PrepareSafety, RemoveSafety and KeySafety, which use the node of NodeLab in
      their witnesses.
    - Pools: [daemon/ceph/client]: [pool.go], [crush_rule.go], the CRUSH map of [crush.go],
      [erasure-code-profile.go], [mirror.go] and [radosnamespace.go].  BlockPool:
      [operator/ceph/pool], the controller of block pools, with the part of
      [operator/ceph/controller] and [operator/ceph/config/monstore.go] it calls.  Theorems:
      PoolSafety and PoolFacts, with the cluster of PoolLab in their witnesses.
    - FsClient: [daemon/ceph/client]: [filesystem.go], [filesystem_mirror.go], [subvolumegroup.go] and the
      commands on keys and modules.  Mds: [operator/ceph/file/mds], the metadata servers, with the
      update of a deployment ([k8sutil/deployment.go]) and the keyrings ([config/keyring/store.go]).
      FileController: [operator/ceph/file], the controller of file systems.  SubVolume:
      [operator/ceph/file/subvolumegroup].  Theorems: FsSafety, MdsSafety and FsFacts, with FsCalm for
      the calls that take nothing away and the cluster of FsLab in their witnesses.
    - RadosNamespace: [operator/ceph/pool/radosnamespace], the controller of rados namespaces; theorem:
      NamespaceSafety.
    - Cleanup: [daemon/ceph/cleanup/radosnamespace.go] and [subvolumegroups.go], the jobs that remove the
      images of a pool or namespace and the subvolumes of a group, with [daemon/ceph/client/image.go], the
      commands on subvolumes and their records, and [cmd/rook/ceph/cleanup.go] (beside [pkg]), which starts
      them; theorems: CleanupSafety, which also joins the settings a controller gives a job with the command
      that reads them.
    - HostCleanup: [daemon/ceph/cleanup/hostpath.go] and [disk.go], the job on a host of a deleted cluster;
      the sanitizing of disks runs in goroutines, for which it has processes with a wait group and a step
      relation, in which no goroutine goes on once the main one has returned or panicked; theorems: HostSafety.
    - CsiKeys: [operator/ceph/csi/secrets.go], the Ceph users of CSI, the generations of their keys and their
      secrets, with [k8sutil/secret.go]; theorem: CsiSafety.

    ** How code becomes definitions

    A pure function is a function.  A method that reads or changes the outside is a program in
    [M W]: it takes a world and returns a world and [Ok] or [Err]; what was changed before an
    error stays changed, as in Go.  An error is a value of [gerror], with [Wrapf] for
    [errors.Wrapf], so that [IsNotFound] looks through wrapping exactly as far as the code's
    error values do.  Where a handler goes on after an error it logs, the program is [try_]ed.
    Logging is left out.  A Go map that is only read by key is a [gmap]; where the code ranges
    over a map, the model takes the entries as a list in the order of the visit and the theorems
    hold for every order.  Integers are [Z]; [GoInt] has the wrap-around of [int] and [int32]
    where a value can reach it.

    The API server, the ceph command, the clock, the commands of a node, JSON decoders, the key
    management service and third-party packages are class parameters ([Cluster], [CephCmd], [MonEnv],
    [OsdEnv], [SpecEnv], [RolloutEnv], [NodeEnv], [ProvisionEnv], [RemoveEnv], [KeyEnv],
    [PoolEnv], [BlockPoolEnv], [FsEnv], [NamespaceEnv], [CleanupEnv], [HostEnv], [CsiEnv], [ErrorText]):
    operations with no definition.  What a theorem needs of them is a law of a class ([ClusterLaws],
    [MonLaws], [KeyLaws], [KeyHealthy], [FsLaws]) with an instance that satisfies it, which the witnesses use.

    The OSD components run in [Log.world W event]: the environment and the list of the calls made so
    far with their answers.  A safety theorem says what precedes a call in this list, for every
    environment; [guarded_from] and [yields] (Prelude) are the small logic for such statements.  In
    KeyRotation the list holds the key slots and secrets after every call, so that a statement on its
    elements is one on every moment at which the process can stop.  For pools and file systems the logic is
    that of triples ([Log.triple]): what a program may rely on in the past and what it guarantees of it; the
    acquisitions and releases of the lock on CRUSH rules are calls in the list too, and a theorem about
    threads speaks of all interleavings of their lists that the lock permits.

    ** Bounds and fuel

    [DaemonName.index_to_name] has 14 rounds of fuel: 26^13 exceeds 2^63, so no [int] needs more.
    [Upgrade.retry_loop] has one round per allowed retry and one more.  [Mon.wait_quorum] makes
    the [retryMax] = 60 attempts the code allows.  [GoTime] and [Sha256] recurse on the data.
    [OsdBase.wait_deleted] and [wait_job_deleted] have the 45 and 30 rounds of the code.  Loops that
    the code does not bound take fuel, and their result says when it ran out: the loop over the results
    of prepare jobs and its restarts ([OutOfFuel]; a rollout whose updates are not blocked needs one
    round per queued OSD, [rollout_terminates]), the removal of an OSD that waits until it is safe
    ([Remove.wait_safe] answers [false]), and [KeyRotation.addEncryptionKey], for which two tries are
    shown to be enough ([rotation_two_tries]).  [Pools.next_rule_id] has one round per rule and one
    more, which is shown to be enough ([fresh_rule_id]); a conflicting update of a status is tried
    five times, as in the code.  The waits for the ranks and standbys of a file system poll 61 and 41 times
    (three and two minutes with an interval of three seconds and a first poll at once), the wait for a
    deployment 100 times, and a module of the manager is enabled with five tries.  Of [float64] the model
    has the rounding to 53 bits, ties to even; the exponents that occur are far from its limits.
    The sanitizing of disks needs no fuel: whatever the order of its goroutines it ends after at most six
    steps per raw OSD and one more, or nine per OSD on a volume and two more ([raw_disks_are_sanitized],
    [volumes_are_zapped_first]).

    ** What the theorems show

    - Names: daemon names and numbers translate both ways; truncated names and labels obey the
      limits of Kubernetes (with one exception that is a finding).
    - CephVersion: one total order behind all comparisons; the parser inverts the printer.
    - Topology: what is extracted from labels, and that the conflict check accepts exactly the
      consistent topologies.
    - Disruption: the drain state in the config map refines an abstract state machine, every
      state it reaches is justified by an observation, budgets and noout flags agree with it
      after every reconcile; which pods the budgets select.
    - Upgrade: an upgrade or a restart goes on only after the checks the code promises; retries
      are bounded.
    - Mons: a health check removes at most one mon, a failover is all or nothing and removes the
      old mon only after the new one was in quorum, a healthy cluster is left alone, waiting is
      bounded, zones are respected, budgets keep the majority where Ceph knows as many mons as are specified, the
      stored endpoints are read back as they were.
    - OSDs in the operator: an OSD is destroyed, and its deployment deleted or changed, only after
      every check of the replacement (that an OSD is not under replacement only if the deployments could
      be listed); the rollout changes only OSDs that may be stopped, each once, and ends or panics, of which
      the case is stated; creations and migrations are checked; recording a rotation of cephx keys ends the reason for it.
    - OSDs on a node: only devices that are free and asked for are chosen, only disks of other
      clusters are wiped, replacements are confined to destroyed OSDs and blank devices and pair as
      many as possible, removals are checked, and no failure of a key rotation locks an encrypted
      OSD out.
    - Pools: a pool is deleted only if it is empty and nothing depends on it; the cleanup of CRUSH
      rules removes only unused ones, and none that a concurrent reconcile has created and not yet
      given to its pool, which the deletion of a pool can; a validated pool is well formed; a new rule gets a fresh ID; the details of
      pools are read back as Ceph prints them; which pools have statistics.
    - File systems: a file system, its pools and a subvolume group are removed only if their resource is
      being deleted and nothing depends on them, as far as Ceph told; an upgrade of the servers goes
      through the steps that Ceph requires one after the other, and a server is updated only after Ceph was
      asked for its letter or if the checks are not binding; the
      cache of a server fits into its pod; the names of the pools are distinct exactly if no name
      collides with a default one.
    - Rados namespaces: a namespace is removed only if its resource is being deleted, no other resource
      stands for it and rbd counted nothing in it.
    - Cleanup jobs: images are removed only after all their clients were fenced, a job that reports success
      has removed what it listed, a host loses only directories of this cluster, and sanitizing disks ends in
      every order of its goroutines with every device given to the command that sanitizes it, volumes being
      zapped before their disks.
    - CSI users: clients are deleted only when newer ones stay, secrets name clients that exist with their
      keys, and the status is recorded last.

    ** Not modelled

    Builders of pod specifications and the rest of the Kubernetes object plumbing (they compute
    large records and decide little), the reconcilers of object stores, NFS
    and mirroring, the configuration of CSI, the command line but for the cleanup jobs, and generated code.  In Mon the scheduling of canary pods,
    the rotation of keys and the configuration of the arbiter are operations of [MonEnv].  On a node,
    partitions and file systems read for discovery only, signal handling and the redaction of logged
    arguments are left out; the regular expressions users write for device names, the key management
    service and the decoding of JSON are parameters.  Of the pools the monitor of the mirroring
    and the map of peers for CSI are left out; of the file systems the templates of the pods, the loop of
    the mirroring monitor and the mirror daemon.  The manifest lists every component with its
    status. *)

From stdpp Require Import base gmap strings list fin_maps sorting.
From Stdlib Require Import ZArith Ascii DecimalString DecimalZ DecimalPos.

#[global] Set Default Goal Selector "!".
Open Scope Z_scope.

(** ** Machine integers

    Go's [int] on the supported platforms is 64 bits wide, two's complement, and
    arithmetic on it wraps. *)
Module GoInt.

Definition min_int64 : Z := - 2 ^ 63.

Definition max_int64 : Z := 2 ^ 63 - 1.

Definition in_int64 (z : Z) : bool := (min_int64 <=? z) && (z <=? max_int64).

Definition wrap64 (z : Z) : Z := (z + 2 ^ 63) mod 2 ^ 64 - 2 ^ 63.

Definition min_int32 : Z := - 2 ^ 31.

Definition max_int32 : Z := 2 ^ 31 - 1.

Definition in_int32 (z : Z) : bool := (min_int32 <=? z) && (z <=? max_int32).

Definition wrap32 (z : Z) : Z := (z + 2 ^ 31) mod 2 ^ 32 - 2 ^ 31.

Lemma in_int64_spec z : in_int64 z = true <-> - 2 ^ 63 <= z < 2 ^ 63.
Proof. unfold in_int64, min_int64, max_int64. lia. Qed.

Lemma in_int32_spec z : in_int32 z = true <-> - 2 ^ 31 <= z < 2 ^ 31.
Proof. unfold in_int32, min_int32, max_int32. lia. Qed.

Lemma wrap64_id z : in_int64 z = true -> wrap64 z = z.
Proof.
  rewrite in_int64_spec. intros H. unfold wrap64.
  rewrite Z.mod_small; lia.
Qed.

Lemma wrap64_range z : in_int64 (wrap64 z) = true.
Proof.
  apply in_int64_spec. unfold wrap64.
  pose proof (Z.mod_pos_bound (z + 2 ^ 63) (2 ^ 64) ltac:(lia)). lia.
Qed.

Lemma wrap32_id z : in_int32 z = true -> wrap32 z = z.
Proof.
  rewrite in_int32_spec. intros H. unfold wrap32.
  rewrite Z.mod_small; lia.
Qed.

End GoInt.
Export GoInt.

(** ** Errors

    The error values the operator builds.  A message keeps its format string and its
    arguments unrendered, [errors.Wrapf] keeps the wrapped error, and the error classes the
    code inspects are constructors of their own. *)
Module GoErr.

Inductive api_reason :=
| NotFound
| AlreadyExists
| OtherReason (code : Z).

Inductive gerror :=
| Errorf (fmt : string) (args : list string)
| Wrapf (e : gerror) (fmt : string) (args : list string)
| APIStatus (r : api_reason)
| ContextCanceled
| External (text : string).

#[global] Instance api_reason_eq_dec : EqDecision api_reason.
Proof. solve_decision. Defined.

(** [apierrors.IsNotFound] and its siblings look through wrapping ([errors.As]). *)
Fixpoint ReasonForError (e : gerror) : option api_reason :=
  match e with
  | APIStatus r => Some r
  | Wrapf e' _ _ => ReasonForError e'
  | _ => None
  end.

Definition IsNotFound (e : gerror) : bool := bool_decide (ReasonForError e = Some NotFound).

Definition IsAlreadyExists (e : gerror) : bool :=
  bool_decide (ReasonForError e = Some AlreadyExists).

(** [errors.Is(err, context.Canceled)] *)
Fixpoint IsCanceled (e : gerror) : bool :=
  match e with
  | ContextCanceled => true
  | Wrapf e' _ _ => IsCanceled e'
  | _ => false
  end.

Inductive result (A : Type) :=
| Ok (a : A)
| Err (e : gerror).

Arguments Ok {A} a.
Arguments Err {A} e.

#[global] Instance result_ret : MRet result := fun A a => Ok a.

#[global] Instance result_bind : MBind result := fun A B f m =>
  match m with Ok a => f a | Err e => Err e end.

Definition is_ok {A} (r : result A) : bool := match r with Ok _ => true | Err _ => false end.

(** [if err != nil { return errors.Wrapf(err, fmt, args...) }] *)
Definition wrap_err {A} (r : result A) (fmt : string) (args : list string) : result A :=
  match r with Ok a => Ok a | Err e => Err (Wrapf e fmt args) end.

Lemma is_ok_spec {A} (r : result A) : is_ok r = true <-> exists a, r = Ok a.
Proof. destruct r; naive_solver. Qed.

Lemma result_bind_ok {A B} (m : result A) (f : A -> result B) b :
  (m ≫= f) = Ok b <-> exists a, m = Ok a /\ f a = Ok b.
Proof. destruct m; naive_solver. Qed.

Lemma wrap_err_ok {A} (r : result A) fmt args a : wrap_err r fmt args = Ok a <-> r = Ok a.
Proof. destruct r; naive_solver. Qed.

(** [for _, x := range l { if err := f(x); err != nil { return err } }] without effects *)
Fixpoint forE_ {A} (l : list A) (f : A -> result unit) : result unit :=
  match l with
  | [] => Ok ()
  | x :: l' => match f x with Ok _ => forE_ l' f | Err e => Err e end
  end.

Lemma forE_ok {A} (l : list A) (f : A -> result unit) :
  forE_ l f = Ok () <-> (forall x, x ∈ l -> f x = Ok ()).
Proof.
  induction l as [|y l IH]; simpl.
  - split; [|done]. intros _ x Hx. by apply elem_of_nil in Hx.
  - destruct (f y) as [[]|e] eqn:E.
    + rewrite IH. split.
      * intros H x [->|Hx]%elem_of_cons; auto.
      * intros H x Hx. apply H. by apply elem_of_cons; right.
    + split; [done|]. intros H. rewrite <- E. apply H. by apply elem_of_cons; left.
Qed.

Lemma IsNotFound_Wrapf e fmt args : IsNotFound (Wrapf e fmt args) = IsNotFound e.
Proof. done. Qed.

End GoErr.
Export GoErr.

(** ** Effects

    A handler that talks to the outside world threads a world state and may fail. *)
Module Effect.

Definition M (W A : Type) : Type := W -> W * result A.

#[global] Instance M_ret {W} : MRet (M W) := fun A a w => (w, Ok a).

#[global] Instance M_bind {W} : MBind (M W) := fun A B f m w =>
  match m w with
  | (w', Ok a) => f a w'
  | (w', Err e) => (w', Err e)
  end.

Definition fail {W A} (e : gerror) : M W A := fun w => (w, Err e).

Definition lift {W A} (r : result A) : M W A := fun w => (w, r).

(** Run [m] and hand its error, if any, to the continuation: Go's [x, err := m()]. *)
Definition try_ {W A} (m : M W A) : M W (result A) := fun w =>
  let '(w', r) := m w in (w', Ok r).

Definition wrapM {W A} (m : M W A) (fmt : string) (args : list string) : M W A := fun w =>
  let '(w', r) := m w in (w', wrap_err r fmt args).

(** [for _, x := range l { if err := f(x); err != nil { return err } }] *)
Fixpoint forM_ {W A} (l : list A) (f : A -> M W unit) : M W unit :=
  match l with
  | [] => mret ()
  | x :: l' => f x ≫= fun _ => forM_ l' f
  end.

Lemma M_bind_ok {W A B} (m : M W A) (f : A -> M W B) w w' b :
  (m ≫= f) w = (w', Ok b) <->
  exists w1 a, m w = (w1, Ok a) /\ f a w1 = (w', Ok b).
Proof.
  unfold mbind, M_bind. destruct (m w) as [w1 [a|e]]; naive_solver.
Qed.

Lemma wrapM_ok {W A} (m : M W A) fmt args w w' a :
  wrapM m fmt args w = (w', Ok a) <-> m w = (w', Ok a).
Proof.
  unfold wrapM. destruct (m w) as [w1 r]. destruct r; naive_solver.
Qed.

Lemma try_inv {W A} (m : M W A) w w' r : try_ m w = (w', r) -> exists r', r = Ok r' /\ m w = (w', r').
Proof. unfold try_. destruct (m w). naive_solver. Qed.

(** An invariant kept by the body of a loop is kept by a loop that succeeds. *)
Lemma forM_inv {W A} (f : A -> M W unit) (l : list A) (I : W -> Prop) :
  (forall x w w', x ∈ l -> I w -> f x w = (w', Ok ()) -> I w') ->
  forall w w', I w -> forM_ l f w = (w', Ok ()) -> I w'.
Proof.
  induction l as [|y l IH]; intros Hstep w w' HI Hrun; simpl in Hrun.
  - by inversion Hrun; subst.
  - apply M_bind_ok in Hrun as (w1 & [] & Hy & Hrest).
    eapply (IH ltac:(set_solver) w1); [|done]. eapply Hstep; [|done..]. set_solver.
Qed.

(** A loop that succeeds has run its body successfully on every element: a fact each body
    establishes, and which the other bodies keep, holds of all the elements at the end. *)
Lemma forM_ok {W A} (f : A -> M W unit) (l : list A) (I : W -> Prop) (P : A -> W -> Prop) :
  (forall x w w', x ∈ l -> I w -> f x w = (w', Ok ()) -> I w' /\ P x w') ->
  (forall x y w w', x ∈ l -> y ∈ l -> I w -> P x w -> f y w = (w', Ok ()) -> P x w') ->
  forall w w', I w -> forM_ l f w = (w', Ok ()) -> I w' /\ (forall x, x ∈ l -> P x w').
Proof.
  induction l as [|y l IH]; intros Hstep Hstable w w' HI Hrun; simpl in Hrun.
  - inversion Hrun; subst. set_solver.
  - apply M_bind_ok in Hrun as (w1 & [] & Hy & Hrest).
    destruct (Hstep y w w1 ltac:(set_solver) HI Hy) as [HI1 HPy].
    assert (I w' /\ P y w') as [HI' HPy'].
    { eapply (forM_inv f l (fun w => I w /\ P y w)); [|by split|done].
      intros x v v' Hx [Hv HPv] Hrun.
      destruct (Hstep x v v' ltac:(set_solver) Hv Hrun).
      split; [done|]. eapply (Hstable y x v v'); [set_solver..|done|done|done]. }
    destruct (IH ltac:(set_solver) ltac:(set_solver) w1 w' HI1 Hrest) as [_ Hall].
    split; [done|]. intros x [->|Hx]%elem_of_cons; auto.
Qed.

(** Decompose a run that succeeds. *)
Ltac inv_run :=
  repeat match goal with
  | H : context [let '(_, _) := ?p in _] |- _ => is_var p; destruct p
  | H : (_ ≫= _) _ = (_, Ok _) |- _ =>
      let w := fresh "w" in let a := fresh "a" in let H1 := fresh "Hrun" in
      apply M_bind_ok in H as (w & a & H1 & H)
  | H : wrapM _ _ _ _ = (_, Ok _) |- _ => apply wrapM_ok in H
  | H : try_ _ _ = (_, Ok _) |- _ =>
      let r := fresh "r" in let Hr := fresh "Hr" in
      apply try_inv in H as (r & Hr & H); injection Hr as ->
  | H : lift _ _ = (_, Ok _) |- _ => unfold lift in H
  | H : fail _ _ = (_, Ok _) |- _ => discriminate H
  | H : (_, Err _) = (_, Ok _) |- _ => discriminate H
  | H : mret _ _ = (_, _) |- _ => unfold mret, M_ret in H
  | H : (_, _) = (_, _) |- _ => first [discriminate H | injection H; clear H; intros; subst]
  | a : unit |- _ => destruct a
  end.

End Effect.
Export Effect.

(** ** Strings

    A Go string is a sequence of bytes: [string], whose characters are the bytes. *)
Module GoString.

#[global] Arguments String.append : simpl nomatch.

(** [strconv.Itoa] and the verb [%d] *)
Definition Itoa (z : Z) : string := NilZero.string_of_int (Z.to_int z).

(** [strconv.FormatBool] *)
Definition FormatBool (b : bool) : string := if b then "true" else "false".

(** The digits of [s] as a number; [None] for the empty string or a byte that is no digit. *)
Definition parse_digits (s : string) : option Z :=
  Z.of_uint <$> NilZero.uint_of_string s.

(** [strconv.Atoi]: an optional sign, at least one digit, and a value in the range of
    [int]. *)
Definition Atoi (s : string) : option Z :=
  let v := match s with
           | String "+"%char r => parse_digits r
           | String "-"%char r => Z.opp <$> parse_digits r
           | _ => parse_digits s
           end in
  match v with
  | Some z => if in_int64 z then Some z else None
  | None => None
  end.

Definition ascii_Z (c : Ascii.ascii) : Z := Z.of_nat (Ascii.nat_of_ascii c).

(** The one-byte string of [%c] for a rune below 128. *)
Definition chr (z : Z) : string := String (Ascii.ascii_of_nat (Z.to_nat z)) "".

Definition is_digit (c : Ascii.ascii) : bool := (48 <=? ascii_Z c) && (ascii_Z c <=? 57).

Definition len (s : string) : Z := Z.of_nat (String.length s).

(** [strings.HasPrefix], as the remainder of the string after the prefix. *)
Fixpoint strip_prefix (p s : string) : option string :=
  match p, s with
  | "", _ => Some s
  | String a p', String b s' => if Ascii.eqb a b then strip_prefix p' s' else None
  | String _ _, "" => None
  end.

Definition HasPrefix (s p : string) : bool :=
  match strip_prefix p s with Some _ => true | None => false end.

Definition HasSuffix (s p : string) : bool := HasPrefix (String.rev s) (String.rev p).

(** [strings.Contains] *)
Fixpoint Contains (s sub : string) : bool :=
  HasPrefix s sub || match s with "" => false | String _ s' => Contains s' sub end.

(** [strings.Join] *)
Definition Join (l : list string) (sep : string) : string := String.concat sep l.

(** [strings.Split] on a one-byte separator *)
Fixpoint split_byte (sep : Ascii.ascii) (s : string) : list string :=
  match s with
  | "" => [""]
  | String c s' =>
      if Ascii.eqb c sep then "" :: split_byte sep s'
      else match split_byte sep s' with
           | [] => [String c ""]
           | w :: ws => String c w :: ws
           end
  end.

Fixpoint map_bytes (f : Ascii.ascii -> Ascii.ascii) (s : string) : string :=
  match s with "" => "" | String c s' => String (f c) (map_bytes f s') end.

Fixpoint TrimLeft (cut : Ascii.ascii -> bool) (s : string) : string :=
  match s with
  | "" => ""
  | String c s' => if cut c then TrimLeft cut s' else s
  end.

Definition TrimRight (cut : Ascii.ascii -> bool) (s : string) : string :=
  String.rev (TrimLeft cut (String.rev s)).

(** The width of the first rune of [s] as [utf8.DecodeRuneInString] reports it: one byte for
    ASCII and for an invalid sequence. *)
Definition cont (lo hi : Z) (s : string) : bool :=
  match s with String c _ => (lo <=? ascii_Z c) && (ascii_Z c <=? hi) | "" => false end.

Definition tail (s : string) : string := match s with String _ r => r | "" => "" end.

Definition utf8_width (s : string) : nat :=
  match s with
  | "" => 0%nat
  | String c r =>
      let b := ascii_Z c in
      let r1 := tail r in
      let r2 := tail r1 in
      let in_ lo hi := (lo <=? b) && (b <=? hi) in
      if in_ 0xC2 0xDF then (if cont 0x80 0xBF r then 2%nat else 1%nat)
      else if in_ 0xE0 0xEF then
        (let lo := if b =? 0xE0 then 0xA0 else 0x80 in
         let hi := if b =? 0xED then 0x9F else 0xBF in
         if cont lo hi r && cont 0x80 0xBF r1 then 3%nat else 1%nat)
      else if in_ 0xF0 0xF4 then
        (let lo := if b =? 0xF0 then 0x90 else 0x80 in
         let hi := if b =? 0xF4 then 0x8F else 0xBF in
         if cont lo hi r && cont 0x80 0xBF r1 && cont 0x80 0xBF r2 then 4%nat else 1%nat)
      else 1%nat
  end.

Lemma parse_digits_Itoa z : 0 <= z -> parse_digits (Itoa z) = Some z.
Proof.
  intros Hz. unfold parse_digits, Itoa, NilZero.string_of_int.
  pose proof (DecimalZ.of_to z) as Hof.
  destruct z as [|p|p]; [done| |lia].
  simpl in *. rewrite NilZero.usu; [|by apply DecimalPos.Unsigned.to_uint_nonnil].
  simpl. f_equal. exact Hof.
Qed.

Lemma Itoa_opp p : Itoa (Z.neg p) = ("-" +:+ Itoa (Z.pos p))%string.
Proof. reflexivity. Qed.

(** The first byte of a rendered non-negative number is a digit, so no sign is read. *)
Lemma Atoi_nonneg z : 0 <= z -> in_int64 z = true -> Atoi (Itoa z) = Some z.
Proof.
  intros Hz Hr. unfold Atoi.
  assert (exists c r, Itoa z = String c r /\ c <> "+"%char /\ c <> "-"%char) as (c & r & E & Hp & Hm).
  { destruct z as [|p|p]; [by do 2 eexists| |lia].
    unfold Itoa. simpl. unfold NilZero.string_of_uint.
    pose proof (DecimalPos.Unsigned.to_uint_nonnil p).
    destruct (Pos.to_uint p); simpl; try done; by do 2 eexists. }
  pose proof (parse_digits_Itoa z Hz) as Hd.
  rewrite E in Hd |- *.
  destruct c as [[] [] [] [] [] [] [] []]; try (by rewrite Hd, Hr); try done.
Qed.

Lemma Atoi_Itoa z : in_int64 z = true -> Atoi (Itoa z) = Some z.
Proof.
  intros Hr. destruct (Z_le_gt_dec 0 z) as [Hz|Hz]; [by apply Atoi_nonneg|].
  destruct z as [|p|p]; [lia..|].
  rewrite Itoa_opp.
  change (match Z.opp <$> parse_digits (Itoa (Z.pos p)) with
          | Some z => if in_int64 z then Some z else None
          | None => None
          end = Some (Z.neg p)).
  rewrite parse_digits_Itoa by lia. 
  change (Z.opp <$> Some (Z.pos p)) with (Some (Z.neg p)). cbv iota. by rewrite Hr.
Qed.

Lemma Atoi_range s z : Atoi s = Some z -> in_int64 z = true.
Proof. unfold Atoi. intros H. repeat case_match; simplify_eq; done. Qed.

Lemma Itoa_inj y z : in_int64 y = true -> in_int64 z = true -> Itoa y = Itoa z -> y = z.
Proof. intros Hy%Atoi_Itoa Hz%Atoi_Itoa E. congruence. Qed.

Lemma ascii_Z_range c : 0 <= ascii_Z c < 256.
Proof. unfold ascii_Z. pose proof (Ascii.nat_ascii_bounded c). lia. Qed.

Lemma ascii_Z_of z : 0 <= z < 256 -> ascii_Z (Ascii.ascii_of_nat (Z.to_nat z)) = z.
Proof. intros H. unfold ascii_Z. rewrite Ascii.nat_ascii_embedding; lia. Qed.

Lemma ascii_Z_inj c d : ascii_Z c = ascii_Z d -> c = d.
Proof.
  unfold ascii_Z. intros H.
  rewrite <- (Ascii.ascii_nat_embedding c), <- (Ascii.ascii_nat_embedding d).
  f_equal. lia.
Qed.

Lemma app_string_assoc (a b c : string) : ((a +:+ b) +:+ c = a +:+ (b +:+ c))%string.
Proof. induction a as [|x a IH]; simpl; [done|]. by rewrite IH. Qed.

Lemma app_string_nil_r (a : string) : (a +:+ "" = a)%string.
Proof. induction a as [|x a IH]; simpl; [done|]. by rewrite IH. Qed.

Lemma length_app_string (a b : string) :
  String.length (a +:+ b)%string = (String.length a + String.length b)%nat.
Proof. induction a as [|x a IH]; simpl; [done|]. by rewrite IH. Qed.

Lemma len_app a b : len (a +:+ b)%string = len a + len b.
Proof. unfold len. rewrite length_app_string. lia. Qed.

Lemma len_nonneg s : 0 <= len s.
Proof. unfold len. lia. Qed.

Lemma strip_prefix_app p s : strip_prefix p (p +:+ s)%string = Some s.
Proof.
  induction p as [|a p IH]; simpl; [by destruct s|].
  by rewrite Ascii.eqb_refl.
Qed.

Lemma strip_prefix_Some p s r : strip_prefix p s = Some r <-> s = (p +:+ r)%string.
Proof.
  split; [|intros ->; apply strip_prefix_app].
  revert s. induction p as [|a p IH]; intros [|b s] H; simpl in *; simplify_eq; [done..|].
  destruct (Ascii.eqb_spec a b); [subst|done]. f_equal. by apply IH.
Qed.

Lemma HasPrefix_spec s p : HasPrefix s p = true <-> exists r, s = (p +:+ r)%string.
Proof.
  unfold HasPrefix. destruct (strip_prefix p s) eqn:E.
  - apply strip_prefix_Some in E. naive_solver.
  - split; [done|]. intros [r ->]. by rewrite strip_prefix_app in E.
Qed.

Lemma app_string_inj_l (p a b : string) : (p +:+ a = p +:+ b)%string -> a = b.
Proof. induction p as [|x p IH]; simpl; [done|]. intros [= H]. by apply IH. Qed.

Fixpoint all_chars (p : ascii -> bool) (s : string) : bool :=
  match s with "" => true | String c s' => p c && all_chars p s' end.

Lemma app_string_inj_r (p a b : string) : (a +:+ p = b +:+ p)%string -> a = b.
Proof.
  revert b. induction a as [|c a IH]; intros [|d b] H; simpl in H; [done| | |].
  - apply (f_equal String.length) in H. simpl in H. rewrite length_app_string in H. lia.
  - apply (f_equal String.length) in H. simpl in H. rewrite length_app_string in H. lia.
  - injection H as -> H. f_equal. by apply IH.
Qed.

Lemma all_chars_app p a b : all_chars p (a +:+ b) = all_chars p a && all_chars p b.
Proof. induction a as [|c a IH]; simpl; [done|]. by rewrite IH, andb_assoc. Qed.

Lemma all_chars_impl (p q : ascii -> bool) s :
  (forall c, p c = true -> q c = true) -> all_chars p s = true -> all_chars q s = true.
Proof.
  intros H. induction s as [|c s IH]; simpl; [done|].
  intros [H1 H2]%andb_prop. by rewrite (H c H1), IH.
Qed.

(** [sep] does not occur in [s]. *)
Definition free_of (sep : ascii) (s : string) : bool := all_chars (fun c => negb (Ascii.eqb c sep)) s.

Lemma split_byte_free sep s : free_of sep s = true -> split_byte sep s = [s].
Proof.
  induction s as [|c s IH]; [done|]. intros [Hc%negb_true_iff Hs]%andb_prop. cbn [split_byte].
  by rewrite Hc, (IH Hs).
Qed.

Lemma split_byte_app sep a b :
  free_of sep a = true -> split_byte sep (a +:+ String sep b) = a :: split_byte sep b.
Proof.
  induction a as [|c a IH]; intros Ha; cbn [split_byte String.append].
  - change ("" +:+ String sep b) with (String sep b). cbn [split_byte]. by rewrite Ascii.eqb_refl.
  - apply andb_prop in Ha as [Hc%negb_true_iff Ha].
    change (String c a +:+ String sep b) with (String c (a +:+ String sep b)). cbn [split_byte].
    by rewrite Hc, (IH Ha).
Qed.

(** Splitting undoes joining. *)
Lemma split_Join sep l :
  l <> [] -> Forall (fun s => free_of sep s = true) l -> split_byte sep (Join l (String sep "")) = l.
Proof.
  intros Hne Hall. unfold Join. induction Hall as [|x l Hx Hl IH]; [done|].
  destruct l as [|y l]; [by apply split_byte_free|].
  cbn [String.concat]. change (String sep "" +:+ ?s) with (String sep s).
  rewrite split_byte_app by done. f_equal. by apply IH.
Qed.

Lemma Itoa_digits z : 0 <= z -> all_chars is_digit (Itoa z) = true /\ Itoa z <> "".
Proof.
  intros Hz. unfold Itoa. destruct z as [|p|p]; [done| |lia]. simpl.
  unfold NilZero.string_of_uint.
  pose proof (DecimalPos.Unsigned.to_uint_nonnil p) as Hn.
  assert (forall u, all_chars is_digit (NilEmpty.string_of_uint u) = true) as H
    by (induction u; simpl; done).
  destruct (Pos.to_uint p) as [| | | | | | | | | |]; [done|..]; split; try done; simpl; apply H.
Qed.

Lemma free_of_app c a b : free_of c (a +:+ b) = free_of c a && free_of c b.
Proof. apply all_chars_app. Qed.

Lemma Itoa_free c z : 0 <= z -> is_digit c = false -> free_of c (Itoa z) = true.
Proof.
  intros Hz Hc. destruct (Itoa_digits z Hz) as [Hd _]. revert Hd. apply all_chars_impl.
  intros x Hx. apply negb_true_iff. destruct (Ascii.eqb_spec x c); congruence.
Qed.

Lemma rev_app_spec s t : String.rev_app s t = String.rev_app s "" +:+ t.
Proof.
  revert t. induction s as [|c s IH]; intros t; [done|]. simpl.
  rewrite (IH (String c t)), (IH (String c "")), app_string_assoc. done.
Qed.

Lemma rev_cons c s : String.rev (String c s) = String.rev s +:+ String c "".
Proof. unfold String.rev. simpl. apply rev_app_spec. Qed.

Lemma rev_snoc s c : String.rev (s +:+ String c "") = String c (String.rev s).
Proof.
  induction s as [|d s IH]; [done|].
  simpl. rewrite rev_cons, IH. simpl. by rewrite rev_cons.
Qed.

Lemma rev_rev s : String.rev (String.rev s) = s.
Proof. induction s as [|c s IH]; [done|]. by rewrite rev_cons, rev_snoc, IH. Qed.

Lemma string_snoc_ind (P : string -> Prop) :
  P "" -> (forall s c, P s -> P (s +:+ String c "")) -> forall s, P s.
Proof.
  intros H0 Hs.
  assert (forall n s, String.length s = n -> P s) as H; [|by intros; eapply H].
  induction n as [|n IH]; intros s Hn.
  - by destruct s.
  - assert (exists s' c, s = s' +:+ String c "") as (s' & c & ->).
    { clear IH Hs H0 P. revert n Hn. induction s as [|x s IHs]; intros n Hn; [done|].
      destruct s as [|y s].
      - by exists "", x.
      - destruct n as [|n]; [done|].
        destruct (IHs n) as (s' & c & ->); [simpl in Hn |- *; lia|].
        by exists (String x s'), c. }
    apply Hs, IH. rewrite length_app_string in Hn. simpl in Hn. lia.
Qed.

Lemma Itoa_injective y z : Itoa y = Itoa z -> y = z.
Proof.
  assert (forall n p, 0 <= n -> Itoa n <> Itoa (Z.neg p)) as Hsign.
  { intros n p Hn E. destruct (Itoa_digits n Hn) as [Hd _]. rewrite E, Itoa_opp in Hd. done. }
  intros E. destruct (Z_le_gt_dec 0 y), (Z_le_gt_dec 0 z).
  - apply (f_equal parse_digits) in E. rewrite !parse_digits_Itoa in E by done. congruence.
  - destruct z as [| |p]; [lia..|]. by apply Hsign in E.
  - destruct y as [| |p]; [lia..|]. symmetry in E. by apply Hsign in E.
  - destruct y as [| |p], z as [| |q]; [lia..|]. rewrite !Itoa_opp in E. apply app_string_inj_l in E.
    apply (f_equal parse_digits) in E. rewrite !parse_digits_Itoa in E by done. congruence.
Qed.

(** [sort.Strings] and [sets.List]: ascending byte order *)
Definition string_le (a b : string) : Prop := String.leb a b = true.

#[global] Instance string_le_dec : RelDecision string_le.
Proof. intros a b. unfold string_le. apply _. Defined.

Definition sort_strings (l : list string) : list string := merge_sort string_le l.

Lemma sort_strings_Permutation l : sort_strings l ≡ₚ l.
Proof. apply merge_sort_Permutation. Qed.

Lemma elem_of_sort_strings x l : x ∈ sort_strings l <-> x ∈ l.
Proof. by rewrite sort_strings_Permutation. Qed.

Lemma map_bytes_length f s : String.length (map_bytes f s) = String.length s.
Proof. induction s as [|c s IH]; simpl; [done|]. by rewrite IH. Qed.

End GoString.
Export GoString.

(** ** Logs

    A world that records every call with its answer.  The handlers never read the log, so a
    theorem on the log of a run is a theorem on the calls of the code, in their order. *)
Module Log.

Record world (W E : Type) := World { env : W; log : list E }.
#[global] Arguments World {W E} _ _.
#[global] Arguments env {W E} _.
#[global] Arguments log {W E} _.

Section Log.
Context {W E : Type}.

Definition record {A} (ev : result A -> E) (m : M W A) : M (world W E) A := fun w =>
  let '(e, r) := m (env w) in (World e (log w ++ [ev r]), r).

(** An operation that is not recorded. *)
Definition silent {A} (m : M W A) : M (world W E) A := fun w =>
  let '(e, r) := m (env w) in (World e (log w), r).

(** Started with the log [h], whatever the environment answers, [m] ends with a result and a log
    that satisfy [Q]. *)
Definition logs {A} (m : M (world W E) A) (Q : result A -> list E -> Prop) (h : list E) : Prop :=
  forall e, Q (m (World e h)).2 (log (m (World e h)).1).

Lemma logs_mono {A} (m : M (world W E) A) (Q Q' : result A -> list E -> Prop) h :
  (forall r h', Q r h' -> Q' r h') -> logs m Q h -> logs m Q' h.
Proof. intros HQ Hm e. apply HQ, Hm. Qed.

Lemma logs_ret {A} (a : A) (Q : result A -> list E -> Prop) h : Q (Ok a) h -> logs (mret a) Q h.
Proof. by intros HQ e. Qed.

Lemma logs_fail {A} err (Q : result A -> list E -> Prop) h : Q (Err err) h -> logs (fail err) Q h.
Proof. by intros HQ e. Qed.

Lemma logs_lift {A} (r : result A) (Q : result A -> list E -> Prop) h : Q r h -> logs (lift r) Q h.
Proof. by intros HQ e. Qed.

Lemma logs_bind {A B} (m : M (world W E) A) (k : A -> M (world W E) B) (Q : result B -> list E -> Prop) h :
  logs m (fun r h' => match r with Ok a => logs (k a) Q h' | Err err => Q (Err err) h' end) h ->
  logs (m ≫= k) Q h.
Proof.
  intros Hm e. specialize (Hm e). unfold mbind, M_bind.
  destruct (m (World e h)) as [[e' h'] [a|err]]; simpl in *; [apply Hm|done].
Qed.

Lemma logs_try {A} (m : M (world W E) A) (Q : result (result A) -> list E -> Prop) h :
  logs m (fun r h' => Q (Ok r) h') h -> logs (try_ m) Q h.
Proof. intros Hm e. specialize (Hm e). unfold try_. by destruct (m (World e h)). Qed.

Lemma logs_wrapM {A} (m : M (world W E) A) fmt args (Q : result A -> list E -> Prop) h :
  logs m (fun r h' => Q (wrap_err r fmt args) h') h -> logs (wrapM m fmt args) Q h.
Proof. intros Hm e. specialize (Hm e). unfold wrapM. by destruct (m (World e h)) as [? []]. Qed.

Lemma logs_record {A} (ev : result A -> E) (m : M W A) (Q : result A -> list E -> Prop) h :
  (forall r, Q r (h ++ [ev r])) -> logs (record ev m) Q h.
Proof. intros HQ e. unfold record. simpl. destruct (m e). apply HQ. Qed.

Lemma logs_silent {A} (m : M W A) (Q : result A -> list E -> Prop) h :
  (forall r, Q r h) -> logs (silent m) Q h.
Proof. intros HQ e. unfold silent. simpl. destruct (m e). apply HQ. Qed.

(** ** Runs whose every call is harmless *)

Section Harmless.
Context (ok : E -> Prop).

Definition harmless {A} (m : M (world W E) A) : Prop :=
  forall h, logs m (fun _ h' => exists l, h' = h ++ l /\ Forall ok l) h.

Lemma harmless_ret {A} (a : A) : harmless (mret a).
Proof. intros h. apply logs_ret. exists []. by rewrite app_nil_r. Qed.

Lemma harmless_fail {A} err : harmless (A := A) (fail err).
Proof. intros h. apply logs_fail. exists []. by rewrite app_nil_r. Qed.

Lemma harmless_lift {A} (r : result A) : harmless (lift r).
Proof. intros h. apply logs_lift. exists []. by rewrite app_nil_r. Qed.

Lemma harmless_bind {A B} (m : M (world W E) A) (k : A -> M (world W E) B) :
  harmless m -> (forall a, harmless (k a)) -> harmless (m ≫= k).
Proof.
  intros Hm Hk h. apply logs_bind. eapply logs_mono; [|apply Hm].
  intros [a|err] h' (l & -> & Hl); [|by exists l].
  eapply logs_mono; [|apply Hk]. intros r h' (l' & -> & Hl').
  exists (l ++ l'). split; [by rewrite (assoc_L (++))|by apply Forall_app].
Qed.

Lemma harmless_try {A} (m : M (world W E) A) : harmless m -> harmless (try_ m).
Proof. intros Hm h. apply logs_try, Hm. Qed.

Lemma harmless_wrapM {A} (m : M (world W E) A) fmt args : harmless m -> harmless (wrapM m fmt args).
Proof. intros Hm h. apply logs_wrapM, Hm. Qed.

Lemma harmless_record {A} (ev : result A -> E) (m : M W A) : (forall r, ok (ev r)) -> harmless (record ev m).
Proof. intros He h. apply logs_record. intros r. exists [ev r]. split; [done|]. by repeat constructor. Qed.

Lemma harmless_silent {A} (m : M W A) : harmless (silent m).
Proof. intros h. apply logs_silent. intros r. exists []. by rewrite app_nil_r. Qed.

Lemma harmless_forM {A} (f : A -> M (world W E) unit) l : (forall a, harmless (f a)) -> harmless (forM_ l f).
Proof.
  intros Hf. induction l as [|a l IH]; [apply harmless_ret|]. cbn [forM_].
  apply harmless_bind; [apply Hf|by intros _].
Qed.

Lemma logs_harmless {A} (m : M (world W E) A) (Q : result A -> list E -> Prop) h :
  harmless m -> (forall r l, Forall ok l -> Q r (h ++ l)) -> logs m Q h.
Proof. intros Hm HQ. eapply logs_mono; [|apply Hm]. intros r h' (l & -> & Hl). by apply HQ. Qed.

End Harmless.

Lemma harmless_impl (ok ok' : E -> Prop) {A} (m : M (world W E) A) :
  (forall ev, ok ev -> ok' ev) -> harmless ok m -> harmless ok' m.
Proof.
  intros Himp Hm h. eapply logs_mono; [|apply Hm]. intros r h' (l & -> & Hl). exists l. split; [done|].
  by eapply Forall_impl.
Qed.

(** ** What must have happened before a call *)

Section Guarded.
Context (needs : list E -> E -> Prop).

Definition guarded (h : list E) : Prop := forall pre e post, h = pre ++ e :: post -> needs pre e.

Lemma guarded_nil : guarded [].
Proof. intros pre e post H. by destruct pre. Qed.

Lemma guarded_snoc h e : guarded h -> needs h e -> guarded (h ++ [e]).
Proof.
  intros Hh He pre e' post H.
  destruct post as [|x post _] using rev_ind.
  - apply app_inj_tail in H as [-> ->]. done.
  - rewrite app_comm_cons, (assoc_L (++)) in H. apply app_inj_tail in H as [-> ->]. by eapply Hh.
Qed.

Lemma guarded_free h l : guarded h -> Forall (fun e => forall pre, needs pre e) l -> guarded (h ++ l).
Proof.
  intros Hh Hl. revert h Hh. induction Hl as [|e l He Hl IH]; intros h Hh; [by rewrite app_nil_r|].
  rewrite cons_middle, (assoc_L (++)). apply IH. by apply guarded_snoc.
Qed.

(** Every call of [h] was justified, and [h0] is in its past. *)
Definition good (h0 h : list E) : Prop := guarded h /\ h0 `sublist_of` h.

Lemma good_refl h : guarded h -> good h h.
Proof. by split. Qed.

Lemma good_trans h1 h2 h3 : good h1 h2 -> good h2 h3 -> good h1 h3.
Proof. intros [_ Ha] [Hb Hc]. split; [done|]. by etrans. Qed.

Lemma good_snoc h0 h e : good h0 h -> needs h e -> good h0 (h ++ [e]).
Proof.
  intros [Hg Hs] Hn. split; [by apply guarded_snoc|]. etrans; [exact Hs|]. by apply sublist_inserts_r.
Qed.

Lemma good_free h0 h l : good h0 h -> Forall (fun e => forall pre, needs pre e) l -> good h0 (h ++ l).
Proof.
  intros [Hg Hs] Hl. split; [by apply guarded_free|]. etrans; [exact Hs|]. by apply sublist_inserts_r.
Qed.

End Guarded.

(** ** The calls of a program by themselves *)

(** After the calls [h], every call of [l] is justified. *)
Definition guarded_from (needs : list E -> E -> Prop) (h l : list E) : Prop :=
  forall pre e post, l = pre ++ e :: post -> needs (h ++ pre) e.

Lemma guarded_from_nil needs h : guarded_from needs h [].
Proof. intros pre e post H. by destruct pre. Qed.

Lemma guarded_from_app needs h l l' :
  guarded_from needs h l -> guarded_from needs (h ++ l) l' -> guarded_from needs h (l ++ l').
Proof.
  intros Hl Hl' pre e post H. apply app_eq_app in H as (k & [[-> Hk]|[-> Hk]]).
  - destruct k as [|x k].
    + specialize (Hl' [] e post). rewrite !app_nil_r in *. by apply Hl'.
    + cbn in Hk. injection Hk as <- ->. by eapply Hl.
  - rewrite (assoc_L (++)). by eapply Hl'.
Qed.

Lemma guarded_from_all needs h l : Forall (fun e => forall pre, needs pre e) l -> guarded_from needs h l.
Proof. intros Hl pre e post ->. rewrite Forall_app, Forall_cons in Hl. apply Hl. Qed.

Lemma guarded_from_impl (needs needs' : list E -> E -> Prop) h l :
  (forall pre e, needs (h ++ pre) e -> needs' (h ++ pre) e) -> guarded_from needs h l -> guarded_from needs' h l.
Proof. intros Himp Hl pre e post E1. by eapply Himp, Hl. Qed.

(** Whatever the environment answers, [m] makes only calls that are [ok], and its result and its
    calls satisfy [Q]. *)
Definition yields (ok : E -> Prop) {A} (m : M (world W E) A) (Q : result A -> list E -> Prop) : Prop :=
  forall h, logs m (fun r h' => exists l, h' = h ++ l /\ Forall ok l /\ Q r l) h.

Section Yields.
Context (ok : E -> Prop).

Lemma yields_mono {A} (m : M (world W E) A) (Q Q' : result A -> list E -> Prop) :
  (forall r l, Forall ok l -> Q r l -> Q' r l) -> yields ok m Q -> yields ok m Q'.
Proof.
  intros HQ Hm h. eapply logs_mono; [|apply Hm]. intros r h' (l & -> & Hl & Hr). exists l. by auto.
Qed.

Lemma yields_ret {A} (a : A) (Q : result A -> list E -> Prop) : Q (Ok a) [] -> yields ok (mret a) Q.
Proof. intros HQ h. apply logs_ret. exists []. by rewrite app_nil_r. Qed.

Lemma yields_fail {A} err (Q : result A -> list E -> Prop) : Q (Err err) [] -> yields ok (fail err) Q.
Proof. intros HQ h. apply logs_fail. exists []. by rewrite app_nil_r. Qed.

Lemma yields_lift {A} (r : result A) (Q : result A -> list E -> Prop) : Q r [] -> yields ok (lift r) Q.
Proof. intros HQ h. apply logs_lift. exists []. by rewrite app_nil_r. Qed.

Lemma yields_bind {A B} (m : M (world W E) A) (k : A -> M (world W E) B) (Q : result B -> list E -> Prop) :
  yields ok m (fun r l => match r with
                          | Ok a => yields ok (k a) (fun r' l' => Q r' (l ++ l'))
                          | Err err => Q (Err err) l
                          end) ->
  yields ok (m ≫= k) Q.
Proof.
  intros Hm h. apply logs_bind. eapply logs_mono; [|apply Hm]. intros [a|err] h' (l & -> & Hl & Hk); [|by exists l].
  eapply logs_mono; [|apply Hk]. intros r h' (l' & -> & Hl' & HQ). exists (l ++ l').
  rewrite (assoc_L (++)). split; [done|]. split; [by apply Forall_app|done].
Qed.

Lemma yields_try {A} (m : M (world W E) A) (Q : result (result A) -> list E -> Prop) :
  yields ok m (fun r l => Q (Ok r) l) -> yields ok (try_ m) Q.
Proof. intros Hm h. by apply logs_try. Qed.

Lemma yields_wrapM {A} (m : M (world W E) A) fmt args (Q : result A -> list E -> Prop) :
  yields ok m (fun r l => Q (wrap_err r fmt args) l) -> yields ok (wrapM m fmt args) Q.
Proof. intros Hm h. by apply logs_wrapM. Qed.

Lemma yields_record {A} (ev : result A -> E) (m : M W A) (Q : result A -> list E -> Prop) :
  (forall r, ok (ev r) /\ Q r [ev r]) -> yields ok (record ev m) Q.
Proof.
  intros HQ h. apply logs_record. intros r. destruct (HQ r). exists [ev r]. split; [done|]. split; [by constructor|done].
Qed.

Lemma yields_silent {A} (m : M W A) (Q : result A -> list E -> Prop) : (forall r, Q r []) -> yields ok (silent m) Q.
Proof. intros HQ h. apply logs_silent. intros r. exists []. by rewrite app_nil_r. Qed.

Lemma yields_harmless {A} (m : M (world W E) A) (Q : result A -> list E -> Prop) :
  harmless ok m -> (forall r l, Forall ok l -> Q r l) -> yields ok m Q.
Proof. intros Hm HQ h. eapply logs_harmless; [exact Hm|]. intros r l Hl. exists l. by auto. Qed.

(** A fact about the result of a run that holds in every world. *)
Lemma yields_result {A} (m : M (world W E) A) (P : result A -> Prop) :
  harmless ok m -> (forall w, P (m w).2) -> yields ok m (fun r _ => P r).
Proof. intros Hm HP h e. destruct (Hm h e) as (l & Hl & Hok). exists l. auto. Qed.

Lemma yields_harmless_inv {A} (m : M (world W E) A) Q : yields ok m Q -> harmless ok m.
Proof. intros Hm h. eapply logs_mono; [|apply Hm]. intros r h' (l & Hl & Hok & _). by exists l. Qed.

End Yields.

Lemma yields_impl (ok ok' : E -> Prop) {A} (m : M (world W E) A) Q :
  (forall ev, ok ev -> ok' ev) -> yields ok m Q -> yields ok' m Q.
Proof.
  intros Hok Hm h. eapply logs_mono; [|apply Hm]. intros r h' (l & -> & Hl & HQ). exists l.
  split; [done|]. split; [by eapply Forall_impl|done].
Qed.

Lemma yields_weaken (ok ok' : E -> Prop) {A} (m : M (world W E) A) Q :
  (forall ev, ok ev -> ok' ev) -> yields ok m Q -> yields ok' m (fun r l => Forall ok l /\ Q r l).
Proof.
  intros Hok Hm. eapply yields_impl; [exact Hok|]. eapply yields_mono; [|exact Hm]. auto.
Qed.

(** Two facts about the same run. *)
Lemma yields_and (ok : E -> Prop) {A} (m : M (world W E) A) Q Q' :
  yields ok m Q -> yields ok m Q' -> yields ok m (fun r l => Q r l /\ Q' r l).
Proof.
  intros Hm Hm' h e. destruct (Hm h e) as (l & Hl & Hok & HQ), (Hm' h e) as (l' & Hl' & _ & HQ').
  exists l. rewrite Hl in Hl'. apply (inj (h ++.)) in Hl' as <-. done.
Qed.

(** The log of a run that starts with an empty one. *)
Lemma yields_run (ok : E -> Prop) {A} (m : M (world W E) A) Q e :
  yields ok m Q -> Q (m (World e [])).2 (log (m (World e [])).1).
Proof. intros Hm. by destruct (Hm [] e) as (l & -> & _ & HQ). Qed.

(** [k] happened, in this order, in [h]. *)
Lemma happened_snoc (k h : list E) e : k `sublist_of` h -> k ++ [e] `sublist_of` h ++ [e].
Proof. intros Hk. by apply sublist_app. Qed.

Lemma happened_later (k h l : list E) : k `sublist_of` h -> k `sublist_of` h ++ l.
Proof. intros Hk. etrans; [exact Hk|]. apply sublist_inserts_r. done. Qed.

(** ** Triples: what is known of the past before and after a run, in which every call is justified *)

Section Triple.
Context (needs : list E -> E -> Prop).

Definition triple {A} (P : list E -> Prop) (m : M (world W E) A) (Q : result A -> list E -> Prop) : Prop :=
  forall h, guarded needs h -> P h -> logs m (fun r h' => guarded needs h' /\ h `prefix_of` h' /\ Q r h') h.

(** What is known and stays known. *)
Definition lasting (P : list E -> Prop) : Prop := forall h l, P h -> P (h ++ l).

Lemma lasting_and P Q : lasting P -> lasting Q -> lasting (fun h => P h /\ Q h).
Proof. intros HP HQ h l [Hp Hq]. split; [by apply HP|by apply HQ]. Qed.

Lemma lasting_happened k : lasting (fun h => k `sublist_of` h).
Proof. intros h l Hk. by apply happened_later. Qed.

Lemma lasting_member e : lasting (fun h => e ∈ h).
Proof. intros h l He. apply elem_of_app. by left. Qed.

Lemma lasting_const (P : Prop) : lasting (fun _ => P).
Proof. by intros h l. Qed.

Lemma triple_conseq {A} (P P' : list E -> Prop) (m : M (world W E) A) (Q Q' : result A -> list E -> Prop) :
  triple P' m Q' -> (forall h, P h -> P' h) -> (forall r h, Q' r h -> Q r h) -> triple P m Q.
Proof.
  intros Hm HP HQ h Hg Hp. eapply logs_mono; [|apply Hm; [exact Hg|by apply HP]]. intros r h' (Hg' & Hh & Hq). auto.
Qed.

(** What lasts is known afterwards too. *)
Lemma triple_frame {A} (F P : list E -> Prop) (m : M (world W E) A) (Q : result A -> list E -> Prop) :
  lasting F -> triple P m Q -> triple (fun h => F h /\ P h) m (fun r h => F h /\ Q r h).
Proof.
  intros HF Hm h Hg [Hf Hp]. eapply logs_mono; [|by apply Hm]. intros r h' (Hg' & [l ->] & Hq).
  split_and!; [done|by exists l|by apply HF|done].
Qed.

Lemma triple_ret {A} (a : A) (P : list E -> Prop) (Q : result A -> list E -> Prop) :
  (forall h, P h -> Q (Ok a) h) -> triple P (mret a) Q.
Proof. intros HQ h Hg Hp. apply logs_ret. split_and!; [done..|auto]. Qed.

Lemma triple_fail {A} err (P : list E -> Prop) (Q : result A -> list E -> Prop) :
  (forall h, P h -> Q (Err err) h) -> triple P (fail err) Q.
Proof. intros HQ h Hg Hp. apply logs_fail. split_and!; [done..|auto]. Qed.

Lemma triple_lift {A} (r : result A) (P : list E -> Prop) (Q : result A -> list E -> Prop) :
  (forall h, P h -> Q r h) -> triple P (lift r) Q.
Proof. intros HQ h Hg Hp. apply logs_lift. split_and!; [done..|auto]. Qed.

Lemma triple_bind {A B} (m : M (world W E) A) (k : A -> M (world W E) B) P (R : result A -> list E -> Prop) Q :
  triple P m R -> (forall a, triple (R (Ok a)) (k a) Q) -> (forall err h, R (Err err) h -> Q (Err err) h) ->
  triple P (m ≫= k) Q.
Proof.
  intros Hm Hk He h Hg Hp. apply logs_bind. eapply logs_mono; [|by apply Hm].
  intros [a|err] h' (Hg' & Hh & Hr); [|by auto]. eapply logs_mono; [|by apply Hk].
  intros r h2 (Hg2 & Hh2 & Hq). split_and!; [done|by etrans|done].
Qed.

Lemma triple_try {A} (m : M (world W E) A) P (Q : result (result A) -> list E -> Prop) :
  triple P m (fun r h => Q (Ok r) h) -> triple P (try_ m) Q.
Proof. intros Hm h Hg Hp. by apply logs_try, Hm. Qed.

(** The result of a program whose error is looked at. *)
Lemma tried_triple {A} (m : M (world W E) A) P Q : triple P m Q -> triple P (try_ m) (fun r h => match r with Ok r => Q r h | Err _ => False end).
Proof. intros Hm. by apply triple_try. Qed.

Lemma triple_wrapM {A} (m : M (world W E) A) fmt args P (Q : result A -> list E -> Prop) :
  triple P m (fun r h => Q (wrap_err r fmt args) h) -> triple P (wrapM m fmt args) Q.
Proof. intros Hm h Hg Hp. by apply logs_wrapM, Hm. Qed.

Lemma triple_record {A} (ev : result A -> E) (m : M W A) (P : list E -> Prop) (Q : result A -> list E -> Prop) :
  (forall r h, P h -> needs h (ev r) /\ Q r (h ++ [ev r])) -> triple P (record ev m) Q.
Proof.
  intros HQ h Hg Hp. apply logs_record. intros r. destruct (HQ r h Hp).
  split_and!; [by apply guarded_snoc|by exists [ev r]|done].
Qed.

(** Calls that need nothing keep what is known. *)
Lemma triple_free {A} (m : M (world W E) A) (P : list E -> Prop) :
  harmless (fun e => forall h, needs h e) m -> lasting P -> triple P m (fun _ h => P h).
Proof.
  intros Hm HP h Hg Hp. eapply logs_harmless; [exact Hm|]. intros r l Hl.
  split_and!; [by apply guarded_free|by exists l|by apply HP].
Qed.

Lemma triple_if {A} (b : bool) (m m' : M (world W E) A) (P : list E -> Prop) (Q : result A -> list E -> Prop) :
  (b = true -> triple P m Q) -> (b = false -> triple P m' Q) -> triple P (if b then m else m') Q.
Proof. destruct b; auto. Qed.

(** A run of such calls of which more is known. *)
Lemma triple_yields {A} (m : M (world W E) A) (P : list E -> Prop) Q :
  yields (fun e => forall h, needs h e) m Q -> triple P m (fun r h' => exists h l, h' = h ++ l /\ P h /\ Q r l).
Proof.
  intros Hm h Hg Hp. eapply logs_mono; [|apply Hm]. intros r h' (l & -> & Hl & Hq).
  split_and!; [by apply guarded_free|by exists l|by exists h, l].
Qed.

(** The invariant of a loop. *)
Lemma triple_forM {A} (f : A -> M (world W E) unit) l (P : list E -> Prop) :
  (forall a, a ∈ l -> triple P (f a) (fun _ => P)) -> triple P (forM_ l f) (fun _ => P).
Proof.
  induction l as [|a l IH]; intros Hf; cbn [forM_]; [by apply triple_ret|].
  eapply triple_bind; [apply Hf, list_elem_of_here|intros []|done]. apply IH. intros x Hx. apply Hf. by right.
Qed.

Lemma triple_run {A} (m : M (world W E) A) (P : list E -> Prop) Q e :
  triple P m Q -> P [] -> guarded needs (log (m (World e [])).1) /\ Q (m (World e [])).2 (log (m (World e [])).1).
Proof. intros Hm Hp. by destruct (Hm [] (guarded_nil _) Hp e) as (Hg & _ & Hq). Qed.

End Triple.

End Log.

End Log.

(** A member of a list with one more element at its end. *)
Lemma exists_snoc {A} (P : A -> Prop) l x :
  (exists y, y ∈ l ++ [x] /\ P y) <-> (exists y, y ∈ l /\ P y) \/ P x.
Proof.
  split.
  - intros (y & [Hy| ->%list_elem_of_singleton]%elem_of_app & HP); eauto.
  - intros [(y & Hy & HP)|HP]; [exists y|exists x]; (split; [|done]); apply elem_of_app; auto.
    right. by apply list_elem_of_singleton.
Qed.

(** The development's rewriting base of string facts. *)
Create HintDb rook.
Create Rewrite HintDb rook.
#[export] Hint Rewrite app_string_assoc app_string_nil_r len_app strip_prefix_app : rook.
#[export] Hint Resolve Atoi_Itoa wrap64_range ascii_Z_range len_nonneg : rook.
