(* ===== verification/Sha256.v ===== *)
(** * Sha256: the digest behind [k8sutil.Hash]

    Go's [crypto/sha256.Sum256] and [encoding/hex.EncodeToString] (FIPS 180-4), executable,
    on 32-bit words kept as [Z]. *)

From stdpp Require Import base strings list.
From Stdlib Require Import ZArith Ascii.
From S2P Require Import Prelude.
Open Scope Z_scope.

Module Sha256.

Definition w32 (z : Z) : Z := Z.land z 4294967295.

Definition rotr (n x : Z) : Z := Z.lor (Z.shiftr x n) (w32 (Z.shiftl x (32 - n))).

Definition lnot32 (x : Z) : Z := Z.lxor x 4294967295.

Definition Ch (x y z : Z) : Z := Z.lxor (Z.land x y) (Z.land (lnot32 x) z).

Definition Maj (x y z : Z) : Z := Z.lxor (Z.lxor (Z.land x y) (Z.land x z)) (Z.land y z).

Definition Sigma0 (x : Z) : Z := Z.lxor (Z.lxor (rotr 2 x) (rotr 13 x)) (rotr 22 x).

Definition Sigma1 (x : Z) : Z := Z.lxor (Z.lxor (rotr 6 x) (rotr 11 x)) (rotr 25 x).

Definition sigma0 (x : Z) : Z := Z.lxor (Z.lxor (rotr 7 x) (rotr 18 x)) (Z.shiftr x 3).

Definition sigma1 (x : Z) : Z := Z.lxor (Z.lxor (rotr 17 x) (rotr 19 x)) (Z.shiftr x 10).

(** The constants as the standard defines them: the first 32 bits of the fractional parts of
    the cube roots of the first 64 primes, and of the square roots of the first 8. *)
Definition prime (n : nat) : bool :=
  forallb (fun d => negb (Nat.eqb (n mod d) 0)) (seq 2 (n - 2)).

Definition primes : list Z := Z.of_nat <$> List.filter prime (seq 2 310).

(** The integer cube root, one bit at a time. *)
Fixpoint cube_root (bits : nat) (n acc : Z) : Z :=
  match bits with
  | O => acc
  | S b => let x := Z.lor acc (Z.shiftl 1 (Z.of_nat b)) in
           cube_root b n (if x * x * x <=? n then x else acc)
  end.

Definition K : list Z :=
  Eval vm_compute in (fun p => w32 (cube_root 36 (Z.shiftl p 96) 0)) <$> primes.

Definition H0 : list Z :=
  Eval vm_compute in (fun p => w32 (Z.sqrt (Z.shiftl p 64))) <$> take 8 primes.

Fixpoint bytes (s : string) : list Z :=
  match s with "" => [] | String c s' => ascii_Z c :: bytes s' end.

(** The big-endian bytes of a 64-bit number. *)
Definition be64 (n : Z) : list Z :=
  (fun k => Z.land (Z.shiftr n k) 255) <$> [56; 48; 40; 32; 24; 16; 8; 0].

Definition pad (msg : list Z) : list Z :=
  let n := Z.of_nat (length msg) in
  msg ++ [128] ++ replicate (Z.to_nat ((55 - n) mod 64)) 0 ++ be64 (8 * n).

Fixpoint words (l : list Z) : list Z :=
  match l with
  | a :: b :: c :: d :: l' =>
      Z.lor (Z.shiftl a 24) (Z.lor (Z.shiftl b 16) (Z.lor (Z.shiftl c 8) d)) :: words l'
  | _ => []
  end.

(** The message schedule, newest word first. *)
Fixpoint schedule (n : nat) (w : list Z) : list Z :=
  match n with
  | O => w
  | S n' =>
      let t k := default 0 (w !! k) in
      schedule n' (w32 (sigma1 (t 1%nat) + t 6%nat + sigma0 (t 14%nat) + t 15%nat) :: w)
  end.

Definition round (st : list Z) (kw : Z * Z) : list Z :=
  match st with
  | [a; b; c; d; e; f; g; h] =>
      let t1 := w32 (h + Sigma1 e + Ch e f g + kw.1 + kw.2) in
      let t2 := w32 (Sigma0 a + Maj a b c) in
      [w32 (t1 + t2); a; b; c; w32 (d + t1); e; f; g]
  | _ => st
  end.

Definition compress (h : list Z) (block : list Z) : list Z :=
  let w := rev (schedule 48 (rev (words block))) in
  zip_with (fun x y => w32 (x + y)) h (foldl round h (zip K w)).

Fixpoint blocks (fuel : nat) (l : list Z) : list (list Z) :=
  match fuel, l with
  | O, _ | _, [] => []
  | S fuel', _ => take 64 l :: blocks fuel' (drop 64 l)
  end.

Definition be32 (n : Z) : list Z :=
  (fun k => Z.land (Z.shiftr n k) 255) <$> [24; 16; 8; 0].

(** [sha256.Sum256]: 32 bytes. *)
Definition Sum256 (msg : list Z) : list Z :=
  let p := pad msg in
  foldl compress H0 (blocks (length p) p) ≫= be32.

Definition hex_digit (n : Z) : ascii :=
  ascii_of_nat (Z.to_nat (if n <? 10 then 48 + n else 87 + n)).

(** [hex.EncodeToString] *)
Fixpoint EncodeToString (l : list Z) : string :=
  match l with
  | [] => ""
  | b :: l' =>
      String (hex_digit (Z.shiftr b 4)) (String (hex_digit (Z.land b 15)) (EncodeToString l'))
  end.

Example sha256_abc :
  EncodeToString (Sum256 (bytes "abc")) =
  "ba7816bf8f01cfea414140de5dae2223b00361a396177a9cb410ff61f20015ad".
Proof. vm_compute. reflexivity. Qed.

Lemma length_round st kw : length (round st kw) = length st.
Proof. do 9 (destruct st as [|? st]; [done|]). done. Qed.

Lemma length_compress h b : length h = 8%nat -> length (compress h b) = 8%nat.
Proof.
  intros Hh. unfold compress. rewrite length_zip_with.
  assert (forall l st, length (foldl round st l) = length st) as ->; [|lia].
  induction l as [|kw l IH]; intros st; simpl; [done|]. by rewrite IH, length_round.
Qed.

Lemma length_be32s l : length (l ≫= be32) = (4 * length l)%nat.
Proof. induction l as [|x l IH]; [done|]. rewrite bind_cons, length_app, IH. simpl. lia. Qed.

Lemma length_Sum256 msg : length (Sum256 msg) = 32%nat.
Proof.
  unfold Sum256. rewrite length_be32s. set (bs := blocks _ _). clearbody bs.
  assert (forall h, length h = 8%nat -> length (foldl compress h bs) = 8%nat) as ->; [|done..].
  induction bs as [|b bs IH]; intros h Hh; simpl; [done|]. by apply IH, length_compress.
Qed.

Lemma length_EncodeToString l : String.length (EncodeToString l) = (2 * length l)%nat.
Proof. induction l as [|b l IH]; simpl; [done|]. rewrite IH. lia. Qed.

End Sha256.
