(* ===== verification/Names.v ===== *)
(** * Names: daemon names and Kubernetes object names

    Models [pkg/operator/k8sutil/name.go] (the letters that name mons, mgrs and other
    daemons) and the name and label helpers of [pkg/operator/k8sutil/k8sutil.go]. *)

From stdpp Require Import base strings list.
From Stdlib Require Import ZArith Ascii.
From S2P Require Import Prelude Sha256.
Open Scope Z_scope.

(** ** Daemon names: [IndexToName] and [NameToIndex] *)
Module DaemonName.

Definition maxPerChar : Z := 26.

(** The loop of [IndexToName].  Go's [/] and [%] truncate toward zero.  An [int] is divided
    by 26 in each round, so fourteen rounds cover all of them
    ([index_loop_more]). *)
Fixpoint index_loop (fuel : nat) (index : Z) (res : string) : string :=
  let i := Z.rem index maxPerChar in
  let c := 122 - maxPerChar + i + 1 in
  let res := chr c +:+ res in
  if index <? maxPerChar then res
  else match fuel with
       | O => res
       | S fuel' => index_loop fuel' (Z.quot index maxPerChar - 1) res
       end.

Definition IndexToName (index : Z) : string := index_loop 14 index "".

(** [for i := 1; i < len(name); i++ { factor *= maxPerChar }] *)
Fixpoint initial_factor (n : nat) : Z :=
  match n with
  | O => 1
  | S n' => wrap64 (initial_factor n' * maxPerChar)
  end.

Definition charVal (c : ascii) : Z := maxPerChar - (122 - ascii_Z c).

Fixpoint name_loop (name s : string) (factor res : Z) : result Z :=
  match s with
  | "" => Ok res
  | String c s' =>
      let v := charVal c in
      if (v <? 1) || (maxPerChar <? v)
      then Err (Errorf "invalid char '%c' (%d) in %s" [String c ""; Itoa v; name])
      else
        let res := if factor =? 1 then wrap64 (res + (v - 1))
                   else wrap64 (res + wrap64 (v * factor)) in
        name_loop name s' (Z.quot factor maxPerChar) res
  end.

(** The value [-1] that accompanies an error is left to the one caller that reads it
    ([loadMonConfig], file MonStore). *)
Definition NameToIndex (name : string) : result Z :=
  name_loop name name (initial_factor (String.length name - 1)) 0.

(** *** Bijective base 26 *)

Definition valid_char (c : ascii) : bool := (1 <=? charVal c) && (charVal c <=? maxPerChar).

Fixpoint valid_name (s : string) : bool :=
  match s with "" => true | String c s' => valid_char c && valid_name s' end.

Fixpoint value_acc (s : string) (acc : Z) : Z :=
  match s with "" => acc | String c s' => value_acc s' (acc * 26 + charVal c) end.

Definition value (s : string) : Z := value_acc s 0.

Lemma value_acc_shift s acc : value_acc s acc = acc * 26 ^ len s + value s.
Proof.
  unfold value. revert acc. induction s as [|c s IH]; intros acc.
  - unfold len; simpl. lia.
  - cbn [value_acc]. rewrite (IH (acc * 26 + charVal c)), (IH (0 * 26 + charVal c)).
    unfold len. simpl. rewrite Nat2Z.inj_succ, Z.pow_succ_r by lia. lia.
Qed.

Lemma value_cons c s : value (String c s) = charVal c * 26 ^ len s + value s.
Proof. unfold value at 1. simpl. by rewrite value_acc_shift. Qed.

Lemma value_snoc s c : value (s +:+ String c "") = value s * 26 + charVal c.
Proof.
  unfold value. generalize 0. induction s as [|d s IH]; intros acc; simpl; [done|]. apply IH.
Qed.

Lemma value_lower s : valid_name s = true -> 0 <= value s /\ (s <> "" -> 26 ^ (len s - 1) <= value s).
Proof.
  induction s as [|c s IH]; intros H; [done|].
  simpl in H. apply andb_prop in H as [Hc Hs]. destruct (IH Hs) as [H0 _].
  unfold valid_char in Hc. rewrite value_cons.
  pose proof (Z.pow_pos_nonneg 26 (len s) ltac:(lia) (len_nonneg s)).
  split; [nia|]. intros _. unfold len in *. simpl.
  replace (Z.of_nat (S (String.length s)) - 1) with (Z.of_nat (String.length s)) by lia. nia.
Qed.

Lemma valid_snoc s c : valid_name (s +:+ String c "") = valid_name s && valid_char c.
Proof. induction s as [|d s IH]; simpl; [by rewrite andb_true_r|]. by rewrite IH, andb_assoc. Qed.

Lemma charVal_chr i : 0 <= i < 26 ->
  chr (122 - 26 + i + 1) = String (ascii_of_nat (Z.to_nat (97 + i))) "" /\
  charVal (ascii_of_nat (Z.to_nat (97 + i))) = i + 1.
Proof.
  intros H. unfold chr, charVal, maxPerChar. rewrite ascii_Z_of by lia.
  replace (122 - 26 + i + 1) with (97 + i) by lia. split; [done|lia].
Qed.

Lemma chr_charVal c : valid_char c = true ->
  chr (122 - 26 + (charVal c - 1) + 1) = String c "".
Proof.
  unfold valid_char, chr. intros H. f_equal. apply ascii_Z_inj.
  rewrite ascii_Z_of; unfold charVal, maxPerChar in *; lia.
Qed.

(** *** [IndexToName] *)

(** Enough rounds for an index below [26 ^ (fuel + 1)]. *)
Lemma index_loop_value fuel index res :
  0 <= index < 26 ^ (Z.of_nat fuel + 1) -> valid_name res = true ->
  valid_name (index_loop fuel index res) = true /\
  value (index_loop fuel index res) = (index + 1) * 26 ^ len res + value res.
Proof.
  revert index res. induction fuel as [|fuel IH]; intros index res Hi Hv.
  - cbn [index_loop]. unfold maxPerChar. assert ((index <? 26) = true) as -> by lia.
    rewrite Z.rem_small by lia.
    destruct (charVal_chr index ltac:(lia)) as [-> Hc]. simpl.
    rewrite value_cons, Hc, Hv. unfold valid_char, maxPerChar. rewrite Hc. split; [|done]. lia.
  - cbn [index_loop]. unfold maxPerChar in *.
    rewrite (Z.rem_mod_nonneg index 26), (Z.quot_div_nonneg index 26) by lia.
    pose proof (Z.mod_pos_bound index 26 ltac:(lia)) as Hm.
    pose proof (Z.div_mod index 26 ltac:(lia)) as Hd.
    destruct (charVal_chr (index mod 26) Hm) as [-> Hc].
    set (c := ascii_of_nat _) in *.
    assert (valid_name (String c res) = true) as Hv'.
    { simpl. rewrite Hv. unfold valid_char, maxPerChar. rewrite Hc. lia. }
    assert (Hlen : len (String c res) = len res + 1) by (unfold len; simpl; lia).
    simpl String.append.
    destruct (Z.ltb_spec index 26) as [Hlt|Hge].
    + split; [done|]. rewrite value_cons, Hc. rewrite Z.mod_small by lia. done.
    + rewrite Nat2Z.inj_succ in Hi.
      replace (Z.succ (Z.of_nat fuel) + 1) with (Z.succ (Z.of_nat fuel + 1)) in Hi by lia.
      rewrite Z.pow_succ_r in Hi by lia.
      destruct (IH (index / 26 - 1) (String c res)) as [H1 H2]; [nia|done|].
      split; [done|]. rewrite H2, value_cons, Hc, Hlen, Z.pow_add_r by (unfold len; lia).
      change (26 ^ 1) with 26. nia.
Qed.

Lemma index_loop_inverse s : forall fuel res,
  s <> "" -> valid_name s = true -> value s <= 26 ^ (Z.of_nat fuel + 1) ->
  index_loop fuel (value s - 1) res = s +:+ res.
Proof.
  induction s as [|s c IH] using string_snoc_ind; [done|].
  intros fuel res _ Hv Hb. rewrite valid_snoc in Hv. apply andb_prop in Hv as [Hs Hc].
  rewrite value_snoc in *.
  destruct (value_lower s Hs) as [H0 H1].
  assert (1 <= charVal c <= 26) as Hcv by (unfold valid_char, maxPerChar in Hc; lia).
  assert (Z.rem (value s * 26 + charVal c - 1) 26 = charVal c - 1) as Hrem.
  { rewrite Z.rem_mod_nonneg by lia.
    replace (value s * 26 + charVal c - 1) with (charVal c - 1 + value s * 26) by lia.
    rewrite Z.mod_add by lia. apply Z.mod_small. lia. }
  assert (Z.quot (value s * 26 + charVal c - 1) 26 = value s) as Hquot.
  { rewrite Z.quot_div_nonneg by lia.
    replace (value s * 26 + charVal c - 1) with (charVal c - 1 + value s * 26) by lia.
    rewrite Z.div_add by lia. rewrite Z.div_small by lia. lia. }
  destruct fuel as [|fuel]; cbn [index_loop]; unfold maxPerChar.
  all: rewrite Hrem, (chr_charVal c Hc).
  all: destruct (decide (s = "")) as [->|Hne].
  - unfold value. simpl. rewrite (proj2 (Z.ltb_lt _ _)) by lia. done.
  - specialize (H1 Hne).
    exfalso. assert (1 <= value s) by (pose proof (Z.pow_pos_nonneg 26 (len s - 1)
      ltac:(lia) ltac:(destruct s; [done|unfold len; simpl; lia])); lia).
    simpl in Hb. lia.
  - unfold value. simpl. rewrite (proj2 (Z.ltb_lt _ _)) by lia. done.
  - specialize (H1 Hne).
    assert (1 <= value s) by (pose proof (Z.pow_pos_nonneg 26 (len s - 1)
      ltac:(lia) ltac:(destruct s; [done|unfold len; simpl; lia])); lia).
    rewrite (proj2 (Z.ltb_ge _ _)) by lia.
    rewrite Hquot, IH; [|done|done|].
    + by rewrite app_string_assoc.
    + rewrite Nat2Z.inj_succ in Hb.
      replace (Z.succ (Z.of_nat fuel) + 1) with (Z.succ (Z.of_nat fuel + 1)) in Hb by lia.
      rewrite Z.pow_succ_r in Hb by lia. lia.
Qed.

(** Rounds beyond the needed ones change nothing. *)
Lemma index_loop_more fuel k index res :
  index < 26 ^ (Z.of_nat fuel + 1) -> index_loop (fuel + k) index res = index_loop fuel index res.
Proof.
  revert index res. induction fuel as [|fuel IH]; intros index res Hi.
  - assert ((index <? maxPerChar) = true) as E by (unfold maxPerChar; lia).
    destruct k; cbn [index_loop Nat.add]; rewrite ?E; done.
  - cbn [index_loop Nat.add]. destruct (Z.ltb_spec index maxPerChar) as [|Hge]; [done|].
    unfold maxPerChar in *. rewrite Nat2Z.inj_succ in Hi.
    replace (Z.succ (Z.of_nat fuel) + 1) with (Z.succ (Z.of_nat fuel + 1)) in Hi by lia.
    rewrite Z.pow_succ_r in Hi by lia.
    apply IH. rewrite Z.quot_div_nonneg by lia.
    assert (index / 26 < 26 ^ (Z.of_nat fuel + 1)) by (apply Z.div_lt_upper_bound; lia). lia.
Qed.

Lemma int64_lt_26_14 i : in_int64 i = true -> i < 26 ^ 14.
Proof. rewrite in_int64_spec. assert (2 ^ 63 < 26 ^ 14) by done. lia. Qed.

(** *** [NameToIndex] *)

Lemma initial_factor_pow n : Z.of_nat n <= 13 -> initial_factor n = 26 ^ Z.of_nat n.
Proof.
  induction n as [|n IH]; intros Hn; [done|].
  cbn [initial_factor]. rewrite IH by lia. unfold maxPerChar.
  rewrite Nat2Z.inj_succ in *. rewrite Z.pow_succ_r by lia.
  rewrite wrap64_id; [lia|]. apply in_int64_spec.
  assert (26 ^ Z.of_nat n <= 26 ^ 12) by (apply Z.pow_le_mono_r; lia).
  assert (0 < 26 ^ Z.of_nat n) by (apply Z.pow_pos_nonneg; lia).
  assert (26 ^ 12 * 26 < 2 ^ 63) by done. lia.
Qed.

Lemma name_loop_invalid name s factor res :
  valid_name s = false -> is_ok (name_loop name s factor res) = false.
Proof.
  revert factor res. induction s as [|c s IH]; intros factor res H; [done|].
  simpl in *. unfold valid_char in H.
  destruct ((charVal c <? 1) || (maxPerChar <? charVal c)) eqn:E; [done|].
  apply IH. destruct (valid_name s); [|done]. lia.
Qed.

Lemma value_pos s : s <> "" -> valid_name s = true -> 1 <= value s.
Proof.
  intros Hne Hv. destruct (value_lower s Hv) as [_ H]. specialize (H Hne).
  pose proof (Z.pow_pos_nonneg 26 (len s - 1) ltac:(lia)
    ltac:(destruct s; [done|unfold len; simpl; lia])). lia.
Qed.

Lemma name_loop_valid name s factor res :
  s <> "" -> valid_name s = true -> factor = 26 ^ (len s - 1) -> 0 <= res ->
  res + value s - 1 < 2 ^ 63 ->
  name_loop name s factor res = Ok (res + value s - 1).
Proof.
  revert factor res. induction s as [|c s IH]; intros factor res Hne Hv -> Hres Hb; [done|].
  simpl in Hv. apply andb_prop in Hv as [Hc Hs]. cbn [name_loop].
  assert (1 <= charVal c <= 26) as Hcv by (unfold valid_char, maxPerChar in Hc; lia).
  assert ((charVal c <? 1) || (maxPerChar <? charVal c) = false) as -> by (unfold maxPerChar; lia).
  replace (len (String c s) - 1) with (len s) in * by (unfold len; simpl; lia).
  rewrite value_cons in *.
  destruct (decide (s = "")) as [->|Hne'].
  - unfold len, value in *. simpl in *. rewrite wrap64_id by (apply in_int64_spec; lia).
    f_equal. lia.
  - pose proof (value_pos s Hne' Hs) as Hpos.
    assert (1 <= len s) by (destruct s; [done|unfold len; simpl; lia]).
    assert (26 ^ len s = 26 * 26 ^ (len s - 1)) as Hpow
      by (rewrite <- Z.pow_succ_r by lia; f_equal; lia).
    pose proof (Z.pow_pos_nonneg 26 (len s - 1) ltac:(lia) ltac:(lia)).
    assert ((26 ^ len s =? 1) = false) as -> by lia.
    assert (0 <= charVal c * 26 ^ len s) by nia.
    rewrite (wrap64_id (charVal c * 26 ^ len s)) by (apply in_int64_spec; lia).
    rewrite wrap64_id by (apply in_int64_spec; lia).
    rewrite IH; [f_equal; lia|done|done| |lia|lia].
    unfold maxPerChar. rewrite Z.quot_div_nonneg by lia.
    rewrite Hpow, Z.mul_comm, Z.div_mul by lia. done.
Qed.

(** A valid name whose value fits in an [int] has at most fourteen letters. *)
Lemma valid_len s : valid_name s = true -> value s <= 2 ^ 63 -> len s - 1 <= 13.
Proof.
  intros Hv Hb. destruct (decide (s = "")) as [->|Hne]; [done|].
  destruct (value_lower s Hv) as [_ H]. specialize (H Hne).
  destruct (Z_le_gt_dec (len s - 1) 13) as [|Hgt]; [done|].
  assert (26 ^ 14 <= 26 ^ (len s - 1)) by (apply Z.pow_le_mono_r; lia).
  assert (2 ^ 63 < 26 ^ 14) by done. lia.
Qed.

Lemma NameToIndex_valid s :
  s <> "" -> valid_name s = true -> value s <= 2 ^ 63 -> NameToIndex s = Ok (value s - 1).
Proof.
  intros Hne Hv Hb. unfold NameToIndex. pose proof (valid_len s Hv Hb) as Hl.
  rewrite initial_factor_pow by (unfold len in Hl; lia).
  rewrite name_loop_valid; [done|done|done| |lia|lia].
  f_equal. destruct s; [done|]. unfold len. simpl. lia.
Qed.

(** Names of at most thirteen letters stay below the top of the range. *)
Lemma value_upper s : valid_name s = true -> 25 * value s <= 26 * (26 ^ len s - 1).
Proof.
  induction s as [|c s IH]; intros Hv; [done|].
  simpl in Hv. apply andb_prop in Hv as [Hc Hs]. specialize (IH Hs).
  rewrite value_cons. unfold valid_char, maxPerChar in Hc.
  replace (len (String c s)) with (Z.succ (len s)) by (unfold len; simpl; lia).
  rewrite Z.pow_succ_r by (unfold len; lia).
  pose proof (Z.pow_pos_nonneg 26 (len s) ltac:(lia) (len_nonneg s)). nia.
Qed.

Lemma value_bound_13 s : valid_name s = true -> len s <= 13 -> value s <= 2 ^ 63.
Proof.
  intros Hv Hl. pose proof (value_upper s Hv).
  assert (26 ^ len s <= 26 ^ 13) by (apply Z.pow_le_mono_r; lia).
  assert (26 * (26 ^ 13 - 1) <= 25 * 2 ^ 63) by (vm_compute; discriminate). lia.
Qed.

(** Every non-negative [int] survives the round trip through its daemon name, and the
    name has only lower-case letters. *)
Theorem NameToIndex_IndexToName (i : Z) :
  0 <= i <= max_int64 ->
  valid_name (IndexToName i) = true /\ NameToIndex (IndexToName i) = Ok i.
Proof.
  intros Hi. unfold max_int64 in Hi. unfold IndexToName.
  assert (2 ^ 63 < 26 ^ (Z.of_nat 14 + 1)) as Hpow by done.
  destruct (index_loop_value 14 i "" ltac:(lia) eq_refl) as [Hv Hval].
  change (26 ^ len "") with 1 in Hval. change (value "") with 0 in Hval.
  split; [done|]. rewrite NameToIndex_valid; [f_equal; lia| |done|lia].
  intros E. rewrite E in Hval. unfold value in Hval. simpl in Hval. lia.
Qed.

Lemma NameToIndex_IndexToName_witness : NameToIndex (IndexToName 728) = Ok 728.
Proof. apply (NameToIndex_IndexToName 728). vm_compute. split; discriminate. Defined.

(** [IndexToName] undoes [NameToIndex] on every accepted name of at most thirteen
    letters, so two mons never share an ID under different names. *)
Theorem IndexToName_NameToIndex (s : string) (i : Z) :
  s <> "" -> len s <= 13 -> NameToIndex s = Ok i -> 0 <= i /\ IndexToName i = s.
Proof.
  intros Hne Hl Hok.
  destruct (valid_name s) eqn:Hv.
  - pose proof (value_bound_13 s Hv Hl) as Hb. pose proof (value_pos s Hne Hv) as Hp.
    rewrite NameToIndex_valid in Hok by done. injection Hok as <-.
    split; [lia|]. unfold IndexToName. rewrite index_loop_inverse; [apply app_string_nil_r|done..|].
    assert (2 ^ 63 < 26 ^ (Z.of_nat 14 + 1)) by done. lia.
  - pose proof (name_loop_invalid s s (initial_factor (String.length s - 1)) 0 Hv) as H.
    unfold NameToIndex in Hok. by rewrite Hok in H.
Qed.

Lemma IndexToName_NameToIndex_witness : IndexToName 27 = "ab".
Proof. apply (IndexToName_NameToIndex "ab" 27); vm_compute; congruence. Defined.

End DaemonName.

(** ** Object names: hashing and truncation *)
Module ObjectName.
Import Sha256.

(** [validation.DNS1035LabelMaxLength] and [validation.LabelValueMaxLength] *)
Definition DNS1035LabelMaxLength : Z := 63.

Definition LabelValueMaxLength : Z := 63.

Definition Hash (s : string) : string := EncodeToString (take 16 (Sum256 (bytes s))).

(** [fmt.Sprintf(format, arg)] for a format whose only verbs are [%s]: the first is
    replaced, a format without one keeps the argument in an [EXTRA] note. *)
Fixpoint split_verb (format : string) : option (string * string) :=
  match format with
  | "" => None
  | String c r =>
      match strip_prefix "%s" format with
      | Some rest => Some ("", rest)
      | None => match split_verb r with
                | Some (a, b) => Some (String c a, b)
                | None => None
                end
      end
  end.

Definition Sprintf1 (format arg : string) : string :=
  match split_verb format with
  | Some (a, b) => a +:+ arg +:+ b
  | None => format +:+ "%!(EXTRA string=" +:+ arg +:+ ")"
  end.

Definition truncateNodeName (format nodeName : string) (maxLength : Z) : string :=
  let nodeName := if maxLength <? len nodeName + len (Sprintf1 format "")
                  then Hash nodeName else nodeName in
  Sprintf1 format nodeName.

Definition TruncateNodeName (format nodeName : string) : string :=
  truncateNodeName format nodeName DNS1035LabelMaxLength.

Definition TruncateNodeNameForJob (format nodeName : string) : string :=
  truncateNodeName format nodeName (DNS1035LabelMaxLength - 10).

Lemma Hash_length s : len (Hash s) = 32.
Proof.
  unfold len, Hash. rewrite length_EncodeToString, length_take, length_Sum256. done.
Qed.

Lemma Sprintf1_len format arg a b :
  split_verb format = Some (a, b) -> len (Sprintf1 format arg) = len (Sprintf1 format "") + len arg.
Proof.
  intros E. unfold Sprintf1. rewrite E, !len_app. change (len "") with 0. lia.
Qed.

Lemma Sprintf1_inj format a b x y :
  split_verb format = Some (a, b) -> Sprintf1 format x = Sprintf1 format y -> x = y.
Proof.
  intros E. unfold Sprintf1. rewrite E. intros H%app_string_inj_l. by apply app_string_inj_r in H.
Qed.

(** A truncated name never exceeds the limit when the literal part of the format leaves
    room for the 32 digits of the hash; a name that already fits is left as it is. *)
Theorem truncateNodeName_spec (format nodeName a b : string) (maxLength : Z) :
  split_verb format = Some (a, b) ->
  len a + len b + 32 <= maxLength ->
  len (truncateNodeName format nodeName maxLength) <= maxLength /\
  (len a + len nodeName + len b <= maxLength ->
   truncateNodeName format nodeName maxLength = a +:+ nodeName +:+ b).
Proof.
  intros E Hroom. unfold truncateNodeName.
  assert (len (Sprintf1 format "") = len a + len b) as Hlit.
  { unfold Sprintf1. rewrite E, !len_app. change (len "") with 0. lia. }
  destruct (Z.ltb_spec maxLength (len nodeName + len (Sprintf1 format ""))) as [H|H].
  - rewrite (Sprintf1_len _ _ _ _ E), Hash_length. split; lia.
  - rewrite (Sprintf1_len _ _ _ _ E). split; [lia|]. intros _. unfold Sprintf1. by rewrite E.
Qed.

Lemma truncateNodeName_spec_witness :
  len (TruncateNodeName "rook-ceph-osd-prepare-%s-config"
         "k8s-worker-1234567890.this.is.a.very.very.long.node.name.example.com") <= 63.
Proof.
  apply (truncateNodeName_spec "rook-ceph-osd-prepare-%s-config"
           "k8s-worker-1234567890.this.is.a.very.very.long.node.name.example.com"
           "rook-ceph-osd-prepare-" "-config" 63).
  - reflexivity.
  - vm_compute. discriminate.
Defined.

Example TruncateNodeName_hashed :
  TruncateNodeName "rook-ceph-osd-prepare-%s-config"
    "k8s-worker-1234567890.this.is.a.very.very.long.node.name.example.com" =
  "rook-ceph-osd-prepare-801a3ba95fe6ce6a3bd879552ca2a8b0-config".
Proof. vm_compute. reflexivity. Qed.

(** *** Label values *)

Definition alnum (c : ascii) : bool :=
  let z := ascii_Z c in
  ((97 <=? z) && (z <=? 122)) || ((48 <=? z) && (z <=? 57)) || ((65 <=? z) && (z <=? 90)).

(** The cut set [".-_"]. *)
Definition punct (c : ascii) : bool :=
  let z := ascii_Z c in (z =? 46) || (z =? 45) || (z =? 95).

(** [re.ReplaceAllLiteralString(value, "-")] for [[^a-z0-9A-Z._-]]: one dash per rune. *)
Fixpoint sanitize (skip : nat) (s : string) : string :=
  match s with
  | "" => ""
  | String c s' =>
      match skip with
      | S k => sanitize k s'
      | O => if alnum c || punct c then String c (sanitize 0 s')
             else String "-" (sanitize (utf8_width s - 1) s')
      end
  end.

Definition validateLabelValue (value : string) : string :=
  let sanitized := sanitize 0 value in
  let sanitized := TrimRight punct (TrimLeft punct sanitized) in
  if LabelValueMaxLength <? len sanitized
  then String.substring 0 (Z.to_nat LabelValueMaxLength) sanitized
  else sanitized.

Definition first_ok (p : ascii -> bool) (s : string) : bool :=
  match s with "" => true | String c _ => p c end.

Lemma all_chars_rev p s : all_chars p (String.rev s) = all_chars p s.
Proof.
  induction s as [|c s IH]; [done|]. rewrite rev_cons, all_chars_app, IH. simpl.
  by rewrite andb_true_r, andb_comm.
Qed.

Lemma all_chars_TrimLeft p cut s : all_chars p s = true -> all_chars p (TrimLeft cut s) = true.
Proof.
  induction s as [|c s IH]; [done|]. intros H. simpl. case_match; [|done].
  apply IH. simpl in H. by apply andb_prop in H as [_ ?].
Qed.

Lemma all_chars_substring p n s : all_chars p s = true -> all_chars p (String.substring 0 n s) = true.
Proof.
  revert n. induction s as [|c s IH]; intros [|n] H; [done..|].
  simpl in *. apply andb_prop in H as [-> ?]. by apply IH.
Qed.

Lemma length_substring n s : (String.length (String.substring 0 n s) <= n)%nat.
Proof.
  revert n. induction s as [|c s IH]; intros [|n]; simpl; [lia..|]. specialize (IH n). lia.
Qed.

Lemma TrimLeft_head cut s : first_ok (fun c => negb (cut c)) (TrimLeft cut s) = true.
Proof. induction s as [|c s IH]; simpl; [done|]. destruct (cut c) eqn:E; [done|]. simpl. by rewrite E. Qed.

Lemma TrimLeft_snoc cut s c : cut c = false ->
  exists s', TrimLeft cut (s +:+ String c "") = s' +:+ String c "".
Proof.
  intros Hc. induction s as [|d s [s' IH]]; simpl.
  - rewrite Hc. by exists "".
  - destruct (cut d); [by exists s'|]. by exists (String d s).
Qed.

(** Trimming on the right keeps a first character that is not cut. *)
Lemma TrimRight_cons cut c s : cut c = false ->
  exists s', TrimRight cut (String c s) = String c s'.
Proof.
  intros Hc. unfold TrimRight. rewrite rev_cons.
  destruct (TrimLeft_snoc cut (String.rev s) c Hc) as [s' ->].
  rewrite rev_snoc. by eexists.
Qed.

Lemma sanitize_chars k s : all_chars (fun c => alnum c || punct c) (sanitize k s) = true.
Proof.
  revert k. induction s as [|c s IH]; intros k; [done|].
  cbn [sanitize]. destruct k; [|apply IH].
  destruct (alnum c || punct c) eqn:E; simpl; rewrite ?E; apply IH.
Qed.

Definition trimmed (value : string) : string := TrimRight punct (TrimLeft punct (sanitize 0 value)).

Lemma trimmed_chars value : all_chars (fun c => alnum c || punct c) (trimmed value) = true.
Proof.
  unfold trimmed, TrimRight. rewrite all_chars_rev. apply all_chars_TrimLeft.
  rewrite all_chars_rev. apply all_chars_TrimLeft, sanitize_chars.
Qed.

Lemma trimmed_first value : first_ok (fun c => negb (punct c)) (trimmed value) = true.
Proof.
  unfold trimmed. pose proof (TrimLeft_head punct (sanitize 0 value)) as H.
  destruct (TrimLeft punct (sanitize 0 value)) as [|c s]; [done|]. simpl in H.
  destruct (TrimRight_cons punct c s) as [s' ->]; [by destruct (punct c)|]. done.
Qed.

Lemma first_alnum s :
  all_chars (fun c => alnum c || punct c) s = true ->
  first_ok (fun c => negb (punct c)) s = true -> first_ok alnum s = true.
Proof.
  destruct s as [|c s]; [done|]. simpl. intros H1 H2.
  by destruct (alnum c), (punct c).
Qed.

(** A sanitized label value has only the characters Kubernetes allows, at most 63 of
    them, and begins with a letter or a digit; unless it had to be cut to 63 characters it
    also ends with one. *)
Theorem validateLabelValue_ok (value : string) :
  let r := validateLabelValue value in
  all_chars (fun c => alnum c || punct c) r = true /\
  len r <= 63 /\
  first_ok alnum r = true /\
  (len (trimmed value) <= 63 -> first_ok alnum (String.rev r) = true).
Proof.
  cbv zeta. pose proof (trimmed_chars value) as Hc. pose proof (trimmed_first value) as Hf.
  unfold validateLabelValue. fold (trimmed value). unfold LabelValueMaxLength.
  destruct (Z.ltb_spec 63 (len (trimmed value))) as [Hl|Hl].
  - pose proof (length_substring (Z.to_nat 63) (trimmed value)).
    split_and!; [by apply all_chars_substring|unfold len; lia| |lia].
    apply first_alnum; [by apply all_chars_substring|]. by destruct (trimmed value).
  - split_and!; [done|lia|by apply first_alnum|]. intros _.
    apply first_alnum; [by rewrite all_chars_rev|].
    unfold trimmed, TrimRight. rewrite rev_rev. apply TrimLeft_head.
Qed.

Lemma validateLabelValue_ok_witness :
  first_ok alnum (String.rev (validateLabelValue "1.0.0+git1697.ga265cdfd")) = true.
Proof. apply (validateLabelValue_ok "1.0.0+git1697.ga265cdfd"). vm_compute. discriminate. Defined.

(** Cutting to 63 characters happens after the trimming, so a long value can keep a
    trailing separator, which Kubernetes rejects in a label value. *)
Theorem validateLabelValue_trailing :
  exists value, validateLabelValue value <> "" /\
    first_ok punct (String.rev (validateLabelValue value)) = true.
Proof.
  exists "v1.20.0-alpha.0.1234.gabcdef0-a-very-long-development-branch-x.y-z".
  vm_compute. done.
Qed.

End ObjectName.
