(* ===== verification/CephVersion.v ===== *)
(** * CephVersion: Ceph release numbers

    Models [pkg/operator/ceph/version/version.go]: the version record, the parser of the
    output of [ceph --version], the comparisons the upgrade logic relies on, and the check of
    an external cluster's version. *)

From stdpp Require Import base strings list.
From Stdlib Require Import ZArith Ascii.
From S2P Require Import Prelude.
Open Scope Z_scope.

Module Version.

Record CephVersion := {
  Major : Z;
  Minor : Z;
  Extra : Z;
  Build : Z;
  CommitID : string;
}.

#[global] Instance CephVersion_eq_dec : EqDecision CephVersion.
Proof. solve_decision. Defined.

Definition mkv (a b c d : Z) (id : string) : CephVersion :=
  {| Major := a; Minor := b; Extra := c; Build := d; CommitID := id |}.

Definition MinimumMajor : Z := 19.

Definition Minimum : CephVersion := mkv MinimumMajor 2 0 0 "".

Definition Squid : CephVersion := mkv 19 0 0 0 "".

Definition Tentacle : CephVersion := mkv 20 0 0 0 "".

Definition TentaclePrometheusTLS : CephVersion := mkv 20 2 999 0 "".

Definition Umbrella : CephVersion := mkv 21 0 0 0 "".

Definition supportedVersions : list CephVersion := [Squid; Tentacle; Umbrella].

Definition unsupportedVersions : list CephVersion := [].

Definition unknownVersionString : string := "<unknown version>".

Definition ReleaseName (v : CephVersion) : string :=
  if Major v =? Major Squid then "squid"
  else if Major v =? Major Tentacle then "tentacle"
  else if Major v =? Major Umbrella then "umbrella"
  else unknownVersionString.

(** ["%d.%d.%d-%d %s"], the part [String] and [CephVersionFormatted] share *)
Definition dotted (v : CephVersion) : string :=
  Itoa (Major v) +:+ "." +:+ Itoa (Minor v) +:+ "." +:+ Itoa (Extra v) +:+ "-" +:+
  Itoa (Build v) +:+ " " +:+ ReleaseName v.

Definition String_ (v : CephVersion) : string := dotted v.

Definition CephVersionFormatted (v : CephVersion) : string := "ceph version " +:+ dotted v.

(** ** Parsing

    The three regular expressions.  A repetition [\d+] is followed by a character that is
    no digit or by the end of the pattern, so the greedy choice is the only one. *)

Fixpoint scan_digits (s : string) : string * string :=
  match s with
  | String c s' => if is_digit c then let '(d, r) := scan_digits s' in (String c d, r) else ("", s)
  | "" => ("", "")
  end.

Definition digits1 (s : string) : option (string * string) :=
  match scan_digits s with ("", _) => None | dr => Some dr end.

(** [ceph version (\d+)\.(\d+)\.(\d+)] at the start of [s], with what follows the match *)
Definition match_version (s : string) : option (string * string * string * string) :=
  s ← strip_prefix "ceph version " s;
  '(a, s) ← digits1 s;
  s ← strip_prefix "." s;
  '(b, s) ← digits1 s;
  s ← strip_prefix "." s;
  '(c, s) ← digits1 s;
  Some (a, b, c, s).

(** [ceph version (\d+)\.(\d+)\.(\d+)\-(\d+)]: the fourth group *)
Definition match_build (s : string) : option string :=
  '(_, _, _, s) ← match_version s;
  s ← strip_prefix "-" s;
  '(d, _) ← digits1 s;
  Some d.

(** The bytes before the first [)]. *)
Fixpoint until_close (s : string) : option string :=
  match s with
  | "" => None
  | String c s' => if Ascii.eqb c ")" then Some "" else String c <$> until_close s'
  end.

(** [\(([^)]+)\)]: the first group *)
Definition match_commit (s : string) : option string :=
  match s with
  | String c s' =>
      if Ascii.eqb c "(" then match until_close s' with
                              | Some (String d w) => Some (String d w)
                              | _ => None
                              end
      else None
  | "" => None
  end.

(** [FindStringSubmatch]: the leftmost position at which the pattern matches *)
Fixpoint find_match {A} (m : string -> option A) (s : string) : option A :=
  match m s with
  | Some a => Some a
  | None => match s with "" => None | String _ s' => find_match m s' end
  end.

(** The value [strconv.Atoi] returns for a string of digits, its error ignored: out of range
    it is the largest [int]. *)
Definition atoi_clamped (m : string) : Z := Z.min (default 0 (parse_digits m)) max_int64.

Definition ExtractCephVersion (src : string) : result CephVersion :=
  match find_match match_version src with
  | None => Err (Errorf "failed to parse version from: %q" [src])
  | Some (m1, m2, m3, _) =>
      match Atoi m1 with
      | None => Err (Errorf "failed to parse version major part: %q" [m1])
      | Some major =>
      match Atoi m2 with
      | None => Err (Errorf "failed to parse version minor part: %q" [m2])
      | Some minor =>
      match Atoi m3 with
      | None => Err (Errorf "failed to parse version extra part: %q" [m3])
      | Some extra =>
          let build := match find_match match_build src with
                       | Some m4 => atoi_clamped m4
                       | None => 0
                       end in
          let commitID := default "" (find_match match_commit src) in
          Ok (mkv major minor extra build commitID)
      end end end
  end.

(** ** Comparisons *)

Definition isRelease (v other : CephVersion) : bool := Major v =? Major other.

Definition isExactly (v other : CephVersion) : bool :=
  (Major v =? Major other) && (Minor v =? Minor other) && (Extra v =? Extra other).

Definition Supported (v : CephVersion) : bool := existsb (isRelease v) supportedVersions.

Definition Unsupported (v : CephVersion) : bool := existsb (isExactly v) unsupportedVersions.

Definition IsAtLeast (v other : CephVersion) : bool :=
  if Major other <? Major v then true
  else if Major v <? Major other then false
  else if Minor other <? Minor v then true
  else if Minor v <? Minor other then false
  else if Extra other <? Extra v then true
  else if Extra v <? Extra other then false
  else if Build other <? Build v then true
  else if Build v <? Build other then false
  else true.

Definition IsAtLeastTentacle (v : CephVersion) : bool := IsAtLeast v Tentacle.

Definition IsAtLeastUmbrella (v : CephVersion) : bool := IsAtLeast v Umbrella.

Definition IsAtLeastSquid (v : CephVersion) : bool := IsAtLeast v Squid.

Definition IsIdentical (a b : CephVersion) : bool :=
  if Major a =? Major b then
    if Minor a =? Minor b then
      if Extra a =? Extra b then
        if Build a =? Build b then
          String.eqb (CommitID a) (CommitID b)
        else false
      else false
    else false
  else false.

Definition IsSuperior (a b : CephVersion) : bool :=
  if Major b <? Major a then true
  else if (Major a =? Major b) && (Minor b <? Minor a) then true
  else if (Major a =? Major b) && (Minor a =? Minor b) && (Extra b <? Extra a) then true
  else if (Major a =? Major b) && (Minor a =? Minor b) && (Extra a =? Extra b) then
    if Build b <? Build a then true
    else negb (String.eqb (CommitID a) (CommitID b))
  else false.

Definition without_commit (v : CephVersion) : CephVersion :=
  mkv (Major v) (Minor v) (Extra v) (Build v) "".

Definition IsStrictlySuperior (a b : CephVersion) : bool :=
  IsSuperior (without_commit a) (without_commit b).

Definition IsInferior (a b : CephVersion) : bool :=
  if Major a <? Major b then true
  else if (Major a =? Major b) && (Minor a <? Minor b) then true
  else if (Major a =? Major b) && (Minor a =? Minor b) && (Extra a <? Extra b) then true
  else if (Major a =? Major b) && (Minor a =? Minor b) && (Extra a =? Extra b) &&
          (Build a <? Build b) then true
  else false.

Definition ValidateCephVersionsBetweenLocalAndExternalClusters
    (localVersion externalVersion : CephVersion) : result unit :=
  if negb (IsAtLeast externalVersion (mkv 15 0 0 0 ""))
  then Err (Errorf "unsupported external ceph version %q, need at least octopus"
              [String_ externalVersion])
  else if IsIdentical localVersion externalVersion then Ok ()
  else if IsStrictlySuperior localVersion externalVersion
  then Err (Errorf "local cluster ceph version %q is higher than the external cluster version %q"
              [String_ localVersion; String_ externalVersion])
  else if (Major localVersion =? Major externalVersion) &&
          IsStrictlySuperior externalVersion localVersion then Ok ()
  else if Major localVersion <? Major externalVersion then Ok ()
  else Ok ().

(** ** The order on releases

    The specification: lexicographic comparison of the four numbers, ignoring the commit. *)

Definition release (v : CephVersion) : Z * Z * Z * Z := (Major v, Minor v, Extra v, Build v).

Definition release_lt (a b : CephVersion) : Prop :=
  Major a < Major b \/
  (Major a = Major b /\ (Minor a < Minor b \/
  (Minor a = Minor b /\ (Extra a < Extra b \/
  (Extra a = Extra b /\ Build a < Build b))))).

#[global] Instance release_lt_dec a b : Decision (release_lt a b).
Proof. unfold release_lt. apply _. Defined.

#[global] Instance release_lt_strict : StrictOrder release_lt.
Proof. split; unfold release_lt; repeat intro; lia. Qed.

Lemma release_lt_trichotomy a b : release_lt a b \/ release a = release b \/ release_lt b a.
Proof.
  unfold release_lt, release.
  destruct (Z.lt_total (Major a) (Major b)) as [|[|]]; [lia| |lia].
  destruct (Z.lt_total (Minor a) (Minor b)) as [|[|]]; [lia| |lia].
  destruct (Z.lt_total (Extra a) (Extra b)) as [|[|]]; [lia| |lia].
  destruct (Z.lt_total (Build a) (Build b)) as [|[|]]; [lia| |lia].
  right. left. congruence.
Qed.

Lemma release_eq a b : release a = release b <->
  Major a = Major b /\ Minor a = Minor b /\ Extra a = Extra b /\ Build a = Build b.
Proof. unfold release. split; [intros [=]; done|]. intros (? & ? & ? & ?). congruence. Qed.

Lemma IsInferior_lt a b : IsInferior a b = true <-> release_lt a b.
Proof. unfold IsInferior, release_lt. repeat case_match; lia. Qed.

Lemma IsAtLeast_lt a b : IsAtLeast a b = true <-> ~ release_lt a b.
Proof. unfold IsAtLeast, release_lt. repeat case_match; lia. Qed.

Lemma IsSuperior_lt a b : IsSuperior a b = true <->
  release_lt b a \/
  (Major a = Major b /\ Minor a = Minor b /\ Extra a = Extra b /\ CommitID a <> CommitID b).
Proof.
  unfold IsSuperior, release_lt.
  destruct (String.eqb_spec (CommitID a) (CommitID b)); repeat case_match; simpl; intuition lia.
Qed.

Lemma IsStrictlySuperior_lt a b : IsStrictlySuperior a b = true <-> release_lt b a.
Proof.
  unfold IsStrictlySuperior. rewrite IsSuperior_lt. unfold release_lt, without_commit; simpl.
  intuition done.
Qed.

Lemma IsIdentical_eq a b : IsIdentical a b = true <-> a = b.
Proof.
  split.
  - destruct a, b; unfold IsIdentical; simpl. intros H.
    repeat case_match; try done. apply String.eqb_eq in H. f_equal; [lia..|done].
  - intros ->. unfold IsIdentical. rewrite !Z.eqb_refl. apply String.eqb_refl.
Qed.

(** ** The parser on what it is meant to read *)

Definition stops (r : string) : Prop :=
  match r with String c _ => is_digit c = false | "" => True end.

Lemma scan_digits_app d r :
  all_chars is_digit d = true -> stops r -> scan_digits (d +:+ r) = (d, r).
Proof.
  intros Hd Hr. induction d as [|c d IH]; simpl in *.
  - destruct r as [|c r]; simpl; [done|]. by rewrite Hr.
  - apply andb_prop in Hd as [Hc Hd]. rewrite Hc, IH by done. done.
Qed.

Lemma digits1_Itoa z r : 0 <= z -> stops r -> digits1 (Itoa z +:+ r) = Some (Itoa z, r).
Proof.
  intros Hz Hr. destruct (Itoa_digits z Hz) as [Hd Hne].
  unfold digits1. rewrite scan_digits_app by done. by destruct (Itoa z).
Qed.

Definition prefix3 (a b c : Z) (r : string) : string :=
  "ceph version " +:+ Itoa a +:+ "." +:+ Itoa b +:+ "." +:+ Itoa c +:+ r.

Lemma match_version_render a b c r : 0 <= a -> 0 <= b -> 0 <= c -> stops r ->
  match_version (prefix3 a b c r) = Some (Itoa a, Itoa b, Itoa c, r).
Proof.
  intros Ha Hb Hc Hr. unfold match_version, prefix3. rewrite strip_prefix_app. simpl.
  rewrite (digits1_Itoa a) by done. simpl. rewrite (digits1_Itoa b) by done. simpl.
  rewrite (digits1_Itoa c) by done. done.
Qed.

Lemma match_build_render a b c d r : 0 <= a -> 0 <= b -> 0 <= c -> 0 <= d -> stops r ->
  match_build (prefix3 a b c ("-" +:+ Itoa d +:+ r)) = Some (Itoa d).
Proof.
  intros Ha Hb Hc Hd Hr. unfold match_build.
  rewrite (match_version_render a b c) by done. simpl. by rewrite (digits1_Itoa d).
Qed.

Lemma find_match_here {A} (m : string -> option A) s a : m s = Some a -> find_match m s = Some a.
Proof. intros H. destruct s; simpl; by rewrite H. Qed.

(** Nothing is found before a string in which the pattern cannot start. *)
Lemma find_match_skip {A} (m : string -> option A) (p : ascii -> bool) s r :
  (forall c t, p c = true -> m (String c t) = None) ->
  all_chars p s = true -> find_match m (s +:+ r) = find_match m r.
Proof.
  intros Hm. induction s as [|c s IH]; simpl; [done|].
  intros [Hc Hs]%andb_prop. rewrite (Hm c _ Hc). by apply IH.
Qed.

Lemma find_match_none {A} (m : string -> option A) lit s :
  (forall t, HasPrefix t lit = false -> m t = None) ->
  Contains s lit = false -> find_match m s = None.
Proof.
  intros Hm. induction s as [|c s IH]; cbn [Contains find_match].
  - rewrite orb_false_r. intros H. by rewrite (Hm "" H).
  - intros [H1 H2]%orb_false_elim. rewrite (Hm _ H1). by apply IH.
Qed.

Definition not_char (x c : ascii) : bool := negb (Ascii.eqb c x).

Lemma digit_not_char x c : is_digit x = false -> is_digit c = true -> not_char x c = true.
Proof. unfold not_char. intros Hx H. destruct (Ascii.eqb_spec c x); [by subst; rewrite Hx in H|done]. Qed.

Lemma Itoa_not_char x z : is_digit x = false -> 0 <= z -> all_chars (not_char x) (Itoa z) = true.
Proof.
  intros Hx Hz. eapply all_chars_impl; [intros c; by apply digit_not_char|]. by apply Itoa_digits.
Qed.

Lemma match_commit_start c t : not_char "(" c = true -> match_commit (String c t) = None.
Proof. unfold not_char. simpl. by destruct (Ascii.eqb c "("). Qed.

Lemma match_build_prefix t : HasPrefix t "ceph version " = false -> match_build t = None.
Proof. unfold HasPrefix, match_build, match_version. by destruct (strip_prefix _ t). Qed.

Lemma match_build_start c t : not_char "c" c = true -> match_build (String c t) = None.
Proof.
  unfold not_char. intros H. apply match_build_prefix. unfold HasPrefix.
  cbn [strip_prefix]. rewrite Ascii.eqb_sym. by destruct (Ascii.eqb c "c").
Qed.

Lemma until_close_app id r :
  all_chars (not_char ")") id = true -> until_close (id +:+ String ")" r) = Some id.
Proof.
  induction id as [|c id IH]; simpl; [done|]. intros [Hc H]%andb_prop.
  unfold not_char in Hc. apply negb_true_iff in Hc. by rewrite Hc, IH.
Qed.

Definition fits (z : Z) : Prop := 0 <= z <= max_int64.

Lemma fits_int64 z : fits z -> 0 <= z /\ in_int64 z = true.
Proof. unfold fits, in_int64, min_int64, max_int64. lia. Qed.

Lemma Atoi_fits z : fits z -> Atoi (Itoa z) = Some z.
Proof. intros [? ?]%fits_int64. by apply Atoi_Itoa. Qed.

Lemma atoi_clamped_fits z : fits z -> atoi_clamped (Itoa z) = z.
Proof.
  intros H. unfold atoi_clamped. rewrite parse_digits_Itoa by apply H. unfold fits in H. simpl. lia.
Qed.

(** The version, with build and commit whatever the other two searches find. *)
Lemma Extract_prefix3 a b c r :
  fits a -> fits b -> fits c -> stops r ->
  ExtractCephVersion (prefix3 a b c r) =
  Ok (mkv a b c (match find_match match_build (prefix3 a b c r) with
                 | Some m4 => atoi_clamped m4 | None => 0 end)
        (default "" (find_match match_commit (prefix3 a b c r)))).
Proof.
  intros Ha Hb Hc Hr. unfold ExtractCephVersion.
  rewrite (find_match_here _ _ _ (match_version_render a b c r
    (proj1 Ha) (proj1 Hb) (proj1 Hc) Hr)).
  by rewrite !Atoi_fits.
Qed.

Lemma prefix3_skip {A} (m : string -> option A) x a b c r :
  (forall d t, not_char x d = true -> m (String d t) = None) ->
  is_digit x = false -> all_chars (not_char x) "eph version ." = true ->
  fits a -> fits b -> fits c ->
  find_match m (tail (prefix3 a b c r)) = find_match m r.
Proof.
  intros Hm Hx Hl [Ha _] [Hb _] [Hc _].
  change (tail (prefix3 a b c r)) with
    ("eph version " +:+ (Itoa a +:+ ("." +:+ (Itoa b +:+ ("." +:+ (Itoa c +:+ r)))))).
  change "eph version ." with ("eph version " +:+ ".") in Hl.
  rewrite all_chars_app in Hl. apply andb_prop in Hl as [Hl1 Hl2].
  rewrite !(find_match_skip m (not_char x)) by auto using Itoa_not_char. done.
Qed.

Lemma prefix3_cons a b c r : prefix3 a b c r = String "c" (tail (prefix3 a b c r)).
Proof. reflexivity. Qed.

Lemma find_commit_prefix3 a b c r : fits a -> fits b -> fits c ->
  find_match match_commit (prefix3 a b c r) = find_match match_commit r.
Proof.
  intros. rewrite prefix3_cons. cbn [find_match].
  rewrite match_commit_start by done. apply (prefix3_skip _ "("); auto using match_commit_start.
Qed.

Lemma find_commit_paren id rest : id <> "" -> all_chars (not_char ")") id = true ->
  find_match match_commit (" (" +:+ id +:+ ")" +:+ rest) = Some id.
Proof.
  intros Hne Hid. simpl. rewrite until_close_app by done. by destruct id.
Qed.

(** What [ceph --version] prints: an optional build number after a dash, then the commit in
    parentheses. *)
Definition ceph_output (a b c : Z) (build : option Z) (id rest : string) : string :=
  prefix3 a b c (match build with Some d => "-" +:+ Itoa d | None => "" end +:+
                 (" (" +:+ id +:+ ")" +:+ rest)).

(** [ExtractCephVersion] reads back the numbers, the build and the commit of the output
    of [ceph --version]. *)
Theorem ExtractCephVersion_output (a b c : Z) (build : option Z) (id rest : string) :
  fits a -> fits b -> fits c -> fits (default 0 build) ->
  id <> "" -> all_chars (not_char ")") id = true ->
  Contains (id +:+ ")" +:+ rest) "ceph version " = false ->
  ExtractCephVersion (ceph_output a b c build id rest) = Ok (mkv a b c (default 0 build) id).
Proof.
  intros Ha Hb Hc Hd Hne Hid Hno. unfold ceph_output.
  assert (stops (match build with Some d => "-" +:+ Itoa d | None => "" end +:+
                 (" (" +:+ id +:+ ")" +:+ rest))) as Hs by by destruct build.
  rewrite Extract_prefix3, find_commit_prefix3 by done. do 2 f_equal.
  - destruct build as [d|]; simpl default.
    + rewrite app_string_assoc.
      rewrite (find_match_here _ _ _ (match_build_render a b c d (" (" +:+ id +:+ ")" +:+ rest)
        (proj1 Ha) (proj1 Hb) (proj1 Hc) (proj1 Hd) eq_refl)). by apply atoi_clamped_fits.
    + rewrite prefix3_cons. cbn [find_match].
      rewrite <- prefix3_cons. unfold match_build at 1.
      rewrite (match_version_render a b c) by (try apply Ha; try apply Hb; try apply Hc; done).
      cbn [mbind option_bind]. simpl strip_prefix. cbn [mbind option_bind].
      rewrite (prefix3_skip _ "c") by auto using match_build_start.
      change ("" +:+ ?x) with x.
      rewrite (find_match_skip _ (not_char "c") " (") by auto using match_build_start.
      rewrite (find_match_none _ "ceph version "); [done|apply match_build_prefix|done].
  - destruct build as [d|];
      [|change ("" +:+ ?x) with x; by rewrite (find_commit_paren id rest Hne Hid)].
    rewrite app_string_assoc, (find_match_skip _ (not_char "(") "-"), (find_match_skip _ (not_char "(") (Itoa d));
      [by rewrite find_commit_paren|auto using match_commit_start..].
    apply Itoa_not_char; [done|apply Hd].
Qed.

Lemma ExtractCephVersion_output_witness :
  ExtractCephVersion
    (ceph_output 19 2 6 None "ae699615bac534ea496ee965ac6192cb7e0e07c1" " squid (stable)") =
  Ok (mkv 19 2 6 0 "ae699615bac534ea496ee965ac6192cb7e0e07c1").
Proof.
  apply ExtractCephVersion_output; try (vm_compute; split; discriminate); by vm_compute.
Defined.

(** Parsing what [CephVersionFormatted] prints gives back the version without its
    commit. *)
Theorem Extract_Formatted_roundtrip (v : CephVersion) :
  fits (Major v) -> fits (Minor v) -> fits (Extra v) -> fits (Build v) ->
  ExtractCephVersion (CephVersionFormatted v) = Ok (without_commit v).
Proof.
  intros Ha Hb Hc Hd.
  change (CephVersionFormatted v) with
    (prefix3 (Major v) (Minor v) (Extra v) ("-" +:+ (Itoa (Build v) +:+ (" " +:+ ReleaseName v)))).
  rewrite Extract_prefix3, find_commit_prefix3 by done.
  rewrite (find_match_here _ _ _ (match_build_render _ _ _ (Build v) (" " +:+ ReleaseName v)
    (proj1 Ha) (proj1 Hb) (proj1 Hc) (proj1 Hd) eq_refl)).
  rewrite atoi_clamped_fits by done. unfold without_commit. do 2 f_equal.
  rewrite (find_match_skip _ (not_char "(") "-"), (find_match_skip _ (not_char "(") (Itoa (Build v)));
    [|auto using match_commit_start..].
  - unfold ReleaseName. by repeat case_match.
  - apply Itoa_not_char; [done|apply Hd].
Qed.

Lemma Extract_Formatted_roundtrip_witness :
  ExtractCephVersion (CephVersionFormatted (mkv 20 1 7 12 "abc")) = Ok (mkv 20 1 7 12 "").
Proof. apply Extract_Formatted_roundtrip; vm_compute; split; discriminate. Defined.

(** The comparison functions agree with one strict total order on releases:
    [IsInferior] and [IsStrictlySuperior] are that order and its converse, [IsAtLeast] is its
    complement, and exactly one of less, equal and greater holds. *)
Theorem comparisons_total_order (a b : CephVersion) :
  (IsInferior a b = true <-> release_lt a b) /\
  (IsStrictlySuperior a b = true <-> release_lt b a) /\
  (IsAtLeast a b = negb (IsInferior a b)) /\
  (IsStrictlySuperior a b = IsInferior b a) /\
  (IsInferior a b = false -> IsInferior b a = false -> release a = release b).
Proof.
  assert (forall x y, IsInferior x y = true <-> release_lt x y) as Hi by apply IsInferior_lt.
  split_and!; [apply Hi|apply IsStrictlySuperior_lt|..].
  - apply eq_true_iff_eq. rewrite negb_true_iff, <- not_true_iff_false, Hi. apply IsAtLeast_lt.
  - apply eq_true_iff_eq. rewrite Hi. apply IsStrictlySuperior_lt.
  - intros H1%not_true_iff_false H2%not_true_iff_false. rewrite Hi in H1, H2.
    destruct (release_lt_trichotomy a b) as [|[|]]; done.
Qed.

Lemma comparisons_total_order_witness :
  release (mkv 19 2 1 0 "x") = release (mkv 19 2 1 0 "y").
Proof. apply (comparisons_total_order (mkv 19 2 1 0 "x") (mkv 19 2 1 0 "y")); reflexivity. Defined.

(** An external cluster is accepted exactly when it runs Octopus or newer and the local
    release is not higher than the external one; commit IDs play no part. *)
Theorem Validate_external_versions (l e : CephVersion) :
  ValidateCephVersionsBetweenLocalAndExternalClusters l e = Ok () <->
  ~ release_lt e (mkv 15 0 0 0 "") /\ ~ release_lt e l.
Proof.
  unfold ValidateCephVersionsBetweenLocalAndExternalClusters.
  rewrite <- IsAtLeast_lt, <- IsStrictlySuperior_lt.
  destruct (IsAtLeast e _); simpl; [|naive_solver].
  destruct (IsIdentical l e) eqn:Ei.
  - apply IsIdentical_eq in Ei as ->. rewrite IsStrictlySuperior_lt.
    pose proof (irreflexivity release_lt e). naive_solver.
  - destruct (IsStrictlySuperior l e); [naive_solver|]. repeat case_match; naive_solver.
Qed.

End Version.
