(* ===== verification/GoTime.v ===== *)
(** * GoTime: instants and RFC 3339 time stamps

    What the operator uses of Go's [time] package: an instant is the number of nanoseconds
    since the Unix epoch; [Format] renders it with the layout [time.RFC3339] in UTC (the zone
    of the operator's container), to the second; [Parse] reads such a stamp, with an optional
    fraction and either [Z] or a numeric zone offset. *)

From stdpp Require Import base strings list.
From Stdlib Require Import ZArith Ascii.
From S2P Require Import Prelude.
Open Scope Z_scope.

Module GoTime.

Definition Second : Z := 1000000000.

Definition Minute : Z := 60 * Second.

Definition Hour : Z := 60 * Minute.

(** ** The calendar

    Years counted from March, so that the leap day is the last of its year. *)

Definition civil_from_days (days : Z) : Z * Z * Z :=
  let z := days + 719468 in
  let era := z / 146097 in
  let doe := z mod 146097 in
  let yoe := (doe - doe / 1460 + doe / 36524 - doe / 146096) / 365 in
  let doy := doe - (365 * yoe + yoe / 4 - yoe / 100) in
  let mp := (5 * doy + 2) / 153 in
  let d := doy - (153 * mp + 2) / 5 + 1 in
  let m := if mp <? 10 then mp + 3 else mp - 9 in
  let y := yoe + era * 400 + (if m <=? 2 then 1 else 0) in
  (y, m, d).

Definition days_from_civil (y m d : Z) : Z :=
  let y := y - (if m <=? 2 then 1 else 0) in
  let era := y / 400 in
  let yoe := y mod 400 in
  let doy := (153 * (if 2 <? m then m - 3 else m + 9) + 2) / 5 + d - 1 in
  let doe := yoe * 365 + yoe / 4 - yoe / 100 + doy in
  era * 146097 + doe - 719468.

Definition isLeap (y : Z) : bool :=
  (y mod 4 =? 0) && (negb (y mod 100 =? 0) || (y mod 400 =? 0)).

Definition daysIn (m y : Z) : Z :=
  if m =? 2 then (if isLeap y then 29 else 28)
  else if (m =? 4) || (m =? 6) || (m =? 9) || (m =? 11) then 30 else 31.

(** ** Rendering *)

Definition digit (d : Z) : string := String (ascii_of_nat (Z.to_nat (48 + d))) "".

Definition pad2 (n : Z) : string := digit (n / 10) +:+ digit (n mod 10).

Definition pad4 (n : Z) : string := pad2 (n / 100) +:+ pad2 (n mod 100).

(** [t.Format(time.RFC3339)] *)
Definition Format (t : Z) : string :=
  let secs := t / Second in
  let days := secs / 86400 in
  let sod := secs mod 86400 in
  let '(y, m, d) := civil_from_days days in
  pad4 y +:+ "-" +:+ pad2 m +:+ "-" +:+ pad2 d +:+ "T" +:+
  pad2 (sod / 3600) +:+ ":" +:+ pad2 (sod / 60 mod 60) +:+ ":" +:+ pad2 (sod mod 60) +:+ "Z".

(** ** Reading *)

Definition digit_val (c : ascii) : option Z :=
  if is_digit c then Some (ascii_Z c - 48) else None.

Definition read2 (s : string) : option (Z * string) :=
  match s with
  | String a (String b r) =>
      x ← digit_val a; y ← digit_val b; Some (10 * x + y, r)
  | _ => None
  end.

Definition read4 (s : string) : option (Z * string) :=
  '(x, s) ← read2 s; '(y, s) ← read2 s; Some (100 * x + y, s).

Definition expect (c : ascii) (s : string) : option string :=
  match s with String d r => if Ascii.eqb c d then Some r else None | "" => None end.

(** Fraction digits beyond the ninth are dropped. *)
Fixpoint fraction (scale : Z) (s : string) : Z * string :=
  match s with
  | String c r =>
      match digit_val c with
      | Some x => let '(f, r') := fraction (scale / 10) r in (x * scale + f, r')
      | None => (0, s)
      end
  | "" => (0, "")
  end.

Definition read_fraction (s : string) : option (Z * string) :=
  match s with
  | String "."%char (String c r) =>
      match digit_val c with
      | Some _ => Some (fraction (Second / 10) (String c r))
      | None => None
      end
  | _ => Some (0, s)
  end.

(** The zone offset in seconds. *)
Definition read_zone (s : string) : option Z :=
  match s with
  | String "Z"%char "" => Some 0
  | String c r =>
      sign ← (if Ascii.eqb c "+" then Some 1 else if Ascii.eqb c "-" then Some (-1) else None);
      '(hh, r) ← read2 r;
      r ← expect ":" r;
      '(mm, r) ← read2 r;
      if String.eqb r "" && (hh <=? 24) && (mm <=? 60) then Some (sign * (hh * 3600 + mm * 60))
      else None
  | "" => None
  end.

(** [time.Parse(time.RFC3339, s)] *)
Definition Parse (s : string) : option Z :=
  '(y, s) ← read4 s; s ← expect "-" s;
  '(m, s) ← read2 s; s ← expect "-" s;
  '(d, s) ← read2 s; s ← expect "T" s;
  '(hh, s) ← read2 s; s ← expect ":" s;
  '(mi, s) ← read2 s; s ← expect ":" s;
  '(ss, s) ← read2 s;
  '(nanos, s) ← read_fraction s;
  off ← read_zone s;
  if (1 <=? m) && (m <=? 12) && (1 <=? d) && (d <=? daysIn m y) &&
     (hh <? 24) && (mi <? 60) && (ss <? 60)
  then Some ((days_from_civil y m d * 86400 + hh * 3600 + mi * 60 + ss - off) * Second + nanos)
  else None.

(** ** Round trip *)

#[local] Ltac Zify.zify_post_hook ::= Z.div_mod_to_equations.

(** The position of a day in its 400-year cycle. *)
Lemma year_of_cycle doe : 0 <= doe < 146097 ->
  let yoe := (doe - doe / 1460 + doe / 36524 - doe / 146096) / 365 in
  0 <= yoe < 400 /\ 365 * yoe + yoe / 4 - yoe / 100 <= doe /\
  doe < 365 * (yoe + 1) + (yoe + 1) / 4 - (yoe + 1) / 100 + (yoe + 1) / 400.
Proof. cbv zeta. lia. Qed.

Lemma month_of_year doy : 0 <= doy <= 365 ->
  let mp := (5 * doy + 2) / 153 in
  0 <= mp <= 11 /\ 0 <= doy - (153 * mp + 2) / 5 <= 30 /\
  (mp = 11 -> doy - (153 * mp + 2) / 5 = doy - 337) /\
  (mp = 1 \/ mp = 3 \/ mp = 6 \/ mp = 8 -> doy - (153 * mp + 2) / 5 <= 29).
Proof. cbv zeta. lia. Qed.

Lemma isLeap_cycle y : isLeap y = true <->
  (y + 0) mod 4 = 0 /\ ((y mod 100 <> 0) \/ y mod 400 = 0).
Proof. unfold isLeap. rewrite Z.add_0_r. lia. Qed.

Lemma civil_roundtrip days :
  let '(y, m, d) := civil_from_days days in
  days_from_civil y m d = days /\ 1 <= m <= 12 /\ 1 <= d <= daysIn m y.
Proof.
  unfold civil_from_days.
  set (z := days + 719468). set (era := z / 146097). set (doe := z mod 146097).
  assert (0 <= doe < 146097) as Hdoe by (apply Z.mod_pos_bound; lia).
  assert (z = 146097 * era + doe) as Hz by (apply Z.div_mod; lia).
  pose proof (year_of_cycle doe Hdoe) as Hy. cbv zeta in Hy.
  set (yoe := _ / 365) in *. destruct Hy as (Hyoe & Hlo & Hhi).
  set (doy := doe - _).
  assert (0 <= doy <= 365) as Hdoy by (unfold doy; lia).
  assert (doy = 365 -> isLeap (yoe + era * 400 + 1) = true) as Hleap
    by (rewrite isLeap_cycle; unfold doy; lia).
  pose proof (month_of_year doy Hdoy) as Hm. cbv zeta in Hm.
  set (mp := (5 * doy + 2) / 153) in *. destruct Hm as (Hmp & Hd & H11 & H30).
  assert (doe = yoe * 365 + yoe / 4 - yoe / 100 + doy) as Hdoe' by (unfold doy; lia).
  assert (z = days + 719468) as Hzd by done. clearbody doy yoe doe era z.
  destruct (Z.ltb_spec mp 10) as [Hlt|Hge].
  - assert ((mp + 3 <=? 2) = false) as -> by lia.
    assert ((2 <? mp + 3) = true) as E2 by lia.
    unfold days_from_civil. assert ((mp + 3 <=? 2) = false) as -> by lia. rewrite E2.
    replace (yoe + era * 400 + 0 - 0) with (yoe + era * 400) by lia.
    rewrite Z.mod_add, Z.mod_small, Z.div_add, Z.div_small by lia.
    replace (mp + 3 - 3) with mp by lia.
    split_and!; try lia. unfold daysIn. repeat case_match; lia.
  - assert ((mp - 9 <=? 2) = true) as -> by lia.
    unfold days_from_civil. assert ((mp - 9 <=? 2) = true) as -> by lia.
    assert ((2 <? mp - 9) = false) as -> by lia.
    replace (yoe + era * 400 + 1 - 1) with (yoe + era * 400) by lia.
    rewrite Z.mod_add, Z.mod_small, Z.div_add, Z.div_small by lia.
    replace (mp - 9 + 9) with mp by lia.
    split_and!; try lia. unfold daysIn.
    destruct (isLeap (yoe + era * 400 + 1)) eqn:El; repeat case_match; try lia.
    all: assert (doy <> 365) by (intros E; by rewrite (Hleap E) in El); lia.
Qed.

Lemma digit_val_digit d : 0 <= d <= 9 ->
  digit_val (ascii_of_nat (Z.to_nat (48 + d))) = Some d.
Proof.
  intros H. unfold digit_val, is_digit. rewrite ascii_Z_of by lia.
  assert ((48 <=? 48 + d) && (48 + d <=? 57) = true) as -> by lia. f_equal. lia.
Qed.

Lemma read2_pad2 n r : 0 <= n < 100 -> read2 (pad2 n +:+ r) = Some (n, r).
Proof.
  intros H. unfold pad2, digit. simpl.
  rewrite !digit_val_digit by lia. simpl. do 2 f_equal. lia.
Qed.

Lemma read4_pad4 n r : 0 <= n < 10000 -> read4 (pad4 n +:+ r) = Some (n, r).
Proof.
  intros H. unfold pad4, read4. rewrite app_string_assoc, read2_pad2 by lia.
  cbn [mbind option_bind]. rewrite read2_pad2 by lia. cbn [mbind option_bind]. do 2 f_equal. lia.
Qed.

Lemma expect_app c r : expect c (String c "" +:+ r) = Some r.
Proof. simpl. by rewrite Ascii.eqb_refl. Qed.

#[local] Ltac read_next := cbn [mbind option_bind]; rewrite expect_app; cbn [mbind option_bind].

(** The first nanosecond of the year 10000. *)
Definition end_of_9999 : Z := 253402300800 * Second.

Lemma civil_year_bound days : 0 <= days < 2932897 ->
  let '(y, _, _) := civil_from_days days in 1970 <= y < 10000.
Proof.
  intros H. unfold civil_from_days.
  set (z := days + 719468). set (era := z / 146097). set (doe := z mod 146097).
  assert (0 <= doe < 146097) as Hdoe by (apply Z.mod_pos_bound; lia).
  assert (z = 146097 * era + doe) as Hz by (apply Z.div_mod; lia).
  pose proof (year_of_cycle doe Hdoe) as Hy. cbv zeta in Hy.
  set (yoe := _ / 365) in *. destruct Hy as (Hyoe & Hlo & Hhi).
  set (doy := doe - _). set (mp := (5 * doy + 2) / 153).
  assert (z = days + 719468) as Hzd by done.
  assert (0 <= doy <= 365) as Hdoy by (unfold doy; lia).
  assert (doe = yoe * 365 + yoe / 4 - yoe / 100 + doy) as Hdoe' by (unfold doy; lia).
  assert (0 <= mp <= 11 /\ (mp < 10 <-> doy < 306)) as Hmp by (unfold mp; clearbody doy; lia).
  clearbody mp doy yoe doe era z.
  repeat case_match; simplify_eq; lia.
Qed.

(** A time stamp written with [Format] is read back by [Parse] to the second, for all
    instants from 1970 to the end of the year 9999. *)
Theorem Parse_Format (t : Z) :
  0 <= t < end_of_9999 -> Parse (Format t) = Some (t - t mod Second).
Proof.
  intros Ht. unfold end_of_9999, Second in *. unfold Format, Second.
  set (secs := t / 1000000000). set (days := secs / 86400). set (sod := secs mod 86400).
  assert (0 <= sod < 86400) as Hsod by (apply Z.mod_pos_bound; lia).
  assert (secs = 86400 * days + sod) as Hsecs by (apply Z.div_mod; lia).
  assert (t - t mod 1000000000 = secs * 1000000000) as -> by (unfold secs; lia).
  assert (0 <= days < 2932897) as Hdays by lia.
  pose proof (civil_roundtrip days) as Hc. pose proof (civil_year_bound days Hdays) as Hy.
  destruct (civil_from_days days) as [[y m] d]. destruct Hc as (Hdc & Hm & Hd).
  assert (daysIn m y <= 31) by (unfold daysIn; repeat case_match; lia).
  unfold Parse. rewrite read4_pad4 by lia. read_next.
  rewrite (read2_pad2 m) by lia. read_next.
  rewrite (read2_pad2 d) by lia. read_next.
  rewrite (read2_pad2 (sod / 3600)) by lia. read_next.
  rewrite (read2_pad2 (sod / 60 mod 60)) by lia. read_next.
  rewrite (read2_pad2 (sod mod 60)) by lia. cbn [mbind option_bind].
  change (read_fraction "Z") with (Some (0, "Z")). cbn [mbind option_bind].
  change (read_zone "Z") with (Some 0). cbn [mbind option_bind].
  match goal with |- (if ?b then _ else _) = _ => assert (b = true) as -> by lia end.
  f_equal. rewrite Hdc. unfold Second. lia.
Qed.

Lemma Parse_Format_witness : Parse (Format 1785542400123456789) = Some 1785542400000000000.
Proof. apply (Parse_Format 1785542400123456789). vm_compute. split; congruence. Defined.

Example Format_1 : Format (1785542400 * Second) = "2026-08-01T00:00:00Z".
Proof. vm_compute. reflexivity. Qed.

Example Parse_zone : Parse "2026-08-01T02:00:00.5+02:00" = Some 1785542400500000000.
Proof. vm_compute. reflexivity. Qed.

End GoTime.
