(* ===== verification/Topology.v ===== *)
(** * Topology: the CRUSH location of a node

    Models [pkg/operator/ceph/cluster/osd/topology/topology.go] with the helpers it calls,
    [NormalizeCrushName] ([pkg/daemon/ceph/client/crush.go]) and [LabelHostname]
    ([pkg/operator/k8sutil/labels.go]).  Label maps are [gmap string string]. *)

From stdpp Require Import base gmap strings list fin_maps.
From Stdlib Require Import ZArith Ascii.
From S2P Require Import Prelude.
Open Scope Z_scope.

Module Topology.

Definition KubernetesTopologyLabels : list string := ["zone"; "region"].

Definition CRUSHTopologyLabels : list string :=
  ["chassis"; "rack"; "row"; "pdu"; "pod"; "room"; "datacenter"].

Definition CRUSHMapLevelsOrdered : list string :=
  ["host"] ++ (CRUSHTopologyLabels ++ KubernetesTopologyLabels).

Definition topologyLabelPrefix : string := "topology.rook.io/".

(** [corev1.LabelTopologyRegion], [corev1.LabelTopologyZone], [corev1.LabelHostname] *)
Definition LabelTopologyRegion : string := "topology.kubernetes.io/region".

Definition LabelTopologyZone : string := "topology.kubernetes.io/zone".

Definition DefaultLabelHostname : string := "kubernetes.io/hostname".

(** [strings.ReplaceAll(name, ".", "-")] *)
Definition NormalizeCrushName (name : string) : string :=
  map_bytes (fun c => if Ascii.eqb c "." then "-"%char else c) name.

Definition IsNormalizedCrushNameEqual (notNormalized normalized : string) : bool :=
  String.eqb notNormalized normalized || String.eqb (NormalizeCrushName notNormalized) normalized.

Section WithHostnameLabel.

(** The value of the environment variable [ROOK_CUSTOM_HOSTNAME_LABEL], empty when unset. *)
Context (customHostnameLabel : string).

Definition LabelHostname : string :=
  if String.eqb customHostnameLabel "" then DefaultLabelHostname else customHostnameLabel.

Definition rookTopologyLabelsOrdered : list string :=
  (fun label => topologyLabelPrefix +:+ label) <$> rev CRUSHTopologyLabels.

Definition allKubernetesTopologyLabelsOrdered : list string :=
  ([LabelTopologyRegion; LabelTopologyZone] ++ rookTopologyLabelsOrdered) ++ [LabelHostname].

Definition kubernetesTopologyLabelToCRUSHLabel (label : string) : string :=
  if String.eqb label LabelHostname then "host"
  else default "" (last (split_byte "/" label)).

Definition formatTopologyAffinity (label value : string) : string := label +:+ "=" +:+ value.

(** First loop of [extractTopologyFromLabels]: the topology and its affinity. *)
Definition collect_label (labels : gmap string string)
    (st : gmap string string * string) (label : string) : gmap string string * string :=
  let '(topology, affinity) := st in
  let topologyID := kubernetesTopologyLabelToCRUSHLabel label in
  match labels !! label with
  | Some value =>
      if String.eqb value "" then st
      else (<[topologyID := value]> topology,
            if String.eqb topologyID "host" then affinity else formatTopologyAffinity label value)
  | None => st
  end.

(** Second loop: the labels from lowest to highest, dropping a value already seen below.
    What remains of [duplicateTopology] is only logged. *)
Definition drop_duplicate (labels : gmap string string)
    (st : gmap string string * gmap string (list string)) (label : string) :
    gmap string string * gmap string (list string) :=
  let '(topology, dup) := st in
  match labels !! label with
  | Some value =>
      let topology := match dup !! value with
                      | Some _ => delete (kubernetesTopologyLabelToCRUSHLabel label) topology
                      | None => topology
                      end in
      (topology, <[value := default [] (dup !! value) ++ [label]]> dup)
  | None => st
  end.

Definition extractTopologyFromLabels (labels : gmap string string) : gmap string string * string :=
  let all := allKubernetesTopologyLabelsOrdered in
  let '(topology, affinity) := foldl (collect_label labels) (∅, "") all in
  let '(topology, _) := foldl (drop_duplicate labels) (topology, ∅) (rev all) in
  (topology, affinity).

Definition ExtractOSDTopologyFromLabels (labels : gmap string string) : gmap string string * string :=
  let '(topology, affinity) := extractTopologyFromLabels labels in
  (NormalizeCrushName <$> topology, affinity).

Definition GetDefaultTopologyLabels : string :=
  Join ([LabelHostname; LabelTopologyRegion; LabelTopologyZone] ++
        ((fun label => topologyLabelPrefix +:+ label) <$> CRUSHTopologyLabels)) ",".

(** ** Conflicts between the labels of several nodes *)

Record Node := { node_name : string; node_labels : gmap string string }.

Definition hierarchy : list string :=
  filter (fun label => label <> LabelHostname) allKubernetesTopologyLabelsOrdered.

(** [client.NormalizeCrushName(labels[key])]: a missing label reads as the empty string. *)
Definition crushName (n : Node) (key : string) : string :=
  NormalizeCrushName (default "" (node_labels n !! key)).

(** Step 2: a label that is present must not be empty. *)
Definition check_not_empty (n : Node) (key : string) : result unit :=
  if bool_decide (node_labels n !! key = Some "")
  then Err (Errorf "invalid topology: label %q has an empty value on node %q" [key; node_name n])
  else Ok ().

(** [values[key]]: the distinct normalized values of a label. *)
Definition values (nodes : list Node) (key : string) : gset string :=
  list_to_set (filter (fun v => v <> "") ((fun n => crushName n key) <$> nodes)).

(** Step 3: a purely numeric name would be read as an OSD ID. *)
Definition check_not_numeric (n : Node) (key : string) : result unit :=
  match node_labels n !! key with
  | None => Ok ()
  | Some raw =>
      if String.eqb raw "" then Ok ()
      else match Atoi (NormalizeCrushName raw) with
           | Some _ => Err (Errorf
               "invalid topology: label %q on node %q has a purely numeric value %q"
               [key; node_name n; NormalizeCrushName raw])
           | None => Ok ()
           end
  end.

(** The nearest non-empty label above; [parents] lists the higher levels, nearest first. *)
Fixpoint nearest_parent (n : Node) (parents : list string) : option string :=
  match parents with
  | [] => None
  | parKey :: rest =>
      let pv := crushName n parKey in
      if String.eqb pv "" then nearest_parent n rest else Some pv
  end.

Definition seenParents (nodes : list Node) (parents : list string) (key v : string) : gset string :=
  list_to_set (omap (fun n => if String.eqb (crushName n key) v then nearest_parent n parents else None)
                    nodes).

Definition check_parents (nodes : list Node) (parents : list string) (key : string) : result unit :=
  forE_ (elements (values nodes key)) (fun v =>
    let seen := seenParents nodes parents key v in
    if (1 <? size seen)%nat then
      let ps := sort_strings (elements seen) in
      Err (Errorf "invalid topology: %q value %q appears under both %q and %q"
             [key; v; default "" (ps !! 0%nat); default "" (ps !! 1%nat)])
    else Ok ()).

(** Step 4 over all the levels; the first has no parent. *)
Fixpoint check_levels (nodes : list Node) (parents levels : list string) : result unit :=
  match levels with
  | [] => Ok ()
  | key :: rest =>
      match (match parents with [] => Ok () | _ => check_parents nodes parents key end) with
      | Ok _ => check_levels nodes (key :: parents) rest
      | Err e => Err e
      end
  end.

(** Step 5: no value under two keys. *)
Fixpoint assign_values (key : string) (vs : list string) (seenKey : gmap string string) :
    result (gmap string string) :=
  match vs with
  | [] => Ok seenKey
  | v :: vs' =>
      match seenKey !! v with
      | Some fk => Err (Errorf "invalid topology: value %q appears under both %q and %q" [v; fk; key])
      | None => assign_values key vs' (<[v := key]> seenKey)
      end
  end.

Fixpoint check_unique (nodes : list Node) (keys : list string) (seenKey : gmap string string) :
    result unit :=
  match keys with
  | [] => Ok ()
  | key :: rest =>
      seen ← assign_values key (sort_strings (elements (values nodes key))) seenKey;
      check_unique nodes rest seen
  end.

(** A map of Go has no order: when several values of one level conflict, the message may
    name any of them; here it is the first of [elements]. *)
Definition CheckTopologyConflicts (nodes : list Node) : result unit :=
  _ ← forE_ nodes (fun n => forE_ hierarchy (check_not_empty n));
  _ ← forE_ nodes (fun n => forE_ hierarchy (check_not_numeric n));
  _ ← check_levels nodes [] hierarchy;
  check_unique nodes hierarchy ∅.

End WithHostnameLabel.

(** ** What the extraction returns *)

Lemma in_rev_elem (x : string) l : x ∈ rev l <-> x ∈ l.
Proof. rewrite !list_elem_of_In. symmetry. apply in_rev. Qed.

(** A duplicate-free list splits at one place only. *)
Lemma app_split_unique (x : string) A B A' B' :
  NoDup (A ++ x :: B) -> A ++ x :: B = A' ++ x :: B' -> B = B'.
Proof.
  revert A'. induction A as [|a A IH]; intros [|a' A'] Hnd E; simplify_eq/=.
  - done.
  - apply NoDup_cons in Hnd as [Hx _]. exfalso. apply Hx, elem_of_app. right. by left.
  - apply NoDup_cons in Hnd as [Hx _]. exfalso. apply Hx, elem_of_app. right. by left.
  - apply NoDup_cons in Hnd as [_ Hnd]. by eapply IH.
Qed.

Section Extraction.
Context (customHostnameLabel : string) (labels : gmap string string).

Local Abbreviation all := (allKubernetesTopologyLabelsOrdered customHostnameLabel).
Local Abbreviation crush := (kubernetesTopologyLabelToCRUSHLabel customHostnameLabel).
Local Abbreviation collect := (collect_label customHostnameLabel labels).
Local Abbreviation drop := (drop_duplicate customHostnameLabel labels).

Definition fixed_labels : list string :=
  [LabelTopologyRegion; LabelTopologyZone] ++ rookTopologyLabelsOrdered.

Definition path_base (label : string) : string := default "" (last (split_byte "/" label)).

Lemma fixed_base_inj l1 l2 :
  l1 ∈ fixed_labels -> l2 ∈ fixed_labels -> path_base l1 = path_base l2 -> l1 = l2.
Proof.
  assert (Forall (fun l => Forall (fun l' => path_base l = path_base l' -> l = l') fixed_labels)
                 fixed_labels) as H by (vm_compute; repeat constructor; intros; congruence).
  intros H1 H2. rewrite Forall_forall in H. specialize (H l1 H1).
  rewrite Forall_forall in H. by apply H.
Qed.

Lemma fixed_base_host l : l ∈ fixed_labels -> path_base l <> "host".
Proof.
  assert (Forall (fun l => path_base l <> "host") fixed_labels) as H
    by (vm_compute; repeat constructor; congruence).
  rewrite Forall_forall in H. apply H.
Qed.

Lemma crush_inj l1 l2 : NoDup all -> l1 ∈ all -> l2 ∈ all -> crush l1 = crush l2 -> l1 = l2.
Proof.
  intros Hnd H1 H2.
  apply NoDup_app in Hnd as (_ & Hdisj & _). fold fixed_labels in Hdisj.
  unfold allKubernetesTopologyLabelsOrdered in H1, H2. fold fixed_labels in H1, H2.
  rewrite elem_of_app, list_elem_of_singleton in H1, H2.
  unfold kubernetesTopologyLabelToCRUSHLabel. fold (path_base l1) (path_base l2).
  set (host := LabelHostname _) in *.
  destruct (String.eqb_spec l1 host) as [->|N1], (String.eqb_spec l2 host) as [->|N2]; [done|..].
  - destruct H2 as [H2|]; [|done]. intros E. by apply fixed_base_host in H2.
  - destruct H1 as [H1|]; [|done]. intros E. by apply fixed_base_host in H1.
  - destruct H1 as [H1|]; [|done]. destruct H2 as [H2|]; [|done]. by apply fixed_base_inj.
Qed.

Lemma collect_lookup l id v :
  (forall l1 l2, l1 ∈ l -> l2 ∈ l -> crush l1 = crush l2 -> l1 = l2) ->
  (foldl collect (∅, "") l).1 !! id = Some v <->
  exists label, label ∈ l /\ crush label = id /\ labels !! label = Some v /\ v <> "".
Proof.
  induction l as [|x l IH] using rev_ind; intros Hinj.
  - simpl. rewrite lookup_empty. split; [done|]. intros (? & H & _). by apply elem_of_nil in H.
  - assert (forall y, y ∈ l ++ [x] <-> y ∈ l \/ y = x) as Hin
      by (intros; by rewrite elem_of_app, list_elem_of_singleton).
    rewrite foldl_app. simpl.
    specialize (IH ltac:(intros l1 l2 ??; apply Hinj; apply Hin; by left)).
    destruct (foldl collect (∅, "") l) as [topo aff]. simpl in *.
    assert (forall P : string -> Prop, (exists y, y ∈ l ++ [x] /\ P y) <-> (exists y, y ∈ l /\ P y) \/ P x) as Hex.
    { intros P. setoid_rewrite Hin. naive_solver. }
    rewrite Hex, <- IH.
    destruct (labels !! x) as [w|] eqn:Ex; [destruct (String.eqb_spec w "") as [->|Hw]|]; simpl.
    + naive_solver.
    + rewrite lookup_insert. case_decide as Hid; [|naive_solver].
      split; [naive_solver|]. intros [H|(_ & ? & _)]; [|congruence].
      apply IH in H as (label & Hl & Hc & Hv & _).
      rewrite (Hinj x label) in Ex; [congruence|apply Hin; by right|apply Hin; by left|congruence].
    + naive_solver.
Qed.

(** [id] is shadowed by [R] after [pre]: a label of [R] maps to [id] and an earlier one
    carries the same value. *)
Definition shadowed (pre R : list string) (id : string) : Prop :=
  exists R1 label R2 w low, R = R1 ++ label :: R2 /\ crush label = id /\
    labels !! label = Some w /\ low ∈ pre ++ R1 /\ labels !! low = Some w.

Lemma shadowed_cons pre x R id :
  shadowed pre (x :: R) id <->
  (crush x = id /\ exists w low, labels !! x = Some w /\ low ∈ pre /\ labels !! low = Some w) \/
  shadowed (pre ++ [x]) R id.
Proof.
  unfold shadowed. split.
  - intros ([|y R1] & label & R2 & w & low & E & Hc & Hl & Hin & Hlow); simplify_eq/=.
    + left. rewrite app_nil_r in Hin. split; [done|]. by exists w, low.
    + right. exists R1, label, R2, w, low. by rewrite <- app_assoc.
  - intros [(Hc & w & low & Hx & Hin & Hlow)|(R1 & label & R2 & w & low & -> & Hc & Hl & Hin & Hlow)].
    + exists [], x, R, w, low. by rewrite app_nil_r.
    + exists (x :: R1), label, R2, w, low. by rewrite <- app_assoc in Hin.
Qed.

Definition dup_inv (pre : list string) (dup : gmap string (list string)) : Prop :=
  forall v, is_Some (dup !! v) <-> exists low, low ∈ pre /\ labels !! low = Some v.

Lemma dup_inv_skip pre dup x : labels !! x = None -> dup_inv pre dup -> dup_inv (pre ++ [x]) dup.
Proof.
  intros Hx Hd v. rewrite (Hd v). setoid_rewrite elem_of_app. setoid_rewrite list_elem_of_singleton.
  naive_solver.
Qed.

Lemma dup_inv_add pre dup x w k : labels !! x = Some w -> dup_inv pre dup ->
  dup_inv (pre ++ [x]) (<[w := k]> dup).
Proof.
  intros Hx Hd v. setoid_rewrite elem_of_app. setoid_rewrite list_elem_of_singleton.
  rewrite lookup_insert. case_decide as E.
  - subst. split; [eauto|done].
  - rewrite (Hd v). naive_solver.
Qed.

Lemma drop_lookup R : forall pre (topo : gmap string string) dup id,
  dup_inv pre dup ->
  let r := (foldl drop (topo, dup) R).1 !! id in
  (shadowed pre R id -> r = None) /\ (~ shadowed pre R id -> r = topo !! id) /\
  (topo !! id = None -> r = None).
Proof.
  induction R as [|x R IH]; intros pre topo dup id Hd.
  - simpl. split_and!; [|done..]. intros ([] & ? & ? & ? & ? & ? & _); done.
  - cbn [foldl]. rewrite shadowed_cons.
    destruct (labels !! x) as [w|] eqn:Ex.
    + set (topo1 := match dup !! w with Some _ => delete (crush x) topo | None => topo end).
      set (dup1 := <[w := default [] (dup !! w) ++ [x]]> dup).
      assert (drop (topo, dup) x = (topo1, dup1)) as -> by (simpl; by rewrite Ex).
      destruct (IH (pre ++ [x]) topo1 dup1 id) as (H1 & H2 & H3); [by apply dup_inv_add|].
      assert (Htopo1 : topo1 !! id = if bool_decide (is_Some (dup !! w) /\ crush x = id)
                                     then None else topo !! id).
      { unfold topo1. case_bool_decide as Hb; destruct (dup !! w) eqn:Ew.
        - destruct Hb as [_ <-]. apply lookup_delete_eq.
        - by destruct Hb as [[] _].
        - apply lookup_delete_ne. intros ?; apply Hb. eauto.
        - done. }
      split_and!.
      * intros [(Hc & w' & low & [= <-] & Hin & Hlow)|Hs]; [|auto].
        apply H3. rewrite Htopo1. rewrite bool_decide_eq_true_2; [done|].
        split; [|done]. apply Hd. eauto.
      * intros Hn. rewrite H2 by tauto. rewrite Htopo1, bool_decide_eq_false_2; [done|].
        intros [(low & Hin & Hlow)%Hd Hc]. apply Hn. left. eauto 10.
      * intros Ht. apply H3. rewrite Htopo1. by case_bool_decide.
    + assert (drop (topo, dup) x = (topo, dup)) as -> by (simpl; by rewrite Ex).
      destruct (IH (pre ++ [x]) topo dup id) as (H1 & H2 & H3); [by apply dup_inv_skip|].
      split_and!; [|naive_solver|done]. intros [(_ & ? & ? & [=] & _)|]; auto.
Qed.

Lemma extract_unfold :
  extractTopologyFromLabels customHostnameLabel labels =
  ((foldl drop ((foldl collect (∅, "") all).1, ∅) (rev all)).1, (foldl collect (∅, "") all).2).
Proof.
  unfold extractTopologyFromLabels. destruct (foldl collect (∅, "") all) as [t a]. cbn [fst snd].
  by destruct (foldl drop (t, ∅) (rev all)).
Qed.

Lemma dup_inv_nil : dup_inv [] ∅.
Proof.
  intros v. rewrite lookup_empty. split; [by intros []|]. intros (? & H & _). by apply elem_of_nil in H.
Qed.

(** The labels from highest to lowest: an entry survives when no lower label has its value. *)
Lemma extract_lookup id v : NoDup all ->
  (extractTopologyFromLabels customHostnameLabel labels).1 !! id = Some v <->
  exists A label B, all = A ++ label :: B /\ crush label = id /\ labels !! label = Some v /\
    v <> "" /\ (forall low, low ∈ B -> labels !! low <> Some v).
Proof.
  intros Hnd. rewrite extract_unfold. cbn [fst].
  pose proof (fun l1 l2 => crush_inj l1 l2 Hnd) as Hinj.
  pose proof (collect_lookup all id v Hinj) as Hc.
  destruct (drop_lookup (rev all) [] (foldl collect (∅, "") all).1 ∅ id dup_inv_nil) as (H1 & H2 & H3).
  cbv zeta in H1, H2, H3.
  set (r := (foldl drop _ (rev all)).1 !! id) in *. split.
  - intros Hr.
    assert (~ shadowed [] (rev all) id) as Hns by (intros Hs; rewrite (H1 Hs) in Hr; done).
    rewrite (H2 Hns) in Hr. apply Hc in Hr as (label & Hin & Hid & Hl & Hv).
    apply list_elem_of_split in Hin as (A & B & E). exists A, label, B. split_and!; try done.
    intros low Hlow Hsame. apply Hns.
    exists (rev B), label, (rev A), v, low. split_and!; try done.
    + by rewrite E, rev_app_distr; simpl; rewrite <- app_assoc.
    + simpl. by apply in_rev_elem.
  - intros (A & label & B & E & Hid & Hl & Hv & Hlow).
    rewrite H2.
    + apply Hc. exists label. rewrite E. split_and!; try done. apply elem_of_app; right; by left.
    + intros (R1 & lab & R2 & w & low & ER & Hid' & Hl' & Hin & Hlw).
      assert (all = rev R2 ++ lab :: rev R1) as E'
        by (rewrite <- (rev_involutive all), ER, rev_app_distr; simpl; by rewrite <- app_assoc).
      assert (lab = label) as ->.
      { apply Hinj; [rewrite E'|rewrite E|congruence]; apply elem_of_app; right; by left. }
      assert (rev R1 = B) as <-.
      { rewrite E' in E, Hnd. by eapply app_split_unique. }
      apply (Hlow low); [by rewrite in_rev_elem|congruence].
Qed.

End Extraction.

(** The topology of a node has, for each CRUSH level, the non-empty value of its label,
    unless a lower level has the same value; so no value names two levels. *)
Theorem extractTopology_spec (custom : string) (labels : gmap string string) (id v : string) :
  NoDup (allKubernetesTopologyLabelsOrdered custom) ->
  let topology := (extractTopologyFromLabels custom labels).1 in
  (topology !! id = Some v <->
   exists A label B, allKubernetesTopologyLabelsOrdered custom = A ++ label :: B /\
     kubernetesTopologyLabelToCRUSHLabel custom label = id /\ labels !! label = Some v /\
     v <> "" /\ (forall low, low ∈ B -> labels !! low <> Some v)) /\
  (forall id', topology !! id = Some v -> topology !! id' = Some v -> id = id').
Proof.
  intros Hnd. split; [by apply extract_lookup|].
  intros id' H1 H2. apply extract_lookup in H1 as (A & l & B & E & Hid & Hl & _ & Hlow); [|done].
  apply extract_lookup in H2 as (A' & l' & B' & E' & Hid' & Hl' & _ & Hlow'); [|done].
  assert (l ∈ A' ++ l' :: B') as Hin by (rewrite <- E', E; apply elem_of_app; right; by left).
  assert (l' ∈ A ++ l :: B) as Hin' by (rewrite <- E, E'; apply elem_of_app; right; by left).
  destruct (decide (l = l')) as [->|Hne]; [congruence|].
  exfalso. apply elem_of_app in Hin as [Hin|[?|Hin]%elem_of_cons]; [|done|by eapply Hlow'].
  apply list_elem_of_split in Hin as (A1 & A2 & ->).
  rewrite E' in E. rewrite E' in Hnd. rewrite <- app_assoc in E, Hnd. simpl in E, Hnd.
  assert (A2 ++ l' :: B' = B) as <- by (by eapply app_split_unique).
  eapply (Hlow l'); [apply elem_of_app; right; by left|done].
Qed.

Lemma extractTopology_spec_witness :
  (extractTopologyFromLabels "" (list_to_map
     [("topology.kubernetes.io/zone", "z1"); ("topology.rook.io/rack", "z1");
      ("kubernetes.io/hostname", "h1")])).1 !! "rack" = Some "z1".
Proof.
  apply extractTopology_spec.
  - apply (bool_decide_unpack _). vm_compute. done.
  - exists (take 7 (allKubernetesTopologyLabelsOrdered "")), "topology.rook.io/rack",
      (drop 8 (allKubernetesTopologyLabelsOrdered "")).
    split_and!; try done. intros low [->|[->|H]%elem_of_cons]%elem_of_cons; try done.
    by apply elem_of_nil in H.
Defined.

(** Normalization runs after the duplicates are dropped, so two levels can still get
    the same CRUSH bucket name: here a host and its zone. *)
Theorem normalized_topology_duplicates :
  exists labels, let topology := (ExtractOSDTopologyFromLabels "" labels).1 in
    topology !! "zone" = Some "az-1" /\ topology !! "host" = Some "az-1".
Proof.
  exists (list_to_map [("topology.kubernetes.io/zone", "az-1"); ("kubernetes.io/hostname", "az.1")]).
  vm_compute. done.
Qed.

(** The lowest label, the host name apart, that carries a value. *)
Definition lowest_label (custom : string) (labels : gmap string string) : option string :=
  last (filter (fun label => kubernetesTopologyLabelToCRUSHLabel custom label <> "host" /\
                             default "" (labels !! label) <> "")
               (allKubernetesTopologyLabelsOrdered custom)).

Lemma affinity_foldl custom labels l :
  (foldl (collect_label custom labels) (∅, "") l).2 =
  match last (filter (fun label => kubernetesTopologyLabelToCRUSHLabel custom label <> "host" /\
                                   default "" (labels !! label) <> "") l) with
  | Some label => formatTopologyAffinity label (default "" (labels !! label))
  | None => ""
  end.
Proof.
  induction l as [|x l IH] using rev_ind; [done|].
  rewrite foldl_app, filter_app. cbn [foldl].
  destruct (foldl _ _ l) as [t a]. simpl in IH |- *. rewrite filter_cons, filter_nil.
  destruct (labels !! x) as [w|] eqn:Ex; simpl.
  - destruct (String.eqb_spec w "") as [->|Hw]; simpl.
    + rewrite decide_False by (intros [_ []]; done). by rewrite app_nil_r.
    + destruct (String.eqb_spec (kubernetesTopologyLabelToCRUSHLabel custom x) "host") as [Hh|Hh].
      * rewrite decide_False by (intros []; done). by rewrite app_nil_r.
      * rewrite decide_True by done. by rewrite last_snoc, Ex.
  - rewrite decide_False by (intros [_ []]; done). by rewrite app_nil_r.
Qed.

(** The topology affinity of an OSD is the lowest labelled level above the host, in the
    form [label=value]. *)
Theorem topologyAffinity_lowest (custom : string) (labels : gmap string string) :
  (ExtractOSDTopologyFromLabels custom labels).2 =
  match lowest_label custom labels with
  | Some label => label +:+ "=" +:+ default "" (labels !! label)
  | None => ""
  end.
Proof.
  unfold ExtractOSDTopologyFromLabels. rewrite extract_unfold. cbn [snd].
  apply affinity_foldl.
Qed.

(** ** Which label sets are accepted *)

Section Conflicts.
Context (custom : string) (nodes : list Node).

Local Abbreviation H := (hierarchy custom).

(** The specification, one clause per rule. *)
Definition no_empty_value : Prop :=
  forall n key, n ∈ nodes -> key ∈ H -> node_labels n !! key <> Some "".

Definition no_numeric_value : Prop :=
  forall n key raw, n ∈ nodes -> key ∈ H -> node_labels n !! key = Some raw -> raw <> "" ->
    Atoi (NormalizeCrushName raw) = None.

Definition one_parent (P : list string) (key : string) : Prop :=
  forall n1 n2 p1 p2, n1 ∈ nodes -> n2 ∈ nodes ->
    crushName n1 key = crushName n2 key -> crushName n1 key <> "" ->
    nearest_parent n1 P = Some p1 -> nearest_parent n2 P = Some p2 -> p1 = p2.

Definition single_parents : Prop :=
  forall above key below, H = above ++ key :: below -> one_parent (rev above) key.

Definition one_key_per_value : Prop :=
  forall n1 n2 k1 k2, n1 ∈ nodes -> n2 ∈ nodes -> k1 ∈ H -> k2 ∈ H ->
    crushName n1 k1 = crushName n2 k2 -> crushName n1 k1 <> "" -> k1 = k2.

Lemma elem_of_values key v : v ∈ values nodes key <-> v <> "" /\ exists n, n ∈ nodes /\ crushName n key = v.
Proof.
  unfold values. rewrite elem_of_list_to_set, list_elem_of_filter, list_elem_of_fmap. naive_solver.
Qed.

Lemma elem_of_seenParents P key v p :
  p ∈ seenParents nodes P key v <->
  exists n, n ∈ nodes /\ crushName n key = v /\ nearest_parent n P = Some p.
Proof.
  unfold seenParents. rewrite elem_of_list_to_set, list_elem_of_omap.
  split; intros (n & Hn & Hp); exists n; split; try done.
  - destruct (String.eqb_spec (crushName n key) v); [done|discriminate].
  - destruct Hp as [<- Hp]. by rewrite String.eqb_refl.
Qed.

Lemma size_le_1 (X : gset string) : (1 <? size X)%nat = false <-> (forall x y, x ∈ X -> y ∈ X -> x = y).
Proof.
  rewrite Nat.ltb_ge. setoid_rewrite <- elem_of_elements.
  pose proof (NoDup_elements X) as Hnd. unfold size, set_size. simpl.
  destruct (elements X) as [|a [|b l]]; simpl.
  - split; [|lia]. intros _ x y Hx. by apply elem_of_nil in Hx.
  - split; [|lia]. intros _ x y. rewrite !list_elem_of_singleton. congruence.
  - split; [lia|]. intros Hxy. exfalso.
    apply NoDup_cons in Hnd as [Ha _]. apply Ha.
    rewrite (Hxy a b); [by left|by left|right; by left].
Qed.

Lemma check_not_empty_ok :
  forE_ nodes (fun n => forE_ H (check_not_empty n)) = Ok () <-> no_empty_value.
Proof.
  rewrite forE_ok. setoid_rewrite forE_ok. unfold check_not_empty, no_empty_value.
  split; intros Hc n.
  - intros key Hn Hk E. specialize (Hc n Hn key Hk). by rewrite bool_decide_eq_true_2 in Hc.
  - intros Hn key Hk. rewrite bool_decide_eq_false_2; [done|by apply Hc].
Qed.

Lemma check_not_numeric_ok :
  forE_ nodes (fun n => forE_ H (check_not_numeric n)) = Ok () <-> no_numeric_value.
Proof.
  rewrite forE_ok. setoid_rewrite forE_ok. unfold check_not_numeric, no_numeric_value.
  split; intros Hc n.
  - intros key raw Hn Hk E Hne. specialize (Hc n Hn key Hk). rewrite E in Hc.
    destruct (String.eqb_spec raw ""); [done|]. by destruct (Atoi _).
  - intros Hn key Hk. destruct (node_labels n !! key) as [raw|] eqn:E; [|done].
    destruct (String.eqb_spec raw ""); [done|]. by rewrite (Hc n key raw).
Qed.

Lemma check_parents_ok P key : check_parents nodes P key = Ok () <-> one_parent P key.
Proof.
  unfold check_parents. rewrite forE_ok.
  setoid_rewrite elem_of_elements. setoid_rewrite elem_of_values.
  assert (forall v, (if (1 <? size (seenParents nodes P key v))%nat
     then Err (Errorf "invalid topology: %q value %q appears under both %q and %q"
       [key; v; default "" (sort_strings (elements (seenParents nodes P key v)) !! 0%nat);
        default "" (sort_strings (elements (seenParents nodes P key v)) !! 1%nat)])
     else Ok ()) = Ok () <->
     (forall x y, x ∈ seenParents nodes P key v -> y ∈ seenParents nodes P key v -> x = y)) as Hsz.
  { intros v. rewrite <- size_le_1. by destruct (1 <? size _)%nat. }
  setoid_rewrite Hsz. setoid_rewrite elem_of_seenParents. unfold one_parent. split.
  - intros Hc n1 n2 p1 p2 Hn1 Hn2 E Hne Hp1 Hp2. apply (Hc (crushName n1 key)); eauto.
  - intros Hc v [Hv _] p1 p2 (n1 & Hn1 & <- & Hp1) (n2 & Hn2 & E & Hp2). eauto.
Qed.

Lemma check_levels_ok levels : forall above,
  check_levels nodes (rev above) levels = Ok () <->
  (forall a key b, levels = a ++ key :: b -> one_parent (rev (above ++ a)) key).
Proof.
  induction levels as [|key rest IH]; intros above; cbn [check_levels].
  - split; [|done]. intros _ [] ? ?; done.
  - assert ((match rev above with [] => Ok () | _ => check_parents nodes (rev above) key end) = Ok () <->
            one_parent (rev above) key) as Hhere.
    { rewrite <- check_parents_ok. destruct (rev above) eqn:E; [|done].
      rewrite check_parents_ok. split; [|done]. intros _ n1 n2 p1 p2 _ _ _ _ Hp. done. }
    specialize (IH (above ++ [key])). rewrite rev_app_distr in IH. simpl in IH.
    destruct (match rev above with [] => Ok () | _ => _ end) as [[]|e] eqn:Em.
    + rewrite IH. split.
      * intros Hrest [|a a'] k b E; simplify_eq/=.
        -- rewrite app_nil_r. by apply Hhere.
        -- specialize (Hrest a' k b eq_refl). by rewrite <- app_assoc in Hrest.
      * intros Hall a k b E. specialize (Hall (key :: a) k b). rewrite E in Hall.
        specialize (Hall eq_refl). by rewrite <- app_assoc.
    + split; [done|]. intros Hall. specialize (Hall [] key rest eq_refl).
      rewrite app_nil_r in Hall. by apply Hhere in Hall.
Qed.

Lemma assign_values_ok key vs : forall seen,
  (forall seen', assign_values key vs seen = Ok seen' -> dom seen' = dom seen ∪ list_to_set vs) /\
  (is_ok (assign_values key vs seen) = true <-> NoDup vs /\ (forall v, v ∈ vs -> seen !! v = None)).
Proof.
  induction vs as [|v vs IH]; intros seen; cbn [assign_values].
  - split; [intros s [= <-]; set_solver|]. split; [|done]. intros _. split; [constructor|].
    intros v Hv. by apply elem_of_nil in Hv.
  - destruct (seen !! v) as [fk|] eqn:E.
    + split; [done|]. split; [done|]. intros [_ Hn]. rewrite (Hn v) in E; [done|by left].
    + destruct (IH (<[v := key]> seen)) as [IH1 IH2]. split.
      * intros s Hs. rewrite (IH1 s Hs), dom_insert_L. simpl. set_solver.
      * rewrite IH2, NoDup_cons. setoid_rewrite elem_of_cons. split.
        -- intros [Hnd Hn]. split_and!; [|done|].
           ++ intros Hv. specialize (Hn v Hv). by rewrite lookup_insert_eq in Hn.
           ++ intros x [->|Hx]; [done|]. specialize (Hn x Hx).
              rewrite lookup_insert in Hn. by case_decide.
        -- intros [[Hv Hnd] Hn]. split; [done|]. intros x Hx.
           rewrite lookup_insert_ne by (intros ->; done). auto.
Qed.

Lemma check_unique_ok keys : forall (done : list string) (seen : gmap string string),
  (forall v, v ∈ dom seen <-> exists k, k ∈ done /\ v ∈ values nodes k) ->
  check_unique nodes keys seen = Ok () <->
  (forall a key b, keys = a ++ key :: b ->
     forall k v, k ∈ done ++ a -> v ∈ values nodes k -> v ∈ values nodes key -> False).
Proof.
  induction keys as [|key rest IH]; intros d seen Hdom; cbn [check_unique].
  - split; [|done]. intros _ [] ? ?; done.
  - set (vs := sort_strings (elements (values nodes key))).
    assert (forall v, v ∈ vs <-> v ∈ values nodes key) as Hvs
      by (intros v; unfold vs; by rewrite elem_of_sort_strings, elem_of_elements).
    assert (NoDup vs) as Hnd
      by (unfold vs; rewrite sort_strings_Permutation; apply NoDup_elements).
    destruct (assign_values_ok key vs seen) as [Hd Hok].
    assert ((forall v, v ∈ vs -> seen !! v = None) <->
            (forall k v, k ∈ d -> v ∈ values nodes k -> v ∈ values nodes key -> False)) as Hdisj.
    { setoid_rewrite <- not_elem_of_dom. setoid_rewrite Hdom. setoid_rewrite Hvs. naive_solver. }
    destruct (assign_values key vs seen) as [seen'|e] eqn:E.
    + cbn [mbind result_bind].
      destruct (proj1 Hok eq_refl) as [_ Hfresh]. pose proof (proj1 Hdisj Hfresh) as Hd0.
      rewrite (IH (d ++ [key])).
      2:{ intros v. rewrite (Hd seen' eq_refl), elem_of_union, elem_of_list_to_set, Hvs, Hdom.
          setoid_rewrite elem_of_app. setoid_rewrite list_elem_of_singleton. naive_solver. }
      split.
      * intros Hrest [|a a'] k b Ek; simplify_eq/=; [rewrite app_nil_r; apply Hd0|].
        intros k' v' Hk'. eapply Hrest; [done|]. by rewrite <- app_assoc.
      * intros Hall a k b -> k' v' Hk'. rewrite <- app_assoc in Hk'.
        by eapply (Hall (key :: a)).
    + split; [done|]. intros Hall. exfalso.
      assert (forall k v, k ∈ d -> v ∈ values nodes k -> v ∈ values nodes key -> False) as Hk.
      { intros k v Hk. eapply (Hall [] key rest eq_refl). by rewrite app_nil_r. }
      pose proof (proj2 Hdisj Hk) as Hfresh. by discriminate (proj2 Hok (conj Hnd Hfresh)).
Qed.

Lemma hierarchy_NoDup : NoDup H.
Proof.
  unfold hierarchy, allKubernetesTopologyLabelsOrdered. fold fixed_labels.
  rewrite filter_app, (filter_cons_False _ _ []) by (intros E; by apply E). rewrite filter_nil, app_nil_r.
  apply NoDup_filter. apply (bool_decide_unpack _). vm_compute. done.
Qed.

Lemma unique_spec : check_unique nodes H ∅ = Ok () <-> one_key_per_value.
Proof.
  rewrite (check_unique_ok H [] ∅).
  2:{ intros v. rewrite dom_empty_L. split; [by intros ?%not_elem_of_empty|].
      intros (k & Hk & _). by apply elem_of_nil in Hk. }
  unfold one_key_per_value. setoid_rewrite elem_of_values. split.
  - intros Hc n1 n2 k1 k2 Hn1 Hn2 Hk1 Hk2 E Hne.
    destruct (decide (k1 = k2)) as [|Hneq]; [done|]. exfalso.
    apply list_elem_of_split in Hk1 as (a & b & EH). rewrite EH in Hk2.
    apply elem_of_app in Hk2 as [Hk2|[?|Hk2]%elem_of_cons]; [|done|].
    + apply (Hc a k1 b EH k2 (crushName n1 k1)); eauto.
    + apply list_elem_of_split in Hk2 as (b1 & b2 & ->).
      apply (Hc (a ++ k1 :: b1) k2 b2 ltac:(by rewrite EH, <- app_assoc) k1 (crushName n1 k1)); [|eauto..].
      simpl. apply elem_of_app. right. by left.
  - intros Hc a key b EH k v Hk [Hv (n1 & Hn1 & E1)] [_ (n2 & Hn2 & E2)]. simpl in Hk.
    assert (k = key) as ->.
    { apply (Hc n1 n2); [done|done| | |congruence|congruence];
        rewrite EH; apply elem_of_app; [by left|right; by left]. }
    pose proof hierarchy_NoDup as Hnd. rewrite EH in Hnd.
    apply NoDup_app in Hnd as (_ & Hdis & _). eapply (Hdis key Hk). by left.
Qed.

(** C39: [CheckTopologyConflicts] accepts a set of nodes exactly when no topology label is
    empty, no value is a number, no value lies under two different parents, and no value is
    used by two labels. *)
Theorem CheckTopologyConflicts_spec :
  CheckTopologyConflicts custom nodes = Ok () <->
  no_empty_value /\ no_numeric_value /\ single_parents /\ one_key_per_value.
Proof.
  rewrite <- check_not_empty_ok, <- check_not_numeric_ok, <- unique_spec.
  assert (check_levels nodes [] H = Ok () <-> single_parents) as <- by apply (check_levels_ok H []).
  unfold CheckTopologyConflicts.
  destruct (forE_ nodes (fun n => forE_ H (check_not_empty n))) as [[]|]; cbn [mbind result_bind];
    [|split; [done|by intros [? _]]].
  destruct (forE_ nodes (fun n => forE_ H (check_not_numeric n))) as [[]|]; cbn [mbind result_bind];
    [|split; [done|by intros (_ & ? & _)]].
  destruct (check_levels nodes [] H) as [[]|]; cbn [mbind result_bind];
    [|split; [done|by intros (_ & _ & ? & _)]].
  tauto.
Qed.

End Conflicts.

End Topology.
