(* ===== verification/Kube.v ===== *)
(** * Kube: the interface to the API server and to Ceph

    The operator's handlers reach the Kubernetes API server through a controller-runtime
    client and Ceph through its command line tools.  Neither is part of this repository: they
    are the class [Cluster], a world with the operations the handlers call, and its laws, the
    documented behaviour the handlers rely on.  [SimWorld] is a world that satisfies them. *)

From stdpp Require Import base gmap strings list fin_maps.
From Stdlib Require Import ZArith.
From S2P Require Import Prelude.
Open Scope Z_scope.

Module Kube.

(** ** Objects *)

Record NamespacedName := { Namespace : string; Name : string }.

#[global] Instance NamespacedName_eq_dec : EqDecision NamespacedName.
Proof. solve_decision. Defined.

#[global] Instance NamespacedName_countable : Countable NamespacedName.
Proof.
  refine (inj_countable' (fun n => (Namespace n, Name n))
            (fun p => {| Namespace := p.1; Name := p.2 |}) _).
  by intros [].
Defined.

Inductive LabelSelectorOperator := OpIn | OpNotIn.

Record LabelSelectorRequirement := {
  req_key : string;
  req_operator : LabelSelectorOperator;
  req_values : list string;
}.

(** A nil slice of expressions is [None]. *)
Record LabelSelector := {
  MatchLabels : gmap string string;
  MatchExpressions : option (list LabelSelectorRequirement);
}.

Record PodDisruptionBudgetSpec := {
  MinAvailable : option Z;
  MaxUnavailable : option Z;
  Selector : option LabelSelector;
}.

Record OwnerReference := { owner_kind : string; owner_name : string; owner_uid : string }.

Record PodDisruptionBudget := {
  pdb_key : NamespacedName;
  pdb_owners : list OwnerReference;
  pdb_spec : PodDisruptionBudgetSpec;
  DisruptionsAllowed : Z;
}.

Record ConfigMap := { cm_key : NamespacedName; cm_data : gmap string string }.

Record EnvVar := { env_name : string; env_value : string }.

Record Container := {
  container_name : string;
  Env : list EnvVar;
  Args : list string;
  Command : list string;
}.

(** What is read of the template of the pods of a deployment. *)
Record PodTemplate := {
  tpl_annotations : gmap string string;
  NodeSelector : gmap string string;
  Containers : list Container;
  InitContainers : list Container;
}.

(** A pointer to [int32] that can be nil is an [option Z]. *)
Record Deployment := {
  dep_namespace : string;
  dep_name : string;
  dep_labels : gmap string string;
  dep_annotations : gmap string string;
  CreationTimestamp : Z;
  Replicas : option Z;
  ProgressDeadlineSeconds : option Z;
  Template : PodTemplate;
  ObservedGeneration : Z;
  UpdatedReplicas : Z;
  ReadyReplicas : Z;
  (** type and reason of the conditions *)
  dep_conditions : list (string * string);
}.

Definition empty_template : PodTemplate :=
  {| tpl_annotations := ∅; NodeSelector := ∅; Containers := []; InitContainers := [] |}.

Record NodeObj := { nodeobj_name : string; Unschedulable : bool }.

Record Result := { Requeue : bool; RequeueAfter : Z }.

Definition empty_spec : PodDisruptionBudgetSpec :=
  {| MinAvailable := None; MaxUnavailable := None; Selector := None |}.

Definition set_spec (p : PodDisruptionBudget) (s : PodDisruptionBudgetSpec) : PodDisruptionBudget :=
  {| pdb_key := pdb_key p; pdb_owners := pdb_owners p; pdb_spec := s;
     DisruptionsAllowed := DisruptionsAllowed p |}.

Definition set_data (c : ConfigMap) (d : gmap string string) : ConfigMap :=
  {| cm_key := cm_key c; cm_data := d |}.

(** A label selector and the labels of a pod. *)
Definition req_matches (labels : gmap string string) (r : LabelSelectorRequirement) : bool :=
  match req_operator r, labels !! req_key r with
  | OpIn, Some v => bool_decide (v ∈ req_values r)
  | OpIn, None => false
  | OpNotIn, Some v => bool_decide (v ∉ req_values r)
  | OpNotIn, None => true
  end.

Definition selects (s : LabelSelector) (labels : gmap string string) : bool :=
  bool_decide (map_Forall (fun k v => labels !! k = Some v) (MatchLabels s)) &&
  forallb (req_matches labels) (default [] (MatchExpressions s)).

(** What Ceph reports. *)
Record PgStateEntry := { StateName : string; Count : Z }.

Record CephStatus := { PgsByState : list PgStateEntry; NumPgs : Z }.

Record OSDMetadata := { osd_id : Z; HostName : string; Devices : string }.

(** The custom resources the disruption controller reads. *)
Record PoolSpec := { FailureDomain : string }.

Record DisruptionManagementSpec := {
  ManagePodBudgets : bool;
  OSDMaintenanceTimeout : Z;
  PGHealthyRegex : string;
}.

Record CephCluster := {
  cluster_key : NamespacedName;
  cluster_owner : OwnerReference;
  DisruptionManagement : DisruptionManagementSpec;
}.

Record CephFilesystem := {
  fs_key : NamespacedName;
  fs_owner : OwnerReference;
  fs_metadata_pool : PoolSpec;
  fs_data_pools : list PoolSpec;
  ActiveCount : Z;
  ActiveStandby : bool;
}.

Record CephObjectStore := {
  store_key : NamespacedName;
  store_owner : OwnerReference;
  store_metadata_pool : PoolSpec;
  store_data_pool : PoolSpec;
  Instances : Z;
}.

(** ** The world *)

(** What is stored: budgets, config maps, and the flags set on CRUSH units. *)
Record Snapshot := {
  pdbs : gmap NamespacedName PodDisruptionBudget;
  configmaps : gmap NamespacedName ConfigMap;
  crush_flags : gmap string (list string);
}.

Definition with_pdbs (s : Snapshot) m :=
  {| pdbs := m; configmaps := configmaps s; crush_flags := crush_flags s |}.

Definition with_configmaps (s : Snapshot) m :=
  {| pdbs := pdbs s; configmaps := m; crush_flags := crush_flags s |}.

Definition with_flags (s : Snapshot) m :=
  {| pdbs := pdbs s; configmaps := configmaps s; crush_flags := m |}.

Definition flag_set (s : Snapshot) (unit_ flag : string) : Prop :=
  flag ∈ default [] (crush_flags s !! unit_).

Class Cluster (W : Type) := {
  snapshot : W -> Snapshot;
  get_pdb : NamespacedName -> M W PodDisruptionBudget;
  create_pdb : PodDisruptionBudget -> M W unit;
  update_pdb : PodDisruptionBudget -> M W unit;
  delete_pdb : NamespacedName -> M W unit;
  get_configmap : NamespacedName -> M W ConfigMap;
  create_configmap : ConfigMap -> M W unit;
  update_configmap : ConfigMap -> M W unit;
  get_node : string -> M W NodeObj;
  list_deployments : string -> gmap string string -> M W (list Deployment);
  list_cephclusters : string -> M W (list CephCluster);
  list_blockpools : string -> M W (list PoolSpec);
  list_filesystems : string -> M W (list CephFilesystem);
  list_objectstores : string -> M W (list CephObjectStore);
  delete_deployments : string -> gmap string string -> M W unit;
  (** [controllerutil.SetControllerReference] *)
  set_controller_reference : OwnerReference -> PodDisruptionBudget -> result PodDisruptionBudget;
  ceph_status : M W CephStatus;
  ceph_osd_dump_flags : M W (gmap string (list string));
  ceph_osd_metadata : M W (list OSDMetadata);
  ceph_set_group : string -> string -> M W unit;
  ceph_unset_group : string -> string -> M W unit;
  time_now : M W Z;
  (** [err.Error()] *)
  error_text : gerror -> string;
  (** [regexp.Compile], with [MatchString] of its result *)
  regexp_compile : string -> option (string -> bool);
}.

(** [m] reads: it leaves what is stored as it is. *)
Definition reads {W A} `{Cluster W} (m : M W A) : Prop :=
  forall w, snapshot (m w).1 = snapshot w.

Class ClusterLaws (W : Type) `{Cluster W} : Prop := {
  get_pdb_reads k : reads (get_pdb k);
  get_pdb_ok k w w' o : get_pdb k w = (w', Ok o) -> pdbs (snapshot w) !! k = Some o;
  get_pdb_notfound k w w' e :
    get_pdb k w = (w', Err e) -> IsNotFound e = true -> pdbs (snapshot w) !! k = None;
  create_pdb_ok p w w' : create_pdb p w = (w', Ok ()) ->
    exists stored, pdb_key stored = pdb_key p /\ pdb_spec stored = pdb_spec p /\
      snapshot w' = with_pdbs (snapshot w) (<[pdb_key p := stored]> (pdbs (snapshot w)));
  create_pdb_exists p w w' e : create_pdb p w = (w', Err e) -> IsAlreadyExists e = true ->
    snapshot w' = snapshot w /\ is_Some (pdbs (snapshot w) !! pdb_key p);
  update_pdb_ok p w w' : update_pdb p w = (w', Ok ()) ->
    exists stored, pdb_key stored = pdb_key p /\ pdb_spec stored = pdb_spec p /\
      snapshot w' = with_pdbs (snapshot w) (<[pdb_key p := stored]> (pdbs (snapshot w)));
  delete_pdb_ok k w w' : delete_pdb k w = (w', Ok ()) ->
    snapshot w' = with_pdbs (snapshot w) (delete k (pdbs (snapshot w)));
  delete_pdb_notfound k w w' e : delete_pdb k w = (w', Err e) -> IsNotFound e = true ->
    snapshot w' = snapshot w /\ pdbs (snapshot w) !! k = None;
  stored_pdb_key k w p : pdbs (snapshot w) !! k = Some p -> pdb_key p = k;
  get_configmap_reads k : reads (get_configmap k);
  get_configmap_ok k w w' c :
    get_configmap k w = (w', Ok c) -> configmaps (snapshot w) !! k = Some c /\ cm_key c = k;
  get_configmap_notfound k w w' e :
    get_configmap k w = (w', Err e) -> IsNotFound e = true -> configmaps (snapshot w) !! k = None;
  create_configmap_ok c w w' : create_configmap c w = (w', Ok ()) ->
    snapshot w' = with_configmaps (snapshot w) (<[cm_key c := c]> (configmaps (snapshot w)));
  update_configmap_ok c w w' : update_configmap c w = (w', Ok ()) ->
    snapshot w' = with_configmaps (snapshot w) (<[cm_key c := c]> (configmaps (snapshot w)));
  get_node_reads n : reads (get_node n);
  list_deployments_reads ns l : reads (list_deployments ns l);
  list_cephclusters_reads ns : reads (list_cephclusters ns);
  list_blockpools_reads ns : reads (list_blockpools ns);
  list_filesystems_reads ns : reads (list_filesystems ns);
  list_objectstores_reads ns : reads (list_objectstores ns);
  delete_deployments_reads ns l : reads (delete_deployments ns l);
  set_controller_reference_ok o p p' : set_controller_reference o p = Ok p' ->
    pdb_key p' = pdb_key p /\ pdb_spec p' = pdb_spec p;
  ceph_status_reads : reads ceph_status;
  ceph_osd_dump_reads : reads ceph_osd_dump_flags;
  ceph_osd_dump_ok w w' d : ceph_osd_dump_flags w = (w', Ok d) -> d = crush_flags (snapshot w);
  ceph_osd_metadata_reads : reads ceph_osd_metadata;
  ceph_set_group_ok unit_ flag w w' : ceph_set_group unit_ flag w = (w', Ok ()) ->
    snapshot w' = with_flags (snapshot w)
      (<[unit_ := flag :: default [] (crush_flags (snapshot w) !! unit_)]> (crush_flags (snapshot w)));
  ceph_unset_group_ok unit_ flag w w' : ceph_unset_group unit_ flag w = (w', Ok ()) ->
    snapshot w' = with_flags (snapshot w)
      (<[unit_ := filter (fun f => f <> flag) (default [] (crush_flags (snapshot w) !! unit_))]>
         (crush_flags (snapshot w)));
  time_now_reads : reads time_now;
}.

(** Reading composes. *)
Create HintDb reads.

Section Reads.
Context {W : Type} `{Cluster W}.

Lemma reads_ret {A} (a : A) : reads (mret a).
Proof. done. Qed.

Lemma reads_fail {A} e : reads (A := A) (fail e).
Proof. done. Qed.

Lemma reads_lift {A} (r : result A) : reads (lift r).
Proof. done. Qed.

Lemma reads_bind {A B} (m : M W A) (f : A -> M W B) :
  reads m -> (forall a, reads (f a)) -> reads (m ≫= f).
Proof.
  intros Hm Hf w. unfold mbind, M_bind. specialize (Hm w).
  destruct (m w) as [w1 [a|e]]; [|done]. by rewrite Hf.
Qed.

Lemma reads_try {A} (m : M W A) : reads m -> reads (try_ m).
Proof. intros Hm w. unfold try_. specialize (Hm w). by destruct (m w). Qed.

Lemma reads_wrapM {A} (m : M W A) fmt args : reads m -> reads (wrapM m fmt args).
Proof. intros Hm w. unfold wrapM. specialize (Hm w). by destruct (m w). Qed.

Lemma run_reads {A} (m : M W A) w w' r : reads m -> m w = (w', r) -> snapshot w' = snapshot w.
Proof. intros Hm E. rewrite <- (Hm w), E. done. Qed.

End Reads.

#[export] Hint Resolve reads_ret reads_fail reads_lift reads_bind reads_try reads_wrapM
  get_pdb_reads get_configmap_reads get_node_reads list_deployments_reads list_cephclusters_reads
  list_blockpools_reads list_filesystems_reads list_objectstores_reads delete_deployments_reads
  ceph_status_reads ceph_osd_dump_reads ceph_osd_metadata_reads time_now_reads : reads.

(** Show that a handler only reads: go through its binds and its branches. *)
Ltac solve_reads :=
  repeat first
    [ progress intros
    | apply reads_bind
    | apply reads_wrapM
    | apply reads_try
    | progress eauto 2 with reads
    | case_match ].

(** ** The course of a run

    A run takes the world through calls of the cluster, and the clock is read in one of them. *)

Variant operation {W} `{Cluster W} : forall A, M W A -> Prop :=
| op_get_pdb k : operation _ (get_pdb k)
| op_create_pdb p : operation _ (create_pdb p)
| op_update_pdb p : operation _ (update_pdb p)
| op_delete_pdb k : operation _ (delete_pdb k)
| op_get_configmap k : operation _ (get_configmap k)
| op_create_configmap c : operation _ (create_configmap c)
| op_update_configmap c : operation _ (update_configmap c)
| op_get_node n : operation _ (get_node n)
| op_list_deployments ns l : operation _ (list_deployments ns l)
| op_list_cephclusters ns : operation _ (list_cephclusters ns)
| op_list_blockpools ns : operation _ (list_blockpools ns)
| op_list_filesystems ns : operation _ (list_filesystems ns)
| op_list_objectstores ns : operation _ (list_objectstores ns)
| op_delete_deployments ns l : operation _ (delete_deployments ns l)
| op_ceph_status : operation _ ceph_status
| op_ceph_osd_dump : operation _ ceph_osd_dump_flags
| op_ceph_osd_metadata : operation _ ceph_osd_metadata
| op_ceph_set_group u f : operation _ (ceph_set_group u f)
| op_ceph_unset_group u f : operation _ (ceph_unset_group u f)
| op_time_now : operation _ time_now.

(** One call takes [w] to [w']. *)
Definition called {W} `{Cluster W} (w w' : W) : Prop :=
  exists A (m : M W A), operation A m /\ (m w).1 = w'.

(** The calls of a run take [w] to [w']. *)
Definition passes {W} `{Cluster W} : W -> W -> Prop := rtc called.

(** All that [m] does to the world are calls of the cluster. *)
Definition calls_only {W A} `{Cluster W} (m : M W A) : Prop := forall w, passes w (m w).1.

(** The clock showed [now] to a call between [w] and [w']. *)
Definition clock_read {W} `{Cluster W} (w w' : W) (now : Z) : Prop :=
  exists v v', passes w v /\ time_now v = (v', Ok now) /\ passes v' w'.

Create HintDb calls_only.

Section Calls.
Context {W : Type} `{Cluster W}.

Lemma calls_op {A} (m : M W A) : operation A m -> calls_only m.
Proof. intros Hm w. apply rtc_once. by exists A, m. Qed.

Lemma calls_ret {A} (a : A) : calls_only (mret a).
Proof. intros w. apply rtc_refl. Qed.

Lemma calls_fail {A} e : calls_only (A := A) (fail e).
Proof. intros w. apply rtc_refl. Qed.

Lemma calls_lift {A} (r : result A) : calls_only (lift r).
Proof. intros w. apply rtc_refl. Qed.

Lemma calls_bind {A B} (m : M W A) (f : A -> M W B) :
  calls_only m -> (forall a, calls_only (f a)) -> calls_only (m ≫= f).
Proof.
  intros Hm Hf w. unfold mbind, M_bind. specialize (Hm w). destruct (m w) as [w1 [a|e]]; [|done].
  etrans; [exact Hm|apply Hf].
Qed.

Lemma calls_try {A} (m : M W A) : calls_only m -> calls_only (try_ m).
Proof. intros Hm w. unfold try_. specialize (Hm w). by destruct (m w). Qed.

Lemma calls_wrapM {A} (m : M W A) fmt args : calls_only m -> calls_only (wrapM m fmt args).
Proof. intros Hm w. unfold wrapM. specialize (Hm w). by destruct (m w). Qed.

Lemma calls_forM {A} (l : list A) (f : A -> M W unit) :
  (forall a, calls_only (f a)) -> calls_only (forM_ l f).
Proof. intros Hf. induction l; [apply calls_ret|]. by apply calls_bind. Qed.

Lemma run_calls {A} (m : M W A) w w' r : calls_only m -> m w = (w', r) -> passes w w'.
Proof. intros Hm E. pose proof (Hm w) as Hw. by rewrite E in Hw. Qed.

Lemma clock_read_wider w0 w w' w1 now :
  passes w0 w -> passes w' w1 -> clock_read w w' now -> clock_read w0 w1 now.
Proof. intros H0 H1 (v & v' & Hv & Hn & Hv'). exists v, v'. split_and!; [by etrans|done|by etrans]. Qed.

End Calls.

#[export] Hint Resolve calls_ret calls_fail calls_lift : calls_only.
#[export] Hint Extern 2 (calls_only _) => apply calls_op; constructor : calls_only.

(** Show that a handler changes the world by calls alone. *)
Ltac solve_calls :=
  repeat first
    [ progress intros
    | apply calls_bind
    | apply calls_wrapM
    | apply calls_try
    | apply calls_forM
    | progress eauto 2 with calls_only
    | case_match ].

(** ** A world that satisfies the laws

    An API server that stores objects by key, a Ceph cluster that stores flags, and fixed
    answers for what the handlers only read.  The key of a stored object is the key it is
    stored under. *)
Record SimWorld := {
  sim_pdbs : gmap NamespacedName PodDisruptionBudget;
  sim_configmaps : gmap NamespacedName ConfigMap;
  sim_flags : gmap string (list string);
  sim_deployments : list Deployment;
  sim_nodes : gmap string NodeObj;
  sim_clusters : list CephCluster;
  sim_pools : list PoolSpec;
  sim_filesystems : list CephFilesystem;
  sim_stores : list CephObjectStore;
  sim_status : CephStatus;
  sim_metadata : list OSDMetadata;
  sim_clock : Z;
}.

Definition rekey_pdb (k : NamespacedName) (p : PodDisruptionBudget) : PodDisruptionBudget :=
  {| pdb_key := k; pdb_owners := pdb_owners p; pdb_spec := pdb_spec p;
     DisruptionsAllowed := DisruptionsAllowed p |}.

Definition rekey_cm (k : NamespacedName) (c : ConfigMap) : ConfigMap :=
  {| cm_key := k; cm_data := cm_data c |}.

Definition sim_snapshot (w : SimWorld) : Snapshot :=
  {| pdbs := map_imap (fun k p => Some (rekey_pdb k p)) (sim_pdbs w);
     configmaps := map_imap (fun k c => Some (rekey_cm k c)) (sim_configmaps w);
     crush_flags := sim_flags w |}.

Definition put (w : SimWorld) p c f : SimWorld :=
  {| sim_pdbs := p; sim_configmaps := c; sim_flags := f; sim_deployments := sim_deployments w;
     sim_nodes := sim_nodes w; sim_clusters := sim_clusters w; sim_pools := sim_pools w;
     sim_filesystems := sim_filesystems w; sim_stores := sim_stores w; sim_status := sim_status w;
     sim_metadata := sim_metadata w; sim_clock := sim_clock w |}.

Definition put_pdbs (w : SimWorld) p := put w p (sim_configmaps w) (sim_flags w).

Definition put_configmaps (w : SimWorld) c := put w (sim_pdbs w) c (sim_flags w).

Definition put_flags (w : SimWorld) f := put w (sim_pdbs w) (sim_configmaps w) f.

Definition answer {W A} (o : option A) : M W A := fun w =>
  (w, match o with Some a => Ok a | None => Err (APIStatus NotFound) end).

(** Store [a] under [k] when the key is free ([fresh]) or taken ([negb fresh]). *)
Definition sim_write {A} (fresh : bool) (m : gmap NamespacedName A) (k : NamespacedName) (a : A)
    (set : gmap NamespacedName A -> SimWorld) (w : SimWorld) : SimWorld * result unit :=
  match m !! k, fresh with
  | None, true | Some _, false => (set (<[k := a]> m), Ok ())
  | None, false => (w, Err (APIStatus NotFound))
  | Some _, true => (w, Err (APIStatus AlreadyExists))
  end.

#[export] Instance sim_cluster : Cluster SimWorld := {
  snapshot := sim_snapshot;
  get_pdb k w := answer (pdbs (sim_snapshot w) !! k) w;
  create_pdb p w := sim_write true (sim_pdbs w) (pdb_key p) p (put_pdbs w) w;
  update_pdb p w := sim_write false (sim_pdbs w) (pdb_key p) p (put_pdbs w) w;
  delete_pdb k w :=
    match sim_pdbs w !! k with
    | Some _ => (put_pdbs w (delete k (sim_pdbs w)), Ok ())
    | None => (w, Err (APIStatus NotFound))
    end;
  get_configmap k w := answer (configmaps (sim_snapshot w) !! k) w;
  create_configmap c w := sim_write true (sim_configmaps w) (cm_key c) c (put_configmaps w) w;
  update_configmap c w := sim_write false (sim_configmaps w) (cm_key c) c (put_configmaps w) w;
  get_node n w := answer (sim_nodes w !! n) w;
  list_deployments ns l w := (w, Ok (filter (fun d => l ⊆ dep_labels d) (sim_deployments w)));
  list_cephclusters ns w := (w, Ok (sim_clusters w));
  list_blockpools ns w := (w, Ok (sim_pools w));
  list_filesystems ns w := (w, Ok (sim_filesystems w));
  list_objectstores ns w := (w, Ok (sim_stores w));
  delete_deployments ns l w := (w, Ok ());
  set_controller_reference o p :=
    Ok {| pdb_key := pdb_key p; pdb_owners := o :: pdb_owners p; pdb_spec := pdb_spec p;
          DisruptionsAllowed := DisruptionsAllowed p |};
  ceph_status w := (w, Ok (sim_status w));
  ceph_osd_dump_flags w := (w, Ok (sim_flags w));
  ceph_osd_metadata w := (w, Ok (sim_metadata w));
  ceph_set_group u f w :=
    (put_flags w (<[u := f :: default [] (sim_flags w !! u)]> (sim_flags w)), Ok ());
  ceph_unset_group u f w :=
    (put_flags w (<[u := filter (fun g => g <> f) (default [] (sim_flags w !! u))]> (sim_flags w)), Ok ());
  time_now w := (w, Ok (sim_clock w));
  error_text e := match e with External t => t | _ => "" end;
  regexp_compile r := Some (String.eqb r);
}.

(** The clock of this world stands still: every reading in a run shows the same time. *)
Lemma sim_called_clock (w w' : SimWorld) : called w w' -> sim_clock w' = sim_clock w.
Proof.
  intros (A & m & Hm & <-). destruct Hm; simpl; unfold sim_write, answer; repeat case_match; done.
Qed.

Lemma sim_clock_read (w w' : SimWorld) now : clock_read w w' now -> now = sim_clock w.
Proof.
  intros (v & v' & Hv & [= _ <-] & _).
  induction Hv as [|x y z Hc _ IH]; [done|]. by rewrite IH, (sim_called_clock x y).
Qed.

Lemma sim_write_ok {A} fresh (m : gmap NamespacedName A) k a set w w' :
  sim_write fresh m k a set w = (w', Ok ()) -> w' = set (<[k := a]> m).
Proof. unfold sim_write. destruct (m !! k), fresh; naive_solver. Qed.

Lemma sim_write_err {A} fresh (m : gmap NamespacedName A) k a set w w' e :
  sim_write fresh m k a set w = (w', Err e) ->
  w' = w /\ (IsAlreadyExists e = true -> is_Some (m !! k)).
Proof. unfold sim_write. destruct (m !! k) eqn:E, fresh; naive_solver. Qed.

Lemma sim_insert_pdb w p :
  sim_snapshot (put_pdbs w (<[pdb_key p := p]> (sim_pdbs w))) =
  with_pdbs (sim_snapshot w) (<[pdb_key p := p]> (pdbs (sim_snapshot w))).
Proof.
  unfold sim_snapshot, with_pdbs. simpl. f_equal. rewrite map_imap_insert. by destruct p.
Qed.

Lemma sim_insert_cm w c :
  sim_snapshot (put_configmaps w (<[cm_key c := c]> (sim_configmaps w))) =
  with_configmaps (sim_snapshot w) (<[cm_key c := c]> (configmaps (sim_snapshot w))).
Proof.
  unfold sim_snapshot, with_configmaps. simpl. f_equal. rewrite map_imap_insert. by destruct c.
Qed.

Lemma sim_lookup_pdb w k : pdbs (sim_snapshot w) !! k = rekey_pdb k <$> sim_pdbs w !! k.
Proof. simpl. rewrite map_lookup_imap. by destruct (sim_pdbs w !! k). Qed.

Lemma sim_lookup_cm w k : configmaps (sim_snapshot w) !! k = rekey_cm k <$> sim_configmaps w !! k.
Proof. simpl. rewrite map_lookup_imap. by destruct (sim_configmaps w !! k). Qed.

#[export] Instance sim_laws : ClusterLaws SimWorld.
Proof.
  split; simpl; try (intros; done); unfold answer.
  - intros k w w' o. destruct (_ !! k); naive_solver.
  - intros k w w' e. destruct (_ !! k); naive_solver.
  - intros p w w' ->%sim_write_ok. exists p. by rewrite sim_insert_pdb.
  - intros p w w' e [-> Hex]%sim_write_err He. split; [done|].
    rewrite map_lookup_imap. destruct (Hex He) as [? ->]. by eexists.
  - intros p w w' ->%sim_write_ok. exists p. by rewrite sim_insert_pdb.
  - intros k w w'. destruct (sim_pdbs w !! k); [|done]. intros [= <-].
    unfold sim_snapshot, with_pdbs. simpl. f_equal. apply map_imap_delete.
  - intros k w w' e. destruct (sim_pdbs w !! k) eqn:E; [done|]. intros [= <- <-] _.
    split; [done|]. by rewrite map_lookup_imap, E.
  - intros k w p. rewrite map_lookup_imap. destruct (sim_pdbs w !! k); naive_solver.
  - intros k w w' c. destruct (map_imap _ _ !! k) eqn:E; [|done]. intros [= <- <-].
    split; [done|]. rewrite map_lookup_imap in E. destruct (sim_configmaps w !! k); naive_solver.
  - intros k w w' e. destruct (map_imap _ _ !! k) eqn:E; naive_solver.
  - intros c w w' ->%sim_write_ok. apply sim_insert_cm.
  - intros c w w' ->%sim_write_ok. apply sim_insert_cm.
  - intros o p p' [= <-]. done.
  - intros w w' d [= <- <-]. done.
  - intros u f w w' [= <-]. done.
  - intros u f w w' [= <-]. done.
Qed.

End Kube.
Export Kube.
