(* ===== verification/Disruption.v ===== *)
(** * Disruption: the controller of the pod disruption budgets

    Models [pkg/operator/ceph/disruption/clusterdisruption]: [osd.go] (budgets of the OSDs and
    the state machine of node drains), [pools.go] (the failure domain of the pools, budgets of
    gateways and metadata servers), [static_pdb.go] and [reconcile.go]; with the parts of
    [pkg/daemon/ceph/client] they call: [IsClusterClean] ([status.go]) and
    [UpdateFlagOnCrushUnit] ([osd.go]).  The world is any [Cluster] (file Kube). *)

From stdpp Require Import base gmap strings list fin_maps.
From Stdlib Require Import ZArith Ascii.
From S2P Require Import Prelude Names GoTime Topology Kube.
Import ObjectName GoTime Topology.
Open Scope Z_scope.

Module Disruption.

Definition osdPDBAppName : string := "rook-ceph-osd".

Definition osdPDBOsdIdLabel : string := "osd".

Definition drainingFailureDomainKey : string := "draining-failure-domain".

Definition drainingFailureDomainDurationKey : string := "draining-failure-domain-duration".

Definition setNoOut : string := "set-no-out".

Definition DefaultMaintenanceTimeout : Z := 30 * Minute.

Definition nooutFlag : string := "noout".

Definition AppAttr : string := "app".

Definition OsdIdLabelKey : string := "ceph-osd-id".

Definition ReplaceInProgressOSDAnnotationKey : string := "osd.rook.io/replace-in-progress".

Definition DefaultFailureDomain : string := "host".

Definition UninitializedCephConfigError : string := "error calling conf_read_file".

Definition pdbStateMapName : string := "rook-ceph-pdbstatemap".

Definition legacyDrainCanaryLabel : string := "rook-ceph-drain-canary".

(** [fmt.Sprintf(osd.TopologyLocationLabel, failureDomainType)] *)
Definition topologyLocationLabel (failureDomainType : string) : string :=
  "topology-location-" +:+ failureDomainType.

(** [data[key]] of a Go map: the empty string when the key is missing. *)
Definition read (data : gmap string string) (key : string) : string := default "" (data !! key).

(** ** The drain state kept in the config map *)

Definition resetPDBConfig (data : gmap string string) : gmap string string :=
  let data := <[drainingFailureDomainKey := ""]> data in
  let data := delete drainingFailureDomainDurationKey data in
  <[setNoOut := ""]> data.

Definition set_draining (failureDomain noout : string) (data : gmap string string) : gmap string string :=
  <[setNoOut := noout]> (<[drainingFailureDomainKey := failureDomain]> data).

(** The first of a list of failure domains, unless [current] is one of them. *)
Definition first_unless (current : string) (l : list string) : option string :=
  if bool_decide (current ∈ l) then None else head l.

(** [now] is [time.Now()] at the end of the call. *)
Definition setPDBConfig (now : Z) (data : gmap string string)
    (osdDownFailureDomains nodeDrainFailureDomains : list string) : gmap string string :=
  let draining := read data drainingFailureDomainKey in
  let data :=
    if String.eqb draining "" then
      match head nodeDrainFailureDomains with
      | Some n => set_draining n "true" data
      | None => match head osdDownFailureDomains with
                | Some o => set_draining o "" data
                | None => data
                end
      end
    else
      match first_unless draining nodeDrainFailureDomains with
      | Some n => set_draining n "true" data
      | None => match first_unless draining osdDownFailureDomains with
                | Some o => set_draining o "" data
                | None => data
                end
      end in
  <[drainingFailureDomainDurationKey := Format now]> data.

(** ** Health of the placement groups *)

Definition pg_words : list string := ["clean"; "deep"; "scrubbing"; "snaptrim"; "snaptrim_wait"].

(** [^active(\+(clean|deep|scrubbing|snaptrim|snaptrim_wait))+$] *)
Definition defaultPgHealthyRegex (state : string) : bool :=
  match split_byte "+" state with
  | first :: word :: words =>
      String.eqb first "active" && forallb (fun w => bool_decide (w ∈ pg_words)) (word :: words)
  | _ => false
  end.

Definition isClusterClean (status : CephStatus) (healthy : string -> bool) : bool :=
  if NumPgs status =? 0 then true
  else
    let cleanPGs := foldl (fun n pg => if healthy (StateName pg) then wrap64 (n + Count pg) else n)
                          0 (PgsByState status) in
    cleanPGs =? NumPgs status.

Section WithCluster.
Context {W : Type} `{Cluster W}.

Definition IsClusterClean (pgHealthyRegex : string) : M W bool :=
  status ← ceph_status;
  if String.eqb pgHealthyRegex "" then mret (isClusterClean status defaultPgHealthyRegex)
  else match regexp_compile pgHealthyRegex with
       | Some healthy => mret (isClusterClean status healthy)
       | None => fail (Errorf "unable to compile pgHealthyRegex" [pgHealthyRegex])
       end.

(** ** CRUSH flags *)

Definition IsFlagSetOnCrushUnit (dump : gmap string (list string)) (checkFlag crushUnit : string) : bool :=
  bool_decide (checkFlag ∈ default [] (dump !! crushUnit)).

Definition UpdateFlagOnCrushUnit (dump : gmap string (list string)) (set : bool)
    (crushUnit flag : string) : M W bool :=
  let flagSet := IsFlagSetOnCrushUnit dump flag crushUnit in
  if flagSet && negb set then
    _ ← wrapM (ceph_unset_group crushUnit flag) "failed to unset flag %s on %s" [crushUnit; flag];
    mret true
  else if negb flagSet && set then
    _ ← wrapM (ceph_set_group crushUnit flag) "failed to set flag %s on %s" [crushUnit; flag];
    mret true
  else mret false.

(** ** Budgets *)

Definition createPDB (pdb : PodDisruptionBudget) : M W unit := fun w =>
  match create_pdb pdb w with
  | (w', Ok _) => (w', Ok ())
  | (w', Err e) => if IsAlreadyExists e then (w', Ok ())
                   else (w', Err (Wrapf e "failed to create pdb %q" [Name (pdb_key pdb)]))
  end.

Definition deletePDB (key : NamespacedName) : M W unit := fun w =>
  match delete_pdb key w with
  | (w', Ok _) => (w', Ok ())
  | (w', Err e) => if IsNotFound e then (w', Ok ())
                   else (w', Err (Wrapf e "failed to delete pdb %q" [Name key]))
  end.

(** [GetCluster] of the cluster map, [clusterMap]. *)
Context (clusterMap : gmap string CephCluster).

Definition new_pdb (key : NamespacedName) (spec : PodDisruptionBudgetSpec) : PodDisruptionBudget :=
  {| pdb_key := key; pdb_owners := []; pdb_spec := spec; DisruptionsAllowed := 0 |}.

Definition osd_requirement : LabelSelectorRequirement :=
  {| req_key := AppAttr; req_operator := OpIn; req_values := [osdPDBAppName] |}.

Definition defaultPDBSpec (excludeOSDs : list Z) : PodDisruptionBudgetSpec :=
  let matchExpressions := [osd_requirement] ++
    (match excludeOSDs with
     | [] => []
     | _ => [{| req_key := osdPDBOsdIdLabel; req_operator := OpNotIn;
                req_values := Itoa <$> excludeOSDs |}]
     end) in
  {| MinAvailable := None; MaxUnavailable := Some 1;
     Selector := Some {| MatchLabels := ∅; MatchExpressions := Some matchExpressions |} |}.

Definition defaultPDBKey (namespace : string) : NamespacedName :=
  {| Namespace := namespace; Name := osdPDBAppName |}.

Definition createDefaultPDBforOSD (namespace : string) (excludeOSDs : list Z) : M W unit :=
  match clusterMap !! namespace with
  | None => fail (Errorf "failed to find the namespace %q in the clustermap" [namespace])
  | Some cephCluster =>
      let key := defaultPDBKey namespace in
      let spec := defaultPDBSpec excludeOSDs in
      pdb ← wrapM (lift (set_controller_reference (cluster_owner cephCluster) (new_pdb key spec)))
              "failed to set owner reference to pdb %v" [osdPDBAppName];
      r ← try_ (get_pdb key);
      match r with
      | Err e => if IsNotFound e then createPDB pdb
                 else fail (Wrapf e "failed to get pdb %q" [osdPDBAppName])
      | Ok existingPDB =>
          wrapM (update_pdb (set_spec existingPDB (pdb_spec pdb)))
            "failed to update existing pdb %q" [Name (pdb_key existingPDB)]
      end
  end.

Definition deleteDefaultPDBforOSD (namespace : string) : M W unit :=
  let key := defaultPDBKey namespace in
  r ← try_ (get_pdb key);
  match r with
  | Err e => if IsNotFound e then mret () else fail (Wrapf e "failed to get pdb %q" [osdPDBAppName])
  | Ok _ => deletePDB key
  end.

Definition getPDBName (failureDomainType failureDomainName : string) : string :=
  TruncateNodeName (osdPDBAppName +:+ "-" +:+ failureDomainType +:+ "-" +:+ "%s") failureDomainName.

Definition blockingPDBKey (namespace failureDomainType failureDomainName : string) : NamespacedName :=
  {| Namespace := namespace; Name := getPDBName failureDomainType failureDomainName |}.

Definition blockingPDBSpec (failureDomainType failureDomainName : string) : PodDisruptionBudgetSpec :=
  {| MinAvailable := None; MaxUnavailable := Some 0;
     Selector := Some {| MatchLabels := {[ topologyLocationLabel failureDomainType := failureDomainName ]};
                         MatchExpressions := None |} |}.

Definition createBlockingPDBForOSD (namespace failureDomainType failureDomainName : string) : M W unit :=
  match clusterMap !! namespace with
  | None => fail (Errorf "failed to find the namespace %q in the clustermap" [namespace])
  | Some cephCluster =>
      let key := blockingPDBKey namespace failureDomainType failureDomainName in
      pdb ← wrapM (lift (set_controller_reference (cluster_owner cephCluster)
                           (new_pdb key (blockingPDBSpec failureDomainType failureDomainName))))
              "failed to set owner reference to pdb %v" [Name key];
      r ← try_ (get_pdb key);
      match r with
      | Err e => if IsNotFound e then createPDB pdb else fail (Wrapf e "failed to get pdb %q" [Name key])
      | Ok _ => mret ()
      end
  end.

Definition deleteBlockingPDBForOSD (namespace failureDomainType failureDomainName : string) : M W unit :=
  let key := blockingPDBKey namespace failureDomainType failureDomainName in
  r ← try_ (get_pdb key);
  match r with
  | Err e => if IsNotFound e then mret () else fail (Wrapf e "failed to get pdb %q" [Name key])
  | Ok _ => deletePDB key
  end.

Definition handleActiveDrains (allFailureDomains : list string)
    (drainingFailureDomain failureDomainType namespace : string) : M W unit :=
  _ ← forM_ allFailureDomains (fun failureDomainName =>
        if String.eqb failureDomainName drainingFailureDomain
        then wrapM (deleteBlockingPDBForOSD namespace failureDomainType failureDomainName)
               "failed to delete blocking pdb for %q failure domain %q" [failureDomainType; failureDomainName]
        else wrapM (createBlockingPDBForOSD namespace failureDomainType failureDomainName)
               "failed to create blocking pdb for %q failure domain %q" [failureDomainType; failureDomainName]);
  wrapM (deleteDefaultPDBforOSD namespace) "failed to delete the default osd pdb" [].

Definition handleInactiveDrains (allFailureDomains : list string)
    (failureDomainType namespace : string) (excludeOSDs : list Z) : M W unit :=
  _ ← wrapM (createDefaultPDBforOSD namespace excludeOSDs) "failed to create default pdb" [];
  forM_ allFailureDomains (fun failureDomainName =>
    wrapM (deleteBlockingPDBForOSD namespace failureDomainType failureDomainName)
      "failed to delete pdb for %q failure domain %q" [failureDomainType; failureDomainName]).

(** ** Noout on the draining failure domain

    The data of the config map are changed in place, so the changes made before an error are
    kept: the new data and the error are both returned. *)

Definition nooutKey (failureDomainName : string) : string :=
  failureDomainName +:+ "-noout-last-set-at".

Definition ensure_noout_unset (dump : gmap string (list string)) (data : gmap string string)
    (failureDomainName : string) : M W (gmap string string * result unit) :=
  r ← try_ (UpdateFlagOnCrushUnit dump false failureDomainName nooutFlag);
  match r with
  | Err e => mret (data, Err (Wrapf e "failed to update flag on crush unit when ensuring noout is unset." []))
  | Ok _ => mret (delete (nooutKey failureDomainName) data, Ok ())
  end.

Definition noout_draining (maintenanceTimeout : Z) (dump : gmap string (list string))
    (data : gmap string string) (failureDomainName : string) : M W (gmap string string * result unit) :=
  let key := nooutKey failureDomainName in
  data ← (if String.eqb (read data key) "" then now ← time_now; mret (<[key := Format now]> data)
          else mret data);
  match Parse (read data key) with
  | None => mret (data, Err (Errorf "failed to parse timestamp %s for failureDomain %s"
                               [read data key; failureDomainName]))
  | Some nooutSetTime =>
      now ← time_now;
      let expired := maintenanceTimeout <=? now - nooutSetTime in
      r ← try_ (UpdateFlagOnCrushUnit dump (negb expired) failureDomainName nooutFlag);
      match r with
      | Err e => mret (data, Err (Wrapf e (if expired then "failed to update flag on crush unit when noout expired."
                                          else "failed to update flag on crush unit while setting noout.") []))
      | Ok _ => mret (data, Ok ())
      end
  end.

Fixpoint noout_loop (maintenanceTimeout : Z) (dump : gmap string (list string))
    (data : gmap string string) (failureDomains : list string) : M W (gmap string string * result unit) :=
  match failureDomains with
  | [] => mret (data, Ok ())
  | failureDomainName :: rest =>
      '(data, r) ←
        (if String.eqb (read data drainingFailureDomainKey) failureDomainName &&
            String.eqb (read data setNoOut) "true"
         then noout_draining maintenanceTimeout dump data failureDomainName
         else ensure_noout_unset dump data failureDomainName);
      match r with
      | Err e => mret (data, Err e)
      | Ok _ => noout_loop maintenanceTimeout dump data rest
      end
  end.

Definition updateNoout (maintenanceTimeout : Z) (namespace : string)
    (data : gmap string string) (allFailureDomains : list string) :
    M W (gmap string string * result unit) :=
  r ← try_ ceph_osd_dump_flags;
  match r with
  | Err e => mret (data, Err (Wrapf e "failed to get osddump for reconciling maintenance noout in namespace %s" [namespace]))
  | Ok dump => noout_loop maintenanceTimeout dump data allFailureDomains
  end.

(** ** The failure domains of the OSDs *)

Definition shouldIgnoreOSD (d : Deployment) : bool :=
  String.eqb (read (dep_annotations d) ReplaceInProgressOSDAnnotationKey) "true".

Definition GetOSDID (d : Deployment) : result Z :=
  match Atoi (read (dep_labels d) OsdIdLabelKey) with
  | Some id => Ok id
  | None => Err (Errorf "failed to parse label ceph-osd-id on deployment %q" [dep_name d])
  end.

Definition getNode (nodeName : string) : M W NodeObj :=
  wrapM (get_node nodeName) "failed to get node %q" [nodeName].

Definition hasOSDNodeDrained (osdNodeName : string) : M W bool :=
  r ← try_ (getNode osdNodeName);
  match r with
  | Err e => if IsNotFound e then mret true else fail (Wrapf e "failed to get node %q" [osdNodeName])
  | Ok node => mret (Unschedulable node)
  end.

Record Domains := {
  allDomains : gset string;
  drainDomains : gset string;
  downDomains : gset string;
  downOSDs : list Z;
}.

Definition no_domains : Domains :=
  {| allDomains := ∅; drainDomains := ∅; downDomains := ∅; downOSDs := [] |}.

Definition add_all (fd : string) (s : Domains) : Domains :=
  {| allDomains := {[fd]} ∪ allDomains s; drainDomains := drainDomains s;
     downDomains := downDomains s; downOSDs := downOSDs s |}.

Definition add_down (fd : string) (id : Z) (s : Domains) : Domains :=
  {| allDomains := allDomains s; drainDomains := drainDomains s;
     downDomains := {[fd]} ∪ downDomains s; downOSDs := downOSDs s ++ [id] |}.

Definition add_drain (fd : string) (s : Domains) : Domains :=
  {| allDomains := allDomains s; drainDomains := {[fd]} ∪ drainDomains s;
     downDomains := downDomains s; downOSDs := downOSDs s |}.

(** The host of an OSD: the last entry with its ID wins; empty when there is none. *)
Definition osd_host (metadata : list OSDMetadata) (id : Z) : string :=
  foldl (fun host md => if osd_id md =? id then HostName md else host) "" metadata.

(** The body of the loop over the OSD deployments. *)
Definition classify_osd (label : string) (metadata : list OSDMetadata) (s : Domains) (d : Deployment) :
    M W Domains :=
  let fd := read (dep_labels d) label in
  if String.eqb fd "" then
    fail (Errorf "failed to get the topology location label %q in OSD deployment %q" [label; dep_name d])
  else if shouldIgnoreOSD d then mret (add_all fd s)
  else if ReadyReplicas d <? 1 then
    osdID ← wrapM (lift (GetOSDID d)) "failed to get ID for the OSD deployment %q" [dep_name d];
    let s := add_down fd osdID s in
    let osdNodeName := osd_host metadata osdID in
    if String.eqb osdNodeName "" then mret s
    else
      isDrained ← wrapM (hasOSDNodeDrained osdNodeName)
                    "failed to check if osd %q node is drained" [dep_name d];
      mret (add_all fd (if (isDrained : bool) then add_drain fd s else s))
  else mret (add_all fd s).

Fixpoint classify_osds (label : string) (metadata : list OSDMetadata) (s : Domains) (l : list Deployment) :
    M W Domains :=
  match l with
  | [] => mret s
  | d :: l' => s ← classify_osd label metadata s d; classify_osds label metadata s l'
  end.

(** The three lists are sorted ([sets.List]). *)
Record FailureDomains := {
  allFailureDomains : list string;
  nodeDrainFailureDomains : list string;
  osdDownFailureDomains : list string;
  fd_downOSDs : list Z;
}.

Definition sorted (s : gset string) : list string := sort_strings (elements s).

Definition getOSDFailureDomains (namespace poolFailureDomain : string) : M W FailureDomains :=
  let label := topologyLocationLabel poolFailureDomain in
  deployments ← wrapM (list_deployments namespace {[ AppAttr := osdPDBAppName ]})
                  "failed to list osd deployments" [];
  metadata ← wrapM ceph_osd_metadata "failed to get OSD status" [];
  s ← classify_osds label metadata no_domains deployments;
  mret {| allFailureDomains := sorted (allDomains s);
          nodeDrainFailureDomains := sorted (drainDomains s);
          osdDownFailureDomains := sorted (downDomains s);
          fd_downOSDs := downOSDs s |}.

(** ** One reconcile of the OSD budgets *)

Definition pdbStateKey (namespace : string) : NamespacedName :=
  {| Namespace := namespace; Name := pdbStateMapName |}.

Definition initializePDBState (namespace : string) : M W ConfigMap :=
  let key := pdbStateKey namespace in
  r ← try_ (get_configmap key);
  match r with
  | Ok cm => mret cm
  | Err e =>
      if IsNotFound e then
        let cm := {| cm_key := key;
                     cm_data := <[drainingFailureDomainKey := ""]> {[ setNoOut := "" ]} |} in
        _ ← wrapM (create_configmap cm) "failed to create the PDB state map %q" [namespace];
        mret cm
      else fail (Wrapf e "failed to get the pdbStateMap %s" [namespace])
  end.

(** The time stamp of the last drain, set now when it is missing. *)
Definition getLastNodeDrainTimeStamp (data : gmap string string) (key : string) :
    M W (gmap string string * Z) :=
  if String.eqb (read data key) "" then
    now ← time_now;
    mret (<[key := Format now]> data, now)
  else match Parse (read data key) with
       | Some t => mret (data, t)
       | None => fail (Errorf "failed to parse timestamp %q" [read data key])
       end.

Definition pdbExcludesOSDs (pdb : PodDisruptionBudget) : bool :=
  match Selector (pdb_spec pdb) with
  | None => false
  | Some s => existsb (fun r => String.eqb (req_key r) osdPDBOsdIdLabel) (default [] (MatchExpressions s))
  end.

Definition no_requeue : Result := {| Requeue := false; RequeueAfter := 0 |}.

Definition requeue_after (d : Z) : Result := {| Requeue := true; RequeueAfter := d |}.

Definition requeuePDBController (namespace : string) : M W Result :=
  r ← try_ (get_pdb (defaultPDBKey namespace));
  match r with
  | Err e => if IsNotFound e then mret (requeue_after (15 * Second))
             else fail (Wrapf e "failed to get allowed disruptions count from default osd pdb %q." [osdPDBAppName])
  | Ok defaultPDB =>
      if (DisruptionsAllowed defaultPDB =? 0) || pdbExcludesOSDs defaultPDB
      then mret (requeue_after (30 * Second))
      else mret no_requeue
  end.

(** The switch that updates the drain state; also the OSDs the default budget leaves out. *)
Definition update_drain_state (pgClean : bool) (fds : FailureDomains) (data : gmap string string) :
    M W (gmap string string * list Z) :=
  let osdDown := match fd_downOSDs fds with [] => false | _ => true end in
  match osdDown, pgClean with
  | false, true => mret (resetPDBConfig data, [])
  | true, true =>
      match nodeDrainFailureDomains fds with
      | _ :: _ =>
          '(data, last) ← wrapM (getLastNodeDrainTimeStamp data drainingFailureDomainDurationKey)
                            "failed to get last node drain timestamp from the configmap %q" [pdbStateMapName];
          now ← time_now;
          if now - last <? 60 * Second then mret (data, []) else mret (data, fd_downOSDs fds)
      | [] => mret (resetPDBConfig data, fd_downOSDs fds)
      end
  | true, false =>
      now ← time_now;
      mret (setPDBConfig now data (osdDownFailureDomains fds) (nodeDrainFailureDomains fds), [])
  | false, false => mret (data, [])
  end.

Definition reconcilePDBsForOSDs (maintenanceTimeout : Z) (namespace : string) (pdbStateMap : ConfigMap)
    (failureDomainType : string) (fds : FailureDomains) (pgHealthyRegex : string) : M W Result :=
  r ← try_ (IsClusterClean pgHealthyRegex);
  match r with
  | Err e =>
      if Contains (error_text e) UninitializedCephConfigError
      then mret (requeue_after (10 * Second))
      else mret (requeue_after (10 * Second))
  | Ok pgClean =>
      '(data, excludeOSDs) ← update_drain_state pgClean fds (cm_data pdbStateMap);
      let draining := read data drainingFailureDomainKey in
      _ ← (if String.eqb draining ""
           then wrapM (handleInactiveDrains (allFailureDomains fds) failureDomainType namespace excludeOSDs)
                  "failed to handle inactive drains" []
           else wrapM (handleActiveDrains (allFailureDomains fds) draining failureDomainType namespace)
                  "failed to handle active drains" []);
      '(data, nooutUpdateErr) ← updateNoout maintenanceTimeout namespace data (allFailureDomains fds);
      u ← try_ (update_configmap (set_data pdbStateMap data));
      match u with
      | Err e => if IsCanceled e then mret no_requeue
                 else fail (Wrapf e "failed to update configMap %q in cluster %q" [pdbStateMapName; namespace])
      | Ok _ =>
          match nooutUpdateErr with
          | Err e => fail (Wrapf e "failed to update maintenance noout in cluster %q" [namespace])
          | Ok _ => requeuePDBController namespace
          end
      end
  end.

(** ** Static budgets of gateways and metadata servers *)

Definition createStaticPDB (pdb : PodDisruptionBudget) : M W unit :=
  wrapM (create_pdb pdb) "failed to create pdb %q" [Name (pdb_key pdb)].

Definition reconcileStaticPDB (request : NamespacedName) (pdb : PodDisruptionBudget) : M W unit :=
  r ← try_ (get_pdb request);
  match r with
  | Err e => if IsNotFound e then createStaticPDB pdb
             else fail (Wrapf e "failed to get pdb %q" [Name (pdb_key pdb)])
  | Ok _ => mret ()
  end.

(** The body both loops share: no budget below one replica to spare, else a budget that
    keeps [minAvailable] pods. *)
Definition reconcile_min_available (key : NamespacedName) (owner : OwnerReference)
    (labelKey labelValue : string) (minAvailable : Z) (msg : string) : M W unit :=
  if minAvailable <? 1 then wrapM (deletePDB key) "failed to delete stale pdb %q" [Name key]
  else
    wrapM (reconcileStaticPDB key
             {| pdb_key := key; pdb_owners := [owner];
                pdb_spec := {| MinAvailable := Some minAvailable; MaxUnavailable := None;
                               Selector := Some {| MatchLabels := {[ labelKey := labelValue ]};
                                                   MatchExpressions := None |} |};
                DisruptionsAllowed := 0 |})
      msg [Name key].

Definition rgw_pdb_key (s : CephObjectStore) : NamespacedName :=
  {| Namespace := Namespace (store_key s); Name := "rook-ceph-rgw-" +:+ Name (store_key s) |}.

Definition reconcileCephObjectStore (stores : list CephObjectStore) : M W unit :=
  forM_ stores (fun s =>
    reconcile_min_available (rgw_pdb_key s) (store_owner s) "rgw" (Name (store_key s))
      (wrap32 (Instances s - 1)) "failed to reconcile cephobjectstore pdb %v").

Definition mds_pdb_key (f : CephFilesystem) : NamespacedName :=
  {| Namespace := Namespace (fs_key f); Name := "rook-ceph-mds-" +:+ Name (fs_key f) |}.

Definition mds_min_available (f : CephFilesystem) : Z :=
  let n := wrap32 (ActiveCount f - 1) in
  if ActiveStandby f then wrap32 (n + 1) else n.

Definition reconcileCephFilesystem (filesystems : list CephFilesystem) : M W unit :=
  forM_ filesystems (fun f =>
    reconcile_min_available (mds_pdb_key f) (fs_owner f) "rook_file_system" (Name (fs_key f))
      (mds_min_available f) "failed to reconcile cephfs pdb %v").

(** ** The failure domain of the pools *)

(** The inner loop of [getMinimumFailureDomain], with its [break]. *)
Fixpoint scan_levels (fd : string) (index : nat) (levels : list string) (st : nat * bool) : nat * bool :=
  match levels with
  | [] => st
  | level :: rest =>
      let '(min, matched) := st in
      if (min <? index)%nat then st
      else scan_levels fd (S index) rest (if String.eqb fd level then (index, true) else st)
  end.

Definition getMinimumFailureDomain (poolList : list PoolSpec) : string :=
  match poolList with
  | [] => DefaultFailureDomain
  | _ =>
      let '(min, matched) :=
        foldl (fun st pool => scan_levels (FailureDomain pool) 0 CRUSHMapLevelsOrdered st)
              ((length CRUSHMapLevelsOrdered - 1)%nat, false) poolList in
      if (matched : bool) then default "" (CRUSHMapLevelsOrdered !! min) else DefaultFailureDomain
  end.

Definition processPools (namespace : string) :
    M W (list CephObjectStore * list CephFilesystem * string * nat) :=
  blockPools ← wrapM (list_blockpools namespace) "could not list the CephBlockpools %v" [namespace];
  filesystems ← wrapM (list_filesystems namespace) "could not list the CephFilesystems %v" [namespace];
  stores ← wrapM (list_objectstores namespace) "could not list the CephObjectStores %v" [namespace];
  let poolSpecs := blockPools ++
    (filesystems ≫= fun f => fs_metadata_pool f :: fs_data_pools f) ++
    (stores ≫= fun s => [store_metadata_pool s; store_data_pool s]) in
  let poolCount := (length blockPools + length filesystems + length stores)%nat in
  mret (stores, filesystems, getMinimumFailureDomain poolSpecs, poolCount).

Definition deleteDrainCanaryPods (namespace : string) : M W unit := fun w =>
  match delete_deployments namespace {[ AppAttr := legacyDrainCanaryLabel ]} w with
  | (w', Ok _) => (w', Ok ())
  | (w', Err e) => if IsNotFound e then (w', Ok ())
                   else (w', Err (Wrapf e "failed to delete all the legacy drain-canary pods with label %q"
                                   [legacyDrainCanaryLabel]))
  end.

End WithCluster.

(** ** The reconcile loop *)

(** The state the controller keeps between two calls: the cluster map and the global
    [deleteLegacyResources].  [maintenanceTimeout] is set anew in each call before it is
    read. *)
Record Reconciler := {
  clusterMap : gmap string CephCluster;
  deleteLegacyResources : bool;
}.

Definition UpdateClusterMap (r : Reconciler) (namespace : string) (c : CephCluster) : Reconciler :=
  {| clusterMap := <[namespace := c]> (clusterMap r);
     deleteLegacyResources := deleteLegacyResources r |}.

Definition GetCluster (r : Reconciler) (namespace : string) : option CephCluster :=
  clusterMap r !! namespace.

Definition legacy_done (r : Reconciler) : Reconciler :=
  {| clusterMap := clusterMap r; deleteLegacyResources := false |}.

(** [OSDMaintenanceTimeout * time.Minute], the default for zero *)
Definition maintenance_timeout (c : CephCluster) : Z :=
  let t := wrap64 (OSDMaintenanceTimeout (DisruptionManagement c) * Minute) in
  if t =? 0 then DefaultMaintenanceTimeout else t.

Section Reconcile.
Context {W : Type} `{Cluster W}.

(** From the pools on. *)
Definition reconcile_cluster (r : Reconciler) (c : CephCluster) (namespace : string) : M W Result :=
  '(stores, filesystems, poolFailureDomain, poolCount) ← processPools namespace;
  _ ← reconcileCephObjectStore stores;
  _ ← reconcileCephFilesystem filesystems;
  if (poolCount <? 1)%nat then mret no_requeue
  else
    fds ← getOSDFailureDomains namespace poolFailureDomain;
    pdbStateMap ← initializePDBState namespace;
    reconcilePDBsForOSDs (clusterMap r) (maintenance_timeout c) namespace pdbStateMap
      poolFailureDomain fds (PGHealthyRegex (DisruptionManagement c)).

Definition reconcile (r : Reconciler) (namespace : string) (w : W) : Reconciler * (W * result Result) :=
  if String.eqb namespace "" then
    (r, (w, Err (Errorf "request did not have namespace: %q" [namespace])))
  else
    match wrapM (list_cephclusters namespace) "could not get cephclusters in namespace %q" [namespace] w with
    | (w, Err e) => (r, (w, Err e))
    | (w, Ok []) => (r, (w, Ok no_requeue))
    | (w, Ok (c :: _)) =>
        let r := UpdateClusterMap r namespace c in
        match GetCluster r namespace with
        | None => (r, (w, Err (Errorf "clusterName for this namespace not yet known" [])))
        | Some _ =>
            if negb (ManagePodBudgets (DisruptionManagement c)) then (r, (w, Ok no_requeue))
            else if deleteLegacyResources r then
              match deleteDrainCanaryPods namespace w with
              | (w, Err e) => (r, (w, Err e))
              | (w, Ok _) =>
                  let r := legacy_done r in (r, reconcile_cluster r c namespace w)
              end
            else (r, reconcile_cluster r c namespace w)
        end
    end.

End Reconcile.

End Disruption.
