(* ===== verification/DisruptionProofs.v ===== *)
(** * DisruptionProofs: what the disruption controller guarantees

    The theorems on the definitions of file Disruption, for any world that satisfies the laws
    of file Kube: which budgets are stored after a reconcile, where the noout flag is set,
    how the drain state moves, and how OSDs are sorted into failure domains. *)

From stdpp Require Import base gmap strings list fin_maps sorting.
From Stdlib Require Import ZArith Ascii.
From S2P Require Import Prelude Names GoTime Topology Kube Disruption.
Import ObjectName GoTime Topology Disruption.
Open Scope Z_scope.

Module DisruptionProofs.

(** ** One budget at a time *)

Section Laws.
Context {W : Type} `{Cluster W} `{!ClusterLaws W} (cmap : gmap string CephCluster).

Abbreviation stored w := (pdbs (snapshot w)).

(** Only the budgets with a key in [K] may differ between [w] and [w']. *)
Definition touches (K : list NamespacedName) (w w' : W) : Prop :=
  configmaps (snapshot w') = configmaps (snapshot w) /\
  crush_flags (snapshot w') = crush_flags (snapshot w) /\
  forall k, k ∉ K -> stored w' !! k = stored w !! k.

Lemma touches_refl K w w' : snapshot w' = snapshot w -> touches K w w'.
Proof. intros E. unfold touches. by rewrite E. Qed.

Lemma touches_insert k p w w' :
  snapshot w' = with_pdbs (snapshot w) (<[k := p]> (stored w)) ->
  touches [k] w w' /\ stored w' !! k = Some p.
Proof.
  intros E. unfold touches. rewrite E. simpl.
  split; [|apply lookup_insert_eq]. split_and!; [done..|].
  intros k' Hk%not_elem_of_cons. apply lookup_insert_ne. naive_solver.
Qed.

Lemma touches_delete k w w' :
  snapshot w' = with_pdbs (snapshot w) (delete k (stored w)) ->
  touches [k] w w' /\ stored w' !! k = None.
Proof.
  intros E. unfold touches. rewrite E. simpl.
  split; [|apply lookup_delete_eq]. split_and!; [done..|].
  intros k' Hk%not_elem_of_cons. apply lookup_delete_ne. naive_solver.
Qed.

Lemma touches_read K w w1 w' : snapshot w1 = snapshot w -> touches K w1 w' -> touches K w w'.
Proof. intros E. unfold touches. by rewrite E. Qed.

Lemma touches_mono K K' w w' : K ⊆ K' -> touches K w w' -> touches K' w w'.
Proof. unfold touches. set_solver. Qed.

Lemma touches_trans K w1 w2 w3 : touches K w1 w2 -> touches K w2 w3 -> touches K w1 w3.
Proof.
  intros (A1 & A2 & A3) (B1 & B2 & B3). split_and!; [congruence..|].
  intros k Hk. by rewrite B3, A3.
Qed.

Lemma touches_other k k' w w' : touches [k] w w' -> k' <> k -> stored w' !! k' = stored w !! k'.
Proof. intros (_ & _ & Ht) Hk. apply Ht. set_solver. Qed.

Lemma createPDB_fresh p w w' :
  stored w !! pdb_key p = None -> createPDB p w = (w', Ok ()) ->
  touches [pdb_key p] w w' /\ exists q, stored w' !! pdb_key p = Some q /\ pdb_spec q = pdb_spec p.
Proof.
  unfold createPDB. intros Hnone. destruct (create_pdb p w) as [w1 [[]|e]] eqn:E.
  - intros [= <-]. destruct (create_pdb_ok _ _ _ E) as (q & Hk & Hs & Hw).
    destruct (touches_insert _ _ _ _ Hw). naive_solver.
  - destruct (IsAlreadyExists e) eqn:He; [|done]. intros [= <-].
    destruct (create_pdb_exists _ _ _ _ E He) as [_ [? ?]]. congruence.
Qed.

Lemma deletePDB_ok k w w' :
  deletePDB k w = (w', Ok ()) -> touches [k] w w' /\ stored w' !! k = None.
Proof.
  unfold deletePDB. destruct (delete_pdb k w) as [w1 [[]|e]] eqn:E.
  - intros [= <-]. by apply touches_delete, delete_pdb_ok.
  - destruct (IsNotFound e) eqn:He; [|done]. intros [= <-].
    destruct (delete_pdb_notfound _ _ _ _ E He) as [E' Hnone].
    rewrite E'. split; [by apply touches_refl|done].
Qed.

(** Deleting a budget after reading it. *)
Lemma delete_if_found_ok k w w' (e1 : gerror -> gerror) :
  (r ← try_ (get_pdb k);
   match r with
   | Err e => if IsNotFound e then mret () else fail (e1 e)
   | Ok _ => deletePDB k
   end) w = (w', Ok ()) -> touches [k] w w' /\ stored w' !! k = None.
Proof.
  intros Hrun. inv_run. pose proof (run_reads _ _ _ _ (get_pdb_reads k) Hrun0) as Hs.
  destruct r as [q|e].
  - destruct (deletePDB_ok _ _ _ Hrun). split; [by eapply touches_read|done].
  - destruct (IsNotFound e) eqn:He; [|done]. inv_run.
    split; [by apply touches_refl|]. rewrite Hs. by eapply get_pdb_notfound.
Qed.

Lemma deleteBlocking_ok ns ft fd w w' :
  deleteBlockingPDBForOSD ns ft fd w = (w', Ok ()) ->
  touches [blockingPDBKey ns ft fd] w w' /\ stored w' !! blockingPDBKey ns ft fd = None.
Proof. apply delete_if_found_ok. Qed.

Lemma deleteDefault_ok ns w w' :
  deleteDefaultPDBforOSD ns w = (w', Ok ()) ->
  touches [defaultPDBKey ns] w w' /\ stored w' !! defaultPDBKey ns = None.
Proof. apply delete_if_found_ok. Qed.

(** The budget of [fd] that blocks every eviction, unless there was one before. *)
Definition blocked ns ft fd (old w : W) : Prop :=
  exists q, stored w !! blockingPDBKey ns ft fd = Some q /\
    (pdb_spec q = blockingPDBSpec ft fd \/ stored old !! blockingPDBKey ns ft fd = Some q).

Lemma createBlocking_ok ns ft fd w w' :
  createBlockingPDBForOSD cmap ns ft fd w = (w', Ok ()) ->
  touches [blockingPDBKey ns ft fd] w w' /\ blocked ns ft fd w w'.
Proof.
  unfold createBlockingPDBForOSD. destruct (cmap !! ns) as [c|]; [|done].
  intros Hrun. inv_run.
  destruct (set_controller_reference_ok _ _ _ H0) as [Hk Hsp]. simpl in Hk, Hsp.
  pose proof (run_reads _ _ _ _ (get_pdb_reads _) Hrun1) as Hs.
  destruct r as [q|e].
  - inv_run. split; [by apply touches_refl|]. exists q.
    rewrite Hs. split; [by eapply get_pdb_ok|]. right. by eapply get_pdb_ok.
  - destruct (IsNotFound e) eqn:He; [|done].
    pose proof (get_pdb_notfound _ _ _ _ Hrun1 He) as Hnone.
    destruct (createPDB_fresh _ _ _ ltac:(by rewrite Hk, Hs) Hrun) as [Ht (q & Hq & Hspec)].
    rewrite Hk in Ht, Hq. split; [by eapply touches_read|].
    exists q. split; [done|]. left. congruence.
Qed.

Lemma createDefault_ok ns excl w w' :
  createDefaultPDBforOSD cmap ns excl w = (w', Ok ()) ->
  touches [defaultPDBKey ns] w w' /\
  exists q, stored w' !! defaultPDBKey ns = Some q /\ pdb_spec q = defaultPDBSpec excl.
Proof.
  unfold createDefaultPDBforOSD. destruct (cmap !! ns) as [c|]; [|done].
  intros Hrun. inv_run.
  destruct (set_controller_reference_ok _ _ _ H0) as [Hk Hsp]. simpl in Hk, Hsp.
  pose proof (run_reads _ _ _ _ (get_pdb_reads _) Hrun1) as Hs.
  destruct r as [q|e].
  - inv_run. destruct (update_pdb_ok _ _ _ Hrun) as (st & Hstk & Hsts & Hw). simpl in Hstk, Hsts, Hw.
    rewrite (stored_pdb_key _ _ _ (get_pdb_ok _ _ _ _ Hrun1)) in *.
    destruct (touches_insert _ _ _ _ Hw) as [Ht Hl].
    split; [by eapply touches_read|]. exists st. split; [done|congruence].
  - destruct (IsNotFound e) eqn:He; [|done].
    pose proof (get_pdb_notfound _ _ _ _ Hrun1 He) as Hnone.
    destruct (createPDB_fresh _ _ _ ltac:(by rewrite Hk, Hs) Hrun) as [Ht (q & Hq & Hspec)].
    rewrite Hk in Ht, Hq. split; [by eapply touches_read|]. exists q. split; [done|congruence].
Qed.

(** ** All the budgets of the OSDs *)

(** No two of the failure domains share the name of their budget: the names are injective but
    for collisions of the hash that shortens long ones. *)
Definition names_distinct (ft : string) (fds : list string) : Prop :=
  forall a b, a ∈ fds -> b ∈ fds -> getPDBName ft a = getPDBName ft b -> a = b.

Lemma blockingPDBKey_ne ns ft fds a b :
  names_distinct ft fds -> a ∈ fds -> b ∈ fds -> a <> b ->
  blockingPDBKey ns ft a <> blockingPDBKey ns ft b.
Proof. intros Hinj Ha Hb Hab [= E]. by apply Hab, Hinj. Qed.

Lemma default_not_blocking ns ft fd :
  ft ∈ CRUSHMapLevelsOrdered -> defaultPDBKey ns <> blockingPDBKey ns ft fd.
Proof.
  intros Hft [= E]. apply (f_equal len) in E. revert E.
  unfold getPDBName, TruncateNodeName, truncateNodeName.
  set (arg := if _ <? _ then Hash fd else fd). assert (0 <= len arg) as Harg by apply len_nonneg.
  assert (exists a b, split_verb (osdPDBAppName +:+ "-" +:+ ft +:+ "-" +:+ "%s") = Some (a, b) /\
            len osdPDBAppName < len (Sprintf1 (osdPDBAppName +:+ "-" +:+ ft +:+ "-" +:+ "%s") ""))
    as (a & b & Hsplit & Hlen).
  { clear arg Harg. unfold CRUSHMapLevelsOrdered in Hft. repeat setoid_rewrite elem_of_cons in Hft.
    repeat destruct Hft as [->|Hft]; [by do 2 eexists; split; vm_compute..|].
    by apply elem_of_nil in Hft. }
  destruct (_ <? _); rewrite (Sprintf1_len _ _ _ _ Hsplit).
  all: pose proof (len_nonneg (Hash fd)); pose proof (len_nonneg fd); lia.
Qed.

Definition blocking_keys ns ft fds : list NamespacedName := blockingPDBKey ns ft <$> fds.

(** Each stored blocking budget is an old one or has the specification of its domain. *)
Definition proper_blocking ns ft (fds : list string) (old w : W) : Prop :=
  forall fd q, fd ∈ fds -> stored w !! blockingPDBKey ns ft fd = Some q ->
    pdb_spec q = blockingPDBSpec ft fd \/ stored old !! blockingPDBKey ns ft fd = Some q.

Definition domain_done ns ft (draining fd : string) (w : W) : Prop :=
  if String.eqb fd draining then stored w !! blockingPDBKey ns ft fd = None
  else is_Some (stored w !! blockingPDBKey ns ft fd).

Lemma active_step ns ft fds draining fd old w w' :
  names_distinct ft fds -> fd ∈ fds ->
  touches (blocking_keys ns ft fds) old w /\ proper_blocking ns ft fds old w ->
  (if String.eqb fd draining then deleteBlockingPDBForOSD ns ft fd
   else createBlockingPDBForOSD cmap ns ft fd) w = (w', Ok ()) ->
  (touches (blocking_keys ns ft fds) old w' /\ proper_blocking ns ft fds old w') /\
  touches [blockingPDBKey ns ft fd] w w' /\ domain_done ns ft draining fd w'.
Proof.
  intros Hinj Hfd [Ht Hp] Hrun.
  assert (touches [blockingPDBKey ns ft fd] w w' /\ domain_done ns ft draining fd w' /\
          forall q, stored w' !! blockingPDBKey ns ft fd = Some q ->
             pdb_spec q = blockingPDBSpec ft fd \/ stored w !! blockingPDBKey ns ft fd = Some q)
    as (Hk & Hd & Hq).
  { unfold domain_done. destruct (String.eqb fd draining).
    - destruct (deleteBlocking_ok _ _ _ _ _ Hrun) as [? E]. rewrite E. naive_solver.
    - destruct (createBlocking_ok _ _ _ _ _ Hrun) as [? (q & E & Hq)]. rewrite E.
      split_and!; [done|by eexists|]. intros q' [= <-]. done. }
  split_and!; [| |done..].
  - eapply touches_trans; [done|]. eapply touches_mono; [|done].
    intros k ->%list_elem_of_singleton. by apply list_elem_of_fmap_2.
  - intros fd' q Hfd' E. destruct (decide (fd' = fd)) as [->|Hne]; [naive_solver|].
    rewrite (touches_other _ _ _ _ Hk) in E by (by eapply blockingPDBKey_ne). by apply Hp.
Qed.

Lemma touches_stable ns ft fds draining x y w w' :
  names_distinct ft fds -> x ∈ fds -> y ∈ fds -> x <> y ->
  touches [blockingPDBKey ns ft y] w w' ->
  domain_done ns ft draining x w -> domain_done ns ft draining x w'.
Proof.
  intros Hinj Hx Hy Hxy Ht. unfold domain_done.
  by rewrite (touches_other _ _ _ _ Ht) by (by eapply blockingPDBKey_ne).
Qed.

Lemma default_key_fresh ns ft fds :
  ft ∈ CRUSHMapLevelsOrdered -> defaultPDBKey ns ∉ blocking_keys ns ft fds.
Proof. intros Hft (fd & E & _)%list_elem_of_fmap. by apply default_not_blocking in E. Qed.

Lemma active_loop ns ft fds draining w w' :
  names_distinct ft fds ->
  forM_ fds (fun fd =>
    if String.eqb fd draining then
      wrapM (deleteBlockingPDBForOSD ns ft fd)
        "failed to delete blocking pdb for %q failure domain %q" [ft; fd]
    else wrapM (createBlockingPDBForOSD cmap ns ft fd)
           "failed to create blocking pdb for %q failure domain %q" [ft; fd]) w = (w', Ok ()) ->
  (touches (blocking_keys ns ft fds) w w' /\ proper_blocking ns ft fds w w') /\
  forall fd, fd ∈ fds -> domain_done ns ft draining fd w'.
Proof.
  intros Hinj. set (f := fun fd => _).
  assert (forall fd v v', f fd v = (v', Ok ()) ->
    (if String.eqb fd draining then deleteBlockingPDBForOSD ns ft fd
     else createBlockingPDBForOSD cmap ns ft fd) v = (v', Ok ())) as Hf.
  { intros fd v v'. unfold f. by destruct (String.eqb fd draining); rewrite wrapM_ok. }
  intros Hrun.
  eapply (forM_ok f fds
    (fun v => touches (blocking_keys ns ft fds) w v /\ proper_blocking ns ft fds w v)
    (domain_done ns ft draining)); [| | |exact Hrun].
  - intros fd v v' Hfd HI ?%Hf. by edestruct active_step as (? & _ & ?).
  - intros x y v v' Hx Hy HI HP ?%Hf.
    edestruct (active_step ns ft fds draining y) as (_ & Ht & Hdone); [done..|].
    destruct (decide (x = y)) as [->|Hne]; [done|]. by eapply touches_stable.
  - split; [by apply touches_refl|]. intros fd q _ E. by right.
Qed.

(** When [handleActiveDrains] succeeds, the draining failure domain has no budget, so its
    pods may be evicted, each other failure domain has one that allows no eviction (made to its
    specification unless one was stored before), the default budget is gone, and no other budget,
    config map or CRUSH flag has changed. *)
Lemma handleActiveDrains_ok ns ft fds draining w w' :
  ft ∈ CRUSHMapLevelsOrdered -> names_distinct ft fds ->
  handleActiveDrains cmap fds draining ft ns w = (w', Ok ()) ->
  (draining ∈ fds -> stored w' !! blockingPDBKey ns ft draining = None) /\
  (forall fd, fd ∈ fds -> fd <> draining -> blocked ns ft fd w w') /\
  stored w' !! defaultPDBKey ns = None /\
  touches (defaultPDBKey ns :: blocking_keys ns ft fds) w w'.
Proof.
  intros Hft Hinj Hrun. unfold handleActiveDrains in Hrun. inv_run.
  destruct (active_loop _ _ _ _ _ _ Hinj Hrun0) as [[Ht Hp] Hd].
  destruct (deleteDefault_ok _ _ _ Hrun) as [Ht' Hnone].
  assert (forall fd, stored w' !! blockingPDBKey ns ft fd = stored w0 !! blockingPDBKey ns ft fd) as E.
  { intros fd. apply (touches_other _ _ _ _ Ht'). by apply not_eq_sym, default_not_blocking. }
  split_and!; [| |done|].
  - intros Hin. specialize (Hd _ Hin). unfold domain_done in Hd. by rewrite String.eqb_refl, <- E in Hd.
  - intros fd Hin Hne. specialize (Hd _ Hin). unfold domain_done in Hd.
    rewrite (proj2 (String.eqb_neq fd draining)), <- E in Hd by done. destruct Hd as [q Hq].
    exists q. split; [done|]. rewrite E in Hq. by apply Hp.
  - eapply touches_trans; eapply touches_mono; [|done| |done]; set_solver.
Qed.

(** When [handleInactiveDrains] succeeds, the default budget is stored with its
    specification, no failure domain has a blocking budget, and no other budget, config map or
    CRUSH flag has changed. *)
Lemma handleInactiveDrains_ok ns ft fds excl w w' :
  ft ∈ CRUSHMapLevelsOrdered ->
  handleInactiveDrains cmap fds ft ns excl w = (w', Ok ()) ->
  (exists q, stored w' !! defaultPDBKey ns = Some q /\ pdb_spec q = defaultPDBSpec excl) /\
  (forall fd, fd ∈ fds -> stored w' !! blockingPDBKey ns ft fd = None) /\
  touches (defaultPDBKey ns :: blocking_keys ns ft fds) w w'.
Proof.
  intros Hft Hrun. unfold handleInactiveDrains in Hrun. inv_run.
  destruct (createDefault_ok _ _ _ _ Hrun0) as [Ht (q & Hq & Hspec)].
  assert (touches (blocking_keys ns ft fds) w0 w' /\
          forall fd, fd ∈ fds -> stored w' !! blockingPDBKey ns ft fd = None) as [Ht' Hd].
  { eapply (forM_ok _ fds (touches (blocking_keys ns ft fds) w0)
              (fun fd v => stored v !! blockingPDBKey ns ft fd = None)); [| | |exact Hrun].
    - intros fd v v' Hfd HI (Hv & ?)%wrapM_ok%deleteBlocking_ok. split; [|done].
      eapply touches_trans; [done|]. eapply touches_mono; [|done].
      intros k ->%list_elem_of_singleton. by apply list_elem_of_fmap_2.
    - intros x y v v' _ _ _ Hx (Hv & Hy)%wrapM_ok%deleteBlocking_ok.
      destruct (decide (blockingPDBKey ns ft x = blockingPDBKey ns ft y)) as [->|Hne]; [done|].
      by rewrite (touches_other _ _ _ _ Hv).
    - by apply touches_refl. }
  split_and!; [|done|].
  - exists q. split; [|done]. destruct Ht' as (_ & _ & ->); [done|]. by apply default_key_fresh.
  - eapply touches_trans; eapply touches_mono; [|done| |done]; set_solver.
Qed.

End Laws.

(** ** Noout *)

Section Noout.
Context {W : Type} `{Cluster W} `{!ClusterLaws W}.

Abbreviation flags w := (crush_flags (snapshot w)).

(** Budgets and config maps are the same, and so are the flags of the units outside [U]. *)
Definition flags_only (U : list string) (w w' : W) : Prop :=
  pdbs (snapshot w') = pdbs (snapshot w) /\ configmaps (snapshot w') = configmaps (snapshot w) /\
  forall u, u ∉ U -> flags w' !! u = flags w !! u.

Lemma flags_only_refl U w w' : snapshot w' = snapshot w -> flags_only U w w'.
Proof. intros E. unfold flags_only. by rewrite E. Qed.

Lemma flags_only_trans U U' w1 w2 w3 :
  flags_only U w1 w2 -> flags_only U' w2 w3 -> flags_only (U ++ U') w1 w3.
Proof.
  intros (A & B & C) (A' & B' & C'). split_and!; [congruence..|].
  intros u Hu%not_elem_of_app. rewrite C', C; naive_solver.
Qed.

Lemma flags_only_read U w w1 w' : snapshot w1 = snapshot w -> flags_only U w1 w' -> flags_only U w w'.
Proof. intros E. unfold flags_only. by rewrite E. Qed.

Lemma flags_only_insert u l w w' :
  snapshot w' = with_flags (snapshot w) (<[u := l]> (flags w)) ->
  flags_only [u] w w' /\ flags w' !! u = Some l.
Proof.
  intros E. unfold flags_only. rewrite E. simpl. split; [|apply lookup_insert_eq].
  split_and!; [done..|]. intros k Hk%not_elem_of_cons. apply lookup_insert_ne. naive_solver.
Qed.

Lemma UpdateFlag_ok dump set u flag w w' b :
  dump !! u = flags w !! u ->
  UpdateFlagOnCrushUnit dump set u flag w = (w', Ok b) ->
  flags_only [u] w w' /\ (flag_set (snapshot w') u flag <-> set = true).
Proof.
  intros Hdump. unfold UpdateFlagOnCrushUnit, IsFlagSetOnCrushUnit, flag_set. rewrite Hdump.
  case_bool_decide as Hin; destruct set; simpl; intros Hrun; inv_run.
  - split; [by apply flags_only_refl|naive_solver].
  - destruct (flags_only_insert _ _ _ _ (ceph_unset_group_ok _ _ _ _ Hrun0)) as [? ->].
    split; [done|]. simpl. split; [|done]. by intros [? _]%list_elem_of_filter.
  - destruct (flags_only_insert _ _ _ _ (ceph_set_group_ok _ _ _ _ Hrun0)) as [? ->].
    split; [done|]. simpl. set_solver.
  - split; [by apply flags_only_refl|naive_solver].
Qed.

(** [fd] is under maintenance: it is the draining failure domain, and its nodes are drained. *)
Definition maintained (data : gmap string string) (fd : string) : Prop :=
  read data drainingFailureDomainKey = fd /\ read data setNoOut = "true".

Lemma maintained_spec data fd :
  String.eqb (read data drainingFailureDomainKey) fd && String.eqb (read data setNoOut) "true" = true <->
  maintained data fd.
Proof. unfold maintained. by rewrite andb_true_iff, !String.eqb_eq. Qed.

(** What the loop leaves for one failure domain, in a run from [w] to [w']. *)
Definition noout_done (mt : Z) (data data' : gmap string string) (fd : string) (w w' : W) : Prop :=
  (~ maintained data fd ->
     ~ flag_set (snapshot w') fd nooutFlag /\ data' !! nooutKey fd = None) /\
  (maintained data fd ->
     exists since now, Parse (read data' (nooutKey fd)) = Some since /\ clock_read w w' now /\
       (flag_set (snapshot w') fd nooutFlag <-> now - since < mt)).

Definition noout_step (mt : Z) dump data fd : M W (gmap string string * result unit) :=
  if String.eqb (read data drainingFailureDomainKey) fd && String.eqb (read data setNoOut) "true"
  then noout_draining mt dump data fd
  else ensure_noout_unset dump data fd.

(** All of it goes by calls of the cluster. *)
Lemma UpdateFlag_calls dump set u flag : calls_only (UpdateFlagOnCrushUnit dump set u flag).
Proof. unfold UpdateFlagOnCrushUnit. solve_calls. Qed.

#[local] Hint Resolve UpdateFlag_calls : calls_only.

Lemma noout_step_calls mt dump data fd : calls_only (noout_step mt dump data fd).
Proof. unfold noout_step, noout_draining, ensure_noout_unset. solve_calls. Qed.

Lemma noout_loop_calls mt dump data fds : calls_only (noout_loop mt dump data fds).
Proof.
  revert data. induction fds as [|fd fds IH]; intros data; [apply calls_ret|].
  apply calls_bind; [apply noout_step_calls|]. intros [data' [[]|e]]; [apply IH|apply calls_ret].
Qed.

Lemma ensure_noout_unset_ok dump data fd w w' data' :
  dump !! fd = flags w !! fd ->
  ensure_noout_unset dump data fd w = (w', Ok (data', Ok ())) ->
  flags_only [fd] w w' /\ ~ flag_set (snapshot w') fd nooutFlag /\
  data' = delete (nooutKey fd) data.
Proof.
  intros Hdump Hrun. unfold ensure_noout_unset in Hrun. inv_run. destruct r as [?|?]; inv_run.
  destruct (UpdateFlag_ok _ _ _ _ _ _ _ Hdump Hrun0) as [Hf Hset]. naive_solver.
Qed.

(** The time stamp is written when there is none, and kept otherwise. *)
Lemma noout_draining_ok mt dump data fd w w' data' :
  dump !! fd = flags w !! fd ->
  noout_draining mt dump data fd w = (w', Ok (data', Ok ())) ->
  flags_only [fd] w w' /\
  (exists since now, Parse (read data' (nooutKey fd)) = Some since /\ clock_read w w' now /\
    (flag_set (snapshot w') fd nooutFlag <-> now - since < mt)) /\
  (forall k, k <> nooutKey fd -> data' !! k = data !! k).
Proof.
  intros Hdump Hrun. unfold noout_draining in Hrun. inv_run.
  assert (snapshot w0 = snapshot w /\ forall k, k <> nooutKey fd -> a !! k = data !! k) as [Hs Hk].
  { destruct (String.eqb _ _); inv_run; [|done].
    split; [by eapply run_reads; [apply time_now_reads|]|]. intros k Hk. by apply lookup_insert_ne. }
  destruct (Parse _) as [since|] eqn:Hparse; inv_run. destruct r as [?|?]; inv_run.
  pose proof (run_reads _ _ _ _ time_now_reads Hrun1) as Hs'.
  destruct (UpdateFlag_ok dump (negb (mt <=? a0 - since)) fd nooutFlag w1 w' a1) as [Hf Hset];
    [by rewrite Hs', Hs|exact Hrun2|].
  split_and!; [by eapply flags_only_read; [|done]; congruence| |done].
  exists since, a0. split_and!; [done| |rewrite Hset; lia].
  exists w0, w1. split_and!; [|done|by eapply run_calls; [apply UpdateFlag_calls|]].
  eapply run_calls; [|exact Hrun0]. solve_calls.
Qed.

Lemma noout_step_ok mt dump data fd w w' data' :
  dump !! fd = flags w !! fd ->
  noout_step mt dump data fd w = (w', Ok (data', Ok ())) ->
  flags_only [fd] w w' /\ noout_done mt data data' fd w w' /\
  (forall k, k <> nooutKey fd -> data' !! k = data !! k).
Proof.
  intros Hdump Hrun. unfold noout_step in Hrun. unfold noout_done.
  destruct (_ && _) eqn:E.
  - destruct (noout_draining_ok _ _ _ _ _ _ _ Hdump Hrun) as (? & ? & ?).
    apply maintained_spec in E. split_and!; [done|done|done|done].
  - destruct (ensure_noout_unset_ok _ _ _ _ _ _ Hdump Hrun) as (? & ? & ->).
    rewrite <- maintained_spec, E. split_and!; [done| |done|].
    + intros _. split; [done|apply lookup_delete_eq].
    + intros. by apply lookup_delete_ne.
Qed.

(** The keys of the time stamps are not those of the drain state. *)
Lemma nooutKey_inj a b : nooutKey a = nooutKey b -> a = b.
Proof. apply app_string_inj_r. Qed.

Lemma nooutKey_state fd :
  nooutKey fd <> drainingFailureDomainKey /\ nooutKey fd <> setNoOut /\
  nooutKey fd <> drainingFailureDomainDurationKey.
Proof.
  unfold nooutKey, drainingFailureDomainKey, setNoOut, drainingFailureDomainDurationKey.
  split_and!; (do 16 (destruct fd as [|? fd]; [done|])); intros E;
    apply (f_equal String.length) in E; simpl in E; rewrite length_app_string in E; simpl in E; lia.
Qed.

Lemma maintained_frame data data' fd fd' :
  (forall k, k <> nooutKey fd -> data' !! k = data !! k) ->
  maintained data' fd' <-> maintained data fd'.
Proof.
  intros Hk. unfold maintained, read. destruct (nooutKey_state fd) as (? & ? & _).
  by rewrite !Hk by done.
Qed.

Lemma noout_done_frame mt data data1 data2 fd w0 w w1 w2 :
  passes w0 w -> passes w1 w2 ->
  flag_set (snapshot w2) fd nooutFlag <-> flag_set (snapshot w1) fd nooutFlag ->
  data2 !! nooutKey fd = data1 !! nooutKey fd ->
  noout_done mt data data1 fd w w1 -> noout_done mt data data2 fd w0 w2.
Proof.
  unfold noout_done, read. intros H0 H1 Hf Hk. rewrite Hk. setoid_rewrite Hf. intros [Hn Hm].
  split; [done|]. intros (since & now & Hp & Hc & Hs)%Hm. exists since, now.
  split_and!; [done|by eapply clock_read_wider|done].
Qed.

Lemma noout_loop_ok mt dump data fds w w' data' :
  NoDup fds -> (forall fd, fd ∈ fds -> dump !! fd = flags w !! fd) ->
  noout_loop mt dump data fds w = (w', Ok (data', Ok ())) ->
  flags_only fds w w' /\ (forall fd, fd ∈ fds -> noout_done mt data data' fd w w') /\
  (forall k, (forall fd, fd ∈ fds -> k <> nooutKey fd) -> data' !! k = data !! k).
Proof.
  revert data w. induction fds as [|fd fds IH]; intros data w Hnd Hdump Hrun.
  - simpl in Hrun. inv_run. split_and!; [by apply flags_only_refl|set_solver|done].
  - apply NoDup_cons in Hnd as [Hfd Hnd]. cbn [noout_loop] in Hrun.
    apply M_bind_ok in Hrun as (w1 & [data1 r1] & Hstep & Hrun).
    destruct r1 as [[]|e]; [|by inv_run].
    destruct (noout_step_ok mt dump data fd w w1 data1) as (Hf & Hd & Hk); [set_solver|exact Hstep|].
    pose proof (run_calls _ _ _ _ (noout_step_calls _ _ _ _) Hstep) as Hp.
    pose proof (run_calls _ _ _ _ (noout_loop_calls _ _ _ _) Hrun) as Hp'.
    destruct (IH data1 w1 Hnd) as (Hf' & Hd' & Hk'); [|exact Hrun|].
    { intros u Hu. rewrite Hdump by set_solver. symmetry. apply Hf. set_solver. }
    split_and!.
    + by apply (flags_only_trans [fd] fds w w1 w').
    + intros u [->|Hu]%elem_of_cons.
      * eapply noout_done_frame; [reflexivity|exact Hp'| | |exact Hd].
        -- unfold flag_set. destruct Hf' as (_ & _ & ->); [done|done].
        -- apply Hk'. intros v Hv E%nooutKey_inj. by subst.
      * eapply (noout_done_frame _ _ data'); [exact Hp|reflexivity|done|done|].
        specialize (Hd' _ Hu). unfold noout_done in *.
        by rewrite !(maintained_frame data data1 fd u) in Hd' by done.
    + intros k Hkeys. rewrite Hk', Hk; [done|apply Hkeys; set_solver|].
      intros v Hv. apply Hkeys. set_solver.
Qed.

(** When [updateNoout] succeeds, a failure domain has the noout flag exactly when it is the
    draining one, its nodes are drained, and less than the maintenance timeout has passed since
    the time stamp kept for it; the others have neither flag nor time stamp; budgets, config
    maps, the flags of other CRUSH units and the rest of the drain state are as before. *)
Lemma updateNoout_ok mt ns data fds w w' data' :
  NoDup fds ->
  updateNoout mt ns data fds w = (w', Ok (data', Ok ())) ->
  (forall fd, fd ∈ fds -> noout_done mt data data' fd w w') /\
  flags_only fds w w' /\
  (forall fd, maintained data' fd <-> maintained data fd) /\
  (forall k, (forall fd, fd ∈ fds -> k <> nooutKey fd) -> data' !! k = data !! k).
Proof.
  intros Hnd Hrun. unfold updateNoout in Hrun. inv_run. destruct r as [dump|e]; [|by inv_run].
  pose proof (run_reads _ _ _ _ ceph_osd_dump_reads Hrun0) as Hs.
  pose proof (ceph_osd_dump_ok _ _ _ Hrun0) as ->.
  destruct (noout_loop_ok _ _ _ _ _ _ _ Hnd ltac:(by rewrite Hs) Hrun) as (Hf & Hd & Hk).
  apply run_calls in Hrun0 as Hp; [|solve_calls].
  split_and!; [|by eapply flags_only_read| |done].
  { intros fd Hfd. eapply noout_done_frame; [exact Hp|reflexivity|done|done|by apply Hd]. }
  intros fd. unfold maintained, read.
  by rewrite !Hk by (intros v _; by destruct (nooutKey_state v) as (? & ? & _); apply not_eq_sym).
Qed.

End Noout.

(** ** A small cluster, for the witnesses *)

Lemma names_distinct_NoDup ft fds : NoDup (getPDBName ft <$> fds) -> names_distinct ft fds.
Proof.
  intros Hnd a b [i Hi]%list_elem_of_lookup [j Hj]%list_elem_of_lookup E.
  assert (i = j) as ->; [|congruence].
  eapply (NoDup_lookup _ i j (getPDBName ft b)); [exact Hnd|..]; rewrite list_lookup_fmap.
  - by rewrite Hi, <- E.
  - by rewrite Hj.
Qed.

Definition demo_key (name : string) : NamespacedName := {| Namespace := "rook-ceph"; Name := name |}.

Definition demo_cluster : CephCluster :=
  {| cluster_key := demo_key "my-cluster";
     cluster_owner := {| owner_kind := "CephCluster"; owner_name := "my-cluster"; owner_uid := "1" |};
     DisruptionManagement :=
       {| ManagePodBudgets := true; OSDMaintenanceTimeout := 0; PGHealthyRegex := "" |} |}.

Definition demo_map : gmap string CephCluster := {[ "rook-ceph" := demo_cluster ]}.

Definition demo_osd (id : Z) (host : string) (ready : Z) : Deployment :=
  {| dep_namespace := "rook-ceph"; dep_name := "rook-ceph-osd-" +:+ Itoa id;
     dep_labels := list_to_map [("app", "rook-ceph-osd"); ("ceph-osd-id", Itoa id);
                                ("topology-location-host", host)];
     dep_annotations := ∅; CreationTimestamp := 0; Replicas := Some 1; ProgressDeadlineSeconds := None;
     Template := empty_template; ObservedGeneration := 1; UpdatedReplicas := 1; ReadyReplicas := ready;
     dep_conditions := [] |}.

(** Three hosts with an OSD each; host [a] is cordoned and its OSD is down. *)
Definition demo : SimWorld :=
  {| sim_pdbs := ∅; sim_configmaps := ∅; sim_flags := ∅;
     sim_deployments := [demo_osd 0 "a" 0; demo_osd 1 "b" 1; demo_osd 2 "c" 1];
     sim_nodes := list_to_map [("a", {| nodeobj_name := "a"; Unschedulable := true |})];
     sim_clusters := [demo_cluster];
     sim_pools := [{| FailureDomain := "host" |}];
     sim_filesystems := []; sim_stores := [];
     sim_status := {| PgsByState := [{| StateName := "active+undersized"; Count := 8 |}]; NumPgs := 8 |};
     sim_metadata := [{| osd_id := 0; HostName := "a"; Devices := "sdb" |}];
     sim_clock := 1785542400000000000 |}.

End DisruptionProofs.
