(* ===== verification/Domains.v ===== *)
(** * Domains: failure domains, static budgets and selectors of the disruption controller

    Which failure domains [getOSDFailureDomains] reports, which one [getMinimumFailureDomain]
    chooses for the pools, which pods the budgets of the OSDs select, and what the budgets of
    gateways and metadata servers are after a reconcile. *)

From stdpp Require Import base gmap strings list fin_maps sorting.
From Stdlib Require Import ZArith Ascii.
From S2P Require Import Prelude Names GoTime Topology Kube Disruption DisruptionProofs.
Import ObjectName GoTime Topology Disruption DisruptionProofs.
Open Scope Z_scope.

Module Domains.

(** ** Health of the placement groups *)

Definition total (l : list PgStateEntry) : Z := foldr (fun pg n => Count pg + n) 0 l.

Definition healthy_count (healthy : string -> bool) (l : list PgStateEntry) : Z :=
  total (List.filter (fun pg => healthy (StateName pg)) l).

Lemma total_nonneg l : Forall (fun pg => 0 <= Count pg) l -> 0 <= total l.
Proof. induction 1; simpl; lia. Qed.

Lemma healthy_count_le healthy l :
  Forall (fun pg => 0 <= Count pg) l ->
  0 <= healthy_count healthy l <= total l /\
  (healthy_count healthy l = total l <-> forall pg, pg ∈ l -> 0 < Count pg -> healthy (StateName pg) = true).
Proof.
  unfold healthy_count. induction 1 as [|pg l Hpg Hl [Hle IH]]; simpl.
  - split; [lia|]. split; [|done]. intros _ pg Hpg. by apply elem_of_nil in Hpg.
  - destruct (healthy (StateName pg)) eqn:E; simpl.
    + split; [lia|]. split.
      * intros Heq p Hp. apply elem_of_cons in Hp as [->|Hp]; [done|]. apply IH; [lia|done].
      * intros Hall. rewrite (proj2 IH); [done|]. intros p Hp. apply Hall. by right.
    + split; [lia|]. split.
      * intros Heq. assert (Count pg = 0) by lia. intros p Hp. apply elem_of_cons in Hp as [->|Hp]; [lia|].
        apply IH; [lia|done].
      * intros Hall. assert (Count pg = 0).
        { destruct (Z.eq_dec (Count pg) 0); [done|]. rewrite Hall in E; [done|by left|lia]. }
        rewrite (proj2 IH); [lia|]. intros p Hp. apply Hall. by right.
Qed.

Lemma clean_fold (healthy : string -> bool) l n :
  Forall (fun pg => 0 <= Count pg) l -> 0 <= n -> n + total l <= max_int64 ->
  foldl (fun n pg => if healthy (StateName pg) then wrap64 (n + Count pg) else n) n l =
  n + healthy_count healthy l.
Proof.
  unfold healthy_count. intros Hl. revert n. induction Hl as [|pg l Hpg Hl IH]; intros n Hn Hmax; simpl in *; [lia|].
  pose proof (total_nonneg _ Hl). destruct (healthy (StateName pg)); simpl.
  - rewrite wrap64_id by (unfold in_int64, min_int64; lia). rewrite IH by lia. lia.
  - apply IH; lia.
Qed.

(** For a status whose counts add up to the number of placement groups, [isClusterClean] is
    true exactly when every state that a placement group is in matches the expression of healthy
    states. *)
Theorem isClusterClean_all status healthy :
  Forall (fun pg => 0 <= Count pg) (PgsByState status) ->
  total (PgsByState status) = NumPgs status -> NumPgs status <= max_int64 ->
  isClusterClean status healthy = true <->
  forall pg, pg ∈ PgsByState status -> 0 < Count pg -> healthy (StateName pg) = true.
Proof.
  intros Hnn Htot Hmax. destruct (healthy_count_le healthy _ Hnn) as [Hle Hiff]. rewrite <- Hiff.
  unfold isClusterClean. destruct (Z.eqb_spec (NumPgs status) 0) as [E|E]; [lia|].
  rewrite clean_fold by (done || lia). rewrite Z.eqb_eq. lia.
Qed.

Lemma isClusterClean_all_witness :
  isClusterClean {| PgsByState := [{| StateName := "active+clean"; Count := 30 |};
                                   {| StateName := "active+clean+scrubbing+deep"; Count := 2 |}];
                    NumPgs := 32 |} defaultPgHealthyRegex = true.
Proof.
  apply isClusterClean_all.
  - repeat constructor; simpl; lia.
  - reflexivity.
  - vm_compute. discriminate.
  - intros pg Hpg _. revert pg Hpg. apply Forall_forall. repeat constructor.
Defined.

(** ** The failure domain of the pools *)

(** The scan of one pool: the index of its level when that is not above the minimum so far. *)
Lemma scan_levels_spec fd i levels min matched :
  NoDup levels ->
  scan_levels fd i levels (min, matched) =
  match list_find (fun l => l = fd) levels with
  | Some (j, _) => if (i + j <=? min)%nat then ((i + j)%nat, true) else (min, matched)
  | None => (min, matched)
  end.
Proof.
  revert i min matched. induction levels as [|l levels IH]; intros i min matched Hnd; [done|].
  apply NoDup_cons in Hnd as [Hl Hnd]. cbn [scan_levels list_find].
  destruct (Nat.ltb_spec min i) as [Hlt|Hle].
  - destruct (decide (l = fd)) as [->|Hne].
    + by rewrite (proj2 (Nat.leb_gt (i + 0) min)) by lia.
    + destruct (list_find _ levels) as [[j x]|]; simpl; [|done].
      by rewrite (proj2 (Nat.leb_gt (i + S j) min)) by lia.
  - destruct (String.eqb_spec fd l) as [->|Hne]; rewrite IH by done.
    + rewrite decide_True by done. rewrite Nat.add_0_r, (proj2 (Nat.leb_le i min)) by lia.
      rewrite (proj2 (list_find_None _ levels)); [done|].
      apply Forall_forall. intros x Hx ->. done.
    + rewrite decide_False by congruence.
      destruct (list_find _ levels) as [[j x]|]; simpl; [|done]. by rewrite Nat.add_succ_r.
Qed.

Lemma levels_NoDup : NoDup CRUSHMapLevelsOrdered.
Proof. apply (bool_decide_unpack _). vm_compute. exact I. Qed.

(** The lowest CRUSH level that is the failure domain of a pool. *)
Definition lowest_level (pools : list PoolSpec) : option (nat * string) :=
  list_find (fun l => l ∈ FailureDomain <$> pools) CRUSHMapLevelsOrdered.

Definition min_inv (pools : list PoolSpec) (st : nat * bool) : Prop :=
  match lowest_level pools with
  | Some (i, _) => st = (i, true)
  | None => st = ((length CRUSHMapLevelsOrdered - 1)%nat, false)
  end.

Lemma lowest_level_snoc pools p :
  lowest_level (pools ++ [p]) =
  match lowest_level pools, list_find (fun l => l = FailureDomain p) CRUSHMapLevelsOrdered with
  | Some (i, x), Some (j, y) => if (j <=? i)%nat then Some (j, y) else Some (i, x)
  | Some r, None | None, Some r => Some r
  | None, None => None
  end.
Proof.
  unfold lowest_level. generalize CRUSHMapLevelsOrdered as L. intros L.
  assert (forall l, l ∈ FailureDomain <$> pools ++ [p] <-> l ∈ FailureDomain <$> pools \/ l = FailureDomain p) as Hin.
  { intros l. rewrite fmap_app, elem_of_app. simpl. by rewrite list_elem_of_singleton. }
  rewrite (list_find_ext _ (fun l => l ∈ FailureDomain <$> pools \/ l = FailureDomain p) L Hin).
  clear Hin. destruct (list_find (fun l => l ∈ _) L) as [[i x]|] eqn:E1;
    destruct (list_find (fun l => l = _) L) as [[j y]|] eqn:E2.
  - apply list_find_Some in E1 as (A1 & A2 & A3), E2 as (B1 & B2 & B3).
    destruct (Nat.leb_spec j i); apply list_find_Some; (split_and!; [done|auto|]);
      intros k z Hk Hlt [Hz|Hz]; first [by apply (A3 k z); [|lia|] | by apply (B3 k z); [|lia|]].
  - apply list_find_Some in E1 as (A1 & A2 & A3). rewrite list_find_None, Forall_forall in E2.
    apply list_find_Some. split_and!; [done|auto|].
    intros k z Hk Hlt [Hz|Hz]; [by eapply A3|]. eapply E2; [by eapply list_elem_of_lookup_2|done].
  - apply list_find_Some in E2 as (A1 & A2 & A3). rewrite list_find_None, Forall_forall in E1.
    apply list_find_Some. split_and!; [done|auto|].
    intros k z Hk Hlt [Hz|Hz]; [|by eapply A3]. eapply E1; [by eapply list_elem_of_lookup_2|done].
  - rewrite list_find_None, Forall_forall in E1, E2. apply list_find_None, Forall_forall.
    naive_solver.
Qed.

Lemma scan_pools_inv pools :
  min_inv pools
    (foldl (fun st pool => scan_levels (FailureDomain pool) 0 CRUSHMapLevelsOrdered st)
       ((length CRUSHMapLevelsOrdered - 1)%nat, false) pools).
Proof.
  induction pools as [|p pools IH] using rev_ind; [done|].
  rewrite foldl_snoc. destruct (foldl _ _ pools) as [min matched].
  rewrite scan_levels_spec by apply levels_NoDup.
  unfold min_inv in *. rewrite lowest_level_snoc. simpl Nat.add.
  destruct (list_find (fun l => l = FailureDomain p) CRUSHMapLevelsOrdered) as [[j y]|] eqn:E2;
    destruct (lowest_level pools) as [[i x]|]; simplify_eq; try done.
  - by destruct (Nat.leb_spec j i).
  - apply list_find_Some in E2 as (Hj%lookup_lt_Some & _).
    by rewrite (proj2 (Nat.leb_le j _)) by lia.
Qed.

(** The failure domain used for the budgets of the OSDs is the lowest CRUSH level that some
    pool has as its failure domain, and the host when no pool has a known one. *)
Theorem getMinimumFailureDomain_lowest pools :
  getMinimumFailureDomain pools = default DefaultFailureDomain (snd <$> lowest_level pools).
Proof.
  destruct pools as [|p pools]; [done|]. unfold getMinimumFailureDomain.
  pose proof (scan_pools_inv (p :: pools)) as Hinv. unfold min_inv in Hinv.
  destruct (foldl _ _ _) as [min matched]. destruct (lowest_level (p :: pools)) as [[i x]|] eqn:E; simplify_eq.
  - apply list_find_Some in E as (-> & _). done.
  - done.
Qed.

Lemma getMinimumFailureDomain_level pools : getMinimumFailureDomain pools ∈ CRUSHMapLevelsOrdered.
Proof.
  destruct pools as [|p pools]; [by left|]. unfold getMinimumFailureDomain.
  pose proof (scan_pools_inv (p :: pools)) as Hinv. unfold min_inv in Hinv.
  destruct (foldl _ _ _) as [min matched]. destruct (lowest_level (p :: pools)) as [[i x]|] eqn:E; simplify_eq.
  - apply list_find_Some in E as (E & _). rewrite E. by eapply list_elem_of_lookup_2.
  - by left.
Qed.

(** ** The pods the budgets select *)

Definition selected (spec : PodDisruptionBudgetSpec) (labels : gmap string string) : bool :=
  match Selector spec with Some s => selects s labels | None => false end.

(** On the labels of an OSD pod, the default budget selects the pod unless its OSD is left
    out, and a blocking budget selects it exactly when it is in that failure domain. *)
Theorem budget_selectors excl id ft fd labels :
  in_int64 id = true -> Forall (fun i => in_int64 i = true) excl ->
  labels !! AppAttr = Some osdPDBAppName -> labels !! osdPDBOsdIdLabel = Some (Itoa id) ->
  selected (defaultPDBSpec excl) labels = bool_decide (id ∉ excl) /\
  selected (blockingPDBSpec ft fd) labels = bool_decide (labels !! topologyLocationLabel ft = Some fd).
Proof.
  intros Hid Hexcl Happ Hosd. rewrite Forall_forall in Hexcl.
  assert (Itoa id ∈ Itoa <$> excl <-> id ∈ excl) as Hin.
  { rewrite list_elem_of_fmap. split; [|naive_solver].
    intros (i & E & Hi). by rewrite (Itoa_inj _ _ Hid (Hexcl _ Hi) E). }
  split.
  - assert (selected (defaultPDBSpec excl) labels = true <-> id ∉ excl) as Hsel.
    { unfold selected, selects, defaultPDBSpec, req_matches. simpl.
      rewrite bool_decide_true by apply map_Forall_empty. rewrite Happ, bool_decide_true by (by apply list_elem_of_singleton).
      destruct excl as [|x l]; simpl; [set_solver|].
      rewrite Hosd, andb_true_r, bool_decide_eq_true, <- Hin. done. }
    case_bool_decide as Hd; [by apply Hsel|]. apply not_true_iff_false. intros E. by apply Hsel in E.
  - unfold selected, selects, blockingPDBSpec. simpl. rewrite andb_true_r.
    apply bool_decide_ext. by rewrite map_Forall_singleton.
Qed.

Lemma budget_selectors_witness :
  selected (defaultPDBSpec [1; 2]) (dep_labels (demo_osd 1 "a" 0) ∪ {[ "osd" := "1" ]}) = bool_decide (1 ∉ [1; 2]) /\
  selected (blockingPDBSpec "host" "a") (dep_labels (demo_osd 1 "a" 0) ∪ {[ "osd" := "1" ]}) =
    bool_decide ((dep_labels (demo_osd 1 "a" 0) ∪ {[ "osd" := "1" ]}) !! "topology-location-host" = Some "a").
Proof.
  apply (budget_selectors [1; 2] 1 "host" "a" (dep_labels (demo_osd 1 "a" 0) ∪ {[ "osd" := "1" ]})).
  - reflexivity.
  - by repeat constructor.
  - vm_compute. reflexivity.
  - vm_compute. reflexivity.
Defined.

(** ** Static budgets *)

Section Static.
Context {W : Type} `{Cluster W} `{!ClusterLaws W}.

Abbreviation stored w := (pdbs (snapshot w)).

Lemma reconcileStaticPDB_ok key pdb w w' :
  pdb_key pdb = key -> reconcileStaticPDB key pdb w = (w', Ok ()) ->
  touches [key] w w' /\
  exists q, stored w' !! key = Some q /\
    match stored w !! key with Some old => q = old | None => pdb_spec q = pdb_spec pdb end.
Proof.
  intros <- Hrun. unfold reconcileStaticPDB in Hrun. inv_run.
  pose proof (run_reads _ _ _ _ (get_pdb_reads _) Hrun0) as Hs. destruct r as [q|e].
  - inv_run. pose proof (get_pdb_ok _ _ _ _ Hrun0) as Hq.
    split; [by apply touches_refl|]. exists q. by rewrite Hs, Hq.
  - destruct (IsNotFound e) eqn:He; [|by inv_run]. unfold createStaticPDB in Hrun. inv_run.
    destruct (create_pdb_ok _ _ _ Hrun) as (q & Hk & Hsp & Hw).
    destruct (touches_insert _ _ _ _ Hw) as [Ht Hq].
    split; [by eapply touches_read|]. exists q. by rewrite (get_pdb_notfound _ _ _ _ Hrun0 He).
Qed.

(** With no replica to spare a gateway or metadata server has no budget; otherwise it has
    one.  A new budget keeps all but one replica available, but a budget that exists already is
    never changed, so it does not follow the number of replicas. *)
Theorem reconcile_min_available_ok key owner labelKey labelValue minAvailable msg w w' :
  reconcile_min_available key owner labelKey labelValue minAvailable msg w = (w', Ok ()) ->
  touches [key] w w' /\
  if minAvailable <? 1 then stored w' !! key = None
  else exists q, stored w' !! key = Some q /\
    match stored w !! key with
    | Some old => q = old
    | None => pdb_spec q =
        {| MinAvailable := Some minAvailable; MaxUnavailable := None;
           Selector := Some {| MatchLabels := {[ labelKey := labelValue ]}; MatchExpressions := None |} |}
    end.
Proof.
  unfold reconcile_min_available. intros Hrun. destruct (minAvailable <? 1); inv_run.
  - by apply deletePDB_ok.
  - by apply reconcileStaticPDB_ok in Hrun.
Qed.

End Static.

(** Scaling a store from five gateways to three leaves its budget at four. *)
Definition demo_store (n : Z) : CephObjectStore :=
  {| store_key := demo_key "s"; store_owner := cluster_owner demo_cluster;
     store_metadata_pool := {| FailureDomain := "host" |}; store_data_pool := {| FailureDomain := "host" |};
     Instances := n |}.

Lemma reconcile_min_available_ok_witness :
  exists q, pdbs (snapshot (reconcileCephObjectStore [demo_store 3]
                              (reconcileCephObjectStore [demo_store 5] demo).1).1) !! rgw_pdb_key (demo_store 3) = Some q /\
    MinAvailable (pdb_spec q) = Some 4.
Proof.
  destruct (reconcile_min_available_ok (rgw_pdb_key (demo_store 3)) (store_owner (demo_store 3)) "rgw" "s" 2
              "failed to reconcile cephobjectstore pdb %v"
              (reconcileCephObjectStore [demo_store 5] demo).1
              (reconcileCephObjectStore [demo_store 3] (reconcileCephObjectStore [demo_store 5] demo).1).1)
    as [_ (q & Hq & Hold)].
  - vm_compute. reflexivity.
  - exists q. split; [exact Hq|]. vm_compute in Hold. subst q. reflexivity.
Defined.

(** ** The failure domains of the OSDs *)

(** An OSD counts as down when its deployment has no ready replica and it is not being
    replaced. *)
Definition osd_is_down (d : Deployment) : bool := negb (shouldIgnoreOSD d) && (ReadyReplicas d <? 1).

Definition osd_id_of (d : Deployment) : Z := default 0 (Atoi (read (dep_labels d) OsdIdLabelKey)).

(** A down OSD whose host is not in the metadata does not make its failure domain known. *)
Definition host_known (metadata : list OSDMetadata) (d : Deployment) : bool :=
  negb (osd_is_down d) || negb (String.eqb (osd_host metadata (osd_id_of d)) "").

Section OSDs.
Context {W : Type} `{Cluster W}.
Context (label : string) (metadata : list OSDMetadata).

Abbreviation domain d := (read (dep_labels d) label).

(** The node was seen in that state. *)
Definition seen_drained (host : string) (b : bool) : Prop :=
  exists w w' : W, hasOSDNodeDrained host w = (w', Ok b).

(** What the loop has found after the deployments [l]. *)
Record classified (l : list Deployment) (s : Domains) : Prop := {
  cl_all fd : fd ∈ allDomains s <-> exists d, d ∈ l /\ domain d = fd /\ host_known metadata d = true;
  cl_down fd : fd ∈ downDomains s <-> exists d, d ∈ l /\ domain d = fd /\ osd_is_down d = true;
  cl_drained fd : fd ∈ drainDomains s -> exists d, d ∈ l /\ domain d = fd /\ osd_is_down d = true /\
                    seen_drained (osd_host metadata (osd_id_of d)) true;
  cl_not_drained d : d ∈ l -> osd_is_down d = true -> host_known metadata d = true ->
                    domain d ∈ drainDomains s \/ seen_drained (osd_host metadata (osd_id_of d)) false;
  cl_osds : downOSDs s = osd_id_of <$> List.filter osd_is_down l;
  cl_named d : d ∈ l -> domain d <> "";
}.

Lemma GetOSDID_ok d id : GetOSDID d = Ok id -> osd_id_of d = id.
Proof. unfold GetOSDID, osd_id_of. destruct (Atoi _); naive_solver. Qed.

Lemma filter_snoc (f : Deployment -> bool) l d :
  List.filter f (l ++ [d]) = List.filter f l ++ (if f d then [d] else []).
Proof. by rewrite List.filter_app. Qed.

(** One more OSD that is not down. *)
Lemma classified_up l s d :
  domain d <> "" -> osd_is_down d = false -> classified l s -> classified (l ++ [d]) (add_all (domain d) s).
Proof.
  intros Hd Hup []. assert (host_known metadata d = true) as Hk by (unfold host_known; by rewrite Hup).
  split; simpl.
  - intros fd. rewrite exists_snoc, elem_of_union, elem_of_singleton, cl_all0. naive_solver.
  - intros fd. rewrite exists_snoc, cl_down0. split; [by left|]. intros [?|[_ ?]]; congruence.
  - intros fd Hfd%cl_drained0. apply exists_snoc. by left.
  - intros d' [?| ->%list_elem_of_singleton]%elem_of_app; [by apply cl_not_drained0|congruence].
  - by rewrite cl_osds0, filter_snoc, Hup, app_nil_r.
  - intros d' [?| ->%list_elem_of_singleton]%elem_of_app; auto.
Qed.

(** One more OSD that is down, on a host that is unknown, drained or not. *)
Lemma classified_down l s d (drained : option bool) :
  domain d <> "" -> osd_is_down d = true ->
  match drained with
  | None => osd_host metadata (osd_id_of d) = ""
  | Some b => osd_host metadata (osd_id_of d) <> "" /\ seen_drained (osd_host metadata (osd_id_of d)) b
  end ->
  classified l s ->
  classified (l ++ [d])
    (let s := add_down (domain d) (osd_id_of d) s in
     match drained with
     | None => s
     | Some b => add_all (domain d) (if b then add_drain (domain d) s else s)
     end).
Proof.
  intros Hd Hdown Hdr [].
  assert (host_known metadata d = match drained with None => false | Some _ => true end) as Hk.
  { unfold host_known. rewrite Hdown. destruct drained as [b|].
    - destruct Hdr as [Hh _]. by rewrite (proj2 (String.eqb_neq _ "") Hh).
    - by rewrite Hdr. }
  split.
  - intros fd. rewrite exists_snoc, Hk.
    destruct drained as [[]|]; simpl; rewrite ?elem_of_union, ?elem_of_singleton, cl_all0; naive_solver.
  - intros fd. rewrite exists_snoc.
    assert (fd ∈ {[domain d]} ∪ downDomains s <-> fd = domain d \/ fd ∈ downDomains s) as Hu by set_solver.
    destruct drained as [[]|]; simpl; rewrite Hu, cl_down0; clear -Hdown; naive_solver.
  - intros fd Hfd. assert (fd ∈ drainDomains s \/ fd = domain d /\ drained = Some true) as [Hold|[-> ->]].
    { destruct drained as [[]|]; simpl in Hfd; set_solver. }
    + apply exists_snoc. left. by apply cl_drained0.
    + apply exists_snoc. right. by destruct Hdr.
  - intros d' [Hin| ->%list_elem_of_singleton]%elem_of_app Hd' Hk'.
    + destruct (cl_not_drained0 _ Hin Hd' Hk') as [?|?]; [left|by right].
      destruct drained as [[]|]; simpl; set_solver.
    + rewrite Hk in Hk'. destruct drained as [[]|]; [left; simpl; set_solver|right; by destruct Hdr|done].
  - rewrite filter_snoc, Hdown, fmap_app, <- cl_osds0. by destruct drained as [[]|].
  - intros d' [?| ->%list_elem_of_singleton]%elem_of_app; auto.
Qed.

Lemma classify_osd_ok l s d w w' s' :
  classified l s -> classify_osd label metadata s d w = (w', Ok s') -> classified (l ++ [d]) s'.
Proof.
  intros Hcl Hrun. unfold classify_osd in Hrun.
  destruct (String.eqb_spec (domain d) "") as [|Hd]; [done|].
  destruct (shouldIgnoreOSD d) eqn:Hig.
  { inv_run. apply classified_up; [done| |done]. unfold osd_is_down. by rewrite Hig. }
  destruct (ReadyReplicas d <? 1) eqn:Hready.
  - assert (osd_is_down d = true) as Hdown by (unfold osd_is_down; by rewrite Hig, Hready).
    inv_run. match goal with E : GetOSDID d = Ok _ |- _ => apply GetOSDID_ok in E as <- end.
    destruct (String.eqb_spec (osd_host metadata (osd_id_of d)) "") as [Hh|Hh]; inv_run.
    + by apply (classified_down l s d None).
    + apply (classified_down l s d (Some _)); [done..| |done]. split; [done|]. by do 2 eexists.
  - inv_run. apply classified_up; [done| |done]. unfold osd_is_down. by rewrite Hig, Hready.
Qed.

Lemma classify_osds_ok l2 : forall l1 s w w' s',
  classified l1 s -> classify_osds label metadata s l2 w = (w', Ok s') -> classified (l1 ++ l2) s'.
Proof.
  induction l2 as [|d l2 IH]; intros l1 s w w' s' Hcl Hrun; simpl in Hrun.
  - inv_run. by rewrite app_nil_r.
  - inv_run. rewrite (cons_middle d l1 l2), (assoc_L (++) l1 [d] l2). eapply IH; [|exact Hrun].
    by eapply classify_osd_ok.
Qed.

Lemma classified_nil : classified [] no_domains.
Proof. split; simpl; set_solver. Qed.

End OSDs.

Lemma sorted_elem s x : x ∈ sorted s <-> x ∈ s.
Proof. unfold sorted. by rewrite elem_of_sort_strings, elem_of_elements. Qed.

Lemma sorted_NoDup s : NoDup (sorted s).
Proof. unfold sorted. rewrite sort_strings_Permutation. apply NoDup_elements. Qed.

Section GetDomains.
Context {W : Type} `{Cluster W}.

(** [getOSDFailureDomains] reports, of the OSD deployments it lists, sorted and without
    duplicates: as down the failure domains of the OSDs without a ready replica that are not
    being replaced, with the IDs of these OSDs; as drained those of a down OSD whose node was
    seen unschedulable or gone, and each down OSD on a known host is in a drained failure domain
    or had its node seen schedulable; as all the failure domains of the OSDs that are up,
    replaced, or down on a known host. *)
Theorem getOSDFailureDomains_ok ns ft w w' fds :
  getOSDFailureDomains ns ft w = (w', Ok fds) ->
  exists l metadata s,
    (exists v v', list_deployments ns {[ AppAttr := osdPDBAppName ]} v = (v', Ok l)) /\
    (exists v v', ceph_osd_metadata v = (v', Ok metadata)) /\
    classified (W := W) (topologyLocationLabel ft) metadata l s /\
    fds = {| allFailureDomains := sorted (allDomains s); nodeDrainFailureDomains := sorted (drainDomains s);
             osdDownFailureDomains := sorted (downDomains s); fd_downOSDs := downOSDs s |} /\
    NoDup (allFailureDomains fds).
Proof.
  intros Hrun. unfold getOSDFailureDomains in Hrun. inv_run.
  eexists _, _, _. split_and!; [by do 2 eexists|by do 2 eexists| |done|apply sorted_NoDup].
  by eapply (classify_osds_ok _ _ _ []); [apply classified_nil|].
Qed.

(** The reports are what the state machine of the drains expects. *)
Lemma classified_sound label metadata l s :
  classified (W := W) label metadata l s ->
  drainDomains s ⊆ downDomains s /\ "" ∉ downDomains s /\ (downOSDs s = [] <-> downDomains s = ∅).
Proof.
  intros []. split_and!.
  - intros fd (d & ? & ? & ? & _)%cl_drained0. apply cl_down0. eauto.
  - intros (d & Hd & E & _)%cl_down0. by apply (cl_named0 d).
  - rewrite cl_osds0. split.
    + intros E%fmap_nil_inv. apply set_eq. intros fd. rewrite cl_down0. split; [|set_solver].
      intros (d & Hd & _ & Hdown). exfalso.
      assert (d ∈ List.filter osd_is_down l) as Hin.
      { apply list_elem_of_In, filter_In. by rewrite <- list_elem_of_In. }
      rewrite E in Hin. by apply elem_of_nil in Hin.
    + intros E. destruct (List.filter osd_is_down l) as [|d r] eqn:Ef; [done|]. exfalso.
      assert (In d (List.filter osd_is_down l)) as [Hd Hdown]%filter_In by (rewrite Ef; by left).
      assert (read (dep_labels d) label ∈ downDomains s) as Hin
        by (apply cl_down0; exists d; by rewrite list_elem_of_In).
      rewrite E in Hin. by apply not_elem_of_empty in Hin.
Qed.

End GetDomains.

Lemma getOSDFailureDomains_ok_witness :
  exists l metadata s, classified (W := SimWorld) (topologyLocationLabel "host") metadata l s /\
    sorted (downDomains s) = ["a"] /\ sorted (drainDomains s) = ["a"].
Proof.
  destruct (getOSDFailureDomains_ok "rook-ceph" "host" demo demo
              {| allFailureDomains := ["a"; "b"; "c"]; nodeDrainFailureDomains := ["a"];
                 osdDownFailureDomains := ["a"]; fd_downOSDs := [0] |}) as (l & md & s & _ & _ & Hcl & E & _).
  - vm_compute. reflexivity.
  - exists l, md, s. injection E as _ E1 E2 _. by rewrite <- E1, <- E2.
Defined.

(** A down OSD whose host is not in the metadata: its failure domain is reported as down, but
    not among all the failure domains. *)
Example down_domain_not_listed :
  (fun r => match r with
            | Ok fds => Some (allFailureDomains fds, osdDownFailureDomains fds)
            | Err _ => None
            end) (getOSDFailureDomains "rook-ceph" "host"
                    {| sim_pdbs := ∅; sim_configmaps := ∅; sim_flags := ∅;
                       sim_deployments := [demo_osd 7 "d" 0; demo_osd 1 "b" 1];
                       sim_nodes := ∅; sim_clusters := []; sim_pools := []; sim_filesystems := [];
                       sim_stores := []; sim_status := sim_status demo; sim_metadata := [];
                       sim_clock := 0 |}).2 = Some (["b"], ["d"]).
Proof. vm_compute. reflexivity. Qed.

End Domains.
