(* ===== verification/DrainState.v ===== *)
(** * DrainState: the state machine of node drains

    The disruption controller keeps in a config map which failure domain is draining, and
    whether noout is to be set on it.  The abstract machine [next] says how that state moves
    with what one reconcile observes; [update_drain_state] (file Disruption) refines it, and
    every state the controller reaches is justified by an observation. *)

From stdpp Require Import base gmap strings list fin_maps sorting.
From Stdlib Require Import ZArith Ascii.
From S2P Require Import Prelude Names GoTime Topology Kube Disruption DisruptionProofs.
Import ObjectName GoTime Topology Disruption DisruptionProofs.
Open Scope Z_scope.

Module DrainState.

(** ** The abstract machine *)

(** The draining failure domain, and whether it is a node drain (noout is wanted). *)
Definition state : Type := option (string * bool).

Record observation := { clean : bool; down : list string; drained : list string }.

(** Failure domains with drained nodes go first. *)
Definition candidates (o : observation) : list string :=
  match drained o with [] => down o | l => l end.

Inductive next (o : observation) : state -> state -> Prop :=
| next_recovered s : down o = [] -> clean o = true -> next o s None
| next_wait_clean s : down o = [] -> clean o = false -> next o s s
| next_tolerated s : down o <> [] -> clean o = true -> drained o = [] -> next o s None
| next_settling s : down o <> [] -> clean o = true -> drained o <> [] -> next o s s
| next_keep d n : clean o = false -> d ∈ candidates o -> next o (Some (d, n)) (Some (d, n))
| next_pick s d l :
    clean o = false -> candidates o = d :: l ->
    (forall d' n, s = Some (d', n) -> d' ∉ candidates o) ->
    next o s (Some (d, match drained o with [] => false | _ => true end)).

(** What [getOSDFailureDomains] reports: drained failure domains have an OSD down, and names
    are not empty. *)
Definition sound (o : observation) : Prop := drained o ⊆ down o /\ "" ∉ down o.

(** The machine is total and deterministic on sound observations. *)
Lemma next_deterministic o s s1 s2 : sound o -> next o s s1 -> next o s s2 -> s1 = s2.
Proof.
  intros [Hsub _].
  assert (down o = [] -> candidates o = []) as Hc.
  { unfold candidates. intros E. rewrite E in Hsub. by rewrite (list_nil_subseteq _ Hsub). }
  destruct 1; inversion 1; subst; try congruence; try by (rewrite Hc in * by done; set_solver).
  all: exfalso; naive_solver.
Qed.

Lemma next_total o s : sound o -> exists s', next o s s'.
Proof.
  intros [Hsub _]. destruct (clean o) eqn:Hcl; destruct (down o) as [|x l] eqn:Hd.
  - eexists. by apply next_recovered.
  - destruct (drained o) eqn:Hdr; eexists; [apply next_tolerated|apply next_settling]; congruence.
  - eexists. by apply next_wait_clean.
  - destruct (candidates o) as [|d l'] eqn:Hc.
    { exfalso. unfold candidates in Hc. destruct (drained o); congruence. }
    destruct s as [[d' n]|].
    + destruct (decide (d' ∈ candidates o)) as [Hin|Hnin]; eexists; [by apply next_keep|].
      eapply next_pick; [done..|]. by intros ? ? [= <- <-].
    + eexists. by eapply next_pick.
Qed.

(** ** The concrete state *)

(** The state a config map stands for. *)
Definition abs (data : gmap string string) : state :=
  let d := read data drainingFailureDomainKey in
  if String.eqb d "" then None else Some (d, String.eqb (read data setNoOut) "true").

Definition observe (pgClean : bool) (fds : FailureDomains) : observation :=
  {| clean := pgClean; down := osdDownFailureDomains fds; drained := nodeDrainFailureDomains fds |}.

(** An OSD is down exactly when its failure domain is reported. *)
Definition sound_domains (fds : FailureDomains) : Prop :=
  sound (observe false fds) /\ (fd_downOSDs fds = [] <-> osdDownFailureDomains fds = []).

Lemma abs_None data : abs data = None <-> read data drainingFailureDomainKey = "".
Proof. unfold abs. destruct (String.eqb_spec (read data drainingFailureDomainKey) ""); naive_solver. Qed.

Lemma abs_eq data data' :
  read data' drainingFailureDomainKey = read data drainingFailureDomainKey ->
  read data' setNoOut = read data setNoOut -> abs data' = abs data.
Proof. unfold abs. by intros -> ->. Qed.

Lemma read_insert_ne data k k' v : k <> k' -> read (<[k := v]> data) k' = read data k'.
Proof. intros Hk. unfold read. by rewrite lookup_insert_ne. Qed.

Lemma read_insert_eq data k v : read (<[k := v]> data) k = v.
Proof. unfold read. by rewrite lookup_insert_eq. Qed.

Lemma abs_duration data v : abs (<[drainingFailureDomainDurationKey := v]> data) = abs data.
Proof. by apply abs_eq; rewrite read_insert_ne. Qed.

Lemma abs_reset data : abs (resetPDBConfig data) = None.
Proof.
  apply abs_None. unfold resetPDBConfig. rewrite read_insert_ne by done.
  unfold read. by rewrite lookup_delete_ne, lookup_insert_eq by done.
Qed.

Lemma abs_set_draining fd noout data :
  fd <> "" -> abs (set_draining fd noout data) = Some (fd, String.eqb noout "true").
Proof.
  intros Hfd. unfold abs, set_draining.
  rewrite read_insert_ne, read_insert_eq, read_insert_eq by done.
  by rewrite (proj2 (String.eqb_neq fd "")).
Qed.

Lemma first_unless_spec cur l x :
  first_unless cur l = Some x <-> cur ∉ l /\ head l = Some x.
Proof. unfold first_unless. case_bool_decide; naive_solver. Qed.

Lemma first_unless_None cur l : first_unless cur l = None <-> cur ∈ l \/ l = [].
Proof. unfold first_unless. case_bool_decide; destruct l; naive_solver. Qed.

Lemma abs_draining data :
  read data drainingFailureDomainKey <> "" ->
  abs data = Some (read data drainingFailureDomainKey, String.eqb (read data setNoOut) "true").
Proof. intros E. unfold abs. by rewrite (proj2 (String.eqb_neq _ "") E). Qed.

(** Taking the first candidate, when the current failure domain is none. *)
Lemma pick_next o data noout d :
  sound o -> clean o = false -> head (candidates o) = Some d ->
  noout = match drained o with [] => "" | _ => "true" end ->
  read data drainingFailureDomainKey = "" \/ read data drainingFailureDomainKey ∉ candidates o ->
  next o (abs data) (abs (set_draining d noout data)).
Proof.
  intros [Hsub Hne] Hcl Hd -> Hold.
  assert (d <> "") as Hd'.
  { intros ->. apply Hne. unfold candidates in Hd.
    destruct (drained o); simpl in Hd; [destruct (down o)|]; set_solver. }
  destruct (candidates o) as [|x l] eqn:Hc; [done|]. injection Hd as ->.
  rewrite abs_set_draining by done.
  replace (String.eqb _ "true") with (match drained o with [] => false | _ => true end)
    by by destruct (drained o).
  eapply next_pick; [done..|]. unfold abs. intros d' n. rewrite Hc.
  destruct (String.eqb_spec (read data drainingFailureDomainKey) ""); naive_solver.
Qed.

(** [setPDBConfig] keeps the draining failure domain while it is a candidate and takes the
    first candidate otherwise. *)
Lemma setPDBConfig_next now data o :
  sound o -> clean o = false -> down o <> [] ->
  next o (abs data) (abs (setPDBConfig now data (down o) (drained o))).
Proof.
  intros Hs Hcl Hdown. unfold setPDBConfig. rewrite abs_duration.
  assert (candidates o = match drained o with [] => down o | l => l end) as Hc by done.
  destruct (String.eqb_spec (read data drainingFailureDomainKey) "") as [E|E].
  - destruct (drained o) as [|x l] eqn:Edr; simpl.
    + destruct (down o) as [|y l]; [done|]. apply pick_next; auto; by rewrite ?Hc, ?Edr.
    + apply pick_next; auto; by rewrite ?Hc, ?Edr.
  - destruct (first_unless _ (drained o)) as [x|] eqn:F1.
    + apply first_unless_spec in F1 as [Hnin Hh]. destruct (drained o) as [|? l] eqn:Edr; [done|].
      apply pick_next; auto; rewrite ?Hc, ?Edr; auto.
    + apply first_unless_None in F1.
      destruct (first_unless _ (down o)) as [y|] eqn:F2.
      * apply first_unless_spec in F2 as [Hnin Hh].
        destruct F1 as [F1|F1]; [destruct Hs; set_solver|].
        apply pick_next; auto; rewrite ?Hc, ?F1; auto.
      * apply first_unless_None in F2 as [F2|?]; [|done]. rewrite abs_draining by done.
        apply next_keep; [done|]. rewrite Hc. destruct (drained o) eqn:Edr; [done|]. by destruct F1.
Qed.

(** ** Refinement *)

Section Refinement.
Context {W : Type} `{Cluster W}.

Lemma last_drain_abs data key w w' data' t :
  key = drainingFailureDomainDurationKey ->
  getLastNodeDrainTimeStamp data key w = (w', Ok (data', t)) -> abs data' = abs data.
Proof.
  intros -> Hrun. unfold getLastNodeDrainTimeStamp in Hrun.
  destruct (String.eqb _ _); inv_run; [by rewrite abs_duration|].
  destruct (Parse _); inv_run; done.
Qed.

Lemma update_drain_state_next pgClean fds data w w' data' excl :
  sound_domains fds ->
  update_drain_state pgClean fds data w = (w', Ok (data', excl)) ->
  next (observe pgClean fds) (abs data) (abs data').
Proof.
  intros [Hs Hdown] Hrun. unfold update_drain_state in Hrun.
  destruct (fd_downOSDs fds) as [|id ids] eqn:Eids; destruct pgClean.
  - inv_run. rewrite abs_reset. apply next_recovered; naive_solver.
  - inv_run. apply next_wait_clean; naive_solver.
  - assert (down (observe true fds) <> []) as Hne by (simpl; naive_solver).
    destruct (nodeDrainFailureDomains fds) as [|x l] eqn:Edr.
    + inv_run. rewrite abs_reset. by apply next_tolerated.
    + inv_run. apply last_drain_abs in Hrun0; [|done].
      destruct (_ <? _); inv_run; rewrite Hrun0; (apply next_settling; [done|done|simpl; congruence]).
  - inv_run. apply (setPDBConfig_next _ data (observe false fds)); simpl; naive_solver.
Qed.

(** C37: the switch of [reconcilePDBsForOSDs] implements the abstract machine: the drain state
    it writes to the config map is the only one the machine moves to on the failure domains and
    the health of the placement groups it was given.  The OSDs left out of the default budget
    are none, or all that are down, and the latter only with clean placement groups. *)
Theorem update_drain_state_refines pgClean fds data w w' data' excl :
  sound_domains fds ->
  update_drain_state pgClean fds data w = (w', Ok (data', excl)) ->
  (forall s, next (observe pgClean fds) (abs data) s <-> s = abs data') /\
  (excl = [] \/ (pgClean = true /\ excl = fd_downOSDs fds)).
Proof.
  intros Hs Hrun. pose proof (update_drain_state_next _ _ _ _ _ _ _ Hs Hrun) as Hn. split.
  - intros s. split; [|by intros ->]. intros Hn'.
    eapply next_deterministic; [|exact Hn'|exact Hn]. apply Hs.
  - unfold update_drain_state in Hrun.
    destruct (fd_downOSDs fds), pgClean, (nodeDrainFailureDomains fds); inv_run; auto;
      destruct (_ <? _); inv_run; auto.
Qed.

(** The drain states a controller reaches: from the config map it creates, by the switch, with
    the time stamps of [updateNoout] changed in between. *)
Inductive reached : list observation -> gmap string string -> Prop :=
| reached_init : reached [] (<[drainingFailureDomainKey := ""]> {[ setNoOut := "" ]})
| reached_switch tr data pgClean fds (w w' : W) data' excl :
    reached tr data -> sound_domains fds ->
    update_drain_state pgClean fds data w = (w', Ok (data', excl)) ->
    reached (tr ++ [observe pgClean fds]) data'
| reached_noout tr data data' :
    reached tr data -> (forall k, (forall fd, k <> nooutKey fd) -> data' !! k = data !! k) ->
    reached tr data'.

Lemma noout_abs data data' :
  (forall k, (forall fd, k <> nooutKey fd) -> data' !! k = data !! k) -> abs data' = abs data.
Proof.
  intros Hk. apply abs_eq; unfold read; rewrite Hk; try done;
    intros fd; by destruct (nooutKey_state fd) as (? & ? & _); apply not_eq_sym.
Qed.

(** C38: a failure domain is recorded as draining only after a reconcile that saw one of its
    OSDs down while placement groups were not clean, and noout is wanted on it only after one
    that saw one of its nodes drained. *)
Theorem reached_justified tr data d n :
  reached tr data -> abs data = Some (d, n) ->
  exists o, o ∈ tr /\ clean o = false /\ d ∈ down o /\ (n = true -> d ∈ drained o).
Proof.
  intros Hr. revert d n.
  induction Hr as [|tr data pgClean fds w w' data' excl Hr IH Hs Hrun|tr data data' Hr IH Hk]; intros d n E.
  - done.
  - pose proof (update_drain_state_next _ _ _ _ _ _ _ Hs Hrun) as Hn.
    destruct Hs as [[Hsub _] _].
    assert (abs data = Some (d, n) -> exists o, o ∈ tr ++ [observe pgClean fds] /\
              clean o = false /\ d ∈ down o /\ (n = true -> d ∈ drained o)) as Hold.
    { intros E'. destruct (IH _ _ E') as (o & ? & ?). exists o. set_solver. }
    inversion Hn as [| | | | |s0 d0 l Hcl Hc _]; subst; try congruence; try (apply Hold; congruence).
    match goal with Heq : Some _ = abs data' |- _ => rewrite E in Heq; injection Heq as <- <- end.
    exists (observe pgClean fds). split; [apply elem_of_app; right; by apply list_elem_of_singleton|].
    unfold candidates in Hc. simpl in *.
    destruct (nodeDrainFailureDomains fds) as [|y ys]; rewrite ?Hc; simplify_eq.
    + split_and!; [done|by left|done].
    + split_and!; [done|apply Hsub; by left|intros _; by left].
  - rewrite (noout_abs _ _ Hk) in E. by apply IH.
Qed.

End Refinement.

(** ** Witnesses *)

Definition demo_domains : FailureDomains :=
  {| allFailureDomains := ["a"; "b"; "c"]; nodeDrainFailureDomains := ["b"];
     osdDownFailureDomains := ["a"; "b"]; fd_downOSDs := [0; 1] |}.

Lemma demo_sound : sound_domains demo_domains.
Proof. split; [split; simpl; set_solver|done]. Qed.

(** Data of a config map before the first drain. *)
Definition demo_data : gmap string string := <[drainingFailureDomainKey := ""]> {[ setNoOut := "" ]}.

Lemma update_drain_state_refines_witness :
  next (observe false demo_domains) None (Some ("b", true)).
Proof.
  destruct (update_drain_state_refines false demo_domains demo_data demo demo
              (setPDBConfig (sim_clock demo) demo_data ["a"; "b"] ["b"]) []) as [Hn _].
  - exact demo_sound.
  - vm_compute. reflexivity.
  - apply Hn. vm_compute. reflexivity.
Defined.

Lemma reached_justified_witness :
  exists o, o ∈ [observe false demo_domains] /\ clean o = false /\ "b" ∈ down o /\
    (true = true -> "b" ∈ drained o).
Proof.
  apply (reached_justified (W := SimWorld) [observe false demo_domains]
           (setPDBConfig (sim_clock demo) demo_data ["a"; "b"] ["b"]) "b" true).
  - apply (reached_switch [] demo_data false demo_domains demo demo _ []).
    + apply reached_init.
    + exact demo_sound.
    + vm_compute. reflexivity.
  - vm_compute. reflexivity.
Defined.

(** Noout stays wanted on a failure domain whose nodes were made schedulable again, as long as
    one of its OSDs is down and placement groups are not clean. *)
Example noout_kept_after_uncordon :
  let data := setPDBConfig 0 demo_data ["a"] ["a"] in
  abs (setPDBConfig 0 data ["a"] []) = Some ("a", true).
Proof. vm_compute. reflexivity. Qed.

End DrainState.
