(* ===== verification/Reconcile.v ===== *)
(** * Reconcile: one call of the disruption controller

    What a reconcile that succeeds leaves behind: the budgets and the noout flags agree with
    the drain state stored in the config map. *)

From stdpp Require Import base gmap strings list fin_maps sorting.
From Stdlib Require Import ZArith Ascii.
From S2P Require Import Prelude Names GoTime Topology Kube Disruption DisruptionProofs Domains DrainState.
Import ObjectName GoTime Topology Disruption DisruptionProofs Domains DrainState.
Open Scope Z_scope.

Module Reconcile.

Section Laws.
Context {W : Type} `{Cluster W} `{!ClusterLaws W}.

Abbreviation stored w := (pdbs (snapshot w)).

(** The budgets of the OSDs agree with the drain state: without a drain, the default budget and
    no blocking one; with one, a blocking budget on each other failure domain. *)
Definition budgets_agree (ns ft : string) (fds : list string) (st : state) (old : Snapshot) (w : W) : Prop :=
  match st with
  | None =>
      (exists q excl, stored w !! defaultPDBKey ns = Some q /\ pdb_spec q = defaultPDBSpec excl) /\
      forall fd, fd ∈ fds -> stored w !! blockingPDBKey ns ft fd = None
  | Some (draining, _) =>
      stored w !! defaultPDBKey ns = None /\
      (draining ∈ fds -> stored w !! blockingPDBKey ns ft draining = None) /\
      forall fd, fd ∈ fds -> fd <> draining ->
        exists q, stored w !! blockingPDBKey ns ft fd = Some q /\
          (pdb_spec q = blockingPDBSpec ft fd \/ pdbs old !! blockingPDBKey ns ft fd = Some q)
  end.

(** A failure domain has noout while it is under maintenance, up to the timeout by the clock as it was read
    between [w] and [w']. *)
Definition noout_agrees (mt : Z) (fds : list string) (data : gmap string string) (w w' : W) : Prop :=
  forall fd, fd ∈ fds -> noout_done mt data data fd w w'.

Lemma update_drain_state_reads pgClean fds data : reads (update_drain_state pgClean fds data).
Proof. unfold update_drain_state, getLastNodeDrainTimeStamp. solve_reads. Qed.

Lemma IsClusterClean_reads regex : reads (IsClusterClean regex).
Proof. unfold IsClusterClean. solve_reads. Qed.

Lemma getOSDFailureDomains_reads ns ft : reads (getOSDFailureDomains ns ft).
Proof.
  unfold getOSDFailureDomains. solve_reads. generalize no_domains.
  match goal with |- forall s, reads (classify_osds ?l ?md s ?ds) => induction ds as [|d ds IH] end;
    intros s; simpl; [done|].
  apply reads_bind; [|done]. unfold classify_osd, hasOSDNodeDrained, getNode. solve_reads.
Qed.

Lemma processPools_reads ns : reads (processPools ns).
Proof. unfold processPools. solve_reads. Qed.

Lemma requeuePDBController_reads ns : reads (requeuePDBController ns).
Proof. unfold requeuePDBController. solve_reads. Qed.

Lemma noout_done_agree mt data data' fd w w' :
  maintained data' fd <-> maintained data fd ->
  noout_done mt data data' fd w w' -> noout_done mt data' data' fd w w'.
Proof. unfold noout_done. by intros ->. Qed.

(** The budgets after the handler that the drain state selects. *)
Lemma handle_drains_ok cmap ns ft fds data excl w w' :
  ft ∈ CRUSHMapLevelsOrdered -> names_distinct ft fds ->
  (if String.eqb (read data drainingFailureDomainKey) ""
   then wrapM (handleInactiveDrains cmap fds ft ns excl) "failed to handle inactive drains" []
   else wrapM (handleActiveDrains cmap fds (read data drainingFailureDomainKey) ft ns)
          "failed to handle active drains" []) w = (w', Ok ()) ->
  budgets_agree ns ft fds (abs data) (snapshot w) w' /\
  touches (defaultPDBKey ns :: blocking_keys ns ft fds) w w'.
Proof.
  intros Hft Hinj Hrun. unfold abs. destruct (String.eqb _ ""); inv_run.
  - destruct (handleInactiveDrains_ok cmap ns ft fds excl w w' Hft Hrun) as ((q & ? & ?) & ? & ?).
    simpl. eauto 10.
  - destruct (handleActiveDrains_ok cmap ns ft fds _ w w' Hft Hinj Hrun) as (? & Hb & ? & ?). simpl.
    split_and!; [done|done| |done]. intros fd Hfd Hne. destruct (Hb fd Hfd Hne) as (q & ? & ?). eauto.
Qed.

(** The config map is written last: it does not change budgets or flags. *)
Lemma update_configmap_frame c w w' :
  update_configmap c w = (w', Ok ()) ->
  stored w' = stored w /\ crush_flags (snapshot w') = crush_flags (snapshot w) /\
  configmaps (snapshot w') !! cm_key c = Some c.
Proof. intros ->%update_configmap_ok. simpl. by rewrite lookup_insert_eq. Qed.

Lemma budgets_agree_frame ns ft fds st old w w' :
  stored w' = stored w -> budgets_agree ns ft fds st old w -> budgets_agree ns ft fds st old w'.
Proof. unfold budgets_agree. by intros ->. Qed.

Lemma noout_agrees_frame mt fds data w0 w w1 w' :
  passes w0 w -> passes w1 w' -> crush_flags (snapshot w') = crush_flags (snapshot w1) ->
  noout_agrees mt fds data w w1 -> noout_agrees mt fds data w0 w'.
Proof.
  intros H0 H1 Hf Ha fd Hfd. eapply noout_done_frame; [exact H0|exact H1| |done|by apply Ha].
  unfold flag_set. by rewrite Hf.
Qed.

(** The handlers change the world by calls of the cluster alone. *)
Lemma IsClusterClean_calls regex : calls_only (IsClusterClean regex).
Proof. unfold IsClusterClean. solve_calls. Qed.

Lemma update_drain_state_calls pgClean fds data : calls_only (update_drain_state pgClean fds data).
Proof. unfold update_drain_state, getLastNodeDrainTimeStamp. solve_calls. Qed.

Lemma createPDB_calls p : calls_only (createPDB p).
Proof.
  intros w. unfold createPDB. pose proof (calls_op _ (op_create_pdb p) w) as Hw.
  destruct (create_pdb p w) as [w' [?|e]]; [done|]. by destruct (IsAlreadyExists e).
Qed.

Lemma deletePDB_calls k : calls_only (deletePDB k).
Proof.
  intros w. unfold deletePDB. pose proof (calls_op _ (op_delete_pdb k) w) as Hw.
  destruct (delete_pdb k w) as [w' [?|e]]; [done|]. by destruct (IsNotFound e).
Qed.

#[local] Hint Resolve createPDB_calls deletePDB_calls : calls_only.

Lemma handle_drains_calls (b : bool) cmap ns ft fds draining excl :
  calls_only (if b then wrapM (handleInactiveDrains cmap fds ft ns excl) "failed to handle inactive drains" []
              else wrapM (handleActiveDrains cmap fds draining ft ns) "failed to handle active drains" []).
Proof.
  unfold handleInactiveDrains, handleActiveDrains, createDefaultPDBforOSD, deleteDefaultPDBforOSD,
    createBlockingPDBForOSD, deleteBlockingPDBForOSD. solve_calls.
Qed.

Lemma requeuePDBController_calls ns : calls_only (requeuePDBController ns).
Proof. unfold requeuePDBController. solve_calls. Qed.

(** How a reconcile of the OSD budgets can succeed. *)
Variant outcome mt ns ft (fds : FailureDomains) (map : ConfigMap) (w w' : W) (res : Result) : Prop :=
| no_status :   (* the status of Ceph is not known: wait *)
    snapshot w' = snapshot w -> res = requeue_after (10 * Second) ->
    outcome mt ns ft fds map w w' res
| canceled c v e :   (* the operator is stopping *)
    update_configmap c v = (w', Err e) -> IsCanceled e = true -> res = no_requeue ->
    outcome mt ns ft fds map w w' res
| reconciled pgClean data :
    next (observe pgClean fds) (abs (cm_data map)) (abs data) ->
    configmaps (snapshot w') !! cm_key map = Some (set_data map data) ->
    budgets_agree ns ft (allFailureDomains fds) (abs data) (snapshot w) w' ->
    (forall k, k ∉ defaultPDBKey ns :: blocking_keys ns ft (allFailureDomains fds) ->
       stored w' !! k = stored w !! k) ->
    noout_agrees mt (allFailureDomains fds) data w w' ->
    outcome mt ns ft fds map w w' res.

(** C36: a reconcile of the OSD budgets that succeeds without an excuse moves the drain state as
    the abstract machine does, stores it, and leaves budgets and noout flags that agree with
    it: without a drain the default budget alone, during a drain a budget without disruptions on
    every failure domain but the draining one, and noout on that one alone, while its nodes are
    drained and the maintenance timeout has not passed by the clock as it was read in this run.  No
    other budget changes. *)
Theorem reconcilePDBsForOSDs_agree cmap mt ns map ft fds regex w w' res :
  ft ∈ CRUSHMapLevelsOrdered -> names_distinct ft (allFailureDomains fds) ->
  NoDup (allFailureDomains fds) -> sound_domains fds ->
  reconcilePDBsForOSDs cmap mt ns map ft fds regex w = (w', Ok res) ->
  outcome mt ns ft fds map w w' res.
Proof.
  intros Hft Hinj Hnd Hsound Hrun. unfold reconcilePDBsForOSDs in Hrun.
  apply M_bind_ok in Hrun as (w1 & r & Hclean & Hrun).
  apply run_reads in Hclean as Hs1; [|apply reads_try, IsClusterClean_reads].
  destruct r as [pgClean|e].
  2: { destruct (Contains _ _); inv_run; by apply no_status. }
  apply M_bind_ok in Hrun as (w2 & [data1 excl] & Hswitch & Hrun).
  apply run_reads in Hswitch as Hs2; [|apply update_drain_state_reads].
  apply run_calls in Hswitch as Hp2; [|apply update_drain_state_calls].
  apply update_drain_state_next in Hswitch; [|done].
  apply M_bind_ok in Hrun as (w3 & [] & Hdrains & Hrun).
  apply run_calls in Hclean as Hp1; [|apply calls_try, IsClusterClean_calls].
  apply run_calls in Hdrains as Hp3; [|apply handle_drains_calls].
  apply handle_drains_ok in Hdrains as [Hbudgets (_ & _ & Hframe)]; [|done..].
  apply M_bind_ok in Hrun as (w4 & [data2 nooutErr] & Hnoout & Hrun).
  apply M_bind_ok in Hrun as (w5 & u & Hupdate & Hrun).
  apply try_inv in Hupdate as (u' & [= <-] & Hupdate).
  destruct u as [[]|e].
  2: { destruct (IsCanceled e) eqn:He; inv_run. by eapply canceled. }
  destruct nooutErr as [[]|e]; [|by inv_run].
  apply run_reads in Hrun as Hs6; [|apply requeuePDBController_reads].
  apply run_calls in Hrun as Hp6; [|apply requeuePDBController_calls].
  apply run_calls in Hupdate as Hp5; [|apply calls_op; constructor].
  apply updateNoout_ok in Hnoout as (Hdone & (Hpdbs & _ & _) & Hmt & Hkeys); [|done].
  destruct (update_configmap_frame _ _ _ Hupdate) as (Ep & Ef & Ec). simpl in Ec.
  rewrite <- Hs6 in Ep, Ef, Ec. rewrite Hpdbs in Ep.
  assert (abs data2 = abs data1) as Habs by (apply noout_abs; intros; apply Hkeys; auto).
  apply (reconciled _ _ _ _ _ _ _ _ pgClean data2).
  - by rewrite Habs.
  - done.
  - rewrite Habs. eapply budgets_agree_frame; [exact Ep|]. by rewrite <- Hs1, <- Hs2.
  - intros k Hk. by rewrite Ep, Hframe, Hs2, Hs1.
  - eapply (noout_agrees_frame _ _ _ w w3 w4 w'); [by do 2 (etrans; [eassumption|])|by etrans|exact Ef|].
    intros fd Hfd.
    eapply noout_done_agree; [apply Hmt|]. by apply Hdone.
Qed.

Lemma getOSDFailureDomains_sound ns ft w w' fds :
  getOSDFailureDomains ns ft w = (w', Ok fds) -> sound_domains fds /\ NoDup (allFailureDomains fds).
Proof.
  intros Hrun. unfold getOSDFailureDomains in Hrun. inv_run.
  apply (classify_osds_ok _ _ _ []) in Hrun2 as Hcl; [|apply classified_nil].
  destruct (classified_sound _ _ _ _ Hcl) as (Hsub & Hne & Hdown).
  split; [|apply sorted_NoDup]. split; [split|]; simpl.
  - intros x. rewrite !sorted_elem. apply Hsub.
  - by rewrite sorted_elem.
  - rewrite Hdown. split; [by intros ->|]. intros E. apply set_eq. intros x.
    by rewrite <- sorted_elem, E, elem_of_nil, elem_of_empty.
Qed.

Lemma initializePDBState_key ns w w' map :
  initializePDBState ns w = (w', Ok map) -> cm_key map = pdbStateKey ns.
Proof.
  intros Hrun. unfold initializePDBState in Hrun. inv_run. destruct r as [m|e].
  - inv_run. by eapply get_configmap_ok.
  - destruct (IsNotFound e); inv_run; done.
Qed.

(** The OSD budgets are reconciled, with arguments the theorem above asks for. *)
Definition osd_budgets_run (r : Reconciler) (c : CephCluster) ns (w' : W) (res : Result) : Prop :=
  exists v ft fds map,
    reconcilePDBsForOSDs (clusterMap r) (maintenance_timeout c) ns map ft fds
      (PGHealthyRegex (DisruptionManagement c)) v = (w', Ok res) /\
    cm_key map = pdbStateKey ns /\ ft ∈ CRUSHMapLevelsOrdered /\
    sound_domains fds /\ NoDup (allFailureDomains fds).

Lemma reconcile_cluster_ok r c ns w w' res :
  reconcile_cluster r c ns w = (w', Ok res) ->
  (exists v v' stores filesystems ft, processPools ns v = (v', Ok (stores, filesystems, ft, 0%nat)) /\
     res = no_requeue) \/
  osd_budgets_run r c ns w' res.
Proof.
  intros Hrun. unfold reconcile_cluster in Hrun. inv_run.
  assert (s ∈ CRUSHMapLevelsOrdered) as Hft.
  { pose proof Hrun0 as Hp. unfold processPools in Hp. inv_run. apply getMinimumFailureDomain_level. }
  destruct (Nat.ltb_spec n 1) as [Hn|Hn]; inv_run.
  - left. assert (n = 0%nat) as -> by lia. by do 5 eexists.
  - right. apply getOSDFailureDomains_sound in Hrun3 as [??].
    apply initializePDBState_key in Hrun4. by do 4 eexists.
Qed.

(** A reconcile that succeeds does nothing when there is no cluster, or when the cluster does
    not have its budgets managed; otherwise it remembers the cluster, has removed the legacy
    resources, and, if there is a pool, reconciles the OSD budgets with a CRUSH level, failure
    domains and a config map as [reconcilePDBsForOSDs_agree] asks for them. *)
Theorem reconcile_ok r ns w r' w' res :
  reconcile r ns w = (r', (w', Ok res)) ->
  exists v clusters, list_cephclusters ns w = (v, Ok clusters) /\
  match clusters with
  | [] => r' = r /\ res = no_requeue /\ snapshot w' = snapshot w
  | c :: _ =>
      GetCluster r' ns = Some c /\
      if ManagePodBudgets (DisruptionManagement c) then
        deleteLegacyResources r' = false /\
        ((exists v v' stores filesystems ft, processPools ns v = (v', Ok (stores, filesystems, ft, 0%nat)) /\
            res = no_requeue) \/
         osd_budgets_run r' c ns w' res)
      else res = no_requeue /\ snapshot w' = snapshot w
  end.
Proof.
  unfold reconcile. destruct (String.eqb ns ""); [done|].
  destruct (wrapM _ _ _ w) as [w1 [cs|e]] eqn:Hlist; [|done].
  apply wrapM_ok in Hlist. intros Hrun. exists w1, cs. split; [done|].
  apply run_reads in Hlist; [|apply list_cephclusters_reads].
  destruct cs as [|c cs]; [by simplify_eq|].
  assert (GetCluster (UpdateClusterMap r ns c) ns = Some c) as Hget by apply lookup_insert_eq.
  rewrite Hget in Hrun. destruct (ManagePodBudgets (DisruptionManagement c)); simpl negb in Hrun.
  2: { by injection Hrun as <- <- <-. }
  destruct (deleteLegacyResources _) eqn:Hlegacy.
  - destruct (deleteDrainCanaryPods ns w1) as [w2 [[]|e]]; [|done]. injection Hrun as <- Hrun.
    split; [exact Hget|]. split; [done|]. by apply reconcile_cluster_ok in Hrun.
  - injection Hrun as <- Hrun. split; [done|]. split; [done|]. by apply reconcile_cluster_ok in Hrun.
Qed.

End Laws.

(** ** Witnesses *)

Definition demo_reconciler : Reconciler := {| clusterMap := ∅; deleteLegacyResources := true |}.

Definition demo_state : ConfigMap := {| cm_key := pdbStateKey "rook-ceph"; cm_data := demo_data |}.

Definition demo_fds : FailureDomains :=
  {| allFailureDomains := ["a"; "b"; "c"]; nodeDrainFailureDomains := ["a"];
     osdDownFailureDomains := ["a"]; fd_downOSDs := [0] |}.

(** The config map is there: the one the reconcile updates. *)
Definition demo_ready : SimWorld := (create_configmap demo_state demo).1.

Definition demo_run : SimWorld * result Result :=
  reconcilePDBsForOSDs demo_map DefaultMaintenanceTimeout "rook-ceph" demo_state "host" demo_fds "" demo_ready.

Lemma reconcilePDBsForOSDs_agree_witness :
  outcome DefaultMaintenanceTimeout "rook-ceph" "host" demo_fds demo_state demo_ready demo_run.1
    (requeue_after (15 * Second)) /\
  forall now, clock_read demo_ready demo_run.1 now -> now = sim_clock demo.
Proof.
  split; [|by intros now ->%sim_clock_read].
  apply (reconcilePDBsForOSDs_agree demo_map DefaultMaintenanceTimeout "rook-ceph" demo_state "host"
           demo_fds "" demo_ready demo_run.1 (requeue_after (15 * Second))).
  - apply (bool_decide_unpack _). vm_compute. exact I.
  - apply names_distinct_NoDup, (bool_decide_unpack _). vm_compute. exact I.
  - apply (bool_decide_unpack _). vm_compute. exact I.
  - split; [split; simpl; set_solver|done].
  - vm_compute. reflexivity.
Defined.

(** The drain of host [a] in the small cluster: budgets on [b] and [c], noout on [a]. *)
Example demo_run_state :
  (map_to_list (sim_pdbs demo_run.1)).*1 =
    [{| Namespace := "rook-ceph"; Name := "rook-ceph-osd-host-c" |};
     {| Namespace := "rook-ceph"; Name := "rook-ceph-osd-host-b" |}] /\
  map_to_list (sim_flags demo_run.1) = [("a", ["noout"])].
Proof. vm_compute. done. Qed.

Definition demo_out : Reconciler * (SimWorld * result Result) :=
  reconcile demo_reconciler "rook-ceph" demo.

Lemma reconcile_ok_witness :
  GetCluster demo_out.1 "rook-ceph" = Some demo_cluster /\ deleteLegacyResources demo_out.1 = false.
Proof.
  destruct (reconcile_ok demo_reconciler "rook-ceph" demo demo_out.1 demo_out.2.1 (requeue_after (15 * Second)))
    as (v & cs & Hl & Hm).
  - vm_compute. reflexivity.
  - injection Hl as _ <-. simpl in Hm. destruct Hm as (Hget & Hlegacy & _). exact (conj Hget Hlegacy).
Defined.

End Reconcile.
