(* ===== verification/Upgrade.v ===== *)
(** * Upgrade: the checks around an upgrade of Ceph

    Models [pkg/util/retry.go], [pkg/daemon/ceph/client/upgrade.go], the parts of
    [pkg/daemon/ceph/client/status.go] and [osd.go] it calls, and
    [pkg/operator/ceph/cluster/version.go]: which version the daemons run, when a daemon may be
    stopped, when an upgrade may continue, and when one is refused. *)

From stdpp Require Import base gmap strings list fin_maps.
From Stdlib Require Import ZArith Ascii.
From S2P Require Import Prelude CephVersion GoTime.
Import Version GoTime.
Open Scope Z_scope.

Module Upgrade.

(** ** Data *)

(** How many daemons run each version, by the text Ceph prints for it.  A Go map: ranging over
    it visits the keys in an order the language does not fix, which is the order of the list. *)
Definition VersionCounts : Type := list (string * Z).

Record CephDaemonsVersions := {
  Mon : VersionCounts;
  Mgr : VersionCounts;
  Osd : VersionCounts;
  Rgw : VersionCounts;
  Mds : VersionCounts;
  RbdMirror : VersionCounts;
  CephFSMirror : VersionCounts;
  Overall : VersionCounts;
}.

Record OsdTreeNode := { node_id : Z; tree_name : string; node_type : string; Children : list Z; node_status : string }.

(** [Nodes] is [None] when the field is missing (a nil slice). *)
Record OsdTree := { Nodes : option (list OsdTreeNode); Stray : list Z }.

Record MDSRank := { mds_name : string; mds_status : string }.

Record Status_ := { HealthStatus : string; ByRank : list MDSRank; UpStandby : Z }.

Record ClusterInfo := {
  FSID : string;
  MonitorSecret : string;
  Username : string;
  Secret : string;
}.

(** The environment: the ceph command line tool with its JSON output decoded by Go, the context
    of the operator, and the loading of the cluster's connection data. *)
Class CephCmd (W : Type) := {
  run_ceph : list string -> M W string;
  unmarshal_versions : string -> option CephDaemonsVersions;
  unmarshal_tree : string -> option OsdTree;
  unmarshal_osds : string -> option (list Z);
  unmarshal_status : string -> option Status_;
  (** [ctx.Err()] *)
  ctx_err : M W (option gerror);
  (** wait for the delay or the end of the context, then with its error *)
  wait_delay : Z -> M W (option gerror);
  (** [controller.LoadClusterInfo], which can return both values, and
      [mon.WriteConnectionConfig] *)
  load_cluster_info : M W (option ClusterInfo * option gerror);
  write_connection_config : ClusterInfo -> M W unit;
}.

Definition defaultMaxRetries : Z := 10.

Definition defaultRetryDelay : Z := 60 * Second.

Definition defaultOSDRetryDelay : Z := 10 * Second.

Definition daemonNoCheck : list string := ["mgr"; "rgw"; "rbd-mirror"; "nfs"; "fs-mirror"].

Definition errNoHostInCRUSH : gerror := Errorf "no host in crush map yet?" [].

Section Commands.
Context {W : Type} `{CephCmd W}.

(** ** Retrying *)

(** [retry_loop] makes at most [maxRetries + 1] attempts, so that many steps of fuel are
    enough. *)
Fixpoint retry_loop (fuel : nat) (tries maxRetries delay : Z) (f : M W unit) : M W unit :=
  match fuel with
  | O => fail (Errorf "out of fuel" [])
  | S fuel =>
      c ← ctx_err;
      match c with
      | Some e => fail e
      | None =>
          r ← try_ f;
          match r with
          | Ok _ => mret ()
          | Err err =>
              let tries := tries + 1 in
              if maxRetries <? tries then fail (Wrapf err "max retries exceeded, last err: %w" [])
              else
                c ← wait_delay delay;
                match c with
                | Some e => fail e
                | None => retry_loop fuel tries maxRetries delay f
                end
          end
      end
  end.

Definition RetryWithContext (maxRetries delay : Z) (f : M W unit) : M W unit :=
  retry_loop (S (Z.to_nat maxRetries)) 0 maxRetries delay f.

(** ** Commands *)

Definition unmarshal {A} (o : option A) (msg : string) : M W A :=
  match o with Some a => mret a | None => fail (Errorf msg []) end.

Definition getCephMonVersionString : M W string :=
  wrapM (run_ceph ["version"]) "failed to run 'ceph version'. %s" [].

Definition getAllCephDaemonVersionsString : M W string :=
  wrapM (run_ceph ["versions"]) "failed to run 'ceph versions'. %s" [].

Definition GetCephMonVersion : M W CephVersion :=
  output ← getCephMonVersionString;
  wrapM (lift (ExtractCephVersion output)) "failed to extract ceph version" [].

Definition GetAllCephDaemonVersions : M W CephDaemonsVersions :=
  output ← getAllCephDaemonVersionsString;
  unmarshal (unmarshal_versions output) "failed to retrieve ceph versions results".

Definition EnableReleaseOSDFunctionality (release : string) : M W unit :=
  _ ← wrapM (run_ceph ["osd"; "require-osd-release"; release])
        "failed to disallow pre-%s osds and enable all new %s-only functionality" [release; release];
  mret ().

Definition HostTree : M W OsdTree :=
  buf ← wrapM (run_ceph ["osd"; "tree"]) "failed to get osd tree" [];
  unmarshal (unmarshal_tree buf) "failed to unmarshal 'osd tree' response".

Definition OsdListNum : M W (list Z) :=
  buf ← wrapM (run_ceph ["osd"; "ls"]) "failed to get osd list" [];
  unmarshal (unmarshal_osds buf) "failed to unmarshal 'osd ls' response".

Definition Status : M W Status_ :=
  buf ← wrapM (run_ceph ["status"]) "failed to get status. %s" [];
  unmarshal (unmarshal_status buf) "failed to unmarshal status response".

(** ** Health and metadata servers *)

Definition isCephHealthy (status : Status_) : bool :=
  String.eqb (HealthStatus status) "HEALTH_WARN" || String.eqb (HealthStatus status) "HEALTH_OK".

Definition IsCephHealthy : M W bool :=
  r ← try_ Status;
  match r with Err _ => mret false | Ok status => mret (isCephHealthy status) end.

(** The last index with that name wins. *)
Fixpoint last_rank (fsName : string) (r : Z) (l : list MDSRank) (mdsRank : Z) : Z :=
  match l with
  | [] => mdsRank
  | m :: l' => last_rank fsName (r + 1) l' (if String.eqb (mds_name m) fsName then r else mdsRank)
  end.

Definition getMDSRank (status : Status_) (fsName : string) : result Z :=
  let mdsRank := last_rank fsName 0 (ByRank status) (-1000) in
  if (mdsRank <? 0) && (UpStandby status <? 1)
  then Err (Errorf "mds %s not found in fsmap, this likely means mdss are transitioning between active and standby states" [fsName])
  else Ok mdsRank.

(** [errors.Cause] *)
Fixpoint Cause (e : gerror) : gerror := match e with Wrapf e' _ _ => Cause e' | _ => e end.

Definition MdsActiveOrStandbyReplay (fsName : string) : M W unit :=
  status ← wrapM Status "failed to get ceph status" [];
  match getMDSRank status fsName with
  | Err e => fail (Cause e)
  | Ok mdsRank =>
      if mdsRank <? 0 then mret ()
      else
        match ByRank status !! Z.to_nat mdsRank with
        | Some m =>
            if String.eqb (mds_status m) "up:active" || String.eqb (mds_status m) "up:standby-replay" ||
               String.eqb (mds_status m) "up:standby"
            then mret ()
            else fail (Errorf "mds %s is %s, bad state" [fsName; mds_status m])
        | None => fail (Errorf "index out of range" [])   (* not reached: see [last_rank_spec] *)
        end
  end.

(** ** Stopping a daemon *)

Definition findFSName (deployment : string) : string :=
  default deployment (strip_prefix "rook-ceph-mds-" deployment).

Definition daemonMapEntry (versions : CephDaemonsVersions) (daemonType : string) : result VersionCounts :=
  if String.eqb daemonType "mon" then Ok (Mon versions)
  else if String.eqb daemonType "osd" then Ok (Osd versions)
  else Err (Errorf "invalid daemonType %s" [daemonType]).

(** [time.Duration / time.Duration] truncates towards zero. *)
Definition getRetryConfig (OsdUpgradeTimeout : Z) (daemonType : string) : Z * Z :=
  if String.eqb daemonType "osd" then (Z.quot OsdUpgradeTimeout defaultOSDRetryDelay, defaultOSDRetryDelay)
  else if String.eqb daemonType "mds" then (defaultMaxRetries, 15 * Second)
  else (defaultMaxRetries, defaultRetryDelay).

Definition buildHostListFromTree (tree : OsdTree) : result (list OsdTreeNode) :=
  match Nodes tree with
  | None => Err (Errorf "osd tree not populated, missing 'nodes' field" [])
  | Some nodes => Ok (List.filter (fun t => String.eqb (node_type t) "host") nodes)
  end.

Definition allOSDsSameHost : M W bool :=
  tree ← wrapM HostTree "failed to get the osd tree" [];
  osds ← wrapM OsdListNum "failed to get the osd list" [];
  hosts ← wrapM (lift (buildHostListFromTree tree)) "failed to build osd tree" [];
  match hosts with
  | [] => fail errNoHostInCRUSH
  | [host] =>
      mret (Z.of_nat (length (Children host)) =? Z.of_nat (length osds) - Z.of_nat (length (Stray tree)))
  | _ => mret false
  end.

Definition OSDUpdateShouldCheckOkToStop : M W bool :=
  r ← try_ OsdListNum;
  match r with
  | Err _ => mret true
  | Ok osds => if (length osds <? 3)%nat then mret false else mret true
  end.

(** [errors.Is(err, errNoHostInCRUSH)]: the sentinel, through wrapping. *)
Fixpoint is_no_host (e : gerror) : bool :=
  match e with
  | Errorf fmt _ => String.eqb fmt "no host in crush map yet?"
  | Wrapf e' _ _ => is_no_host e'
  | _ => false
  end.

Definition osdDoNothing : M W bool :=
  r ← try_ OsdListNum;
  match r with
  | Err _ => mret false
  | Ok osds =>
      if (length osds <? 3)%nat then mret true
      else
        a ← try_ allOSDsSameHost;
        match a with
        | Err e => if is_no_host e then mret true else mret false
        | Ok aio => mret aio
        end
  end.

Definition okToStopDaemon (deployment daemonType daemonName : string) : M W unit :=
  if bool_decide (daemonType ∈ daemonNoCheck) then mret ()
  else
    _ ← wrapM (run_ceph [daemonType; "ok-to-stop"; daemonName]) "deployment %s cannot be stopped. %s" [deployment];
    mret ().

Definition okToContinueMDSDaemon (OsdUpgradeTimeout : Z) (deployment : string) : M W unit :=
  let '(retries, delay) := getRetryConfig OsdUpgradeTimeout "mds" in
  RetryWithContext retries delay (MdsActiveOrStandbyReplay (findFSName deployment)).

(** The early return of the [mon] case: one version that fewer than three mons run. *)
Definition few_mons (versions : CephDaemonsVersions) : bool :=
  match Mon versions with [(_, monCount)] => monCount <? 3 | _ => false end.

Definition OkToStop (OsdUpgradeTimeout : Z) (deployment daemonType daemonName : string) : M W unit :=
  let '(okToStopRetries, okToStopDelay) := getRetryConfig OsdUpgradeTimeout daemonType in
  versions ← wrapM GetAllCephDaemonVersions "failed to get ceph daemons versions" [];
  skip ← (if String.eqb daemonType "mon" then mret (few_mons versions)
          else if String.eqb daemonType "osd" then osdDoNothing
          else mret false);
  if (skip : bool) then mret ()
  else
    wrapM (RetryWithContext okToStopRetries okToStopDelay (okToStopDaemon deployment daemonType daemonName))
      "failed to check if %s was ok to stop" [deployment].

Definition OkToContinue (OsdUpgradeTimeout : Z) (deployment daemonType : string) : M W unit :=
  if String.eqb daemonType "mds" then
    wrapM (okToContinueMDSDaemon OsdUpgradeTimeout deployment) "failed to check if %s was ok to continue" [deployment]
  else mret ().

(** ** The version the daemons run *)

Definition maxInt : Z := 65535.

Definition zero_version : CephVersion := mkv 0 0 0 0 "".

Fixpoint least_version (keys : list string) (vv : CephVersion) : result CephVersion :=
  match keys with
  | [] => Ok vv
  | v :: rest =>
      version ← wrap_err (ExtractCephVersion v) "failed to extract ceph version" [];
      least_version rest (if IsInferior version vv then version else vv)
  end.

(** The body after the versions are known, on the entries in the order the range visits them. *)
Definition least_of (r : VersionCounts) : result CephVersion :=
  match r with
  | [] => Ok zero_version
  | _ =>
      vv ← least_version r.*1 (mkv maxInt maxInt maxInt maxInt "");
      if Major vv =? maxInt then Err (Errorf "failed to determine least ceph version" []) else Ok vv
  end.

Definition LeastUptodateDaemonVersion (daemonType : string) : M W CephVersion :=
  versions ← wrapM GetAllCephDaemonVersions "failed to get ceph daemons versions" [];
  r ← wrapM (lift (daemonMapEntry versions daemonType)) "failed to find daemon map entry" [];
  lift (least_of r).

(** ** Validating the version of the image *)

(** What [validateCephVersion] reads of the cluster, and the fields it sets. *)
Record cluster := {
  Namespace_ : string;
  ExternalEnable : bool;
  Image : string;
  AllowUnsupported : bool;
  SkipUpgradeChecks : bool;
  info_version : CephVersion;      (* c.ClusterInfo.CephVersion *)
  isUpgrade : bool;
}.

Definition set_info_version (c : cluster) (v : CephVersion) : cluster :=
  {| Namespace_ := Namespace_ c; ExternalEnable := ExternalEnable c; Image := Image c;
     AllowUnsupported := AllowUnsupported c; SkipUpgradeChecks := SkipUpgradeChecks c;
     info_version := v; isUpgrade := isUpgrade c |}.

Definition set_upgrade (c : cluster) : cluster :=
  {| Namespace_ := Namespace_ c; ExternalEnable := ExternalEnable c; Image := Image c;
     AllowUnsupported := AllowUnsupported c; SkipUpgradeChecks := SkipUpgradeChecks c;
     info_version := info_version c; isUpgrade := true |}.

Definition diffImageSpecAndClusterRunningVersion (imageSpecVersion : CephVersion)
    (runningVersions : CephDaemonsVersions) : result bool :=
  match Overall runningVersions with
  | [] => Err (Errorf "no 'overall' section in the ceph versions. %+v" [])
  | [(v, _)] =>
      version ← ExtractCephVersion v;
      if IsIdentical version imageSpecVersion then Ok false
      else if IsSuperior imageSpecVersion version then Ok true
      else if IsInferior imageSpecVersion version then Ok true
      else Ok false
  | _ => Ok true
  end.

(** [IsInitialized] of the loaded information; a nil pointer is [None].  The context is the
    operator's. *)
Definition IsInitialized (info : option ClusterInfo) : M W (result unit) :=
  match info with
  | None => mret (Err (Errorf "clusterInfo is nil" []))
  | Some c =>
      if String.eqb (FSID c) "" then mret (Err (Errorf "cluster fsid is empty" []))
      else if String.eqb (MonitorSecret c) "" then mret (Err (Errorf "monitor secret is empty" []))
      else if String.eqb (Username c) "" then mret (Err (Errorf "ceph username is empty" []))
      else if String.eqb (Secret c) "" then mret (Err (Errorf "ceph secret is empty" []))
      else
        e ← ctx_err;
        match e with Some e => mret (Err e) | None => mret (Ok ()) end
  end.

(** [controller.ValidateCephVersionsBetweenLocalAndExternalClusters]: the external version and
    the error, with the version [local] of the cluster info. *)
Definition validate_external (local : CephVersion) : M W (CephVersion * result unit) :=
  r ← try_ GetCephMonVersion;
  match r with
  | Err e => mret (zero_version, Err (Wrapf e "failed to get ceph mon version" []))
  | Ok externalVersion =>
      mret (externalVersion, ValidateCephVersionsBetweenLocalAndExternalClusters local externalVersion)
  end.

(** The checks of the image's own version. *)
Definition check_supported (c : cluster) (version : CephVersion) : result unit :=
  if ExternalEnable c then Ok ()
  else if negb (IsAtLeast version Minimum)
  then Err (Errorf "the version does not meet the minimum version %q" [String_ Minimum])
  else if negb (Supported version) && negb (AllowUnsupported c)
  then Err (Errorf "allowUnsupported must be set to true to run with this version %q" [String_ version])
  else Ok ().

(** From the running versions on. *)
Definition check_running (c : cluster) (version : CephVersion) : M W (cluster * result unit) :=
  r ← try_ GetAllCephDaemonVersions;
  match r with
  | Err _ => mret (c, Ok ())
  | Ok runningVersions =>
      match diffImageSpecAndClusterRunningVersion version runningVersions with
      | Err _ => mret (c, Ok ())
      | Ok false => mret (c, Ok ())
      | Ok true =>
          cephHealthy ← IsCephHealthy;
          if negb cephHealthy && negb (SkipUpgradeChecks c) then
            mret (c, Err (Errorf "ceph status in namespace %s is not healthy, refusing to upgrade. Either fix the health issue or force an update by setting skipUpgradeChecks to true in the cluster CR" [Namespace_ c]))
          else mret (set_upgrade c, Ok ())
      end
  end.

Definition validateCephVersion (c : cluster) (version : CephVersion) : M W (cluster * result unit) :=
  match check_supported c version with
  | Err e => mret (c, Err e)
  | Ok _ =>
      '(clusterInfo, err) ← load_cluster_info;
      _ ← (match err, clusterInfo with
           | None, Some info => _ ← try_ (write_connection_config info); mret ()
           | _, _ => mret ()
           end);
      i ← IsInitialized clusterInfo;
      match i with
      | Err _ => mret (c, Ok ())
      | Ok _ =>
          '(c, r) ← (if ExternalEnable c && negb (String.eqb (Image c) "") then
                       '(v, r) ← validate_external (info_version c);
                       mret (set_info_version c v,
                             wrap_err r "failed to validate ceph version between external and local" [])
                     else mret (c, Ok ()));
          match r with
          | Err e => mret (c, Err e)
          | Ok _ =>
              if ExternalEnable c && String.eqb (Image c) "" then mret (c, Ok ())
              else check_running c version
          end
      end
  end.

End Commands.

(** ** The least version *)

Lemma least_version_spec keys vs vv0 :
  Forall2 (fun k v => ExtractCephVersion k = Ok v) keys vs ->
  exists vv, least_version keys vv0 = Ok vv /\ vv ∈ vv0 :: vs /\
    forall v, v ∈ vv0 :: vs -> ~ release_lt v vv.
Proof.
  intros Hf. revert vv0. induction Hf as [|k v keys vs Hk Hf IH]; intros vv0; simpl.
  - exists vv0. split_and!; [done|by left|]. intros v ->%list_elem_of_singleton. apply irreflexivity, _.
  - rewrite Hk. cbn [wrap_err mbind result_bind]. destruct (IH (if IsInferior v vv0 then v else vv0)) as (vv & E & Hin & Hmin).
    exists vv. split; [done|]. destruct (IsInferior v vv0) eqn:Hi.
    + apply IsInferior_lt in Hi. split; [set_solver|].
      intros x [->|[->|Hx]%elem_of_cons]%elem_of_cons Hlt.
      * apply (Hmin v); [by left|]. by transitivity vv0.
      * apply (Hmin v); [by left|done].
      * apply (Hmin x); [by right|done].
    + apply not_true_iff_false in Hi. rewrite IsInferior_lt in Hi. split; [set_solver|].
      intros x [->|[->|Hx]%elem_of_cons]%elem_of_cons Hlt.
      * apply (Hmin vv0); [by left|done].
      * destruct (release_lt_trichotomy v vv0) as [?|[Heq|Hgt]]; [done| |].
        -- apply (Hmin vv0); [by left|]. clear -Heq Hlt. unfold release_lt, release in *.
           injection Heq as E1 E2 E3 E4. lia.
        -- apply (Hmin vv0); [by left|]. by transitivity v.
      * apply (Hmin x); [by right|done].
Qed.

Lemma release_not_lt a b : ~ release_lt a b -> ~ release_lt b a -> release a = release b.
Proof. intros. by destruct (release_lt_trichotomy a b) as [|[|]]. Qed.

Lemma least_of_spec r vs :
  r <> [] -> Forall2 (fun e v => ExtractCephVersion e.1 = Ok v) r vs ->
  Forall (fun v => Major v < maxInt) vs ->
  exists vv, least_of r = Ok vv /\ vv ∈ vs /\ forall v, v ∈ vs -> ~ release_lt v vv.
Proof.
  intros Hne Hf Hmaj. unfold least_of. destruct r as [|e r]; [done|]. clear Hne.
  destruct (least_version_spec (e :: r).*1 vs (mkv maxInt maxInt maxInt maxInt "")) as (vv & E & Hin & Hmin).
  { by apply Forall2_fmap_l. }
  rewrite E. cbn [mbind result_bind].
  assert (vv ∈ vs) as Hin'.
  { apply elem_of_cons in Hin as [->|?]; [|done]. exfalso.
    inversion Hf as [|? v ? vs' ? ?]; subst. rewrite Forall_cons in Hmaj. destruct Hmaj as [Hv _].
    apply (Hmin v); [by right; left|]. left. exact Hv. }
  pose proof (proj1 (Forall_forall _ _) Hmaj _ Hin') as Hlt. simpl in Hlt.
  rewrite (proj2 (Z.eqb_neq _ _)) by lia. exists vv. split_and!; [done..|]. intros v Hv. apply Hmin. by right.
Qed.

(** When every version text parses, [LeastUptodateDaemonVersion] returns the version of a
    running daemon that no other is older than, and the release it returns does not depend on
    the order in which the range visits the map. *)
Theorem least_of_minimum r vs :
  r <> [] -> Forall2 (fun e v => ExtractCephVersion e.1 = Ok v) r vs ->
  Forall (fun v => Major v < maxInt) vs ->
  exists vv, least_of r = Ok vv /\ vv ∈ vs /\ (forall v, v ∈ vs -> ~ release_lt v vv) /\
    forall r', r' ≡ₚ r -> exists vv', least_of r' = Ok vv' /\ release vv' = release vv.
Proof.
  intros Hne Hf Hmaj. destruct (least_of_spec r vs Hne Hf Hmaj) as (vv & E & Hin & Hmin).
  exists vv. split_and!; [done..|]. intros r' Hp.
  destruct (Permutation_Forall2 (symmetry Hp) Hf) as (vs' & Hp' & Hf').
  destruct (least_of_spec r' vs') as (vv' & E' & Hin' & Hmin'); [|done| |].
  { intros ->. by apply Permutation_nil in Hp. }
  { by rewrite <- Hp'. }
  exists vv'. split; [done|]. apply release_not_lt.
  - apply Hmin. by rewrite Hp'.
  - apply Hmin'. by rewrite <- Hp'.
Qed.

Lemma least_of_minimum_witness :
  exists vv, least_of [("ceph version 19.2.3 (c92a) squid (stable)", 2); ("ceph version 18.2.5 (cbff) reef (stable)", 1)] = Ok vv /\
    release vv = (18, 2, 5, 0).
Proof.
  destruct (least_of_minimum
    [("ceph version 19.2.3 (c92a) squid (stable)", 2); ("ceph version 18.2.5 (cbff) reef (stable)", 1)]
    [mkv 19 2 3 0 "c92a"; mkv 18 2 5 0 "cbff"]) as (vv & E & _).
  - discriminate.
  - repeat constructor.
  - repeat constructor.
  - exists vv. split; [exact E|]. vm_compute in E. injection E as <-. reflexivity.
Defined.

(** With one version running, an upgrade is due exactly when it is not the version of the
    image, a lower image included; with several, always; with none, it is an error. *)
Theorem diffImage_spec img running :
  diffImageSpecAndClusterRunningVersion img running =
  match Overall running with
  | [] => Err (Errorf "no 'overall' section in the ceph versions. %+v" [])
  | [(v, _)] => run ← ExtractCephVersion v; Ok (bool_decide (run <> img))
  | _ => Ok true
  end.
Proof.
  unfold diffImageSpecAndClusterRunningVersion.
  destruct (Overall running) as [|[v n] [|]]; [done| |done].
  destruct (ExtractCephVersion v) as [run|e]; [|done]. cbn [mbind result_bind].
  destruct (IsIdentical run img) eqn:Ei.
  - apply IsIdentical_eq in Ei as ->. by rewrite bool_decide_false by naive_solver.
  - rewrite bool_decide_true by (intros Heq%IsIdentical_eq; congruence).
    destruct (IsSuperior img run) eqn:Es; [done|]. destruct (IsInferior img run) eqn:Ef; [done|].
    exfalso. apply not_true_iff_false in Ei, Es, Ef. rewrite IsIdentical_eq in Ei.
    rewrite IsSuperior_lt in Es. rewrite IsInferior_lt in Ef.
    destruct (release_lt_trichotomy img run) as [?|[Heq|?]]; [done| |tauto].
    unfold release in Heq. injection Heq as E1 E2 E3 E4. apply Es. right. split_and!; [done..|].
    intros E5. apply Ei. destruct img, run; simpl in *; congruence.
Qed.

(** ** Retrying *)

Section Retry.
Context {W : Type} `{CephCmd W}.

Lemma retry_ok fuel f tries maxRetries delay w w' :
  retry_loop fuel tries maxRetries delay f w = (w', Ok ()) -> exists v, f v = (w', Ok ()).
Proof.
  revert tries w. induction fuel as [|fuel IH]; intros tries w Hrun; [done|].
  cbn [retry_loop] in Hrun. apply M_bind_ok in Hrun as (w1 & [e|] & _ & Hrun); [done|].
  apply M_bind_ok in Hrun as (w2 & r & Hf & Hrun). apply try_inv in Hf as (r' & [= <-] & Hf).
  destruct r as [[]|e]; [inv_run; by eexists|].
  destruct (maxRetries <? tries + 1); [done|].
  apply M_bind_ok in Hrun as (w3 & [e'|] & _ & Hrun); [done|]. by eapply IH.
Qed.

Context (f : M W unit) (delay : Z).

(** The world in which attempt [n] starts, when the context does not end. *)
Fixpoint attempt (n : nat) (w : W) : W :=
  match n with O => w | S n => attempt n (wait_delay delay (f w).1).1 end.

Context (Hctx : forall w, ctx_err w = (w, Ok None)).
Context (Hwait : forall w, (wait_delay delay w).2 = Ok None).

Lemma retry_loop_spec n : forall fuel tries maxRetries w,
  (n < fuel)%nat -> tries + Z.of_nat n <= maxRetries ->
  (forall i, (i < n)%nat -> exists e, (f (attempt i w)).2 = Err e) ->
  retry_loop fuel tries maxRetries delay f w =
  match (f (attempt n w)).2 with
  | Ok _ => ((f (attempt n w)).1, Ok ())
  | Err e => if maxRetries <? tries + Z.of_nat n + 1
             then ((f (attempt n w)).1, Err (Wrapf e "max retries exceeded, last err: %w" []))
             else retry_loop (fuel - S n) (tries + Z.of_nat n + 1) maxRetries delay f (attempt (S n) w)
  end.
Proof.
  induction n as [|n IH]; intros fuel tries maxRetries w Hfuel Htries Hfail.
  - destruct fuel as [|fuel]; [lia|]. cbn [retry_loop attempt]. unfold mbind, M_bind, try_.
    rewrite Hctx. destruct (f w) as [w1 [[]|e]]; [done|]. cbn [fst snd].
    replace (tries + Z.of_nat 0 + 1) with (tries + 1) by lia.
    destruct (maxRetries <? tries + 1); [done|].
    pose proof (Hwait w1) as Hw. destruct (wait_delay delay w1) as [w2 r]. simpl in Hw. subst r.
    cbn [fst]. by rewrite Nat.sub_succ, Nat.sub_0_r.
  - destruct fuel as [|fuel]; [lia|]. cbn [retry_loop].
    destruct (Hfail 0%nat ltac:(lia)) as [e He]. simpl in He.
    unfold mbind at 1, M_bind at 1. rewrite Hctx.
    unfold mbind at 1, M_bind at 1, try_. cbn [attempt].
    destruct (f w) as [w1 r] eqn:Ef. simpl in He. subst r. cbn [fst snd].
    rewrite (proj2 (Z.ltb_ge maxRetries (tries + 1))) by lia.
    unfold mbind at 1, M_bind at 1.
    pose proof (Hwait w1) as Hw. destruct (wait_delay delay w1) as [w2 r] eqn:Ew. simpl in Hw. subst r.
    cbn [fst]. rewrite (IH fuel (tries + 1) maxRetries w2) by
      (try lia; intros i Hi; specialize (Hfail (S i) ltac:(lia)); cbn [attempt] in Hfail;
       rewrite Ef in Hfail; cbn [fst] in Hfail; rewrite Ew in Hfail; exact Hfail).
    replace (tries + 1 + Z.of_nat n + 1) with (tries + Z.of_nat (S n) + 1) by lia.
    cbn [attempt]. done.
Qed.

(** While the context lasts, [RetryWithContext] returns at the first attempt that succeeds,
    and after [maxRetries] retries fails with the last error wrapped.  In particular it always
    returns. *)
Theorem RetryWithContext_first maxRetries w (n : nat) :
  0 <= Z.of_nat n <= maxRetries ->
  (forall i, (i < n)%nat -> exists e, (f (attempt i w)).2 = Err e) ->
  ((f (attempt n w)).2 = Ok () ->
     RetryWithContext maxRetries delay f w = ((f (attempt n w)).1, Ok ())) /\
  (forall e, Z.of_nat n = maxRetries -> (f (attempt n w)).2 = Err e ->
     RetryWithContext maxRetries delay f w =
       ((f (attempt n w)).1, Err (Wrapf e "max retries exceeded, last err: %w" []))).
Proof.
  intros Hn Hfail. unfold RetryWithContext.
  rewrite (retry_loop_spec n) by (done || lia). split.
  - by intros ->.
  - intros e <- ->. by rewrite (proj2 (Z.ltb_lt _ _)) by lia.
Qed.

End Retry.

(** ** What the checks guarantee *)

Section Safety.
Context {W : Type} `{CephCmd W}.

(** The reply of a command was seen. *)
Definition ran (args : list string) : Prop := exists (v v' : W) out, run_ceph args v = (v', Ok out).

Definition saw_versions (versions : CephDaemonsVersions) : Prop :=
  exists v v' : W, GetAllCephDaemonVersions v = (v', Ok versions).

(** Why [osdDoNothing] lets an OSD be stopped without asking. *)
Definition osd_exempt : Prop :=
  (exists (v v' : W) osds, OsdListNum v = (v', Ok osds) /\ (length osds < 3)%nat) \/
  (exists (v v' : W) e, allOSDsSameHost v = (v', Err e) /\ is_no_host e = true) \/
  (exists v v' : W, allOSDsSameHost v = (v', Ok true)).

Lemma osdDoNothing_exempt (w w' : W) : osdDoNothing w = (w', Ok true) -> osd_exempt.
Proof.
  intros Hrun. unfold osdDoNothing in Hrun. inv_run. destruct r as [osds|e]; [|by inv_run].
  destruct (Nat.ltb_spec (length osds) 3); [left; by do 3 eexists|]. inv_run.
  destruct r as [aio|e]; [|destruct (is_no_host e) eqn:He]; inv_run; right; [right|left].
  - by do 2 eexists.
  - by do 3 eexists.
Qed.

(** [OkToStop] accepts only when Ceph itself said the daemon may be stopped, or the daemon
    is of a kind Ceph has no check for, or there are fewer than three mons, all of one version,
    or the OSD is exempt: fewer than three OSDs, no host in the CRUSH map, or all OSDs on one
    host. *)
Theorem OkToStop_checked timeout deployment daemonType daemonName (w w' : W) :
  OkToStop timeout deployment daemonType daemonName w = (w', Ok ()) ->
  daemonType ∈ daemonNoCheck \/ ran [daemonType; "ok-to-stop"; daemonName] \/
  (daemonType = "mon" /\ exists versions, saw_versions versions /\ few_mons versions = true) \/
  (daemonType = "osd" /\ osd_exempt).
Proof.
  unfold OkToStop. destruct (getRetryConfig timeout daemonType) as [retries delay].
  intros Hrun. apply M_bind_ok in Hrun as (w1 & versions & Hv%wrapM_ok & Hrun).
  apply M_bind_ok in Hrun as (w2 & skip & Hskip & Hrun). destruct skip.
  - right; right. destruct (String.eqb_spec daemonType "mon") as [->|_].
    + left. split; [done|]. exists versions. inv_run. split; [by do 2 eexists|done].
    + destruct (String.eqb_spec daemonType "osd") as [->|_]; [|by inv_run].
      right. split; [done|]. by eapply osdDoNothing_exempt.
  - apply wrapM_ok in Hrun. apply retry_ok in Hrun as [v Hrun]. unfold okToStopDaemon in Hrun.
    case_bool_decide as Hno; [by left|]. right; left. inv_run. by do 3 eexists.
Qed.

Lemma check_running_ok c version (w w' : W) c' r :
  check_running c version w = (w', Ok (c', r)) ->
  (r <> Ok () -> c' = c) /\
  (isUpgrade c = false -> isUpgrade c' = true ->
    (exists versions, saw_versions versions /\
       diffImageSpecAndClusterRunningVersion version versions = Ok true) /\
    (SkipUpgradeChecks c = true \/ exists v v' : W, IsCephHealthy v = (v', Ok true))).
Proof.
  intros Hrun. unfold check_running in Hrun. inv_run.
  destruct r0 as [versions|e]; [|inv_run; split; congruence].
  destruct (diffImageSpecAndClusterRunningVersion version versions) as [[]|e] eqn:Hdiff;
    [|inv_run; split; congruence..].
  apply M_bind_ok in Hrun as (w1 & healthy & Hhealthy & Hrun).
  destruct (negb healthy && negb (SkipUpgradeChecks c)) eqn:Hb; inv_run; split; try congruence.
  intros _ _. split; [exists versions; split; [by do 2 eexists|done]|].
  apply andb_false_iff in Hb as [->%negb_false_iff| ->%negb_false_iff]; [right; by do 2 eexists|by left].
Qed.

(** An upgrade that starts is one that may. *)
Definition upgrade_safe (c : cluster) (version : CephVersion) (c' : cluster) (r : result unit) : Prop :=
  (r <> Ok () -> isUpgrade c' = false) /\
  (isUpgrade c' = true ->
    (ExternalEnable c = true \/
     (IsAtLeast version Minimum = true /\ (Supported version = true \/ AllowUnsupported c = true))) /\
    (exists versions, saw_versions versions /\
       diffImageSpecAndClusterRunningVersion version versions = Ok true) /\
    (SkipUpgradeChecks c = true \/ exists v v' : W, IsCephHealthy v = (v', Ok true))).

Lemma upgrade_safe_same c version c' r : isUpgrade c' = false -> upgrade_safe c version c' r.
Proof. unfold upgrade_safe. intros ->. done. Qed.

Lemma check_supported_ok c version :
  check_supported c version = Ok () ->
  ExternalEnable c = true \/
  (IsAtLeast version Minimum = true /\ (Supported version = true \/ AllowUnsupported c = true)).
Proof.
  unfold check_supported. destruct (ExternalEnable c); [by left|].
  destruct (IsAtLeast version Minimum); [|done].
  destruct (Supported version), (AllowUnsupported c); naive_solver.
Qed.

(** The step for external clusters changes only the recorded version. *)
Lemma external_step_ok c (w w' : W) c' r :
  (if ExternalEnable c && negb (String.eqb (Image c) "") then
     '(v, r) ← validate_external (info_version c);
     mret (set_info_version c v, wrap_err r "failed to validate ceph version between external and local" [])
   else mret (c, Ok ())) w = (w', Ok (c', r)) ->
  exists v, c' = set_info_version c v.
Proof.
  destruct (_ && _); intros Hrun; inv_run; [by eexists|]. exists (info_version c'). by destruct c'.
Qed.

(** [validateCephVersion] starts an upgrade only for an image whose version is supported (at
    least the minimum, and of a known release unless unsupported ones are allowed; for an external
    cluster this is not asked), that differs from what the daemons run, while Ceph is healthy or
    the checks are skipped by request.  When it fails, no upgrade is started. *)
Theorem validateCephVersion_safe c version (w w' : W) c' r :
  validateCephVersion c version w = (w', Ok (c', r)) -> isUpgrade c = false ->
  upgrade_safe c version c' r.
Proof.
  intros Hrun Hup. unfold validateCephVersion in Hrun.
  destruct (check_supported c version) as [[]|e] eqn:Hsup; [|inv_run; by apply upgrade_safe_same].
  apply check_supported_ok in Hsup.
  apply M_bind_ok in Hrun as (w1 & [info err] & _ & Hrun).
  apply M_bind_ok in Hrun as (w2 & [] & _ & Hrun).
  apply M_bind_ok in Hrun as (w3 & [[]|e] & _ & Hrun); [|inv_run; by apply upgrade_safe_same].
  apply M_bind_ok in Hrun as (w4 & [c1 r1] & Hext & Hrun).
  apply external_step_ok in Hext as [v ->].
  destruct r1 as [[]|e]; [|inv_run; by apply upgrade_safe_same].
  destruct (_ && _); [inv_run; by apply upgrade_safe_same|].
  destruct (check_running_ok _ _ _ _ _ _ Hrun) as [He Hu]. split.
  - intros Hr. by rewrite (He Hr).
  - intros Hc'. split; [done|]. by apply Hu.
Qed.

(** *** Metadata servers *)

Lemma last_rank_snoc fsName r l m d :
  last_rank fsName r (l ++ [m]) d =
  if String.eqb (mds_name m) fsName then r + Z.of_nat (length l) else last_rank fsName r l d.
Proof.
  revert r d. induction l as [|x l IH]; intros r d; simpl.
  - by rewrite Z.add_0_r.
  - rewrite IH. destruct (String.eqb (mds_name m) fsName); [lia|done].
Qed.

Definition named (fsName : string) (l : list MDSRank) : list MDSRank :=
  List.filter (fun m => String.eqb (mds_name m) fsName) l.

(** The rank is the index of the last server with that name, or the dummy. *)
Lemma last_rank_spec fsName l :
  match last (named fsName l) with
  | Some m => 0 <= last_rank fsName 0 l (-1000) /\ l !! Z.to_nat (last_rank fsName 0 l (-1000)) = Some m
  | None => last_rank fsName 0 l (-1000) = -1000
  end.
Proof.
  unfold named. induction l as [|m l IH] using rev_ind; [done|].
  rewrite last_rank_snoc, List.filter_app. simpl.
  destruct (String.eqb (mds_name m) fsName).
  - rewrite last_snoc. split; [lia|]. rewrite Z.add_0_l, Nat2Z.id, lookup_app_r, Nat.sub_diag by lia. done.
  - rewrite app_nil_r. destruct (last _) as [m'|]; [|done]. destruct IH as [? IH]. split; [done|].
    by apply lookup_app_l_Some.
Qed.

Definition mds_states : list string := ["up:active"; "up:standby-replay"; "up:standby"].

(** The last server with that name is in a good state, or it is not ranked and a standby is
    there. *)
Definition mds_ready (status : Status_) (fsName : string) : Prop :=
  match last (named fsName (ByRank status)) with
  | Some m => mds_status m ∈ mds_states
  | None => 1 <= UpStandby status
  end.

Lemma mds_states_spec x :
  String.eqb x "up:active" || String.eqb x "up:standby-replay" || String.eqb x "up:standby" = true <->
  x ∈ mds_states.
Proof.
  unfold mds_states. rewrite !orb_true_iff, !String.eqb_eq, !elem_of_cons, elem_of_nil. tauto.
Qed.

(** An upgrade goes on to the next metadata server exactly when the status of Ceph shows the
    last server with the name active, in standby-replay or standby, or shows none with the name
    and at least one standby. *)
Theorem MdsActiveOrStandbyReplay_ready fsName (w w' : W) :
  MdsActiveOrStandbyReplay fsName w = (w', Ok ()) <->
  exists status, Status w = (w', Ok status) /\ mds_ready status fsName.
Proof.
  assert (forall status v, (match getMDSRank status fsName with
    | Err e => fail (Cause e)
    | Ok mdsRank =>
      if mdsRank <? 0 then mret ()
      else match ByRank status !! Z.to_nat mdsRank with
        | Some m =>
            if String.eqb (mds_status m) "up:active" || String.eqb (mds_status m) "up:standby-replay" ||
               String.eqb (mds_status m) "up:standby"
            then mret ()
            else fail (Errorf "mds %s is %s, bad state" [fsName; mds_status m])
        | None => fail (Errorf "index out of range" [])
        end
    end : M W unit) v = (w', Ok ()) <-> w' = v /\ mds_ready status fsName) as Hbody.
  { intros status v. unfold getMDSRank, mds_ready. pose proof (last_rank_spec fsName (ByRank status)) as Hr.
    destruct (last (named fsName (ByRank status))) as [m|].
    - destruct Hr as [Hpos Hl]. rewrite (proj2 (Z.ltb_ge (last_rank _ _ _ _) 0)) by lia. cbn [andb].
      rewrite (proj2 (Z.ltb_ge (last_rank _ _ _ _) 0)), Hl by lia. rewrite <- mds_states_spec.
      destruct (_ || _); unfold mret, M_ret, fail; naive_solver.
    - rewrite Hr. simpl. destruct (Z.ltb_spec (UpStandby status) 1); unfold mret, M_ret, fail; simpl.
      + split; [done|]. intros [_ ?]. lia.
      + naive_solver lia. }
  unfold MdsActiveOrStandbyReplay. rewrite M_bind_ok. split.
  - intros (w1 & status & Hst%wrapM_ok & [-> Hr]%Hbody). by exists status.
  - intros (status & Hst & Hr). exists w', status. rewrite wrapM_ok. split; [done|]. by apply Hbody.
Qed.

End Safety.

(** ** Witnesses *)

(** An environment that answers fixed values; the world counts the ok-to-stop checks that will
    fail before one succeeds. *)
Definition sim_cmd (versions : CephDaemonsVersions) (status : Status_) (osds : list Z) (tree : OsdTree) :
    CephCmd nat := {|
  run_ceph args w :=
    match args, w with
    | [_; "ok-to-stop"; _], S n => (n, Err (External "not ok to stop"))
    | _, _ => (w, Ok "")
    end;
  unmarshal_versions _ := Some versions;
  unmarshal_tree _ := Some tree;
  unmarshal_osds _ := Some osds;
  unmarshal_status _ := Some status;
  ctx_err w := (w, Ok None);
  wait_delay _ w := (w, Ok None);
  load_cluster_info w :=
    (w, Ok (Some {| FSID := "f"; MonitorSecret := "m"; Username := "client.admin"; Secret := "s" |}, None));
  write_connection_config _ w := (w, Ok ());
|}.

Definition sim_versions : CephDaemonsVersions :=
  {| Mon := [("ceph version 19.2.0 (c) squid (stable)", 3)]; Mgr := []; Osd := []; Rgw := []; Mds := [];
     RbdMirror := []; CephFSMirror := [];
     Overall := [("ceph version 19.2.0 (c) squid (stable)", 3)] |}.

Definition sim_health : Status_ := {| HealthStatus := "HEALTH_OK"; ByRank := []; UpStandby := 1 |}.

Definition sim_env : CephCmd nat :=
  sim_cmd sim_versions sim_health [0; 1; 2] {| Nodes := Some []; Stray := [] |}.

Lemma OkToStop_checked_witness :
  "mon" ∈ daemonNoCheck \/ ran (H := sim_env) ["mon"; "ok-to-stop"; "a"] \/
  ("mon" = "mon" /\ exists versions, saw_versions (H := sim_env) versions /\ few_mons versions = true) \/
  ("mon" = "osd" /\ osd_exempt (H := sim_env)).
Proof.
  apply (OkToStop_checked (H := sim_env) 0 "rook-ceph-mon-a" "mon" "a" 2%nat 0%nat).
  vm_compute. reflexivity.
Defined.

Definition sim_cluster : cluster :=
  {| Namespace_ := "rook-ceph"; ExternalEnable := false; Image := "quay.io/ceph/ceph:v19.2.3";
     AllowUnsupported := false; SkipUpgradeChecks := false; info_version := zero_version; isUpgrade := false |}.

Lemma validateCephVersion_safe_witness :
  upgrade_safe (H := sim_env) sim_cluster (mkv 19 2 3 0 "d") (set_upgrade sim_cluster) (Ok ()).
Proof.
  apply (validateCephVersion_safe (H := sim_env) sim_cluster (mkv 19 2 3 0 "d") 0%nat 0%nat).
  - vm_compute. reflexivity.
  - reflexivity.
Defined.

Lemma RetryWithContext_first_witness :
  RetryWithContext (H := sim_env) 10 (60 * Second) (okToStopDaemon (H := sim_env) "rook-ceph-mon-a" "mon" "a") 3%nat =
  (0%nat, Ok ()).
Proof.
  apply (RetryWithContext_first (H := sim_env) (okToStopDaemon (H := sim_env) "rook-ceph-mon-a" "mon" "a") (60 * Second)
           (fun w => eq_refl) (fun w => eq_refl) 10 3%nat 3%nat).
  - lia.
  - intros i Hi. destruct i as [|[|[|i]]]; [by eexists..|lia].
  - reflexivity.
Defined.

End Upgrade.
