(* ===== verification/MonStore.v ===== *)
(** * MonStore: endpoints of the mons and the config map that keeps them

    Models [GetIPFromEndpoint] and [GetPortFromEndpoint] ([pkg/daemon/ceph/util/util.go]),
    [NewMonInfo] and [AllMonitors] ([pkg/daemon/ceph/client/info.go]), [flattenMonEndpoints]
    ([pkg/operator/ceph/cluster/mon/endpoint.go]), the data of
    [persistExpectedMonDaemonsInConfigMap] ([mon.go]) and [ParseMonEndpoints],
    [fullNameToIndex] and [loadMonConfig] ([pkg/operator/ceph/controller/cluster_info.go]).

    Where the code ranges over a Go map, the model takes the list of entries in the order of
    the visit; the theorems hold for every order. *)

From stdpp Require Import base gmap strings list fin_maps.
From Stdlib Require Import ZArith Ascii.
From S2P Require Import Prelude Names.
Import DaemonName.
Open Scope Z_scope.

Module MonStore.

(** ** Endpoints *)

Record MonInfo := { Name : string; Endpoint : string; OutOfQuorum : bool }.

#[global] Instance MonInfo_eq_dec : EqDecision MonInfo.
Proof. solve_decision. Defined.

(** The parts before and after the first, and the last, [c]. *)
Fixpoint cut_first (c : ascii) (s : string) : option (string * string) :=
  match s with
  | "" => None
  | String d s' =>
      if Ascii.eqb d c then Some ("", s')
      else match cut_first c s' with Some (a, b) => Some (String d a, b) | None => None end
  end.

Fixpoint cut_last (c : ascii) (s : string) : option (string * string) :=
  match s with
  | "" => None
  | String d s' =>
      match cut_last c s' with
      | Some (a, b) => Some (String d a, b)
      | None => if Ascii.eqb d c then Some ("", s') else None
      end
  end.

(** [net.SplitHostPort]; the errors are all alike to the callers. *)
Definition SplitHostPort (hostport : string) : option (string * string) :=
  match cut_last ":" hostport with
  | None => None
  | Some (before, port) =>
      match hostport with
      | String "["%char rest =>
          match cut_first "]" rest with
          | None => None
          | Some (host, after) =>
              if String.eqb after (String ":" port) && free_of "[" rest && free_of "]" after
              then Some (host, port) else None
          end
      | _ =>
          if free_of ":" before && free_of "[" hostport && free_of "]" hostport
          then Some (before, port) else None
      end
  end.

(** [net.JoinHostPort] *)
Definition JoinHostPort (host port : string) : string :=
  if free_of ":" host then host +:+ ":" +:+ port else "[" +:+ host +:+ "]:" +:+ port.

(** [strconv.ParseInt(s, 10, 32)]: the value it returns, also with an error: zero for a syntax
    error, the nearest value for one out of range. *)
Definition ParseInt32 (s : string) : Z :=
  let v := match s with
           | String "+"%char r => parse_digits r
           | String "-"%char r => Z.opp <$> parse_digits r
           | _ => parse_digits s
           end in
  match v with
  | Some z => Z.max min_int32 (Z.min max_int32 z)
  | None => 0
  end.

Definition GetIPFromEndpoint (endpoint : string) : string :=
  match SplitHostPort endpoint with Some (host, _) => host | None => "" end.

Definition GetPortFromEndpoint (endpoint : string) : Z :=
  match SplitHostPort endpoint with Some (_, port) => ParseInt32 port | None => 0 end.

Definition NewMonInfo (name ip : string) (port : Z) : MonInfo :=
  {| Name := name; Endpoint := JoinHostPort ip (Itoa port); OutOfQuorum := false |}.

Lemma cut_first_free c a b : free_of c a = true -> cut_first c (a +:+ String c b) = Some (a, b).
Proof.
  induction a as [|d a IH]; intros Ha.
  - cbn. by rewrite Ascii.eqb_refl.
  - apply andb_prop in Ha as [Hd%negb_true_iff Ha].
    change (String d a +:+ String c b) with (String d (a +:+ String c b)). cbn [cut_first].
    by rewrite Hd, IH.
Qed.

Lemma cut_last_none c s : free_of c s = true -> cut_last c s = None.
Proof.
  induction s as [|d s IH]; [done|]. intros [Hd%negb_true_iff Hs]%andb_prop. cbn [cut_last].
  by rewrite (IH Hs), Hd.
Qed.

Lemma cut_last_free c a b : free_of c b = true -> cut_last c (a +:+ String c b) = Some (a, b).
Proof.
  intros Hb. induction a as [|d a IH].
  - change ("" +:+ String c b) with (String c b). cbn [cut_last].
    by rewrite cut_last_none, Ascii.eqb_refl.
  - change (String d a +:+ String c b) with (String d (a +:+ String c b)). cbn [cut_last]. by rewrite IH.
Qed.

Lemma not_bracket (A : Type) (s : string) (f : string -> A) (x : A) :
  free_of "[" s = true -> match s with String "["%char r => f r | _ => x end = x.
Proof. destruct s as [|c s]; [done|]. by destruct c as [[] [] [] [] [] [] [] []]. Qed.

(** An address is split where it was joined, IPv6 addresses included. *)
Lemma SplitHostPort_Join host port :
  free_of "[" host = true -> free_of "]" host = true ->
  free_of ":" port = true -> free_of "[" port = true -> free_of "]" port = true ->
  SplitHostPort (JoinHostPort host port) = Some (host, port).
Proof.
  intros H1 H2 H3 H4 H5. unfold JoinHostPort, SplitHostPort. destruct (free_of ":" host) eqn:H6.
  - change (":" +:+ port) with (String ":" port). rewrite cut_last_free by done.
    rewrite not_bracket by (rewrite free_of_app, H1; exact H4).
    rewrite H6, !free_of_app, H1, H2. change (free_of ?c (String ":" port)) with (free_of c port).
    by rewrite H4, H5.
  - change ("[" +:+ host +:+ "]:" +:+ port) with (String "[" (host +:+ String "]" (String ":" port))).
    replace (String "[" (host +:+ String "]" (String ":" port)))
      with ((String "[" (host +:+ "]")) +:+ String ":" port) at 1
      by (cbn [String.append]; by rewrite app_string_assoc).
    rewrite cut_last_free, cut_first_free by done.
    rewrite String.eqb_refl, free_of_app, H1.
    change (free_of "[" (String "]" (String ":" port))) with (free_of "[" port).
    change (free_of "]" (String ":" port)) with (free_of "]" port). by rewrite H4, H5.
Qed.

Lemma ParseInt32_Itoa z : 0 <= z <= max_int32 -> ParseInt32 (Itoa z) = z.
Proof.
  intros Hz. unfold ParseInt32. pose proof (parse_digits_Itoa z ltac:(lia)) as Hp.
  destruct (Itoa_digits z ltac:(lia)) as [Hd _]. destruct (Itoa z) as [|c s]; [done|].
  apply andb_prop in Hd as [Hd _].
  assert (parse_digits (String c s) = Some z ->
          match (match String c s with
                 | String "+"%char r => parse_digits r
                 | String "-"%char r => Z.opp <$> parse_digits r
                 | _ => parse_digits (String c s)
                 end) with
          | Some z => Z.max min_int32 (Z.min max_int32 z)
          | None => 0
          end = z) as H; [|by apply H].
  intros E. assert (Z.max min_int32 (Z.min max_int32 z) = z) as Hz' by (unfold min_int32, max_int32 in *; lia).
  destruct c as [[] [] [] [] [] [] [] []]; try discriminate Hd; by rewrite E.
Qed.

(** The address and the port of a mon are read back from its endpoint, for IPv4 and IPv6
    addresses and every port. *)
Theorem endpoint_roundtrip name ip port :
  free_of "[" ip = true -> free_of "]" ip = true -> 0 <= port <= max_int32 ->
  GetIPFromEndpoint (Endpoint (NewMonInfo name ip port)) = ip /\
  GetPortFromEndpoint (Endpoint (NewMonInfo name ip port)) = port.
Proof.
  intros H1 H2 Hp. unfold GetIPFromEndpoint, GetPortFromEndpoint, NewMonInfo. simpl.
  rewrite SplitHostPort_Join by (done || by apply Itoa_free; [lia|]).
  split; [done|]. by apply ParseInt32_Itoa.
Qed.

Lemma endpoint_roundtrip_witness :
  GetIPFromEndpoint (Endpoint (NewMonInfo "a" "fd00::1" 3300)) = "fd00::1" /\
  GetPortFromEndpoint (Endpoint (NewMonInfo "a" "fd00::1" 3300)) = 3300.
Proof. apply endpoint_roundtrip; [reflexivity|reflexivity|vm_compute; split; discriminate]. Defined.

(** ** The config map *)

Definition EndpointDataKey : string := "data".

Definition EndpointExternalMonsKey : string := "externalMons".

Definition OutOfQuorumKey : string := "outOfQuorum".

Definition MaxMonIDKey : string := "maxMonId".

Definition MappingKey : string := "mapping".

Definition CsiConfigKey : string := "csi-cluster-config-json".

Definition AppName : string := "rook-ceph-mon".

Record MonScheduleInfo := { sched_name : string; Hostname : string; Address : string; sched_zone : string }.

(** A nil pointer is [None]. *)
Definition Mapping : Type := gmap string (option MonScheduleInfo).

(** The part of the cluster info the config map keeps. *)
Record MonConfig := {
  InternalMonitors : gmap string MonInfo;
  ExternalMons : gmap string MonInfo;
  mapping : Mapping;
}.

Definition AllMonitors (c : MonConfig) : gmap string MonInfo :=
  if decide (ExternalMons c = ∅) then InternalMonitors c
  else ExternalMons c ∪ InternalMonitors c.

Definition flattenMonEndpoints (mons : list (string * MonInfo)) : string :=
  Join ((fun m => Name m.2 +:+ "=" +:+ Endpoint m.2) <$> mons) ",".

(** One entry of the flattened list. *)
Definition parse_mon (mons : gmap string MonInfo) (rawMon : string) : gmap string MonInfo :=
  match split_byte "=" rawMon with
  | [name; endpoint] => <[name := {| Name := name; Endpoint := endpoint; OutOfQuorum := false |}]> mons
  | _ => mons
  end.

Definition ParseMonEndpoints (input : string) : gmap string MonInfo :=
  foldl parse_mon ∅ (split_byte "," input).

Definition TrimPrefix (s prefix : string) : string := default s (strip_prefix prefix s).

Definition fullNameToIndex (name : string) : result Z :=
  NameToIndex (TrimPrefix (TrimPrefix name AppName) "-").

(** [id, _ := fullNameToIndex(m.Name)] *)
Definition mon_index (name : string) : Z := match fullNameToIndex name with Ok i => i | Err _ => -1 end.

Definition set_out_of_quorum (mons : gmap string MonInfo) (name : string) : gmap string MonInfo :=
  match mons !! name with
  | Some m => <[name := {| Name := Name m; Endpoint := Endpoint m; OutOfQuorum := true |}]> mons
  | None => mons
  end.

Section Json.
(** [encoding/json] on the mapping: [Unmarshal] gives what it leaves in its argument. *)
Context (marshal : Mapping -> string) (unmarshal : string -> Mapping).

(** The data [persistExpectedMonDaemonsInConfigMap] stores: all mons, the internal and the
    external ones in the order of the visit, the stored maximum ID and the CSI value. *)
Definition endpoint_data (all internal : list (string * MonInfo)) (external : list string)
    (map_ : Mapping) (maxMonID csi : string) : gmap string string :=
  list_to_map
    [(EndpointDataKey, flattenMonEndpoints all);
     (EndpointExternalMonsKey, Join external ",");
     (MaxMonIDKey, maxMonID);
     (MappingKey, marshal map_);
     (OutOfQuorumKey, Join (List.filter (fun m => OutOfQuorum m.2) internal).*1 ",");
     (CsiConfigKey, csi)].

(** [loadMonConfig] on the data of a config map it found; [visit] lists the parsed mons in the
    order of the visit. *)
Definition loaded_mons (data : gmap string string) : gmap string MonInfo :=
  let mons := match data !! EndpointDataKey with Some info => ParseMonEndpoints info | None => ∅ end in
  match data !! OutOfQuorumKey with
  | Some s => if String.eqb s "" then mons else foldl set_out_of_quorum mons (split_byte "," s)
  | None => mons
  end.

Definition loaded_max (data : gmap string string) (visit : list (string * MonInfo)) : Z :=
  let stored := match data !! MaxMonIDKey with Some id => default (-1) (Atoi id) | None => -1 end in
  foldl (fun maxMonID m => if maxMonID <? mon_index (Name m.2) then mon_index (Name m.2) else maxMonID)
        stored visit.

Definition loadMonConfig (data : gmap string string) (visit : list (string * MonInfo)) :
    gmap string MonInfo * gmap string MonInfo * Z * Mapping :=
  let mons := loaded_mons data in
  let maxMonID := loaded_max data visit in
  let map_ := unmarshal (default "" (data !! MappingKey)) in
  match data !! EndpointExternalMonsKey with
  | Some ids =>
      if String.eqb ids "" then (∅, mons, maxMonID, map_)
      else
        let external := split_byte "," ids in
        (filter (fun m => m.1 ∈ external) mons, filter (fun m => m.1 ∉ external) mons, maxMonID, map_)
  | None => (∅, mons, maxMonID, map_)
  end.

(** ** Saving and loading *)

(** Names and endpoints without the separators, each mon under its own name, the external ones
    apart and not marked out of quorum. *)
Record storable (c : MonConfig) : Prop := {
  st_named k m : AllMonitors c !! k = Some m -> Name m = k /\ k <> "" ;
  st_free k m : AllMonitors c !! k = Some m ->
    free_of "," k = true /\ free_of "=" k = true /\
    free_of "," (Endpoint m) = true /\ free_of "=" (Endpoint m) = true;
  st_disjoint : InternalMonitors c ##ₘ ExternalMons c;
  st_external k m : ExternalMons c !! k = Some m -> OutOfQuorum m = false;
}.

Lemma AllMonitors_union c : AllMonitors c = ExternalMons c ∪ InternalMonitors c.
Proof. unfold AllMonitors. case_decide as E; [|done]. rewrite E. by rewrite (left_id_L ∅ (∪)). Qed.

Definition in_quorum (m : MonInfo) : MonInfo :=
  {| Name := Name m; Endpoint := Endpoint m; OutOfQuorum := false |}.

Lemma parse_flattened l mons :
  Forall (fun m => free_of "=" (Name m.2) = true /\ free_of "=" (Endpoint m.2) = true /\ Name m.2 = m.1) l ->
  foldl parse_mon mons ((fun m => Name m.2 +:+ "=" +:+ Endpoint m.2) <$> l) =
  foldl (fun acc m => <[m.1 := in_quorum m.2]> acc) mons l.
Proof.
  intros Hl. revert mons. induction Hl as [|m l (H1 & H2 & H3) Hl IH]; intros mons; [done|].
  cbn [fmap list_fmap foldl]. rewrite <- IH. f_equal. unfold parse_mon.
  change ("=" +:+ Endpoint m.2) with (String "=" (Endpoint m.2)).
  rewrite split_byte_app, split_byte_free by done. unfold in_quorum. by rewrite H3.
Qed.

Lemma foldl_insert l (mons : gmap string MonInfo) :
  NoDup l.*1 ->
  foldl (fun acc m => <[m.1 := in_quorum m.2]> acc) mons l = (in_quorum <$> list_to_map l) ∪ mons.
Proof.
  revert mons. induction l as [|[k m] l IH]; intros mons Hnd; cbn [foldl].
  - by rewrite list_to_map_nil, fmap_empty, (left_id_L ∅ (∪)).
  - apply NoDup_cons in Hnd as [Hk Hnd]. rewrite IH by done. cbn [fst snd list_to_map foldr].
    change (list_to_map ((k, m) :: l)) with (<[k := m]> (list_to_map (M := gmap string MonInfo) l)).
    rewrite fmap_insert. rewrite <- insert_union_r; [by rewrite insert_union_l|].
    rewrite lookup_fmap, not_elem_of_list_to_map_1 by done. done.
Qed.

(** Every enumeration of the mons is read back to the same map. *)
Lemma Parse_flatten (mons : gmap string MonInfo) l :
  l ≡ₚ map_to_list mons ->
  (forall k m, mons !! k = Some m -> Name m = k /\ free_of "," k = true /\ free_of "=" k = true /\
     free_of "," (Endpoint m) = true /\ free_of "=" (Endpoint m) = true) ->
  ParseMonEndpoints (flattenMonEndpoints l) = in_quorum <$> mons.
Proof.
  intros Hp Hfree. unfold ParseMonEndpoints, flattenMonEndpoints.
  assert (Forall (fun m => Name m.2 = m.1 /\ free_of "," m.1 = true /\ free_of "=" m.1 = true /\
            free_of "," (Endpoint m.2) = true /\ free_of "=" (Endpoint m.2) = true) l) as Hl.
  { rewrite Hp. apply Forall_forall. intros [k m] Hm%elem_of_map_to_list. by apply Hfree. }
  assert (NoDup l.*1) as Hnd by (rewrite Hp; apply NoDup_fst_map_to_list).
  assert (list_to_map l = mons) as Hmap.
  { rewrite (list_to_map_proper l (map_to_list mons)) by done. apply list_to_map_to_list. }
  destruct l as [|x l]; [by rewrite <- Hmap|].
  rewrite split_Join; [|done|].
  - rewrite parse_flattened.
    + rewrite foldl_insert by done. by rewrite (right_id_L ∅ (∪)), Hmap.
    + eapply Forall_impl; [exact Hl|]. cbn beta. intros m (-> & ?). naive_solver.
  - rewrite Forall_fmap. eapply Forall_impl; [exact Hl|]. cbn beta. intros m (E & H1 & H2 & H3 & H4).
    unfold compose. rewrite E, !free_of_app, H1. change (free_of "," ("=" +:+ ?x)) with (free_of "," x).
    by rewrite H3.
Qed.

Lemma lookup_set_out mons names k :
  foldl set_out_of_quorum mons names !! k =
  (fun m => if decide (k ∈ names) then {| Name := Name m; Endpoint := Endpoint m; OutOfQuorum := true |} else m)
    <$> mons !! k.
Proof.
  revert mons. induction names as [|n names IH]; intros mons; cbn [foldl].
  - by destruct (mons !! k).
  - rewrite IH. unfold set_out_of_quorum.
    destruct (decide (k = n)) as [->|Hne].
    + destruct (mons !! n) as [m|] eqn:E; [|by rewrite E]. rewrite lookup_insert_eq. simpl.
      rewrite (decide_True (P := n ∈ n :: names)) by (by left). by destruct (decide _).
    + assert (match mons !! n with
              | Some m => <[n := {| Name := Name m; Endpoint := Endpoint m; OutOfQuorum := true |}]> mons
              | None => mons end !! k = mons !! k) as ->.
      { destruct (mons !! n); [|done]. by rewrite lookup_insert_ne. }
      destruct (mons !! k); [|done]. simpl.
      destruct (decide (k ∈ names)); [by rewrite decide_True by (by right)|].
      by rewrite decide_False by (by intros [?|?]%elem_of_cons).
Qed.

Lemma Join_empty l : Forall (fun s => s <> "") l -> Join l "," = "" <-> l = [].
Proof.
  intros Hl. split; [|by intros ->]. destruct Hl as [|x l Hx Hl]; [done|]. unfold Join.
  destruct x as [|c x]; [done|]. by destruct l.
Qed.

Definition out_names (internal : list (string * MonInfo)) : list string :=
  (List.filter (fun m => OutOfQuorum m.2) internal).*1.

Section Roundtrip.
Context (c : MonConfig) (Hst : storable c).
Context (all internal : list (string * MonInfo)) (external : list string) (maxMonID csi : string).
Context (Hall : all ≡ₚ map_to_list (AllMonitors c)).
Context (Hint : internal ≡ₚ map_to_list (InternalMonitors c)).
Context (Hext : external ≡ₚ (map_to_list (ExternalMons c)).*1).

Abbreviation data := (endpoint_data all internal external (mapping c) maxMonID csi).

Lemma elem_of_out_names k :
  k ∈ out_names internal <-> exists m, InternalMonitors c !! k = Some m /\ OutOfQuorum m = true.
Proof.
  unfold out_names. rewrite list_elem_of_fmap. split.
  - intros ([k' m] & -> & [Hin Ho]%list_elem_of_In%filter_In). exists m. split; [|done].
    apply elem_of_map_to_list. rewrite <- Hint. by apply list_elem_of_In.
  - intros (m & Hm & Ho). exists (k, m). split; [done|]. apply list_elem_of_In, filter_In. split; [|done].
    apply list_elem_of_In. rewrite Hint. by apply elem_of_map_to_list.
Qed.

Lemma internal_all k m : InternalMonitors c !! k = Some m -> AllMonitors c !! k = Some m.
Proof.
  intros Hm. rewrite AllMonitors_union. apply lookup_union_Some_r; [|done].
  symmetry. apply Hst.
Qed.

Lemma external_all k m : ExternalMons c !! k = Some m -> AllMonitors c !! k = Some m.
Proof. intros Hm. rewrite AllMonitors_union. by apply lookup_union_Some_l. Qed.

Lemma out_names_proper : Forall (fun s => s <> "" /\ free_of "," s = true) (out_names internal).
Proof.
  apply Forall_forall. intros k (m & Hm%internal_all & _)%elem_of_out_names.
  destruct (st_named c Hst _ _ Hm), (st_free c Hst _ _ Hm). naive_solver.
Qed.

Lemma elem_of_external k : k ∈ external <-> is_Some (ExternalMons c !! k).
Proof.
  rewrite Hext, list_elem_of_fmap. split.
  - intros ([k' m] & -> & Hm%elem_of_map_to_list). by eexists.
  - intros [m Hm]. exists (k, m). by rewrite elem_of_map_to_list.
Qed.

Lemma external_proper : Forall (fun s => s <> "" /\ free_of "," s = true) external.
Proof.
  apply Forall_forall. intros k [m Hm%external_all]%elem_of_external.
  destruct (st_named c Hst _ _ Hm), (st_free c Hst _ _ Hm). naive_solver.
Qed.

Lemma proper_split l :
  l <> [] -> Forall (fun s => s <> "" /\ free_of "," s = true) l ->
  String.eqb (Join l ",") "" = false /\ split_byte "," (Join l ",") = l.
Proof.
  intros Hne Hl. split.
  - apply String.eqb_neq. rewrite Join_empty; [done|]. eapply Forall_impl; [exact Hl|]. naive_solver.
  - apply split_Join; [done|]. eapply Forall_impl; [exact Hl|]. naive_solver.
Qed.

Lemma marked_lookup k :
  (fun m => if decide (k ∈ out_names internal)
            then {| Name := Name m; Endpoint := Endpoint m; OutOfQuorum := true |} else m)
    <$> (in_quorum <$> AllMonitors c) !! k = AllMonitors c !! k.
Proof.
  rewrite lookup_fmap. destruct (AllMonitors c !! k) as [m|] eqn:Hm; [|done]. simpl. f_equal.
  assert (OutOfQuorum m = true <-> k ∈ out_names internal) as Hiff.
  { rewrite elem_of_out_names. split; [|intros (m' & Hm'%internal_all & ?); naive_solver].
    intros Ho. rewrite AllMonitors_union in Hm. apply lookup_union_Some_raw in Hm as [Hm|[_ Hm]]; [|by exists m].
    by rewrite (st_external c Hst _ _ Hm) in Ho. }
  destruct (decide _) as [Hin|Hin]; destruct m as [n e o]; unfold in_quorum; simpl in *; f_equal.
  - symmetry. by apply Hiff.
  - destruct o; [|done]. exfalso. by apply Hin, Hiff.
Qed.

Lemma loaded_mons_saved : loaded_mons data = AllMonitors c.
Proof.
  unfold loaded_mons.
  change (data !! EndpointDataKey) with (Some (flattenMonEndpoints all)).
  change (data !! OutOfQuorumKey) with (Some (Join (out_names internal) ",")). cbv iota.
  rewrite (Parse_flatten (AllMonitors c) all Hall).
  2: { intros k m Hm. split; [by apply (st_named c Hst)|by apply (st_free c Hst)]. }
  apply map_eq. intros k. rewrite <- marked_lookup.
  destruct (decide (out_names internal = [])) as [E|E].
  - rewrite E. cbn [Join String.concat String.eqb]. by destruct (_ !! k).
  - destruct (proper_split _ E out_names_proper) as [-> ->]. apply lookup_set_out.
Qed.

Lemma filter_external : filter (fun m => m.1 ∈ external) (AllMonitors c) = ExternalMons c.
Proof.
  apply map_eq. intros k. apply option_eq. intros m. rewrite map_lookup_filter_Some, elem_of_external. split.
  - intros [Hm [m' Hm']]. cbn [fst] in Hm'. pose proof (external_all _ _ Hm'). congruence.
  - intros Hm. split; [by apply external_all|by eexists].
Qed.

Lemma filter_internal : filter (fun m => m.1 ∉ external) (AllMonitors c) = InternalMonitors c.
Proof.
  apply map_eq. intros k. apply option_eq. intros m. rewrite map_lookup_filter_Some, elem_of_external. split.
  - intros [Hm Hn]. rewrite AllMonitors_union in Hm. apply lookup_union_Some_raw in Hm as [Hm|[_ Hm]]; [|done].
    exfalso. apply Hn. by eexists.
  - intros Hm. split; [by apply internal_all|]. intros [m' Hm'].
    pose proof (st_disjoint c Hst) as Hd. by eapply map_disjoint_spec.
Qed.

Lemma loaded_max_spec d visit :
  let stored := match d !! MaxMonIDKey with Some id => default (-1) (Atoi id) | None => -1 end in
  loaded_max d visit = foldr Z.max stored ((fun m => mon_index (Name m.2)) <$> visit).
Proof.
  intros stored. unfold loaded_max. fold stored. clearbody stored. revert stored.
  assert (forall l s, foldr Z.max s (l : list Z) = Z.max s (foldr Z.max s l)) as Hbase
    by (induction l as [|x l IH]; intros s; simpl; [lia|]; specialize (IH s); lia).
  assert (forall (l : list Z) s t, foldr Z.max (Z.max s t) l = Z.max t (foldr Z.max s l)) as Hswap
    by (induction l as [|x l IH]; intros s t; simpl; [lia|]; rewrite IH; lia).
  induction visit as [|m visit IH]; intros stored; [done|]. cbn [foldl fmap list_fmap foldr].
  rewrite IH. replace (if stored <? mon_index (Name m.2) then mon_index (Name m.2) else stored)
    with (Z.max stored (mon_index (Name m.2))) by (destruct (Z.ltb_spec stored (mon_index (Name m.2))); lia).
  apply Hswap.
Qed.

(** C35: what the operator saves about its mons it loads again after a restart, whatever order the
    maps are visited in: the internal and the external mons with their endpoints and who is out
    of quorum, and the mapping; the maximum mon ID is the stored one unless a mon has a higher
    one. *)
Theorem save_load_roundtrip (visit : list (string * MonInfo)) (stored : Z) :
  unmarshal (marshal (mapping c)) = mapping c -> maxMonID = Itoa stored -> in_int64 stored = true ->
  visit ≡ₚ map_to_list (loaded_mons data) ->
  loadMonConfig data visit =
    (ExternalMons c, InternalMonitors c,
     foldr Z.max stored ((fun m => mon_index (Name m.2)) <$> visit), mapping c).
Proof.
  intros Hjson Hmax Hr Hvisit. unfold loadMonConfig. rewrite loaded_mons_saved, loaded_max_spec.
  change (data !! MaxMonIDKey) with (Some maxMonID).
  change (data !! MappingKey) with (Some (marshal (mapping c))).
  change (data !! EndpointExternalMonsKey) with (Some (Join external ",")).
  cbn [from_option]. unfold id. rewrite Hmax, (Atoi_Itoa _ Hr), Hjson. cbv iota. cbn [from_option].
  destruct (decide (external = [])) as [E|E].
  - assert (ExternalMons c = ∅) as Hemp.
    { apply map_eq. intros k. rewrite lookup_empty. apply eq_None_not_Some.
      rewrite <- elem_of_external, E. apply not_elem_of_nil. }
    rewrite Hemp. rewrite <- filter_internal, E. cbn [Join String.concat String.eqb].
    f_equal. f_equal. f_equal. symmetry. apply map_filter_id. intros ? ? _. apply not_elem_of_nil.
  - destruct (proper_split _ E external_proper) as [-> ->].
    by rewrite filter_external, filter_internal.
Qed.

End Roundtrip.

End Json.

(** ** Witnesses *)

Definition demo_config : MonConfig :=
  {| InternalMonitors := <["a" := {| Name := "a"; Endpoint := "10.0.0.1:3300"; OutOfQuorum := false |}]>
                        {[ "c" := {| Name := "c"; Endpoint := "[fd00::3]:6789"; OutOfQuorum := true |} ]};
     ExternalMons := {[ "x" := {| Name := "x"; Endpoint := "10.1.0.9:6789"; OutOfQuorum := false |} ]};
     mapping := {[ "a" := Some {| sched_name := "n1"; Hostname := "n1"; Address := ""; sched_zone := "" |} ]} |}.

Lemma demo_storable : storable demo_config.
Proof.
  split.
  - apply (map_Forall_lookup (fun k m => Name m = k /\ k <> "")), (bool_decide_unpack _). vm_compute. exact I.
  - apply (map_Forall_lookup (fun k m => free_of "," k = true /\ free_of "=" k = true /\
      free_of "," (Endpoint m) = true /\ free_of "=" (Endpoint m) = true)), (bool_decide_unpack _).
    vm_compute. exact I.
  - apply (bool_decide_unpack _). vm_compute. exact I.
  - apply (map_Forall_lookup (fun _ m => OutOfQuorum m = false)), (bool_decide_unpack _). vm_compute. exact I.
Qed.

Definition demo_data : gmap string string :=
  endpoint_data (fun _ => "{}") (map_to_list (AllMonitors demo_config))
    (map_to_list (InternalMonitors demo_config)) (map_to_list (ExternalMons demo_config)).*1
    (mapping demo_config) (Itoa 1) "csi".

Lemma save_load_roundtrip_witness :
  loadMonConfig (fun _ => mapping demo_config) demo_data (map_to_list (loaded_mons demo_data)) =
    (ExternalMons demo_config, InternalMonitors demo_config,
     foldr Z.max 1 ((fun m => mon_index (Name m.2)) <$> map_to_list (loaded_mons demo_data)),
     mapping demo_config).
Proof.
  apply (save_load_roundtrip (fun _ => "{}") (fun _ => mapping demo_config) demo_config demo_storable
    (map_to_list (AllMonitors demo_config)) (map_to_list (InternalMonitors demo_config))
    (map_to_list (ExternalMons demo_config)).*1 (Itoa 1) "csi").
  - reflexivity.
  - reflexivity.
  - reflexivity.
  - reflexivity.
  - reflexivity.
  - reflexivity.
  - reflexivity.
Defined.

(** The index of an external mon counts towards the maximum mon ID: with the mon [x] of another
    cluster, the next internal mon after [c] would be [y]. *)
Example external_mon_raises_max :
  snd (fst (loadMonConfig (fun _ => ∅) demo_data (map_to_list (loaded_mons demo_data)))) = 23 /\
  IndexToName 24 = "y".
Proof. vm_compute. done. Qed.

End MonStore.
