(* ===== verification/Mon.v ===== *)
(** * Mon: orchestration and health of the Ceph monitors

    Models [pkg/operator/ceph/cluster/mon]: [health.go] (the health check, failover and removal
    of mons, external mons), [drain.go] (the budget of the mons), [util.go], [node.go] and, of
    [mon.go], the configuration of mons, their placement in zones, starting them and waiting
    for quorum, and the maximum mon ID.

    The operator's own state is the record [Cluster]; what it reaches outside is the class
    [MonEnv].  A handler runs on both and keeps what it changed when it fails. *)

From stdpp Require Import base gmap strings list fin_maps.
From Stdlib Require Import ZArith Ascii.
From S2P Require Import Prelude Names Topology GoTime MonStore.
Import DaemonName GoTime MonStore.
Open Scope Z_scope.

Module Mon.

(** ** Data *)

Record MonMapEntry := { entry_name : string; Rank : Z; PublicAddr : string }.

Record MonStatusResponse := { Quorum : list Z; Mons : list MonMapEntry }.

Record MonZoneSpec := { zone_name : string; Arbiter : bool; zone_pvc : bool }.

(** The part of the cluster's specification the mons depend on.  [StretchZones] is empty
    without a stretch cluster. *)
Record MonSpec := {
  MonCount : Z;
  AllowMultiplePerNode : bool;
  ExternalMonIDs : list string;
  StretchZones : list MonZoneSpec;
  PlainZones : list MonZoneSpec;
  FloatingMonName : string;
  VolumeClaimTemplate : bool;
  ExternalEnable : bool;
  CephImage : string;
  IsHost : bool;
  MultiClusterService : bool;
  RequireMsgr2 : bool;
  ManagePodBudgets : bool;
}.

Record monConfig := {
  ResourceName : string;
  DaemonName : string;
  PublicIP : string;
  Port : Z;
  Zone : string;
  NodeName : string;
  UseHostNetwork : bool;
}.

(** The state of the operator's mon cluster, with the package variables. *)
Record Cluster := {
  info : MonConfig;
  maxMonID : Z;
  monTimeoutList : gmap string Z;
  monsToFailover : gmap string monConfig;
  waitForStart : bool;
  isUpgrade : bool;
  MonOutTimeout : Z;
  retriesBeforeNodeDrainFailover : Z;
  needToCheckMonsOnSameNode : bool;
}.

Definition with_info (c : Cluster) (i : MonConfig) : Cluster :=
  {| info := i; maxMonID := maxMonID c; monTimeoutList := monTimeoutList c;
     monsToFailover := monsToFailover c; waitForStart := waitForStart c; isUpgrade := isUpgrade c;
     MonOutTimeout := MonOutTimeout c; retriesBeforeNodeDrainFailover := retriesBeforeNodeDrainFailover c;
     needToCheckMonsOnSameNode := needToCheckMonsOnSameNode c |}.

Definition with_max (n : Z) (c : Cluster) : Cluster :=
  {| info := info c; maxMonID := n; monTimeoutList := monTimeoutList c;
     monsToFailover := monsToFailover c; waitForStart := waitForStart c; isUpgrade := isUpgrade c;
     MonOutTimeout := MonOutTimeout c; retriesBeforeNodeDrainFailover := retriesBeforeNodeDrainFailover c;
     needToCheckMonsOnSameNode := needToCheckMonsOnSameNode c |}.

Definition with_timeouts (f : gmap string Z -> gmap string Z) (c : Cluster) : Cluster :=
  {| info := info c; maxMonID := maxMonID c; monTimeoutList := f (monTimeoutList c);
     monsToFailover := monsToFailover c; waitForStart := waitForStart c; isUpgrade := isUpgrade c;
     MonOutTimeout := MonOutTimeout c; retriesBeforeNodeDrainFailover := retriesBeforeNodeDrainFailover c;
     needToCheckMonsOnSameNode := needToCheckMonsOnSameNode c |}.

Definition with_failover_list (f : gmap string monConfig -> gmap string monConfig) (c : Cluster) : Cluster :=
  {| info := info c; maxMonID := maxMonID c; monTimeoutList := monTimeoutList c;
     monsToFailover := f (monsToFailover c); waitForStart := waitForStart c; isUpgrade := isUpgrade c;
     MonOutTimeout := MonOutTimeout c; retriesBeforeNodeDrainFailover := retriesBeforeNodeDrainFailover c;
     needToCheckMonsOnSameNode := needToCheckMonsOnSameNode c |}.

Definition with_retries (n : Z) (c : Cluster) : Cluster :=
  {| info := info c; maxMonID := maxMonID c; monTimeoutList := monTimeoutList c;
     monsToFailover := monsToFailover c; waitForStart := waitForStart c; isUpgrade := isUpgrade c;
     MonOutTimeout := MonOutTimeout c; retriesBeforeNodeDrainFailover := n;
     needToCheckMonsOnSameNode := needToCheckMonsOnSameNode c |}.

Definition with_node_check_done (c : Cluster) : Cluster :=
  {| info := info c; maxMonID := maxMonID c; monTimeoutList := monTimeoutList c;
     monsToFailover := monsToFailover c; waitForStart := waitForStart c; isUpgrade := isUpgrade c;
     MonOutTimeout := MonOutTimeout c; retriesBeforeNodeDrainFailover := retriesBeforeNodeDrainFailover c;
     needToCheckMonsOnSameNode := false |}.

Definition with_internal (f : gmap string MonInfo -> gmap string MonInfo) (c : Cluster) : Cluster :=
  with_info c {| InternalMonitors := f (InternalMonitors (info c));
                 ExternalMons := ExternalMons (info c); mapping := mapping (info c) |}.

Definition with_external (f : gmap string MonInfo -> gmap string MonInfo) (c : Cluster) : Cluster :=
  with_info c {| InternalMonitors := InternalMonitors (info c);
                 ExternalMons := f (ExternalMons (info c)); mapping := mapping (info c) |}.

Definition with_schedule (f : Mapping -> Mapping) (c : Cluster) : Cluster :=
  with_info c {| InternalMonitors := InternalMonitors (info c);
                 ExternalMons := ExternalMons (info c); mapping := f (mapping (info c)) |}.

Definition internal (c : Cluster) : gmap string MonInfo := InternalMonitors (info c).

Definition external (c : Cluster) : gmap string MonInfo := ExternalMons (info c).

Definition schedule (c : Cluster) : Mapping := mapping (info c).

Definition DefaultMsgr1Port : Z := 6789.

Definition DefaultMsgr2Port : Z := 3300.

(** A pod and a deployment of a mon, as far as they are read. *)
Record MonPod := { pod_labels : gmap string string; pod_node : string }.

Record MonDeployment := { mondep_labels : gmap string string; AvailableReplicas : Z }.

(** An existing deployment of a mon: whether a volume of it is a claim, its label [pvc_name] and its
    node selector. *)
Record ExistingDeployment := {
  has_pvc : bool;
  pvc_name : string;
  existing_selector : gmap string string;
}.

(** What is set on the pods of a mon that is not floating: its claim if it has one, the zone of its
    placement, whether the anti-affinity is required, and the node selector. *)
Record Placement := {
  data_pvc : option string;
  placement_zone : string;
  anti_affinity_required : bool;
  node_selector : gmap string string;
}.

Record K8sNode := {
  k8s_name : string;
  k8s_labels : gmap string string;
  k8s_annotations : gmap string string;
  Addresses : list (string * string);    (* type and address *)
}.

(** ** Pure helpers *)

Definition monInQuorum (monitor : MonMapEntry) (quorum : list Z) : bool :=
  bool_decide (Rank monitor ∈ quorum).

(** The first entry with the name decides. *)
Definition getMonByID (monID : string) (status : MonStatusResponse) : option (MonMapEntry * bool) :=
  match List.find (fun m => String.eqb (entry_name m) monID) (Mons status) with
  | Some m => Some (m, bool_decide (Rank m ∈ Quorum status))
  | None => None
  end.

Definition monFoundInQuorum (name : string) (status : MonStatusResponse) : bool :=
  match List.find (fun m => String.eqb name (entry_name m)) (Mons status) with
  | None => false
  | Some m => bool_decide (Rank m ∈ Quorum status)
  end.

Definition removeMonsFromQuorumStatusResponse (status : MonStatusResponse) (idsToRemove : list string) :
    MonStatusResponse :=
  let keepMons := List.filter (fun m => bool_decide (entry_name m ∉ idsToRemove)) (Mons status) in
  let removeFromQuorum := Rank <$> List.filter (fun m => bool_decide (entry_name m ∈ idsToRemove)) (Mons status) in
  {| Quorum := List.filter (fun r => bool_decide (r ∉ removeFromQuorum)) (Quorum status);
     Mons := keepMons |}.

Definition resourceName (name : string) : string :=
  if HasPrefix name AppName then name else AppName +:+ "-" +:+ name.

Definition monIPAnnotation : string := "network.rook.io/mon-ip".

Definition hasMonPathChanged (d : ExistingDeployment) (claim : bool) : bool :=
  if String.eqb (pvc_name d) "" && claim then true
  else negb (String.eqb (pvc_name d) "") && negb claim.

(** [customHostnameLabel]: the hostname label set in the environment (file Topology). *)
Definition getNodeInfoFromNode (customHostnameLabel : string) (n : K8sNode) : result MonScheduleInfo :=
  let mk address := {| sched_name := k8s_name n; Hostname := default "" (k8s_labels n !! Topology.LabelHostname customHostnameLabel);
                       Address := address; sched_zone := "" |} in
  match k8s_annotations n !! monIPAnnotation with
  | Some customIP => Ok (mk customIP)
  | None =>
      let first type := default "" (snd <$> List.find (fun a => String.eqb a.1 type) (Addresses n)) in
      let address := if String.eqb (first "InternalIP") "" then first "ExternalIP" else first "InternalIP" in
      if String.eqb address "" then Err (Errorf "failed to find any IP on node %s" [k8s_name n])
      else Ok (mk address)
  end.

Section WithSpec.
Context (spec : MonSpec).

Definition IsStretchCluster : bool := match StretchZones spec with [] => false | _ => true end.

Definition ZonesRequired : bool :=
  IsStretchCluster || match PlainZones spec with [] => false | _ => true end.

(** The zones that count: those of the stretch cluster if there is one. *)
Definition zones : list MonZoneSpec := if IsStretchCluster then StretchZones spec else PlainZones spec.

Definition getArbiterZone : string :=
  if IsStretchCluster then default "" (zone_name <$> List.find Arbiter (StretchZones spec)) else "".

Definition isArbiterZone (zone : string) : bool := IsStretchCluster && String.eqb getArbiterZone zone.

Definition isFloatingMon (name : string) : bool :=
  negb (String.eqb (FloatingMonName spec) "") && String.eqb name (FloatingMonName spec).

(** Whether there is a claim template for the mon. *)
Definition monVolumeClaimTemplate (m : monConfig) : bool :=
  if ZonesRequired then
    match List.find (fun z => String.eqb (zone_name z) (Zone m)) zones with
    | Some z => zone_pvc z || VolumeClaimTemplate spec
    | None => VolumeClaimTemplate spec
    end
  else VolumeClaimTemplate spec.

Definition requiredDuringScheduling : bool := IsHost spec || negb (AllowMultiplePerNode spec).

Definition isMonIPUpdateRequiredForHostNetwork (isMonUsingHostNetwork : bool) : bool :=
  if IsHost spec && negb isMonUsingHostNetwork then true
  else negb (IsHost spec) && isMonUsingHostNetwork.

Definition monStatusToInfo (mon : MonMapEntry) : MonInfo :=
  let endpoint := default "" (head (split_byte "/" (PublicAddr mon))) in
  let monIP := GetIPFromEndpoint endpoint in
  let monPort := if RequireMsgr2 spec then DefaultMsgr2Port else GetPortFromEndpoint endpoint in
  NewMonInfo (entry_name mon) monIP monPort.

(** *** Configurations of mons *)

(** The mons of the cluster info in the order of the visit, without [excludedMon]. *)
Definition clusterInfoToMonConfigWithExclude (visit : list (string * MonInfo)) (map_ : Mapping)
    (excludedMon : string) : list monConfig :=
  (fun monitor =>
     let monPublicIP := GetIPFromEndpoint (Endpoint monitor) in
     let sched := mjoin (map_ !! Name monitor) in
     {| ResourceName := resourceName (Name monitor);
        DaemonName := Name monitor;
        PublicIP := monPublicIP;
        Port := GetPortFromEndpoint (Endpoint monitor);
        Zone := default "" (sched_zone <$> sched);
        NodeName := default "" (sched_name <$> sched);
        UseHostNetwork := match sched with Some s => String.eqb (Address s) monPublicIP | None => false end |})
  <$> List.filter (fun monitor => negb (String.eqb (Name monitor) excludedMon)) (snd <$> visit).

Definition clusterInfoToMonConfig (visit : list (string * MonInfo)) (map_ : Mapping) : list monConfig :=
  clusterInfoToMonConfigWithExclude visit map_ "".

Definition newMonConfig (monID : Z) (zone : string) : monConfig :=
  let daemonName := IndexToName monID in
  {| ResourceName := resourceName daemonName;
     DaemonName := daemonName;
     PublicIP := "";
     Port := if RequireMsgr2 spec then DefaultMsgr2Port else DefaultMsgr1Port;
     Zone := zone;
     NodeName := "";
     UseHostNetwork := IsHost spec |}.

(** [zoneCount[zone]], [None] when the key is missing. *)
Definition zone_count (zone : string) (mons : list monConfig) : option Z :=
  match List.filter (fun m => String.eqb (Zone m) zone) mons with
  | [] => None
  | l => Some (Z.of_nat (length l))
  end.

(** The zone takes another mon. *)
Definition zone_available (mons : list monConfig) (zone : MonZoneSpec) : bool :=
  match zone_count (zone_name zone) mons with
  | None => true
  | Some count => IsStretchCluster && (MonCount spec =? 5) && (count =? 1) && negb (Arbiter zone)
  end.

Definition findAvailableZone (mons : list monConfig) : result string :=
  if negb ZonesRequired then Ok ""
  else
    match List.find (fun m => String.eqb (Zone m) "") mons with
    | Some m => Err (Errorf "zone not found on mon %q" [DaemonName m])
    | None =>
        match List.find (zone_available mons) zones with
        | Some zone => Ok (zone_name zone)
        | None => Err (Errorf "A zone is not available to assign a new mon" [])
        end
    end.

(** The loop of [initMonConfig]: [n] more mons. *)
Fixpoint init_mons (n : nat) (maxMonID : Z) (mons : list monConfig) : Z * result (list monConfig) :=
  match n with
  | O => (maxMonID, Ok mons)
  | S n =>
      let maxMonID := wrap64 (maxMonID + 1) in
      match findAvailableZone mons with
      | Err e => (maxMonID, Err (Wrapf e "zone not available" []))
      | Ok zone => init_mons n maxMonID (mons ++ [newMonConfig maxMonID zone])
      end
  end.

(** *** Extra mons *)

(** The loop over the mons: the second mon on a node, else the last mon seen. *)
Fixpoint extra_mon (mons : list monConfig) (nodesWithMons : gset string) (arbitraryMon : string) : string :=
  match mons with
  | [] => arbitraryMon
  | mon :: rest =>
      if String.eqb (NodeName mon) "" then extra_mon rest nodesWithMons (DaemonName mon)
      else if bool_decide (NodeName mon ∈ nodesWithMons) then DaemonName mon
      else extra_mon rest ({[NodeName mon]} ∪ nodesWithMons) (DaemonName mon)
  end.

(** A zone with more mons than it should have. *)
Definition zone_overfull (mons : list monConfig) (zone : MonZoneSpec) : bool :=
  match zone_count (zone_name zone) mons with
  | None => false
  | Some count => if Arbiter zone then 1 <? count else 2 <? count
  end.

(** [monInZones]: the last mon seen in each zone.  Mons without a zone are not counted. *)
Definition findExtraMonToRemoveFromStretchCluster (mons : list monConfig) : string :=
  let mons := List.filter (fun m => negb (String.eqb (Zone m) "")) mons in
  match List.find (zone_overfull mons) (StretchZones spec) with
  | Some zone =>
      default "" (DaemonName <$> last (List.filter (fun m => String.eqb (Zone m) (zone_name zone)) mons))
  | None => ""
  end.

Definition determineExtraMonToRemove (mons : list monConfig) : string :=
  if IsStretchCluster then findExtraMonToRemoveFromStretchCluster mons
  else extra_mon mons ∅ "".

(** *** External mons *)

(** One mon of the status of an external cluster: the mons so far, and whether they changed. *)
Definition external_step (old : gmap string MonInfo) (quorum : list Z) (st : gmap string MonInfo * bool)
    (mon : MonMapEntry) : gmap string MonInfo * bool :=
  let '(new, changed) := st in
  let inQuorum := monInQuorum mon quorum in
  match old !! entry_name mon with
  | None => (if inQuorum then <[entry_name mon := monStatusToInfo mon]> new else new, true)
  | Some m => if inQuorum then (<[entry_name mon := m]> new, changed) else (new, true)
  end.

(** The mons of an external cluster after its status was read, and whether they changed. *)
Definition addOrRemoveExternalMonitor (internal : gmap string MonInfo) (status : MonStatusResponse) :
    gmap string MonInfo * bool :=
  let old : gmap string MonInfo := list_to_map ((fun kv => (Name kv.2, kv.2)) <$> map_to_list internal) in
  let '(new, changed) :=
    foldl (external_step old (Quorum status)) (∅, false) (Mons status) in
  let changed :=
    if negb (Nat.eqb (size old) (size new)) then true
    else changed || existsb (fun kv => bool_decide (old !! Name kv.2 <> Some kv.2)) (map_to_list new) in
  (new, changed).

Definition getMaxUnavailableMonPodCount : Z := if 5 <=? MonCount spec then 2 else 1.

(** How many mons may be drained with the given status. *)
Definition allowedDown (status : MonStatusResponse) : Z :=
  let downMonCount := Z.of_nat (length (Mons status)) - Z.of_nat (length (Quorum status)) in
  Z.max (wrap32 (getMaxUnavailableMonPodCount - wrap32 downMonCount)) 0.

End WithSpec.

(** ** The environment *)

Class MonEnv (E : Type) := {
  (** the order in which a range visits a map *)
  visit : forall {A}, gmap string A -> M E (list (string * A));
  now : M E Z;
  ctx_err : M E (option gerror);
  sleep : Z -> M E unit;
  cluster_initialized : M E unit;
  (** Ceph *)
  GetMonQuorumStatus : M E MonStatusResponse;
  mon_remove : string -> M E unit;
  mon_version_count : M E Z;    (* how many versions the mons run *)
  validate_external_version : M E unit;
  (** Kubernetes *)
  GetDaemonsToSkipReconcile : M E (list string);
  ConfigureExternalMetricsEndpoint : M E unit;
  get_mon_pdb : M E Z;          (* the budget's maximum of unavailable pods *)
  createOrUpdateMonPDB : Z -> M E unit;
  IsPodScheduled : string -> M E bool;
  NodeWithHostnameExists : string -> M E bool;
  PodsRunningWithLabel : string -> string -> M E Z;
  list_mon_pods : M E (list MonPod);
  list_mon_deployments : M E (list MonDeployment);
  list_mon_pvcs : M E (list string);
  get_deployment : string -> M E unit;
  set_replicas : string -> Z -> M E unit;
  delete_service : string -> M E unit;
  delete_pvc : string -> M E unit;
  delete_deployment : string -> M E unit;
  removeCanaryDeployments : M E unit;
  IsServiceExported : string -> M E bool;
  createService : monConfig -> M E string;        (* its cluster IP *)
  exportService : string -> M E string;           (* the exported IP *)
  get_endpoint_map : M E (gmap string string);
  update_endpoint_map : gmap string string -> M E unit;
  CreateBootstrapPeerSecret : MonConfig -> M E unit;
  (** persisting the mons, and writing the connection data *)
  persistExpectedMonDaemonsInConfigMap : MonConfig -> M E unit;
  persistExpectedMonDaemonsAsEndpointSlice : MonConfig -> M E unit;
  update_config_store : MonConfig -> M E unit;
  WriteConnectionConfig : MonConfig -> M E unit;
  openshift : bool;             (* the operator runs in an OpenShift namespace *)
  CreateUpdateCephConnection : MonConfig -> M E unit;
  CreateDefaultClientProfile : MonConfig -> M E unit;
  (** placing one mon: the canary deployment, and the node it got *)
  scheduleMonitor : monConfig -> M E string;
  waitForMonitorScheduling : string -> M E (option K8sNode);
  (** the deployment of one mon: building it, floating or not, gives its name *)
  build_deployment : monConfig -> bool -> M E string;
  set_applied_annotation : string -> M E unit;
  get_mon_deployment : string -> M E ExistingDeployment;
  create_deployment : string -> option Placement -> M E unit;
  update_deployment_and_wait : string -> option Placement -> M E unit;
  make_pvc : monConfig -> M E unit;
  get_pvc : string -> M E unit;
  expand_pvc : string -> M E unit;
  create_pvc : string -> M E unit;
  SetOrRemoveDefaultConfigs : M E unit;
  ApplyCephNetworkSettings : M E unit;
  configureStretchCluster : list monConfig -> M E unit;
  ConfigureArbiter : M E unit;
  customHostnameLabel : string;
}.

Section Operations.
Context {E : Type} `{MonEnv E} (spec : MonSpec).

Abbreviation MM A := (M (E * Cluster) A).

Definition env {A} (m : M E A) : MM A := fun ec =>
  let '(e', r) := m ec.1 in ((e', ec.2), r).

Definition get : MM Cluster := fun ec => (ec, Ok ec.2).

Definition modify (f : Cluster -> Cluster) : MM unit := fun ec => ((ec.1, f ec.2), Ok ()).

(** [if err := m(); err != nil { log }] *)
Definition logged {W A} (m : M W A) : M W unit := r ← try_ m; mret ().

(** *** The budget of the mons *)

Definition getExistingMaxUnavailable : M E Z :=
  r ← try_ get_mon_pdb;
  match r with
  | Ok n => mret n
  | Err e => if IsNotFound e then mret (-1) else fail (Wrapf e "failed to get mon pdb %q" [])
  end.

(** The status it read, if any, and its error. *)
Definition reconcileMonPDB : M E (option MonStatusResponse * result unit) :=
  if negb (ManagePodBudgets spec) then mret (None, Ok ())
  else if MonCount spec <=? 2 then mret (None, Ok ())
  else
    r ← try_ GetMonQuorumStatus;
    match r with
    | Err e => mret (None, Err (Wrapf e "failed to get mon quorum status" []))
    | Ok quorumStatus =>
        let allowed := allowedDown spec quorumStatus in
        cur ← try_ getExistingMaxUnavailable;
        match cur with
        | Ok current =>
            if current =? allowed then mret (Some quorumStatus, Ok ())
            else
              u ← try_ (createOrUpdateMonPDB allowed);
              mret (Some quorumStatus, wrap_err u "failed to reconcile mon pdb on op %q" [])
        | Err _ =>
            u ← try_ (createOrUpdateMonPDB allowed);
            mret (Some quorumStatus, wrap_err u "failed to reconcile mon pdb on op %q" [])
        end
    end.

(** *** Saving the mons *)

Definition persistExpectedMonDaemons (info : MonConfig) : M E unit :=
  _ ← wrapM (persistExpectedMonDaemonsInConfigMap info) "failed to persist expected mons in ConfigMap" [];
  wrapM (persistExpectedMonDaemonsAsEndpointSlice info) "failed to persist expected mons in EndpointSlice" [].

Definition saveMonConfig (info : MonConfig) : M E unit :=
  _ ← wrapM (persistExpectedMonDaemons info) "failed to persist expected mon daemons" [];
  _ ← wrapM (update_config_store info) "failed to update the global config" [];
  _ ← wrapM (WriteConnectionConfig info) "failed to write connection config for new mons" [];
  if bool_decide (AllMonitors info <> ∅) && negb openshift then
    _ ← wrapM (CreateUpdateCephConnection info) "failed to create/update cephConnection" [];
    wrapM (CreateDefaultClientProfile info) "failed to create/update default client profile" []
  else mret ().

(** *** Who is out of quorum *)

Definition UpdateMonsOutOfQuorum (monsOutOfQuorum : list string) : M E unit :=
  data ← wrapM get_endpoint_map "failed to get mon endpoints configmap" [];
  wrapM (update_endpoint_map (<[OutOfQuorumKey := Join monsOutOfQuorum ","]> data))
    "failed to update mon endpoints configmap with mon(s) out of quorum" [].

Definition set_quorum_flag (b : bool) (m : MonInfo) : MonInfo :=
  {| Name := Name m; Endpoint := Endpoint m; OutOfQuorum := b |}.

(** The flags after the call, whether something changed, and the names to store. *)
Definition track (mons : gmap string MonInfo) (monName : string) (inQuorum : bool) :
    option (gmap string MonInfo * bool * list string) :=
  if String.eqb monName "" then
    Some (set_quorum_flag false <$> mons, bool_decide (map_Exists (fun _ m => OutOfQuorum m = true) mons), [])
  else
    match mons !! monName with
    | None => None
    | Some mon =>
        Some (<[monName := set_quorum_flag (negb inQuorum) mon]> mons,
              Bool.eqb inQuorum (OutOfQuorum mon),
              if inQuorum then [] else [monName])
    end.

Definition trackMonInOrOutOfQuorum (monName : string) (inQuorum : bool) : MM bool :=
  c ← get;
  match track (internal c) monName inQuorum with
  | None => mret false
  | Some (mons, updateNeeded, monsOutOfQuorum) =>
      _ ← modify (with_internal (fun _ => mons));
      if (updateNeeded : bool) then
        c ← get;
        _ ← wrapM (env (WriteConnectionConfig (info c))) "failed to write connection config for new mons" [];
        _ ← wrapM (env (UpdateMonsOutOfQuorum monsOutOfQuorum)) "failed to update mon endpoints cm" [];
        mret true
      else mret false
  end.

(** *** Removing a mon *)

Definition ignore_notfound (m : M E unit) : M E unit := logged m.

Definition removeMonResources (daemonName : string) : M E unit :=
  let name := resourceName daemonName in
  _ ← ignore_notfound (delete_service name);
  _ ← ignore_notfound (delete_pvc name);
  ignore_notfound (delete_deployment name).

Definition removeMonitorFromQuorum (name : string) : M E unit :=
  wrapM (mon_remove name) "mon %s remove failed" [name].

Definition removeMonWithOptionalQuorum (daemonName : string) (shouldRemoveFromQuorum : bool) : MM unit :=
  if String.eqb daemonName "" then mret ()
  else
    _ ← (if shouldRemoveFromQuorum then logged (env (removeMonitorFromQuorum daemonName)) else mret ());
    _ ← modify (with_internal (delete daemonName));
    _ ← modify (with_schedule (delete daemonName));
    c ← get;
    _ ← wrapM (env (saveMonConfig (info c))) "failed to save mon config after failing over mon %s" [daemonName];
    _ ← wrapM (env (CreateBootstrapPeerSecret (info c))) "failed to update cluster rbd bootstrap peer token" [];
    env (removeMonResources daemonName).

Definition removeMon (daemonName : string) : MM unit := removeMonWithOptionalQuorum daemonName true.

(** *** The maximum mon ID *)

Definition getStoredMaxMonID : M E string :=
  r ← try_ get_endpoint_map;
  match r with
  | Err e => if IsNotFound e then mret "-1" else fail (Wrapf e "could not load maxMonId" [])
  | Ok data => mret (default "-1" (data !! MaxMonIDKey))
  end.

Definition commitMaxMonIDRequireIncrementing (desiredMaxMonID : Z) (requireIncrementing : bool) : M E unit :=
  data ← wrapM get_endpoint_map "failed to find existing mon endpoint config map" [];
  match Atoi (default "" (data !! MaxMonIDKey)) with
  | None => fail (Errorf "failed to read existing maxMonId" [])
  | Some existingMax =>
      if requireIncrementing && (desiredMaxMonID <=? existingMax) then mret ()
      else
        wrapM (update_endpoint_map (<[MaxMonIDKey := Itoa desiredMaxMonID]> data))
          "failed to update mon endpoint config map for the maxMonID" []
  end.

Definition commitMaxMonID (monName : string) : M E unit :=
  committedMonID ← wrapM (lift (NameToIndex monName)) "invalid mon name %q" [monName];
  commitMaxMonIDRequireIncrementing committedMonID true.

(** *** Waiting for quorum *)

Definition retryMax : nat := 60.

Definition FloatingMonAppName : string := "rook-ceph-floating-mon".

(** The pods of the mons: whether none was seen not running. *)
Fixpoint pods_running (mons : list string) (allPodsRunning : bool) : M E bool :=
  match mons with
  | [] => mret allPodsRunning
  | m :: rest =>
      let monLabel := if isFloatingMon spec m then FloatingMonAppName else AppName in
      r ← try_ (PodsRunningWithLabel monLabel m);
      pods_running rest (match r with Ok running => allPodsRunning && (0 <? running) | Err _ => allPodsRunning end)
  end.

(** [tries] attempts are left; the first one does not sleep. *)
Fixpoint wait_quorum (tries : nat) (first : bool) (mons : list string) (sleepTime : Z)
    (requireAllInQuorum : bool) : M E unit :=
  c ← ctx_err;
  match c with
  | Some e => fail e
  | None =>
      match tries with
      | O => fail (Errorf "exceeded max retry count waiting for monitors to reach quorum" [])
      | S tries =>
          _ ← (if first then mret () else sleep (sleepTime * Second));
          allPodsRunning ← pods_running mons true;
          if negb allPodsRunning && requireAllInQuorum
          then wait_quorum tries false mons sleepTime requireAllInQuorum
          else
            r ← try_ GetMonQuorumStatus;
            match r with
            | Err _ => wait_quorum tries false mons sleepTime requireAllInQuorum
            | Ok status =>
                if negb requireAllInQuorum || forallb (fun name => monFoundInQuorum name status) mons then mret ()
                else wait_quorum tries false mons sleepTime requireAllInQuorum
            end
      end
  end.

Definition waitForQuorumWithMons (mons : list string) (sleepTime : Z) (requireAllInQuorum : bool) : M E unit :=
  wait_quorum retryMax true mons sleepTime requireAllInQuorum.

Definition waitForMonsToJoin (mons : list monConfig) (requireAllInQuorum : bool) : MM unit :=
  c ← get;
  if negb (waitForStart c) then mret ()
  else wrapM (env (waitForQuorumWithMons (DaemonName <$> mons) 5 requireAllInQuorum)) "failed to wait for mon quorum" [].

(** *** Placing and starting mons *)

Definition check_ctx {W} (m : M W (option gerror)) : M W unit :=
  c ← m; match c with Some e => fail e | None => mret () end.

Definition set_ip (m : monConfig) (ip : string) (host : bool) : monConfig :=
  {| ResourceName := ResourceName m; DaemonName := DaemonName m; PublicIP := ip; Port := Port m;
     Zone := Zone m; NodeName := NodeName m; UseHostNetwork := host |}.

Definition service_ip (m : monConfig) (clusterIP : string) : M E string :=
  if MultiClusterService spec then
    wrapM (exportService (DaemonName m)) "failed to export service %q" [ResourceName m]
  else mret clusterIP.

(** The mons with their addresses set. *)
Fixpoint initMonIPs (mons : list monConfig) : MM (list monConfig) :=
  match mons with
  | [] => mret []
  | m :: rest =>
      _ ← check_ctx (env ctx_err);
      m' ← (if UseHostNetwork m then
              c ← get;
              match mjoin (schedule c !! DaemonName m) with
              | None => fail (Errorf "failed to find node for mon %q in assignment map" [DaemonName m])
              | Some node => mret (set_ip m (Address node) true)
              end
            else
              clusterIP ← wrapM (env (createService m)) "failed to create mon service" [];
              if String.eqb (PublicIP m) "" then
                ip ← env (service_ip m clusterIP); mret (set_ip m ip false)
              else mret m);
      _ ← modify (with_internal (<[DaemonName m' := NewMonInfo (DaemonName m') (PublicIP m') (Port m')]>));
      rest' ← initMonIPs rest;
      mret (m' :: rest')
  end.

(** The canary deployments of the mons that need a place. *)
Fixpoint place_mons (mons : list monConfig) (skip : list string) : MM (list (string * monConfig)) :=
  match mons with
  | [] => mret []
  | mon :: rest =>
      if isFloatingMon spec (DaemonName mon) then place_mons rest skip
      else
        _ ← check_ctx (env ctx_err);
        c ← get;
        if bool_decide (is_Some (schedule c !! DaemonName mon)) then place_mons rest skip
        else if bool_decide (DaemonName mon ∈ skip) then place_mons rest skip
        else
          deployment ← wrapM (env (scheduleMonitor mon)) "failed to schedule monitor" [];
          pending ← place_mons rest skip;
          mret ((deployment, mon) :: pending)
  end.

Definition place_of (mon : monConfig) (node : K8sNode) : result (option MonScheduleInfo) :=
  sched ← (if IsHost spec || negb (monVolumeClaimTemplate spec mon)
           then (n ← getNodeInfoFromNode customHostnameLabel node; Ok (Some n))
           else Ok None);
  Ok (if ZonesRequired spec then
        let s := default {| sched_name := ""; Hostname := ""; Address := ""; sched_zone := "" |} sched in
        Some {| sched_name := sched_name s; Hostname := Hostname s; Address := Address s; sched_zone := Zone mon |}
      else sched).

(** What the goroutines do.  Each waits for its own mon and writes its own key, so their order
    does not matter; the result says whether one has failed. *)
Fixpoint await_places (pending : list (string * monConfig)) : MM bool :=
  match pending with
  | [] => mret false
  | (deployment, mon) :: rest =>
      r ← try_ (env (waitForMonitorScheduling deployment));
      failed ← (match r with
                | Ok (Some node) =>
                    match place_of mon node with
                    | Ok sched => _ ← modify (with_schedule (<[DaemonName mon := sched]>)); mret false
                    | Err _ => mret true
                    end
                | _ => mret true
                end);
      failed' ← await_places rest;
      mret (failed || failed')
  end.

(** When a mon cannot be placed the call returns at once: what goroutines that are still waiting
    then write is not part of this call. *)
Definition assignMons (mons : list monConfig) (skip : list string) : MM unit :=
  r ← try_ (pending ← place_mons mons skip;
            failed ← await_places pending;
            if (failed : bool) then fail (Errorf "failed to schedule mons" []) else mret ());
  _ ← (if MultiClusterService spec then mret () else logged (env removeCanaryDeployments));
  lift r.

Definition DaemonIDLabel : string := "ceph_daemon_id".

(** The deployment of a mon that is not expected, if there are too many. *)
Definition extra_deployment (mons : list monConfig) (deployments : list MonDeployment) : option string :=
  let n := Z.of_nat (length deployments) in
  let k := Z.of_nat (length mons) in
  if (n <=? MonCount spec) || (n <=? k) then None
  else if k <? MonCount spec then None
  else
    head (List.filter (fun name => negb (existsb (fun m => String.eqb name (DaemonName m)) mons))
            ((fun d => default "" (mondep_labels d !! DaemonIDLabel)) <$> deployments)).

Definition checkForExtraMonResources (mons : list monConfig) (deployments : list MonDeployment) : M E unit :=
  match extra_deployment mons deployments with
  | None => mret ()
  | Some monName => removeMonResources monName
  end.

Definition updateMon (m : monConfig) (name : string) (p : option Placement) : M E unit :=
  _ ← (if monVolumeClaimTemplate spec m then
         _ ← wrapM (make_pvc m) "failed to make mon %q pvc" [name];
         _ ← wrapM (get_pvc (ResourceName m)) "failed to fetch pvc for mon %q" [ResourceName m];
         logged (expand_pvc (ResourceName m))
       else mret ());
  wrapM (update_deployment_and_wait name p) "failed to update mon deployment %s" [ResourceName m].

(** An existing deployment is updated, unless its storage or network has changed: then the mon is put
    on the failover list. *)
Definition configureDefaultMonStorage (m : monConfig) (name : string) (sched : option MonScheduleInfo)
    (existing : option ExistingDeployment) (pvcExists : bool) : MM Placement :=
  let claim := monVolumeClaimTemplate spec m in
  let deploymentExists := match existing with Some _ => true | None => false end in
  let zone := default "" (sched_zone <$> sched) in
  let place selector :=
    {| data_pvc := if pvcExists || (negb deploymentExists && claim) then Some (ResourceName m) else None;
       placement_zone := zone;
       anti_affinity_required := requiredDuringScheduling spec;
       node_selector := selector |} in
  let host s : gmap string string := {[Topology.LabelHostname customHostnameLabel := Hostname s]} in
  match existing with
  | Some d =>
      if hasMonPathChanged d (VolumeClaimTemplate spec) || isMonIPUpdateRequiredForHostNetwork spec (UseHostNetwork m)
      then _ ← modify (with_failover_list (<[DaemonName m := m]>)); mret (place ∅)
      else
        let selector :=
          if UseHostNetwork m || negb pvcExists then
            match sched with
            | Some s => if String.eqb (Hostname s) "" then existing_selector d else host s
            | None => existing_selector d
            end
          else ∅ in
        _ ← env (updateMon m name (Some (place selector)));
        mret (place selector)
  | None =>
      _ ← (if claim then
             _ ← wrapM (env (make_pvc m)) "failed to make mon %s pvc" [name];
             r ← try_ (env (create_pvc (ResourceName m)));
             match r with
             | Ok _ => mret ()
             | Err e => if IsAlreadyExists e then mret ()
                        else fail (Wrapf e "failed to create mon %s pvc %s" [name; ResourceName m])
             end
           else mret ());
      mret (place (match sched with
                   | None => ∅
                   | Some s => if claim && negb (String.eqb zone "") then ∅ else host s
                   end))
  end.

(** The deployment of a mon that has none. *)
Definition create_mon (m : monConfig) (name : string) (p : option Placement) : MM unit :=
  _ ← wrapM (env (create_deployment name p)) "failed to create mon deployment %s" [name];
  _ ← wrapM (env (commitMaxMonID (DaemonName m))) "failed to commit maxMonId after starting mon %q" [DaemonName m];
  c ← get;
  wrapM (env (persistExpectedMonDaemons (info c))) "failed to persist expected mon daemons" [].

Definition startMon (m : monConfig) (sched : option MonScheduleInfo) : MM unit :=
  let floating := isFloatingMon spec (DaemonName m) in
  name ← (if floating
          then wrapM (env (build_deployment m true)) "failed to build floating mon deployment for %q" [DaemonName m]
          else env (build_deployment m false));
  _ ← wrapM (env (set_applied_annotation name)) "failed to set annotation for deployment %q" [name];
  r ← try_ (env (get_mon_deployment name));
  existing ← (match r with
              | Ok d => mret (Some d)
              | Err e => if IsNotFound e then mret None
                         else fail (Wrapf e "failed to get mon deployment %s" [name])
              end);
  if floating then
    match existing with
    | Some _ => env (updateMon m name None)
    | None => create_mon m name None
    end
  else
    p ← configureDefaultMonStorage m name sched existing (default false (has_pvc <$> existing));
    match existing with
    | Some _ => mret ()
    | None => create_mon m name (Some p)
    end.

(** The loop over the mons [all], of which [mons] are left. *)
Fixpoint start_loop (all mons : list monConfig) (onlyCheckQuorumOnce : bool) (skip : list string) : MM unit :=
  match mons with
  | [] => mret ()
  | m :: rest =>
      if bool_decide (DaemonName m ∈ skip) then start_loop all rest onlyCheckQuorumOnce skip
      else
        c ← get;
        r ← try_ (startMon m (mjoin (schedule c !! DaemonName m)));
        _ ← (match r with
             | Ok _ => mret ()
             | Err e =>
                 if isUpgrade c then fail (Wrapf e "failed to upgrade mon %q." [DaemonName m])
                 else if isFloatingMon spec (DaemonName m)
                 then fail (Wrapf e "failed to start floating mon %q" [DaemonName m])
                 else mret ()
             end);
        _ ← (if negb onlyCheckQuorumOnce || match rest with [] => true | _ => false end
             then wrapM (waitForMonsToJoin all false) "failed to check mon quorum %s" [DaemonName m]
             else mret ());
        start_loop all rest onlyCheckQuorumOnce skip
  end.

Definition startDeployments (mons : list monConfig) (requireAllInQuorum : bool) (skip : list string) : MM unit :=
  match mons with
  | [] => fail (Errorf "cannot start 0 mons" [])
  | _ =>
      r ← try_ (env list_mon_deployments);
      let notFound := match r with Err e => IsNotFound e | Ok _ => false end in
      let deployments := match r with Ok l => l | Err _ => [] end in
      let ready := List.filter (fun d => 0 <? AvailableReplicas d) deployments in
      let onlyCheckQuorumOnce :=
        notFound || (length deployments <? length mons)%nat || match ready with [] => true | _ => false end in
      _ ← start_loop mons mons onlyCheckQuorumOnce skip;
      v ← try_ (env mon_version_count);
      let requireAllInQuorum := match v with Ok n => requireAllInQuorum || negb (n =? 1) | Err _ => requireAllInQuorum end in
      w ← try_ (waitForMonsToJoin mons requireAllInQuorum);
      _ ← env (checkForExtraMonResources mons deployments);
      lift w
  end.

(** The mons after their addresses were set, and the error. *)
Definition ensureMonsRunning (mons : list monConfig) (targetCount : Z) (requireAllInQuorum : bool)
    (skip : list string) : MM (list monConfig) :=
  c ← get;
  let n := Z.of_nat (size (internal c)) in
  let expectedMonCount := Z.to_nat (if n <? targetCount then n + 1 else n) in
  started ← wrapM (initMonIPs (take expectedMonCount mons)) "failed to init mon services" [];
  c ← get;
  _ ← wrapM (env (saveMonConfig (info c))) "failed to save mons" [];
  _ ← wrapM (startDeployments started requireAllInQuorum skip) "failed to start mon pods" [];
  mret (started ++ drop expectedMonCount mons).

Definition initMonConfig (size_ : Z) : MM (Z * list monConfig) :=
  c ← get;
  v ← env (visit (internal c));
  let existingCount := Z.of_nat (size (internal c)) in
  let '(newMax, r) := init_mons spec (Z.to_nat (size_ - existingCount)) (maxMonID c)
                        (clusterInfoToMonConfig v (schedule c)) in
  _ ← modify (with_max newMax);
  mons ← lift r;
  mret (existingCount, mons).

(** The new mons, one at a time: [n] are left; the first one has index [existingCount]. *)
Fixpoint start_new_mons (n : nat) (first : bool) (mons : list monConfig) (existingCount targetCount : Z)
    (setConfigsNeedsRetry : bool) (skip : list string) : MM unit :=
  match n with
  | O => mret ()
  | S n =>
      _ ← check_ctx (env ctx_err);
      mons ← ensureMonsRunning mons targetCount true skip;
      _ ← (if existingCount =? 0 then
             wrapM (env SetOrRemoveDefaultConfigs)
               "failed to set Rook and/or user-defined Ceph config options after creating the first mon" []
           else if setConfigsNeedsRetry && first then
             wrapM (env SetOrRemoveDefaultConfigs)
               "failed to set Rook and/or user-defined Ceph config options after updating the existing mons" []
           else mret ());
      start_new_mons n false mons existingCount targetCount setConfigsNeedsRetry skip
  end.

Definition removeOrphanMonResources : M E unit :=
  if negb (VolumeClaimTemplate spec) then mret ()
  else
    r ← try_ list_mon_pvcs;
    match r with
    | Err _ => mret ()
    | Ok pvcs =>
        forM_ pvcs (fun pvc =>
          d ← try_ (get_deployment pvc);
          match d with
          | Ok _ => mret ()
          | Err e => if IsNotFound e then logged (delete_pvc pvc) else mret ()
          end)
    end.

Definition startMons (targetCount : Z) : MM unit :=
  '(existingCount, mons) ← wrapM (initMonConfig targetCount) "failed to init mon config" [];
  skip ← wrapM (env GetDaemonsToSkipReconcile) "failed to check for mons to skip reconcile" [];
  _ ← wrapM (assignMons mons skip) "failed to assign pods to mons" [];
  setConfigsNeedsRetry ← (if 0 <? existingCount then
                            r ← try_ (env SetOrRemoveDefaultConfigs);
                            mret (negb (is_ok r))
                          else mret false);
  _ ← (if existingCount <? Z.of_nat (length mons) then
         start_new_mons (Z.to_nat (targetCount - existingCount)) true mons existingCount targetCount
           setConfigsNeedsRetry skip
       else
         _ ← ensureMonsRunning mons targetCount false skip;
         if (setConfigsNeedsRetry : bool) then
           wrapM (env SetOrRemoveDefaultConfigs)
             "failed to set Rook and/or user-defined Ceph config options after forcefully updating the existing mons" []
         else mret ());
  _ ← wrapM (env ApplyCephNetworkSettings) "failed to apply ceph network settings" [];
  _ ← (if IsStretchCluster spec
       then wrapM (env (configureStretchCluster mons)) "failed to configure stretch mons" []
       else mret ());
  '(_, pdb) ← env reconcileMonPDB;
  _ ← wrapM (lift pdb) "failed to reconcile mon PDB" [];
  env removeOrphanMonResources.

(** *** Failover *)

Definition updateMonDeploymentReplica (name : string) (enabled : bool) : M E unit :=
  _ ← wrapM (get_deployment (resourceName name)) "failed to get mon %q" [name];
  wrapM (set_replicas (resourceName name) (if enabled then 1 else 0))
    "failed to update mon %q replicas from %d to %d" [name].

Definition stopMonDuringFailover (c : Cluster) (name : string) : bool :=
  if negb (IsHost spec) then true
  else match monsToFailover c !! name with
       | Some mon => negb (UseHostNetwork mon)
       | None => false
       end.

(** The new mon with its address.  The entry of the schedule is never nil with host
    networking. *)
Definition mon_address (m : monConfig) : MM monConfig :=
  if IsHost spec then
    c ← get;
    match schedule c !! DaemonName m with
    | Some (Some s) => mret (set_ip m (Address s) true)
    | _ => fail (Errorf "mon %s doesn't exist in assignment map" [DaemonName m])
    end
  else
    clusterIP ← wrapM (env (createService m)) "failed to create mon service" [];
    ip ← env (service_ip m clusterIP);
    mret (set_ip m ip (UseHostNetwork m)).

(** Before the deployment is started: a node, an address, and the mon in the cluster info. *)
Definition prepare_mon (m : monConfig) : MM monConfig :=
  _ ← wrapM (assignMons [m] []) "failed to place new mon on a node" [];
  m ← mon_address m;
  _ ← modify (with_internal (<[DaemonName m := NewMonInfo (DaemonName m) (PublicIP m) (Port m)]>));
  c ← get;
  _ ← wrapM (env (saveMonConfig (info c))) "failed to save mon config before starting failover mon" [];
  mret m.

(** From here on the new mon might be in quorum. *)
Definition launch_mon (m : monConfig) : MM unit :=
  _ ← wrapM (startDeployments [m] true []) "failed to start new mon %s" [DaemonName m];
  if IsStretchCluster spec then wrapM (env ConfigureArbiter) "failed to configure stretch arbiter" []
  else mret ().

(** The deferred function of a failover that did not succeed. *)
Definition revert_failover (name newMon : string) (newMonMightBeInQuorum : bool) : MM unit :=
  _ ← logged (env (updateMonDeploymentReplica name true));
  _ ← logged (removeMonWithOptionalQuorum newMon newMonMightBeInQuorum);
  c ← get;
  logged (env (commitMaxMonIDRequireIncrementing (maxMonID c) false)).

Definition failoverMon (name : string) : MM unit :=
  c ← get;
  v ← env (visit (internal c));
  let existingMons := clusterInfoToMonConfigWithExclude v (schedule c) name in
  zone ← wrapM (lift (findAvailableZone spec existingMons)) "failed to find available stretch zone" [];
  let m := newMonConfig spec (wrap64 (maxMonID c + 1)) zone in
  _ ← (if stopMonDuringFailover c name then logged (env (updateMonDeploymentReplica name false)) else mret ());
  p ← try_ (prepare_mon m);
  match p with
  | Err e => _ ← revert_failover name (DaemonName m) false; fail e
  | Ok m' =>
      l ← try_ (launch_mon m');
      match l with
      | Err e => _ ← revert_failover name (DaemonName m) true; fail e
      | Ok _ =>
          _ ← modify (fun c => with_max (wrap64 (maxMonID c + 1)) c);
          removeMon name
      end
  end.

Definition failMon (monCount desiredMonCount : Z) (name : string) : MM bool :=
  _ ← logged (trackMonInOrOutOfQuorum name false);
  if desiredMonCount <? monCount then
    _ ← logged (removeMon name); mret true
  else
    _ ← logged (failoverMon name);
    _ ← env reconcileMonPDB;
    mret true.

(** *** External mons *)

(** One ID of the specification: the external mons after it, and whether they changed. *)
Definition update_external (status : MonStatusResponse) (st : gmap string MonInfo * bool) (extID : string) :
    gmap string MonInfo * bool :=
  let '(mons, changed) := st in
  match getMonByID extID status, mons !! extID with
  | Some (mon, true), None => (<[extID := monStatusToInfo spec mon]> mons, true)
  | Some (_, true), Some _ => (mons, changed)
  | _, Some _ => (delete extID mons, true)
  | _, None => (mons, changed)
  end.

Definition reconcile_external (extMonIDs : list string) (mons : gmap string MonInfo) (status : MonStatusResponse) :
    gmap string MonInfo * bool :=
  let kept := filter (fun kv => kv.1 ∈ extMonIDs) mons in
  foldl (update_external status) (kept, bool_decide (kept <> mons)) extMonIDs.

Definition reconcileExternalMons (quorumStatus : MonStatusResponse) : MM MonStatusResponse :=
  let extMonIDs := ExternalMonIDs spec in
  if match extMonIDs with [] => false | _ => ExternalEnable spec || IsStretchCluster spec end
  then mret quorumStatus
  else
    c ← get;
    let '(mons, extMonsChanged) := reconcile_external extMonIDs (external c) quorumStatus in
    _ ← modify (with_external (fun _ => mons));
    _ ← (if (extMonsChanged : bool) then
           c ← get;
           wrapM (env (saveMonConfig (info c))) "failed to save mon config after adding/removing external mon" []
         else mret ());
    mret (removeMonsFromQuorumStatusResponse quorumStatus extMonIDs).

Definition handleExternalMonStatus (status : MonStatusResponse) : MM unit :=
  _ ← (if String.eqb (CephImage spec) "" then mret ()
       else wrapM (env validate_external_version) "failed to validate external ceph version" []);
  c ← get;
  let '(mons, changed) := addOrRemoveExternalMonitor spec (internal c) status in
  _ ← modify (with_internal (fun _ => mons));
  if (changed : bool) then
    c ← get;
    wrapM (env (saveMonConfig (info c))) "failed to save mon config after adding/removing external mon" []
  else mret ().

(** *** The health check *)

Definition shouldFailoverMonImmediately (monName : string) : MM bool :=
  c ← get;
  match schedule c !! monName with
  | Some None => mret false
  | Some (Some s) =>
      if String.eqb (Hostname s) "" then mret false
      else
        r ← try_ (env (NodeWithHostnameExists (Hostname s)));
        match r with Ok nodeExists => mret (negb nodeExists) | Err _ => mret false end
  | None => mret false
  end.

(** The second mon pod on a node, in the order of the list. *)
Fixpoint second_on_node (pods : list MonPod) (nodesToMons : gset string) : option string :=
  match pods with
  | [] => None
  | pod :: rest =>
      if bool_decide (is_Some (pod_labels pod !! "mon_canary")) then second_on_node rest nodesToMons
      else if String.eqb (pod_node pod) "" then second_on_node rest nodesToMons
      else if bool_decide (pod_node pod ∈ nodesToMons) then Some (default "" (pod_labels pod !! "mon"))
      else second_on_node rest ({[pod_node pod]} ∪ nodesToMons)
  end.

Definition evictMonIfMultipleOnSameNode : MM unit :=
  if AllowMultiplePerNode spec then mret ()
  else
    pods ← wrapM (env list_mon_pods) "failed to list mon pods" [];
    match second_on_node pods ∅ with
    | Some monName => failoverMon monName
    | None => mret ()
    end.

(** Whether the loop goes on to the next mon or the call returns. *)
Inductive flow := Next | Return.

(** A mon that is out of quorum: wait, retry once, or fail it over. *)
Definition check_out_of_quorum (monCount desiredMonCount : Z) (name : string) : MM flow :=
  _ ← wrapM (trackMonInOrOutOfQuorum name false) "failed to track out of quorum mon %q" [name];
  c ← get;
  if MonOutTimeout c =? 0 then mret Next
  else
    _ ← (if bool_decide (is_Some (monTimeoutList c !! name)) then mret ()
         else t ← env now; modify (with_timeouts (<[name := t]>)));
    rescheduleImmediately ← shouldFailoverMonImmediately name;
    wait ← (if (rescheduleImmediately : bool) then mret None
            else
              t ← env now;
              c ← get;
              if t - default 0 (monTimeoutList c !! name) <=? MonOutTimeout c then mret (Some Next)
              else
                r ← try_ (env (IsPodScheduled name));
                c ← get;
                match r with
                | Ok false =>
                    if 0 <? retriesBeforeNodeDrainFailover c then
                      _ ← modify (with_timeouts (delete name));
                      _ ← modify (with_retries (retriesBeforeNodeDrainFailover c - 1));
                      mret (Some Return)
                    else _ ← modify (with_retries 1); mret None
                | _ => _ ← modify (with_retries 1); mret None
                end);
    match wait with
    | Some f => mret f
    | None => _ ← failMon monCount desiredMonCount name; mret Return
    end.

(** The loop over the mon map: the mons of the cluster info not found so far, and whether all
    mons are in quorum. *)
Fixpoint check_mons (status : MonStatusResponse) (desiredMonCount : Z) (mons : list MonMapEntry)
    (monsNotFound : gmap string unit) (allMonsInQuorum : bool) : MM (flow * gmap string unit * bool) :=
  match mons with
  | [] => mret (Next, monsNotFound, allMonsInQuorum)
  | mon :: rest =>
      let name := entry_name mon in
      let inQuorum := monInQuorum mon (Quorum status) in
      let known := bool_decide (is_Some (monsNotFound !! name)) in
      if negb known && inQuorum && (desiredMonCount <? Z.of_nat (length (Quorum status))) then
        _ ← logged (removeMon name);
        mret (Return, monsNotFound, allMonsInQuorum)
      else
        let monsNotFound := delete name monsNotFound in
        if inQuorum then
          _ ← wrapM (trackMonInOrOutOfQuorum name true) "failed to track out of quorum mon %q" [name];
          _ ← modify (with_timeouts (delete name));
          check_mons status desiredMonCount rest monsNotFound allMonsInQuorum
        else
          f ← check_out_of_quorum (Z.of_nat (length (Mons status))) desiredMonCount name;
          match f with
          | Return => mret (Return, monsNotFound, false)
          | Next => check_mons status desiredMonCount rest monsNotFound false
          end
  end.

(** The mons of the cluster info whose service is not exported: the first one is failed over. *)
Fixpoint check_exported (mons : list (string * MonInfo)) (monCount desiredMonCount : Z) : MM flow :=
  match mons with
  | [] => mret Next
  | (_, mon) :: rest =>
      isAlreadyExported ← wrapM (env (IsServiceExported (resourceName (Name mon))))
                            "failed to check if the service %q is already exported" [Name mon];
      if (isAlreadyExported : bool) then check_exported rest monCount desiredMonCount
      else _ ← failMon monCount desiredMonCount (Name mon); mret Return
  end.

(** The mons on the failover list: the first one is failed over. *)
Fixpoint check_failover_list (mons : list (string * MonInfo)) (monCount desiredMonCount : Z) : MM unit :=
  match mons with
  | [] => mret ()
  | (_, mon) :: rest =>
      c ← get;
      if bool_decide (is_Some (monsToFailover c !! Name mon)) then
        _ ← failMon monCount desiredMonCount (Name mon);
        modify (with_failover_list (delete (Name mon)))
      else check_failover_list rest monCount desiredMonCount
  end.

(** After the loop, when it has gone through all mons: missing mons, then too few or too many,
    then mons on one node, services that are not exported, and the failover list. *)
Definition check_counts (status : MonStatusResponse) (desiredMonCount : Z)
    (monsNotFound : gmap string unit) (allMonsInQuorum : bool) : MM unit :=
  _ ← (if allMonsInQuorum
       then _ ← wrapM (trackMonInOrOutOfQuorum "" true) "failed to track all mons in quorum" []; mret ()
       else mret ());
  missing ← env (visit monsNotFound);
  c ← get;
  let monCount := Z.of_nat (size (internal c)) in
  let mapCount := Z.of_nat (length (Mons status)) in
  match missing with
  | (mon, _) :: _ => _ ← failMon monCount desiredMonCount mon; mret ()
  | [] =>
      if mapCount <? desiredMonCount then startMons desiredMonCount
      else if allMonsInQuorum && (desiredMonCount <? mapCount) &&
              negb ((desiredMonCount <? 2) && (mapCount =? 2)) then
        v ← env (visit (internal c));
        removeMon (determineExtraMonToRemove spec (clusterInfoToMonConfig v (schedule c)))
      else
        let healthy := allMonsInQuorum && (mapCount =? desiredMonCount) in
        _ ← (if healthy then logged (env removeCanaryDeployments) else mret ());
        if healthy && needToCheckMonsOnSameNode c then
          _ ← modify with_node_check_done;
          evictMonIfMultipleOnSameNode
        else
          f ← (if allMonsInQuorum && MultiClusterService spec then
                 v ← env (visit (internal c));
                 check_exported v monCount desiredMonCount
               else mret Next);
          match f with
          | Return => mret ()
          | Next =>
              v ← env (visit (internal c));
              check_failover_list v monCount desiredMonCount
          end
  end.

(** The check once the quorum status is known. *)
Definition check_status (quorumStatus : MonStatusResponse) : MM unit :=
  quorumStatus ← wrapM (reconcileExternalMons quorumStatus) "failed to check external mons health" [];
  c ← get;
  let monsNotFound : gmap string unit :=
    list_to_map ((fun kv => (Name kv.2, ())) <$> map_to_list (internal c)) in
  '(f, monsNotFound, allMonsInQuorum) ←
     check_mons quorumStatus (MonCount spec) (Mons quorumStatus) monsNotFound true;
  match f with
  | Return => mret ()
  | Next => check_counts quorumStatus (MonCount spec) monsNotFound allMonsInQuorum
  end.

Definition checkHealth : MM unit :=
  _ ← wrapM (env cluster_initialized) "skipping mon health check since cluster details are not initialized" [];
  if (MonCount spec =? 0) && negb (ExternalEnable spec)
  then fail (Errorf "skipping mon health check since there are no monitors" [])
  else
    skip ← wrapM (env GetDaemonsToSkipReconcile) "failed to check for mons to skip reconcile" [];
    match skip with
    | _ :: _ => mret ()
    | [] =>
        if ExternalEnable spec then
          quorumStatus ← wrapM (env GetMonQuorumStatus) "failed to get external mon quorum status" [];
          _ ← wrapM (handleExternalMonStatus quorumStatus) "failed to get external mon quorum status" [];
          wrapM (env ConfigureExternalMetricsEndpoint) "failed to configure external metrics endpoint" []
        else
          '(qStatus, _) ← env reconcileMonPDB;
          quorumStatus ← (match qStatus with
                          | Some s => mret s
                          | None => wrapM (env GetMonQuorumStatus) "failed to get mon quorum status" []
                          end);
          check_status quorumStatus
    end.

End Operations.

End Mon.
