(* ===== verification/MonHealth.v ===== *)
(** * MonHealth: the health check of the monitors

    The theorems on the health check and on failover: one health check removes at most one mon
    from the quorum, a failover is all or nothing and removes the old mon only after the new one
    was seen in quorum, a healthy cluster is left alone, and waiting for quorum is bounded. *)

From stdpp Require Import base gmap strings list fin_maps.
From Stdlib Require Import ZArith Ascii.
From S2P Require Import Prelude Names GoTime MonStore Mon MonProofs.
Import DaemonName GoTime MonStore Mon MonProofs.
Open Scope Z_scope.

Module MonHealth.

(** ** A healthy cluster *)

(** The status and the operator's state agree, and all mons are in quorum. *)
Definition healthy (spec : MonSpec) (c : Cluster) (status : MonStatusResponse) : Prop :=
  NoDup (entry_name <$> Mons status) /\
  dom (internal c) = list_to_set (entry_name <$> Mons status) /\
  map_Forall (fun n m => Name m = n /\ OutOfQuorum m = false) (internal c) /\
  Forall (fun m => monInQuorum m (Quorum status) = true /\ entry_name m <> "") (Mons status) /\
  Z.of_nat (length (Mons status)) = MonCount spec.

#[export] Instance healthy_dec spec c status : Decision (healthy spec c status).
Proof. apply _. Defined.

(** Nothing is pending for the mons of the operator. *)
Definition settled (spec : MonSpec) (c : Cluster) : Prop :=
  ExternalEnable spec = false /\ MultiClusterService spec = false /\ ExternalMonIDs spec = [] /\
  external c = ∅ /\ needToCheckMonsOnSameNode c = false /\
  (forall n, is_Some (internal c !! n) -> monsToFailover c !! n = None).

(** What a check of a healthy cluster may change: the timeouts of the mons. *)
Definition same_mons (c c' : Cluster) : Prop := with_timeouts (fun _ => ∅) c' = with_timeouts (fun _ => ∅) c.

#[local] Instance same_mons_preorder : PreOrder same_mons.
Proof. split; [done|]. intros c1 c2 c3. unfold same_mons. congruence. Qed.

Lemma same_mons_internal c c' : same_mons c c' -> internal c' = internal c.
Proof. intros Hc. exact (f_equal internal Hc). Qed.

Section Healthy.
Context {E : Type} `{MonEnv E} `{!MonLaws E} (spec : MonSpec).

(** A mon in quorum, not marked as out of quorum, stays as it is. *)
Lemma track_in_quorum (mons : gmap string MonInfo) name m :
  name <> "" -> mons !! name = Some m -> OutOfQuorum m = false -> track mons name true = Some (mons, false, []).
Proof.
  intros Hn Hm Hq. unfold track. apply String.eqb_neq in Hn as ->. rewrite Hm, Hq. simpl.
  rewrite insert_id; [done|]. rewrite Hm. f_equal. destruct m; simpl in *. by subst.
Qed.

Lemma track_all_in_quorum (mons : gmap string MonInfo) :
  map_Forall (fun n m => Name m = n /\ OutOfQuorum m = false) mons -> track mons "" true = Some (mons, false, []).
Proof.
  intros Hf. unfold track. simpl. f_equal. f_equal. f_equal.
  - rewrite <- (map_fmap_id mons) at 2. apply map_fmap_ext. intros n m Hm.
    destruct (Hf n m Hm) as [_ Hq]. destruct m; simpl in *. by subst.
  - apply bool_decide_eq_false. intros (n & m & Hm & Hq). destruct (Hf n m Hm). congruence.
Qed.

Lemma with_internal_same c : with_internal (fun _ => internal c) c = c.
Proof. by destruct c as [[] ? ? ? ? ? ? ? ?]. Qed.

Lemma trackMon_same name ec :
  track (internal ec.2) name true = Some (internal ec.2, false, []) ->
  wp (trackMonInOrOutOfQuorum name true) (fun _ c l => removals l = [] /\ c = ec.2) ec.
Proof.
  intros Ht. unfold trackMonInOrOutOfQuorum. apply wp_bind, wp_get. intros e. rewrite Ht.
  apply wp_bind, wp_modify. intros e'. apply wp_ret. split; [done|]. apply with_internal_same.
Qed.

Lemma check_mons_healthy status mons notFound c e :
  NoDup (entry_name <$> mons) ->
  (forall m, m ∈ mons -> monInQuorum m (Quorum status) = true /\ entry_name m <> "" /\
     exists i, internal c !! entry_name m = Some i /\ OutOfQuorum i = false) ->
  (forall n, is_Some (notFound !! n) <-> n ∈ (entry_name <$> mons)) ->
  wp (check_mons spec status (MonCount spec) mons notFound true)
    (fun r c' l => removals l = [] /\ same_mons c c' /\ forall x, r = Ok x -> x = (Next, ∅, true)) (e, c).
Proof.
  revert notFound c e. induction mons as [|m mons IH]; intros notFound c e Hnd Hm Hnf; simpl.
  { apply wp_ret. split_and!; [done..|]. intros x [= <-]. repeat f_equal. apply map_empty. intros n.
    apply eq_None_not_Some. rewrite Hnf. apply not_elem_of_nil. }
  destruct (Hm m ltac:(set_solver)) as (Hq & Hne & i & Hi & Hout).
  rewrite bool_decide_eq_true_2 by (apply Hnf; set_solver). rewrite Hq. simpl.
  apply NoDup_cons in Hnd as [Hnin Hnd].
  apply wp_bind, wp_wrapM. eapply wp_mono; [apply trackMon_same, (track_in_quorum _ _ i Hne Hi Hout)|].
  intros [b|err] c1 l1 [Hl1 ->]; simpl; [|done].
  intros e1. apply wp_bind, wp_modify. intros e2. eapply wp_mono; [apply IH; [done| |]|].
  - intros m' Hm'. apply Hm. set_solver.
  - intros n. rewrite lookup_delete_is_Some, Hnf. simpl. rewrite elem_of_cons.
    split; [naive_solver|]. intros Hn. split; [|by right]. by intros <-.
  - intros r c' l (Hl & Hc & Hr). split_and!; [|exact Hc|done]. by rewrite !removals_app, Hl1, Hl.
Qed.

Lemma wp_visit {A} (m : gmap string A) (Q : result (list (string * A)) -> Cluster -> list event -> Prop) ec :
  (forall err l, removals l = [] -> Q (Err err) ec.2 l) ->
  (forall v l, v ≡ₚ map_to_list m -> removals l = [] -> Q (Ok v) ec.2 l) ->
  wp (env (visit m)) Q ec.
Proof.
  intros He Hv. apply wp_env; [eauto with quiet|]. intros [v|err] l (e & e' & Hr); [|by apply He].
  by apply Hv, (visit_all _ _ _ _ _ Hr).
Qed.

Lemma check_failover_list_none v n k ec :
  (forall x m, (x, m) ∈ v -> monsToFailover ec.2 !! Name m = None) ->
  wp (check_failover_list spec v n k) (fun _ c l => removals l = [] /\ c = ec.2) ec.
Proof.
  revert ec. induction v as [|[x m] v IH]; intros ec Hv; simpl; [by apply wp_ret|].
  apply wp_bind, wp_get. intros e. simpl. rewrite (Hv x m) by set_solver. simpl.
  apply (IH (e, ec.2)). intros x' m' Hx. apply (Hv x'). by right.
Qed.

Lemma check_counts_healthy status c e :
  settled spec c -> healthy spec c status ->
  wp (check_counts spec status (MonCount spec) ∅ true) (fun _ c' l => removals l = [] /\ c' = c) (e, c).
Proof.
  intros (_ & Hmc & _ & _ & Hnode & Hfo) (_ & _ & Hmons & _ & Hlen). unfold check_counts.
  apply wp_bind, wp_bind, wp_wrapM. eapply wp_mono; [by apply trackMon_same, track_all_in_quorum|].
  intros [b|err] c1 l1 [Hl1 ->]; simpl; [|done]. intros e1. apply wp_ret. intros e2.
  apply wp_bind, wp_visit; simpl; [by intros; removals|].
  intros missing l2 Hv Hl2 e3. rewrite map_to_list_empty in Hv. apply Permutation_nil_r in Hv as ->.
  apply wp_bind, wp_get. intros e4. simpl. rewrite Hlen, Z.ltb_irrefl, Z.eqb_refl, Hnode, Hmc. simpl.
  apply wp_bind, wp_logged, wp_env; [solve_quiet|]. intros _ l3 _ Hl3 e5.
  apply wp_bind, wp_ret. intros e6.
  apply wp_bind, wp_visit; simpl; [by intros; removals|]. intros v l4 Hv Hl4 e7.
  eapply wp_mono; [apply check_failover_list_none|]; simpl.
  - intros x m Hx. rewrite Hv in Hx. apply elem_of_map_to_list in Hx.
    destruct (Hmons x m Hx) as [-> _]. by apply Hfo.
  - intros r c' l5 [Hl5 ->]. by removals.
Qed.

Lemma wp_status (Q : result MonStatusResponse -> Cluster -> list event -> Prop) ec :
  (forall err, Q (Err err) ec.2 []) -> (forall status, Q (Ok status) ec.2 [SawStatus status]) ->
  wp (env GetMonQuorumStatus) Q ec.
Proof.
  intros He Hs. pose proof (GetMonQuorumStatus_seen ec.1) as Hg. unfold wp, env.
  destruct (GetMonQuorumStatus ec.1) as [e' [status|err]]; simpl in *;
    [exists [SawStatus status]|exists []]; auto.
Qed.

(** The status [reconcileMonPDB] returns was read in its run. *)
Lemma reconcileMonPDB_status e :
  emits (reconcileMonPDB spec)
    (fun r l => removals l = [] /\ forall q u, r = Ok (Some q, u) -> SawStatus q ∈ l) e.
Proof.
  unfold reconcileMonPDB.
  case_match; [by apply emits_ret|]. case_match; [by apply emits_ret|].
  apply emits_bind, emits_status; [intros err e1; by apply emits_ret|].
  intros status e1. set (rest := _ ≫= _).
  assert (quiet trace rest) as Hq by (unfold rest, getExistingMaxUnavailable; solve_quiet).
  destruct (Hq e1) as (l & Hl & Hr). exists l. split; [done|]. split; [done|].
  destruct (rest e1) as [e2 r] eqn:Hrun. intros q u Hok. simpl in Hok. subst r. unfold rest in Hrun.
  assert (q = status) as -> by (inv_run; repeat case_match; by inv_run). set_solver.
Qed.

Lemma filter_all_true {A} (f : A -> bool) l : (forall x, f x = true) -> List.filter f l = l.
Proof. intros Hf. induction l as [|x l IH]; simpl; [done|]. by rewrite Hf, IH. Qed.

Lemma remove_none status : removeMonsFromQuorumStatusResponse status [] = status.
Proof.
  unfold removeMonsFromQuorumStatusResponse. destruct status as [q ms]. simpl. f_equal.
  - apply filter_all_true. intros r. apply bool_decide_eq_true_2. by induction ms as [|m ms IH]; simpl; [set_solver|].
  - by apply filter_all_true.
Qed.

Lemma reconcileExternalMons_none status ec :
  ExternalMonIDs spec = [] -> external ec.2 = ∅ ->
  wp (reconcileExternalMons spec status)
    (fun r c l => removals l = [] /\ c = ec.2 /\ r = Ok status) ec.
Proof.
  intros Hids Hext. unfold reconcileExternalMons, reconcile_external. rewrite Hids. simpl.
  apply wp_bind, wp_get. intros e. simpl. rewrite Hext, map_filter_empty, bool_decide_eq_false_2 by auto.
  apply wp_bind, wp_modify. intros e1. apply wp_bind, wp_ret. intros e2. apply wp_ret. simpl.
  rewrite remove_none. split_and!; [done| |done].
  destruct ec as [e0 [[] ? ? ? ? ? ? ? ?]]. unfold external in Hext. simpl in *. by subst.
Qed.

Lemma not_found_all (c : Cluster) n :
  map_Forall (fun n m => Name m = n /\ OutOfQuorum m = false) (internal c) ->
  is_Some ((list_to_map ((fun kv => (Name kv.2, ())) <$> map_to_list (internal c)) : gmap string unit) !! n) <->
  is_Some (internal c !! n).
Proof.
  intros Hf. rewrite <- (elem_of_dom (D := gset string)), dom_list_to_map_L, elem_of_list_to_set,
    <- list_fmap_compose, list_elem_of_fmap. split.
  - intros ([x m] & -> & Hx%elem_of_map_to_list). simpl. destruct (Hf x m Hx) as [-> _]. eauto.
  - intros [m Hm]. exists (n, m). simpl. rewrite elem_of_map_to_list. by destruct (Hf n m Hm) as [-> _].
Qed.

Lemma check_healthy status c e :
  settled spec c -> healthy spec c status ->
  wp ('(f, monsNotFound, allMonsInQuorum) ←
        check_mons spec status (MonCount spec) (Mons status)
          (list_to_map ((fun kv => (Name kv.2, ())) <$> map_to_list (internal c))) true;
      match f with
      | Return => mret ()
      | Next => check_counts spec status (MonCount spec) monsNotFound allMonsInQuorum
      end)
    (fun _ c' l => removals l = [] /\ same_mons c c') (e, c).
Proof.
  intros Hset Hh. pose proof Hh as (Hnd & Hdom & Hmons & Hq & Hlen).
  apply wp_bind. eapply wp_mono; [apply check_mons_healthy|]; [done| | |].
  - intros m Hm. rewrite Forall_forall in Hq. destruct (Hq m Hm) as [Hin Hne]. split_and!; [done..|].
    assert (entry_name m ∈ dom (internal c)) as [i Hi]%elem_of_dom.
    { rewrite Hdom. by apply elem_of_list_to_set, list_elem_of_fmap_2. }
    exists i. by destruct (Hmons _ _ Hi).
  - intros n. by rewrite not_found_all, <- elem_of_dom, Hdom, elem_of_list_to_set by done.
  - intros [x|err] c1 l1 (Hl1 & Hc1 & Hx); [|done]. rewrite (Hx x eq_refl). intros e1.
    assert (internal c1 = internal c) as Hint by by apply same_mons_internal.
    eapply wp_mono; [apply (check_counts_healthy status c1)|].
    + destruct Hset as (? & ? & ? & He & Hn & Hfo). pose proof (f_equal external Hc1) as He1.
      pose proof (f_equal needToCheckMonsOnSameNode Hc1) as Hn1. pose proof (f_equal monsToFailover Hc1) as Hf1.
      simpl in *. split_and!; [done..|exact (eq_trans He1 He)|congruence|]. rewrite Hf1, Hint. done.
    + unfold healthy. by rewrite Hint.
    + intros r c' l [Hl ->]. by removals.
Qed.

(** All the statuses read are those of a healthy cluster. *)
Definition saw_healthy (c : Cluster) (l : list event) : Prop :=
  forall status, SawStatus status ∈ l -> healthy spec c status.

Lemma check_status_healthy status c e :
  settled spec c -> healthy spec c status ->
  wp (check_status spec status) (fun _ c' l => removals l = [] /\ same_mons c c') (e, c).
Proof.
  intros Hset Hh. pose proof Hset as (_ & _ & Hids & Hext & _ & _). unfold check_status.
  apply wp_bind, wp_wrapM. eapply wp_mono; [by apply reconcileExternalMons_none|].
  intros ? ? l1 (Hl1 & -> & ->) e1. simpl. apply wp_bind, wp_get. intros e2.
  eapply wp_mono; [by apply check_healthy|]. intros r c' l2 [Hl2 Hc']. by removals.
Qed.

Lemma checkHealth_healthy c e :
  settled spec c ->
  wp (checkHealth spec) (fun _ c' l => saw_healthy c l -> removals l = [] /\ same_mons c c') (e, c).
Proof.
  intros Hset. pose proof Hset as (Hx & _). unfold checkHealth. rewrite Hx.
  apply (wp_keeps eq); [solve_keeps|by intros err c' l <- Hl|]. intros _ e1 c1 l1 <- Hl1. simpl.
  case_match; [apply wp_fail; by removals|].
  apply (wp_keeps eq); [solve_keeps|by intros err c' l <- Hl; removals|]. intros skip e2 c2 l2 <- Hl2. simpl.
  destruct skip; [|apply wp_ret; by removals].
  apply wp_bind. eapply wp_emits; [apply reconcileMonPDB_status|].
  intros [[q u]|err] l3 [Hl3 Hq]; [|by removals]. intros e3. apply wp_bind.
  eapply (wp_mono _ (fun r c' l => removals l = [] /\ c' = c /\ forall s, r = Ok s -> SawStatus s ∈ l3 ++ l)).
  { destruct q as [q|]; [apply wp_ret; split_and!; [done..|]|].
    - intros ? [= <-]. rewrite app_nil_r. eauto.
    - apply wp_wrapM, wp_status; [done|]. intros s. split_and!; [done..|]. intros ? [= <-]. set_solver. }
  intros [status|err] c3 l4 (Hl4 & -> & Hsaw); [|by removals]. specialize (Hsaw status eq_refl). intros e4.
  destruct (decide (healthy spec c status)) as [Hh|Hh].
  - eapply wp_mono; [by apply check_status_healthy|]. intros r c' l5 [Hl5 Hc'] _. by removals.
  - eapply wp_mono; [apply check_status_once|]. simpl. intros r c' l5 _ Hall. destruct Hh. apply Hall. set_solver.
Qed.

End Healthy.

(** ** A cluster to run on

    Ceph here is a list of mons that are all in quorum but those in [sim_down]; a mon that is
    started joins at once, with the next rank.  Every request succeeds. *)
Record SimEnv := {
  sim_trace : list event;
  sim_mons : list MonMapEntry;
  sim_down : list string;
  sim_clock : Z;
  sim_endpoints : gmap string string;
}.

Definition sim_status (e : SimEnv) : MonStatusResponse :=
  {| Quorum := Rank <$> List.filter (fun m => negb (bool_decide (entry_name m ∈ sim_down e))) (sim_mons e);
     Mons := sim_mons e |}.

Definition sim_emit (ev : event) (mons : list MonMapEntry) (e : SimEnv) : SimEnv :=
  {| sim_trace := sim_trace e ++ [ev]; sim_mons := mons; sim_down := sim_down e; sim_clock := sim_clock e;
     sim_endpoints := sim_endpoints e |}.

Definition sim_join (n : string) (e : SimEnv) : SimEnv :=
  {| sim_trace := sim_trace e;
     sim_mons := sim_mons e ++ [{| entry_name := n; Rank := Z.of_nat (length (sim_mons e)); PublicAddr := "" |}];
     sim_down := sim_down e; sim_clock := sim_clock e; sim_endpoints := sim_endpoints e |}.

Definition sim_tick (d : Z) (e : SimEnv) : SimEnv :=
  {| sim_trace := sim_trace e; sim_mons := sim_mons e; sim_down := sim_down e; sim_clock := sim_clock e + d;
     sim_endpoints := sim_endpoints e |}.

Definition sim_store (d : gmap string string) (e : SimEnv) : SimEnv :=
  {| sim_trace := sim_trace e; sim_mons := sim_mons e; sim_down := sim_down e; sim_clock := sim_clock e;
     sim_endpoints := d |}.

#[export] Instance SimMonEnv : MonEnv SimEnv := {|
  visit A m := mret (map_to_list m);
  now := fun e => (e, Ok (sim_clock e));
  ctx_err := mret None;
  sleep d := fun e => (sim_tick d e, Ok ());
  cluster_initialized := mret ();
  GetMonQuorumStatus := fun e => (sim_emit (SawStatus (sim_status e)) (sim_mons e) e, Ok (sim_status e));
  mon_remove n := fun e =>
    (sim_emit (RemoveCall n) (List.filter (fun m => negb (String.eqb (entry_name m) n)) (sim_mons e)) e, Ok ());
  mon_version_count := mret 1;
  validate_external_version := mret ();
  GetDaemonsToSkipReconcile := mret [];
  ConfigureExternalMetricsEndpoint := mret ();
  get_mon_pdb := mret 1;
  createOrUpdateMonPDB _ := mret ();
  IsPodScheduled _ := mret true;
  NodeWithHostnameExists _ := mret true;
  PodsRunningWithLabel _ _ := mret 1;
  list_mon_pods := mret [];
  list_mon_deployments := mret [];
  list_mon_pvcs := mret [];
  get_deployment _ := mret ();
  set_replicas _ _ := mret ();
  delete_service _ := mret ();
  delete_pvc _ := mret ();
  delete_deployment _ := mret ();
  removeCanaryDeployments := mret ();
  IsServiceExported _ := mret true;
  createService _ := mret "10.0.0.9";
  exportService _ := mret "10.0.0.9";
  get_endpoint_map := fun e => (e, Ok (sim_endpoints e));
  update_endpoint_map d := fun e => (sim_store d e, Ok ());
  CreateBootstrapPeerSecret _ := mret ();
  persistExpectedMonDaemonsInConfigMap _ := mret ();
  persistExpectedMonDaemonsAsEndpointSlice _ := mret ();
  update_config_store _ := mret ();
  openshift := false;
  CreateUpdateCephConnection _ := mret ();
  CreateDefaultClientProfile _ := mret ();
  WriteConnectionConfig _ := mret ();
  scheduleMonitor m := mret (ResourceName m);
  waitForMonitorScheduling _ := mret (Some {| k8s_name := "node"; k8s_labels := ∅; k8s_annotations := ∅;
                                             Addresses := [("InternalIP", "10.1.0.1")] |});
  build_deployment m _ := mret (ResourceName m);
  set_applied_annotation _ := mret ();
  get_mon_deployment _ := fail (APIStatus NotFound);
  create_deployment n _ := fun e => (sim_join (default n (strip_prefix (AppName +:+ "-") n)) e, Ok ());
  update_deployment_and_wait _ _ := mret ();
  make_pvc _ := mret ();
  get_pvc _ := mret ();
  expand_pvc _ := mret ();
  create_pvc _ := mret ();
  SetOrRemoveDefaultConfigs := mret ();
  ApplyCephNetworkSettings := mret ();
  configureStretchCluster _ := mret ();
  ConfigureArbiter := mret ();
  customHostnameLabel := "";
|}.

#[export] Instance SimMonLaws : MonLaws SimEnv.
Proof. refine {| trace := sim_trace |}; try done. simpl. by intros A m e e' l [= _ <-]. Defined.

(** Three mons, as many as are wanted. *)
Definition demo_spec : MonSpec :=
  {| MonCount := 3; AllowMultiplePerNode := false; ExternalMonIDs := []; StretchZones := []; PlainZones := [];
     FloatingMonName := ""; VolumeClaimTemplate := false; ExternalEnable := false; CephImage := "ceph";
     IsHost := false; MultiClusterService := false; RequireMsgr2 := false; ManagePodBudgets := true |}.

Definition demo_entry (n : string) (r : Z) : MonMapEntry := {| entry_name := n; Rank := r; PublicAddr := "" |}.

Definition demo_env (down : list string) : SimEnv :=
  {| sim_trace := []; sim_mons := [demo_entry "a" 0; demo_entry "b" 1; demo_entry "c" 2]; sim_down := down;
     sim_clock := 1000000; sim_endpoints := {[MaxMonIDKey := "2"]} |}.

(** The mons in [timeouts] have been out of quorum since time 0. *)
Definition demo_cluster (timeouts : gmap string Z) : Cluster :=
  {| info := {| InternalMonitors := list_to_map ((fun n => (n, NewMonInfo n "10.0.0.1" 6789)) <$> ["a"; "b"; "c"]);
                ExternalMons := ∅; mapping := ∅ |};
     maxMonID := 2; monTimeoutList := timeouts; monsToFailover := ∅; waitForStart := true; isUpgrade := false;
     MonOutTimeout := 600; retriesBeforeNodeDrainFailover := 1; needToCheckMonsOnSameNode := false |}.

(** ** Theorems *)

(** C2: one health check issues at most one [ceph mon remove], whatever the state of the
    operator, the answers of Ceph and Kubernetes, and the errors on the way. *)
Theorem checkHealth_removes_at_most_one {E : Type} `{MonEnv E} `{!MonLaws E} (spec : MonSpec) (e : E) (c : Cluster) :
  exists l, trace (checkHealth spec (e, c)).1.1 = trace e ++ l /\ (length (removals l) <= 1)%nat.
Proof. destruct (checkHealth_once spec (e, c)) as (l & Hl & Hn). eauto. Qed.

Lemma checkHealth_removes_at_most_one_witness :
  (exists l, trace (checkHealth demo_spec (demo_env ["b"], demo_cluster {["b" := 0]})).1.1 = trace (demo_env ["b"]) ++ l /\
             (length (removals l) <= 1)%nat) /\
  removals (trace (checkHealth demo_spec (demo_env ["b"], demo_cluster {["b" := 0]})).1.1) = ["b"].
Proof. split; [apply (checkHealth_removes_at_most_one demo_spec (demo_env ["b"]))|by vm_compute]. Defined.

(** C1: a failover is all or nothing for the operator's state.  If it fails before the new mon
    has joined, the state is as it was, the ID of the next mon included (only the failover list
    may name the new mon), and no mon but the new one was removed from quorum.  Otherwise the maximum ID has grown by one, the new mon is known, the
    old one is not, nothing else has changed, and the old mon was removed from quorum only
    after a quorum status with the new mon in quorum was read (with [waitForStart], which is
    off in tests only). *)
Theorem failoverMon_all_or_nothing {E : Type} `{MonEnv E} `{!MonLaws E} (spec : MonSpec) (e : E) (c : Cluster)
    (name : string) :
  name <> "" -> name <> IndexToName (wrap64 (maxMonID c + 1)) ->
  internal c !! IndexToName (wrap64 (maxMonID c + 1)) = None ->
  schedule c !! IndexToName (wrap64 (maxMonID c + 1)) = None ->
  exists l, trace (failoverMon spec name (e, c)).1.1 = trace e ++ l /\
    failed_over name (IndexToName (wrap64 (maxMonID c + 1))) c (failoverMon spec name (e, c)).1.2
      (failoverMon spec name (e, c)).2 l.
Proof. intros. by apply failoverMon_wp. Qed.

Lemma failoverMon_all_or_nothing_witness :
  (exists l, trace (failoverMon demo_spec "b" (demo_env ["b"], demo_cluster ∅)).1.1 = trace (demo_env ["b"]) ++ l /\
    failed_over "b" "d" (demo_cluster ∅) (failoverMon demo_spec "b" (demo_env ["b"], demo_cluster ∅)).1.2
      (failoverMon demo_spec "b" (demo_env ["b"], demo_cluster ∅)).2 l) /\
  map_to_list (Endpoint <$> internal (failoverMon demo_spec "b" (demo_env ["b"], demo_cluster ∅)).1.2) =
    map_to_list (list_to_map [("a", "10.0.0.1:6789"); ("c", "10.0.0.1:6789"); ("d", "10.0.0.9:6789")] : gmap string string).
Proof.
  split; [|by vm_compute].
  apply (failoverMon_all_or_nothing demo_spec (demo_env ["b"]) (demo_cluster ∅) "b"); by vm_compute.
Defined.

(** C3: a health check of a cluster that is as it should be removes no mon, starts no failover
    and changes nothing of the operator's state but the timeouts of the mons. *)
Theorem checkHealth_leaves_healthy {E : Type} `{MonEnv E} `{!MonLaws E} (spec : MonSpec) (e : E) (c : Cluster) :
  settled spec c ->
  exists l, trace (checkHealth spec (e, c)).1.1 = trace e ++ l /\
    (saw_healthy spec c l -> removals l = [] /\ same_mons c (checkHealth spec (e, c)).1.2).
Proof. apply checkHealth_healthy. Qed.

Lemma checkHealth_leaves_healthy_witness :
  (exists l, trace (checkHealth demo_spec (demo_env [], demo_cluster {["b" := 0]})).1.1 = trace (demo_env []) ++ l /\
    (saw_healthy demo_spec (demo_cluster {["b" := 0]}) l -> removals l = [] /\
     same_mons (demo_cluster {["b" := 0]}) (checkHealth demo_spec (demo_env [], demo_cluster {["b" := 0]})).1.2)) /\
  healthy demo_spec (demo_cluster {["b" := 0]}) (sim_status (demo_env [])) /\
  trace (checkHealth demo_spec (demo_env [], demo_cluster {["b" := 0]})).1.1 = [SawStatus (sim_status (demo_env []))].
Proof.
  split_and!; [apply checkHealth_leaves_healthy; by split_and!|by apply (bool_decide_eq_true_1 (healthy _ _ _)); vm_compute|by vm_compute].
Defined.

(** Waiting for the mons to join reads the quorum status at most [retryMax] times.  It
    succeeds exactly when the last status read has all the mons in quorum; a wait that fails
    has seen no such status. *)
Theorem waitForQuorumWithMons_bounded {E : Type} `{MonEnv E} `{!MonLaws E} (spec : MonSpec) (e : E)
    (mons : list string) (sleepTime : Z) :
  exists l, trace (waitForQuorumWithMons spec mons sleepTime true e).1 = trace e ++ l /\
            waited mons retryMax (waitForQuorumWithMons spec mons sleepTime true e).2 l.
Proof. apply wait_quorum_ok. Qed.

(** Two mons are out of quorum and marked so, but the stored list names only the one that
    was looked at last. *)
Example out_of_quorum_list_overwritten :
  (fun w => (fst <$> map_to_list (filter (fun kv => OutOfQuorum kv.2 = true) (internal w.1.2)),
             sim_endpoints w.1.1 !! OutOfQuorumKey))
    (checkHealth demo_spec (demo_env ["b"; "c"], demo_cluster ∅)) = (["c"; "b"], Some "c").
Proof. by vm_compute. Qed.

End MonHealth.
