(* ===== verification/MonPlacement.v ===== *)
(** * MonPlacement: zones, spare mons, external mons and the budget of the mons

    Theorems on the decisions of the mon orchestration that need no environment. *)

From stdpp Require Import base gmap strings list fin_maps.
From Stdlib Require Import ZArith Ascii.
From S2P Require Import Prelude Names GoTime MonStore Mon.
Import DaemonName GoTime MonStore Mon.
Open Scope Z_scope.

Module MonPlacement.

(** ** The budget *)

(** C34: when the budget that the operator sets for the mons lets some be drained, draining that many keeps
    a majority of the mons that Ceph knows up exactly if Ceph knows at least five mons, or three where fewer
    than five are specified.  So it does whenever Ceph knows as many mons as the specification wants, and at
    least three; with all of them in quorum at least one may be drained.  Where Ceph knows fewer, which the code
    does not ask, a drain may lose the majority. *)
Theorem allowedDown_keeps_majority (spec : MonSpec) (status : MonStatusResponse) :
  let m := Z.of_nat (length (Mons status)) in
  let q := Z.of_nat (length (Quorum status)) in
  let budget := allowedDown spec status in
  q <= m < 2 ^ 31 ->
  0 <= budget /\
  (0 < budget -> m < 2 * (q - budget) <-> (if 5 <=? MonCount spec then 5 else 3) <= m) /\
  (3 <= MonCount spec <= m -> budget <= q /\ (0 < budget -> m < 2 * (q - budget)) /\ (m = q -> 0 < budget)).
Proof.
  cbv zeta. intros Hq. unfold allowedDown, getMaxUnavailableMonPodCount.
  rewrite (wrap32_id (Z.of_nat _ - Z.of_nat _)) by (apply in_int32_spec; lia).
  rewrite wrap32_id by (apply in_int32_spec; destruct (5 <=? MonCount spec); lia).
  destruct (Z.leb_spec 5 (MonCount spec)); lia.
Qed.

Definition five (n : Z) : MonSpec :=
  {| MonCount := n; AllowMultiplePerNode := false; ExternalMonIDs := [];
     StretchZones := [{| zone_name := "east"; Arbiter := false; zone_pvc := false |};
                      {| zone_name := "west"; Arbiter := false; zone_pvc := false |};
                      {| zone_name := "tie"; Arbiter := true; zone_pvc := false |}];
     PlainZones := []; FloatingMonName := ""; VolumeClaimTemplate := false; ExternalEnable := false;
     CephImage := "ceph"; IsHost := false; MultiClusterService := false; RequireMsgr2 := false;
     ManagePodBudgets := true |}.

Definition status_of (mons : list string) (quorum : list Z) : MonStatusResponse :=
  {| Quorum := quorum;
     Mons := imap (fun i n => {| entry_name := n; Rank := Z.of_nat i; PublicAddr := "10.0.0.7:6789/0" |}) mons |}.

(** Of five mons of which one is down one more may be drained and a majority stays; of three where five are
    specified two may, and it does not. *)
Lemma allowedDown_keeps_majority_witness :
  let known := status_of ["a"; "b"; "c"; "d"; "e"] [0; 1; 2; 3] in
  let few := status_of ["a"; "b"; "c"] [0; 1; 2] in
  (allowedDown (five 5) known = 1 /\ 5 < 2 * (4 - allowedDown (five 5) known)) /\
  (allowedDown (five 5) few = 2 /\ ~ 3 < 2 * (3 - allowedDown (five 5) few)).
Proof.
  cbv zeta. split; (split; [by vm_compute|]).
  - destruct (allowedDown_keeps_majority (five 5) (status_of ["a"; "b"; "c"; "d"; "e"] [0; 1; 2; 3])) as (_ & _ & Hk); [simpl; lia|].
    destruct Hk as (_ & Hk & _); [simpl; lia|]. apply Hk. by vm_compute.
  - destruct (allowedDown_keeps_majority (five 5) (status_of ["a"; "b"; "c"] [0; 1; 2])) as (_ & Hk & _); [simpl; lia|].
    intros Hm. apply Hk in Hm; [simpl in Hm; lia|by vm_compute].
Defined.

(** ** Zones *)

Section Zones.
Context (spec : MonSpec).

Definition count_in (zone : string) (mons : list monConfig) : nat :=
  length (List.filter (fun m => String.eqb (Zone m) zone) mons).

(** How many mons a zone takes: one, or two in the data zones of a stretch cluster with five
    mons. *)
Definition zone_limit (zone : MonZoneSpec) : nat :=
  if IsStretchCluster spec && (MonCount spec =? 5) && negb (Arbiter zone) then 2 else 1.

Definition within_limits (mons : list monConfig) : Prop :=
  Forall (fun zone => (count_in (zone_name zone) mons <= zone_limit zone)%nat) (zones spec).

Lemma zone_count_in zone mons :
  zone_count zone mons = match count_in zone mons with O => None | S n => Some (Z.of_nat (S n)) end.
Proof. unfold zone_count, count_in. by destruct (List.filter _ _). Qed.

(** A zone is available exactly if it is below its limit. *)
Lemma zone_available_limit mons zone :
  (count_in (zone_name zone) mons <= zone_limit zone)%nat ->
  zone_available spec mons zone = (count_in (zone_name zone) mons <? zone_limit zone)%nat.
Proof.
  unfold zone_available, zone_limit. rewrite zone_count_in.
  destruct (count_in _ _) as [|n]; [by case_match|].
  destruct (IsStretchCluster spec), (MonCount spec =? 5), (Arbiter zone); simpl; intros Hn;
    rewrite ?andb_false_r, ?andb_true_r; destruct n as [|[|n]]; simpl in *; lia || done.
Qed.

Lemma count_in_snoc zone mons m :
  count_in zone (mons ++ [m]) = (count_in zone mons + (if String.eqb (Zone m) zone then 1 else 0))%nat.
Proof.
  unfold count_in. rewrite List.filter_app, length_app. simpl. by case_match.
Qed.

(** A mon more, in a zone that is available. *)
Lemma within_limits_snoc mons m zone :
  NoDup (zone_name <$> zones spec) -> within_limits mons -> zone ∈ zones spec ->
  zone_available spec mons zone = true -> Zone m = zone_name zone -> within_limits (mons ++ [m]).
Proof.
  intros Hnd Hw Hz Hav Hm. unfold within_limits in *. rewrite Forall_forall in Hw |- *. intros z Hz'.
  rewrite count_in_snoc, Hm. destruct (String.eqb_spec (zone_name zone) (zone_name z)) as [He|_];
    [|rewrite Nat.add_0_r; auto].
  assert (zone = z) as <-.
  { apply list_elem_of_lookup in Hz as [i Hi], Hz' as [j Hj].
    assert (i = j) as ->; [|congruence].
    eapply (NoDup_lookup _ i j (zone_name zone)); [done|..]; rewrite list_lookup_fmap, ?Hi, ?Hj; simpl; congruence. }
  rewrite zone_available_limit in Hav by auto. apply Nat.ltb_lt in Hav. lia.
Qed.

(** How many mons the zones take together. *)
Definition capacity : nat := sum_list (zone_limit <$> zones spec).

Lemma indicator_le (l : list MonZoneSpec) z :
  NoDup (zone_name <$> l) ->
  (sum_list ((fun zone => if String.eqb z (zone_name zone) then 1 else 0) <$> l) <= 1)%nat.
Proof.
  induction l as [|x l IH]; intros Hnd; csimpl; [lia|].
  apply NoDup_cons in Hnd as [Hx Hnd]. destruct (String.eqb_spec z (zone_name x)) as [->|_]; [|by apply IH].
  enough (sum_list ((fun zone => if String.eqb (zone_name x) (zone_name zone) then 1 else 0) <$> l) = 0)%nat by lia.
  clear IH Hnd. induction l as [|y l IH]; csimpl in *; [done|].
  destruct (String.eqb_spec (zone_name x) (zone_name y)); [set_solver|]. apply IH. set_solver.
Qed.

Lemma sum_list_fmap_add {A} (f g : A -> nat) l :
  sum_list ((fun x => f x + g x)%nat <$> l) = (sum_list (f <$> l) + sum_list (g <$> l))%nat.
Proof. induction l as [|x l IH]; csimpl; [done|]. rewrite IH. lia. Qed.

Lemma sum_list_fmap_le {A} (f g : A -> nat) l :
  Forall (fun x => f x <= g x)%nat l -> (sum_list (f <$> l) <= sum_list (g <$> l))%nat.
Proof. induction 1; csimpl; lia. Qed.

(** Every mon is counted in one zone at most. *)
Lemma count_in_sum (mons : list monConfig) (l : list MonZoneSpec) :
  NoDup (zone_name <$> l) -> (sum_list ((fun zone => count_in (zone_name zone) mons) <$> l) <= length mons)%nat.
Proof.
  intros Hnd. induction mons as [|m mons IH].
  - induction l as [|x l IHl]; csimpl; [lia|]. apply NoDup_cons in Hnd as [_ Hnd]. by apply IHl.
  - etrans.
    + apply Nat.eq_le_incl.
      rewrite (list_fmap_ext _ (fun zone => (if String.eqb (Zone m) (zone_name zone) then 1 else 0) + count_in (zone_name zone) mons)%nat);
        [apply sum_list_fmap_add|].
      intros k zone _. unfold count_in. simpl. by case_match.
    + csimpl. pose proof (indicator_le l (Zone m) Hnd). lia.
Qed.

(** Below the capacity a zone is found, and it is available. *)
Lemma findAvailableZone_total mons :
  ZonesRequired spec = true -> NoDup (zone_name <$> zones spec) -> within_limits mons ->
  Forall (fun m => Zone m <> "") mons -> (length mons < capacity)%nat ->
  exists zone, zone ∈ zones spec /\ zone_available spec mons zone = true /\
               findAvailableZone spec mons = Ok (zone_name zone).
Proof.
  intros Hz Hnd Hw Hne Hcap. unfold findAvailableZone. rewrite Hz. simpl.
  destruct (List.find _ mons) as [m|] eqn:Hf.
  { apply List.find_some in Hf as [Hin%list_elem_of_In Heq%String.eqb_eq]. rewrite Forall_forall in Hne. by destruct (Hne m). }
  destruct (List.find (zone_available spec mons) (zones spec)) as [zone|] eqn:Hfz.
  - apply List.find_some in Hfz as [Hin%list_elem_of_In Hav]. eauto.
  - exfalso. pose proof (count_in_sum mons (zones spec) Hnd) as Hsum.
    enough (capacity <= sum_list ((fun zone => count_in (zone_name zone) mons) <$> zones spec))%nat by lia.
    apply sum_list_fmap_le. unfold within_limits in Hw. rewrite Forall_forall in Hw |- *. intros zone Hin.
    pose proof (List.find_none _ _ Hfz zone (proj1 (list_elem_of_In _ _) Hin)) as Hav.
    rewrite zone_available_limit in Hav by auto. apply Nat.ltb_ge in Hav. done.
Qed.

(** C33: as long as the zones have room, a zone is found for every new mon.  The new mons get
    consecutive IDs from the maximum on, each is in one of the zones, and no zone gets more mons
    than it takes: one, or two in the data zones of a stretch cluster with five mons. *)
Theorem init_mons_respects_zones (n : nat) (maxMonID : Z) (mons : list monConfig) :
  ZonesRequired spec = true -> NoDup (zone_name <$> zones spec) -> Forall (fun z => zone_name z <> "") (zones spec) ->
  within_limits mons -> Forall (fun m => Zone m <> "") mons -> (length mons + n <= capacity)%nat ->
  - 2 ^ 63 <= maxMonID -> maxMonID + Z.of_nat n < 2 ^ 63 ->
  exists new, init_mons spec n maxMonID mons = (maxMonID + Z.of_nat n, Ok (mons ++ new)) /\
    DaemonName <$> new = IndexToName <$> seqZ (maxMonID + 1) (Z.of_nat n) /\
    Forall (fun m => Zone m ∈ (zone_name <$> zones spec)) new /\ within_limits (mons ++ new).
Proof.
  intros Hz Hnd Hzn. revert maxMonID mons. induction n as [|n IH]; intros max mons Hw Hne Hcap Hlo Hhi.
  - exists []. rewrite app_nil_r, Z.add_0_r. by split_and!.
  - destruct (findAvailableZone_total mons) as (zone & Hin & Hav & Hfz); [done..|lia|].
    cbn [init_mons]. rewrite Hfz, wrap64_id by (apply in_int64_spec; lia).
    set (m := newMonConfig spec (max + 1) (zone_name zone)).
    destruct (IH (max + 1) (mons ++ [m])) as (new & Hrun & Hnames & Hzones & Hlim).
    + by eapply within_limits_snoc.
    + apply Forall_app. split; [done|]. rewrite Forall_forall in Hzn. constructor; [by apply Hzn|done].
    + rewrite length_app. simpl. lia.
    + lia.
    + lia.
    + exists (m :: new). rewrite <- (assoc_L (++)) in Hrun, Hlim. split_and!; [| | |done].
      * rewrite Hrun. f_equal. lia.
      * rewrite (seqZ_cons (max + 1)) by lia. csimpl. rewrite Hnames. f_equal. f_equal. f_equal; lia.
      * constructor; [|done]. by apply (list_elem_of_fmap_2 zone_name).
Qed.

End Zones.

Lemma init_mons_respects_zones_witness :
  exists new, init_mons (five 5) 5 (-1) [] = (-1 + Z.of_nat 5, Ok ([] ++ new)) /\
    DaemonName <$> new = IndexToName <$> seqZ (-1 + 1) (Z.of_nat 5) /\
    Forall (fun m => Zone m ∈ (zone_name <$> zones (five 5))) new /\ within_limits (five 5) ([] ++ new).
Proof.
  apply (init_mons_respects_zones (five 5) 5 (-1) []).
  - done.
  - apply (bool_decide_unpack _). by vm_compute.
  - by repeat constructor.
  - repeat constructor; vm_compute; lia.
  - constructor.
  - vm_compute. lia.
  - lia.
  - lia.
Defined.

(** ** The mon to remove when there are too many *)

(** The mon [m] shares its node with one before it. *)
Definition shares_node (mons : list monConfig) (m : monConfig) : Prop :=
  exists l1 l2, mons = l1 ++ m :: l2 /\ NodeName m <> "" /\ exists m', m' ∈ l1 /\ NodeName m' = NodeName m.

Definition placed (mons : list monConfig) : list string :=
  List.filter (fun n => negb (String.eqb n "")) (NodeName <$> mons).

Lemma extra_mon_spec seen mons nodes arb :
  NoDup (placed seen) -> (forall n, n ∈ nodes <-> n ∈ placed seen) ->
  (exists m, shares_node (seen ++ mons) m /\ extra_mon mons nodes arb = DaemonName m) \/
  (NoDup (placed (seen ++ mons)) /\ extra_mon mons nodes arb = default arb (DaemonName <$> last mons)).
Proof.
  revert seen nodes arb. induction mons as [|m mons IH]; intros seen nodes arb Hnd Hn; simpl.
  { right. by rewrite app_nil_r. }
  assert (forall l, placed (l ++ [m]) = placed l ++ placed [m]) as Hp.
  { intros l. unfold placed. by rewrite fmap_app, List.filter_app. }
  assert (placed [m] = if String.eqb (NodeName m) "" then [] else [NodeName m]) as Hm.
  { unfold placed. simpl. by destruct (String.eqb (NodeName m) ""). }
  rewrite Hm in Hp.
  assert (forall x, default arb (DaemonName <$> last (m :: mons)) = default x (DaemonName <$> last (m :: mons))) as Hd.
  { intros x. destruct (last (m :: mons)) eqn:Hl; [done|]. by apply last_None in Hl. }
  replace (seen ++ m :: mons) with ((seen ++ [m]) ++ mons) by (by rewrite <- (assoc_L (++))).
  assert (default (DaemonName m) (DaemonName <$> last mons) = default arb (DaemonName <$> last (m :: mons))) as <-.
  { destruct mons; [done|]. rewrite last_cons_cons. by destruct (last _) eqn:Hl; [|apply last_None in Hl]. }
  destruct (String.eqb_spec (NodeName m) "") as [He|He].
  - apply IH; rewrite Hp, app_nil_r; done.
  - case_bool_decide as Hin.
    + left. exists m. split; [|done]. apply Hn in Hin.
      unfold placed in Hin. apply list_elem_of_In, List.filter_In in Hin as [Hin%list_elem_of_In _].
      apply list_elem_of_fmap in Hin as (m' & Hm' & Hin').
      exists seen, mons. rewrite <- (assoc_L (++)). eauto.
    + apply IH; rewrite Hp.
      * apply NoDup_app. split_and!; [done| |by apply NoDup_singleton]. intros x Hx ->%list_elem_of_singleton.
        by apply Hin, Hn.
      * intros n. rewrite elem_of_union, elem_of_singleton, elem_of_app, list_elem_of_singleton, Hn. tauto.
Qed.

(** The mons that have a zone. *)
Definition zoned (mons : list monConfig) : list monConfig :=
  List.filter (fun m => negb (String.eqb (Zone m) "")) mons.

Lemma count_in_zoned zone mons : zone <> "" -> count_in zone (zoned mons) = count_in zone mons.
Proof.
  intros Hz. unfold count_in, zoned. induction mons as [|m mons IH]; simpl; [done|].
  destruct (String.eqb_spec (Zone m) "") as [He|He]; simpl.
  - rewrite He. by destruct (String.eqb_spec "" zone); [congruence|].
  - destruct (String.eqb (Zone m) zone); simpl; by rewrite IH.
Qed.

Lemma count_in_zoned_le zone mons : (count_in zone (zoned mons) <= count_in zone mons)%nat.
Proof.
  unfold count_in, zoned. induction mons as [|m mons IH]; simpl; [lia|].
  destruct (String.eqb (Zone m) ""), (String.eqb (Zone m) zone) eqn:E; simpl; rewrite ?E; simpl; lia.
Qed.

Lemma zone_overfull_count mons zone :
  zone_overfull mons zone = true <-> ((if Arbiter zone then 1 else 2) < count_in (zone_name zone) mons)%nat.
Proof.
  unfold zone_overfull. rewrite zone_count_in.
  destruct (count_in _ _) as [|n], (Arbiter zone); rewrite ?Z.ltb_lt; split; (done || lia).
Qed.

(** The mon that is removed when there is one too many.  Without a stretch cluster, it is a
    mon that shares its node with another one if there is such a mon, else the last one.  In a
    stretch cluster it is a mon of a zone with more mons than it should have, and no mon if
    there is no such zone. *)
Theorem determineExtraMonToRemove_spec (spec : MonSpec) (mons : list monConfig) :
  if IsStretchCluster spec then
    (exists zone m, zone ∈ StretchZones spec /\ m ∈ mons /\ Zone m = zone_name zone /\
       ((if Arbiter zone then 1 else 2) < count_in (zone_name zone) mons)%nat /\
       determineExtraMonToRemove spec mons = DaemonName m) \/
    (determineExtraMonToRemove spec mons = "" /\
     forall zone, zone ∈ StretchZones spec -> zone_name zone <> "" ->
       (count_in (zone_name zone) mons <= if Arbiter zone then 1 else 2)%nat)
  else
    (exists m, shares_node mons m /\ determineExtraMonToRemove spec mons = DaemonName m) \/
    (NoDup (placed mons) /\ determineExtraMonToRemove spec mons = default "" (DaemonName <$> last mons)).
Proof.
  unfold determineExtraMonToRemove. destruct (IsStretchCluster spec).
  - unfold findExtraMonToRemoveFromStretchCluster. fold (zoned mons).
    destruct (List.find _ _) as [zone|] eqn:Hf.
    + left. apply List.find_some in Hf as [Hz%list_elem_of_In Hover%zone_overfull_count].
      destruct (last _) as [m|] eqn:Hl; [|apply last_None in Hl; unfold count_in in Hover; rewrite Hl in Hover; simpl in Hover; lia].
      exists zone, m. apply last_Some_elem_of, list_elem_of_In, List.filter_In in Hl as [Hm Hzone%String.eqb_eq].
      apply List.filter_In in Hm as [Hm%list_elem_of_In _]. pose proof (count_in_zoned_le (zone_name zone) mons).
      split_and!; [done..|lia|done].
    + right. split; [done|]. intros zone Hz Hne.
      pose proof (List.find_none _ _ Hf zone (proj1 (list_elem_of_In _ _) Hz)) as Hover.
      rewrite <- not_true_iff_false, zone_overfull_count, count_in_zoned in Hover by done. lia.
  - apply (extra_mon_spec []); [constructor|]. set_solver.
Qed.

(** A stretch cluster that is to shrink from five mons to three finds no mon to remove: a data zone
    counts as over-full from three mons on, while it gets a second mon only with five. *)
Example stretch_scale_down_stuck :
  let mons := zip_with (fun n z => {| ResourceName := resourceName n; DaemonName := n; PublicIP := ""; Port := 6789;
                                      Zone := z; NodeName := ""; UseHostNetwork := false |})
                ["a"; "b"; "c"; "d"; "e"] ["east"; "west"; "tie"; "east"; "west"] in
  determineExtraMonToRemove (five 3) mons = "".
Proof. by vm_compute. Qed.

(** ** The mons of an external cluster *)

Section External.
Context (spec : MonSpec) (status : MonStatusResponse).

(** What is known of the mon [mon] of the status after it was read. *)
Definition external_entry (internal : gmap string MonInfo) (mon : MonMapEntry) : MonInfo :=
  default (monStatusToInfo spec mon) (internal !! entry_name mon).

Lemma by_name_id (mons : gmap string MonInfo) :
  map_Forall (fun n m => Name m = n) mons ->
  list_to_map ((fun kv => (Name kv.2, kv.2)) <$> map_to_list mons) = mons.
Proof.
  intros Hn. rewrite <- (list_to_map_to_list mons) at 2. f_equal.
  rewrite <- (list_fmap_id (map_to_list mons)) at 2. apply list_fmap_ext. intros i [k m] Hk. simpl.
  f_equal. apply Hn, elem_of_map_to_list, list_elem_of_lookup. eauto.
Qed.

Lemma external_step_mons old new b mon :
  (external_step spec old (Quorum status) (new, b) mon).1 =
  if monInQuorum mon (Quorum status) then <[entry_name mon := external_entry old mon]> new else new.
Proof. unfold external_step, external_entry. by destruct (old !! _), (monInQuorum _ _). Qed.

(** The loop over the mons of the status, from the mons [st.1] on. *)
Lemma external_loop old mons st n i :
  NoDup (entry_name <$> mons) -> (forall mon, mon ∈ mons -> st.1 !! entry_name mon = None) ->
  (foldl (external_step spec old (Quorum status)) st mons).1 !! n = Some i <->
  st.1 !! n = Some i \/
  exists mon, mon ∈ mons /\ entry_name mon = n /\ monInQuorum mon (Quorum status) = true /\
              external_entry old mon = i.
Proof.
  revert st. induction mons as [|mon mons IH]; intros [new b] Hnd Hnew; cbn [foldl fst] in *; [set_solver|].
  apply NoDup_cons in Hnd as [Hnin Hnd]. pose proof (Hnew mon ltac:(set_solver)) as Hnone.
  rewrite IH; [|done|]; rewrite external_step_mons.
  - setoid_rewrite elem_of_cons. destruct (monInQuorum mon (Quorum status)) eqn:Hq; [|naive_solver congruence].
    rewrite lookup_insert_Some. split; [naive_solver|].
    intros [Hn|(mon' & [->|Hin] & Hn & Hq' & He)]; [|naive_solver..].
    left. right. split; [|done]. intros <-. congruence.
  - intros mon' Hin. specialize (Hnew mon' ltac:(set_solver)).
    destruct (monInQuorum mon (Quorum status)); [|done]. rewrite lookup_insert_ne; [done|].
    intros He. apply Hnin. rewrite He. by apply list_elem_of_fmap_2.
Qed.

(** After the status of an external cluster was read, the operator knows exactly the mons
    that are in quorum: those it knew as it knew them, the others from the status.  If the
    check reports no change, there is none. *)
Theorem addOrRemoveExternalMonitor_spec (internal : gmap string MonInfo) :
  NoDup (entry_name <$> Mons status) -> map_Forall (fun n m => Name m = n) internal ->
  (forall n i, (addOrRemoveExternalMonitor spec internal status).1 !! n = Some i <->
     exists mon, mon ∈ Mons status /\ entry_name mon = n /\ monInQuorum mon (Quorum status) = true /\
                 external_entry internal mon = i) /\
  ((addOrRemoveExternalMonitor spec internal status).2 = false ->
   (addOrRemoveExternalMonitor spec internal status).1 = internal).
Proof.
  intros Hnd Hn. unfold addOrRemoveExternalMonitor. rewrite by_name_id by done.
  pose proof (fun n i => external_loop internal (Mons status) (∅, false) n i Hnd (fun _ _ => lookup_empty _)) as Hl.
  destruct (foldl _ _ _) as [new changed]. simpl in *.
  assert (forall n i, new !! n = Some i <->
     exists mon, mon ∈ Mons status /\ entry_name mon = n /\ monInQuorum mon (Quorum status) = true /\
                 external_entry internal mon = i) as Hl'.
  { intros n i. rewrite Hl, lookup_empty. naive_solver. }
  split; [done|]. case_match eqn:Hsize; [done|]. apply negb_false_iff, Nat.eqb_eq in Hsize.
  intros [_ Hex]%orb_false_iff. apply map_subseteq_size_eq; [|lia].
  apply map_subseteq_spec. intros n i Hi.
  assert (Name i = n) as Hname.
  { apply Hl' in Hi as (mon & _ & <- & _ & <-). unfold external_entry.
    destruct (internal !! entry_name mon) eqn:Ho; [by apply Hn|done]. }
  rewrite <- not_true_iff_false, List.existsb_exists in Hex. rewrite <- Hname.
  destruct (decide (internal !! Name i = Some i)) as [|Hne]; [done|]. destruct Hex. exists (n, i).
  split; [by apply list_elem_of_In, elem_of_map_to_list|]. by apply bool_decide_eq_true_2.
Qed.

End External.

Lemma addOrRemoveExternalMonitor_spec_witness :
  (forall n i,
     (addOrRemoveExternalMonitor (five 3) {["a" := NewMonInfo "a" "10.0.0.1" 6789]} (status_of ["a"; "b"; "c"] [1; 2])).1 !! n = Some i <->
     exists mon, mon ∈ Mons (status_of ["a"; "b"; "c"] [1; 2]) /\ entry_name mon = n /\ monInQuorum mon [1; 2] = true /\
                 external_entry (five 3) {["a" := NewMonInfo "a" "10.0.0.1" 6789]} mon = i) /\
  map_to_list (Endpoint <$> (addOrRemoveExternalMonitor (five 3) {["a" := NewMonInfo "a" "10.0.0.1" 6789]}
                 (status_of ["a"; "b"; "c"] [1; 2])).1) = [("c", "10.0.0.7:6789"); ("b", "10.0.0.7:6789")].
Proof.
  split; [|by vm_compute].
  apply (addOrRemoveExternalMonitor_spec (five 3) (status_of ["a"; "b"; "c"] [1; 2])).
  - apply (bool_decide_unpack _). by vm_compute.
  - by apply map_Forall_singleton.
Defined.

End MonPlacement.
