(* ===== verification/Cephx.v ===== *)
(** * Cephx: when the keys of a daemon are rotated

    Models [pkg/operator/ceph/config/keyring/cephx.go] and, of
    [pkg/daemon/ceph/client/auth.go], [IsLegacyKeyType] and [Aes256kKeysSupported]: whether a
    key is to be rotated, and the status that is recorded afterwards.  Generations are
    [uint32]. *)

From stdpp Require Import base gmap strings list fin_maps.
From Stdlib Require Import ZArith Ascii.
From S2P Require Import Prelude CephVersion.
Import Version.
Open Scope Z_scope.

Module Cephx.

Record CephxConfig := {
  KeyRotationPolicy : string;
  cfg_KeyGeneration : Z;
  cfg_KeyType : string;
}.

Record CephxStatus := {
  KeyGeneration : Z;
  KeyCephVersion : string;
  KeyType : string;
}.

#[global] Instance CephxStatus_eq_dec : EqDecision CephxStatus.
Proof. solve_decision. Defined.

Definition empty_status : CephxStatus := {| KeyGeneration := 0; KeyCephVersion := ""; KeyType := "" |}.

Definition max_uint32 : Z := 2 ^ 32 - 1.

Definition is_uint32 (z : Z) : Prop := 0 <= z <= max_uint32.

Definition uint32_incr (z : Z) : Z := (z + 1) mod 2 ^ 32.

Definition UninitializedCephxKeyCephVersion : string := "Uninitialized".

Definition DisabledCephxKeyRotationPolicy : string := "Disabled".

Definition KeyGenerationCephxKeyRotationPolicy : string := "KeyGeneration".

Definition CephxKeyTypeUndefined : string := "".

Definition CephxKeyTypeAes : string := "aes".

Definition CephAuthRotateSupportedVersion : CephVersion := mkv 19 2 3 0 "".

Definition IsLegacyKeyType (keyType : string) : bool := String.eqb keyType CephxKeyTypeAes.

Definition Aes256kKeysSupported (ver : CephVersion) : bool :=
  if Major ver =? 19 then IsAtLeast ver (mkv 19 2 6 0 "")
  else if Major ver =? 20 then IsAtLeast ver (mkv 20 2 1 297 "")
  else 21 <=? Major ver.

(** The process-wide map of the clusters whose keys may be rotated. *)
Definition AllowMap : Type := gmap string bool.

Definition SetAllowCephxKeyRotationForCluster (namespace : string) (allow : bool) (m : AllowMap) : AllowMap :=
  <[namespace := allow]> m.

Definition unsetAllowCephxKeyRotationForCluster (namespace : string) (m : AllowMap) : AllowMap :=
  delete namespace m.

Definition GetAllowCephxKeyRotationForCluster (namespace : string) (m : AllowMap) : bool * bool :=
  match m !! namespace with None => (false, false) | Some allowed => (allowed, true) end.

Definition CephVersionToCephxStatusVersion (v : CephVersion) : string :=
  Itoa (Major v) +:+ "." +:+ Itoa (Minor v) +:+ "." +:+ Itoa (Extra v) +:+ "-" +:+ Itoa (Build v).

Definition atoi_part (s what inVer : string) : result Z :=
  match Atoi s with
  | Some z => Ok z
  | None => Err (Errorf ("failed to parse " +:+ what +:+ " version from %q") [inVer])
  end.

Definition parseCephVersionFromStatusVersion (inVer : string) : result CephVersion :=
  match split_byte "-" inVer with
  | [semv; build] =>
      build ← atoi_part build "build" inVer;
      match split_byte "." semv with
      | [a; b; c] =>
          major ← atoi_part a "major" inVer;
          minor ← atoi_part b "minor" inVer;
          extra ← atoi_part c "extra" inVer;
          Ok (mkv major minor extra build "")
      | _ => Err (Errorf "failed to parse %q into a ceph version at Major-Minor-Extra split" [inVer])
      end
  | _ => Err (Errorf "failed to parse %q into a ceph version at build split" [inVer])
  end.

Definition shouldRotateWithCephVersionUpdate (cfg : CephxConfig) (runningCephVersion desiredCephVersion : CephVersion)
    (status : CephxStatus) : result bool :=
  if IsIdentical desiredCephVersion (mkv 0 0 0 0 "") then Ok false
  else if String.eqb (KeyCephVersion status) "" then Ok true
  else
    statusVer ← wrap_err (parseCephVersionFromStatusVersion (KeyCephVersion status))
                  "failed to determine if cephx keys need to be rotated under %q rotation policy"
                  [KeyRotationPolicy cfg];
    Ok (IsSuperior (without_commit desiredCephVersion) statusVer).

(** The answer "rotate", which is an error as long as it is not known whether rotating is
    allowed. *)
Definition indicated (allowRotationUndefined : bool) (clusterNamespace : string) : result bool :=
  if allowRotationUndefined
  then Err (Errorf "cephx key rotation is indicated but must wait for CephCluster in namespace %q to process"
              [clusterNamespace])
  else Ok true.

Definition ShouldRotateCephxKeys (m : AllowMap) (cfg : CephxConfig) (runningCephVersion desiredCephVersion : CephVersion)
    (status : CephxStatus) (ignoreKeyType : bool) (clusterNamespace : string) : result bool :=
  let '(allowRotation, ok) := GetAllowCephxKeyRotationForCluster clusterNamespace m in
  if ok && negb allowRotation then Ok false
  else
    let allowRotationUndefined := negb ok in
    if negb (IsAtLeast runningCephVersion CephAuthRotateSupportedVersion || Aes256kKeysSupported runningCephVersion)
    then Ok false
    else
      let typeUnsetOrLegacy := String.eqb (cfg_KeyType cfg) "" || IsLegacyKeyType (cfg_KeyType cfg) in
      if negb typeUnsetOrLegacy && negb (Aes256kKeysSupported runningCephVersion)
      then Err (Errorf "ceph version does not support key type %q; change the requested keyType or upgrade Ceph"
                  [cfg_KeyType cfg])
      else if String.eqb (KeyCephVersion status) UninitializedCephxKeyCephVersion then Ok false
      else
        let by_type :=
          if negb ignoreKeyType && negb (String.eqb (cfg_KeyType cfg) "") &&
             negb (String.eqb (cfg_KeyType cfg) (KeyType status))
          then indicated allowRotationUndefined clusterNamespace
          else Ok false in
        let policy := KeyRotationPolicy cfg in
        if String.eqb policy "" || String.eqb policy DisabledCephxKeyRotationPolicy then Ok false
        else if String.eqb policy KeyGenerationCephxKeyRotationPolicy then
          if KeyGeneration status <? cfg_KeyGeneration cfg
          then indicated allowRotationUndefined clusterNamespace
          else by_type
        else if String.eqb policy "WithCephVersionUpdate" then
          shouldRotate ← shouldRotateWithCephVersionUpdate cfg runningCephVersion desiredCephVersion status;
          if (shouldRotate : bool) then indicated allowRotationUndefined clusterNamespace else by_type
        else Err (Errorf "unknown cephx key rotation policy %q" [policy]).

Definition UninitializedCephxStatus : CephxStatus :=
  {| KeyGeneration := 0; KeyCephVersion := UninitializedCephxKeyCephVersion; KeyType := "" |}.

Definition UpdatedCephxStatus (didRotate : bool) (cfg : CephxConfig) (runningCephVersion : CephVersion)
    (status : CephxStatus) (keyType : string) : CephxStatus :=
  let version := CephVersionToCephxStatusVersion runningCephVersion in
  let by_generation := String.eqb (KeyRotationPolicy cfg) KeyGenerationCephxKeyRotationPolicy in
  if String.eqb (KeyCephVersion status) UninitializedCephxKeyCephVersion then
    {| KeyGeneration := if by_generation && (1 <? cfg_KeyGeneration cfg) then cfg_KeyGeneration cfg else 1;
       KeyCephVersion := version; KeyType := keyType |}
  else if negb didRotate then status
  else
    let generation := uint32_incr (KeyGeneration status) in
    {| KeyGeneration := if by_generation && (generation <? cfg_KeyGeneration cfg) then cfg_KeyGeneration cfg
                        else generation;
       KeyCephVersion := version; KeyType := keyType |}.

(** ** The recorded version *)

Definition version_fits (v : CephVersion) : Prop :=
  fits (Major v) /\ fits (Minor v) /\ fits (Extra v) /\ fits (Build v).

Lemma atoi_part_fits z what inVer : fits z -> atoi_part (Itoa z) what inVer = Ok z.
Proof. intros Hz. unfold atoi_part. by rewrite Atoi_fits. Qed.

(** What is recorded is read back, without the commit. *)
Lemma status_version_roundtrip v :
  version_fits v ->
  parseCephVersionFromStatusVersion (CephVersionToCephxStatusVersion v) = Ok (without_commit v).
Proof.
  intros (Ha & Hb & Hc & Hd). pose proof Ha as [? _]. pose proof Hb as [? _]. pose proof Hc as [? _].
  pose proof Hd as [? _].
  unfold parseCephVersionFromStatusVersion, CephVersionToCephxStatusVersion.
  set (a := Itoa (Major v)). set (b := Itoa (Minor v)). set (c := Itoa (Extra v)). set (d := Itoa (Build v)).
  replace (a +:+ "." +:+ b +:+ "." +:+ c +:+ "-" +:+ d)
    with ((a +:+ "." +:+ b +:+ "." +:+ c) +:+ String "-" d) by (by autorewrite with rook).
  rewrite split_byte_app.
  2:{ rewrite !free_of_app. subst a b c. by rewrite !Itoa_free. }
  rewrite (split_byte_free "-" d) by (by apply Itoa_free).
  change (a +:+ "." +:+ b +:+ "." +:+ c) with (a +:+ String "." (b +:+ String "." c)).
  rewrite split_byte_app, split_byte_app, split_byte_free by (by apply Itoa_free).
  subst a b c d. rewrite !atoi_part_fits by done. done.
Qed.

Lemma status_version_initialized v :
  version_fits v -> CephVersionToCephxStatusVersion v <> UninitializedCephxKeyCephVersion.
Proof.
  intros Hv H. apply status_version_roundtrip in Hv. rewrite H in Hv. vm_compute in Hv. done.
Qed.

(** ** Rotation happens once *)

Definition new_generation (cfg : CephxConfig) (status : CephxStatus) : Z :=
  let generation := uint32_incr (KeyGeneration status) in
  if String.eqb (KeyRotationPolicy cfg) KeyGenerationCephxKeyRotationPolicy && (generation <? cfg_KeyGeneration cfg)
  then cfg_KeyGeneration cfg else generation.

Lemma new_generation_spec cfg status :
  is_uint32 (KeyGeneration status) -> is_uint32 (cfg_KeyGeneration cfg) ->
  is_uint32 (new_generation cfg status) /\
  (KeyGeneration status < max_uint32 -> KeyGeneration status < new_generation cfg status) /\
  (KeyRotationPolicy cfg = KeyGenerationCephxKeyRotationPolicy -> cfg_KeyGeneration cfg <= new_generation cfg status).
Proof.
  unfold is_uint32, max_uint32, new_generation, uint32_incr. intros Hs Hc.
  pose proof (Z.mod_pos_bound (KeyGeneration status + 1) (2 ^ 32) ltac:(lia)) as Hb.
  assert (KeyGeneration status < 2 ^ 32 - 1 -> (KeyGeneration status + 1) mod 2 ^ 32 = KeyGeneration status + 1) as He.
  { intros. apply Z.mod_small. lia. }
  destruct (String.eqb_spec (KeyRotationPolicy cfg) KeyGenerationCephxKeyRotationPolicy);
    destruct (Z.ltb_spec ((KeyGeneration status + 1) mod 2 ^ 32) (cfg_KeyGeneration cfg)); simpl; (split; [lia|]);
    (split; [lia|]); intros; solve [done | lia].
Qed.

(** The version that was just recorded is no reason to rotate. *)
Lemma shouldRotate_recorded cfg v generation keyType :
  version_fits v ->
  shouldRotateWithCephVersionUpdate cfg v v
    {| KeyGeneration := generation; KeyCephVersion := CephVersionToCephxStatusVersion v; KeyType := keyType |} = Ok false.
Proof.
  intros Hv. unfold shouldRotateWithCephVersionUpdate. cbn [KeyCephVersion].
  destruct (IsIdentical v _); [done|].
  destruct (String.eqb_spec (CephVersionToCephxStatusVersion v) "") as [E|E].
  { apply status_version_roundtrip in Hv. by rewrite E in Hv. }
  rewrite status_version_roundtrip by done. cbn. f_equal.
  destruct (IsSuperior (without_commit v) (without_commit v)) eqn:Es; [|done].
  apply IsSuperior_lt in Es as [Es|(_ & _ & _ & Es)]; [|done]. by apply StrictOrder_Irreflexive in Es.
Qed.

(** Rotating a key ends the reason for rotating it.  Whenever [ShouldRotateCephxKeys] asks for
    a rotation, for a configuration and a running version, the status that
    [UpdatedCephxStatus] records after the rotation makes it answer no, under every policy and
    whatever the recorded generation; a policy of generations reaches at least the generation
    that was asked for, and the recorded generation grows unless it was the largest [uint32]. *)
Theorem rotation_converges m cfg v status ignoreKeyType ns keyType :
  version_fits v -> is_uint32 (KeyGeneration status) -> is_uint32 (cfg_KeyGeneration cfg) ->
  (ignoreKeyType = false -> keyType = cfg_KeyType cfg) ->
  ShouldRotateCephxKeys m cfg v v status ignoreKeyType ns = Ok true ->
  let status' := UpdatedCephxStatus true cfg v status keyType in
  ShouldRotateCephxKeys m cfg v v status' ignoreKeyType ns = Ok false /\
  is_uint32 (KeyGeneration status') /\
  (KeyGeneration status < max_uint32 -> KeyGeneration status < KeyGeneration status') /\
  (KeyRotationPolicy cfg = KeyGenerationCephxKeyRotationPolicy ->
   cfg_KeyGeneration cfg <= KeyGeneration status').
Proof.
  intros Hv Hs Hc Ht H. cbv zeta.
  assert (KeyCephVersion status <> UninitializedCephxKeyCephVersion) as Hinit.
  { intros E. unfold ShouldRotateCephxKeys in H. rewrite E in H. repeat case_match; simplify_eq/=. }
  assert (UpdatedCephxStatus true cfg v status keyType =
          {| KeyGeneration := new_generation cfg status;
             KeyCephVersion := CephVersionToCephxStatusVersion v; KeyType := keyType |}) as ->.
  { unfold UpdatedCephxStatus. by rewrite (proj2 (String.eqb_neq _ _) Hinit). }
  destruct (new_generation_spec cfg status Hs Hc) as (Hu & Hg & Hp).
  split; [|done]. revert H. unfold ShouldRotateCephxKeys.
  destruct (GetAllowCephxKeyRotationForCluster ns m) as [allow ok]. cbn [KeyGeneration KeyCephVersion KeyType].
  rewrite (proj2 (String.eqb_neq _ _) Hinit),
    (proj2 (String.eqb_neq _ _) (status_version_initialized v Hv)).
  assert (negb ignoreKeyType && negb (String.eqb (cfg_KeyType cfg) "") &&
          negb (String.eqb (cfg_KeyType cfg) keyType) = false) as ->.
  { destruct ignoreKeyType; [done|]. rewrite Ht by done. rewrite String.eqb_refl. by rewrite andb_false_r. }
  destruct (ok && negb allow); [done|]. destruct (negb (_ || _)); [done|]. destruct (negb _ && negb _); [done|].
  destruct (String.eqb _ "" || _); [done|].
  destruct (String.eqb_spec (KeyRotationPolicy cfg) KeyGenerationCephxKeyRotationPolicy) as [E|E].
  { intros _. specialize (Hp E). destruct (Z.ltb_spec (new_generation cfg status) (cfg_KeyGeneration cfg)); [lia|done]. }
  destruct (String.eqb _ "WithCephVersionUpdate"); [|done].
  intros _. by rewrite shouldRotate_recorded.
Qed.

(** Generation 1 of a key on 20.2.1, generation 3 is asked for. *)
Lemma rotation_converges_witness :
  let cfg := {| KeyRotationPolicy := "KeyGeneration"; cfg_KeyGeneration := 3; cfg_KeyType := "" |} in
  let status := {| KeyGeneration := 1; KeyCephVersion := "19.2.3-0"; KeyType := "" |} in
  let v := mkv 20 2 1 300 "abc" in
  let m := SetAllowCephxKeyRotationForCluster "rook-ceph" true ∅ in
  ShouldRotateCephxKeys m cfg v v status true "rook-ceph" = Ok true /\
  ShouldRotateCephxKeys m cfg v v (UpdatedCephxStatus true cfg v status "") true "rook-ceph" = Ok false.
Proof.
  cbv zeta. split; [by vm_compute|].
  refine (proj1 (rotation_converges (SetAllowCephxKeyRotationForCluster "rook-ceph" true ∅)
    {| KeyRotationPolicy := "KeyGeneration"; cfg_KeyGeneration := 3; cfg_KeyType := "" |} (mkv 20 2 1 300 "abc")
    {| KeyGeneration := 1; KeyCephVersion := "19.2.3-0"; KeyType := "" |} true "rook-ceph" "" _ _ _ _ _)).
  - unfold version_fits, fits, max_int64. simpl. lia.
  - unfold is_uint32, max_uint32. simpl. lia.
  - unfold is_uint32, max_uint32. simpl. lia.
  - done.
  - by vm_compute.
Defined.

(** As long as it is not known whether keys of the cluster may be rotated, a rotation that is due
    is an error, so that the reconcile is retried. *)
Example rotation_undecided :
  is_ok (ShouldRotateCephxKeys ∅ {| KeyRotationPolicy := "KeyGeneration"; cfg_KeyGeneration := 3; cfg_KeyType := "" |}
    (mkv 20 2 1 300 "") (mkv 20 2 1 300 "")
    {| KeyGeneration := 1; KeyCephVersion := "19.2.3-0"; KeyType := "" |} true "rook-ceph") = false.
Proof. by vm_compute. Qed.

End Cephx.
