(* ===== verification/OsdBase.v ===== *)
(** * OsdBase: OSD deployments, the calls about them and the commands to Ceph

    The part the OSD components share: [OSDInfo] and what is read back from a deployment
    ([pkg/operator/ceph/cluster/osd/osd.go]), the OSD commands of
    [pkg/daemon/ceph/client/osd.go], and the helpers of [pkg/operator/k8sutil] ([deployment.go],
    [job.go], [pod.go], [node.go], [k8sutil.go]) on deployments, jobs, pods and nodes.

    The API server and Ceph are the class [OsdEnv].  The handlers run in the world [world W event]
    that records every call with its answer, in the order of the calls. *)

From stdpp Require Import base gmap strings list fin_maps.
From Stdlib Require Import ZArith Ascii.
From S2P Require Import Prelude CephVersion GoTime Topology Kube Disruption Upgrade Cephx.
Import Log Version GoTime Kube Upgrade Cephx.
Open Scope Z_scope.

Module OsdBase.

Definition AppAttr : string := "app".

Definition AppName : string := "rook-ceph-osd".

Definition OsdIdLabelKey : string := "ceph-osd-id".

Definition OSDOverPVCLabelKey : string := "ceph.rook.io/pvc".

Definition portableKey : string := "portable".

Definition osdStore : string := "osd-store".

Definition deviceType : string := "device-type".

Definition encrypted : string := "encrypted".

Definition cephxStatusAnnotationKey : string := "cephx-status".

Definition activatePVCOSDInitContainer : string := "activate".

Definition confirmFlag : string := "--yes-i-really-mean-it".

Definition CrushRootConfigKey : string := "crushRoot".

Definition DefaultCRUSHRoot : string := "default".

(** ** Strings *)

(** The UTF-8 encodings of the runes [unicode.IsSpace] accepts. *)
Definition space_runes : list string :=
  [chr 9; chr 10; chr 11; chr 12; chr 13; " "; chr 0xC2 +:+ chr 0x85; chr 0xC2 +:+ chr 0xA0;
   chr 0xE1 +:+ chr 0x9A +:+ chr 0x80;
   chr 0xE2 +:+ chr 0x80 +:+ chr 0xA8; chr 0xE2 +:+ chr 0x80 +:+ chr 0xA9; chr 0xE2 +:+ chr 0x80 +:+ chr 0xAF;
   chr 0xE2 +:+ chr 0x81 +:+ chr 0x9F; chr 0xE3 +:+ chr 0x80 +:+ chr 0x80] ++
  ((fun z => chr 0xE2 +:+ chr 0x80 +:+ chr z) <$>
     [0x80; 0x81; 0x82; 0x83; 0x84; 0x85; 0x86; 0x87; 0x88; 0x89; 0x8A]).

Fixpoint trim_runes (fuel : nat) (runes : list string) (s : string) : string :=
  match fuel with
  | O => s
  | S fuel =>
      match head (omap (fun p => strip_prefix p s) runes) with
      | Some s' => trim_runes fuel runes s'
      | None => s
      end
  end.

(** [strings.TrimSpace]: at most one round per byte on either side *)
Definition TrimSpace (s : string) : string :=
  let s := trim_runes (String.length s) space_runes s in
  String.rev (trim_runes (String.length s) (String.rev <$> space_runes) (String.rev s)).

Definition ParseBool (s : string) : option bool :=
  if bool_decide (s ∈ ["1"; "t"; "T"; "TRUE"; "true"; "True"]) then Some true
  else if bool_decide (s ∈ ["0"; "f"; "F"; "FALSE"; "false"; "False"]) then Some false
  else None.

(** ** Data *)

Record OSDInfo := {
  ID : Z;
  OSDCluster : string;
  UUID : string;
  DevicePartUUID : string;
  DeviceClass : string;
  BlockPath : string;
  MetadataPath : string;
  WalPath : string;
  SkipLVRelease : bool;
  Location : string;
  LVBackedPV : bool;
  CVMode : string;
  Store : string;
  TopologyAffinity : string;
  Encrypted : bool;
  ExportService : bool;
  NodeName : string;
  PVCName : string;
  DeviceType : string;
  info_CephxStatus : CephxStatus;
}.

Definition empty_info : OSDInfo :=
  {| ID := 0; OSDCluster := ""; UUID := ""; DevicePartUUID := ""; DeviceClass := ""; BlockPath := ""; MetadataPath := ""; WalPath := ""; SkipLVRelease := false; Location := ""; LVBackedPV := false; CVMode := ""; Store := ""; TopologyAffinity := ""; Encrypted := false; ExportService := false; NodeName := ""; PVCName := ""; DeviceType := ""; info_CephxStatus := empty_status |}.

Definition set_ID (v : Z) (o : OSDInfo) : OSDInfo :=
  {| ID := v; OSDCluster := OSDCluster o; UUID := UUID o; DevicePartUUID := DevicePartUUID o; DeviceClass :=
     DeviceClass o; BlockPath := BlockPath o; MetadataPath := MetadataPath o; WalPath := WalPath o; SkipLVRelease :=
     SkipLVRelease o; Location := Location o; LVBackedPV := LVBackedPV o; CVMode := CVMode o; Store := Store o;
     TopologyAffinity := TopologyAffinity o; Encrypted := Encrypted o; ExportService := ExportService o; NodeName :=
     NodeName o; PVCName := PVCName o; DeviceType := DeviceType o; info_CephxStatus := info_CephxStatus o |}.

Definition set_UUID (v : string) (o : OSDInfo) : OSDInfo :=
  {| ID := ID o; OSDCluster := OSDCluster o; UUID := v; DevicePartUUID := DevicePartUUID o; DeviceClass := DeviceClass
     o; BlockPath := BlockPath o; MetadataPath := MetadataPath o; WalPath := WalPath o; SkipLVRelease := SkipLVRelease
     o; Location := Location o; LVBackedPV := LVBackedPV o; CVMode := CVMode o; Store := Store o; TopologyAffinity :=
     TopologyAffinity o; Encrypted := Encrypted o; ExportService := ExportService o; NodeName := NodeName o; PVCName
     := PVCName o; DeviceType := DeviceType o; info_CephxStatus := info_CephxStatus o |}.

Definition set_DeviceClass (v : string) (o : OSDInfo) : OSDInfo :=
  {| ID := ID o; OSDCluster := OSDCluster o; UUID := UUID o; DevicePartUUID := DevicePartUUID o; DeviceClass := v;
     BlockPath := BlockPath o; MetadataPath := MetadataPath o; WalPath := WalPath o; SkipLVRelease := SkipLVRelease o;
     Location := Location o; LVBackedPV := LVBackedPV o; CVMode := CVMode o; Store := Store o; TopologyAffinity :=
     TopologyAffinity o; Encrypted := Encrypted o; ExportService := ExportService o; NodeName := NodeName o; PVCName
     := PVCName o; DeviceType := DeviceType o; info_CephxStatus := info_CephxStatus o |}.

Definition set_BlockPath (v : string) (o : OSDInfo) : OSDInfo :=
  {| ID := ID o; OSDCluster := OSDCluster o; UUID := UUID o; DevicePartUUID := DevicePartUUID o; DeviceClass :=
     DeviceClass o; BlockPath := v; MetadataPath := MetadataPath o; WalPath := WalPath o; SkipLVRelease :=
     SkipLVRelease o; Location := Location o; LVBackedPV := LVBackedPV o; CVMode := CVMode o; Store := Store o;
     TopologyAffinity := TopologyAffinity o; Encrypted := Encrypted o; ExportService := ExportService o; NodeName :=
     NodeName o; PVCName := PVCName o; DeviceType := DeviceType o; info_CephxStatus := info_CephxStatus o |}.

Definition set_MetadataPath (v : string) (o : OSDInfo) : OSDInfo :=
  {| ID := ID o; OSDCluster := OSDCluster o; UUID := UUID o; DevicePartUUID := DevicePartUUID o; DeviceClass :=
     DeviceClass o; BlockPath := BlockPath o; MetadataPath := v; WalPath := WalPath o; SkipLVRelease := SkipLVRelease
     o; Location := Location o; LVBackedPV := LVBackedPV o; CVMode := CVMode o; Store := Store o; TopologyAffinity :=
     TopologyAffinity o; Encrypted := Encrypted o; ExportService := ExportService o; NodeName := NodeName o; PVCName
     := PVCName o; DeviceType := DeviceType o; info_CephxStatus := info_CephxStatus o |}.

Definition set_WalPath (v : string) (o : OSDInfo) : OSDInfo :=
  {| ID := ID o; OSDCluster := OSDCluster o; UUID := UUID o; DevicePartUUID := DevicePartUUID o; DeviceClass :=
     DeviceClass o; BlockPath := BlockPath o; MetadataPath := MetadataPath o; WalPath := v; SkipLVRelease :=
     SkipLVRelease o; Location := Location o; LVBackedPV := LVBackedPV o; CVMode := CVMode o; Store := Store o;
     TopologyAffinity := TopologyAffinity o; Encrypted := Encrypted o; ExportService := ExportService o; NodeName :=
     NodeName o; PVCName := PVCName o; DeviceType := DeviceType o; info_CephxStatus := info_CephxStatus o |}.

Definition set_Location (v : string) (o : OSDInfo) : OSDInfo :=
  {| ID := ID o; OSDCluster := OSDCluster o; UUID := UUID o; DevicePartUUID := DevicePartUUID o; DeviceClass :=
     DeviceClass o; BlockPath := BlockPath o; MetadataPath := MetadataPath o; WalPath := WalPath o; SkipLVRelease :=
     SkipLVRelease o; Location := v; LVBackedPV := LVBackedPV o; CVMode := CVMode o; Store := Store o;
     TopologyAffinity := TopologyAffinity o; Encrypted := Encrypted o; ExportService := ExportService o; NodeName :=
     NodeName o; PVCName := PVCName o; DeviceType := DeviceType o; info_CephxStatus := info_CephxStatus o |}.

Definition set_LVBackedPV (v : bool) (o : OSDInfo) : OSDInfo :=
  {| ID := ID o; OSDCluster := OSDCluster o; UUID := UUID o; DevicePartUUID := DevicePartUUID o; DeviceClass :=
     DeviceClass o; BlockPath := BlockPath o; MetadataPath := MetadataPath o; WalPath := WalPath o; SkipLVRelease :=
     SkipLVRelease o; Location := Location o; LVBackedPV := v; CVMode := CVMode o; Store := Store o; TopologyAffinity
     := TopologyAffinity o; Encrypted := Encrypted o; ExportService := ExportService o; NodeName := NodeName o;
     PVCName := PVCName o; DeviceType := DeviceType o; info_CephxStatus := info_CephxStatus o |}.

Definition set_CVMode (v : string) (o : OSDInfo) : OSDInfo :=
  {| ID := ID o; OSDCluster := OSDCluster o; UUID := UUID o; DevicePartUUID := DevicePartUUID o; DeviceClass :=
     DeviceClass o; BlockPath := BlockPath o; MetadataPath := MetadataPath o; WalPath := WalPath o; SkipLVRelease :=
     SkipLVRelease o; Location := Location o; LVBackedPV := LVBackedPV o; CVMode := v; Store := Store o;
     TopologyAffinity := TopologyAffinity o; Encrypted := Encrypted o; ExportService := ExportService o; NodeName :=
     NodeName o; PVCName := PVCName o; DeviceType := DeviceType o; info_CephxStatus := info_CephxStatus o |}.

Definition set_Store (v : string) (o : OSDInfo) : OSDInfo :=
  {| ID := ID o; OSDCluster := OSDCluster o; UUID := UUID o; DevicePartUUID := DevicePartUUID o; DeviceClass :=
     DeviceClass o; BlockPath := BlockPath o; MetadataPath := MetadataPath o; WalPath := WalPath o; SkipLVRelease :=
     SkipLVRelease o; Location := Location o; LVBackedPV := LVBackedPV o; CVMode := CVMode o; Store := v;
     TopologyAffinity := TopologyAffinity o; Encrypted := Encrypted o; ExportService := ExportService o; NodeName :=
     NodeName o; PVCName := PVCName o; DeviceType := DeviceType o; info_CephxStatus := info_CephxStatus o |}.

Definition set_TopologyAffinity (v : string) (o : OSDInfo) : OSDInfo :=
  {| ID := ID o; OSDCluster := OSDCluster o; UUID := UUID o; DevicePartUUID := DevicePartUUID o; DeviceClass :=
     DeviceClass o; BlockPath := BlockPath o; MetadataPath := MetadataPath o; WalPath := WalPath o; SkipLVRelease :=
     SkipLVRelease o; Location := Location o; LVBackedPV := LVBackedPV o; CVMode := CVMode o; Store := Store o;
     TopologyAffinity := v; Encrypted := Encrypted o; ExportService := ExportService o; NodeName := NodeName o;
     PVCName := PVCName o; DeviceType := DeviceType o; info_CephxStatus := info_CephxStatus o |}.

Definition set_Encrypted (v : bool) (o : OSDInfo) : OSDInfo :=
  {| ID := ID o; OSDCluster := OSDCluster o; UUID := UUID o; DevicePartUUID := DevicePartUUID o; DeviceClass :=
     DeviceClass o; BlockPath := BlockPath o; MetadataPath := MetadataPath o; WalPath := WalPath o; SkipLVRelease :=
     SkipLVRelease o; Location := Location o; LVBackedPV := LVBackedPV o; CVMode := CVMode o; Store := Store o;
     TopologyAffinity := TopologyAffinity o; Encrypted := v; ExportService := ExportService o; NodeName := NodeName o;
     PVCName := PVCName o; DeviceType := DeviceType o; info_CephxStatus := info_CephxStatus o |}.

Definition set_ExportService (v : bool) (o : OSDInfo) : OSDInfo :=
  {| ID := ID o; OSDCluster := OSDCluster o; UUID := UUID o; DevicePartUUID := DevicePartUUID o; DeviceClass :=
     DeviceClass o; BlockPath := BlockPath o; MetadataPath := MetadataPath o; WalPath := WalPath o; SkipLVRelease :=
     SkipLVRelease o; Location := Location o; LVBackedPV := LVBackedPV o; CVMode := CVMode o; Store := Store o;
     TopologyAffinity := TopologyAffinity o; Encrypted := Encrypted o; ExportService := v; NodeName := NodeName o;
     PVCName := PVCName o; DeviceType := DeviceType o; info_CephxStatus := info_CephxStatus o |}.

Definition set_NodeName (v : string) (o : OSDInfo) : OSDInfo :=
  {| ID := ID o; OSDCluster := OSDCluster o; UUID := UUID o; DevicePartUUID := DevicePartUUID o; DeviceClass :=
     DeviceClass o; BlockPath := BlockPath o; MetadataPath := MetadataPath o; WalPath := WalPath o; SkipLVRelease :=
     SkipLVRelease o; Location := Location o; LVBackedPV := LVBackedPV o; CVMode := CVMode o; Store := Store o;
     TopologyAffinity := TopologyAffinity o; Encrypted := Encrypted o; ExportService := ExportService o; NodeName :=
     v; PVCName := PVCName o; DeviceType := DeviceType o; info_CephxStatus := info_CephxStatus o |}.

Definition set_PVCName (v : string) (o : OSDInfo) : OSDInfo :=
  {| ID := ID o; OSDCluster := OSDCluster o; UUID := UUID o; DevicePartUUID := DevicePartUUID o; DeviceClass :=
     DeviceClass o; BlockPath := BlockPath o; MetadataPath := MetadataPath o; WalPath := WalPath o; SkipLVRelease :=
     SkipLVRelease o; Location := Location o; LVBackedPV := LVBackedPV o; CVMode := CVMode o; Store := Store o;
     TopologyAffinity := TopologyAffinity o; Encrypted := Encrypted o; ExportService := ExportService o; NodeName :=
     NodeName o; PVCName := v; DeviceType := DeviceType o; info_CephxStatus := info_CephxStatus o |}.

Definition set_DeviceType (v : string) (o : OSDInfo) : OSDInfo :=
  {| ID := ID o; OSDCluster := OSDCluster o; UUID := UUID o; DevicePartUUID := DevicePartUUID o; DeviceClass :=
     DeviceClass o; BlockPath := BlockPath o; MetadataPath := MetadataPath o; WalPath := WalPath o; SkipLVRelease :=
     SkipLVRelease o; Location := Location o; LVBackedPV := LVBackedPV o; CVMode := CVMode o; Store := Store o;
     TopologyAffinity := TopologyAffinity o; Encrypted := Encrypted o; ExportService := ExportService o; NodeName :=
     NodeName o; PVCName := PVCName o; DeviceType := v; info_CephxStatus := info_CephxStatus o |}.

Definition set_info_CephxStatus (v : CephxStatus) (o : OSDInfo) : OSDInfo :=
  {| ID := ID o; OSDCluster := OSDCluster o; UUID := UUID o; DevicePartUUID := DevicePartUUID o; DeviceClass :=
     DeviceClass o; BlockPath := BlockPath o; MetadataPath := MetadataPath o; WalPath := WalPath o; SkipLVRelease :=
     SkipLVRelease o; Location := Location o; LVBackedPV := LVBackedPV o; CVMode := CVMode o; Store := Store o;
     TopologyAffinity := TopologyAffinity o; Encrypted := Encrypted o; ExportService := ExportService o; NodeName :=
     NodeName o; PVCName := PVCName o; DeviceType := DeviceType o; info_CephxStatus := v |}.

(** The three numbers are [json.Number]s, which keep their text. *)
Record OSDDumpEntry := { OSD : string; Up : string; In : string }.

(** Of the dump, the OSDs. *)
Record OSDDump := { OSDs : list OSDDumpEntry }.

Record Pod := { pod_name : string; Phase : string; pod_node : string }.

(** Of a job, its name, the node it is pinned to, and its status. *)
Record Job := {
  job_name : string;
  job_node : string;
  Active : Z;
  Succeeded : Z;
  job_conditions : list (string * string);   (* type and status *)
}.

Record OSDDeviceClass := { class_osd : Z; class_name : string }.

(** A config map: its name, labels and data. *)
Record LabelledMap := { map_name : string; map_labels : gmap string string; map_data : gmap string string }.

(** What a prepare job reports. *)
Record OrchestrationStatus := {
  status_OSDs : list OSDInfo;
  status_Status : string;
  PvcBackedOSD : bool;
  status_Message : string;
}.

(** A persistent volume claim: its name and labels. *)
Record Claim := { claim_name : string; claim_labels : gmap string string }.

(** What the orchestration of OSDs can wait for: the watched channel is closed, an event of some
    type with its object if that is a config map, one of the two tickers, the end of the context. *)
Inductive choice :=
| ChannelClosed
| Watched (event_type : string) (object : option LabelledMap)
| UpdateTick
| MinuteTick
| ContextDone (err : gerror).

(** ** The calls *)

Inductive event :=
| Ceph (args : list string) (r : result string)
| ListDeployments (ns selector : string) (r : result (list Deployment))
| GetDeployment (ns name : string) (r : result Deployment)
| UpdateDeployment (ns : string) (d : Deployment) (r : result Deployment)
| CreateDeployment (ns : string) (d : Deployment) (r : result Deployment)
| DeleteDeployment (ns name : string) (r : result unit)
| ListPods (ns selector : string) (r : result (list Pod))
| GetJob (ns name : string) (r : result Job)
| CreateJob (ns : string) (j : Job) (r : result Job)
| DeleteJob (ns name : string) (r : result unit)
| GetNode (name : string) (r : result Topology.Node)
| ListNodes (selector : string) (r : result (list Topology.Node))
| Now (r : result Z)
(* the deployment of an OSD is constructed, on a claim or on a host *)
| Build (claim host : string) (osd : OSDInfo) (r : result Deployment)
| ListConfigMaps (ns selector : string) (r : result (list LabelledMap))
| GetConfigMap (ns name : string) (r : result LabelledMap)
| CreateConfigMap (ns : string) (m : LabelledMap) (r : result unit)
| UpdateConfigMap (ns : string) (m : LabelledMap) (r : result unit)
| DeleteConfigMap (ns name : string) (r : result unit)
| Watch (ns selector : string) (r : result unit)
| Select (r : result choice)
(* a command on the node, and the first bytes of a device *)
| Exec (cmd : list string) (r : result string)
| ReadDevice (path : string) (r : result string)
| GetClaim (ns name : string) (r : result Claim)
| ListClaims (ns selector : string) (r : result (list Claim))
| UpdateClaim (ns : string) (c : Claim) (r : result unit)
| DeleteClaim (ns name : string) (r : result unit)
| ListJobs (ns selector : string) (r : result (list Job))
(* a prepare job reports its status for a node or a claim *)
| SetStatus (nodeOrPVC : string) (s : OrchestrationStatus) (r : result unit)
(* the file system of a host *)
| Stat (path : string) (r : result unit)
| ReadFile (path : string) (r : result string)
| Glob (pattern : string) (r : result (list string))
| ReadDir (path : string) (r : result (list (string * bool)))
| RemoveAll (path : string) (r : result unit).

(** Their answers, the decoders of Ceph's JSON output, the clock, and the package that computes
    the patch between two deployments. *)
Class OsdEnv (W : Type) := {
  osd_cmd :: CephCmd W;
  json_dump : string -> option OSDDump;
  json_metadata : string -> option (list OSDMetadata);
  json_safe_to_destroy : string -> option (list Z);
  json_ok_to_stop : string -> option (list Z);
  json_device_classes : string -> option (list OSDDeviceClass);
  json_cephx : string -> option CephxStatus;
  env_list_deployments : string -> string -> M W (list Deployment);
  env_get_deployment : string -> string -> M W Deployment;
  env_update_deployment : string -> Deployment -> M W Deployment;
  env_create_deployment : string -> Deployment -> M W Deployment;
  env_delete_deployment : string -> string -> M W unit;
  env_list_pods : string -> string -> M W (list Pod);
  env_get_job : string -> string -> M W Job;
  env_create_job : string -> Job -> M W Job;
  env_delete_job : string -> string -> M W unit;
  env_get_node : string -> M W Topology.Node;
  env_list_nodes : string -> M W (list Topology.Node);
  env_now : M W Z;
  env_sleep : Z -> M W unit;
  (** whether the timeout fired before the period did *)
  env_timed_out : M W bool;
  (** [patch.DefaultPatchMaker.Calculate], whether its result is empty *)
  patch_is_empty : Deployment -> Deployment -> result bool;
  (** [patch.DefaultAnnotator.SetLastAppliedAnnotation] *)
  set_last_applied : Deployment -> result Deployment;
}.

Abbreviation MW W := (M (world W event)).

Section Calls.
Context {W : Type} `{OsdEnv W}.

#[global] Instance world_cmd : CephCmd (world W event) := {
  run_ceph args := record (Ceph args) (run_ceph args);
  unmarshal_versions := unmarshal_versions (W := W);
  unmarshal_tree := unmarshal_tree (W := W);
  unmarshal_osds := unmarshal_osds (W := W);
  unmarshal_status := unmarshal_status (W := W);
  ctx_err := silent ctx_err;
  wait_delay d := silent (wait_delay d);
  load_cluster_info := silent load_cluster_info;
  write_connection_config i := silent (write_connection_config i);
}.

Definition list_deployments (ns selector : string) : MW W (list Deployment) :=
  record (ListDeployments ns selector) (env_list_deployments ns selector).

Definition get_deployment (ns name : string) : MW W Deployment :=
  record (GetDeployment ns name) (env_get_deployment ns name).

Definition update_deployment (ns : string) (d : Deployment) : MW W Deployment :=
  record (UpdateDeployment ns d) (env_update_deployment ns d).

Definition create_deployment (ns : string) (d : Deployment) : MW W Deployment :=
  record (CreateDeployment ns d) (env_create_deployment ns d).

Definition delete_deployment (ns name : string) : MW W unit :=
  record (DeleteDeployment ns name) (env_delete_deployment ns name).

Definition list_pods (ns selector : string) : MW W (list Pod) :=
  record (ListPods ns selector) (env_list_pods ns selector).

Definition get_job (ns name : string) : MW W Job := record (GetJob ns name) (env_get_job ns name).

Definition create_job (ns : string) (j : Job) : MW W Job := record (CreateJob ns j) (env_create_job ns j).

Definition delete_job (ns name : string) : MW W unit := record (DeleteJob ns name) (env_delete_job ns name).

Definition get_node (name : string) : MW W Topology.Node := record (GetNode name) (env_get_node name).

Definition list_nodes (selector : string) : MW W (list Topology.Node) :=
  record (ListNodes selector) (env_list_nodes selector).

Definition now : MW W Z := record Now env_now.

Definition sleep (d : Z) : MW W unit := silent (env_sleep d).

Definition timed_out : MW W bool := silent env_timed_out.

(** ** Commands to Ceph *)

Definition StatusByID (dump : OSDDump) (id : Z) : result (Z * Z) :=
  let number (s : string) : result Z :=
    match Atoi s with Some z => Ok z | None => Err (Errorf "strconv.ParseInt: parsing %q" [s]) end in
  (fix go (l : list OSDDumpEntry) : result (Z * Z) :=
     match l with
     | [] => Err (Errorf "not found osd.%d in OSDDump" [Itoa id])
     | d :: l' =>
         i ← number (OSD d);
         if id =? i then
           inn ← number (In d);
           up ← number (Up d);
           Ok (up, inn)
         else go l'
     end) (OSDs dump).

Definition Exists (dump : OSDDump) (id : Z) : bool :=
  existsb (fun d => match Atoi (OSD d) with None => false | Some i => i =? id end) (OSDs dump).

Definition GetOSDDump : MW W OSDDump :=
  buf ← wrapM (run_ceph ["osd"; "dump"]) "failed to get osd dump" [];
  unmarshal (json_dump buf) "failed to unmarshal osd dump response".

Definition OsdSafeToDestroy (osdID : Z) : MW W bool :=
  buf ← wrapM (run_ceph ["osd"; "safe-to-destroy"; Itoa osdID]) "failed to get safe-to-destroy status" [];
  output ← unmarshal (json_safe_to_destroy buf) "failed to unmarshal safe-to-destroy response. %s";
  mret (match output with id :: _ => id =? osdID | [] => false end).

Definition GetDestroyedIDs (tree : OsdTree) : list Z :=
  node_id <$> List.filter (fun node => String.eqb (node_status node) "destroyed") (default [] (Nodes tree)).

Definition OSDOut (osdID : Z) : MW W unit :=
  _ ← wrapM (run_ceph ["osd"; "out"; Itoa osdID]) "failed to mark osd.%d out" [Itoa osdID]; mret ().

Definition OSDIn (osdID : Z) : MW W unit :=
  _ ← wrapM (run_ceph ["osd"; "in"; Itoa osdID]) "failed to mark osd.%d in" [Itoa osdID]; mret ().

Definition OSDDown (osdID : Z) : MW W unit :=
  _ ← wrapM (run_ceph ["osd"; "down"; Itoa osdID]) "failed to mark osd.%d down" [Itoa osdID]; mret ().

Definition OSDDestroy (osdID : Z) : MW W unit :=
  _ ← wrapM (run_ceph ["osd"; "destroy"; "osd." +:+ Itoa osdID; confirmFlag]) "failed to destroy osd.%d" [Itoa osdID];
  mret ().

Definition GetOSDMetadata : MW W (list OSDMetadata) :=
  buf ← wrapM (run_ceph ["osd"; "metadata"]) "failed to get osd metadata" [];
  unmarshal (json_metadata buf) "failed to unmarshal osd metadata response".

Definition OSDDeviceClasses (osdIds : list string) : MW W (list OSDDeviceClass) :=
  buf ← wrapM (run_ceph (["osd"; "crush"; "get-device-class"] ++ osdIds)) "failed to get device-class info" [];
  unmarshal (json_device_classes buf) "failed to unmarshal 'osd crush get-device-class' response".

(** The list it returns beside an error is not used by its caller. *)
Definition OSDOkToStop (osdID maxReturned : Z) : MW W (list Z) :=
  buf ← wrapM (run_ceph ["osd"; "ok-to-stop"; Itoa osdID; "--max=" +:+ Itoa maxReturned])
          "OSD %d is not ok to stop" [Itoa osdID];
  unmarshal (json_ok_to_stop buf) "failed to unmarshal 'osd ok-to-stop %d' response".

Definition SetDeviceClass (osdID : Z) (deviceClass : string) : MW W unit :=
  let osd := "osd." +:+ Itoa osdID in
  _ ← wrapM (run_ceph ["osd"; "crush"; "rm-device-class"; osd]) "failed to remove device class. " [];
  _ ← wrapM (run_ceph ["osd"; "crush"; "set-device-class"; deviceClass; osd]) "failed to set the device class. " [];
  mret ().

Definition SetPrimaryAffinity (osdID : Z) (affinity : string) : MW W unit :=
  let osd := "osd." +:+ Itoa osdID in
  _ ← wrapM (run_ceph ["osd"; "primary-affinity"; osd; affinity]) "failed to set osd.%d with primary-affinity %q"
        [Itoa osdID; affinity];
  mret ().

(** [exec.ExitStatus] of a failure only changes the text of the error. *)
Definition AuthRotate (version : CephVersion) (json_keys : string -> option (list string)) (name keyType : string) :
    MW W string :=
  let keyType := if negb (Aes256kKeysSupported version) && IsLegacyKeyType keyType then "" else keyType in
  let args := ["auth"; "rotate"; name] ++ (if String.eqb keyType "" then [] else ["--key-type"; keyType]) in
  buf ← wrapM (run_ceph args) "failed auth rotate %s" [name];
  data ← unmarshal (json_keys buf) "failed to unmarshal auth rotate %s response";
  match data with
  | [] => fail (Errorf "auth rotate %s returned no results" [name])
  | key :: _ => mret key
  end.

(** ** Deployments, jobs and pods ([k8sutil]) *)

(** The 45 checks of [deleteResourceAndWait] that the object is gone. *)
Fixpoint wait_deleted {A} (n : nat) (name : string) (getAction : MW W A) : MW W unit :=
  match n with
  | O => fail (Errorf "gave up waiting for %s pods to be terminated" [name])
  | S n =>
      r ← try_ getAction;
      match r with
      | Err e => if IsNotFound e then mret () else fail (Errorf "failed to get %s. %+v" [name])
      | Ok _ => _ ← sleep (2 * Second); wait_deleted n name getAction
      end
  end.

Definition deleteResourceAndWait {A} (name : string) (deleteAction : MW W unit) (getAction : MW W A) : MW W unit :=
  r ← try_ deleteAction;
  match r with
  | Err e => if IsNotFound e then mret () else fail (Errorf "failed to delete %s. %+v" [name])
  | Ok _ => wait_deleted 45 name getAction
  end.

Definition DeleteDeployment_ (ns name : string) : MW W unit :=
  deleteResourceAndWait name (delete_deployment ns name) (get_deployment ns name).

(** The error is formatted into a new one, so it is never a not-found error. *)
Definition GetDeployments (ns labelSelector : string) : MW W (list Deployment) :=
  r ← try_ (list_deployments ns labelSelector);
  match r with
  | Err e => fail (Errorf "failed to list deployments with labelSelector %s: %v" [labelSelector])
  | Ok l => mret l
  end.

Definition podStatusWithLabel (ns label : string) : MW W (Z * Z) :=
  pods ← list_pods ns label;
  let running := List.filter (fun pod => String.eqb (Phase pod) "Running") pods in
  mret (Z.of_nat (length running), Z.of_nat (length pods) - Z.of_nat (length running)).

Definition PodsRunningWithLabel (ns label : string) : MW W Z :=
  '(running, _) ← podStatusWithLabel ns label; mret running.

(** The 30 checks of [DeleteBatchJob], which gives up silently. *)
Fixpoint wait_job_deleted (n : nat) (ns name : string) : MW W unit :=
  match n with
  | O => mret ()
  | S n =>
      r ← try_ (get_job ns name);
      match r with
      | Err e => if IsNotFound e then mret () else _ ← sleep (3 * Second); wait_job_deleted n ns name
      | Ok _ => _ ← sleep (3 * Second); wait_job_deleted n ns name
      end
  end.

Definition DeleteBatchJob (ns name : string) (wait : bool) : MW W unit :=
  r ← try_ (delete_job ns name);
  match r with
  | Err e => if IsNotFound e then mret ()
             else fail (Errorf "failed to remove previous provisioning job for node %s. %+v" [name])
  | Ok _ => if wait then wait_job_deleted 30 ns name else mret ()
  end.

Definition RunReplaceableJob (ns : string) (job : Job) (deleteIfFound : bool) : MW W unit :=
  r ← try_ (get_job ns (job_name job));
  match r with
  | Err e => _ ← create_job ns job; mret ()
  | Ok existingJob =>
      if (0 <? Active existingJob) && negb deleteIfFound then mret ()
      else
        d ← try_ (DeleteBatchJob ns (job_name existingJob) true);
        match d with
        | Err e => fail (Errorf "failed to remove job %s. %+v" [job_name job])
        | Ok _ => _ ← create_job ns job; mret ()
        end
  end.

Definition with_labels (d : Deployment) (labels : gmap string string) : Deployment :=
  {| dep_namespace := dep_namespace d; dep_name := dep_name d; dep_labels := labels;
     dep_annotations := dep_annotations d; CreationTimestamp := CreationTimestamp d; Replicas := Replicas d;
     ProgressDeadlineSeconds := ProgressDeadlineSeconds d; Template := Template d;
     ObservedGeneration := ObservedGeneration d; UpdatedReplicas := UpdatedReplicas d;
     ReadyReplicas := ReadyReplicas d; dep_conditions := dep_conditions d |}.

Definition with_annotations (d : Deployment) (annotations : gmap string string) : Deployment :=
  {| dep_namespace := dep_namespace d; dep_name := dep_name d; dep_labels := dep_labels d;
     dep_annotations := annotations; CreationTimestamp := CreationTimestamp d; Replicas := Replicas d;
     ProgressDeadlineSeconds := ProgressDeadlineSeconds d; Template := Template d;
     ObservedGeneration := ObservedGeneration d; UpdatedReplicas := UpdatedReplicas d;
     ReadyReplicas := ReadyReplicas d; dep_conditions := dep_conditions d |}.

Definition with_replicas (d : Deployment) (replicas : option Z) : Deployment :=
  {| dep_namespace := dep_namespace d; dep_name := dep_name d; dep_labels := dep_labels d;
     dep_annotations := dep_annotations d; CreationTimestamp := CreationTimestamp d; Replicas := replicas;
     ProgressDeadlineSeconds := ProgressDeadlineSeconds d; Template := Template d;
     ObservedGeneration := ObservedGeneration d; UpdatedReplicas := UpdatedReplicas d;
     ReadyReplicas := ReadyReplicas d; dep_conditions := dep_conditions d |}.

Definition AddLabelToDeployment (key value : string) (d : Deployment) : Deployment :=
  with_labels d (<[key := value]> (dep_labels d)).

Definition AddAnnotationToDeployment (key value : string) (d : Deployment) : Deployment :=
  with_annotations d (<[key := value]> (dep_annotations d)).

Definition CreateDeployment_ (dep : Deployment) : MW W Deployment :=
  dep ← wrapM (lift (set_last_applied dep)) "failed to set hash annotation on deployment %q" [dep_name dep];
  create_deployment (dep_namespace dep) dep.

Definition CreateOrUpdateDeployment (dep : Deployment) : MW W Deployment :=
  r ← try_ (CreateDeployment_ dep);
  match r with
  | Ok newDep => mret newDep
  | Err err =>
      (* the annotation was added to [dep], which is passed by reference *)
      let dep := match set_last_applied dep with Ok dep => dep | Err _ => dep end in
      wrapM (if IsAlreadyExists err then update_deployment (dep_namespace dep) dep else fail err)
        "failed to create or update deployment %q: %+v" [dep_name dep]
  end.

Definition maxInt32Ptr (a b : option Z) : option Z :=
  match a, b with
  | None, None => None
  | None, Some b => Some b
  | Some a, None => Some a
  | Some a, Some b => if a <? b then Some b else Some a
  end.

Definition deploymentIsDoneUpdating (d : Deployment) (oldObservedGeneration : Z) : bool :=
  negb (ObservedGeneration d =? oldObservedGeneration) && (0 <? UpdatedReplicas d) && (0 <? ReadyReplicas d).

Definition progressDeadlineExceeded (d : Deployment) : bool :=
  existsb (fun c => String.eqb c.1 "Progressing" && String.eqb c.2 "ProgressDeadlineExceeded") (dep_conditions d).

(** The old deployment, and the new one when it was updated. *)
Definition updateDeployment (deployment : Deployment) : MW W (Deployment * option Deployment) :=
  let ns := dep_namespace deployment in
  let name := dep_name deployment in
  oldDeployment ← wrapM (get_deployment ns name) "failed to get existing deployment %q" [name];
  let patchChanged := match patch_is_empty oldDeployment deployment with Err _ => true | Ok empty => negb empty end in
  if patchChanged then
    deployment ← wrapM (lift (set_last_applied deployment)) "failed to set hash annotation on deployment %q" [name];
    newDeployment ← wrapM (update_deployment ns deployment) "failed to update deployment %q" [name];
    mret (oldDeployment, Some newDeployment)
  else mret (oldDeployment, None).

Record Failure := { ResourceName : string; Failure_error : gerror }.

(** The updated deployments with the generation before, the failures, and the longest deadline. *)
Record Updates := {
  updated : gmap string Z;
  failures : list Failure;
  maxDeadline : option Z;
}.

Definition update_one (u : Updates) (dep : Deployment) : MW W Updates :=
  r ← try_ (updateDeployment dep);
  match r with
  | Err err =>
      mret {| updated := updated u;
              failures := failures u ++ [{| ResourceName := dep_name dep;
                                            Failure_error := Wrapf err "failed to update deployment %q" [dep_name dep] |}];
              maxDeadline := maxDeadline u |}
  | Ok (_, None) => mret u
  | Ok (oldDep, Some newDep) =>
      mret {| updated := <[dep_name newDep := ObservedGeneration oldDep]> (updated u);
              failures := failures u;
              maxDeadline := maxInt32Ptr (maxInt32Ptr (maxDeadline u) (ProgressDeadlineSeconds oldDep))
                               (ProgressDeadlineSeconds newDep) |}
  end.

Fixpoint update_all (u : Updates) (l : list Deployment) : MW W Updates :=
  match l with
  | [] => mret u
  | dep :: l' => u ← update_one u dep; update_all u l'
  end.

Definition UpdateMultipleDeployments (deployments : list Deployment) : MW W Updates :=
  update_all {| updated := ∅; failures := []; maxDeadline := None |} deployments.

(** [util.RetryWithTimeout] on a function with a state, which reports whether it is done and an
    error.  A round waits for [period], and once [timeout] is over the next wait ends at once with
    the timeout; so the timeout fires after [timeout / period + 1] rounds at the latest. *)
Fixpoint retry_rounds {S} (fuel : nat) (f : S -> MW W (S * bool * option gerror)) (s : S) : MW W (S * option gerror) :=
  let last s :=
    '(s, done, err) ← f s;
    mret (s, if (done : bool) then err
             else Some (match err with
                        | Some e => Wrapf e "timed out waiting for %s" []
                        | None => Errorf "timed out waiting for %s" []
                        end)) in
  match fuel with
  | O => last s
  | S fuel =>
      '(s, done, err) ← f s;
      if (done : bool) then mret (s, err)
      else
        t ← timed_out;
        if (t : bool) then last s else retry_rounds fuel f s
  end.

Definition RetryWithTimeout {S} (f : S -> MW W (S * bool * option gerror)) (period timeout : Z) (s : S) :
    MW W (S * option gerror) :=
  retry_rounds (Z.to_nat (timeout / period) + 1) f s.

(** The deployments that are still waited for, and the failures so far. *)
Definition Waiting : Type := gmap string Z * list Failure.

Definition wait_one (w : Waiting) (dep : Deployment) : Waiting :=
  let '(waitingOn, failures) := w in
  match waitingOn !! dep_name dep with
  | None => w
  | Some oldGeneration =>
      if progressDeadlineExceeded dep then
        (delete (dep_name dep) waitingOn,
         failures ++ [{| ResourceName := dep_name dep;
                         Failure_error := Errorf "progress deadline exceeded on deployment %q" [dep_name dep] |}])
      else if deploymentIsDoneUpdating dep oldGeneration then (delete (dep_name dep) waitingOn, failures)
      else w
  end.

Definition wait_func (listFunc : MW W (list Deployment)) (w : Waiting) : MW W (Waiting * bool * option gerror) :=
  r ← try_ listFunc;
  match r with
  | Err err =>
      if IsCanceled err then mret (w, true, Some (Wrapf err "failed to list deployments due to context cancellation" []))
      else mret (w, false, Some (Wrapf err "failed to list deployments" []))
  | Ok deployments =>
      let w := foldl wait_one w deployments in
      mret (w, bool_decide (w.1 = ∅), None)
  end.

Definition waitForDeploymentPeriod : Z := 2 * Second.

Definition waitForDeploymentTimeout : Z := 60 * Second.

Definition WaitForDeploymentsToUpdate (deploymentsUpdated : gmap string Z) (progressDeadlineSeconds : option Z)
    (listFunc : MW W (list Deployment)) : MW W (list Failure) :=
  if bool_decide (deploymentsUpdated = ∅) then mret []
  else
    let timeout := match progressDeadlineSeconds with
                   | None => waitForDeploymentTimeout
                   | Some s => 2 * s * Second
                   end in
    '((waitingOn, failures), _) ← RetryWithTimeout (wait_func listFunc) waitForDeploymentPeriod timeout
                                     (deploymentsUpdated, []);
    mret (failures ++
          ((fun n => {| ResourceName := n; Failure_error := Errorf "timed out waiting on deployment %q" [n] |})
             <$> (map_to_list waitingOn).*1)).

Definition UpdateMultipleDeploymentsAndWait (deployments : list Deployment) (listFunc : MW W (list Deployment)) :
    MW W (list Failure) :=
  u ← UpdateMultipleDeployments deployments;
  waitFailures ← WaitForDeploymentsToUpdate (updated u) (maxDeadline u) listFunc;
  mret (failures u ++ waitFailures).

End Calls.

(** ** Reading an OSD back from its deployment ([osd.go]) *)

(** What the OSD components read of the cluster: its namespace, the environment variable
    [ROOK_CUSTOM_HOSTNAME_LABEL], and the storage configuration of the spec, if it has one. *)
Record OsdCluster := {
  namespace : string;
  customHostnameLabel : string;
  StorageConfig : option (gmap string string);
}.

Definition GetCrushRootFromSpec (c : OsdCluster) : string :=
  match StorageConfig c with
  | None => DefaultCRUSHRoot
  | Some config => default DefaultCRUSHRoot (config !! CrushRootConfigKey)
  end.

Definition formatProperty (name value : string) : string := name +:+ "=" +:+ value.

Definition UpdateCrushMapValue (pairs : list string) (key value : string) : list string :=
  let property := formatProperty key value in
  let hit pair := String.eqb key (default "" (head (split_byte "=" pair))) in
  let pairs' := (fun pair => if hit pair then property else pair) <$> pairs in
  if existsb hit pairs then pairs' else pairs' ++ [property].

(** [keys] are the levels of the topology in ascending order. *)
Definition updateLocationWithNodeLabels (hostnameLabel : string) (location : list string)
    (nodeLabels : gmap string string) : list string * string :=
  let '(topology, topologyAffinity) := Topology.ExtractOSDTopologyFromLabels hostnameLabel nodeLabels in
  let keys := sort_strings (map_to_list topology).*1 in
  (foldl (fun location topologyType =>
            if String.eqb topologyType "host" then location
            else UpdateCrushMapValue location topologyType (default "" (topology !! topologyType)))
     location keys,
   topologyAffinity).

Definition findOSDContainer (containers : list Container) : result Container :=
  match List.find (fun c => String.eqb (container_name c) "osd") containers with
  | Some c => Ok c
  | None => Err (Errorf "OSD container not found in deployment" [])
  end.

Definition getOSDLocationFromArgs (args : list string) : option string :=
  head (omap (strip_prefix "--crush-location=") args).

Definition osdIsOnPVC (d : Deployment) : bool := bool_decide (is_Some (dep_labels d !! OSDOverPVCLabelKey)).

(** The loop over the environment of the container: the information so far, and whether the OSD
    is on a PVC. *)
Definition read_env (st : OSDInfo * bool) (e : EnvVar) : result (OSDInfo * bool) :=
  let '(osd, isPVC) := st in
  let named n := String.eqb (env_name e) n in
  let v := env_value e in
  let osd := if named "ROOK_NODE_NAME" then set_NodeName v osd else osd in
  let osd := if named "ROOK_OSD_UUID" then set_UUID v osd else osd in
  let isPVC := if named "ROOK_PVC_BACKED_OSD" then true else isPVC in
  let osd := if named "ROOK_BLOCK_PATH" || named "ROOK_LV_PATH" then set_BlockPath v osd else osd in
  let osd := if named "ROOK_CV_MODE" then set_CVMode v osd else osd in
  let osd := if named "ROOK_TOPOLOGY_AFFINITY" then set_TopologyAffinity v osd else osd in
  osd ← (if named "ROOK_LV_BACKED_PV"
         then match ParseBool v with
              | None => Err (Errorf "failed to parse ROOK_LV_BACKED_PV" [])
              | Some b => Ok (set_LVBackedPV b osd)
              end
         else Ok osd);
  let osd := if named "ROOK_METADATA_DEVICE" then set_MetadataPath v osd else osd in
  let osd := if named "ROOK_WAL_DEVICE" then set_WalPath v osd else osd in
  let osd := if named "ROOK_OSD_DEVICE_CLASS" then set_DeviceClass v osd else osd in
  Ok (osd, isPVC).

Fixpoint read_envs (st : OSDInfo * bool) (l : list EnvVar) : result (OSDInfo * bool) :=
  match l with
  | [] => Ok st
  | e :: l' => st ← read_env st e; read_envs st l'
  end.

(** The lines of a [bufio.Scanner]: a carriage return at the end of a line is dropped, and a line of
    65536 bytes or more stops the scan with an error. *)
Definition drop_cr (line : string) : string :=
  match String.rev line with
  | String c r => if Ascii.eqb c (Ascii.ascii_of_nat 13) then String.rev r else line
  | "" => line
  end.

Definition find_device (script : string) : result (option string) :=
  (fix go (l : list string) : result (option string) :=
     match l with
     | [] => Ok None
     | line :: l' =>
         if 65536 <=? len line then Err (Errorf "failed to scan through activate init script: token too long" [])
         else match strip_prefix "DEVICE=" (TrimSpace (drop_cr line)) with
              | Some device => Ok (Some device)
              | None => go l'
              end
     end) (split_byte (Ascii.ascii_of_nat 10) script).

Definition getBlockPathFromActivateInitContainer (d : Deployment) : result string :=
  (fix go (l : list Container) : result string :=
     match l with
     | [] => Err (Errorf "failed to find activate init container" [])
     | c :: l' =>
         if negb (String.eqb (container_name c) activatePVCOSDInitContainer) then go l'
         else match Command c with
              | [_; _; script] =>
                  device ← find_device script;
                  match device with Some device => Ok device | None => go l' end
              | command => Err (Errorf "activate init container has fewer command arguments (%d) than expected (3)"
                                  [Itoa (Z.of_nat (length command))])
              end
     end) (InitContainers (Template d)).

Definition getNodeOrPVCName (hostnameLabel : string) (d : Deployment) : result string :=
  match dep_labels d !! OSDOverPVCLabelKey with
  | Some v => Ok v
  | None =>
      let selector := NodeSelector (Template d) in
      match selector !! Topology.LabelHostname hostnameLabel with
      | Some v => Ok v
      | None =>
          match map_to_list selector with
          | [(_, v)] => Ok v
          | _ => Err (Errorf "failed to find node/PVC name for OSD deployment %q: %+v" [dep_name d])
          end
      end
  end.

Section Reading.
Context {W : Type} `{OsdEnv W} (c : OsdCluster).

(** [k8sutil.GetNodeHostNameLabel] and [k8sutil.GetNodeHostName] *)
Definition GetNodeHostNameLabel (node : Topology.Node) : result string :=
  match Topology.node_labels node !! Topology.LabelHostname (customHostnameLabel c) with
  | Some hostname => Ok hostname
  | None => Err (Errorf "hostname not found on the node" [])
  end.

Definition GetNodeHostName (nodeName : string) : MW W string :=
  node ← get_node nodeName; lift (GetNodeHostNameLabel node).

Definition getNode (nodeName : string) : MW W Topology.Node :=
  r ← try_ (get_node nodeName);
  match r with
  | Ok node => mret node
  | Err err =>
      if IsNotFound err then
        nodes ← wrapM (list_nodes (Topology.LabelHostname (customHostnameLabel c) +:+ "=" +:+ nodeName))
                  "could not find node %q by hostname label" [nodeName];
        match nodes with
        | [node] => mret node
        | _ => fail (Errorf "could not find node %q by hostname label" [nodeName])
        end
      else fail (Wrapf err "could not find node %q by name" [nodeName])
  end.

(** The location and the topology affinity. *)
Definition GetLocationWithNode (nodeName crushRoot crushHostname : string) : MW W (string * string) :=
  node ← wrapM (getNode nodeName) "could not get the node for topology labels" [];
  crushHostname ← (if String.eqb crushHostname ""
                   then wrapM (lift (GetNodeHostNameLabel node)) "failed to get the host name label for node %q"
                          [Topology.node_name node]
                   else mret crushHostname);
  let hostName := Topology.NormalizeCrushName crushHostname in
  let '(locArgs, topologyAffinity) :=
    updateLocationWithNodeLabels (customHostnameLabel c) ["root=" +:+ crushRoot; "host=" +:+ hostName]
      (Topology.node_labels node) in
  mret (Join locArgs " ", topologyAffinity).

Definition osd_pod_selector (d : Deployment) : string := OsdIdLabelKey +:+ "=" +:+ Disruption.read (dep_labels d) OsdIdLabelKey.

Definition getLocationFromPod (d : Deployment) (crushRoot : string) : MW W (string * string) :=
  pods ← list_pods (dep_namespace d) (osd_pod_selector d);
  match pods with
  | [] => mret ("", "")
  | pod :: _ =>
      let nodeName := pod_node pod in
      hostName ← GetNodeHostName nodeName;
      let hostName := if bool_decide (dep_labels d !! portableKey = Some "true")
                      then default hostName (dep_labels d !! OSDOverPVCLabelKey)
                      else hostName in
      GetLocationWithNode nodeName crushRoot hostName
  end.

Definition getTopologyFromNode (d : Deployment) (osd : OSDInfo) : MW W string :=
  if negb (bool_decide (dep_labels d !! portableKey = Some "true")) then mret ""
  else
    pods ← wrapM (list_pods (dep_namespace d) (osd_pod_selector d)) "failed to get osd pod" [];
    match pods with
    | [] => fail (Errorf "an osd pod does not exist" [])
    | pod :: _ =>
        let nodeName := pod_node pod in
        if String.eqb nodeName ""
        then fail (Errorf "osd %d is not assigned to a node, cannot detect topology affinity" [Itoa (ID osd)])
        else
          node ← wrapM (getNode nodeName) "failed to get the node for topology affinity" [];
          mret (Topology.ExtractOSDTopologyFromLabels (customHostnameLabel c) (Topology.node_labels node)).2
    end.

Definition getOSDInfo (d : Deployment) : MW W OSDInfo :=
  container ← wrapM (lift (findOSDContainer (Containers (Template d)))) "failed to find OSD container in deployment %q"
                [dep_name d];
  osdID ← lift (Disruption.GetOSDID d);
  '(osd, isPVC) ← lift (read_envs (set_ID osdID empty_info, false) (Env container));
  osd ← (if negb isPVC && String.eqb (BlockPath osd) ""
         then path ← wrapM (lift (getBlockPathFromActivateInitContainer d))
                "failed to extract legacy OSD block path from deployment %q" [dep_name d];
              mret (set_BlockPath path osd)
         else mret osd);
  let osd := if String.eqb (CVMode osd) "" then set_CVMode "lvm" osd else osd in
  osd ← (if (isPVC : bool) && String.eqb (TopologyAffinity osd) ""
         then r ← try_ (getTopologyFromNode d osd);
              mret (set_TopologyAffinity (match r with Ok a => a | Err _ => "" end) osd)
         else mret osd);
  osd ← (match getOSDLocationFromArgs (Args container) with
         | Some location => mret (set_Location location osd)
         | None =>
             let osd := set_Location "" osd in
             r ← try_ (getLocationFromPod d (GetCrushRootFromSpec c));
             mret (match r with Ok (location, _) => set_Location location osd | Err _ => osd end)
         end);
  if String.eqb (UUID osd) "" || String.eqb (BlockPath osd) ""
  then fail (Errorf "failed to get required osdInfo. %+v" [])
  else
    let osd := set_Store (Disruption.read (dep_labels d) osdStore) osd in
    let osd := set_DeviceType (Disruption.read (dep_labels d) deviceType) osd in
    let osd := set_Encrypted (String.eqb (Disruption.read (dep_labels d) encrypted) "true" ||
                              Contains (BlockPath osd) "-dmcrypt") osd in
    let osd := if (isPVC : bool) then set_PVCName (Disruption.read (dep_labels d) OSDOverPVCLabelKey) osd else osd in
    match tpl_annotations (Template d) !! cephxStatusAnnotationKey with
    | None => mret (set_info_CephxStatus empty_status osd)
    | Some cephxRaw =>
        match json_cephx cephxRaw with
        | None => fail (Errorf "failed to unmarshal cephx status %q for deployment %q" [cephxRaw; dep_name d])
        | Some cephxStatus => mret (set_info_CephxStatus cephxStatus osd)
        end
    end.

Definition getOSDDeployments : MW W (list Deployment) :=
  wrapM (list_deployments (namespace c) (AppAttr +:+ "=" +:+ AppName))
    "failed to query existing OSD deployments to check if they need to be updated" [].

Definition deploymentName (osdID : Z) : string := "rook-ceph-osd-" +:+ Itoa osdID.

Definition deleteOSDDeployment (osdID : Z) : MW W unit :=
  r ← try_ (DeleteDeployment_ (namespace c) (deploymentName osdID));
  match r with
  | Err err => if IsNotFound err then mret ()
               else fail (Wrapf err "failed to delete OSD deployment %q." [deploymentName osdID])
  | Ok _ => mret ()
  end.

End Reading.

(** Run a handler symbolically, with a case for each answer. *)
Ltac run :=
  repeat (first
    [ apply logs_bind | apply logs_wrapM | apply logs_try | apply logs_lift
    | apply logs_ret | apply logs_fail | apply logs_silent; intros [?|?] | apply logs_record; intros [?|?]
    | progress unfold unmarshal
    | case_match ]; cbn [wrap_err]).

End OsdBase.
