(* ===== verification/OsdSpec.v ===== *)
(** * OsdSpec: the storage configuration, and the deployment of an OSD

    Models the resolution of the storage spec for a node ([pkg/apis/ceph.rook.io/v1/storage.go],
    [pkg/operator/ceph/cluster/osd/config/config.go]) and the part of
    [pkg/operator/ceph/cluster/osd/osd.go] that turns a node or a PVC and an [OSDInfo] into a
    deployment.  The pod template itself ([spec.go]) is an operation of the class [SpecEnv]. *)

From stdpp Require Import base gmap strings list fin_maps.
From Stdlib Require Import ZArith Ascii.
From S2P Require Import Prelude CephVersion GoTime Topology Kube Disruption Upgrade Cephx OsdBase.
Import Log Version GoTime Kube Upgrade Cephx OsdBase.
Open Scope Z_scope.

Module OsdSpec.

(** ** The storage spec *)

Record Device := { device_name : string; FullPath : string; device_config : gmap string string }.

Record Selection := {
  UseAllDevices : option bool;
  DeviceFilter : string;
  DevicePathFilter : string;
  selection_devices : list Device;
  VolumeClaimTemplates : list string;
}.

Record StorageNode := {
  storage_node_name : string;
  node_config : option (gmap string string);
  node_selection : Selection;
}.

(** Of a storage class device set, its name and whether it asks for encryption. *)
Record StorageClassDeviceSet := { set_name : string; set_encrypted : bool }.

Record StorageScopeSpec := {
  UseAllNodes : bool;
  StorageNodes : list StorageNode;
  scope_config : gmap string string;
  scope_selection : Selection;
  StorageClassDeviceSets : list StorageClassDeviceSet;
  StoreType : string;
  UpdateStore : string;
  MigrationConfirmation : string;
  OSDMaxUpdatesInParallel : Z;
  AllowDeviceClassUpdate : bool;
}.

Definition GetUseAllDevices (s : Selection) : bool := bool_decide (UseAllDevices s = Some true).

Definition AnyUseAllDevices (s : StorageScopeSpec) : bool :=
  GetUseAllDevices (scope_selection s) || existsb (fun n => GetUseAllDevices (node_selection n)) (StorageNodes s).

Definition NodeExists (s : StorageScopeSpec) (nodeName : string) : bool :=
  existsb (fun n => String.eqb (storage_node_name n) nodeName) (StorageNodes s).

Definition resolveString (setting parent defaultVal : string) : string :=
  if String.eqb setting "" then (if String.eqb parent "" then defaultVal else parent) else setting.

Definition resolveNodeSelection (s : StorageScopeSpec) (sel : Selection) : Selection :=
  let scope := scope_selection s in
  {| UseAllDevices := match UseAllDevices sel with
                      | Some b => Some b
                      | None => match UseAllDevices scope with Some b => Some b | None => Some false end
                      end;
     DeviceFilter := resolveString (DeviceFilter sel) (DeviceFilter scope) "";
     DevicePathFilter := resolveString (DevicePathFilter sel) (DevicePathFilter scope) "";
     selection_devices := match selection_devices sel with [] => selection_devices scope | l => l end;
     VolumeClaimTemplates := match VolumeClaimTemplates sel with [] => VolumeClaimTemplates scope | l => l end |}.

(** Every key of the parent scope that the node does not have. *)
Definition resolveNodeConfig (s : StorageScopeSpec) (config : gmap string string) : gmap string string :=
  config ∪ scope_config s.

Definition resolve_node (s : StorageScopeSpec) (node : StorageNode) : StorageNode :=
  {| storage_node_name := storage_node_name node;
     node_config := Some (resolveNodeConfig s (default ∅ (node_config node)));
     node_selection := resolveNodeSelection s (node_selection node) |}.

Definition ResolveNode (s : StorageScopeSpec) (nodeName : string) : option StorageNode :=
  resolve_node s <$> List.find (fun n => String.eqb (storage_node_name n) nodeName) (StorageNodes s).

Definition StoreTypeBlueStore : string := "bluestore".

Definition GetOSDStore (s : StorageScopeSpec) : string :=
  if String.eqb (StoreType s) "" then StoreTypeBlueStore else StoreType s.

(** ** The configuration of a store ([config.go]) *)

Definition WalSizeMBKey : string := "walSizeMB".

Definition DatabaseSizeMBKey : string := "databaseSizeMB".

Definition OSDsPerDeviceKey : string := "osdsPerDevice".

Definition EncryptedDeviceKey : string := "encryptedDevice".

Definition MetadataDeviceKey : string := "metadataDevice".

Definition DeviceClassKey : string := "deviceClass".

Definition InitialWeightKey : string := "initialWeight".

Definition PrimaryAffinityKey : string := "primaryAffinity".

Record StoreConfig := {
  WalSizeMB : Z;
  DatabaseSizeMB : Z;
  OSDsPerDevice : Z;
  EncryptedDevice : bool;
  store_MetadataDevice : string;
  store_DeviceClass : string;
  InitialWeight : string;
  PrimaryAffinity : string;
  store_StoreType : string;
}.

Definition convertToIntIgnoreErr (raw : string) : Z := default 0 (Atoi raw).

(** The loop sets one field per key, so its order does not matter. *)
Definition ToStoreConfig (config : gmap string string) : StoreConfig :=
  let text key := default "" (config !! key) in
  let number key := match config !! key with Some v => convertToIntIgnoreErr v | None => 0 end in
  {| WalSizeMB := number WalSizeMBKey;
     DatabaseSizeMB := number DatabaseSizeMBKey;
     OSDsPerDevice := let i := number OSDsPerDeviceKey in if 0 <? i then i else 1;
     EncryptedDevice := bool_decide (config !! EncryptedDeviceKey = Some "true");
     store_MetadataDevice := text MetadataDeviceKey;
     store_DeviceClass := text DeviceClassKey;
     InitialWeight := text InitialWeightKey;
     PrimaryAffinity := text PrimaryAffinityKey;
     store_StoreType := "" |}.

Definition MetadataDevice (config : gmap string string) : string := default "" (config !! MetadataDeviceKey).

Definition with_class (sc : StoreConfig) (class : string) : StoreConfig :=
  {| WalSizeMB := WalSizeMB sc; DatabaseSizeMB := DatabaseSizeMB sc; OSDsPerDevice := OSDsPerDevice sc;
     EncryptedDevice := EncryptedDevice sc; store_MetadataDevice := store_MetadataDevice sc; store_DeviceClass := class;
     InitialWeight := InitialWeight sc; PrimaryAffinity := PrimaryAffinity sc; store_StoreType := store_StoreType sc |}.

(** ** Properties of an OSD *)

(** A storage class device set with its PVCs: of a PVC source, the name of the claim.  Resources and
    placements only reach the pod template. *)
Record deviceSet := {
  set_Name : string;
  PVCSources : gmap string string;
  CrushDeviceClass : string;
  CrushInitialWeight : string;
  CrushPrimaryAffinity : string;
  Size : string;
  Portable : bool;
  TuneSlowDeviceClass : bool;
  TuneFastDeviceClass : bool;
  SchedulerName : string;
  set_Encrypted_ : bool;
}.

Definition bluestorePVCData : string := "data".

Definition bluestorePVCMetadata : string := "metadata".

Definition bluestorePVCWal : string := "wal".

Record osdProperties := {
  crushHostname : string;
  devices : list Device;
  pvc : string;
  metadataPVC : string;
  walPVC : string;
  pvcSize : string;
  selection : option Selection;
  storeConfig : StoreConfig;
  metadataDevice : string;
  portable : bool;
  tuneSlowDeviceClass : bool;
  tuneFastDeviceClass : bool;
  schedulerName : string;
  props_encrypted : bool;
  deviceSetName : string;
}.

Definition onPVC (p : osdProperties) : bool := negb (String.eqb (pvc p) "").

Definition NodeDeviceClassLabelKey : string := "osd.rook.io/device-class".

Definition trim_dev (s : string) : string := default s (strip_prefix "/dev/" s).

(** The device class of the CR that matches the device of the OSD. *)
Definition perDeviceClassForOSD (osd : OSDInfo) (devices : list Device) : string :=
  if String.eqb (BlockPath osd) "" then ""
  else
    let short := trim_dev (BlockPath osd) in
    let hit device :=
      let deviceConfig := default "" (device_config device !! DeviceClassKey) in
      if String.eqb deviceConfig "" then None
      else if negb (String.eqb (device_name device) "") && String.eqb (trim_dev (device_name device)) short
      then Some deviceConfig
      else if negb (String.eqb (FullPath device) "") && String.eqb (FullPath device) (BlockPath osd)
      then Some deviceConfig
      else None in
    default "" (head (omap hit devices)).

(** What the OSD components know of the cluster for building deployments. *)
Record SpecCluster := {
  base :> OsdCluster;
  Storage : StorageScopeSpec;
  ValidStorage : StorageScopeSpec;
  deviceSets : list deviceSet;
  MultiClusterService : bool;
}.

(** The construction of the pod template and of the service of an OSD, and the condition of the
    custom resource. *)
Class SpecEnv (W : Type) := {
  spec_osd :: OsdEnv W;
  env_make_deployment : osdProperties -> OSDInfo -> M W Deployment;
  env_update_condition : string -> M W unit;
}.

Section Build.
Context {W : Type} `{SpecEnv W} (c : SpecCluster).

Definition resolveNode (nodeName : string) : option StorageNode := ResolveNode (ValidStorage c) nodeName.

Definition resolveDeviceClass (crDeviceClass nodeName : string) : MW W string :=
  node ← wrapM (getNode c nodeName) "failed to get node %q to read device class label" [nodeName];
  let labelClass := Disruption.read (Topology.node_labels node) NodeDeviceClassLabelKey in
  if negb (String.eqb crDeviceClass "") && negb (String.eqb labelClass "")
  then fail (Errorf "node %q has both CR device class %q and node label %q set; remove one to resolve the conflict"
               [nodeName; crDeviceClass; labelClass])
  else if negb (String.eqb crDeviceClass "") then mret crDeviceClass
  else mret labelClass.

Definition getOSDPropsForNode (nodeName : string) : MW W osdProperties :=
  match resolveNode nodeName with
  | None => fail (Errorf "failed to resolve node %q" [nodeName])
  | Some n =>
      let config := default ∅ (node_config n) in
      let sc := ToStoreConfig config in
      deviceClass ← resolveDeviceClass (store_DeviceClass sc) (storage_node_name n);
      mret {| crushHostname := storage_node_name n; devices := selection_devices (node_selection n); pvc := "";
              metadataPVC := ""; walPVC := ""; pvcSize := ""; selection := Some (node_selection n);
              storeConfig := with_class sc deviceClass; metadataDevice := MetadataDevice config; portable := false;
              tuneSlowDeviceClass := false; tuneFastDeviceClass := false; schedulerName := "";
              props_encrypted := false; deviceSetName := "" |}
  end.

Definition getPVCHostName (pvcName : string) : MW W string :=
  let selector := OSDOverPVCLabelKey +:+ "=" +:+ pvcName in
  deployments ← wrapM (list_deployments (namespace c) selector) "failed to get deployment for osd with pvc %q" [pvcName];
  match head (omap (fun d => NodeSelector (Template d) !! Topology.LabelHostname (customHostnameLabel c)) deployments) with
  | Some value => mret value
  | None =>
      pods ← wrapM (list_pods (namespace c) selector) "failed to get pod for osd with pvc %q" [pvcName];
      match pods with
      | [] => fail (Errorf "node selector not found on deployment for osd with pvc %q" [pvcName])
      | pod :: _ =>
          r ← try_ (GetNodeHostName c (pod_node pod));
          let name := match r with Ok name => name | Err _ => pod_node pod end in
          if String.eqb name "" then fail (Errorf "node name not found on the osd pod %q" [pod_name pod])
          else mret name
      end
  end.

(** The properties of the PVC of a device set, with the host name of the claim. *)
Definition props_of_set (s : deviceSet) (claim host : string) : osdProperties :=
  {| crushHostname := host; devices := []; pvc := claim; metadataPVC := Disruption.read (PVCSources s) bluestorePVCMetadata;
     walPVC := Disruption.read (PVCSources s) bluestorePVCWal; pvcSize := Size s; selection := None;
     storeConfig :=
       {| WalSizeMB := 0; DatabaseSizeMB := 0; OSDsPerDevice := 0; EncryptedDevice := false; store_MetadataDevice := "";
          store_DeviceClass := CrushDeviceClass s; InitialWeight := CrushInitialWeight s;
          PrimaryAffinity := CrushPrimaryAffinity s; store_StoreType := "" |};
     metadataDevice := ""; portable := Portable s; tuneSlowDeviceClass := TuneSlowDeviceClass s;
     tuneFastDeviceClass := TuneFastDeviceClass s; schedulerName := SchedulerName s; props_encrypted := set_Encrypted_ s;
     deviceSetName := set_Name s |}.

Definition getOSDPropsForPVC (pvcName : string) : MW W osdProperties :=
  match List.find (fun s => bool_decide (PVCSources s !! bluestorePVCData = Some pvcName)) (deviceSets c) with
  | None => fail (Errorf "failed to find valid VolumeSource for PVC %q" [pvcName])
  | Some s =>
      if Portable s then mret (props_of_set s pvcName pvcName)
      else
        host ← wrapM (getPVCHostName pvcName) "failed to get crushHostname of non-portable PVC %q" [pvcName];
        mret (props_of_set s pvcName host)
  end.

Definition setOSDProperties (p : osdProperties) (osd : OSDInfo) : MW W unit :=
  if String.eqb (PrimaryAffinity (storeConfig p)) "" then mret ()
  else SetPrimaryAffinity (ID osd) (PrimaryAffinity (storeConfig p)).

(** The device class of an OSD follows the spec, where that is allowed. *)
Definition update_class (p : osdProperties) (osd : OSDInfo) : OSDInfo :=
  if AllowDeviceClassUpdate (Storage c) then
    let dc := perDeviceClassForOSD osd (devices p) in
    let desiredClass := if String.eqb dc "" then store_DeviceClass (storeConfig p) else dc in
    if negb (String.eqb desiredClass "") && negb (String.eqb desiredClass (DeviceClass osd))
    then set_DeviceClass desiredClass osd else osd
  else osd.

(** The OSD is passed by reference: its device class can be changed, also when an error follows. *)
Definition makeDeployment (p : osdProperties) (osd : OSDInfo) : MW W (OSDInfo * result Deployment) :=
  if String.eqb (CVMode osd) ""
  then mret (osd, Err (Errorf "failed to generate deployment for OSD %d. required CVMode is not specified for this OSD"
                         [Itoa (ID osd)]))
  else
    let osd := update_class p osd in
    r ← try_ (record (Build (pvc p) (crushHostname p) osd) (env_make_deployment p osd));
    mret (osd, r).

Definition deploymentOn (props : MW W osdProperties) (osdLongName : string) (osd : OSDInfo) :
    MW W (OSDInfo * result Deployment) :=
  r ← try_ props;
  match r with
  | Err err => mret (osd, Err (Wrapf err "failed to generate config for %s" [osdLongName]))
  | Ok p =>
      '(osd, d) ← makeDeployment p osd;
      match d with
      | Err err => mret (osd, Err (Wrapf err "failed to generate deployment for %s" [osdLongName]))
      | Ok d =>
          s ← try_ (setOSDProperties p osd);
          match s with
          | Err err => mret (osd, Err (Wrapf err "failed to prepare deployment for %s" [osdLongName]))
          | Ok _ => mret (osd, Ok d)
          end
      end
  end.

Definition deploymentOnNode (osd : OSDInfo) (nodeName : string) : MW W (OSDInfo * result Deployment) :=
  deploymentOn (getOSDPropsForNode nodeName) ("OSD " +:+ Itoa (ID osd) +:+ " on node " +:+ nodeName) osd.

Definition deploymentOnPVC (osd : OSDInfo) (pvcName : string) : MW W (OSDInfo * result Deployment) :=
  deploymentOn (getOSDPropsForPVC pvcName) ("OSD " +:+ Itoa (ID osd) +:+ " on PVC " +:+ pvcName) osd.

End Build.

End OsdSpec.
