(* ===== verification/OsdReplace.v ===== *)
(** * OsdReplace: replacing an OSD, and the health check of the OSDs

    Models [pkg/operator/ceph/cluster/osd]: [replace.go] (requests are validated and handed over),
    [replace_destroy.go] (a marked OSD is drained and destroyed step by step, one step per tick of
    the health check), [replace_job.go] (the job that closes encrypted devices) and [health.go]
    (the tick: replacements, removal of OSDs that are down and out, the required release). *)

From stdpp Require Import base gmap strings list fin_maps.
From Stdlib Require Import ZArith Ascii.
From S2P Require Import Prelude CephVersion GoTime Topology Kube Disruption Upgrade Cephx OsdBase.
Import Log Version GoTime Kube Upgrade OsdBase.
Open Scope Z_scope.

Module OsdReplace.

Abbreviation read := Disruption.read.
Abbreviation GetOSDID := Disruption.GetOSDID.

Definition SkipReconcileLabelKey : string := "ceph.rook.io/do-not-reconcile".

Definition ReplaceOSDAnnotationKey : string := "osd.rook.io/replace".

Definition ReplaceInProgressOSDAnnotationKey : string := "osd.rook.io/replace-in-progress".

Definition ReadyForSwapOSDAnnotationKey : string := "osd.rook.io/replace-ready-for-swap".

(** ** Requests ([replace.go]) *)

Definition isWaitingForDiskSwap (d : Deployment) : bool :=
  bool_decide (is_Some (dep_annotations d !! ReadyForSwapOSDAnnotationKey)).

Definition isMissingFromOSDDump (d : Deployment) (osdDump : option OSDDump) : bool :=
  match GetOSDID d with
  | Err _ => false
  | Ok osdID =>
      match osdDump with
      | None => false
      | Some dump => match OSDs dump with [] => false | _ => negb (Exists dump osdID) end
      end
  end.

Definition validateSingleOSDPerDevice (osdID : Z) (osdMetadata : list OSDMetadata) : result unit :=
  match List.find (fun m => osd_id m =? osdID) osdMetadata with
  | None => Ok ()
  | Some target =>
      if String.eqb (Devices target) "" || String.eqb (HostName target) "" then Ok ()
      else
        let other := List.find (fun o => negb ((osd_id o =? osdID) || negb (String.eqb (HostName o) (HostName target)) ||
                                               negb (String.eqb (Devices o) (Devices target)))) osdMetadata in
        match other with
        | None => Ok ()
        | Some other =>
            Err (Errorf "OSD %d and OSD %d on host %q report the same physical device(s) %q; replacement requires an OSD that owns its whole data device (osdsPerDevice > 1 is not supported)"
                   [Itoa osdID; Itoa (osd_id other); HostName target; Devices target])
        end
  end.

Definition validateReplaceOSD (d : Deployment) (replaceValue : string) (osdTree : OsdTree)
    (osdMetadata : list OSDMetadata) : result unit :=
  osdID ← wrap_err (GetOSDID d) "failed to read %q label" [OsdIdLabelKey];
  let expected := "yes-really-replace-osd-" +:+ Itoa osdID in
  if negb (String.eqb replaceValue expected)
  then Err (Errorf "annotation %q value %q does not match the deployment's OSD id (expected %q)"
              [ReplaceOSDAnnotationKey; replaceValue; expected])
  else if bool_decide (is_Some (dep_labels d !! OSDOverPVCLabelKey))
  then Err (Errorf "OSD %d is PVC-backed (label %q present); replacement supports host-based OSDs only"
              [Itoa osdID; OSDOverPVCLabelKey])
  else if negb (existsb (fun node => String.eqb (node_type node) "osd" && (node_id node =? osdID))
                  (default [] (Nodes osdTree)))
  then Err (Errorf "OSD %d does not exist in the osd tree" [Itoa osdID])
  else validateSingleOSDPerDevice osdID osdMetadata.

(** What one pass has read of Ceph so far. *)
Record Cache := { cache_dump : option OSDDump; cache_tree : option (OsdTree * list OSDMetadata) }.

Section Handlers.
Context {W : Type} `{OsdEnv W} (c : OsdCluster).

(** A deployment that waits for its disk to be swapped. *)
Definition clean_up_swap (st : Cache) (d : Deployment) : MW W Cache :=
  r ← (match cache_dump st with Some dump => mret (Ok dump) | None => try_ GetOSDDump end);
  match r with
  | Err _ => mret st
  | Ok dump =>
      _ ← (if isMissingFromOSDDump d (Some dump)
           then _ ← try_ (DeleteDeployment_ (dep_namespace d) (dep_name d)); mret ()
           else mret ());
      mret {| cache_dump := Some dump; cache_tree := cache_tree st |}
  end.

Definition mark_in_progress (d : Deployment) : Deployment :=
  AddAnnotationToDeployment ReplaceInProgressOSDAnnotationKey "true"
    (AddLabelToDeployment SkipReconcileLabelKey "true" d).

(** A deployment with a request that is not marked yet. *)
Definition validate_request (st : Cache) (d : Deployment) (replaceValue : string) : MW W Cache :=
  r ← (match cache_tree st with
       | Some tm => mret (Ok tm)
       | None => try_ (tree ← HostTree; metadata ← GetOSDMetadata; mret (tree, metadata))
       end);
  match r with
  | Err _ => mret st
  | Ok (tree, metadata) =>
      let st := {| cache_dump := cache_dump st; cache_tree := Some (tree, metadata) |} in
      match validateReplaceOSD d replaceValue tree metadata with
      | Err _ => mret st
      | Ok _ => _ ← try_ (update_deployment (namespace c) (mark_in_progress d)); mret st
      end
  end.

Definition process_deployment (st : Cache) (d : Deployment) : MW W Cache :=
  if isWaitingForDiskSwap d then clean_up_swap st d
  else if String.eqb (read (dep_annotations d) ReplaceInProgressOSDAnnotationKey) "true" then mret st
  else match dep_annotations d !! ReplaceOSDAnnotationKey with
       | None => mret st
       | Some replaceValue => validate_request st d replaceValue
       end.

Fixpoint process_deployments (st : Cache) (l : list Deployment) : MW W unit :=
  match l with
  | [] => mret ()
  | d :: l' => st ← process_deployment st d; process_deployments st l'
  end.

Definition processOSDReplacements : MW W unit :=
  deployments ← wrapM (getOSDDeployments c) "failed to list OSD deployments to check for replacement requests" [];
  process_deployments {| cache_dump := None; cache_tree := None |} deployments.

Definition replacementReadyForSwap (osdID : Z) : MW W bool :=
  let name := deploymentName osdID in
  r ← try_ (get_deployment (namespace c) name);
  match r with
  | Err err => if IsNotFound err then mret false else fail (Wrapf err "failed to get OSD deployment %q" [name])
  | Ok d => mret (isWaitingForDiskSwap d)
  end.

(** ** The job that closes encrypted devices ([replace_job.go]) *)

Definition cryptCloseJobName (osdID : Z) : string := "rook-ceph-osd-crypt-close-" +:+ Itoa osdID.

Inductive cryptCloseJobStatus :=
| cryptCloseJobNotFound
| cryptCloseJobRunning
| cryptCloseJobSucceeded
| cryptCloseJobFailed.

(** Of the job that is built, its name and the node it is pinned to. *)
Definition makeCryptCloseJob (osdID : Z) (nodeName : string) : Job :=
  {| job_name := cryptCloseJobName osdID; job_node := nodeName; Active := 0; Succeeded := 0; job_conditions := [] |}.

Definition startCryptCloseJob (osdID : Z) (nodeName : string) : MW W unit :=
  wrapM (RunReplaceableJob (namespace c) (makeCryptCloseJob osdID nodeName) true)
    "failed to run crypto-close job for osd.%d on node %q" [Itoa osdID; nodeName].

Definition job_status (job : Job) : cryptCloseJobStatus :=
  if 0 <? Succeeded job then cryptCloseJobSucceeded
  else if existsb (fun cond => String.eqb cond.1 "Failed" && String.eqb cond.2 "True") (job_conditions job)
  then cryptCloseJobFailed
  else cryptCloseJobRunning.

Definition cryptCloseJobStatusForOSD (osdID : Z) : MW W cryptCloseJobStatus :=
  r ← try_ (get_job (namespace c) (cryptCloseJobName osdID));
  match r with
  | Err err => if IsNotFound err then mret cryptCloseJobNotFound
               else fail (Wrapf err "failed to get crypto-close job for osd.%d" [Itoa osdID])
  | Ok job => mret (job_status job)
  end.

Definition deleteCryptCloseJob (osdID : Z) : MW W unit :=
  DeleteBatchJob (namespace c) (cryptCloseJobName osdID) false.

(** ** Destroying a marked OSD ([replace_destroy.go]) *)

Definition isOSDDestroyedInTree (osdTree : OsdTree) (osdID : Z) : bool :=
  match List.find (fun node => String.eqb (node_type node) "osd" && (node_id node =? osdID))
          (default [] (Nodes osdTree)) with
  | Some node => String.eqb (node_status node) "destroyed"
  | None => false
  end.

Definition isOSDPodGone (osdID : Z) : MW W bool :=
  running ← wrapM (PodsRunningWithLabel (namespace c) (OsdIdLabelKey +:+ "=" +:+ Itoa osdID))
              "failed to check for running pods of osd.%d" [Itoa osdID];
  mret (negb (0 <? running)).

Definition is_downscaled (d : Deployment) : bool := bool_decide (Replicas d = Some 0).

Definition scaleDownOSDDeployment (d : Deployment) (osdID : Z) : MW W unit :=
  if is_downscaled d then mret ()
  else
    _ ← wrapM (update_deployment (namespace c) (with_replicas d (Some 0)))
          "failed to scale osd.%d deployment %q to zero" [Itoa osdID; dep_name d];
    mret ().

Definition isReplaceOSDEncrypted (d : Deployment) : MW W bool :=
  if String.eqb (read (dep_labels d) encrypted) "true" then mret true
  else
    osdInfo ← wrapM (getOSDInfo c d) "failed to read OSD info from deployment %q to determine encryption" [dep_name d];
    mret (Encrypted osdInfo).

Definition replaceOSDNodeName (d : Deployment) (osdID : Z) : MW W string :=
  osdInfo ← wrapM (getOSDInfo c d) "failed to read OSD info from deployment %q to resolve its node" [dep_name d];
  if String.eqb (TrimSpace (NodeName osdInfo)) ""
  then fail (Errorf "could not resolve the node name for osd.%d from deployment %q" [Itoa osdID; dep_name d])
  else mret (NodeName osdInfo).

Definition runCryptCloseJobForOSD (d : Deployment) (osdID : Z) : MW W bool :=
  status ← cryptCloseJobStatusForOSD osdID;
  match status with
  | cryptCloseJobSucceeded => mret true
  | cryptCloseJobRunning => mret false
  | _ =>
      nodeName ← replaceOSDNodeName d osdID;
      _ ← startCryptCloseJob osdID nodeName;
      mret false
  end.

Definition annotateReadyForSwap (d : Deployment) (osdID : Z) : MW W unit :=
  if isWaitingForDiskSwap d then mret ()
  else
    _ ← wrapM (update_deployment (namespace c) (AddAnnotationToDeployment ReadyForSwapOSDAnnotationKey "true" d))
          "failed to annotate osd.%d deployment %q as ready for swap" [Itoa osdID; dep_name d];
    mret ().

(** Scaled up again, without the marker and without the fence. *)
Definition unmark (d : Deployment) : Deployment :=
  let d := with_replicas d (Some 1) in
  let d := with_annotations d (delete ReplaceInProgressOSDAnnotationKey (dep_annotations d)) in
  with_labels d (delete SkipReconcileLabelKey (dep_labels d)).

Definition cancelReplaceOSD (d : Deployment) (osdID : Z) : MW W unit :=
  _ ← wrapM (OSDIn osdID) "failed to mark osd.%d back in on cancellation" [Itoa osdID];
  _ ← wrapM (deleteCryptCloseJob osdID) "failed to delete crypto-close job for osd.%d on cancellation" [Itoa osdID];
  status ← wrapM (cryptCloseJobStatusForOSD osdID) "failed to check the crypto-close job of osd.%d on cancellation"
             [Itoa osdID];
  match status with
  | cryptCloseJobNotFound =>
      _ ← wrapM (update_deployment (namespace c) (unmark d))
            "failed to clear the replacement markers on osd.%d deployment %q" [Itoa osdID; dep_name d];
      mret ()
  | _ => mret ()
  end.

(** The pod is gone: the devices of an encrypted OSD are closed first, by a job that can take several
    ticks.  Whether the OSD can be destroyed now. *)
Definition close_devices (d : Deployment) (osdID : Z) : MW W bool :=
  isEncrypted ← isReplaceOSDEncrypted d;
  if (isEncrypted : bool) then
    done ← runCryptCloseJobForOSD d osdID;
    if negb done then mret false
    else
      _ ← wrapM (deleteCryptCloseJob osdID) "failed to delete crypto-close job for osd.%d" [Itoa osdID];
      mret true
  else mret true.

(** The branch of a deployment that is scaled down. *)
Definition destroy_downscaled (d : Deployment) (osdID : Z) : MW W unit :=
  gone ← isOSDPodGone osdID;
  if negb gone then mret ()
  else
    closed ← close_devices d osdID;
    if negb closed then mret ()
    else
      r ← try_ (OsdSafeToDestroy osdID);
      match r with
      | Err _ => mret ()
      | Ok safe =>
          if negb safe then mret ()
          else
            _ ← OSDDown osdID;
            OSDDestroy osdID
      end.

(** The branch of a deployment that still runs. *)
Definition drain (d : Deployment) (osdID : Z) (osdDump : OSDDump) : MW W unit :=
  let isOSDIn := match StatusByID osdDump osdID with Err _ => true | Ok (_, inn) => inn =? 1 end in
  if isOSDIn then OSDOut osdID
  else
    r ← try_ (OsdSafeToDestroy osdID);
    match r with
    | Err _ => mret ()
    | Ok safe => if negb safe then mret () else scaleDownOSDDeployment d osdID
    end.

Definition isReplaceRequested (d : Deployment) : bool :=
  bool_decide (is_Some (dep_annotations d !! ReplaceOSDAnnotationKey)).

Definition processOSDReplacementDestroy (d : Deployment) (osdID : Z) (osdTree : OsdTree) (osdDump : OSDDump) :
    MW W unit :=
  let isDestroyed := isOSDDestroyedInTree osdTree osdID in
  if negb (isReplaceRequested d) && negb isDestroyed then cancelReplaceOSD d osdID
  else if isDestroyed then annotateReadyForSwap d osdID
  else if is_downscaled d then destroy_downscaled d osdID
  else drain d osdID osdDump.

(** The OSDs under replacement, and the deployments with work left with their OSD. *)
Definition collect (st : gset Z * list (Deployment * Z)) (d : Deployment) : gset Z * list (Deployment * Z) :=
  let '(osdsUnderReplacement, toProcess) := st in
  if negb (String.eqb (read (dep_annotations d) ReplaceInProgressOSDAnnotationKey) "true") then st
  else match GetOSDID d with
       | Err _ => st
       | Ok osdID => ({[ osdID ]} ∪ osdsUnderReplacement,
                      if isWaitingForDiskSwap d then toProcess else toProcess ++ [(d, osdID)])
       end.

(** Both results: the OSDs under replacement, and the error if there is one. *)
Definition processOSDsDestroyForReplacement : MW W (gset Z * option gerror) :=
  l ← try_ (getOSDDeployments c);
  match l with
  | Err err => mret (∅, Some (Wrapf err "failed to list OSD deployments for replacement processing" []))
  | Ok deployments =>
      let '(osdsUnderReplacement, toProcess) := foldl collect (∅, []) deployments in
      match toProcess with
      | [] => mret (osdsUnderReplacement, None)
      | _ =>
          t ← try_ HostTree;
          match t with
          | Err _ => mret (osdsUnderReplacement, None)
          | Ok tree =>
              o ← try_ GetOSDDump;
              match o with
              | Err _ => mret (osdsUnderReplacement, None)
              | Ok osdDump =>
                  _ ← forM_ toProcess (fun '(d, osdID) =>
                        _ ← try_ (processOSDReplacementDestroy d osdID tree osdDump); mret ());
                  mret (osdsUnderReplacement, None)
              end
          end
      end
  end.

(** ** The health check ([health.go]) *)

Definition upStatus : Z := 1.

Definition inStatus : Z := 1.

Definition graceTime : Z := 60 * (60 * Second).

Record OSDHealthMonitor := {
  removeOSDsIfOUTAndSafeToRemove : bool;
  lastRequireOSDRelease : string;
}.

Definition Update (remove : bool) (m : OSDHealthMonitor) : OSDHealthMonitor :=
  {| removeOSDsIfOUTAndSafeToRemove := remove; lastRequireOSDRelease := lastRequireOSDRelease m |}.

Definition removeOSDDeploymentIfSafeToDestroy (outOSDid : Z) : MW W unit :=
  r ← try_ (GetDeployments (namespace c) ("ceph-osd-id=" +:+ Itoa outOSDid));
  match r with
  | Err err => if IsNotFound err then mret ()
               else fail (Wrapf err "failed to get osd deployment of osd id %d" [Itoa outOSDid])
  | Ok [] => mret ()
  | Ok (dp :: _) =>
      safeToDestroyOSD ← wrapM (OsdSafeToDestroy outOSDid) "failed to get osd deployment of osd id %d" [Itoa outOSDid];
      if (safeToDestroyOSD : bool) then
        currentTime ← now;
        if CreationTimestamp dp + graceTime <? currentTime
        then wrapM (DeleteDeployment_ (dep_namespace dp) (dep_name dp)) "failed to delete osd deployment %s"
               [dep_name dp]
        else mret ()
      else mret ()
  end.

Definition check_osd (m : OSDHealthMonitor) (osdsUnderReplacement : gset Z) (osdDump : OSDDump) (osdStatus : OSDDumpEntry) :
    MW W unit :=
  match Atoi (OSD osdStatus) with
  | None => mret ()
  | Some id =>
      if bool_decide (id ∈ osdsUnderReplacement) then mret ()
      else
        '(status, inn) ← lift (StatusByID osdDump id);
        if status =? upStatus then mret ()
        else if negb (inn =? inStatus) && removeOSDsIfOUTAndSafeToRemove m
        then _ ← try_ (removeOSDDeploymentIfSafeToDestroy id); mret ()
        else mret ()
  end.

Definition checkOSDDump (m : OSDHealthMonitor) (osdsUnderReplacement : gset Z) : MW W unit :=
  osdDump ← wrapM GetOSDDump "failed to get osd dump" [];
  forM_ (OSDs osdDump) (check_osd m osdsUnderReplacement osdDump).

Definition checkRequireOSDRelease (m : OSDHealthMonitor) : MW W OSDHealthMonitor :=
  r ← try_ GetAllCephDaemonVersions;
  match r with
  | Err _ => mret m
  | Ok versions =>
      match Osd versions with
      | [(v, _)] =>
          match ExtractCephVersion v with
          | Err _ => mret m
          | Ok osdVersion =>
              let releaseName := ReleaseName osdVersion in
              if String.eqb releaseName (lastRequireOSDRelease m) then mret m
              else
                e ← try_ (EnableReleaseOSDFunctionality releaseName);
                match e with
                | Err _ => mret m
                | Ok _ => mret {| removeOSDsIfOUTAndSafeToRemove := removeOSDsIfOUTAndSafeToRemove m;
                                  lastRequireOSDRelease := releaseName |}
                end
          end
      | _ => mret m
      end
  end.

Definition checkOSDHealth (m : OSDHealthMonitor) : MW W OSDHealthMonitor :=
  '(osdsUnderReplacement, _) ← processOSDsDestroyForReplacement;
  _ ← try_ (checkOSDDump m osdsUnderReplacement);
  checkRequireOSDRelease m.

End Handlers.

End OsdReplace.
