(* ===== verification/OsdRollout.v ===== *)
(** * OsdRollout: updating, creating and migrating OSDs

    Models [pkg/operator/ceph/cluster/osd]: [update.go] (the queue of OSDs to update, and one round
    of updates), the creation of OSDs in [create.go], [status.go] (the loop that waits for the
    results of the prepare jobs and updates OSDs meanwhile), [migrate.go], and the part of [Start] in
    [osd.go] that prepares the updates. *)

From stdpp Require Import base gmap strings list fin_maps.
From Stdlib Require Import ZArith Ascii.
From S2P Require Import Prelude Names CephVersion GoTime Topology Kube Disruption Upgrade Cephx OsdBase OsdSpec OsdReplace.
Import Log Version GoTime Kube Upgrade Cephx OsdBase OsdSpec OsdReplace.
Open Scope Z_scope.

Module OsdRollout.

(** ** The update queue and the existence list *)

Abbreviation updateQueue := (list Z) (only parsing).

Definition queue_Len (q : updateQueue) : Z := Z.of_nat (length q).

Definition queue_Push (q : updateQueue) (osdID : Z) : updateQueue := q ++ [osdID].

Definition queue_Pop (q : updateQueue) : Z * bool * updateQueue :=
  match q with [] => (-1, false, []) | osdID :: q => (osdID, true, q) end.

Definition queue_Exists (q : updateQueue) (osdID : Z) : bool := existsb (Z.eqb osdID) q.

(** The kept items are moved to the front of the array, which is then cut. *)
Fixpoint remove_loop (n idx lastIdx : nat) (osdIDs : list Z) (q : updateQueue) : updateQueue :=
  match n with
  | O => take lastIdx q
  | S n =>
      match q !! idx with
      | None => take lastIdx q
      | Some osdID =>
          if existsb (Z.eqb osdID) osdIDs then remove_loop n (S idx) lastIdx osdIDs q
          else remove_loop n (S idx) (S lastIdx) osdIDs (<[lastIdx := osdID]> q)
      end
  end.

Definition queue_Remove (q : updateQueue) (osdIDs : list Z) : updateQueue := remove_loop (length q) 0 0 osdIDs q.

Abbreviation existenceList := (gset Z) (only parsing).

Definition existence_Len (e : existenceList) : Z := Z.of_nat (size e).

Definition existence_Add (osdID : Z) (e : existenceList) : existenceList := {[ osdID ]} ∪ e.

Definition existence_Exists (e : existenceList) (osdID : Z) : bool := bool_decide (osdID ∈ e).

(** ** Statuses of the prepare jobs *)

Definition OrchestrationStatusStarting : string := "starting".

Definition OrchestrationStatusCompleted : string := "completed".

Definition OrchestrationStatusFailed : string := "failed".

Definition orchestrationStatusKey : string := "status".

Definition provisioningLabelKey : string := "provisioning".

Definition nodeLabelKey : string := "node".

Definition statusConfigMapName (nodeOrPVCName : string) : string :=
  ObjectName.TruncateNodeName "rook-ceph-osd-%s-status" nodeOrPVCName.

Definition statusConfigMapSelector : string :=
  AppAttr +:+ "=" +:+ AppName +:+ "," +:+ orchestrationStatusKey +:+ "=" +:+ provisioningLabelKey.

Definition isAddOrModifyEvent (t : string) : bool := String.eqb t "ADDED" || String.eqb t "MODIFIED".

(** ** Configurations *)

Abbreviation provisionErrors := (list gerror) (only parsing).

Definition addError (errs : provisionErrors) (message : string) (args : list string) : provisionErrors :=
  errs ++ [Errorf message args].

Record updateConfig := {
  queue : updateQueue;
  numUpdatesNeeded : Z;
  up_deployments : existenceList;
  osdsToSkipReconcile : gset string;
  osdDesiredState : gmap Z OSDInfo;
}.

Definition newUpdateConfig (q : updateQueue) (deployments : existenceList) (skip : gset string) : updateConfig :=
  {| queue := q; numUpdatesNeeded := queue_Len q; up_deployments := deployments; osdsToSkipReconcile := skip;
     osdDesiredState := ∅ |}.

Definition update_progress (u : updateConfig) : Z * Z := (numUpdatesNeeded u - queue_Len (queue u), numUpdatesNeeded u).

Definition doneUpdating (u : updateConfig) : bool := queue_Len (queue u) =? 0.

Definition with_queue (u : updateConfig) (q : updateQueue) : updateConfig :=
  {| queue := q; numUpdatesNeeded := numUpdatesNeeded u; up_deployments := up_deployments u;
     osdsToSkipReconcile := osdsToSkipReconcile u; osdDesiredState := osdDesiredState u |}.

Definition with_desired (u : updateConfig) (d : gmap Z OSDInfo) : updateConfig :=
  {| queue := queue u; numUpdatesNeeded := numUpdatesNeeded u; up_deployments := up_deployments u;
     osdsToSkipReconcile := osdsToSkipReconcile u; osdDesiredState := d |}.

Record createConfig := {
  awaitingStatusConfigMaps : gset string;
  finishedStatusConfigMaps : gset string;
  cr_deployments : existenceList;
}.

Definition newCreateConfig (awaiting : gset string) (deployments : existenceList) : createConfig :=
  {| awaitingStatusConfigMaps := awaiting; finishedStatusConfigMaps := ∅; cr_deployments := deployments |}.

Definition create_progress (c : createConfig) : Z * Z :=
  (Z.of_nat (size (finishedStatusConfigMaps c)), Z.of_nat (size (awaitingStatusConfigMaps c))).

Definition doneCreating (c : createConfig) : bool :=
  Nat.eqb (size (awaitingStatusConfigMaps c)) (size (finishedStatusConfigMaps c)).

Definition doneWithStatus (c : createConfig) (nodeOrPVCName : string) : createConfig :=
  {| awaitingStatusConfigMaps := awaitingStatusConfigMaps c;
     finishedStatusConfigMaps := {[ statusConfigMapName nodeOrPVCName ]} ∪ finishedStatusConfigMaps c;
     cr_deployments := cr_deployments c |}.

(** What the rollout reads of the cluster. *)
Record RolloutCluster := {
  spec_cluster :> SpecCluster;
  SkipUpgradeChecks : bool;
  UpgradeOSDRequiresHealthyPGs : bool;
  ContinueUpgradeAfterChecksEvenIfNotHealthy : bool;
  PGHealthyRegex : string;
  CephXDaemon : CephxConfig;
  clusterVersion : CephVersion;
  allowRotation : AllowMap;
}.

Class RolloutEnv (W : Type) := {
  rollout_spec :: SpecEnv W;
  json_pgs : string -> option CephStatus;
  json_rotated : string -> option (list string);
  json_orchestration : string -> option OrchestrationStatus;
  (** [regexp.Compile], with [MatchString] of its result *)
  compile_regexp : string -> option (string -> bool);
  env_list_configmaps : string -> string -> M W (list LabelledMap);
  env_get_configmap : string -> string -> M W LabelledMap;
  env_create_configmap : string -> LabelledMap -> M W unit;
  (** [OwnerInfo.SetControllerReference]; the reference itself is not a part of [LabelledMap] *)
  set_controller_reference : LabelledMap -> result unit;
  env_update_configmap : string -> LabelledMap -> M W unit;
  env_delete_configmap : string -> string -> M W unit;
  env_watch : string -> string -> M W unit;
  env_select : M W choice;
  (** which entry a range over a map visits first *)
  env_first : M W nat;
}.

Section Rollout.
Context {W : Type} `{RolloutEnv W} (c : RolloutCluster).

Definition list_configmaps (selector : string) : MW W (list LabelledMap) :=
  record (ListConfigMaps (namespace c) selector) (env_list_configmaps (namespace c) selector).

Definition get_configmap (name : string) : MW W LabelledMap :=
  record (GetConfigMap (namespace c) name) (env_get_configmap (namespace c) name).

Definition create_configmap (m : LabelledMap) : MW W unit :=
  record (CreateConfigMap (namespace c) m) (env_create_configmap (namespace c) m).

Definition update_configmap (m : LabelledMap) : MW W unit :=
  record (UpdateConfigMap (namespace c) m) (env_update_configmap (namespace c) m).

Definition delete_configmap (name : string) : MW W unit :=
  record (DeleteConfigMap (namespace c) name) (env_delete_configmap (namespace c) name).

Definition watch_configmaps (selector : string) : MW W unit :=
  record (Watch (namespace c) selector) (env_watch (namespace c) selector).

Definition select : MW W choice := record Select env_select.

Definition update_condition (message : string) : MW W unit := _ ← try_ (silent (env_update_condition message)); mret ().

(** [cephclient.IsClusterClean] *)
Definition IsClusterClean : MW W bool :=
  buf ← wrapM (run_ceph ["status"]) "failed to get status. %s" [];
  status ← unmarshal (json_pgs buf) "failed to unmarshal status response";
  if String.eqb (PGHealthyRegex c) "" then mret (Disruption.isClusterClean status Disruption.defaultPgHealthyRegex)
  else match compile_regexp (PGHealthyRegex c) with
       | Some healthy => mret (Disruption.isClusterClean status healthy)
       | None => fail (Errorf "unable to compile pgHealthyRegex" [PGHealthyRegex c])
       end.

(** ** Updates ([update.go]) *)

(** The status to record, and the error if there is one. *)
Definition rotateCephxKey (osdInfo : OSDInfo) : MW W (CephxStatus * option gerror) :=
  let status := info_CephxStatus osdInfo in
  let version := clusterVersion c in
  match ShouldRotateCephxKeys (allowRotation c) (CephXDaemon c) version version status true (namespace c) with
  | Err err => mret (status, Some (Wrapf err "failed to determine if cephx key for OSD %d needs rotated" [Itoa (ID osdInfo)]))
  | Ok shouldRotate =>
      let didRotate := UpdatedCephxStatus true (CephXDaemon c) version status CephxKeyTypeUndefined in
      let didNotRotate := UpdatedCephxStatus false (CephXDaemon c) version status CephxKeyTypeUndefined in
      if negb shouldRotate then mret (didNotRotate, None)
      else
        r ← try_ (AuthRotate version json_rotated ("osd." +:+ Itoa (ID osdInfo)) CephxKeyTypeUndefined);
        match r with
        | Err err => mret (didNotRotate, Some (Wrapf err "failed to rotate cephx key for OSD %d" [Itoa (ID osdInfo)]))
        | Ok _ =>
            if Encrypted osdInfo then
              l ← try_ (AuthRotate version json_rotated ("client.osd-lockbox." +:+ UUID osdInfo) CephxKeyTypeUndefined);
              match l with
              | Err err =>
                  mret (didNotRotate,
                        Some (Wrapf err "failed to rotate osd-lockbox cephx key for the encrypted OSD %d" [Itoa (ID osdInfo)]))
              | Ok _ => mret (didRotate, None)
              end
            else mret (didRotate, None)
        end
  end.

(** What one round of updates has done so far. *)
Record Round := {
  round_desired : gmap Z OSDInfo;
  round_errs : provisionErrors;
  updatedDeployments : list Deployment;
  listIDs : list string;
}.

Definition round_error (r : Round) (message : string) (args : list string) : Round :=
  {| round_desired := round_desired r; round_errs := addError (round_errs r) message args;
     updatedDeployments := updatedDeployments r; listIDs := listIDs r |}.

Definition round_desire (r : Round) (osdID : Z) (osdInfo : OSDInfo) : Round :=
  {| round_desired := <[osdID := osdInfo]> (round_desired r); round_errs := round_errs r;
     updatedDeployments := updatedDeployments r; listIDs := listIDs r |}.

Definition round_update (r : Round) (osdID : Z) (d : Deployment) : Round :=
  {| round_desired := round_desired r; round_errs := round_errs r;
     updatedDeployments := updatedDeployments r ++ [d]; listIDs := listIDs r ++ [Itoa osdID] |}.

(** The panic of [deviceClassInfo[0]] on an empty list. *)
Definition index_panic : gerror := Errorf "runtime error: index out of range [0] with length 0" [].

(** Old deployments do not have the device class.  An empty answer of Ceph panics. *)
Definition fill_device_class (osdID : Z) (osdInfo : OSDInfo) : MW W OSDInfo :=
  if String.eqb (DeviceClass osdInfo) "" || String.eqb (DeviceClass osdInfo) "None" then
    r ← try_ (OSDDeviceClasses [Itoa osdID]);
    match r with
    | Err _ => mret osdInfo
    | Ok [] => fail index_panic
    | Ok (deviceClassInfo :: _) => mret (set_DeviceClass (class_name deviceClassInfo) osdInfo)
    end
  else mret osdInfo.

(** The new deployment of an OSD on a PVC or a node, after its key was rotated if that is due.  The
    entry of the desired state is the OSD that is changed on the way. *)
Definition rebuild_osd (r : Round) (osdID : Z) (dep : Deployment) (nodeOrPVCName : string) (osdInfo : OSDInfo) :
    MW W Round :=
  '(cephxStatus, e) ← rotateCephxKey osdInfo;
  let r := match e with
           | Some _ => round_error r "failed to rotate cephx key for OSD %d" [Itoa osdID]
           | None => r
           end in
  let osdInfo := set_info_CephxStatus cephxStatus osdInfo in
  let osdInfo := if MultiClusterService c then set_ExportService true osdInfo else osdInfo in
  let finish (built : OSDInfo * result Deployment) :=
    let '(osdInfo, updatedDep) := built in
    _ ← update_condition ("Processing OSD " +:+ Itoa osdID +:+ " on " +:+ nodeOrPVCName);
    let r := round_desire r osdID osdInfo in
    match updatedDep with
    | Err _ => mret (round_error r "failed to update OSD %d" [Itoa osdID])
    | Ok d => mret (round_update r osdID d)
    end in
  if osdIsOnPVC dep then
    built ← deploymentOnPVC c osdInfo nodeOrPVCName; finish built
  else if negb (NodeExists (ValidStorage c) nodeOrPVCName) then mret (round_desire r osdID osdInfo)
  else built ← deploymentOnNode c osdInfo nodeOrPVCName; finish built.

(** One OSD of a round: [osdIDQuery] was popped from the queue before. *)
Definition update_osd (u : updateConfig) (osdIDQuery : Z) (r : Round) (osdID : Z) : MW W Round :=
  if negb (existence_Exists (up_deployments u) osdID) then mret r
  else if negb (osdID =? osdIDQuery) && negb (queue_Exists (queue u) osdID) then mret r
  else
    let depName := deploymentName osdID in
    g ← try_ (get_deployment (namespace c) depName);
    match g with
    | Err _ => mret (round_error r "failed to update OSD %d. failed to find existing deployment %q. %v" [Itoa osdID; depName])
    | Ok dep =>
        i ← try_ (getOSDInfo c dep);
        match i with
        | Err _ => mret (round_error r "failed to update OSD %d. failed to extract OSD info from existing deployment %q. %v"
                           [Itoa osdID; depName])
        | Ok osdInfo =>
            let r := round_desire r osdID osdInfo in
            if bool_decide (Itoa osdID ∈ osdsToSkipReconcile u) then mret r
            else
              osdInfo ← fill_device_class osdID osdInfo;
              let r := round_desire r osdID osdInfo in
              match getNodeOrPVCName (customHostnameLabel c) dep with
              | Err _ => mret (round_error r "failed to update OSD %d" [Itoa osdID])
              | Ok nodeOrPVCName => rebuild_osd r osdID dep nodeOrPVCName osdInfo
              end
        end
    end.

Fixpoint update_osds (u : updateConfig) (osdIDQuery : Z) (r : Round) (osdIDs : list Z) : MW W Round :=
  match osdIDs with
  | [] => mret r
  | osdID :: osdIDs => r ← update_osd u osdIDQuery r osdID; update_osds u osdIDQuery r osdIDs
  end.

Definition getFuncToListDeploymentsWithIDs (osdIDs : list string) : MW W (list Deployment) :=
  match osdIDs with
  | [] => mret []
  | _ => list_deployments (namespace c) ("ceph-osd-id in (" +:+ Join osdIDs ", " +:+ ")")
  end.

Definition defaultOSDMaxUpdatesInParallel : Z := 20.

(** Which OSDs may be updated together with the first of the queue; [None] when none may be stopped
    now. *)
Definition osds_to_update (osdIDQuery : Z) : MW W (option (list Z)) :=
  check ← (if SkipUpgradeChecks c then mret false else OSDUpdateShouldCheckOkToStop);
  if negb check then mret (Some [osdIDQuery])
  else
    let max := OSDMaxUpdatesInParallel (Storage c) in
    r ← try_ (OSDOkToStop osdIDQuery (if max =? 0 then defaultOSDMaxUpdatesInParallel else max));
    match r with
    | Ok osdIDs => mret (Some osdIDs)
    | Err _ => if ContinueUpgradeAfterChecksEvenIfNotHealthy c then mret (Some [osdIDQuery]) else mret None
    end.

(** Whether the placement groups allow an update now. *)
Definition pgs_allow_update : MW W bool :=
  if negb (SkipUpgradeChecks c) && UpgradeOSDRequiresHealthyPGs c then
    r ← try_ IsClusterClean;
    mret (match r with Ok clean => clean | Err _ => false end)
  else mret true.

Definition updateExistingOSDs (u : updateConfig) (errs : provisionErrors) : MW W (updateConfig * provisionErrors) :=
  if doneUpdating u then mret (u, errs)
  else
    allowed ← pgs_allow_update;
    if negb allowed then mret (u, errs)
    else
      let '(osdIDQuery, _, q) := queue_Pop (queue u) in
      let u := with_queue u q in
      o ← osds_to_update osdIDQuery;
      match o with
      | None => mret (with_queue u (queue_Push q osdIDQuery), errs)
      | Some osdIDs =>
          r ← update_osds u osdIDQuery
                {| round_desired := osdDesiredState u; round_errs := errs; updatedDeployments := []; listIDs := [] |} osdIDs;
          failures ← (match updatedDeployments r with
                      | [] => mret []
                      | deps => UpdateMultipleDeploymentsAndWait deps (getFuncToListDeploymentsWithIDs (listIDs r))
                      end);
          let errs := foldl (fun errs f => addError errs "failed to update OSD deployment %q" [ResourceName f])
                        (round_errs r) failures in
          mret (with_desired (with_queue u (queue_Remove q osdIDs)) (round_desired r), errs)
      end.

(** Every deployment of an OSD exists, and needs an update. *)
Definition update_info_step (st : updateQueue * existenceList * provisionErrors) (d : Deployment) :
    updateQueue * existenceList * provisionErrors :=
  let '(q, e, errs) := st in
  match Disruption.GetOSDID d with
  | Err _ => (q, e, addError errs "%v. did a user create their own deployment with label %q?" [AppAttr +:+ "=" +:+ AppName])
  | Ok id => (queue_Push q id, existence_Add id e, errs)
  end.

Definition getOSDUpdateInfo (errs : provisionErrors) : MW W (updateQueue * existenceList * provisionErrors) :=
  deps ← wrapM (list_deployments (namespace c) (AppAttr +:+ "=" +:+ AppName))
           "failed to query existing OSD deployments to see if they need updated" [];
  mret (foldl update_info_step ([], ∅, errs) deps).

(** ** Creation ([create.go]) *)

Definition createDaemonOn (build : OSDInfo -> MW W (OSDInfo * result Deployment)) (osd : OSDInfo) (place : string) :
    MW W unit :=
  '(osd, d) ← build osd;
  d ← lift d;
  _ ← update_condition ("Processing OSD " +:+ Itoa (ID osd) +:+ " on " +:+ place);
  _ ← wrapM (CreateDeployment_ d) "failed to create deployment for OSD %d on %s" [Itoa (ID osd); place];
  if MultiClusterService c then
    '(osd, updatedDeployment) ← build (set_ExportService true osd);
    d ← wrapM (lift updatedDeployment) "failed to update external IP in deployment for OSD %d on %s" [Itoa (ID osd); place];
    _ ← wrapM (CreateOrUpdateDeployment d) "failed to update osd %d deployment args with external IP" [Itoa (ID osd)];
    mret ()
  else mret ().

Definition createDaemonOnPVC (osd : OSDInfo) (pvcName : string) : MW W unit :=
  createDaemonOn (fun osd => deploymentOnPVC c osd pvcName) osd ("PVC " +:+ pvcName).

Definition createDaemonOnNode (osd : OSDInfo) (nodeName : string) : MW W unit :=
  createDaemonOn (fun osd => deploymentOnNode c osd nodeName) osd ("node " +:+ nodeName).

(** Whether the OSD is to be created: its deployment does not exist, or was the marker of a
    replacement and is deleted now. *)
Definition ready_to_create (cc : createConfig) (osdID : Z) : MW W (result bool) :=
  if existence_Exists (cr_deployments cc) osdID then
    r ← try_ (replacementReadyForSwap c osdID);
    match r with
    | Err err => mret (Err err)
    | Ok false => mret (Ok false)
    | Ok true =>
        d ← try_ (deleteOSDDeployment c osdID);
        match d with Err err => mret (Err err) | Ok _ => mret (Ok true) end
    end
  else mret (Ok true).

Definition first_cephx : CephxStatus :=
  UpdatedCephxStatus false (CephXDaemon c) (clusterVersion c) UninitializedCephxStatus CephxKeyTypeUndefined.

Definition create_osd (cc : createConfig) (onPVC : bool) (nodeOrPVCName : string) (errs : provisionErrors) (osd : OSDInfo) :
    MW W provisionErrors :=
  ready ← ready_to_create cc (ID osd);
  match ready with
  | Err _ => mret (addError errs "failed to check if replaced OSD %d is ready to recreate" [Itoa (ID osd)])
  | Ok false => mret errs
  | Ok true =>
      let osd := set_info_CephxStatus first_cephx osd in
      r ← try_ (if onPVC then createDaemonOnPVC osd nodeOrPVCName else createDaemonOnNode osd nodeOrPVCName);
      match r with
      | Err _ => mret (addError errs "failed to create OSD %d on %s" [Itoa (ID osd); nodeOrPVCName])
      | Ok _ => mret errs
      end
  end.

Fixpoint create_osds (cc : createConfig) (onPVC : bool) (nodeOrPVCName : string) (errs : provisionErrors)
    (osds : list OSDInfo) : MW W provisionErrors :=
  match osds with
  | [] => mret errs
  | osd :: osds => errs ← create_osd cc onPVC nodeOrPVCName errs osd; create_osds cc onPVC nodeOrPVCName errs osds
  end.

Definition createNewOSDsFromStatus (cc : createConfig) (status : OrchestrationStatus) (nodeOrPVCName : string)
    (errs : provisionErrors) : MW W (createConfig * provisionErrors) :=
  let name := statusConfigMapName nodeOrPVCName in
  if negb (bool_decide (name ∈ awaitingStatusConfigMaps cc)) then mret (cc, errs)
  else if bool_decide (name ∈ finishedStatusConfigMaps cc) then mret (cc, errs)
  else
    errs ← create_osds cc (PvcBackedOSD status) nodeOrPVCName errs (status_OSDs status);
    mret (doneWithStatus cc nodeOrPVCName, errs).

(** ** The loop ([status.go]) *)

Definition parseOrchestrationStatus (data : gmap string string) : option OrchestrationStatus :=
  data !! orchestrationStatusKey ≫= json_orchestration.

Definition ClearStore (name : string) : MW W unit :=
  r ← try_ (delete_configmap name);
  match r with
  | Err err => if IsNotFound err then mret () else fail err
  | Ok _ => mret ()
  end.

Definition deleteStatusConfigMap (nodeOrPVCName : string) : MW W unit :=
  _ ← try_ (ClearStore (statusConfigMapName nodeOrPVCName)); mret ().

Definition createOSDsForStatusMap (cc : createConfig) (errs : provisionErrors) (configMap : LabelledMap) :
    MW W (createConfig * provisionErrors) :=
  match map_labels configMap !! nodeLabelKey with
  | None => mret (cc, errs)
  | Some nodeOrPVCName =>
      match parseOrchestrationStatus (map_data configMap) with
      | None => mret (cc, errs)
      | Some status =>
          if String.eqb (status_Status status) OrchestrationStatusCompleted then
            '(cc, errs) ← createNewOSDsFromStatus cc status nodeOrPVCName errs;
            _ ← deleteStatusConfigMap nodeOrPVCName;
            mret (cc, errs)
          else if String.eqb (status_Status status) OrchestrationStatusFailed then
            let cc := doneWithStatus cc nodeOrPVCName in
            let errs := addError errs "failed to provision OSD(s) on %s %s. %+v" [nodeOrPVCName] in
            _ ← deleteStatusConfigMap nodeOrPVCName;
            mret (cc, errs)
          else mret (cc, errs)
      end
  end.

Fixpoint create_for_maps (cc : createConfig) (errs : provisionErrors) (maps : list LabelledMap) :
    MW W (createConfig * provisionErrors) :=
  match maps with
  | [] => mret (cc, errs)
  | m :: maps => '(cc, errs) ← createOSDsForStatusMap cc errs m; create_for_maps cc errs maps
  end.

(** The two configurations and the errors, which the loop passes by reference. *)
Record Progress := { creating : createConfig; updating : updateConfig; errors : provisionErrors }.

(** The progress at the last minute tick that saw one, and its time. *)
Record Ticker := { prevCreatedCount : Z; prevUpdatedCount : Z; prevChangeTime : Z }.

Definition maxTimeForProcessingOSDs : Z := 20.

(** The new ticker, or the error that ends the loop. *)
Definition minute_tick (p : Progress) (t : Ticker) : MW W (Ticker + gerror) :=
  let '(created, _) := create_progress (creating p) in
  let '(updated, _) := update_progress (updating p) in
  t ← (if negb (created =? prevCreatedCount t) || negb (updated =? prevUpdatedCount t)
       then time ← now; mret {| prevCreatedCount := created; prevUpdatedCount := updated; prevChangeTime := time |}
       else mret t);
  time ← now;
  if maxTimeForProcessingOSDs * (60 * Second) <? time - prevChangeTime t
  then mret (inr (Errorf "aborting OSD provisioning after waiting more than %d minutes for OSDs to finish processing"
                    [Itoa maxTimeForProcessingOSDs]))
  else mret (inl t).

(** How the loop ends: it is to be restarted or not, with an error or not; or it did not end within
    [fuel] rounds. *)
Inductive Ended := Returned (p : Progress) (shouldRestart : bool) (err : option gerror) | OutOfFuel (p : Progress).

Fixpoint select_loop (fuel : nat) (p : Progress) (t : Ticker) : MW W Ended :=
  if doneUpdating (updating p) && doneCreating (creating p) then mret (Returned p false None)
  else match fuel with
  | O => mret (OutOfFuel p)
  | S fuel =>
      s ← select;
      match s with
      | ChannelClosed => mret (Returned p true None)
      | Watched type object =>
          if negb (isAddOrModifyEvent type) then select_loop fuel p t
          else match object with
          | None => select_loop fuel p t
          | Some configMap =>
              '(cc, errs) ← createOSDsForStatusMap (creating p) (errors p) configMap;
              select_loop fuel {| creating := cc; updating := updating p; errors := errs |} t
          end
      | UpdateTick =>
          '(u, errs) ← updateExistingOSDs (updating p) (errors p);
          select_loop fuel {| creating := creating p; updating := u; errors := errs |} t
      | MinuteTick =>
          r ← minute_tick p t;
          match r with
          | inr err => mret (Returned p false (Some err))
          | inl t => select_loop fuel p t
          end
      | ContextDone err => mret (Returned p false (Some err))
      end
  end.

Definition updateAndCreateOSDsLoop (fuel : nat) (p : Progress) : MW W Ended :=
  l ← try_ (list_configmaps statusConfigMapSelector);
  match l with
  | Err err => mret (Returned p false (Some (Wrapf err "failed to list OSD provisioning status ConfigMaps" [])))
  | Ok maps =>
      '(cc, errs) ← create_for_maps (creating p) (errors p) maps;
      let p := {| creating := cc; updating := updating p; errors := errs |} in
      w ← try_ (watch_configmaps statusConfigMapSelector);
      match w with
      | Err err => mret (Returned p false (Some (Wrapf err "failed to start watching OSD provisioning status ConfigMaps" [])))
      | Ok _ =>
          time ← now;
          select_loop fuel p {| prevCreatedCount := 0; prevUpdatedCount := 0; prevChangeTime := time |}
      end
  end.

(** [restarts] bounds how often the watch is started again. *)
Fixpoint updateAndCreateOSDs (restarts fuel : nat) (p : Progress) : MW W Ended :=
  e ← updateAndCreateOSDsLoop fuel p;
  match e, restarts with
  | Returned p true _, S restarts => updateAndCreateOSDs restarts fuel p
  | Returned p true _, O => mret (OutOfFuel p)
  | e, _ => mret e
  end.

(** ** Migration ([migrate.go]) *)

Definition CephDeviceSetLabelKey : string := "ceph.rook.io/DeviceSet".

Definition OSDMigrationConfirmation : string := "yes-really-migrate-osds".

Definition OSDUpdateStoreConfirmation : string := "yes-really-update-store".

Definition OSDMigrationConfigName : string := "osd-migration-config".

Definition OSDIdKey : string := "osdID".

(** The OSDs that need a migration, by their ID. *)
Abbreviation migrationConfig := (gmap Z OSDInfo) (only parsing).

(** The setting of the last device set with this name; no device set has no encryption. *)
Definition requested_encryption (name : string) : bool :=
  foldl (fun b s => if String.eqb (set_name s) name then set_encrypted s else b) false (StorageClassDeviceSets (Storage c)).

Definition needs_encryption_change (d : Deployment) : bool :=
  negb (Bool.eqb (requested_encryption (Disruption.read (dep_labels d) CephDeviceSetLabelKey))
                 (String.eqb (Disruption.read (dep_labels d) "encrypted") "true")).

Definition needs_store_change (d : Deployment) : bool :=
  match dep_labels d !! osdStore with
  | Some store => negb (String.eqb store (GetOSDStore (Storage c)))
  | None => false
  end.

(** One pass over the deployments, for the encryption or for the store. *)
Fixpoint migrate_for (needs : Deployment -> bool) (m : migrationConfig) (l : list Deployment) : MW W migrationConfig :=
  match l with
  | [] => mret m
  | d :: l =>
      if needs d then
        osdInfo ← wrapM (getOSDInfo c d) "failed to details about the OSD %q" [dep_name d];
        migrate_for needs (match m !! ID osdInfo with Some _ => m | None => <[ID osdInfo := osdInfo]> m end) l
      else migrate_for needs m l
  end.

Definition migrateForEncryption : migrationConfig -> list Deployment -> MW W migrationConfig :=
  migrate_for needs_encryption_change.

Definition migrateForOSDStore : migrationConfig -> list Deployment -> MW W migrationConfig :=
  migrate_for needs_store_change.

Definition newMigrationConfig : MW W migrationConfig :=
  osdDeployments ← wrapM (getOSDDeployments c) "failed to get existing OSD deployments in namespace %q" [namespace c];
  m ← wrapM (migrateForEncryption ∅ osdDeployments)
        "failed to get OSDs that require migration due to change in encryption setting" [];
  wrapM (migrateForOSDStore m osdDeployments)
    "failed to get OSDs that require migration due to change in OSD Store type setting" [].

(** The entry the range visits first, and the others. *)
Definition getOSDToMigrate (m : migrationConfig) : MW W (OSDInfo * migrationConfig) :=
  n ← silent env_first;
  match map_to_list m !! (n mod size m)%nat with
  | Some (osdID, osdInfo) => mret (osdInfo, delete osdID m)
  | None => mret (empty_info, m)
  end.

Definition getOSDIds (m : migrationConfig) : list Z := (map_to_list m).*1.

Definition CreateOrUpdateConfigMap (cm : LabelledMap) : MW W unit :=
  r ← try_ (get_configmap (map_name cm));
  match r with
  | Err err =>
      if IsNotFound err then wrapM (create_configmap cm) "failed to create %q configmap" [map_name cm]
      else fail (Wrapf err "failed to retrieve %q configmap." [map_name cm])
  | Ok existingCm =>
      wrapM (update_configmap {| map_name := map_name existingCm; map_labels := map_labels existingCm;
                                 map_data := map_data cm |})
        "failed to update existing %q configmap" [map_name cm]
  end.

Definition saveMigrationConfig (osdID : Z) : MW W unit :=
  let newConfigMap := {| map_name := OSDMigrationConfigName; map_labels := ∅; map_data := {[ OSDIdKey := Itoa osdID ]} |} in
  _ ← wrapM (lift (set_controller_reference (W := W) newConfigMap)) "failed to set owner reference on %q configMap" [OSDMigrationConfigName];
  wrapM (CreateOrUpdateConfigMap newConfigMap) "failed to create or update %q configMap" [OSDMigrationConfigName].

(** An error other than not-found comes with an empty config map. *)
Definition getLastMigratedOSDId : MW W Z :=
  r ← try_ (get_configmap OSDMigrationConfigName);
  match r with
  | Err _ => mret (-1)
  | Ok cm =>
      match map_data cm !! OSDIdKey with
      | None => mret (-1)
      | Some osdID =>
          if String.eqb osdID "" then mret (-1)
          else match Atoi osdID with
               | Some id => mret id
               | None => fail (Errorf "failed to convert OSD id %q to integer." [osdID])
               end
      end
  end.

Definition isLastOSDMigrationComplete : MW W bool :=
  migratedOSDId ← wrapM getLastMigratedOSDId "failed to get last migrated OSD ID" [];
  if migratedOSDId =? -1 then mret true
  else
    r ← try_ (get_deployment (namespace c) ("rook-ceph-osd-" +:+ Itoa migratedOSDId));
    match r with
    | Err err => if IsNotFound err then mret false else mret true
    | Ok _ => mret true
    end.

Definition isMigrationRequested : bool :=
  String.eqb (MigrationConfirmation (Storage c)) OSDMigrationConfirmation ||
  String.eqb (UpdateStore (Storage c)) OSDUpdateStoreConfirmation.

Definition waitForHealthyPGInterval : Z := 10 * Second.

Definition waitForHealthyPGTimeout : Z := 15 * (60 * Second).

Definition waitForHealthyPGs : MW W bool :=
  '(_, err) ← RetryWithTimeout
                (fun _ : unit =>
                   r ← try_ IsClusterClean;
                   mret (match r with
                         | Ok pgClean => ((), pgClean, None)
                         | Err err => ((), false, Some (Wrapf err "failed to check pg are healthy" []))
                         end))
                waitForHealthyPGInterval waitForHealthyPGTimeout ();
  match err with
  | Some err => fail err
  | None => mret true
  end.

(** The OSDs that still wait for their migration, and the OSD that is migrated now. *)
Definition startOSDMigration (skip : gset string) : MW W (option migrationConfig * option OSDInfo) :=
  if negb isMigrationRequested then mret (None, None)
  else
    pgsHealthy ← wrapM waitForHealthyPGs "failed to wait for pgs to be healthy" [];
    if negb pgsHealthy then fail (Errorf "failed to start migration due to unhealthy PGs" [])
    else
      m ← wrapM newMigrationConfig "failed to get new OSD migration config" [];
      let m := filter (fun kv => Itoa kv.1 ∉ skip) m in
      migrationComplete ← wrapM isLastOSDMigrationComplete "failed to check if the last migration was successful or not" [];
      if negb migrationComplete then mret (Some m, None)
      else if bool_decide (m = ∅) then mret (Some m, None)
      else
        '(osdToMigrate, m) ← getOSDToMigrate m;
        _ ← wrapM (deleteOSDDeployment c (ID osdToMigrate)) "failed to delete deployment for osd.%d that needs migration %q"
              [Itoa (ID osdToMigrate); namespace c];
        _ ← wrapM (saveMigrationConfig (ID osdToMigrate)) "failed to save migrated OSD ID %din the config map"
              [Itoa (ID osdToMigrate)];
        mret (Some m, Some osdToMigrate).

(** ** Preparing the updates ([Start]) *)

(** [controller.GetDaemonsToSkipReconcile] *)
Definition GetDaemonsToSkipReconcile (daemonName label : string) : MW W (gset string) :=
  deployments ← wrapM (list_deployments (namespace c) (AppAttr +:+ "=" +:+ label +:+ "," +:+ SkipReconcileLabelKey))
                  "failed to query %q to skip reconcile" [daemonName];
  mret (list_to_set (omap (fun d => dep_labels d !! daemonName) deployments)).

(** From the requests for replacements to the configuration of the updates. *)
Definition prepare_updates : MW W (updateConfig * provisionErrors * option OSDInfo) :=
  _ ← try_ (processOSDReplacements c);
  s ← try_ (GetDaemonsToSkipReconcile OsdIdLabelKey AppName);
  let skip := match s with Ok skip => skip | Err _ => ∅ end in
  '(migration, migrateOSD) ← wrapM (startOSDMigration skip) "failed to start OSD migration" [];
  '(q, deployments, errs) ← wrapM (getOSDUpdateInfo [])
                              "failed to get information about currently-running OSD Deployments in namespace %q" [namespace c];
  let q := match migration with Some m => queue_Remove q (getOSDIds m) | None => q end in
  mret (newUpdateConfig q deployments skip, errs, migrateOSD).

End Rollout.

End OsdRollout.
