(* ===== verification/Devices.v ===== *)
(** * Devices: the block devices of a node

    Models [pkg/util/sys/device.go] and [pkg/clusterd/disk.go] (which devices a node has and what is
    known of them), and, of [pkg/daemon/ceph/osd], [device.go], the choice of devices in [daemon.go]
    ([getAvailableDevices]) and the wiping of devices in [volume.go].  The commands of the node are
    calls of the environment. *)

From stdpp Require Import base gmap strings list fin_maps.
From Stdlib Require Import ZArith Ascii.
From S2P Require Import Prelude CephVersion GoTime Topology Kube Disruption Upgrade Cephx OsdBase OsdSpec.
Import Log Version GoTime Kube Upgrade Cephx OsdBase OsdSpec.
Open Scope Z_scope.

Module Devices.

(** ** Strings and paths *)

(** [strings.Fields] on valid UTF-8: one round per byte *)
Fixpoint fields_loop (fuel : nat) (word s : string) : list string :=
  let emit l := if String.eqb word "" then l else word :: l in
  match fuel with
  | O => emit []
  | S fuel =>
      match s with
      | "" => emit []
      | String b s' =>
          match head (omap (fun p => strip_prefix p s) space_runes) with
          | Some s'' => emit (fields_loop fuel "" s'')
          | None => fields_loop fuel (word +:+ String b "") s'
          end
      end
  end.

Definition Fields (s : string) : list string := fields_loop (String.length s) "" s.

(** [path.Clean] of an absolute path *)
Definition clean_step (l : list string) (c : string) : list string :=
  if String.eqb c "" || String.eqb c "." then l
  else if String.eqb c ".." then removelast l
  else l ++ [c].

(** [path.Join("/dev", name)] *)
Definition dev_path (name : string) : string :=
  "/" +:+ Join (foldl clean_step ["dev"] (split_byte "/" name)) "/".

(** [path.Base] *)
Definition path_Base (s : string) : string :=
  if String.eqb s "" then "."
  else
    let s := TrimRight (Ascii.eqb "/") s in
    let s := default "" (last (split_byte "/" s)) in
    if String.eqb s "" then "/" else s.

(** [strings.ReplaceAll] of a byte by nothing *)
Fixpoint remove_byte (b : ascii) (s : string) : string :=
  match s with
  | "" => ""
  | String a s => if Ascii.eqb a b then remove_byte b s else String a (remove_byte b s)
  end.

Definition newline : ascii := "010".

Definition quote : ascii := "034".

(** [strconv.ParseUint] for base 10 and 64 bits *)
Definition ParseUint (s : string) : option Z :=
  match parse_digits s with
  | Some z => if z <? 2 ^ 64 then Some z else None
  | None => None
  end.

(** ** Data *)

Definition DiskType : string := "disk".

Definition SSDType : string := "ssd".

Definition PartType : string := "part".

Definition CryptType : string := "crypt".

Definition LVMType : string := "lvm".

Definition MultiPath : string := "mpath".

Definition LinearType : string := "linear".

Definition LoopType : string := "loop".

Definition CephLVPrefix : string := "ceph--".

(** Of a local disk, what the modelled functions read or set. *)
Record LocalDisk := {
  disk_Name : string;
  Parent : string;
  DevLinks : string;
  disk_Size : Z;
  disk_UUID : string;
  Serial : string;
  disk_Type : string;
  Rotational : bool;
  Readonly : bool;
  Filesystem : string;
  Mountpoint : string;
  Vendor : string;
  disk_Model : string;
  WWN : string;
  WWNVendorExtension : string;
  RealPath : string;
  KernelName : string;
}.

Definition set_Filesystem (v : string) (d : LocalDisk) : LocalDisk :=
  {| disk_Name := disk_Name d; Parent := Parent d; DevLinks := DevLinks d; disk_Size := disk_Size d; disk_UUID := disk_UUID d;
     Serial := Serial d; disk_Type := disk_Type d; Rotational := Rotational d; Readonly := Readonly d; Filesystem := v;
     Mountpoint := Mountpoint d; Vendor := Vendor d; disk_Model := disk_Model d; WWN := WWN d;
     WWNVendorExtension := WWNVendorExtension d; RealPath := RealPath d; KernelName := KernelName d |}.

Definition set_Type (v : string) (d : LocalDisk) : LocalDisk :=
  {| disk_Name := disk_Name d; Parent := Parent d; DevLinks := DevLinks d; disk_Size := disk_Size d; disk_UUID := disk_UUID d;
     Serial := Serial d; disk_Type := v; Rotational := Rotational d; Readonly := Readonly d; Filesystem := Filesystem d;
     Mountpoint := Mountpoint d; Vendor := Vendor d; disk_Model := disk_Model d; WWN := WWN d;
     WWNVendorExtension := WWNVendorExtension d; RealPath := RealPath d; KernelName := KernelName d |}.

(** ** Parsing ([device.go] of [sys]) *)

Definition resolveDevicePath (device : string) : string :=
  match split_byte "/" device with
  | [_] => "/dev/" +:+ device
  | _ => device
  end.

(** A key and a value: anything but exactly one equals sign is dropped. *)
Definition key_value (kvpRaw : string) : option (string * string) :=
  match split_byte "=" kvpRaw with
  | [k; v] => Some (k, remove_byte quote v)
  | _ => None
  end.

Definition parseKeyValuePairString (propsRaw : string) : gmap string string :=
  foldl (fun m kv => match key_value kv with Some (k, v) => <[k := v]> m | None => m end) ∅ (split_byte " " propsRaw).

Definition parseUdevInfo (output : string) : gmap string string :=
  foldl (fun m line => match split_byte "=" line with k :: v :: _ => <[k := v]> m | _ => m end) ∅
    (split_byte newline output).

Definition parseFS (output : string) : string := default "" (parseUdevInfo output !! "ID_FS_TYPE").

Definition GetDiskDeviceType (disk : LocalDisk) : string :=
  if Rotational disk then "hdd" else if Contains (RealPath disk) "nvme" then "nvme" else "ssd".

(** ** Supported devices ([disk.go]) *)

(** The regular expression [^(rbd|nbd|drbd|zram)[0-9]+p?[0-9]{0,}$]: after the digits an optional
    letter p and more digits *)
Fixpoint skip_digits (s : string) : string :=
  match s with
  | String b s' => if is_digit b then skip_digits s' else s
  | "" => ""
  end.

Definition numbered (s : string) : bool :=
  match s with
  | String b s' =>
      is_digit b &&
      (let rest := skip_digits s' in
       String.eqb rest "" || match strip_prefix "p" rest with Some r => String.eqb (skip_digits r) "" | None => false end)
  | "" => false
  end.

Definition ignoreDevice (d : string) : bool :=
  existsb (fun p => match strip_prefix p d with Some r => numbered r | None => false end) ["rbd"; "nbd"; "drbd"; "zram"].

(** ** The node *)

Record osdInfoBlock := {
  block_fsid : string;
  block_device : string;
  block_db : string;
  block_wal : string;
  block_osd : Z;
  block_uuid : string;
  block_type : string;
}.

(** The answers of the commands, the decoders of their JSON output, and the environment of the
    process.  The order in which the entries of a JSON object are visited is the decoder's. *)
Class NodeEnv (W : Type) := {
  node_osd :: OsdEnv W;
  env_exec : list string -> M W string;
  (** the first 128 bytes of a device *)
  env_read_device : string -> M W string;
  getenv : string -> string;
  (** [osexec.LookPath] finds the program *)
  look_path : string -> bool;
  (** [regexp.Match]; [None] when the expression cannot be compiled *)
  regexp_match : string -> string -> option bool;
  (** [uuid.Parse], printed again *)
  parse_uuid : string -> option string;
  (** the field [available] of [ceph-volume inventory] *)
  json_inventory : string -> option bool;
  (** the keys of [ceph-volume lvm list] *)
  json_lvm_keys : string -> option (list string);
  json_raw_list : string -> option (list osdInfoBlock);
  (** [os.MkdirAll] *)
  env_mkdir : string -> M W unit;
}.

Section Node.
Context {W : Type} `{NodeEnv W}.

Definition exec (cmd : list string) : MW W string := record (Exec cmd) (env_exec cmd).

(** *** [sys/device.go] *)

Definition ListDevices : MW W (list string) :=
  devices ← wrapM (exec ["lsblk"; "--all"; "--noheadings"; "--list"; "--output"; "KNAME"]) "failed to list all devices: %+v" [];
  mret (split_byte newline devices).

Definition GetDevicePropertiesFromPath (devicePath : string) : MW W (gmap string string) :=
  output ← exec ["lsblk"; devicePath; "--bytes"; "--nodeps"; "--pairs"; "--paths"; "--output";
                 "SIZE,ROTA,RO,TYPE,PKNAME,NAME,KNAME,MOUNTPOINT,FSTYPE"];
  mret (parseKeyValuePairString output).

Definition GetDeviceProperties (device : string) : MW W (gmap string string) :=
  GetDevicePropertiesFromPath (resolveDevicePath device).

Definition IsLV (devicePath : string) : MW W bool :=
  devProps ← wrapM (GetDevicePropertiesFromPath devicePath) "failed to get device properties for %q: %+v" [devicePath];
  match devProps !! "TYPE" with
  | None => fail (Errorf "TYPE property is not found for %q" [devicePath])
  | Some diskType => mret (String.eqb diskType LVMType)
  end.

Definition GetUdevInfo (device : string) : MW W (gmap string string) :=
  output ← exec ["udevadm"; "info"; "--query=property"; resolveDevicePath device];
  mret (parseUdevInfo output).

(** The first word of the line of the GUID that is a UUID; an in-memory table ends the search. *)
Fixpoint find_uuid (lines : list string) : option string :=
  match lines with
  | [] => None
  | line :: lines =>
      if Contains line "Creating new GPT entries in memory." then None
      else if Contains line "Disk identifier (GUID)" then
        match head (omap (parse_uuid (W := W)) (split_byte " " line)) with
        | Some u => Some u
        | None => find_uuid lines
        end
      else find_uuid lines
  end.

Definition parseUUID (device output : string) : result string :=
  match find_uuid (split_byte newline output) with
  | Some u => Ok u
  | None => Err (Errorf "uuid not found for device %s. output=%s" [device; output])
  end.

Definition GetDiskUUID (device : string) : MW W string :=
  if negb (look_path (W := W) "sgdisk") then fail (Errorf "sgdisk not found" [])
  else
    let device := resolveDevicePath device in
    output ← wrapM (exec ["sgdisk"; "--print"; device]) "sgdisk failed. output=%s" [];
    lift (parseUUID device output).

Definition inventoryDevice (devicePath : string) : MW W bool :=
  inventory ← wrapM (exec ["ceph-volume"; "inventory"; "--format"; "json"; devicePath])
                "failed to execute ceph-volume inventory on disk %q. %s. %v" [devicePath];
  unmarshal (json_inventory (W := W) inventory) "failed to unmarshal json data coming from ceph-volume inventory".

Definition isDeviceAvailable (devicePath : string) : MW W bool :=
  wrapM (inventoryDevice devicePath) "failed to determine if the device %q is available. %v" [devicePath].

Definition GetLVName (devicePath : string) : MW W string :=
  devInfo ← wrapM (exec ["dmsetup"; "info"; "-c"; "--noheadings"; "-o"; "name"; devicePath])
              "failed to execute dmsetup info for %q. %v" [devicePath];
  out ← wrapM (exec ["dmsetup"; "splitname"; "--noheadings"; devInfo]) "failed to execute dmsetup splitname for %q. %v" [devInfo];
  match split_byte ":" out with
  | vg :: lv :: _ => mret (vg +:+ "/" +:+ lv)
  | _ => fail (Errorf "dmsetup splitname returned unexpected result for %q. output: %q" [devInfo; out])
  end.

Definition lvmList (lv : string) : MW W (list string) :=
  output ← wrapM (exec ["ceph-volume"; "lvm"; "list"; "--format"; "json"; lv])
             "failed to execute ceph-volume lvm list on LV %q. %v" [lv];
  unmarshal (json_lvm_keys (W := W) output) "error unmarshalling json data coming from ceph-volume lvm list".

Definition isLVAvailable (devicePath : string) : MW W bool :=
  lv ← wrapM (GetLVName devicePath) "failed to get the LV name for the device %q. %v" [devicePath];
  l ← wrapM (lvmList lv) "failed to determine if the device %q is available. %v" [devicePath];
  mret (match l with [] => true | _ => false end).

Definition CheckIfDeviceAvailable (devicePath : string) : MW W bool :=
  isLV ← wrapM (IsLV devicePath) "failed to determine if the device was LV. %v" [];
  wrapM (if (isLV : bool) then isLVAvailable devicePath else isDeviceAvailable devicePath)
    "failed to determine if the device was available. %v" [].

Definition ListDevicesChild (device : string) : MW W (list string) :=
  childListRaw ← wrapM (exec ["lsblk"; "--noheadings"; "--path"; "--list"; "--output"; "NAME"; device])
                   "failed to list child devices of %q. %v" [device];
  mret (split_byte newline childListRaw).

Definition IsDeviceEncrypted (device : string) : MW W bool :=
  deviceType ← wrapM (exec ["lsblk"; "--noheadings"; "--output"; "TYPE"; device]) "failed to get devices type of %q. %v" [device];
  mret (String.eqb deviceType "crypt").

(** *** [clusterd/disk.go] *)

Definition getAllowLoopDevices : bool := String.eqb (getenv (W := W) "CEPH_VOLUME_ALLOW_LOOP_DEVICES") "true".

Definition supportedDeviceType (device : string) : bool :=
  String.eqb device DiskType || String.eqb device SSDType || String.eqb device CryptType || String.eqb device LVMType ||
  String.eqb device MultiPath || String.eqb device PartType || String.eqb device LinearType ||
  (getAllowLoopDevices && String.eqb device LoopType).

Definition prop (props : gmap string string) (key : string) : string := default "" (props !! key).

(** The base of a property that is not empty. *)
Definition base_prop (props : gmap string string) (key : string) : string :=
  if String.eqb (prop props key) "" then "" else path_Base (prop props key).

Definition disk_of (d diskType diskUUID : string) (props : gmap string string) : LocalDisk :=
  {| disk_Name := d; Parent := base_prop props "PKNAME"; DevLinks := "";
     disk_Size := default 0 (props !! "SIZE" ≫= ParseUint); disk_UUID := diskUUID; Serial := ""; disk_Type := diskType;
     Rotational := default false (props !! "ROTA" ≫= ParseBool); Readonly := default false (props !! "RO" ≫= ParseBool);
     Filesystem := base_prop props "FSTYPE"; Mountpoint := base_prop props "MOUNTPOINT"; Vendor := ""; disk_Model := "";
     WWN := ""; WWNVendorExtension := ""; RealPath := prop props "NAME";
     KernelName := match props !! "KNAME" with Some v => path_Base v | None => "" end |}.

Definition PopulateDeviceInfo (d : string) : MW W LocalDisk :=
  diskProps ← GetDeviceProperties d;
  match diskProps !! "TYPE" with
  | None => fail (Errorf "diskType is empty" [])
  | Some diskType =>
      if negb (supportedDeviceType diskType) then fail (Errorf "unsupported diskType %+s" [diskType])
      else
        diskUUID ← (if String.eqb diskType DiskType
                    then r ← try_ (GetDiskUUID d); mret (match r with Ok uuid => uuid | Err _ => "" end)
                    else mret "");
        mret (disk_of d diskType diskUUID diskProps)
  end.

(** What udev knows replaces what was known. *)
Definition udev_disk (info : gmap string string) (d : LocalDisk) : LocalDisk :=
  let known old key := default old (info !! key) in
  {| disk_Name := disk_Name d; Parent := Parent d; DevLinks := known (DevLinks d) "DEVLINKS"; disk_Size := disk_Size d;
     disk_UUID := disk_UUID d; Serial := known (Serial d) "ID_SERIAL"; disk_Type := disk_Type d; Rotational := Rotational d;
     Readonly := Readonly d; Filesystem := known (Filesystem d) "ID_FS_TYPE"; Mountpoint := Mountpoint d;
     Vendor := known (Vendor d) "ID_VENDOR"; disk_Model := known (disk_Model d) "ID_MODEL"; WWN := known (WWN d) "ID_WWN";
     WWNVendorExtension := known (WWNVendorExtension d) "ID_WWN_WITH_EXTENSION"; RealPath := RealPath d;
     KernelName := KernelName d |}.

(** The disk is not changed when the information cannot be read. *)
Definition PopulateDeviceUdevInfo (d : string) (disk : LocalDisk) : MW W LocalDisk :=
  udevInfo ← GetUdevInfo d;
  mret (udev_disk udevInfo disk).

Definition deviceMatchWithFilter (device filter metaDevice : string) : bool :=
  if String.eqb filter "all" || String.eqb device metaDevice then true
  else if Contains device "dm-" then true
  else match regexp_match (W := W) filter device with Some b => b | None => false end.

(** One device of the discovery: [None] when it is skipped. *)
Definition discover_device (deviceFilter metaDevice d : string) : MW W (option LocalDisk) :=
  if ignoreDevice d then mret None
  else if negb (String.eqb deviceFilter "") && negb (deviceMatchWithFilter d deviceFilter metaDevice) then mret None
  else
    r ← try_ (PopulateDeviceInfo d);
    match r with
    | Err _ => mret None
    | Ok disk =>
        u ← try_ (PopulateDeviceUdevInfo d disk);
        let disk := match u with Ok disk' => disk' | Err _ => disk end in
        if String.eqb (disk_Type disk) DiskType then
          ch ← try_ (ListDevicesChild ("/dev/" +:+ d));
          match ch with
          | Ok (_ :: _ :: _) => mret None
          | _ => mret (Some disk)
          end
        else mret (Some disk)
    end.

Fixpoint discover_devices (deviceFilter metaDevice : string) (devices : list string) : MW W (list LocalDisk) :=
  match devices with
  | [] => mret []
  | d :: devices =>
      o ← discover_device deviceFilter metaDevice d;
      disks ← discover_devices deviceFilter metaDevice devices;
      mret (option_list o ++ disks)
  end.

Definition DiscoverDevicesWithFilter (deviceFilter metaDevice : string) : MW W (list LocalDisk) :=
  devices ← ListDevices;
  discover_devices deviceFilter metaDevice devices.

End Node.


(** ** The agent ([agent.go], [device.go]) *)

Definition unassignedOSDID : Z := -1.

Record DesiredDevice := {
  desired_Name : string;
  desired_OSDsPerDevice : Z;
  desired_MetadataDevice : string;
  desired_DatabaseSizeMB : Z;
  desired_DeviceClass : string;
  desired_InitialWeight : string;
  desired_EncryptedDevice : bool;
  IsFilter : bool;
  IsDevicePathFilter : bool;
}.

Definition no_desired : DesiredDevice :=
  {| desired_Name := ""; desired_OSDsPerDevice := 0; desired_MetadataDevice := ""; desired_DatabaseSizeMB := 0;
     desired_DeviceClass := ""; desired_InitialWeight := ""; desired_EncryptedDevice := false; IsFilter := false;
     IsDevicePathFilter := false |}.

Definition with_device_class (d : DesiredDevice) (class : string) : DesiredDevice :=
  {| desired_Name := desired_Name d; desired_OSDsPerDevice := desired_OSDsPerDevice d;
     desired_MetadataDevice := desired_MetadataDevice d; desired_DatabaseSizeMB := desired_DatabaseSizeMB d;
     desired_DeviceClass := class; desired_InitialWeight := desired_InitialWeight d;
     desired_EncryptedDevice := desired_EncryptedDevice d; IsFilter := IsFilter d; IsDevicePathFilter := IsDevicePathFilter d |}.

(** [Metadata] is [None] for a nil slice: the device is not reserved for metadata. *)
Record DeviceOsdIDEntry := {
  entry_Data : Z;
  entry_Metadata : option (list Z);
  entry_Config : DesiredDevice;
  PersistentDevicePaths : list string;
  DeviceInfo : LocalDisk;
}.

Record OsdAgent := {
  FSID : string;
  agent_nodeName : string;
  agent_devices : list DesiredDevice;
  metadataDevice_ : string;
  storeConfig_ : StoreConfig;
  pvcBacked : bool;
  migrateOSD : option OSDInfo;
  wipeDevicesFromOtherClusters : bool;
  agent_version : CephVersion;   (* of the cluster *)
}.

Definition pvcDataTypeDevice : string := "data".

Definition pvcMetadataTypeDevice : string := "metadata".

Definition pvcWalTypeDevice : string := "wal".

Definition bluestoreSignature : string := "bluestore block device".

(** ** LUKS headers ([encryption.go]) *)

(** The first match of the regular expression: what follows [ceph_fsid=] on its line *)
Fixpoint find_fsid (s : string) : option string :=
  match strip_prefix "ceph_fsid=" s with
  | Some rest => head (split_byte newline rest)
  | None => match s with "" => None | String _ s => find_fsid s end
  end.

(** What follows the first equals sign, up to and including the next one. *)
Definition luks_fsid (metadata : string) : option string :=
  (fun rest => match split_byte "=" rest with
               | a :: _ :: _ => a +:+ "="
               | _ => rest
               end) <$> find_fsid metadata.

Definition DmcryptBlockType : string := "block-dmcrypt".

Definition EncryptionDMName (pvcName blockType : string) : string := pvcName +:+ "-" +:+ blockType.

Definition EncryptionDMPath (pvcName blockType : string) : string :=
  "/" +:+ Join (foldl clean_step ["dev"; "mapper"] (split_byte "/" (EncryptionDMName pvcName blockType))) "/".

(** A line of the first 128 bytes, and what follows it. *)
Fixpoint read_line (s : string) : option (string * string) :=
  match s with
  | "" => None
  | String b s =>
      if Ascii.eqb b newline then Some ("", s)
      else (fun lr => (String b lr.1, lr.2)) <$> read_line s
  end.

Section Agent.
Context {W : Type} `{NodeEnv W} (a : OsdAgent).

Definition dumpLUKS (disk : string) : MW W string :=
  wrapM (exec ["cryptsetup"; "luksDump"; disk]) "failed to dump LUKS header for disk %q. %s" [disk].

Definition isCephEncryptedBlock (disk : string) : MW W bool :=
  r ← try_ (dumpLUKS disk);
  mret (match r with Ok metadata => bool_decide (luks_fsid metadata = Some (FSID a)) | Err _ => false end).

Definition RemoveEncryptedDevice (target : string) : MW W unit :=
  _ ← wrapM (exec ["dmsetup"; "remove"; "--force"; target]) "failed to remove dm device %q: %q" [target]; mret ().

Definition CloseEncryptedDevice (dmName : string) : MW W unit :=
  _ ← wrapM (exec ["cryptsetup"; "--verbose"; "luksClose"; dmName]) "failed to close encrypted device. %s" []; mret ().

Definition openEncryptedDevice (disk target : string) : MW W unit :=
  _ ← wrapM (exec ["cryptsetup"; "luksOpen"; "--verbose"; "--allow-discards"; disk; target])
        "failed to open encrypted device %q" [disk];
  mret ().

Definition setLUKSLabelAndSubsystem (disk : string) : MW W unit :=
  let pvcName := getenv (W := W) "ROOK_PVC_NAME" in
  if String.eqb pvcName "" then fail (Errorf "failed to find %q environment variable" ["ROOK_PVC_NAME"])
  else
    _ ← wrapM (exec ["cryptsetup"; "config"; disk; "--subsystem"; "ceph_fsid=" +:+ FSID a; "--label"; "pvc_name=" +:+ pvcName])
          "failed to set subsystem %q and label %q to encrypted device %q" [disk];
    mret ().

(** ** Wiping devices ([volume.go]) *)

Definition cephVolumeTmpLogDir : string := "/tmp/ceph-log".

Definition callCephVolume (args : list string) : MW W string :=
  _ ← wrapM (silent (env_mkdir cephVolumeTmpLogDir)) "failed to create dir %q" [cephVolumeTmpLogDir];
  wrapM (exec (["stdbuf"; "-oL"; "ceph-volume"; "--log-path"; cephVolumeTmpLogDir] ++ args))
    "failed ceph-volume call (see ceph-volume log above for more details)" [].

Definition unmountDevice (devicePath : string) : MW W unit :=
  _ ← wrapM (exec ["umount"; devicePath]) "failed to unmount %q: %s" [devicePath]; mret ().

Definition ZapDevice (devicePath : string) : MW W unit :=
  _ ← try_ (exec ["stdbuf"; "-oL"; "ceph-volume"; "lvm"; "zap"; devicePath]);
  _ ← try_ (unmountDevice devicePath);
  _ ← wrapM (exec ["wipefs"; "--all"; devicePath]) "failed to wipefs on %q: %s" [devicePath];
  _ ← try_ (exec ["ceph-bluestore-tool"; "zap-device"; "--dev"; devicePath; "--yes-i-really-really-mean-it"]);
  _ ← wrapM (exec ["dd"; "if=/dev/zero"; "of=" +:+ devicePath; "bs=1M"; "count=10"; "conv=fsync"])
        "failed to zero device %q: %s" [devicePath];
  mret ().

Fixpoint find_backing (lines : list string) : option string :=
  match lines with
  | [] => None
  | line :: lines =>
      let line := TrimSpace line in
      if HasPrefix line "device:" then match Fields line with [_; d] => Some d | _ => find_backing lines end
      else find_backing lines
  end.

Definition GetBackingDeviceForEncryptedBlock (disk : string) : MW W string :=
  output ← wrapM (exec ["cryptsetup"; "status"; disk; "-v"]) "failed to run cryptsetup status on %s" [disk];
  match find_backing (split_byte newline output) with
  | Some d => mret d
  | None => fail (Errorf "failed to find backing device for encrypted block %q" [disk])
  end.

(** The index of the device of this node that carries an existing OSD, and its encrypted block. *)
Definition is_disk (existingOSDDevice : string) (d : LocalDisk) : bool :=
  String.eqb (RealPath d) existingOSDDevice || existsb (String.eqb existingOSDDevice) (split_byte " " (DevLinks d)).

Definition getOSDDiskToBeWiped (devices : list LocalDisk) (existingOSDDevice : string) : MW W (option nat * string) :=
  let lookup device := fst <$> list_find (fun d => is_disk device d = true) devices in
  if Contains existingOSDDevice "mapper" then
    r ← try_ (GetBackingDeviceForEncryptedBlock existingOSDDevice);
    mret (match r with
          | Err _ => (None, "")
          | Ok device => (lookup device, existingOSDDevice)
          end)
  else mret (lookup existingOSDDevice, "").

(** The devices are shared objects: a wiped one has no file system any more. *)
Definition clear_filesystem (devices : list LocalDisk) (i : nat) : list LocalDisk := alter (set_Filesystem "") i devices.

Definition wipe_osd (devices : list LocalDisk) (existingOSD : osdInfoBlock) : MW W (list LocalDisk) :=
  if String.eqb (block_fsid existingOSD) (FSID a) then mret devices
  else
    '(osdDisk, encryptedBlock) ← getOSDDiskToBeWiped devices (block_device existingOSD);
    match osdDisk ≫= fun i => (fun d => (i, d)) <$> devices !! i with
    | None => mret devices
    | Some (i, d) =>
        r ← (if String.eqb encryptedBlock "" then mret (Ok ()) else try_ (RemoveEncryptedDevice encryptedBlock));
        match r with
        | Err _ => mret devices
        | Ok _ =>
            _ ← wrapM (ZapDevice (RealPath d)) "failed to zap osd.%d path %q" [Itoa (block_osd existingOSD); RealPath d];
            mret (clear_filesystem devices i)
        end
    end.

Fixpoint wipe_osds (devices : list LocalDisk) (osds : list osdInfoBlock) : MW W (list LocalDisk) :=
  match osds with
  | [] => mret devices
  | osd :: osds => devices ← wipe_osd devices osd; wipe_osds devices osds
  end.

(** The disks from the [i]th on.  A header that cannot be read, or that names no cluster, ends the
    search. *)
Fixpoint wipe_encrypted (n i : nat) (devices : list LocalDisk) : MW W (list LocalDisk) :=
  match n, devices !! i with
  | S n, Some disk =>
      if String.eqb (Filesystem disk) "crypto_LUKS" then
        r ← try_ (dumpLUKS (disk_Name disk));
        match r with
        | Err _ => mret devices
        | Ok metadata =>
            match luks_fsid metadata with
            | None => mret devices
            | Some fsid =>
                if String.eqb fsid (FSID a) then wipe_encrypted n (S i) devices
                else
                  _ ← wrapM (ZapDevice (RealPath disk)) "failed to zap encrypted disk with different ceph cluster %q" [RealPath disk];
                  wipe_encrypted n (S i) (clear_filesystem devices i)
            end
        end
      else wipe_encrypted n (S i) devices
  | _, _ => mret devices
  end.

Definition wipeEncryptedDevicesFromOtherClusters (devices : list LocalDisk) : MW W (list LocalDisk) :=
  wipe_encrypted (length devices) 0 devices.

Definition WipeDevicesFromOtherClusters (devices : list LocalDisk) : MW W (list LocalDisk) :=
  result ← wrapM (callCephVolume ["raw"; "list"; "--format"; "json"]) "failed to retrieve ceph-volume raw list results" [];
  existingOSDs ← unmarshal (json_raw_list (W := W) result) "failed to unmarshal ceph-volume raw list results";
  match existingOSDs with
  | [] => wrapM (wipeEncryptedDevicesFromOtherClusters devices) "failed to clean up encrypted disks from other clusters" []
  | _ => wipe_osds devices existingOSDs
  end.

End Agent.


(** ** OSDs in raw mode ([volume.go]) *)

Definition findDeviceClass (devices : list DesiredDevice) (blockPath kernelName devLinks : string) : string :=
  let short := default blockPath (strip_prefix "/dev/" blockPath) in
  let hit d :=
    negb (IsFilter d || IsDevicePathFilter d || String.eqb (desired_DeviceClass d) "" || String.eqb (desired_Name d) "") &&
    (let shortName := default (desired_Name d) (strip_prefix "/dev/" (desired_Name d)) in
     (negb (String.eqb shortName "") && (String.eqb shortName short || String.eqb shortName kernelName)) ||
     (HasPrefix (desired_Name d) "/dev/" && negb (String.eqb devLinks "") &&
      existsb (String.eqb (desired_Name d)) (Fields devLinks))) in
  match List.find hit devices with Some d => desired_DeviceClass d | None => "" end.

Section Raw.
Context {W : Type} `{NodeEnv W} (a : OsdAgent).

Definition isOnPVC : bool := String.eqb (getenv (W := W) "ROOK_PVC_BACKED_OSD") "true".

Definition isEncrypted : bool := String.eqb (getenv (W := W) "ROOK_ENCRYPTED_DEVICE") "true".

Definition passphrase : string := getenv (W := W) "CEPH_VOLUME_DMCRYPT_SECRET".

Definition pvcName_ : string := getenv (W := W) "ROOK_PVC_NAME".

Definition GetDiskDeviceClass (deviceType : string) : string :=
  let crushDeviceClass := getenv (W := W) "ROOK_OSD_CRUSH_DEVICE_CLASS" in
  if String.eqb crushDeviceClass "" then deviceType else crushDeviceClass.

(** The block to list: for an encrypted block of this cluster the opened device. *)
Definition resolve_block (block : string) : MW W string :=
  if String.eqb block "" then mret block
  else
    encrypted ← isCephEncryptedBlock a block;
    if negb encrypted then mret block
    else
      childDevice ← ListDevicesChild block;
      encryptedBlock ←
        (match List.find (fun d => Contains d "-dmcrypt") childDevice with
         | Some d => mret d
         | None =>
             if String.eqb passphrase "" then fail (Errorf "encryption passphrase is empty in env var %q" [])
             else if String.eqb pvcName_ "" then fail (Errorf "pvc name is empty in env var %q" [])
             else
               let target := EncryptionDMName pvcName_ DmcryptBlockType in
               _ ← try_ (RemoveEncryptedDevice target);
               _ ← wrapM (openEncryptedDevice block target) "failed to open encrypted block device %q on %q" [block; target];
               mret (EncryptionDMPath pvcName_ DmcryptBlockType)
         end);
      isDeviceEncrypted ← IsDeviceEncrypted encryptedBlock;
      mret (if (isDeviceEncrypted : bool) then encryptedBlock else block).

(** The type and class of the device of an OSD. *)
Definition classify (devices : list DesiredDevice) (osd : OSDInfo) : MW W OSDInfo :=
  diskInfo ← wrapM (PopulateDeviceInfo (BlockPath osd)) "failed to get device info for %q" [BlockPath osd];
  let deviceType := GetDiskDeviceType diskInfo in
  let osd := set_DeviceClass (GetDiskDeviceClass deviceType) (set_DeviceType deviceType osd) in
  match devices with
  | [] => mret osd
  | _ =>
      u ← try_ (PopulateDeviceUdevInfo (BlockPath osd) diskInfo);
      let diskInfo := match u with Ok d => d | Err _ => diskInfo end in
      let dc := findDeviceClass devices (BlockPath osd) (KernelName diskInfo) (DevLinks diskInfo) in
      mret (if String.eqb dc "" then osd else set_DeviceClass dc osd)
  end.

Definition close_if_any (dmName : string) (osdID : Z) : MW W unit :=
  if String.eqb dmName "" then mret ()
  else wrapM (CloseEncryptedDevice dmName) "failed to close encrypted device %q for osd %d" [dmName; Itoa osdID].

Definition close_encrypted (block metadataBlock walBlock : string) (osdID : Z) : MW W unit :=
  let mainBlock := "/mnt/" +:+ pvcName_ in
  ours ← isCephEncryptedBlock a mainBlock;
  _ ← (if (ours : bool) then mret ()
       else wrapM (setLUKSLabelAndSubsystem a mainBlock)
              "failed to set subsystem and label to encrypted device %q for osd %d" [mainBlock; Itoa osdID]);
  _ ← close_if_any block osdID;
  _ ← close_if_any metadataBlock osdID;
  close_if_any walBlock osdID.

(** One entry of the list: [None] when it is skipped. *)
Definition raw_osd (fromList : bool) (block metadataBlock walBlock : string) (lvBackedPV skipDeviceClass : bool)
    (devices : list DesiredDevice) (info : osdInfoBlock) : MW W (option OSDInfo) :=
  if negb (String.eqb (block_fsid info) (FSID a)) then
    if isOnPVC then fail (Errorf "osd.%d: %q belonging to a different ceph cluster %q" [Itoa (block_osd info)]) else mret None
  else if String.eqb (block_uuid info) "" then
    if isOnPVC then fail (Errorf "no instance of osd.%d is running on ceph cluster %q" [Itoa (block_osd info)]) else mret None
  else
    let blockPath := if fromList then block_device info else block in
    let osd :=
      {| ID := block_osd info; OSDCluster := "ceph"; UUID := block_uuid info; DevicePartUUID := ""; DeviceClass := "";
         BlockPath := blockPath; MetadataPath := if fromList then block_db info else metadataBlock;
         WalPath := if fromList then block_wal info else walBlock; SkipLVRelease := true; Location := "";
         LVBackedPV := lvBackedPV; CVMode := "raw"; Store := block_type info; TopologyAffinity := "";
         Encrypted := Contains blockPath "-dmcrypt"; ExportService := false; NodeName := ""; PVCName := ""; DeviceType := "";
         info_CephxStatus := empty_status |} in
    osd ← (if skipDeviceClass then mret osd else classify devices osd);
    _ ← (if Encrypted osd && negb (String.eqb passphrase "") then close_encrypted block metadataBlock walBlock (ID osd)
         else mret ());
    mret (Some osd).

Fixpoint raw_osds (fromList : bool) (block metadataBlock walBlock : string) (lvBackedPV skipDeviceClass : bool)
    (devices : list DesiredDevice) (l : list osdInfoBlock) : MW W (list OSDInfo) :=
  match l with
  | [] => mret []
  | info :: l =>
      o ← raw_osd fromList block metadataBlock walBlock lvBackedPV skipDeviceClass devices info;
      osds ← raw_osds fromList block metadataBlock walBlock lvBackedPV skipDeviceClass devices l;
      mret (option_list o ++ osds)
  end.

Definition GetCephVolumeRawOSDs (block metadataBlock walBlock : string) (lvBackedPV skipDeviceClass : bool)
    (devices : list DesiredDevice) : MW W (list OSDInfo) :=
  block ← resolve_block block;
  let fromList := String.eqb block "" in
  result ← wrapM (callCephVolume (["raw"; "list"] ++ (if fromList then [] else [block]) ++ ["--format"; "json"]))
             "failed to retrieve ceph-volume %s list results" ["raw"];
  l ← unmarshal (json_raw_list (W := W) result) "failed to unmarshal ceph-volume %s list results";
  raw_osds fromList block metadataBlock walBlock lvBackedPV skipDeviceClass devices l.

(** ** The choice of devices ([daemon.go]) *)

Definition getOsdUUID (device : LocalDisk) : MW W string :=
  buffer ← record (ReadDevice (RealPath device)) (env_read_device (RealPath device));
  match read_line buffer with
  | None => mret ""
  | Some (signature, rest) =>
      if negb (String.eqb signature bluestoreSignature) then mret ""
      else match read_line rest with
           | None => fail (Errorf "failed to read OSD uuid from %q. %v" [disk_Name device])
           | Some (uuid, _) => mret uuid
           end
  end.

Definition UpdateDeviceClass (d : DesiredDevice) (device : LocalDisk) : DesiredDevice :=
  if negb (String.eqb (desired_DeviceClass d) "") then d
  else
    let class := if pvcBacked a then getenv (W := W) "ROOK_OSD_CRUSH_DEVICE_CLASS" else store_DeviceClass (storeConfig_ a) in
    with_device_class d (if String.eqb class "" then GetDiskDeviceType device else class).

Definition matchDevLinks (devLinks deviceName : string) : bool := existsb (String.eqb deviceName) (split_byte " " devLinks).

(** A path filter on the names of a device: whether one matches, and whether the last try failed. *)
Fixpoint match_paths (pattern : string) (pathnames : list string) : bool * bool :=
  match pathnames with
  | [] => (false, false)
  | p :: ps =>
      match regexp_match (W := W) pattern p with
      | Some true => (true, false)
      | Some false => match ps with [] => (false, false) | _ => match_paths pattern ps end
      | None => match ps with [] => (false, true) | _ => match_paths pattern ps end
      end
  end.

Definition is_volume (device : LocalDisk) : bool :=
  String.eqb (disk_Type device) LVMType || String.eqb (disk_Type device) LoopType.

(** A device that is named by the user. *)
Definition match_name (device : LocalDisk) (d : DesiredDevice) : bool :=
  let matched :=
    String.eqb (disk_Name device) (desired_Name d) || String.eqb (dev_path (disk_Name device)) (desired_Name d) ||
    (HasPrefix (desired_Name d) "/dev/" && matchDevLinks (DevLinks device) (desired_Name d)) in
  matched &&
  negb (String.eqb (disk_Type device) PartType && desired_EncryptedDevice d) &&
  negb (String.eqb (disk_Type device) LVMType &&
        (EncryptedDevice (storeConfig_ a) || desired_EncryptedDevice d || (1 <? desired_OSDsPerDevice d))).

(** The first desired device that matches, and whether the last filter was invalid. *)
Fixpoint match_desired (device : LocalDisk) (err : bool) (desired : list DesiredDevice) : bool * option DesiredDevice :=
  match desired with
  | [] => (err, None)
  | d :: desired =>
      if IsFilter d then
        if is_volume device then match_desired device err desired
        else match regexp_match (W := W) (desired_Name d) (disk_Name device) with
             | None => match_desired device true desired
             | Some true => (false, Some d)
             | Some false => match_desired device false desired
             end
      else if IsDevicePathFilter d then
        if is_volume device then match_desired device err desired
        else match match_paths (desired_Name d) (Fields (DevLinks device) ++ [dev_path (disk_Name device)]) with
             | (true, err) => (err, Some d)
             | (false, err) => match_desired device err desired
             end
      else if match_name device d then (err, Some d)
      else match_desired device err desired
  end.

Definition useAllDevices (desired : list DesiredDevice) : bool :=
  match desired with [d] => String.eqb (desired_Name d) "all" | _ => false end.

Definition entry_of (data : Z) (metadata : option (list Z)) (config : DesiredDevice) (paths : list string) (device : LocalDisk) :
    DeviceOsdIDEntry :=
  {| entry_Data := data; entry_Metadata := metadata; entry_Config := config; PersistentDevicePaths := paths; DeviceInfo := device |}.

(** What an available device is used for, if for anything. *)
Definition choose_entry (device : LocalDisk) : option DeviceOsdIDEntry :=
  let desired := agent_devices a in
  if negb (String.eqb (metadataDevice_ a) "") && String.eqb (metadataDevice_ a) (disk_Name device)
  then Some (entry_of unassignedOSDID (Some []) no_desired [] device)
  else if useAllDevices desired then
    if is_volume device then None else Some (entry_of unassignedOSDID None no_desired [] device)
  else
    match match_desired device false desired with
    | (false, Some d) =>
        let config := UpdateDeviceClass d device in
        let paths := Fields (DevLinks device) in
        Some (if String.eqb (disk_Type device) pvcWalTypeDevice then entry_of 0 (Some [2]) config paths device
              else if String.eqb (disk_Type device) pvcMetadataTypeDevice then entry_of 0 (Some [1]) config paths device
              else entry_of unassignedOSDID None config paths device)
    | _ => None
    end.

(** Whether the file system, or its lack, leaves the device free. *)
Definition unformatted (device : LocalDisk) : MW W bool :=
  if negb (String.eqb (Filesystem device) "") then
    if String.eqb (Filesystem device) "crypto_LUKS" && pvcBacked a then
      _ ← isCephEncryptedBlock a (disk_Name device); mret false
    else mret (String.eqb (Filesystem device) "mpath_member" && pvcBacked a)
  else
    r ← try_ (getOsdUUID device);
    mret (match r with Ok uuid => String.eqb uuid "" | Err _ => false end).

Definition device_available (device : LocalDisk) : MW W bool :=
  if pvcBacked a then
    r ← try_ (GetCephVolumeRawOSDs ("/mnt/" +:+ agent_nodeName a) (metadataDevice_ a) "" false true []);
    mret (match r with Ok [] => true | _ => false end)
  else
    r ← try_ (CheckIfDeviceAvailable (RealPath device));
    mret (match r with Ok isAvailable => isAvailable | Err _ => false end).

(** One device: itself, for a partition with what udev knows, and its entry. *)
Definition select_device (device : LocalDisk) : MW W (LocalDisk * option DeviceOsdIDEntry) :=
  if negb (String.eqb (Mountpoint device) "") then mret (device, None)
  else
    free ← unformatted device;
    if negb free then mret (device, None)
    else
      u ← (if String.eqb (disk_Type device) PartType then try_ (PopulateDeviceUdevInfo (disk_Name device) device)
           else mret (Ok device));
      match u with
      | Err _ => mret (device, None)
      | Ok device =>
          isAvailable ← device_available device;
          if negb isAvailable then mret (device, None)
          else if String.eqb (disk_Type device) PartType && EncryptedDevice (storeConfig_ a) then mret (device, None)
          else mret (device, choose_entry device)
      end.

(** Under which name an entry is kept: on a claim by its type. *)
Definition entry_name (device : LocalDisk) : option string :=
  if pvcBacked a then
    if bool_decide (disk_Type device ∈ [pvcDataTypeDevice; pvcMetadataTypeDevice; pvcWalTypeDevice])
    then Some (disk_Type device) else None
  else Some (disk_Name device).

Abbreviation DeviceOsdMapping := (gmap string DeviceOsdIDEntry) (only parsing).

Definition add_entry (available : DeviceOsdMapping) (device : LocalDisk) (entry : option DeviceOsdIDEntry) : DeviceOsdMapping :=
  match entry, entry_name device with
  | Some e, Some n => <[n := e]> available
  | _, _ => available
  end.

Fixpoint select_devices (available : DeviceOsdMapping) (devices : list LocalDisk) : MW W (list LocalDisk * DeviceOsdMapping) :=
  match devices with
  | [] => mret ([], available)
  | device :: devices =>
      '(device, entry) ← select_device device;
      '(devices, available) ← select_devices (add_entry available device entry) devices;
      mret (device :: devices, available)
  end.

Definition getAvailableDevices (devices : list LocalDisk) : MW W (list LocalDisk * DeviceOsdMapping) :=
  select_devices ∅ devices.

End Raw.


End Devices.
