(* ===== verification/Provision.v ===== *)
(** * Provision: the prepare job of an OSD node

    Models, of [pkg/daemon/ceph/osd], the rest of [volume.go] (preparing devices with ceph-volume and
    listing what was prepared), [init.go], [nsenter.go] and the bootstrap keyring; the run of the whole
    job is in file Prepare. *)

From stdpp Require Import base gmap strings list fin_maps.
From Stdlib Require Import ZArith Ascii.
From S2P Require Import Prelude CephVersion GoTime Topology Kube Disruption Upgrade Cephx OsdBase OsdSpec OsdReplace OsdRollout Devices.
Import Log Version GoTime Kube Upgrade Cephx OsdBase OsdSpec OsdReplace OsdRollout Devices.
Open Scope Z_scope.

Module Provision.

Abbreviation DeviceOsdMapping := (gmap string DeviceOsdIDEntry) (only parsing).

(** ** Data *)

Record osdTags := { tag_osd_fsid : string; tag_encrypted : string; tag_cluster_fsid : string; tag_crush_device_class : string }.

Record osdInfo_ := { info_path : string; info_tags : osdTags }.

(** One entry in the output of [ceph-volume lvm list <id>] *)
Record cvLVMListEntry := {
  lv_type : string;
  VGName : string;
  LVName : string;
  LVUUID : string;
  lv_path : string;
  lv_encrypted : string;
}.

Definition osdsPerDeviceFlag : string := "--osds-per-device".

Definition crushDeviceClassFlag : string := "--crush-device-class".

Definition encryptedFlag : string := "--dmcrypt".

Definition databaseSizeFlag : string := "--block-db-size".

Definition dbDeviceFlag : string := "--db-devices".

Definition cephVolumeMinDBSize : Z := 1024.

Definition blockDBFlag : string := "--block.db".

Definition blockDBSizeFlag : string := "--block.db-size".

Definition dataFlag : string := "--data".

Definition OrchestrationStatusOrchestrating : string := "orchestrating".

(** Further answers: the decoders of ceph-volume's lists and reports (a report as the paths of its
    database and its data) and of Ceph's keys, in which order a range visits the keys of a map, the
    files of the node, and the key management service, which puts the key of an encrypted claim into
    the environment. *)
Class ProvisionEnv (W : Type) := {
  provision_node :: NodeEnv W;
  json_lvm_osds : string -> option (list (string * list osdInfo_));
  json_lvm_entries : string -> option (gmap string (list cvLVMListEntry));
  json_reports : string -> option (list (string * string));
  env_visit : list string -> M W (list string);
  env_eval_symlinks : string -> M W string;
  json_auth_key : string -> option string;
  env_stat : string -> M W unit;
  env_read_file : string -> M W string;
  env_write_file : string -> string -> M W unit;
  env_set_kek : M W unit;
  env_set_status : string -> OrchestrationStatus -> M W unit;
}.

(** ** Modes of ceph-volume *)

Definition sanitizeOSDsPerDevice (count : Z) : string := Itoa (if count <? 1 then 1 else count).

Definition getDatabaseSize (globalSize deviceSize : Z) : Z := if 0 <? deviceSize then deviceSize else globalSize.

Definition allowRawMode (a : OsdAgent) : bool :=
  negb (EncryptedDevice (storeConfig_ a)) &&
  negb (1 <? default 0 (Atoi (sanitizeOSDsPerDevice (OSDsPerDevice (storeConfig_ a))))) &&
  String.eqb (metadataDevice_ a) "".

Definition isSafeToUseRawMode (device : DeviceOsdIDEntry) : bool :=
  negb (String.eqb (disk_Type (DeviceInfo device)) LVMType) && negb (desired_EncryptedDevice (entry_Config device)) &&
  negb (1 <? desired_OSDsPerDevice (entry_Config device)) && String.eqb (desired_MetadataDevice (entry_Config device)) "".

Definition lvmModeAllowed (device : DeviceOsdIDEntry) (sc : StoreConfig) : bool :=
  negb (String.eqb (disk_Type (DeviceInfo device)) PartType &&
        (EncryptedDevice sc || desired_EncryptedDevice (entry_Config device))).

Definition GetStoreFlag (sc : StoreConfig) : string := "--" +:+ store_StoreType sc.

Definition IsValidStoreType (sc : StoreConfig) : bool :=
  String.eqb (store_StoreType sc) "bluestore" || String.eqb (store_StoreType sc) "bluestore-rdr".

Definition appendDeviceClassArg (a : OsdAgent) (device : DeviceOsdIDEntry) (args : list string) : list string :=
  let class := desired_DeviceClass (entry_Config device) in
  let class := if String.eqb class "" then store_DeviceClass (storeConfig_ a) else class in
  if String.eqb class "" then args else args ++ [crushDeviceClassFlag; class].

Definition getMigrateOSDId (osd : OSDInfo) (device : string) : Z :=
  if String.eqb device (BlockPath osd) then ID osd else -1.

(** The arguments that keep the ID of a migrated OSD. *)
Definition migrate_args (a : OsdAgent) (device : string) : list string :=
  match migrateOSD a with
  | None => []
  | Some osd => let id := getMigrateOSDId osd device in if id =? -1 then [] else ["--osd-id"; Itoa id]
  end.

Definition appendOSDInfo (currentOSDs osdsToAppend : list OSDInfo) : list OSDInfo :=
  foldl (fun osds o => if existsb (fun c => String.eqb (UUID c) (UUID o)) osds then osds else osds ++ [o])
    currentOSDs osdsToAppend.

(** The first path of a volume below its volume group. *)
Definition lv_link (devLinks : string) : option string :=
  List.find (fun link => HasPrefix link "/dev/" && negb (HasPrefix link "/dev/disk/") && negb (HasPrefix link "/dev/mapper/"))
    (split_byte " " devLinks).

Definition lvm_device_arg (name : string) (device : DeviceOsdIDEntry) : string :=
  if String.eqb (disk_Type (DeviceInfo device)) MultiPath then RealPath (DeviceInfo device)
  else if String.eqb (disk_Type (DeviceInfo device)) LVMType then default (dev_path name) (lv_link (DevLinks (DeviceInfo device)))
  else dev_path name.

(** The settings of a metadata device and its data devices, separated by spaces. *)
Record MdConf := {
  md_osdsperdevice : string;
  md_deviceclass : option string;
  md_devices : string;
  md_encrypted : string;
  md_part : bool;
  md_databasesizemb : option string;
}.

Definition with_part (conf : MdConf) : MdConf :=
  {| md_osdsperdevice := md_osdsperdevice conf; md_deviceclass := md_deviceclass conf; md_devices := md_devices conf;
     md_encrypted := md_encrypted conf; md_part := true; md_databasesizemb := md_databasesizemb conf |}.

Definition with_dbsize (conf : MdConf) (size : string) : MdConf :=
  {| md_osdsperdevice := md_osdsperdevice conf; md_deviceclass := md_deviceclass conf; md_devices := md_devices conf;
     md_encrypted := md_encrypted conf; md_part := md_part conf; md_databasesizemb := Some size |}.

(** [display.MbTob], at 64 bits *)
Definition MbTob (b : Z) : Z := (b * 1024 * 1024) mod 2 ^ 64.

Definition find_metadata_device (devices : list LocalDisk) (md : string) : option LocalDisk :=
  List.find (fun d => String.eqb (disk_Name d) md || String.eqb (dev_path (disk_Name d)) md ||
                      (HasPrefix md "/dev/" && matchDevLinks (DevLinks d) md)) devices.

(** One data device with a metadata device. *)
Definition add_metadata (a : OsdAgent) (devices : list LocalDisk) (device : DeviceOsdIDEntry) (deviceArg deviceOSDCount : string)
    (mds : gmap string MdConf) : result (gmap string MdConf) :=
  let config := entry_Config device in
  let md := if String.eqb (desired_MetadataDevice config) "" then metadataDevice_ a else desired_MetadataDevice config in
  match find_metadata_device devices md with
  | None => Err (Errorf "metadata device %s is not found" [md])
  | Some metadataDevice =>
      let isType t := String.eqb (disk_Type metadataDevice) t in
      let md := if isType LVMType then default md (lv_link (DevLinks metadataDevice)) else disk_Name metadataDevice in
      let deviceEncrypted := FormatBool (EncryptedDevice (storeConfig_ a) || desired_EncryptedDevice config) in
      conf ← (match mds !! md with
              | Some conf =>
                  if negb (String.eqb deviceOSDCount (md_osdsperdevice conf))
                  then Err (Errorf "metadataDevice (%s) has more than 1 osdsPerDevice value set: %s != %s"
                              [md; deviceOSDCount; md_osdsperdevice conf])
                  else if negb (String.eqb deviceEncrypted (md_encrypted conf))
                  then Err (Errorf "metadataDevice (%s) has more than 1 encryptedDevice value set: %s != %s"
                              [md; deviceEncrypted; md_encrypted conf])
                  else Ok {| md_osdsperdevice := md_osdsperdevice conf; md_deviceclass := md_deviceclass conf;
                             md_devices := md_devices conf +:+ " " +:+ deviceArg; md_encrypted := md_encrypted conf;
                             md_part := md_part conf; md_databasesizemb := md_databasesizemb conf |}
              | None =>
                  Ok {| md_osdsperdevice := deviceOSDCount;
                        md_deviceclass := if String.eqb (desired_DeviceClass config) "" then None else Some (desired_DeviceClass config);
                        md_devices := deviceArg; md_encrypted := deviceEncrypted; md_part := false; md_databasesizemb := None |}
              end);
      if isType PartType && negb (String.eqb (metadataDevice_ a) "") && String.eqb (desired_MetadataDevice config) ""
      then Err (Errorf "Partition device %s can not be specified as metadataDevice in the global OSD configuration or in the node level OSD configuration" [md])
      else
        let conf := if isType PartType || isType LVMType then with_part conf else conf in
        let deviceDBSizeMB := getDatabaseSize (DatabaseSizeMB (storeConfig_ a)) (desired_DatabaseSizeMB config) in
        if IsValidStoreType (storeConfig_ a) && (0 <? deviceDBSizeMB) && (cephVolumeMinDBSize <=? deviceDBSizeMB) then
          let dbSizeString := Itoa (MbTob deviceDBSizeMB) in
          match md_databasesizemb conf with
          | Some size =>
              if negb (String.eqb size dbSizeString)
              then Err (Errorf "metadataDevice (%s) has more than 1 databaseSizeMB value set: %s != %s" [md; size; dbSizeString])
              else Ok (<[md := conf]> mds)
          | None => Ok (<[md := with_dbsize conf dbSizeString]> mds)
          end
        else Ok (<[md := conf]> mds)
  end.

Definition storeFlag (a : OsdAgent) : string := GetStoreFlag (storeConfig_ a).

Definition batch_args (a : OsdAgent) : list string :=
  ["-oL"; "ceph-volume"; "--log-path"; cephVolumeTmpLogDir; "lvm"; "batch"; "--prepare"; storeFlag a; "--yes"] ++
  (if EncryptedDevice (storeConfig_ a) then [encryptedFlag] else []).

(** The arguments for one device without a metadata device. *)
Definition immediate_args (a : OsdAgent) (device : DeviceOsdIDEntry) (deviceArg deviceOSDCount : string) : list string :=
  appendDeviceClassArg a device
    (batch_args a ++ [osdsPerDeviceFlag; deviceOSDCount; deviceArg] ++
     (if desired_EncryptedDevice (entry_Config device) && negb (EncryptedDevice (storeConfig_ a)) then [encryptedFlag] else [])).

Definition md_path (md : string) : string := if HasPrefix md "/dev" then md else dev_path md.

(** The arguments for a metadata device with its data devices. *)
Definition metadata_args (a : OsdAgent) (md : string) (conf : MdConf) : list string :=
  let devices := split_byte " " (md_devices conf) in
  (if md_part conf then
     ["-oL"; "ceph-volume"; "--log-path"; cephVolumeTmpLogDir; "lvm"; "prepare"; storeFlag a] ++
     (if EncryptedDevice (storeConfig_ a) then [encryptedFlag] else []) ++
     [dataFlag; default "" (head devices); blockDBFlag; md_path md] ++
     match md_databasesizemb conf with Some size => [blockDBSizeFlag; size] | None => [] end
   else
     batch_args a ++ [osdsPerDeviceFlag; md_osdsperdevice conf] ++
     match md_databasesizemb conf with Some size => [databaseSizeFlag; size] | None => [] end ++
     devices ++ [dbDeviceFlag; md_path md]) ++
  (if String.eqb (md_encrypted conf) "true" && negb (EncryptedDevice (storeConfig_ a)) then [encryptedFlag] else []) ++
  match md_deviceclass conf with Some class => [crushDeviceClassFlag; class] | None => [] end.

(** ** The host ([nsenter.go], [init.go], [volume.go]) *)

(** [bytes.Replace] of the first occurrence *)
Fixpoint replace_first (old new s : string) : string :=
  match strip_prefix old s with
  | Some rest => new +:+ rest
  | None => match s with "" => "" | String b s => String b (replace_first old new s) end
  end.

Definition quoted (s : string) : string := String quote (s +:+ String quote "").

(** A list of quoted strings, as in the configuration of LVM. *)
Definition lvm_list (l : list string) : string := "[ " +:+ Join (quoted <$> l) ", " +:+ " ]".

Definition lvm_filter (lvBackedPV : bool) : string :=
  "filter = " +:+ lvm_list (if lvBackedPV then ["a|^/mnt/.*|"; "r|^/dev/loop.*|"; "a|^/dev/.*|"; "r|.*|"] else ["a|^/mnt/.*|"; "r|.*|"]).

Definition lvm_config (onPVC lvBackedPV : bool) (input : string) : string :=
  let output := replace_first "udev_sync = 1" "udev_sync = 0" input in
  let output := replace_first "allow_changes_with_duplicate_pvs = 0" "allow_changes_with_duplicate_pvs = 1" output in
  let output := replace_first "udev_rules = 1" "udev_rules = 0" output in
  let output := replace_first "use_lvmetad = 1" "use_lvmetad = 0" output in
  let output := replace_first "obtain_device_list_from_udev = 1" "obtain_device_list_from_udev = 0" output in
  if negb onPVC then output
  else
    let output := replace_first ("scan = " +:+ lvm_list ["/dev"]) ("scan = " +:+ lvm_list ["/dev"; "/mnt"]) output in
    let output := replace_first ("# filter = " +:+ lvm_list ["a|.*/|"]) (lvm_filter lvBackedPV) output in
    replace_first ("# filter = " +:+ lvm_list ["a|.*|"]) (lvm_filter lvBackedPV) output.

Definition binPathsToCheck : list string :=
  ["/usr/sbin"; "/sbin"; "/run/current-system/sw/bin"; "/run/current-system/sw/sbin"].

Definition lvmConfPath : string := "/etc/lvm/lvm.conf".

Definition cephConfigDir : string := "/var/lib/ceph".

(** [bootstrapOSDKeyringTemplate] *)
Definition bootstrap_keyring (key : string) : string :=
  chr 10 +:+ "[client.bootstrap-osd]" +:+ chr 10 +:+ chr 9 +:+ "key = " +:+ key +:+ chr 10 +:+ chr 9 +:+
  "caps mon = " +:+ quoted "allow profile bootstrap-osd" +:+ chr 10.

Section Host.
Context {W : Type} `{ProvisionEnv W}.

Definition callNsEnter (binaryArgs : list string) (binPath : string) : MW W unit :=
  _ ← wrapM (exec (["nsenter"; "--mount=/rootfs/proc/1/ns/mnt"; "--"; binPath] ++ binaryArgs))
        "failed to execute nsenter. output: %s" [];
  mret ().

(** The first directory where the program runs on the host, or is a file of its root. *)
Fixpoint find_binary (binary : string) (binaryArgs : list string) (paths : list string) : MW W unit :=
  match paths with
  | [] => fail (Errorf "binary %q does not exist on the host" [binary])
  | p :: paths =>
      let binPath := p +:+ "/" +:+ binary in
      r ← try_ (callNsEnter binaryArgs binPath);
      match r with
      | Ok _ => mret ()
      | Err _ =>
          s ← try_ (silent (env_stat ("/rootfs" +:+ binPath)));
          match s with Ok _ => mret () | Err _ => find_binary binary binaryArgs paths end
      end
  end.

Definition checkIfBinaryExistsOnHost (binary : string) (binaryArgs : list string) : MW W unit :=
  find_binary binary binaryArgs binPathsToCheck.

Definition UpdateLVMConfig (onPVC lvBackedPV : bool) : MW W unit :=
  input ← wrapM (silent (env_read_file lvmConfPath)) "failed to read lvm config file %q" [lvmConfPath];
  wrapM (silent (env_write_file lvmConfPath (lvm_config onPVC lvBackedPV input))) "failed to update lvm config file %q" [lvmConfPath].

Definition lvmPreReq : MW W unit :=
  _ ← wrapM (checkIfBinaryExistsOnHost "lvm" ["--help"])
        "binary %q does not exist on the host, make sure lvm2 package is installed" ["lvm"];
  wrapM (UpdateLVMConfig false false) "failed to update lvm configuration file" [].

Definition AuthGetOrCreateKey (version : CephVersion) (name keyType : string) (caps : list string) : MW W string :=
  let keyType := if negb (Aes256kKeysSupported version) && IsLegacyKeyType keyType then "" else keyType in
  let args := ["auth"; "get-or-create-key"; name] ++ caps ++ (if String.eqb keyType "" then [] else ["--key-type"; keyType]) in
  buf ← wrapM (run_ceph args) "failed get-or-create-key %s" [name];
  unmarshal (json_auth_key (W := W) buf) "failed to unmarshal get/create key response".

Definition WriteKeyring (dir file keyring : string) : MW W unit :=
  _ ← wrapM (silent (env_mkdir dir)) "failed to create keyring directory for %s" [dir +:+ "/" +:+ file];
  wrapM (silent (env_write_file (dir +:+ "/" +:+ file) keyring)) "failed to write monitor keyring to %s" [dir +:+ "/" +:+ file].

Definition CreateKeyring (version : CephVersion) (username dir file keyType : string) (access : list string)
    (generateContents : string -> string) : MW W unit :=
  key ← wrapM (AuthGetOrCreateKey version username keyType access) "failed to get or create auth key for %s" [username];
  WriteKeyring dir file (generateContents key).

Definition createOSDBootstrapKeyring (version : CephVersion) : MW W unit :=
  CreateKeyring version "client.bootstrap-osd" (cephConfigDir +:+ "/bootstrap-osd") "ceph.keyring" CephxKeyTypeUndefined
    ["mon"; "allow profile bootstrap-osd"] bootstrap_keyring.

End Host.

Section Prepare.
Context {W : Type} `{ProvisionEnv W} (a : OsdAgent).

(** The entries of a map in the order of the visit. *)
Definition visit {A} (m : gmap string A) : MW W (list (string * A)) :=
  keys ← silent (env_visit (map_to_list m).*1);
  mret (omap (fun k => (fun v => (k, v)) <$> m !! k) keys).

Definition stdbuf (args : list string) : MW W string := exec ("stdbuf" :: args).

Definition raw_args (deviceArg : string) (device : DeviceOsdIDEntry) : list string :=
  appendDeviceClassArg a device
    (["-oL"; "ceph-volume"; "raw"; "prepare"; storeFlag a; "--data"; deviceArg] ++ migrate_args a deviceArg).

Fixpoint initializeDevicesRawMode (l : list (string * DeviceOsdIDEntry)) : MW W (list string) :=
  match l with
  | [] => mret []
  | (name, device) :: l =>
      let deviceArg := dev_path name in
      if entry_Data device =? unassignedOSDID then
        _ ← wrapM (stdbuf (raw_args deviceArg device)) "failed to run ceph-volume raw command. %s" [];
        prepared ← initializeDevicesRawMode l;
        mret (deviceArg :: prepared)
      else initializeDevicesRawMode l
  end.

(** One device in LVM mode: prepared at once, or kept for its metadata device. *)
Definition lvm_device (devices : list LocalDisk) (mds : gmap string MdConf) (name : string) (device : DeviceOsdIDEntry) :
    MW W (gmap string MdConf) :=
  if negb (entry_Data device =? unassignedOSDID) then mret mds
  else match entry_Metadata device with
  | Some _ => mret mds
  | None =>
      let deviceArg := lvm_device_arg name device in
      let deviceOSDCount :=
        sanitizeOSDsPerDevice (if 1 <? desired_OSDsPerDevice (entry_Config device)
                               then desired_OSDsPerDevice (entry_Config device) else OSDsPerDevice (storeConfig_ a)) in
      if negb (String.eqb (metadataDevice_ a) "") || negb (String.eqb (desired_MetadataDevice (entry_Config device)) "")
      then lift (add_metadata a devices device deviceArg deviceOSDCount mds)
      else
        let args := immediate_args a device deviceArg deviceOSDCount in
        _ ← wrapM (stdbuf (args ++ ["--report"])) "failed ceph-volume report" [];
        _ ← wrapM (stdbuf args) "failed ceph-volume" [];
        mret mds
  end.

Fixpoint lvm_devices (devices : list LocalDisk) (mds : gmap string MdConf) (l : list (string * DeviceOsdIDEntry)) :
    MW W (gmap string MdConf) :=
  match l with
  | [] => mret mds
  | (name, device) :: l => mds ← lvm_device devices mds name device; lvm_devices devices mds l
  end.

(** What ceph-volume would do with a batch must be what is asked for. *)
Definition check_reports (md : string) (conf : MdConf) (cvReports : list (string * string)) : result unit :=
  let count := match Atoi (md_osdsperdevice conf) with Some v => if 1 <? v then v else 1 | None => 1 end in
  if negb (Z.of_nat (length (split_byte " " (md_devices conf))) * count =? Z.of_nat (length cvReports))
  then Err (Errorf "failed to create enough required devices, required: %s, actual: %v" [])
  else match List.find (fun r => negb (String.eqb r.1 (md_path md)) && negb (HasSuffix (md_path md) r.1)) cvReports with
       | Some r => Err (Errorf "wrong db device for %s, required: %s, actual: %s" [r.2; md_path md; r.1])
       | None => Ok ()
       end.

Definition metadata_device (md : string) (conf : MdConf) : MW W unit :=
  let args := metadata_args a md conf in
  _ ← (if md_part conf then mret ()
       else
         _ ← wrapM (stdbuf (args ++ ["--report"])) "failed ceph-volume report" [];
         cvOut ← wrapM (stdbuf (args ++ ["--report"; "--format"; "json"])) "failed ceph-volume json report: %s" [];
         cvReports ← unmarshal (json_reports (W := W) cvOut) "failed to unmarshal ceph-volume report json";
         lift (check_reports md conf cvReports));
  _ ← wrapM (stdbuf args) "failed ceph-volume" [];
  mret ().

Definition initializeDevicesLVMMode (devices : list LocalDisk) (l : list (string * DeviceOsdIDEntry)) : MW W unit :=
  _ ← wrapM (silent (env_mkdir cephVolumeTmpLogDir)) "failed to create dir %q" [cephVolumeTmpLogDir];
  mds ← lvm_devices devices ∅ l;
  mdl ← visit mds;
  forM_ mdl (fun '(md, conf) => metadata_device md conf).

Definition is_raw (device : DeviceOsdIDEntry) : bool := allowRawMode a && isSafeToUseRawMode device.

Definition initializeDevices (devices : list LocalDisk) (available : DeviceOsdMapping) : MW W (list string) :=
  _ ← (if allowRawMode a then mret () else wrapM lvmPreReq "failed to run lvm prerequisites" []);
  raw ← visit (filter (fun kv => is_raw kv.2 = true) available);
  preparedRawDevices ← initializeDevicesRawMode raw;
  lvm ← visit (filter (fun kv => is_raw kv.2 = false /\ lvmModeAllowed kv.2 (storeConfig_ a) = true) available);
  _ ← initializeDevicesLVMMode devices lvm;
  mret preparedRawDevices.

End Prepare.


(** ** What is prepared ([volume.go]) *)

(** The last volume of an OSD that belongs to the cluster: its tags and, as the path of the OSD, its
    path. *)
Definition lvm_osd (fsid lv store : string) (skipLVRelease lvBackedPV : bool) (name : string) (infos : list osdInfo_) :
    option OSDInfo :=
  match Atoi name, last (List.filter (fun o => String.eqb (tag_cluster_fsid (info_tags o)) fsid) infos) with
  | Some id, Some o =>
      if String.eqb (tag_osd_fsid (info_tags o)) "" then None
      else Some {| ID := id; OSDCluster := "ceph"; UUID := tag_osd_fsid (info_tags o); DevicePartUUID := "";
                   DeviceClass := tag_crush_device_class (info_tags o);
                   BlockPath := if String.eqb lv "" then info_path o else lv; MetadataPath := ""; WalPath := "";
                   SkipLVRelease := skipLVRelease; Location := ""; LVBackedPV := lvBackedPV; CVMode := "lvm"; Store := store;
                   TopologyAffinity := ""; Encrypted := String.eqb (tag_encrypted (info_tags o)) "1"; ExportService := false;
                   NodeName := ""; PVCName := ""; DeviceType := ""; info_CephxStatus := empty_status |}
  | _, _ => None
  end.

Section Listing.
Context {W : Type} `{ProvisionEnv W} (a : OsdAgent).

Definition GetCephVolumeLVMOSDs (lv : string) (skipLVRelease lvBackedPV : bool) : MW W (list OSDInfo) :=
  result ← wrapM (callCephVolume ["lvm"; "list"; lv; "--format"; "json"]) "failed to retrieve ceph-volume %s list results" ["lvm"];
  l ← unmarshal (json_lvm_osds (W := W) result) "failed to unmarshal ceph-volume %s list results (%d bytes)";
  let store := getenv (W := W) "ROOK_OSD_STORE_TYPE" in
  let store := if String.eqb store "" then StoreTypeBlueStore else store in
  mret (omap (fun '(name, infos) => lvm_osd (FSID a) lv store skipLVRelease lvBackedPV name infos) l).

(** A path with its symbolic links resolved, where that works. *)
Definition resolve_links (p : string) : MW W string :=
  r ← try_ (silent (env_eval_symlinks p));
  mret (match r with Ok p' => p' | Err _ => p end).

Fixpoint some_block_path (device resolved : string) (osds : list OSDInfo) : MW W bool :=
  match osds with
  | [] => mret false
  | osd :: osds =>
      if String.eqb (BlockPath osd) device then mret true
      else
        p ← resolve_links (BlockPath osd);
        if String.eqb p resolved then mret true else some_block_path device resolved osds
  end.

Definition deviceInOSDInfoList (device : string) (osds : list OSDInfo) : MW W bool :=
  resolved ← resolve_links device;
  some_block_path device resolved osds.

Fixpoint ensurePreparedDevicesListed (osds : list OSDInfo) (preparedDevices : list string) : MW W (list OSDInfo) :=
  match preparedDevices with
  | [] => mret osds
  | device :: preparedDevices =>
      listed ← deviceInOSDInfoList device osds;
      if (listed : bool) then ensurePreparedDevicesListed osds preparedDevices
      else
        deviceOsds ← wrapM (GetCephVolumeRawOSDs a device "" "" false false (agent_devices a))
                       "an OSD was prepared on device %q, but listing it individually failed" [device];
        match deviceOsds with
        | [] => fail (Errorf "an OSD was prepared on device %q, but ceph-volume does not report it" [device])
        | _ => ensurePreparedDevicesListed (appendOSDInfo osds deviceOsds) preparedDevices
        end
  end.

(** [slices.DeleteFunc] of the destroyed OSDs *)
Definition drop_destroyed (destroyed : list Z) (osds : list OSDInfo) : list OSDInfo :=
  List.filter (fun o => negb (existsb (Z.eqb (ID o)) destroyed)) osds.

Definition getDeviceLVPath (deviceName : string) : MW W string :=
  r ← try_ (exec ["pvdisplay"; "-C"; "-o"; "lvpath"; "--noheadings"; deviceName]);
  mret (match r with Ok output => output | Err _ => "" end).

(** The words of the lines that open a device; the first that contains the type names it. *)
Definition getEncryptedBlockPath (op blockType : string) : string :=
  let lines := List.filter (fun line => Contains line "luksOpen") (split_byte newline op) in
  match List.find (fun word => Contains word blockType) (lines ≫= Fields) with
  | Some word => "/dev/mapper/" +:+ word
  | None => ""
  end.

(** The arguments and the paths of the device of a claim, and of its metadata and wal devices. *)
Definition claim_args (base : list string) (devices : DeviceOsdMapping) (device : DeviceOsdIDEntry) : list string :=
  let extra flag key := match devices !! key with Some e => [flag; desired_Name (entry_Config e)] | None => [] end in
  appendDeviceClassArg a device
    (base ++ ["--data"; desired_Name (entry_Config device)] ++ migrate_args a (RealPath (DeviceInfo device))) ++
  (if isEncrypted (W := W) then [encryptedFlag] else []) ++ extra "--block.db" "metadata" ++ extra "--block.wal" "wal".

(** The path of an opened device, where there is such a device. *)
Definition opened_path (op blockType key : string) (devices : DeviceOsdMapping) : result string :=
  match devices !! key with
  | None => Ok ""
  | Some _ =>
      let p := getEncryptedBlockPath op blockType in
      if String.eqb p "" then Err (Errorf "failed to get encrypted block path from ceph-volume lvm prepare output" []) else Ok p
  end.

Definition claim_device (base : list string) (devices : DeviceOsdMapping) (paths : string * string * string)
    (name : string) (device : DeviceOsdIDEntry) : MW W (string * string * string) :=
  if String.eqb name "metadata" || String.eqb name "wal" then mret paths
  else
    let '(blockPath, metadataBlockPath, walBlockPath) := paths in
    let config_name key old := match devices !! key with Some e => desired_Name (entry_Config e) | None => old end in
    let metadataBlockPath := config_name "metadata" metadataBlockPath in
    let walBlockPath := config_name "wal" walBlockPath in
    if negb (entry_Data device =? -1) then mret (blockPath, metadataBlockPath, walBlockPath)
    else
      op ← wrapM (stdbuf (claim_args base devices device)) "failed to run ceph-volume. %s. debug logs below:\n%s" [];
      if negb (isEncrypted (W := W)) then mret (desired_Name (entry_Config device), metadataBlockPath, walBlockPath)
      else
        let blockPath := getEncryptedBlockPath op DmcryptBlockType in
        if String.eqb blockPath "" then fail (Errorf "failed to get encrypted block path from ceph-volume lvm prepare output" [])
        else
          m ← lift (opened_path op "db-dmcrypt" "metadata" devices);
          w ← lift (opened_path op "wal-dmcrypt" "wal" devices);
          mret (blockPath, m, w).

Fixpoint claim_devices (base : list string) (devices : DeviceOsdMapping) (paths : string * string * string)
    (l : list (string * DeviceOsdIDEntry)) : MW W (string * string * string) :=
  match l with
  | [] => mret paths
  | (name, device) :: l => paths ← claim_device base devices paths name device; claim_devices base devices paths l
  end.

Definition initializeBlockPVC (devices : DeviceOsdMapping) : MW W (string * string * string) :=
  let cvLogDir := "/var/log/ceph/" +:+ agent_nodeName a in
  r ← try_ (silent (env_mkdir cvLogDir));
  let base := match r with
              | Ok _ => ["-oL"; "ceph-volume"; "--log-path"; cvLogDir; "raw"; "prepare"; storeFlag a]
              | Err _ => ["-oL"; "ceph-volume"; "raw"; "prepare"; storeFlag a]
              end in
  l ← visit devices;
  claim_devices base devices ("", "", "") l.

(** Nothing is new: the OSDs that were prepared before. *)
Definition list_configured (destroyed : list Z) : MW W (list OSDInfo) :=
  if pvcBacked a then
    let mnt := "/mnt/" +:+ agent_nodeName a in
    lvPath ← getDeviceLVPath mnt;
    lvBackedPV ← wrapM (IsLV mnt) "failed to check device type" [];
    lvmOsds ← wrapM (GetCephVolumeLVMOSDs lvPath true lvBackedPV) "failed to get device already provisioned by ceph-volume lvm" [];
    match lvmOsds with
    | [] => wrapM (GetCephVolumeRawOSDs a mnt "" "" lvBackedPV false (agent_devices a))
              "failed to get device already provisioned by ceph-volume raw" []
    | _ => mret lvmOsds
    end
  else
    lvmOsds ← wrapM (GetCephVolumeLVMOSDs "" false false) "failed to get devices already provisioned by ceph-volume" [];
    rawOsds ← wrapM (GetCephVolumeRawOSDs a "" "" "" false false (agent_devices a))
                "failed to get device already provisioned by ceph-volume raw" [];
    mret (appendOSDInfo (drop_destroyed destroyed lvmOsds) (drop_destroyed destroyed rawOsds)).

(** The devices are prepared and all OSDs listed. *)
Definition prepare_and_list (destroyed : list Z) (disks : list LocalDisk) (devices : DeviceOsdMapping) : MW W (list OSDInfo) :=
  _ ← wrapM (createOSDBootstrapKeyring (agent_version a)) "failed to generate osd keyring" [];
  '(lvBackedPV, (block, metadataBlock, walBlock), prepared) ←
    (if pvcBacked a then
       l ← visit devices;
       lvBackedPV ← (match l with
                     | [] => mret false
                     | (_, device) :: _ => wrapM (IsLV (desired_Name (entry_Config device))) "failed to check device type" []
                     end);
       paths ← wrapM (initializeBlockPVC devices) "failed to initialize devices on PVC" [];
       mret (lvBackedPV, paths, [])
     else
       prepared ← wrapM (initializeDevices a disks devices) "failed to initialize osd" [];
       mret (false, ("", "", ""), prepared));
  lvmOsds ← wrapM (GetCephVolumeLVMOSDs block false lvBackedPV) "failed to get devices already provisioned by ceph-volume lvm" [];
  let osds := drop_destroyed destroyed lvmOsds in
  let block := if negb (pvcBacked a) then "" else if isEncrypted (W := W) then block else "/mnt/" +:+ agent_nodeName a in
  rawOsds ← wrapM (GetCephVolumeRawOSDs a block metadataBlock walBlock lvBackedPV false (agent_devices a))
              "failed to get devices already provisioned by ceph-volume raw" [];
  rawOsds ← (if isEncrypted (W := W) then mret rawOsds else ensurePreparedDevicesListed rawOsds prepared);
  mret (appendOSDInfo osds (drop_destroyed destroyed rawOsds)).

Definition configureCVDevices (disks : list LocalDisk) (devices : DeviceOsdMapping) : MW W (list OSDInfo) :=
  destroyed ← (if pvcBacked a then mret []
               else tree ← wrapM HostTree "failed to get osd tree for destroyed slots" []; mret (GetDestroyedIDs tree));
  if bool_decide (devices = ∅) then list_configured destroyed
  else prepare_and_list destroyed disks devices.

End Listing.


End Provision.
