(* ===== verification/Prepare.v ===== *)
(** * Prepare: the run of a prepare job and of an OSD

    Models [pkg/daemon/ceph/osd/replace.go] (bringing destroyed OSDs of this node back on blank
    devices, closing the encrypted devices of an OSD) and, of [daemon.go], [Provision], which ties the
    choice of devices (file Devices), the replacement and the preparation (file Provision) together,
    [StartOSD] and [GetOSDInfoById]. *)

From stdpp Require Import base gmap strings list fin_maps sorting.
From Stdlib Require Import ZArith Ascii.
From S2P Require Import Prelude CephVersion GoTime Topology Kube Disruption Upgrade Cephx OsdBase OsdSpec OsdReplace OsdRollout Devices Provision.
Import Log Version GoTime Kube Upgrade Cephx OsdBase OsdSpec OsdReplace OsdRollout Devices Provision.
Open Scope Z_scope.

Module Prepare.

Abbreviation DeviceOsdMapping := (gmap string DeviceOsdIDEntry) (only parsing).

(** ** Pairing destroyed OSDs with blank devices ([replace.go]) *)

Definition isDeviceClassMatch (a b : string) : bool :=
  negb (String.eqb a "") && negb (String.eqb b "") && String.eqb a b.

(** [l[i], l[j] = l[j], l[i]] *)
Definition swap {A} (i j : nat) (l : list A) : list A :=
  match l !! i, l !! j with
  | Some x, Some y => <[i := y]> (<[j := x]> l)
  | _, _ => l
  end.

(** The index, from [j] on, of the first device of the class. *)
Fixpoint find_blank (blankDC : string -> string) (destroyedDC : string) (j : nat) (blank : list string) : option nat :=
  match blank with
  | [] => None
  | b :: blank => if isDeviceClassMatch destroyedDC (blankDC b) then Some j else find_blank blankDC destroyedDC (S j) blank
  end.

(** The indices of the first OSD, counted from [i], with a device of its class, and of that device. *)
Fixpoint find_pair (destroyedDC : Z -> string) (blankDC : string -> string) (k i : nat) (ids : list Z) (blank : list string) :
    option (nat * nat) :=
  match ids with
  | [] => None
  | id :: ids =>
      match find_blank blankDC (destroyedDC id) k blank with
      | Some j => Some (i, j)
      | None => find_pair destroyedDC blankDC k (S i) ids blank
      end
  end.

(** The rounds that are left, with [k] pairs found. *)
Fixpoint match_loop (destroyedDC : Z -> string) (blankDC : string -> string) (rounds k : nat) (ids : list Z) (blank : list string) :
    list Z * list string :=
  match rounds with
  | O => (ids, blank)
  | S rounds =>
      match find_pair destroyedDC blankDC k k (drop k ids) (drop k blank) with
      | Some (i, j) => match_loop destroyedDC blankDC rounds (S k) (swap k i ids) (swap k j blank)
      | None => (ids, blank)
      end
  end.

(** The two slices, reordered in place. *)
Definition matchBlankAndDestroyedByDeviceClasses (destroyedDC : Z -> string) (blankDC : string -> string)
    (destroyedOSDIds : list Z) (blankDevices : list string) : list Z * list string :=
  match_loop destroyedDC blankDC (Nat.min (length destroyedOSDIds) (length blankDevices)) 0 destroyedOSDIds blankDevices.

Definition is_blank_data (entry : DeviceOsdIDEntry) : bool :=
  match entry_Metadata entry with Some _ => false | None => entry_Data entry =? unassignedOSDID end.

Definition availableDataDevices (available : DeviceOsdMapping) : list string :=
  sort_strings (map_to_list (filter (fun kv => is_blank_data kv.2 = true) available)).*1.

Definition getBlankDeviceClasses (available : DeviceOsdMapping) (blankDevices : list string) : gmap string string :=
  list_to_map (omap (fun name => (fun e => (name, GetDiskDeviceType (DeviceInfo e))) <$> available !! name) blankDevices).

Definition crushHostFromLocation (crushLocation : string) : string :=
  default "" (head (omap (strip_prefix "host=") (Fields crushLocation))).

(** The destroyed OSDs below the first host of that name. *)
Definition filterDestroyedOSDIdsForNode (tree : OsdTree) (destroyedOSDIds : list Z) (crushLocation : string) : result (list Z) :=
  match destroyedOSDIds with
  | [] => Ok []
  | _ =>
      let hostName := crushHostFromLocation crushLocation in
      if String.eqb hostName "" then Err (Errorf "failed to determine crush host from location %q" [crushLocation])
      else
        let host := List.find (fun n => String.eqb (node_type n) "host" && String.eqb (tree_name n) hostName) (default [] (Nodes tree)) in
        let hostOSDs := match host with Some n => Children n | None => [] end in
        Ok (List.filter (fun id => existsb (Z.eqb id) hostOSDs) destroyedOSDIds)
  end.

(** [sort.Ints] *)
Definition sort_ints (l : list Z) : list Z := merge_sort Z.le l.

Definition buildReplacementPrepareArgs (a : OsdAgent) (osdID : Z) (dataDevice dbLV : string) (entry : DeviceOsdIDEntry)
    (useRaw : bool) (logPath : string) : list string :=
  appendDeviceClassArg a entry
    (["-oL"; "ceph-volume"; "--log-path"; logPath; if useRaw then "raw" else "lvm"; "prepare"; storeFlag a; "--osd-id";
      Itoa osdID; dataFlag; dataDevice] ++
     (if useRaw then []
      else (if String.eqb dbLV "" then [] else [blockDBFlag; dbLV]) ++
           (if EncryptedDevice (storeConfig_ a) || desired_EncryptedDevice (entry_Config entry) then [encryptedFlag] else []))).

(** The first database volume that is named, by its volume group or by its path. *)
Definition db_reference (e : cvLVMListEntry) : option string :=
  if negb (String.eqb (lv_type e) "db") then None
  else if negb (String.eqb (VGName e) "") && negb (String.eqb (LVName e) "") then Some (VGName e +:+ "/" +:+ LVName e)
  else if negb (String.eqb (lv_path e) "") then Some (lv_path e)
  else None.

Definition getVolumeGroupName (lvPath : string) : string :=
  match split_byte "/" lvPath with
  | [_; _; vg; _] => vg
  | _ => ""
  end.

(** [errors.Cause] *)
Fixpoint Cause (e : gerror) : gerror := match e with Wrapf e' _ _ => Cause e' | _ => e end.

Definition cryptsetupExitCodeNotActive : Z := 4.

(** ** What a failed command says: the exit code [exec.ExtractExitCode] finds in an error, and the
    text of an error *)
Class ErrorText := {
  ExtractExitCode : gerror -> option Z;
  Error : gerror -> string;
}.

Section Replace.
Context {W : Type} `{ProvisionEnv W} `{ErrorText} (a : OsdAgent).

Definition isCryptsetupNotActive (err : gerror) : bool :=
  match ExtractExitCode (Cause err) with
  | Some code => code =? cryptsetupExitCodeNotActive
  | None => Contains (Error err) "is not active"
  end.

Definition cephVolumeLVMList (osdID : Z) : MW W (list cvLVMListEntry) :=
  result ← wrapM (callCephVolume ["lvm"; "list"; Itoa osdID; "--format"; "json"]) "failed to list lvm volumes for osd.%d" [Itoa osdID];
  listResult ← unmarshal (json_lvm_entries (W := W) result) "failed to unmarshal ceph-volume lvm list result for osd.%d (%d bytes)";
  mret (default [] (listResult !! Itoa osdID)).

Definition encryptedDMNamesForOSD (osdID : Z) : MW W (list string) :=
  entries ← cephVolumeLVMList osdID;
  mret (LVUUID <$> List.filter (fun e => String.eqb (lv_encrypted e) "1" && negb (String.eqb (LVUUID e) "")) entries).

Fixpoint close_mappings (osdID : Z) (dmNames : list string) : MW W unit :=
  match dmNames with
  | [] => mret ()
  | dmName :: dmNames =>
      r ← try_ (CloseEncryptedDevice dmName);
      match r with
      | Ok _ => close_mappings osdID dmNames
      | Err err =>
          if isCryptsetupNotActive err then close_mappings osdID dmNames
          else fail (Wrapf err "failed to close dm-crypt mapping %q for osd.%d" [dmName; Itoa osdID])
      end
  end.

Definition CloseEncryptedDevicesForOSD (osdID : Z) : MW W unit :=
  dmNames ← wrapM (encryptedDMNamesForOSD osdID) "failed to resolve dm-crypt mappings for osd.%d" [Itoa osdID];
  close_mappings osdID dmNames.

Definition recoverDBLVForOSDFromHost (osdID : Z) : MW W string :=
  entries ← cephVolumeLVMList osdID;
  mret (default "" (head (omap db_reference entries))).

Definition provisionReplacedOSD (osdID : Z) (entry : DeviceOsdIDEntry) : MW W unit :=
  let dataDevice := dev_path (disk_Name (DeviceInfo entry)) in
  dbLV ← wrapM (recoverDBLVForOSDFromHost osdID) "failed to recover db lv for osd.%d" [Itoa osdID];
  let useRaw := allowRawMode a && isSafeToUseRawMode entry && String.eqb dbLV "" in
  _ ← wrapM (silent (env_mkdir cephVolumeTmpLogDir)) "failed to create dir %q" [cephVolumeTmpLogDir];
  _ ← (if useRaw then mret () else wrapM lvmPreReq "failed to run lvm prerequisites" []);
  _ ← wrapM (stdbuf (buildReplacementPrepareArgs a osdID dataDevice dbLV entry useRaw cephVolumeTmpLogDir))
        "failed to run ceph-volume prepare for replacement osd.%d. %s" [Itoa osdID];
  mret ().

Definition getDestroyedOSDDeviceClasses (osdIDs : list Z) : MW W (gmap Z string) :=
  match osdIDs with
  | [] => mret ∅
  | _ =>
      deviceClasses ← OSDDeviceClasses (Itoa <$> osdIDs);
      mret (foldl (fun m dc => <[class_osd dc := class_name dc]> m) ∅ deviceClasses)
  end.

(** Each destroyed OSD takes the next device; a device is used up even when its preparation fails. *)
Fixpoint replace_osds (ids : list Z) (blankDevices : list string) (available : DeviceOsdMapping) : MW W DeviceOsdMapping :=
  match ids, blankDevices with
  | id :: ids, blankDevice :: blankDevices =>
      match available !! blankDevice with
      | Some entry =>
          _ ← try_ (provisionReplacedOSD id entry);
          replace_osds ids blankDevices (delete blankDevice available)
      | None => replace_osds ids blankDevices available   (* not reached: the devices are those of [available] *)
      end
  | _, _ => mret available
  end.

Definition preProvisionReplacedOSDs (available : DeviceOsdMapping) (crushLocation : string) : MW W DeviceOsdMapping :=
  if pvcBacked a then mret available
  else match migrateOSD a with
  | Some _ => mret available
  | None =>
      tree ← wrapM HostTree "failed to get osd tree" [];
      destroyedOSDIds ← wrapM (lift (filterDestroyedOSDIdsForNode tree (GetDestroyedIDs tree) crushLocation))
                          "failed to filter destroyed osd ids for this node" [];
      match destroyedOSDIds with
      | [] => mret available
      | _ =>
          destroyedDeviceClasses ← wrapM (getDestroyedOSDDeviceClasses destroyedOSDIds) "failed to get device classes for destroyed osds" [];
          _ ← wrapM (createOSDBootstrapKeyring (agent_version a)) "failed to generate osd bootstrap keyring" [];
          let blankDevices := availableDataDevices available in
          let blankDeviceClasses := getBlankDeviceClasses available blankDevices in
          let '(ids, blankDevices) :=
            matchBlankAndDestroyedByDeviceClasses (fun id => default "" (destroyedDeviceClasses !! id))
              (fun b => default "" (blankDeviceClasses !! b)) (sort_ints destroyedOSDIds) blankDevices in
          replace_osds ids blankDevices available
      end
  end.

(** ** A prepare job ([daemon.go]) *)

Definition dmsetupVersion : MW W unit :=
  _ ← wrapM (exec ["dmsetup"; "version"]) "failed to find device mapper version. %s" []; mret ().

(** The status is only logged when it cannot be written. *)
Definition UpdateNodeOrPVCStatus (nodeOrPVC : string) (status : OrchestrationStatus) : MW W unit :=
  _ ← try_ (record (SetStatus nodeOrPVC status) (env_set_status nodeOrPVC status)); mret ().

Definition configRawDevice (name : string) : MW W LocalDisk :=
  rawDevice ← wrapM (PopulateDeviceInfo name) "failed to get device info for %q" [name];
  if HasPrefix name "/mnt" then
    r ← try_ (PopulateDeviceUdevInfo (KernelName rawDevice) rawDevice);
    mret (set_Type pvcDataTypeDevice (match r with Ok d => d | Err _ => rawDevice end))
  else if HasPrefix name "/srv" then mret (set_Type pvcMetadataTypeDevice rawDevice)
  else if HasPrefix name "/wal" then mret (set_Type pvcWalTypeDevice rawDevice)
  else mret rawDevice.

Fixpoint configRawDevices (l : list DesiredDevice) : MW W (list LocalDisk) :=
  match l with
  | [] => mret []
  | d :: l => disk ← configRawDevice (desired_Name d); disks ← configRawDevices l; mret (disk :: disks)
  end.

Definition releaseLVMDevice (volumeGroupName : string) : MW W unit :=
  _ ← wrapM (exec ["lvchange"; "-an"; "-vv"; volumeGroupName]) "failed to deactivate LVM %s. output: %s" [volumeGroupName]; mret ().

(** The claim is detached from LVM, unless it is itself a logical volume or the mode is raw. *)
Definition release_claim (deviceOSDs : list OSDInfo) : MW W unit :=
  match deviceOSDs with
  | osd :: _ =>
      if pvcBacked a && negb (SkipLVRelease osd) && negb (LVBackedPV osd) then
        let volumeGroupName := getVolumeGroupName (BlockPath osd) in
        if String.eqb volumeGroupName "" then mret ()
        else wrapM (releaseLVMDevice volumeGroupName) "failed to release device from lvm" []
      else mret ()
  | [] => mret ()
  end.

Definition status_of (osds : list OSDInfo) (status : string) (pvc : bool) : OrchestrationStatus :=
  {| status_OSDs := osds; status_Status := status; PvcBackedOSD := pvc; status_Message := "" |}.

Definition Provision (crushLocation topologyAffinity deviceFilter metaDevice : string) : MW W unit :=
  _ ← (if pvcBacked a && isEncrypted (W := W)
       then wrapM (silent env_set_kek) "failed to set kek as an environment variable" [] else mret ());
  _ ← wrapM dmsetupVersion "failed to print device mapper version" [];
  _ ← UpdateNodeOrPVCStatus (agent_nodeName a) (status_of [] OrchestrationStatusOrchestrating false);
  rawDevices ← (if pvcBacked a then configRawDevices (agent_devices a)
                else wrapM (DiscoverDevicesWithFilter deviceFilter metaDevice) "failed initial hardware discovery" []);
  rawDevices ← (if wipeDevicesFromOtherClusters a
                then wrapM (WipeDevicesFromOtherClusters a rawDevices) "failed to wipe devices from other clusters" []
                else mret rawDevices);
  '(disks, devices) ← wrapM (getAvailableDevices a rawDevices) "failed to get available devices" [];
  devices ← wrapM (preProvisionReplacedOSDs devices crushLocation) "failed to provision replacement OSDs" [];
  _ ← UpdateNodeOrPVCStatus (agent_nodeName a) (status_of [] OrchestrationStatusOrchestrating (pvcBacked a));
  deviceOSDs ← wrapM (configureCVDevices a disks devices) "failed to configure devices" [];
  let deviceOSDs := (fun o => set_TopologyAffinity topologyAffinity (set_Location crushLocation o)) <$> deviceOSDs in
  _ ← release_claim deviceOSDs;
  UpdateNodeOrPVCStatus (agent_nodeName a) (status_of deviceOSDs OrchestrationStatusCompleted (pvcBacked a)).

(** ** An OSD *)

(** The volume group found for the activation is a variable of its own block: the one that is released
    at the end stays empty.  Nor is a missing volume group an error: there is no error to wrap. *)
Definition StartOSD (osdType osdID osdUUID lvPath : string) (pvcBackedOSD lvBackedPV : bool) (cephArgs : list string) : MW W unit :=
  _ ← try_ (silent (env_mkdir ("/var/lib/ceph/osd/ceph-" +:+ osdID)));
  _ ← wrapM (UpdateLVMConfig pvcBackedOSD lvBackedPV) "failed to update lvm configuration file" [];
  let volumeGroupName := "" in
  let start :=
    _ ← wrapM (exec ["stdbuf"; "-oL"; "ceph-volume"; "lvm"; "activate"; "--no-systemd"; "--" +:+ osdType; osdID; osdUUID])
          "failed to activate osd" [];
    _ ← try_ (exec ("ceph-osd" :: cephArgs));
    if pvcBackedOSD && negb lvBackedPV then _ ← try_ (releaseLVMDevice volumeGroupName); mret () else mret () in
  if pvcBackedOSD && negb lvBackedPV then
    let volumeGroupName := getVolumeGroupName lvPath in
    if String.eqb volumeGroupName "" then mret ()
    else
      _ ← try_ (exec ["vgchange"; "-an"; "-vv"; volumeGroupName]);
      _ ← wrapM (exec ["vgchange"; "-ay"; "-vv"; volumeGroupName]) "failed to activate volume group for lv %q. output: %s" [lvPath];
      start
  else start.

Definition killCephOSDProcess (lvPath : string) : MW W unit :=
  pid ← wrapM (exec ["fuser"; "-a"; lvPath]) "failed to retrieve process ID for %q" [lvPath];
  if String.eqb pid "" then mret ()
  else _ ← wrapM (exec ["kill"; pid]) "failed to kill ceph-osd process" []; mret ().

Definition GetOSDInfoById (osdID : Z) : MW W OSDInfo :=
  osdLVMList ← wrapM (GetCephVolumeLVMOSDs a "" false false) "failed to list lvm osd(s)" [];
  match List.find (fun o => ID o =? osdID) osdLVMList with
  | Some o => mret o
  | None =>
      osdRawList ← wrapM (GetCephVolumeRawOSDs a "" "" "" false true []) "failed to list raw osd(s)" [];
      match List.find (fun o => ID o =? osdID) osdRawList with
      | Some o => mret o
      | None => fail (Errorf "failed to get details for OSD %d using ceph-volume list" [Itoa osdID])
      end
  end.

End Replace.

End Prepare.
