(* ===== verification/Remove.v ===== *)
(** * Remove: the removal of OSDs

    Models [pkg/daemon/ceph/osd/remove.go] with the commands of [pkg/daemon/ceph/client] it runs
    ([FindOSDInCrushMap] and [GetCrushHostName] in [crush.go], [crash.go]): purging OSDs that are down
    with their deployments, jobs and claims, and destroying an OSD whose device is prepared again. *)

From stdpp Require Import base gmap strings list fin_maps.
From Stdlib Require Import ZArith Ascii.
From S2P Require Import Prelude CephVersion GoTime Topology Kube Disruption Upgrade Cephx OsdBase OsdSpec OsdReplace OsdRollout Devices Provision Prepare.
Import Log Version GoTime Kube Upgrade Cephx OsdBase OsdSpec OsdReplace OsdRollout Devices Provision Prepare.
Open Scope Z_scope.

Module Remove.

Definition CephSetIndexLabelKey : string := "ceph.rook.io/setIndex".

Definition CephDeviceSetPVCIDLabelKey : string := "ceph.rook.io/DeviceSetPVCId".

(** Of a crash, its ID and the daemon. *)
Record CrashList := { crash_id : string; Entity : string }.

Class RemoveEnv (W : Type) := {
  remove_provision :: ProvisionEnv W;
  env_write_ceph_config : M W unit;
  (** the field [crush_location] of [ceph osd find] *)
  json_crush_find : string -> option (gmap string string);
  json_crashes : string -> option (list CrashList);
  env_get_claim : string -> string -> M W Claim;
  env_list_claims : string -> string -> M W (list Claim);
  env_update_claim : string -> Claim -> M W unit;
  env_delete_claim : string -> string -> M W unit;
  env_list_jobs : string -> string -> M W (list Job);
}.

Section Remove.
Context {W : Type} `{RemoveEnv W} (ns : string).

(** ** Commands to Ceph *)

Definition FindOSDInCrushMap (osdID : Z) : MW W (gmap string string) :=
  buf ← wrapM (run_ceph ["osd"; "find"; Itoa osdID]) "failed to find osd.%d in crush map: %s" [Itoa osdID];
  unmarshal (json_crush_find (W := W) buf) "failed to unmarshal crush find result: %s".

Definition GetCrushHostName (osdID : Z) : MW W string :=
  location ← FindOSDInCrushMap osdID;
  mret (default "" (location !! "host")).

Definition GetCrashList : MW W (list CrashList) :=
  output ← wrapM (run_ceph ["crash"; "ls"]) "failed to list ceph crash" [];
  unmarshal (json_crashes (W := W) output) "failed to unmarshal crash ls response. %s".

Definition GetCrash : MW W (list CrashList) := wrapM GetCrashList "failed to list ceph crash" [].

Definition ArchiveCrash (crashID : string) : MW W unit :=
  _ ← wrapM (run_ceph ["crash"; "archive"; crashID]) "failed to archive crash %q" [crashID]; mret ().

(** ** What belongs to an OSD *)

Definition archiveCrash (osdID : Z) : MW W unit :=
  r ← try_ GetCrash;
  match r with
  | Err _ => mret ()
  | Ok crash =>
      forM_ (List.filter (fun c => String.eqb (Entity c) ("osd." +:+ Itoa osdID)) crash)
        (fun c => _ ← try_ (ArchiveCrash (crash_id c)); mret ())
  end.

(** The list is empty when it could not be fetched. *)
Definition removeOSDPrepareJob (pvcName : string) : MW W unit :=
  let labelSelector := OSDOverPVCLabelKey +:+ "=" +:+ pvcName in
  r ← try_ (record (ListJobs ns labelSelector) (env_list_jobs ns labelSelector));
  forM_ (match r with Ok l => l | Err _ => [] end)
    (fun job => _ ← try_ (DeleteBatchJob ns (job_name job) false); mret ()).

Definition update_claim (c : Claim) : MW W unit := record (UpdateClaim ns c) (env_update_claim ns c).

Definition delete_claim (name : string) : MW W unit := record (DeleteClaim ns name) (env_delete_claim ns name).

(** To keep a claim, the labels of the loop variable are replaced by those of the data claim without
    its ID, but the element of the list is sent, which is unchanged. *)
Definition detach_claim (labels : gmap string string) (item : Claim) : MW W unit :=
  let _pvc := {| claim_name := claim_name item; claim_labels := delete CephDeviceSetPVCIDLabelKey labels |} in
  _ ← try_ (update_claim item); mret ().

Definition removePVCs (dataPVCName : string) (preservePVC : bool) : MW W unit :=
  r ← try_ (record (GetClaim ns dataPVCName) (env_get_claim ns dataPVCName));
  match r with
  | Err _ => mret ()
  | Ok dataPVC =>
      let labels := claim_labels dataPVC in
      let label key := default "" (labels !! key) in
      let labelSelector := CephDeviceSetLabelKey +:+ "=" +:+ label CephDeviceSetLabelKey +:+ "," +:+
                           CephSetIndexLabelKey +:+ "=" +:+ label CephSetIndexLabelKey in
      l ← try_ (record (ListClaims ns labelSelector) (env_list_claims ns labelSelector));
      match l with
      | Err _ => mret ()
      | Ok pvcs =>
          forM_ pvcs (fun pvc => if preservePVC then detach_claim labels pvc
                                 else _ ← try_ (delete_claim (claim_name pvc)); mret ())
      end
  end.

(** ** Purging an OSD *)

(** The loop runs until the OSD is safe to destroy, or once when the removal is forced; [false] when
    the fuel ends first. *)
Fixpoint wait_safe (fuel : nat) (osdID : Z) (forceOSDRemoval : bool) : MW W bool :=
  match fuel with
  | O => mret false
  | S fuel =>
      r ← try_ (OsdSafeToDestroy osdID);
      match r with
      | Err _ => if forceOSDRemoval then mret true else _ ← try_ (sleep 60); wait_safe fuel osdID forceOSDRemoval
      | Ok isSafeToDestroy =>
          if (isSafeToDestroy : bool) || forceOSDRemoval then mret true
          else _ ← try_ (sleep 15); wait_safe fuel osdID forceOSDRemoval
      end
  end.

Definition out_args (osdID : Z) : list string := ["osd"; "out"; "osd." +:+ Itoa osdID].

Definition purge_args (osdID : Z) : list string := ["osd"; "purge"; "osd." +:+ Itoa osdID; "--force"; "--yes-i-really-mean-it"].

(** The deployment, and for an OSD on a claim its prepare jobs and claims. *)
Definition remove_objects (osdID : Z) (preservePVC : bool) : MW W unit :=
  let deploymentName := "rook-ceph-osd-" +:+ Itoa osdID in
  r ← try_ (get_deployment ns deploymentName);
  match r with
  | Err _ => mret ()
  | Ok deployment =>
      _ ← try_ (DeleteDeployment_ ns deploymentName);
      match dep_labels deployment !! OSDOverPVCLabelKey with
      | Some pvcName => _ ← removeOSDPrepareJob pvcName; removePVCs pvcName preservePVC
      | None => mret ()
      end
  end.

(** No failure stops the removal; [false] when it still waits. *)
Definition removeOSD (fuel : nat) (osdID : Z) (preservePVC forceOSDRemoval : bool) : MW W bool :=
  h ← try_ (GetCrushHostName osdID);
  let hostName := match h with Ok n => n | Err _ => "" end in
  _ ← try_ (run_ceph (out_args osdID));
  safe ← wait_safe fuel osdID forceOSDRemoval;
  if negb safe then mret false
  else
    _ ← remove_objects osdID preservePVC;
    _ ← try_ (run_ceph (purge_args osdID));
    _ ← try_ (run_ceph ["osd"; "crush"; "rm"; hostName]);
    _ ← archiveCrash osdID;
    mret true.

Fixpoint remove_osds (fuel : nat) (osdDump : OSDDump) (preservePVC forceOSDRemoval : bool) (osdsToRemove : list string) : MW W bool :=
  match osdsToRemove with
  | [] => mret true
  | osdIDStr :: osdsToRemove =>
      match Atoi osdIDStr with
      | None => remove_osds fuel osdDump preservePVC forceOSDRemoval osdsToRemove
      | Some osdID =>
          '(status, _) ← wrapM (lift (StatusByID osdDump osdID)) "failed to get osd status for osd %d" [Itoa osdID];
          if status =? 1 then remove_osds fuel osdDump preservePVC forceOSDRemoval osdsToRemove
          else
            removed ← removeOSD fuel osdID preservePVC forceOSDRemoval;
            if (removed : bool) then remove_osds fuel osdDump preservePVC forceOSDRemoval osdsToRemove else mret false
      end
  end.

Definition RemoveOSDs (fuel : nat) (osdsToRemove : list string) (preservePVC forceOSDRemoval : bool) : MW W bool :=
  _ ← wrapM (silent env_write_ceph_config) "failed to write the ceph config" [];
  osdDump ← wrapM GetOSDDump "failed to get osd dump" [];
  remove_osds fuel osdDump preservePVC forceOSDRemoval osdsToRemove.

(** ** Destroying an OSD *)

Definition destroyed_block (a : OsdAgent) (isPVC : bool) (osdInfo : OSDInfo) : MW W string :=
  if isPVC then
    _ ← (if Encrypted osdInfo then
           let target := EncryptionDMName (pvcName_ (W := W)) DmcryptBlockType in
           wrapM (RemoveEncryptedDevice target) "failed to remove dm device %q" [target]
         else mret ());
    let blockPath := "/mnt/" +:+ pvcName_ (W := W) in
    diskInfo ← wrapM (PopulateDeviceInfo blockPath) "failed to get device info for %q" [blockPath];
    mret (RealPath diskInfo)
  else mret (BlockPath osdInfo).

Definition DestroyOSD (a : OsdAgent) (id : Z) (isPVC : bool) : MW W OSDInfo :=
  osdInfo ← wrapM (GetOSDInfoById a id) "failed to get OSD info for OSD.%d" [Itoa id];
  _ ← wrapM (run_ceph ["osd"; "destroy"; "osd." +:+ Itoa (ID osdInfo); "--yes-i-really-mean-it"])
        "failed to destroy osd.%d." [Itoa (ID osdInfo)];
  blockPath ← destroyed_block a isPVC osdInfo;
  _ ← wrapM (exec ["stdbuf"; "-oL"; "ceph-volume"; "lvm"; "zap"; blockPath; "--destroy"])
        "failed to zap osd.%d path %q. %s." [Itoa (ID osdInfo); blockPath];
  mret (set_BlockPath blockPath osdInfo).

End Remove.

End Remove.
