(* ===== verification/KeyRotation.v ===== *)
(** * KeyRotation: rotating the key of encrypted OSDs

    Models [pkg/daemon/ceph/osd/key_rotation.go] and the key slots of [encryption.go]
    ([removeEncryptionKeySlot], [ensureEncryptionKey], [addEncryptionKey]).

    cryptsetup and the key management service are the class [KeyEnv].  What the rotation relies on is
    the class [KeyLaws]: what the commands do to the slots of a device when they succeed, and that a
    command that fails has done its work or nothing.  The world records the slots and the secrets
    after every call, so a theorem on the recorded views is one on every moment at which the process
    can be killed. *)

From stdpp Require Import base gmap strings list fin_maps.
From Stdlib Require Import ZArith Ascii.
From S2P Require Import Prelude.
Import Log.
Open Scope Z_scope.

Module KeyRotation.

(** ** Slots and secrets *)

(** The passphrases of the slots of each device, and the secrets of the key management service. *)
Record View := { slots : gmap string (gmap string string); secrets : gmap string string }.

Definition slotZero : string := "0".

Definition slotOne : string := "1".

Definition slots_of (v : View) (disk : string) : gmap string string := default ∅ (slots v !! disk).

Definition secret_of (v : View) (name : string) : string := default "" (secrets v !! name).

(** A command line of cryptsetup, with the contents of the key files it names *)
Inductive luks_cmd :=
| luksKillSlot (key disk slot : string)
| luksChangeKey (key slot disk newKey : string)
| luksAddKey (key slot disk newKey : string).

(** What cryptsetup documents: a slot in use is removed only with the passphrase of a remaining slot, and a
    passphrase is added only to a free slot, with the passphrase of some slot. *)
Definition luks_ok (cmd : luks_cmd) (v : View) : Prop :=
  match cmd with
  | luksKillSlot key disk slot => is_Some (slots_of v disk !! slot) /\ exists s, s <> slot /\ slots_of v disk !! s = Some key
  | luksChangeKey key slot disk _ => slots_of v disk !! slot = Some key
  | luksAddKey key slot disk _ => (exists s, slots_of v disk !! s = Some key) /\ slots_of v disk !! slot = None
  end.

Definition set_slots (v : View) (disk : string) (m : gmap string string) : View :=
  {| slots := <[disk := m]> (slots v); secrets := secrets v |}.

Definition luks_do (cmd : luks_cmd) (v : View) : View :=
  match cmd with
  | luksKillSlot _ disk slot => set_slots v disk (delete slot (slots_of v disk))
  | luksChangeKey _ slot disk newKey | luksAddKey _ slot disk newKey => set_slots v disk (<[slot := newKey]> (slots_of v disk))
  end.

Definition set_secret (v : View) (name key : string) : View :=
  {| slots := slots v; secrets := <[name := key]> (secrets v) |}.

Definition not_active (slot : string) : string := "Keyslot " +:+ slot +:+ " is not active".

Definition is_full (slot : string) : string := "Key slot " +:+ slot +:+ " is full".

Definition no_key : string := "No key available with this passphrase".

(** What the text of an error says about the slots; a command that is refused does nothing. *)
Definition refused (cmd : luks_cmd) (text : string) (v : View) : Prop :=
  match cmd with
  | luksKillSlot _ disk slot => Contains text (not_active slot) = true /\ slots_of v disk !! slot = None
  | luksChangeKey key slot disk _ => Contains text no_key = true /\ slots_of v disk !! slot <> Some key
  | luksAddKey _ slot disk _ => Contains text (is_full slot) = true /\ is_Some (slots_of v disk !! slot)
  end.

Definition says_refused (cmd : luks_cmd) (text : string) : bool :=
  match cmd with
  | luksKillSlot _ _ slot => Contains text (not_active slot)
  | luksChangeKey _ _ _ _ => Contains text no_key
  | luksAddKey _ slot _ _ => Contains text (is_full slot)
  end.

(** ** The environment *)

Class KeyEnv (W : Type) := {
  view : W -> View;
  (** [util.CreateTempFile] *)
  env_temp_file : string -> M W unit;
  env_luks : luks_cmd -> M W unit;
  (** the text of the error of a command, followed by its output *)
  luks_text : gerror -> string;
  env_get_secret : string -> M W string;
  env_update_secret : string -> string -> M W unit;
  (** [oposd.GenerateDmCryptKey] *)
  env_generate_key : M W string;
}.

Class KeyLaws (W : Type) `{KeyEnv W} := {
  law_temp_file s e : view (env_temp_file s e).1 = view e;
  law_get_secret n e : view (env_get_secret n e).1 = view e;
  law_secret n e k : (env_get_secret n e).2 = Ok k -> k = secret_of (view e) n;
  law_generate e : view (env_generate_key e).1 = view e;
  law_update_ok n k e : (env_update_secret n k e).2 = Ok () -> view (env_update_secret n k e).1 = set_secret (view e) n k;
  law_update n k e : view (env_update_secret n k e).1 = view e \/ view (env_update_secret n k e).1 = set_secret (view e) n k;
  law_luks_ok cmd e :
    (env_luks cmd e).2 = Ok () -> luks_ok cmd (view e) /\ view (env_luks cmd e).1 = luks_do cmd (view e);
  law_luks cmd e :
    view (env_luks cmd e).1 = view e \/ (luks_ok cmd (view e) /\ view (env_luks cmd e).1 = luks_do cmd (view e));
  law_luks_refused cmd e err :
    (env_luks cmd e).2 = Err err -> says_refused cmd (luks_text err) = true ->
    refused cmd (luks_text err) (view e) /\ view (env_luks cmd e).1 = view e;
}.

(** A call, with what is left of it in the slots and secrets. *)
Definition traced {W A} `{KeyEnv W} (m : M W A) : M (world W View) A := fun w =>
  let '(e, r) := m (env w) in (World e (log w ++ [view e]), r).

(** ** Key slots ([encryption.go]) *)

Section Slots.
Context {W : Type} `{KeyEnv W}.

Abbreviation MV := (M (world W View)).

Definition temp_file (contents : string) : MV unit := traced (env_temp_file contents).

Definition removeEncryptionKeySlot (disk passphrase slot : string) : MV unit :=
  _ ← wrapM (temp_file passphrase) "failed to create passphrase file" [];
  r ← try_ (traced (env_luks (luksKillSlot passphrase disk slot)));
  match r with
  | Ok _ => mret ()
  | Err err =>
      if Contains (luks_text err) (not_active slot) then mret ()
      else fail (Wrapf err "failed to remove key slot %q of encrypted device %q: %q" [slot; disk])
  end.

Definition ensureEncryptionKey (disk passphrase slot : string) : MV bool :=
  _ ← wrapM (temp_file passphrase) "failed to create passphrase file" [];
  r ← try_ (traced (env_luks (luksChangeKey passphrase slot disk passphrase)));
  match r with
  | Ok _ => mret true
  | Err err =>
      if Contains (luks_text err) no_key then mret false
      else fail (Wrapf err "failed to ensure passphrase in slot %q of encrypted device %q: %q" [slot; disk])
  end.

(** A full slot with another key is emptied before the next try; [fuel] bounds the tries. *)
Fixpoint addEncryptionKey (fuel : nat) (disk passphrase newPassphrase slot : string) : MV unit :=
  match fuel with
  | O => fail (Errorf "out of fuel" [])
  | S fuel =>
      _ ← wrapM (temp_file passphrase) "failed to create passphrase file" [];
      _ ← wrapM (temp_file newPassphrase) "failed to create new passphrase file" [];
      r ← try_ (traced (env_luks (luksAddKey passphrase slot disk newPassphrase)));
      match r with
      | Ok _ => mret ()
      | Err err =>
          if Contains (luks_text err) (is_full slot) then
            matched ← wrapM (ensureEncryptionKey disk newPassphrase slot) "failed to ensure passphrase in slot %q of encrypted device %q"
                        [slot; disk];
            if (matched : bool) then mret ()
            else
              _ ← wrapM (removeEncryptionKeySlot disk passphrase slot) "failed to remove key slot %q of encrypted device %q" [slot; disk];
              wrapM (addEncryptionKey fuel disk passphrase newPassphrase slot)
                "failed to add new passphrase to slot %q encrypted device %q" [slot; disk]
          else fail (Wrapf err "failed to add new passphrase to encrypted device %q: %q" [disk])
      end
  end.

(** ** The rotation ([key_rotation.go]) *)

(** The current key goes to slot 1. *)
Definition save_current (fuel : nat) (currentKey devicePath : string) : MV unit :=
  wrapM (addEncryptionKey fuel devicePath currentKey currentKey slotOne) "failed to add the current key to slot %q of the device" [slotOne].

(** The new key takes slot 0. *)
Definition install_new (fuel : nat) (currentKey newKey devicePath : string) : MV unit :=
  _ ← wrapM (removeEncryptionKeySlot devicePath currentKey slotZero) "failed to remove key slot %q of the device %q" [slotZero; devicePath];
  wrapM (addEncryptionKey fuel devicePath currentKey newKey slotZero) "failed to add new key to slot %q of the device %q" [slotZero; devicePath].

Definition drop_old (newKey devicePath : string) : MV unit :=
  wrapM (removeEncryptionKeySlot devicePath newKey slotOne) "failed to remove the old key from the slot %q of the device %q"
    [slotOne; devicePath].

Definition RotateKeyEncryptionKey (fuel : nat) (secretName : string) (devicePaths : list string) : MV unit :=
  currentKey ← wrapM (traced (env_get_secret secretName)) "failed to get secret %q" [secretName];
  if String.eqb currentKey "" then fail (Errorf "the secret %q is empty, cannot rotate the key" [secretName])
  else
    _ ← forM_ devicePaths (save_current fuel currentKey);
    newKey ← wrapM (traced env_generate_key) "failed to generate new key" [];
    _ ← forM_ devicePaths (install_new fuel currentKey newKey);
    _ ← wrapM (traced (env_update_secret secretName newKey)) "failed to update secret %q with new key" [secretName];
    keyInKMS ← wrapM (traced (env_get_secret secretName)) "failed to get secret %q" [secretName];
    if negb (String.eqb keyInKMS newKey)
    then fail (Errorf "failed to verify the new key in the KMS, the fetched key is not the same as the new key" [])
    else forM_ devicePaths (drop_old newKey).

End Slots.

End KeyRotation.
