(* ===== verification/HostCleanup.v ===== *)
(** * HostCleanup: what is left of a cluster on a host

    Models [pkg/daemon/ceph/cleanup/hostpath.go] and [disk.go], with [ExtractKey] of
    [pkg/operator/ceph/controller/cluster_info.go] and the command [rook ceph clean host] of
    [cmd/rook/ceph/cleanup.go].

    Disks are sanitized by goroutines.  A goroutine is a [proc]: a tree of the calls it makes and of what it
    does with their answers.  The main goroutine starts others and waits for them; the relation [step]
    lets any of them make its next call. *)

From stdpp Require Import base gmap strings list fin_maps.
From Stdlib Require Import ZArith Ascii.
From S2P Require Import Prelude Cephx OsdBase OsdSpec Devices Provision.
Import Log Cephx OsdBase OsdSpec Devices Provision.
Open Scope Z_scope.

Module HostCleanup.

(** ** The directories of the host ([hostpath.go]) *)

Class HostEnv (W : Type) := {
  host_provision :: ProvisionEnv W;
  env_stat_path : string -> M W unit;
  env_read_path : string -> M W string;
  env_glob : string -> M W (list string);
  (** the entries of a directory, and whether they are directories *)
  env_read_dir : string -> M W (list (string * bool));
  env_remove_all : string -> M W unit;
  is_not_exist : gerror -> bool;
}.

(** [filepath.Join] to an absolute directory. *)
Definition join_path (dir name : string) : string := "/" +:+ Join (foldl clean_step [] (split_byte "/" dir ++ split_byte "/" name)) "/".

(** [sys.Grep]: the first line that contains the text. *)
Definition Grep (input searchFor : string) : string :=
  if String.eqb input "" || String.eqb searchFor "" then ""
  else default "" (head (List.filter (fun line => Contains line searchFor) (split_byte newline input))).

Definition ExtractKey (contents : string) : result string :=
  match Fields (Grep contents "key") with
  | _ :: _ :: secret :: _ => if String.eqb secret "" then Err (Errorf "failed to parse secret" []) else Ok secret
  | _ => Err (Errorf "failed to parse secret" [])
  end.

Section Paths.
Context {W : Type} `{HostEnv W}.

Definition stat (p : string) : MW W unit := record (Stat p) (env_stat_path p).

Definition remove_all (p : string) : MW W unit := record (RemoveAll p) (env_remove_all p).

(** An error is only logged. *)
Definition remove_logged (p : string) : MW W unit := _ ← try_ (remove_all p); mret ().

(** Errors of [Stat] other than that the file is missing do not matter. *)
Definition secretKeyMatch (monDir monSecret : string) : MW W bool :=
  let keyring := join_path monDir "/data/keyring" in
  r ← try_ (stat keyring);
  _ ← match r with
      | Err err => if is_not_exist (W := W) err then fail (Wrapf err "failed to read keyring %q for the mon directory %q" [keyring; monDir]) else mret ()
      | Ok _ => mret ()
      end;
  contents ← wrapM (record (ReadFile keyring) (env_read_path keyring)) "failed to read keyring %q for the mon directory %q" [keyring; monDir];
  extractedKey ← wrapM (lift (ExtractKey contents)) "failed to extract secret key from the keyring %q for the mon directory %q" [keyring; monDir];
  mret (String.eqb monSecret extractedKey).

Definition clean_mon_dir (monSecret monDir : string) : MW W unit :=
  r ← try_ (secretKeyMatch monDir monSecret);
  match r with Ok true => remove_logged monDir | _ => mret () end.

Definition mon_pattern (dataDirHostPath : string) : string := join_path dataDirHostPath "mon-*".

Definition cleanMonDirs (dataDirHostPath monSecret : string) : MW W unit :=
  r ← try_ (record (Glob (mon_pattern dataDirHostPath)) (env_glob (mon_pattern dataDirHostPath)));
  match r with
  | Err _ => mret ()
  | Ok monDirs => forM_ monDirs (clean_mon_dir monSecret)
  end.

Definition cleanExporterDir (dataDirHostPath : string) : MW W unit :=
  let exporterDir := join_path dataDirHostPath "exporter" in
  r ← try_ (stat exporterDir);
  match r with
  | Err err => if is_not_exist (W := W) err then mret () else remove_logged exporterDir
  | Ok _ => remove_logged exporterDir
  end.

Definition csi_dir (entry : string * bool) : bool := entry.2 && HasSuffix entry.1 ".csi.ceph.com".

Definition cleanCSIDirs (dataDirHostPath : string) : MW W unit :=
  r ← try_ (record (ReadDir dataDirHostPath) (env_read_dir dataDirHostPath));
  match r with
  | Err _ => mret ()
  | Ok entries =>
      forM_ entries (fun entry => if csi_dir entry then remove_logged (join_path dataDirHostPath entry.1) else mret ())
  end.

Definition StartHostPathCleanup (namespaceDir dataDirHostPath monSecret : string) : MW W unit :=
  _ ← remove_logged (join_path dataDirHostPath namespaceDir);
  _ ← cleanMonDirs dataDirHostPath monSecret;
  _ ← cleanExporterDir dataDirHostPath;
  cleanCSIDirs dataDirHostPath.

End Paths.

(** ** Goroutines *)

Inductive proc (W : Type) : Type :=
| Exit
(* an index out of range *)
| Panic
| Do {A : Type} (m : MW W A) (k : result A -> proc W)
(* starts a goroutine of the wait group *)
| Go (child p : proc W)
(* [wg.Wait()] *)
| Wait (p : proc W).

Arguments Exit {W}.
Arguments Panic {W}.
Arguments Do {W A} m k.
Arguments Go {W} child p.
Arguments Wait {W} p.

(** The main goroutine and those of its wait group. *)
Record threads (W : Type) := { main : proc W; children : list (proc W) }.

Arguments Build_threads {W}.
Arguments main {W}.
Arguments children {W}.

Definition is_exit {W} (p : proc W) : bool := match p with Exit => true | _ => false end.

(** The next call of a goroutine and what it does then. *)
Definition advance {W} (p : proc W) (w : world W event) : option (world W event * proc W) :=
  match p with Do m k => let '(w', r) := m w in Some (w', k r) | _ => None end.

(** The process ends when the main goroutine returns or a goroutine panics: no goroutine of it goes on. *)
Definition ended {W} (p : proc W) : bool := match p with Exit | Panic => true | _ => false end.

Inductive step {W} : world W event * threads W -> world W event * threads W -> Prop :=
| main_does w p cs w' p' : advance p w = Some (w', p') -> step (w, Build_threads p cs) (w', Build_threads p' cs)
| main_goes w child p cs : step (w, Build_threads (Go child p) cs) (w, Build_threads p (cs ++ [child]))
| main_waited w p cs : forallb is_exit cs = true -> step (w, Build_threads (Wait p) cs) (w, Build_threads p [])
| child_does w p cs1 c cs2 w' c' :
    ended p = false -> advance c w = Some (w', c') -> step (w, Build_threads p (cs1 ++ c :: cs2)) (w', Build_threads p (cs1 ++ c' :: cs2)).

(** ** Sanitizing disks ([disk.go]) *)

Record SanitizeDisksSpec := { Method : string; DataSource : string; Iteration : Z }.

Definition SanitizeDataSourceZero : string := "zero".

Definition SanitizeMethodQuick : string := "quick".

Section Sanitizer.
Context {W : Type} `{HostEnv W} (spec : SanitizeDisksSpec) (a : OsdAgent).

Definition buildDataSource : string := "/dev/" +:+ DataSource spec.

Definition buildShredArgs (disk : string) : list string :=
  (if String.eqb (DataSource spec) SanitizeDataSourceZero then [] else ["--zero"]) ++
  (if String.eqb (DataSource spec) SanitizeDataSourceZero then ["--random-source=" +:+ buildDataSource] else []) ++
  ["--force"; "--verbose"; "--iterations=" +:+ Itoa (Iteration spec); disk].

Definition completeShredUtility : string := "shred".

Definition buildQuickShredCommands (disk : string) : list (list string) := [["ceph-volume"; "lvm"; "zap"; disk]].

Definition buildShredCommands (disk : string) : list (list string) :=
  if String.eqb (Method spec) SanitizeMethodQuick then buildQuickShredCommands disk
  else if String.eqb (DataSource spec) SanitizeDataSourceZero then [completeShredUtility :: buildShredArgs disk]
  else [completeShredUtility :: buildShredArgs disk].

(** Commands one after the other; errors are only logged. *)
Fixpoint run_commands (cmds : list (list string)) : proc W :=
  match cmds with [] => Exit | cmd :: cmds => Do (exec cmd) (fun _ => run_commands cmds) end.

Definition osd_devices (blockPath : string) (osdInfo : OSDInfo) : list string :=
  List.filter (fun device => negb (String.eqb device "")) [blockPath; MetadataPath osdInfo; WalPath osdInfo].

Definition shred_commands (blockPath : string) (osdInfo : OSDInfo) : list (list string) :=
  osd_devices blockPath osdInfo ≫= buildShredCommands.

(** Of an encrypted device the device behind it is sanitized, if it is found. *)
Definition executeSanitizeCommand (osdInfo : OSDInfo) : proc W :=
  let shred blockPath := run_commands (shred_commands blockPath osdInfo) in
  if Encrypted osdInfo then
    Do (GetBackingDeviceForEncryptedBlock (BlockPath osdInfo)) (fun r =>
      match r with
      | Err _ => shred (BlockPath osdInfo)
      | Ok realPath => Do (RemoveEncryptedDevice (BlockPath osdInfo)) (fun _ => shred realPath)
      end)
  else shred (BlockPath osdInfo).

Definition zap_osd_cmd (osdID : Z) : list string := ["stdbuf"; "-oL"; "ceph-volume"; "lvm"; "zap"; "--osd-id"; Itoa osdID; "--destroy"].

Definition wipeLVM (osdID : Z) : proc W := Do (exec (zap_osd_cmd osdID)) (fun _ => Exit).

Definition pv_cmd (disk : string) : list string := ["lvs"; disk; "-o"; "seg_pe_ranges"; "--noheadings"].

Definition returnPVDevice (r : result string) : list string := match r with Err _ => [] | Ok output => split_byte ":" output end.

(** A goroutine per disk, all of them awaited before [k]. *)
Fixpoint sanitize_each (osds : list OSDInfo) (k : proc W) : proc W :=
  match osds with [] => Wait k | osd :: osds => Go (executeSanitizeCommand osd) (sanitize_each osds k) end.

Definition SanitizeRawDisk (osdRawList : list OSDInfo) (k : proc W) : proc W := sanitize_each osdRawList k.

(** An OSD of which only the path is given. *)
Definition on_path (p : string) : OSDInfo :=
  {| ID := 0; OSDCluster := ""; UUID := ""; DevicePartUUID := ""; DeviceClass := ""; BlockPath := p; MetadataPath := ""; WalPath := "";
     SkipLVRelease := false; Location := ""; LVBackedPV := false; CVMode := ""; Store := ""; TopologyAffinity := ""; Encrypted := false;
     ExportService := false; NodeName := ""; PVCName := ""; DeviceType := ""; info_CephxStatus := empty_status |}.

(** The volumes are zapped while the next one is looked up; their disks are sanitized when all are. *)
Fixpoint zap_each (osds : list OSDInfo) (pvs : list string) (k : proc W) : proc W :=
  match osds with
  | [] => Wait (sanitize_each (on_path <$> pvs) k)
  | osd :: osds =>
      Do (exec (pv_cmd (BlockPath osd))) (fun r =>
        match returnPVDevice r with
        | [] => Panic
        | pv :: _ => Go (wipeLVM (ID osd)) (zap_each osds (pvs ++ [pv]) k)
        end)
  end.

Definition SanitizeLVMDisk (osdLVMList : list OSDInfo) (k : proc W) : proc W := zap_each osdLVMList [] k.

Definition StartSanitizeDisks : proc W :=
  let raw :=
    Do (GetCephVolumeRawOSDs a "" "" "" false true []) (fun r =>
      match r with Err _ => Exit | Ok osdRawList => SanitizeRawDisk osdRawList Exit end) in
  Do (GetCephVolumeLVMOSDs a "" false false) (fun r =>
    match r with Err _ => raw | Ok osdLVMList => SanitizeLVMDisk osdLVMList raw end).

(** The command of the job on a host ([cmd/rook/ceph/cleanup.go]). *)
Definition startHostCleanUp (dataDirHostPath namespaceDir monSecret : string) : proc W :=
  if String.eqb dataDirHostPath "" then StartSanitizeDisks
  else Do (StartHostPathCleanup namespaceDir dataDirHostPath monSecret) (fun _ => StartSanitizeDisks).

End Sanitizer.

End HostCleanup.
