(* ===== verification/NodeLab.v ===== *)
(** * NodeLab: a concrete node

    An instance of the environments of the OSD daemon (files Devices, Provision and Remove), given by the
    answers to commands and requests.  The theorems hold for every environment; the witnesses of the
    safety theorems run in this one. *)

From stdpp Require Import base gmap strings list fin_maps.
From Stdlib Require Import ZArith Ascii.
From S2P Require Import Prelude CephVersion GoTime Topology Kube Disruption Upgrade Cephx OsdBase OsdSpec OsdReplace OsdRollout Devices Provision Prepare Remove.
Import Log Version GoTime Kube Upgrade Cephx OsdBase OsdSpec OsdReplace OsdRollout Devices Provision Prepare Remove.
Open Scope Z_scope.

Module NodeLab.

(** The answers of the node and of Ceph do not change. *)
Record Lab := {
  lab_exec : list string -> result string;
  lab_read : string -> result string;
  lab_ceph : list string -> result string;
  lab_deployments : list Deployment;
  lab_claims : list Claim;
}.

(** The documents the answers name. *)
Definition doc {A} (docs : list (string * A)) (s : string) : option A := snd <$> List.find (fun d => String.eqb d.1 s) docs.

Definition lab_dump : OSDDump := {| OSDs := [{| OSD := "3"; Up := "0"; In := "0" |}; {| OSD := "4"; Up := "1"; In := "1" |}] |}.

Definition tree_node (id : Z) (name type : string) (children : list Z) (status : string) : OsdTreeNode :=
  {| node_id := id; tree_name := name; node_type := type; Children := children; node_status := status |}.

(** The destroyed OSDs 3 and 5 on host [a], and 6 on host [b]. *)
Definition lab_tree : OsdTree :=
  {| Nodes := Some [tree_node (-1) "default" "root" [-2; -3] ""; tree_node (-2) "a" "host" [5; 4; 3] ""; tree_node (-3) "b" "host" [6] "";
                    tree_node 3 "osd.3" "osd" [] "destroyed"; tree_node 4 "osd.4" "osd" [] "up"; tree_node 5 "osd.5" "osd" [] "destroyed";
                    tree_node 6 "osd.6" "osd" [] "destroyed"]; Stray := [] |}.

Definition block (fsid device : string) (id : Z) : osdInfoBlock :=
  {| block_fsid := fsid; block_device := device; block_db := ""; block_wal := ""; block_osd := id; block_uuid := "u";
     block_type := "bluestore" |}.

#[export] Instance lab_osd : OsdEnv Lab := {
  osd_cmd := {|
    run_ceph args s := (s, lab_ceph s args);
    unmarshal_versions _ := None;
    unmarshal_tree := doc [("tree", lab_tree)];
    unmarshal_osds _ := None;
    unmarshal_status _ := None;
    ctx_err s := (s, Ok None);
    wait_delay _ s := (s, Ok None);
    load_cluster_info s := (s, Ok (None, None));
    write_connection_config _ s := (s, Ok ()) |};
  json_dump := doc [("dump", lab_dump)];
  json_metadata _ := None;
  json_safe_to_destroy := doc [("safe-3", [3]); ("none", [])];
  json_ok_to_stop _ := None;
  json_device_classes := doc [("classes", [{| class_osd := 3; class_name := "ssd" |}; {| class_osd := 5; class_name := "hdd" |}])];
  json_cephx _ := None;
  env_list_deployments _ _ s := (s, Ok (lab_deployments s));
  env_get_deployment _ name s :=
    (s, match List.find (fun d => String.eqb (dep_name d) name) (lab_deployments s) with Some d => Ok d | None => Err (APIStatus NotFound) end);
  env_update_deployment _ d s := (s, Ok d);
  env_create_deployment _ d s := (s, Ok d);
  env_delete_deployment _ name s :=
    ({| lab_exec := lab_exec s; lab_read := lab_read s; lab_ceph := lab_ceph s;
        lab_deployments := List.filter (fun d => negb (String.eqb (dep_name d) name)) (lab_deployments s); lab_claims := lab_claims s |}, Ok ());
  env_list_pods _ _ s := (s, Ok []);
  env_get_job _ _ s := (s, Err (APIStatus NotFound));
  env_create_job _ j s := (s, Ok j);
  env_delete_job _ _ s := (s, Ok ());
  env_get_node _ s := (s, Err (APIStatus NotFound));
  env_list_nodes _ s := (s, Ok []);
  env_now s := (s, Ok 0);
  env_sleep _ s := (s, Ok ());
  env_timed_out s := (s, Ok true);
  patch_is_empty _ _ := Ok false;
  set_last_applied d := Ok d;
}.

#[export] Instance lab_node : NodeEnv Lab := {
  env_exec cmd s := (s, lab_exec s cmd);
  env_read_device p s := (s, lab_read s p);
  getenv _ := "";
  look_path _ := true;
  regexp_match pattern s := Some (HasPrefix s pattern);
  parse_uuid s := None;
  json_inventory := doc [("available", true); ("in use", false)];
  json_lvm_keys := doc [("no osds", [])];
  json_raw_list := doc [("foreign", [block "other" "/dev/sdb" 7; block "ours" "/dev/sdc" 8]); ("no osds", [])];
  env_mkdir _ s := (s, Ok ());
}.

#[export] Instance lab_provision : ProvisionEnv Lab := {
  json_lvm_osds := doc [("no osds", [])];
  json_lvm_entries := doc [("no osds", ∅)];
  json_reports _ := None;
  env_visit keys s := (s, Ok keys);
  env_eval_symlinks p s := (s, Ok p);
  json_auth_key := doc [("key", "secret")];
  env_stat _ s := (s, Ok ());
  env_read_file _ s := (s, Ok "");
  env_write_file _ _ s := (s, Ok ());
  env_set_kek s := (s, Ok ());
  env_set_status _ _ s := (s, Ok ());
}.

#[export] Instance lab_remove : RemoveEnv Lab := {
  env_write_ceph_config s := (s, Ok ());
  json_crush_find := doc [("on a", <["host" := "a"]> ∅)];
  json_crashes := doc [("crashes", [{| crash_id := "c1"; Entity := "osd.3" |}; {| crash_id := "c2"; Entity := "osd.4" |}])];
  env_get_claim _ name s :=
    (s, match List.find (fun c => String.eqb (claim_name c) name) (lab_claims s) with Some c => Ok c | None => Err (APIStatus NotFound) end);
  env_list_claims _ _ s := (s, Ok (lab_claims s));
  env_update_claim _ _ s := (s, Ok ());
  env_delete_claim _ _ s := (s, Ok ());
  env_list_jobs _ _ s := (s, Ok []);
}.

#[export] Instance lab_errors : ErrorText := {
  ExtractExitCode _ := None;
  Error e := match e with External t => t | _ => "" end;
}.

(** A node with three disks: [sdb] has an OSD of another cluster, [sdc] is free, [sdd] is mounted. *)
Definition disk (name fs mount : string) (rotational : bool) : LocalDisk :=
  {| disk_Name := name; Parent := ""; DevLinks := ""; disk_Size := 100; disk_UUID := ""; Serial := ""; disk_Type := DiskType;
     Rotational := rotational; Readonly := false; Filesystem := fs; Mountpoint := mount; Vendor := ""; disk_Model := ""; WWN := "";
     WWNVendorExtension := ""; RealPath := "/dev/" +:+ name; KernelName := name |}.

Definition lab_store : StoreConfig :=
  {| WalSizeMB := 0; DatabaseSizeMB := 0; OSDsPerDevice := 1; EncryptedDevice := false; store_MetadataDevice := ""; store_DeviceClass := "";
     InitialWeight := ""; PrimaryAffinity := ""; store_StoreType := "bluestore" |}.

Definition desired (name : string) (filter : bool) : DesiredDevice :=
  {| desired_Name := name; desired_OSDsPerDevice := 1; desired_MetadataDevice := ""; desired_DatabaseSizeMB := 0; desired_DeviceClass := "";
     desired_InitialWeight := ""; desired_EncryptedDevice := false; IsFilter := filter; IsDevicePathFilter := false |}.

Definition agent (devices : list DesiredDevice) : OsdAgent :=
  {| FSID := "ours"; agent_nodeName := "a"; agent_devices := devices; metadataDevice_ := ""; storeConfig_ := lab_store; pvcBacked := false;
     migrateOSD := None; wipeDevicesFromOtherClusters := true; agent_version := mkv 19 2 3 0 "" |}.

Definition answers (cmd : list string) : result string :=
  match cmd with
  | "lsblk" :: _ => Ok ("TYPE=" +:+ String quote ("disk" +:+ String quote ""))
  | "ceph-volume" :: "inventory" :: _ => Ok "available"
  | ["stdbuf"; _; _; _; _; "raw"; "list"; _; _] => Ok "foreign"
  | ["stdbuf"; _; _; _; _; "lvm"; "list"; _; _; _] => Ok "no osds"
  | _ => Ok ""
  end.

Definition ceph_answers (args : list string) : result string :=
  match args with
  | ["osd"; "tree"] => Ok "tree"
  | ["osd"; "dump"] => Ok "dump"
  | "osd" :: "safe-to-destroy" :: _ => Ok "safe-3"
  | "osd" :: "find" :: _ => Ok "on a"
  | "osd" :: "crush" :: "get-device-class" :: _ => Ok "classes"
  | "auth" :: _ => Ok "key"
  | ["crash"; "ls"] => Ok "crashes"
  | _ => Ok ""
  end.

Definition lab : Lab :=
  {| lab_exec := answers; lab_read _ := Ok ""; lab_ceph := ceph_answers; lab_deployments := []; lab_claims := [] |}.

Definition disks : list LocalDisk := [disk "sdb" "ceph_bluestore" "" true; disk "sdc" "" "" false; disk "sdd" "" "/data" true].

End NodeLab.
