(* ===== verification/HostSafety.v ===== *)
(** * HostSafety: what the cleanup of a host removes, and that it ends

    The theorems on file HostCleanup. *)

From stdpp Require Import base gmap strings list fin_maps relations.
From Stdlib Require Import ZArith Ascii.
From S2P Require Import Prelude Cephx OsdBase OsdSpec Devices Provision HostCleanup NodeLab.
Import Log Cephx OsdBase OsdSpec Devices Provision HostCleanup NodeLab.
Open Scope Z_scope.

Module HostSafety.

(** ** Directories *)

Section Paths.
Context {W : Type} `{HostEnv W} (namespaceDir dataDirHostPath monSecret : string).

Definition keyring_of (monDir : string) : string := join_path monDir "/data/keyring".

(** A directory that was found by its name and whose keyring holds the secret of the cluster. *)
Definition own_mon_dir (p : string) (h : list event) : Prop :=
  (exists dirs, Glob (mon_pattern dataDirHostPath) (Ok dirs) ∈ h /\ p ∈ dirs) /\
  exists contents, ReadFile (keyring_of p) (Ok contents) ∈ h /\ ExtractKey contents = Ok monSecret.

Definition exporter_dir (p : string) (h : list event) : Prop :=
  p = join_path dataDirHostPath "exporter" /\
  exists r, Stat p r ∈ h /\ match r with Ok _ => True | Err err => is_not_exist (W := W) err = false end.

Definition listed_csi_dir (p : string) (h : list event) : Prop :=
  exists entries name, ReadDir dataDirHostPath (Ok entries) ∈ h /\ (name, true) ∈ entries /\ HasSuffix name ".csi.ceph.com" = true /\
    p = join_path dataDirHostPath name.

(** The cleanup looks at files, and removes only these directories. *)
Definition path_needs (h : list event) (ev : event) : Prop :=
  match ev with
  | RemoveAll p _ => p = join_path dataDirHostPath namespaceDir \/ own_mon_dir p h \/ exporter_dir p h \/ listed_csi_dir p h
  | Stat _ _ | ReadFile _ _ | Glob _ _ | ReadDir _ _ => True
  | _ => False
  end.

Lemma remove_triple p P :
  (forall r h, P h -> path_needs h (RemoveAll p r)) -> lasting P -> triple path_needs P (remove_logged (W := W) p) (fun _ => P).
Proof.
  intros Hn HP. unfold remove_logged. eapply (triple_bind _ _ _ _ (fun _ => P)); [apply triple_try, triple_record|intros r; by apply triple_ret|done].
  intros r h Hp. split; [by apply Hn|by apply HP].
Qed.

(** A call that looks at a file. *)
Lemma look_triple {A} (ev : result A -> event) (m : M W A) P :
  (forall r h, path_needs h (ev r)) -> lasting P -> triple path_needs P (record ev m) (fun r h => P h /\ ev r ∈ h).
Proof.
  intros Hn HP. apply triple_record. intros r h Hp. split_and!; [done|by apply HP|]. apply elem_of_app. right. apply list_elem_of_here.
Qed.

Lemma match_triple monDir P :
  lasting P ->
  triple path_needs P (secretKeyMatch (W := W) monDir monSecret)
    (fun r h => P h /\ (r = Ok true -> exists contents, ReadFile (keyring_of monDir) (Ok contents) ∈ h /\ ExtractKey contents = Ok monSecret)).
Proof.
  intros HP. unfold secretKeyMatch, stat.
  eapply triple_bind; [apply tried_triple, look_triple; [done|exact HP]|intros r|done].
  eapply (triple_bind _ _ _ _ (fun _ => P)); [|intros []|by intros err h Hp].
  { destruct r; [|case_match]; [apply triple_ret|apply triple_fail|apply triple_ret]; by intros h []. }
  eapply (triple_bind _ _ _ _ (fun r h => P h /\ forall c, r = Ok c -> ReadFile (keyring_of monDir) (Ok c) ∈ h)); [|intros contents|by intros err h []].
  { apply triple_wrapM. eapply triple_conseq; [by apply look_triple|done|]. intros [c|err] h [Hp Hin]; (split; [done|]); [|done]. by intros ? [= <-]. }
  eapply (triple_bind _ _ _ _ (fun r h => P h /\ forall k, r = Ok k -> ReadFile (keyring_of monDir) (Ok contents) ∈ h /\ ExtractKey contents = Ok k)).
  - apply triple_wrapM, triple_lift. intros h [Hp Hin]. split; [done|]. intros k Ek. apply wrap_err_ok in Ek. split; [by apply Hin|done].
  - intros k. apply triple_ret. intros h [Hp Hk]. split; [done|]. intros [= ->%String.eqb_eq]. exists contents. by apply Hk.
  - by intros err h [].
Qed.

Lemma mon_dir_triple dirs monDir :
  monDir ∈ dirs ->
  triple path_needs (fun h => Glob (mon_pattern dataDirHostPath) (Ok dirs) ∈ h) (clean_mon_dir (W := W) monSecret monDir)
    (fun _ h => Glob (mon_pattern dataDirHostPath) (Ok dirs) ∈ h).
Proof.
  intros Hin. unfold clean_mon_dir. set (P := fun h => Glob _ _ ∈ h). assert (lasting P) as HP by apply lasting_member.
  eapply triple_bind; [by apply tried_triple, match_triple|intros r|done].
  destruct r as [[|]|err]; [|by apply triple_ret; intros h []..].
  eapply triple_conseq; [apply (remove_triple _ (fun h => P h /\ exists contents, ReadFile (keyring_of monDir) (Ok contents) ∈ h /\ ExtractKey contents = Ok monSecret))| |by intros r h []].
  - intros r h [Hp Hk]. right; left. split; [by exists dirs|done].
  - intros h l [Hp (c & Hc & Hk)]. split; [by apply HP|]. exists c. split; [by apply lasting_member|done].
  - intros h [Hp Hk]. split; [done|by apply Hk].
Qed.

Lemma mon_dirs_triple : triple path_needs (fun _ => True) (cleanMonDirs (W := W) dataDirHostPath monSecret) (fun _ _ => True).
Proof.
  unfold cleanMonDirs. eapply triple_bind; [apply tried_triple, (look_triple _ _ (fun _ => True)); [done|apply lasting_const; done]|intros [dirs|err]|done]; [|by apply triple_ret].
  eapply triple_conseq; [apply (triple_forM _ _ _ (fun h => Glob (mon_pattern dataDirHostPath) (Ok dirs) ∈ h)); intros d Hd; by apply mon_dir_triple|by intros h []|done].
Qed.

Lemma exporter_triple : triple path_needs (fun _ => True) (cleanExporterDir (W := W) dataDirHostPath) (fun _ _ => True).
Proof.
  unfold cleanExporterDir, stat. set (p := join_path dataDirHostPath "exporter").
  eapply triple_bind; [apply tried_triple, (look_triple _ _ (fun _ => True)); [done|apply lasting_const; done]|intros r|done].
  assert (match r with Ok _ => True | Err err => is_not_exist (W := W) err = false end ->
          triple path_needs (fun h => True /\ Stat p r ∈ h) (remove_logged (W := W) p) (fun _ _ => True)) as Hrm.
  { intros Hr. eapply triple_conseq; [apply (remove_triple p (fun h => Stat p r ∈ h)); [|apply lasting_member]|by intros h []|done].
    intros r' h Hin. right; right; left. split; [done|]. by exists r. }
  destruct r as [[]|err]; [by apply Hrm|]. destruct (is_not_exist err) eqn:Ee; [by apply triple_ret|by apply Hrm].
Qed.

Lemma csi_triple : triple path_needs (fun _ => True) (cleanCSIDirs (W := W) dataDirHostPath) (fun _ _ => True).
Proof.
  unfold cleanCSIDirs. eapply triple_bind; [apply tried_triple, (look_triple _ _ (fun _ => True)); [done|apply lasting_const; done]|intros [entries|err]|done]; [|by apply triple_ret].
  eapply triple_conseq; [apply (triple_forM _ _ _ (fun h => ReadDir dataDirHostPath (Ok entries) ∈ h))|by intros h []|done].
  intros [name dir] Hin. unfold csi_dir. cbn. destruct dir; cbn; [|by apply triple_ret]. destruct (HasSuffix name ".csi.ceph.com") eqn:Es; [|by apply triple_ret].
  apply remove_triple; [|apply lasting_member]. intros r h Hr. right; right; right. by exists entries, name.
Qed.

(** C29: on a host the cleanup removes only the directory of the cluster's namespace; directories of mons
    whose keyring holds the secret of this cluster, so that the mons of another cluster stay; the
    directory of the exporter; and directories that are named like a CSI driver.  It does nothing else but
    look at files. *)
Theorem host_paths_are_own e pre post ev :
  log (StartHostPathCleanup (W := W) namespaceDir dataDirHostPath monSecret (World e [])).1 = pre ++ ev :: post -> path_needs pre ev.
Proof.
  assert (triple path_needs (fun _ => True) (StartHostPathCleanup (W := W) namespaceDir dataDirHostPath monSecret) (fun _ _ => True)) as Ht.
  { unfold StartHostPathCleanup.
    eapply triple_bind; [apply (remove_triple _ (fun _ => True)); [intros; by left|by apply lasting_const]|intros []|done].
    eapply triple_bind; [apply mon_dirs_triple|intros []|done]. eapply triple_bind; [apply exporter_triple|intros []|done]. apply csi_triple. }
  intros E. destruct (triple_run _ _ _ _ e Ht I) as [Hg _]. by eapply Hg.
Qed.

End Paths.

(** ** Goroutines end *)

Section Bounds.
Context {W : Type}.

(** At most [n] steps, with those of the goroutines that are started. *)
Inductive bounded : nat -> proc W -> Prop :=
| bounded_exit n : bounded n Exit
| bounded_panic n : bounded n Panic
| bounded_do {A} n (m : MW W A) k : (forall r, bounded n (k r)) -> bounded (S n) (Do m k)
| bounded_go n m child p : bounded m child -> bounded n p -> bounded (S (m + n)) (Go child p)
| bounded_wait n p : bounded n p -> bounded (S n) (Wait p).

Definition weighs (n : nat) (ts : threads W) : Prop :=
  exists m ns, bounded m (main ts) /\ Forall2 bounded ns (children ts) /\ n = (m + sum_list ns)%nat.

Lemma bounded_advance n p w w' p' : bounded n p -> advance p w = Some (w', p') -> exists m, n = S m /\ bounded m p'.
Proof.
  destruct 1 as [| |A n m k Hk| |]; cbn; try done. destruct (m w) as [w1 r]. intros [= <- <-]. by exists n.
Qed.

Lemma step_weighs n s s' : step s s' -> weighs n s.2 -> exists n', (n' < n)%nat /\ weighs n' s'.2.
Proof.
  intros Hs (m & ns & Hm & Hc & ->). destruct Hs as [w p cs w' p' Ha|w child p cs|w p cs Hx|w p cs1 c cs2 w' c' Hp Ha]; cbn in *.
  - destruct (bounded_advance _ _ _ _ _ Hm Ha) as (k & -> & Hk). exists (k + sum_list ns)%nat. split; [lia|]. by exists k, ns.
  - inversion Hm as [| | |n m0 child' p0 Hch Hp|]; subst. exists (n + (sum_list ns + m0))%nat. split; [lia|]. exists n, (ns ++ [m0]). split_and!; [done|..].
    + by apply Forall2_app; [|constructor].
    + rewrite sum_list_with_app. cbn. lia.
  - inversion Hm as [| | | |n p0 Hp]; subst. exists n. split; [lia|]. exists n, []. split_and!; [done|constructor|cbn; lia].
  - apply Forall2_app_inv_r in Hc as (n1 & n2 & Hc1 & Hc2 & ->). inversion Hc2 as [|x y l l' Hx Hl]; subst.
    destruct (bounded_advance _ _ _ _ _ Hx Ha) as (k & -> & Hk). exists (m + sum_list (n1 ++ k :: l))%nat. split.
    + rewrite !sum_list_with_app. cbn. lia.
    + exists m, (n1 ++ k :: l). split_and!; [done|by apply Forall2_app; [|constructor]|done].
Qed.

Lemma nsteps_bound n k s s' : nsteps step n s s' -> weighs k s.2 -> (n <= k)%nat.
Proof.
  intros Hn. revert k. induction Hn as [s|n s1 s2 s3 Hs Hn IH]; intros k Hk; [lia|].
  destruct (step_weighs _ _ _ Hs Hk) as (k' & Hlt & Hk'). specialize (IH k' Hk'). lia.
Qed.

(** An invariant of all executions. *)
Lemma nsteps_inv (I : world W event * threads W -> Prop) n s s' :
  (forall s s', I s -> step s s' -> I s') -> nsteps step n s s' -> I s -> I s'.
Proof. intros Hi Hn. induction Hn as [|n s1 s2 s3 Hs Hn IH]; [done|]. intros H1. eauto. Qed.

End Bounds.

(** ** An execution *)

Section Scheduler.
Context {W : Type}.

Fixpoint first_child (w : world W event) (cs : list (proc W)) : option (world W event * list (proc W)) :=
  match cs with
  | [] => None
  | c :: cs => match advance c w with
               | Some (w', c') => Some (w', c' :: cs)
               | None => '(w', cs') ← first_child w cs; Some (w', c :: cs')
               end
  end.

(** The main goroutine goes first, then the oldest of the others. *)
Definition next (s : world W event * threads W) : option (world W event * threads W) :=
  let '(w, ts) := s in
  let child := '(w', cs') ← first_child w (children ts); Some (w', Build_threads (main ts) cs') in
  match main ts with
  | Panic | Exit => None
  | Do m k => let '(w', r) := m w in Some (w', Build_threads (k r) (children ts))
  | Go c p => Some (w, Build_threads p (children ts ++ [c]))
  | Wait p => if forallb is_exit (children ts) then Some (w, Build_threads p []) else child
  end.

Fixpoint execute (n : nat) (s : world W event * threads W) : option (world W event * threads W) :=
  match n with O => Some s | S n => next s ≫= execute n end.

Lemma first_child_sound w cs w' cs' :
  first_child w cs = Some (w', cs') -> exists cs1 c cs2 c', cs = cs1 ++ c :: cs2 /\ cs' = cs1 ++ c' :: cs2 /\ advance c w = Some (w', c').
Proof.
  revert cs'. induction cs as [|c cs IH]; intros cs'; cbn; [done|]. destruct (advance c w) as [[w1 c1]|] eqn:Ea.
  - intros [= <- <-]. by exists [], c, cs, c1.
  - destruct (first_child w cs) as [[w2 cs2]|]; [|done]. cbn. intros [= <- <-]. destruct (IH cs2 eq_refl) as (l1 & x & l2 & x' & -> & -> & Hx).
    by exists (c :: l1), x, l2, x'.
Qed.

Lemma first_child_none w cs c : first_child w cs = None -> c ∈ cs -> advance c w = None.
Proof.
  induction cs as [|x cs IH]; cbn; [by intros _ ?%elem_of_nil|]. destruct (advance x w) as [[? ?]|] eqn:Ea; [done|].
  destruct (first_child w cs) as [[? ?]|]; [done|]. intros _ [->|Hin]%elem_of_cons; auto.
Qed.

Lemma next_sound s s' : next s = Some s' -> step s s'.
Proof.
  destruct s as [w [p cs]]. cbn.
  assert (ended p = false -> ('(w', cs') ← first_child w cs; Some (w', Build_threads p cs')) = Some s' -> step (w, Build_threads p cs) s') as Hc.
  { intros Hp. destruct (first_child w cs) as [[w1 cs']|] eqn:Ef; [|done]. cbn. intros [= <-].
    destruct (first_child_sound _ _ _ _ Ef) as (cs1 & c & cs2 & c' & -> & -> & Ha). by apply child_does. }
  destruct p as [| |A m k|c p|p]; cbn; [done|done| | |].
  - destruct (m w) as [w' r] eqn:Em. intros [= <-]. apply main_does. cbn. by rewrite Em.
  - intros [= <-]. constructor.
  - destruct (forallb is_exit cs) eqn:Ex; [|by apply Hc]. intros [= <-]. by constructor.
Qed.

Lemma next_none s : next s = None -> forall s', ~ step s s'.
Proof.
  intros Hn s' Hs. destruct Hs as [w p cs w' p' Ha|w child p cs|w p cs Hx|w p cs1 c cs2 w' c' Hp Ha]; cbn in Hn.
  - destruct p; try done. cbn in Ha. by destruct (m w).
  - done.
  - by rewrite Hx in Hn.
  - assert (first_child w (cs1 ++ c :: cs2) = None -> False) as Hf.
    { intros Hf. eapply first_child_none in Hf; [|apply elem_of_app; right; apply list_elem_of_here]. congruence. }
    destruct (first_child w (cs1 ++ c :: cs2)) as [[? ?]|] eqn:Ef; [|by apply Hf]. destruct p as [| |A m k|x p|p]; cbn in Hn; try done.
    + by destruct (m w).
    + by destruct (forallb is_exit (cs1 ++ c :: cs2)).
Qed.

Lemma execute_nsteps n s s' : execute n s = Some s' -> nsteps step n s s'.
Proof.
  revert s. induction n as [|n IH]; intros s; cbn; [intros [= ->]; constructor|]. destruct (next s) as [s1|] eqn:En; [|done]. cbn. intros Hx.
  econstructor; [by apply next_sound|by apply IH].
Qed.

End Scheduler.

(** ** Disks *)

Section Disks.
Context {W : Type} `{HostEnv W} (spec : SanitizeDisksSpec).

Definition executed (cmd : list string) (h : list event) : Prop := exists r, Exec cmd r ∈ h.

Definition status_cmd (disk : string) : list string := ["cryptsetup"; "status"; disk; "-v"].

Definition close_cmd (disk : string) : list string := ["dmsetup"; "remove"; "--force"; disk].

(** The device behind an encrypted one in the answer of cryptsetup. *)
Definition backing (r : result string) : option string := match r with Ok out => find_backing (split_byte newline out) | Err _ => None end.

(** The path of the OSD's data that is sanitized: of an encrypted device the one behind it, after the
    encrypted one was taken down. *)
Definition data_path (osd : OSDInfo) (p : string) (h : list event) : Prop :=
  if Encrypted osd then
    exists r, Exec (status_cmd (BlockPath osd)) r ∈ h /\
      match backing r with Some d => p = d /\ executed (close_cmd (BlockPath osd)) h | None => p = BlockPath osd end
  else p = BlockPath osd.

(** The command that wipes a device: of the quick method only what ceph-volume finds, else all of it. *)
Definition wipes (cmd : list string) (device : string) : Prop :=
  cmd = if String.eqb (Method spec) "quick" then ["ceph-volume"; "lvm"; "zap"; device]
        else ["shred"; if String.eqb (DataSource spec) "zero" then "--random-source=/dev/zero" else "--zero";
              "--force"; "--verbose"; "--iterations=" +:+ Itoa (Iteration spec); device].

Definition device_of (p : string) (osd : OSDInfo) (device : string) : Prop :=
  device <> "" /\ (device = p \/ device = MetadataPath osd \/ device = WalPath osd).

Definition wiped (h : list event) (device : string) : Prop := exists cmd, wipes cmd device /\ executed cmd h.

(** Every device of the OSD was given to the command that wipes it. *)
Definition sanitized (h : list event) (osd : OSDInfo) : Prop :=
  exists p, data_path osd p h /\ forall device, device_of p osd device -> wiped h device.

(** All the commands of the OSD were run. *)
Definition shredded (h : list event) (osd : OSDInfo) : Prop :=
  exists p, data_path osd p h /\ Forall (fun cmd => executed cmd h) (shred_commands spec p osd).

(** The commands that sanitize an OSD. *)
Definition sanitize_cmd (h : list event) (osd : OSDInfo) (cmd : list string) : Prop :=
  (Encrypted osd = true /\ (cmd = status_cmd (BlockPath osd) \/ cmd = close_cmd (BlockPath osd))) \/
  exists p, data_path osd p h /\ cmd ∈ shred_commands spec p osd.

(** How far the goroutine of an OSD has come. *)
Inductive sanitizing (h : list event) (osd : OSDInfo) : proc W -> Prop :=
| starting : Encrypted osd = true -> sanitizing h osd (executeSanitizeCommand spec osd)
| closing r d :
    Encrypted osd = true -> Exec (status_cmd (BlockPath osd)) r ∈ h -> backing r = Some d ->
    sanitizing h osd (Do (RemoveEncryptedDevice (BlockPath osd)) (fun _ => run_commands (shred_commands spec d osd)))
| shredding p before after :
    data_path osd p h -> shred_commands spec p osd = before ++ after -> Forall (fun cmd => executed cmd h) before ->
    sanitizing h osd (run_commands after).

Lemma build_wipes device : exists cmd, buildShredCommands spec device = [cmd] /\ wipes cmd device.
Proof.
  unfold wipes, buildShredCommands, buildQuickShredCommands, buildShredArgs, buildDataSource, completeShredUtility, SanitizeMethodQuick, SanitizeDataSourceZero.
  destruct (String.eqb (Method spec) "quick"); [by eexists|]. destruct (String.eqb_spec (DataSource spec) "zero") as [->|]; by eexists.
Qed.

Lemma device_listed p osd device : device_of p osd device <-> device ∈ osd_devices p osd.
Proof.
  unfold osd_devices. rewrite list_elem_of_In, filter_In, negb_true_iff, String.eqb_neq. cbn. unfold device_of. intuition congruence.
Qed.

(** The commands of an OSD wipe its devices, and all of them. *)
Lemma shred_wipes p osd cmd : cmd ∈ shred_commands spec p osd -> exists device, device_of p osd device /\ wipes cmd device.
Proof.
  unfold shred_commands. intros (device & Hin & Hd)%list_elem_of_bind. exists device. split; [by apply device_listed|].
  destruct (build_wipes device) as (c & Eb & Hw). rewrite Eb in Hin. by apply list_elem_of_singleton in Hin as ->.
Qed.

Lemma shred_all p osd h :
  Forall (fun cmd => executed cmd h) (shred_commands spec p osd) -> forall device, device_of p osd device -> wiped h device.
Proof.
  intros Hc device Hd%device_listed. destruct (build_wipes device) as (cmd & Eb & Hw). exists cmd. split; [done|].
  rewrite Forall_forall in Hc. apply Hc. unfold shred_commands. apply list_elem_of_bind. exists device. split; [rewrite Eb; apply list_elem_of_here|done].
Qed.

Lemma shredded_sanitized h osd : shredded h osd -> sanitized h osd.
Proof. intros (p & Hp & Hc). exists p. split; [done|]. by apply shred_all. Qed.

Lemma lasting_data osd p : lasting (data_path osd p).
Proof.
  unfold data_path, executed. intros h l. destruct (Encrypted osd); [|done]. intros (r & Hin & Hr). exists r. split; [by apply lasting_member|].
  destruct (backing r); [|done]. destruct Hr as [-> [r' Hr']]. split; [done|]. exists r'. by apply lasting_member.
Qed.

Lemma lasting_executed cmd : lasting (executed cmd).
Proof. intros h l [r Hr]. exists r. by apply lasting_member. Qed.

Lemma lasting_all cmds : lasting (fun h => Forall (fun cmd => executed cmd h) cmds).
Proof. intros h l Hc. eapply Forall_impl; [exact Hc|]. intros cmd. apply lasting_executed. Qed.

Lemma lasting_shredded osd : lasting (fun h => shredded h osd).
Proof. intros h l (p & Hp & Hc). exists p. split; [by apply lasting_data|by apply lasting_all]. Qed.

Lemma lasting_sanitizing osd c : lasting (fun h => sanitizing h osd c).
Proof.
  intros h l [He|r d He Hin Hb|p before after Hp Hs Hc]; [by constructor|eapply closing; [done|by apply lasting_member|done]|].
  eapply shredding; [by apply lasting_data|done|by apply lasting_all].
Qed.

(** A command on the node is recorded. *)
Lemma exec_log cmd w : exists e' r, exec (W := W) cmd w = (World e' (log w ++ [Exec cmd r]), r).
Proof. unfold exec, record. destruct (env_exec cmd (env w)) as [e' r]. by exists e', r. Qed.

Lemma start_sanitizing h osd : sanitizing h osd (executeSanitizeCommand spec osd).
Proof.
  destruct (Encrypted osd) eqn:Ee; [by constructor|]. unfold executeSanitizeCommand. rewrite Ee.
  apply (shredding _ _ (BlockPath osd) []); [unfold data_path; by rewrite Ee|done|constructor].
Qed.

(** Its next call takes it further. *)
Lemma sanitizing_step osd c w w' c' :
  sanitizing (log w) osd c -> advance c w = Some (w', c') ->
  (exists cmd r, log w' = log w ++ [Exec cmd r] /\ sanitize_cmd (log w) osd cmd) /\ sanitizing (log w') osd c'.
Proof.
  intros [He|r d He Hin Hb|p before after Hp Hs Hc] Ha.
  - unfold executeSanitizeCommand in Ha. rewrite He in Ha. cbn -[shred_commands] in Ha. unfold GetBackingDeviceForEncryptedBlock, wrapM, mbind, M_bind in Ha.
    destruct (exec_log (status_cmd (BlockPath osd)) w) as (e' & r & Er). unfold status_cmd in *. rewrite Er in Ha.
    assert (Exec (status_cmd (BlockPath osd)) r ∈ log w ++ [Exec (status_cmd (BlockPath osd)) r]) as Hin.
    { apply elem_of_app. right. apply list_elem_of_here. }
    assert (backing r = None -> sanitizing (log w ++ [Exec (status_cmd (BlockPath osd)) r]) osd (run_commands (shred_commands spec (BlockPath osd) osd))) as Hnone.
    { intros Hb. apply (shredding _ _ (BlockPath osd) []); [|done|constructor]. unfold data_path. rewrite He. exists r. split; [done|]. by rewrite Hb. }
    destruct r as [out|err]; cbn -[shred_commands] in Ha; [destruct (find_backing (split_byte newline out)) as [d|] eqn:Ed|]; cbn -[shred_commands] in Ha; injection Ha as <- <-; cbn -[shred_commands];
      (split; [do 2 eexists; split; [reflexivity|by left; split; [|left]]|]); [by eapply closing|by apply Hnone|by apply Hnone].
  - cbn -[shred_commands] in Ha. unfold RemoveEncryptedDevice, wrapM, mbind, M_bind in Ha. destruct (exec_log (close_cmd (BlockPath osd)) w) as (e' & r' & Er).
    unfold close_cmd in *. rewrite Er in Ha. destruct r' as [out|err]; cbn -[shred_commands] in Ha; injection Ha as <- <-; cbn -[shred_commands]; (split; [do 2 eexists; split; [reflexivity|by left; split; [|right]]|]);
      (apply (shredding _ _ d []); [|done|constructor]); unfold data_path; rewrite He; exists r; (split; [by apply lasting_member|]); rewrite Hb;
      (split; [done|]); eexists; apply elem_of_app; right; apply list_elem_of_here.
  - destruct after as [|cmd after]; [done|]. cbn in Ha. destruct (exec_log cmd w) as (e' & r & Er). rewrite Er in Ha. injection Ha as <- <-. cbn.
    split; [do 2 eexists; split; [done|right; exists p; split; [done|]]; rewrite Hs; apply elem_of_app; right; apply list_elem_of_here|].
    apply (shredding _ _ p (before ++ [cmd])); [by apply lasting_data|by rewrite <- (assoc_L (++))|].
    apply Forall_app. split; [by apply lasting_all|]. apply Forall_singleton. exists r. apply elem_of_app. right. apply list_elem_of_here.
Qed.

Lemma sanitizing_exit h osd : sanitizing h osd Exit -> shredded h osd.
Proof.
  assert (forall c, sanitizing h osd c -> c = Exit -> shredded h osd) as Hg; [|by eauto].
  intros c [He|r d He Hin Hb|p before after Hp Hs Hc] Ex.
  - unfold executeSanitizeCommand in Ex. by rewrite He in Ex.
  - done.
  - destruct after; [|done]. rewrite app_nil_r in Hs. exists p. by rewrite Hs.
Qed.

Lemma sanitizing_goes_on h osd c w : sanitizing h osd c -> c = Exit \/ exists s, advance c w = Some s.
Proof.
  intros [He|r d He Hin Hb|p before after Hp Hs Hc].
  - right. unfold executeSanitizeCommand. rewrite He. cbn. destruct (GetBackingDeviceForEncryptedBlock (BlockPath osd) w). by eexists.
  - right. cbn. destruct (RemoveEncryptedDevice (BlockPath osd) w). by eexists.
  - destruct after as [|cmd after]; [by left|right]. cbn. destruct (exec cmd w). by eexists.
Qed.

(** *** The goroutines of a list of OSDs *)

Definition sanitize_inv (osds : list OSDInfo) (s : world W event * threads W) : Prop :=
  (exists started rest, osds = started ++ rest /\ main s.2 = sanitize_each spec rest Exit /\ Forall2 (sanitizing (log s.1)) started (children s.2)) \/
  (main s.2 = Exit /\ children s.2 = [] /\ Forall (shredded (log s.1)) osds).

Lemma all_exit cs : forallb is_exit cs = true -> Forall (fun c : proc W => c = Exit) cs.
Proof. induction cs as [|c cs IH]; [constructor|]. cbn. intros [Hc Hcs]%andb_prop. constructor; [by destruct c|auto]. Qed.

(** A step makes no call or one of the commands of an OSD. *)
Definition command_of (osds : list OSDInfo) (h h' : list event) : Prop :=
  h' = h \/ exists osd cmd r, osd ∈ osds /\ h' = h ++ [Exec cmd r] /\ sanitize_cmd h osd cmd.

Lemma sanitize_step osds s s' : sanitize_inv osds s -> step s s' -> command_of osds (log s.1) (log s'.1) /\ sanitize_inv osds s'.
Proof.
  intros Hi Hs. unfold sanitize_inv in *. destruct Hs as [w p cs w' p' Ha|w child p cs|w p cs Hx|w p cs1 c cs2 w' c' Hp Ha]; cbn in *.
  - exfalso. destruct Hi as [(st & rest & _ & -> & _)|(-> & _)]; [|done]. by destruct rest.
  - split; [by left|]. destruct Hi as [(st & [|o rest] & -> & Hm & Hc)|(? & _)]; [done| |done]. injection Hm as -> ->.
    left. exists (st ++ [o]), rest. split_and!; [by rewrite <- (assoc_L (++))|done|]. cbn in *. apply Forall2_app; [done|]. constructor; [apply start_sanitizing|constructor].
  - split; [by left|]. destruct Hi as [(st & [|o rest] & -> & Hm & Hc)|(? & _)]; [|done|done]. injection Hm as ->.
    right. split_and!; [done|done|]. rewrite app_nil_r. cbn in *. apply all_exit in Hx. clear -Hc Hx. induction Hc as [|o c st cs Ho Hc IH]; [constructor|].
    inversion Hx; subst. constructor; [by apply sanitizing_exit|auto].
  - destruct Hi as [(st & rest & -> & Hm & Hc)|(_ & Hn & _)]; cbn in *; [|by destruct cs1]. apply Forall2_app_inv_r in Hc as (s1 & s2 & Hc1 & Hc2 & ->).
    inversion Hc2 as [|o x l l' Ho Hl]; subst. destruct (sanitizing_step _ _ _ _ _ Ho Ha) as [(cmd & r & E & Hcmd) Ho']. split.
    { right. exists o, cmd, r. split_and!; [|done|done]. rewrite !elem_of_app. left. right. apply list_elem_of_here. }
    left. exists (s1 ++ o :: l), rest. split_and!; [done|done|]. cbn. rewrite E in *.
    apply Forall2_app; [|constructor]; [|done|]; eapply Forall2_impl; [exact Hc1| |exact Hl|]; intros; by apply lasting_sanitizing.
Qed.

Lemma sanitize_stuck osds s : sanitize_inv osds s -> (forall s', ~ step s s') -> Forall (shredded (log s.1)) osds.
Proof.
  destruct s as [w [p cs]]. intros [(st & rest & -> & Hm & Hc)|(_ & _ & Hd)] Hs; [cbn in *|done]. subst p.
  destruct rest as [|o rest]; [|by destruct (Hs (w, Build_threads (sanitize_each spec rest Exit) (cs ++ [executeSanitizeCommand spec o])) (main_goes _ _ _ _))].
  assert (forallb is_exit cs = true) as Hx; [|by destruct (Hs _ (main_waited w Exit cs Hx))].
  apply forallb_forall. intros c Hin%list_elem_of_In. apply list_elem_of_split in Hin as (cs1 & cs2 & ->).
  apply Forall2_app_inv_r in Hc as (s1 & s2 & _ & Hc2 & ->). inversion Hc2 as [|o x l l' Ho Hl]; subst.
  destruct (sanitizing_goes_on _ _ _ w Ho) as [->|[[w' c'] Ha]]; [done|]. by destruct (Hs _ (child_does w (Wait Exit) cs1 c cs2 w' c' ltac:(done) Ha)).
Qed.

(** *** How many steps *)

Lemma bounded_weaken (n m : nat) (p : proc W) : bounded n p -> (n <= m)%nat -> bounded m p.
Proof.
  intros Hn. revert m. induction Hn as [| |A n f k Hk IH|n m child p Hc IHc Hp IHp|n p Hp IH]; intros j Hj; try (by constructor).
  - destruct j; [lia|]. constructor. intros r. apply IH. lia.
  - destruct j; [lia|]. replace (S j) with (S (m + (j - m))) by lia. constructor; [done|]. apply IHp. lia.
  - destruct j; [lia|]. constructor. apply IH. lia.
Qed.

Lemma commands_bounded cmds : bounded (length cmds) (run_commands (W := W) cmds).
Proof. induction cmds as [|cmd cmds IH]; cbn; constructor. by intros r. Qed.

Lemma shred_few p osd : (length (shred_commands spec p osd) <= 3)%nat.
Proof.
  unfold shred_commands, osd_devices, buildShredCommands, buildQuickShredCommands. cbn.
  repeat (case_match; cbn); lia.
Qed.

Lemma sanitize_bounded osd : bounded 5 (executeSanitizeCommand (W := W) spec osd).
Proof.
  unfold executeSanitizeCommand. assert (forall n p, (3 <= n)%nat -> bounded n (run_commands (W := W) (shred_commands spec p osd))) as Hb.
  { intros n p Hn. eapply bounded_weaken; [apply commands_bounded|]. pose proof (shred_few p osd). lia. }
  destruct (Encrypted osd); [|apply Hb; lia]. constructor. intros [d|err]; [|apply Hb; lia]. constructor. intros r. apply Hb. lia.
Qed.

Lemma each_bounded osds (k : proc W) n : bounded n k -> bounded (6 * length osds + S n) (sanitize_each spec osds k).
Proof.
  intros Hk. induction osds as [|o osds IH]; cbn [sanitize_each]; [by constructor|].
  eapply bounded_weaken; [apply bounded_go; [apply sanitize_bounded|apply IH]|cbn; lia].
Qed.

Definition threads_of (p : proc W) : threads W := Build_threads p [].

(** Every call is a command of an OSD of the list. *)
Definition raw_needs (osds : list OSDInfo) (h : list event) (ev : event) : Prop :=
  exists osd cmd r, osd ∈ osds /\ ev = Exec cmd r /\
    ((Encrypted osd = true /\ (cmd = status_cmd (BlockPath osd) \/ cmd = close_cmd (BlockPath osd))) \/
     exists p device, data_path osd p h /\ device_of p osd device /\ wipes cmd device).

(** C30: however the goroutines take turns, sanitizing the disks of a list of raw OSDs takes at most six steps
    per OSD and one more; every call is a command on a device of one of these OSDs; and when no goroutine
    can go on, as when the job has ended, each device of each OSD was given to the command that sanitizes
    it (shred, or ceph-volume's zap for the quick method), whatever its result, and of an encrypted device
    the one behind it, after the encrypted one was to be taken down.  The job does not end before: it waits for
    its goroutines, which would not go on without it. *)
Theorem raw_disks_are_sanitized osds e n w ts :
  nsteps step n (World e [], threads_of (SanitizeRawDisk spec osds Exit)) (w, ts) ->
  (n <= 6 * length osds + 1)%nat /\ guarded (raw_needs osds) (log w) /\
  ((forall s, ~ step (w, ts) s) -> Forall (sanitized (log w)) osds).
Proof.
  intros Hn. split.
  - eapply nsteps_bound; [exact Hn|]. exists (6 * length osds + 1)%nat, []. split_and!; [apply (each_bounded osds Exit 0); constructor|constructor|cbn; lia].
  - assert (guarded (raw_needs osds) (log w) /\ sanitize_inv osds (w, ts)) as [Hg Hi].
    { apply (nsteps_inv (fun s => guarded (raw_needs osds) (log s.1) /\ sanitize_inv osds s) n _ (w, ts)) in Hn; [exact Hn|..].
      - intros s s' [Hg Hi] Hst. destruct (sanitize_step _ _ _ Hi Hst) as [Hc Hi']. split; [|done].
        destruct Hc as [->|(osd & cmd & r & Hin & -> & Hc)]; [done|]. apply guarded_snoc; [done|]. exists osd, cmd, r.
        split_and!; [done|done|]. destruct Hc as [Hc|(p & Hp & (device & Hd & Hw)%shred_wipes)]; [by left|right]. by exists p, device.
      - split; [apply guarded_nil|]. left. exists [], osds. by split_and!; [..|constructor]. }
    split; [done|]. intros Hs. eapply Forall_impl; [by apply (sanitize_stuck osds (w, ts))|]. apply shredded_sanitized.
Qed.

(** *** Volumes *)

Section Volumes.
Context (osds : list OSDInfo).

Definition looked_up (h : list event) (osd : OSDInfo) (pv : string) : Prop :=
  exists out, Exec (pv_cmd (BlockPath osd)) (Ok out) ∈ h /\ head (split_byte ":" out) = Some pv.

Definition zapped (h : list event) (osd : OSDInfo) : Prop := executed (zap_osd_cmd (ID osd)) h.

(** The goroutine that zaps the volume of an OSD. *)
Definition zapping (h : list event) (osd : OSDInfo) (c : proc W) : Prop := c = wipeLVM (ID osd) \/ (c = Exit /\ zapped h osd).

(** The calls: look up the disk of a volume, zap a volume whose disk is known, and, when all are zapped,
    sanitize a disk that was looked up. *)
Inductive volume_call (h : list event) : event -> Prop :=
| looks_up osd r : osd ∈ osds -> volume_call h (Exec (pv_cmd (BlockPath osd)) r)
| zaps osd pv r : osd ∈ osds -> looked_up h osd pv -> volume_call h (Exec (zap_osd_cmd (ID osd)) r)
| cleans osd pv cmd r :
    osd ∈ osds -> looked_up h osd pv -> Forall (zapped h) osds -> wipes cmd pv -> volume_call h (Exec cmd r).

Lemma lasting_looked osd pv : lasting (fun h => looked_up h osd pv).
Proof. intros h l (out & Hin & Hp). exists out. split; [by apply lasting_member|done]. Qed.

Lemma lasting_zapping osd c : lasting (fun h => zapping h osd c).
Proof. intros h l [Hc|[Hc Hz]]; [by left|right]. split; [done|by apply lasting_executed]. Qed.

(** The main goroutine looks up the disk of the next volume, or has done so. *)
Definition zap_phase (s : world W event * threads W) : Prop :=
  exists before after pvs, osds = before ++ after /\ Forall2 (looked_up (log s.1)) before pvs /\
    ((main s.2 = zap_each spec after pvs Exit /\ Forall2 (zapping (log s.1)) before (children s.2)) \/
     exists known osd, before = known ++ [osd] /\ main s.2 = Go (wipeLVM (ID osd)) (zap_each spec after pvs Exit) /\
       Forall2 (zapping (log s.1)) known (children s.2)).

Definition crashed (s : world W event * threads W) : Prop :=
  main s.2 = Panic /\ exists osd err, osd ∈ osds /\ Exec (pv_cmd (BlockPath osd)) (Err err) ∈ log s.1.

Definition clean_phase (s : world W event * threads W) : Prop :=
  exists pvs, Forall2 (looked_up (log s.1)) osds pvs /\ Forall (zapped (log s.1)) osds /\ sanitize_inv (on_path <$> pvs) s.

Definition volume_inv (s : world W event * threads W) : Prop :=
  guarded volume_call (log s.1) /\ (zap_phase s \/ crashed s \/ clean_phase s).

Lemma Forall2_looked h l before pvs : Forall2 (looked_up h) before pvs -> Forall2 (looked_up (h ++ l)) before pvs.
Proof. intros Hf. eapply Forall2_impl; [exact Hf|]. intros. by apply lasting_looked. Qed.

Lemma Forall2_zapping h l before cs : Forall2 (zapping h) before cs -> Forall2 (zapping (h ++ l)) before cs.
Proof. intros Hf. eapply Forall2_impl; [exact Hf|]. intros. by apply lasting_zapping. Qed.

Lemma zapping_exit h before cs : Forall2 (zapping h) before cs -> Forall (fun c => c = Exit) cs -> Forall (zapped h) before.
Proof.
  induction 1 as [|o c before cs Ho Hc IH]; intros Hx; [constructor|]. inversion Hx; subst. constructor; [|auto]. by destruct Ho as [|[_ Hz]].
Qed.

(** One goroutine zaps its volume. *)
Lemma zap_child h before cs1 c cs2 w w' c' :
  h = log w -> Forall2 (zapping h) before (cs1 ++ c :: cs2) -> advance c w = Some (w', c') ->
  exists osd r, osd ∈ before /\ log w' = h ++ [Exec (zap_osd_cmd (ID osd)) r] /\ Forall2 (zapping (log w')) before (cs1 ++ c' :: cs2).
Proof.
  intros -> Hf Ha. apply Forall2_app_inv_r in Hf as (b1 & b2 & Hb1 & Hb2 & ->). inversion Hb2 as [|o x l l' Ho Hl]; subst.
  destruct Ho as [->|[-> _]]; [|done]. cbn in Ha. destruct (exec_log (zap_osd_cmd (ID o)) w) as (e' & r & Er). rewrite Er in Ha. injection Ha as <- <-.
  exists o, r. split_and!; [apply elem_of_app; right; apply list_elem_of_here|done|]. cbn. apply Forall2_app; [by apply Forall2_zapping|].
  constructor; [|by apply Forall2_zapping]. right. split; [done|]. exists r. apply elem_of_app. right. apply list_elem_of_here.
Qed.

Lemma split_byte_cons sep s : exists x l, split_byte sep s = x :: l.
Proof. destruct s as [|c s]; cbn; [by do 2 eexists|]. case_match; [by do 2 eexists|]. destruct (split_byte sep s); by do 2 eexists. Qed.

(** The main goroutine looks up a disk. *)
Lemma lookup_step before after pvs cs w w' p' :
  osds = before ++ after -> Forall2 (looked_up (log w)) before pvs -> Forall2 (zapping (log w)) before cs ->
  advance (zap_each spec after pvs Exit) w = Some (w', p') -> guarded volume_call (log w) -> volume_inv (w', Build_threads p' cs).
Proof.
  intros Ho Hl Hz Ha Hg. destruct after as [|o after]; [done|]. cbn in Ha. destruct (exec_log (pv_cmd (BlockPath o)) w) as (e' & r & Er).
  rewrite Er in Ha. injection Ha as <- <-.
  assert (o ∈ osds) as Hin by (rewrite Ho; apply elem_of_app; right; apply list_elem_of_here).
  assert (Exec (pv_cmd (BlockPath o)) r ∈ log w ++ [Exec (pv_cmd (BlockPath o)) r]) as Hlog by (apply elem_of_app; right; apply list_elem_of_here).
  split; [cbn; apply guarded_snoc; [done|by apply looks_up]|]. destruct r as [out|err]; cbn.
  - destruct (split_byte_cons ":" out) as (pv & l & Hs). rewrite Hs. left. exists (before ++ [o]), after, (pvs ++ [pv]).
    split_and!; [by rewrite <- (assoc_L (++))|cbn; apply Forall2_app; [by apply Forall2_looked|constructor; [|constructor]]|].
    + exists out. by rewrite Hs.
    + right. exists before, o. split_and!; [done|done|]. cbn. by apply Forall2_zapping.
  - right. left. split; [done|]. by exists o, err.
Qed.

Lemma zap_child_step before after pvs zs cs1 c cs2 w w' c' :
  osds = before ++ after -> Forall2 (looked_up (log w)) before pvs -> (forall o, o ∈ zs -> o ∈ before) ->
  Forall2 (zapping (log w)) zs (cs1 ++ c :: cs2) -> advance c w = Some (w', c') -> guarded volume_call (log w) ->
  guarded volume_call (log w') /\ Forall2 (looked_up (log w')) before pvs /\ Forall2 (zapping (log w')) zs (cs1 ++ c' :: cs2).
Proof.
  intros Ho Hl Hsub Hz Ha Hg. destruct (zap_child _ _ _ _ _ _ _ _ eq_refl Hz Ha) as (o & r & Hin%Hsub & E & Hz').
  assert (exists pv, looked_up (log w) o pv) as [pv Hpv].
  { apply list_elem_of_lookup in Hin as [i Hi]. destruct (Forall2_lookup_l _ _ _ _ _ Hl Hi) as (pv & _ & Hpv). by exists pv. }
  split_and!; [|rewrite E; by apply Forall2_looked|done]. rewrite E. apply guarded_snoc; [done|]. eapply zaps; [|done].
  rewrite Ho. apply elem_of_app. by left.
Qed.

Lemma zap_step s s' : guarded volume_call (log s.1) -> zap_phase s -> step s s' -> volume_inv s'.
Proof.
  intros Hg (before & after & pvs & Ho & Hl & Hm) Hs.
  destruct Hs as [w p cs w' p' Ha|w child p cs|w p cs Hx|w p cs1 c cs2 w' c' Hp Ha]; cbn in *.
  - destruct Hm as [[-> Hz]|(known & osd & -> & -> & Hz)]; [|done]. by eapply lookup_step.
  - destruct Hm as [[Hp _]|(known & osd & -> & Hp & Hz)]; [by destruct after|]. injection Hp as -> ->.
    split; [done|]. left. exists (known ++ [osd]), after, pvs. split_and!; [done..|]. left. split; [done|]. cbn.
    apply Forall2_app; [done|]. constructor; [by left|constructor].
  - destruct Hm as [[Hp Hz]|(known & osd & -> & Hp & Hz)]; [|done]. destruct after as [|o after]; [|done]. injection Hp as ->. rewrite app_nil_r in Ho. subst before.
    split; [done|]. right; right. exists pvs. split_and!; [done|by eapply zapping_exit, all_exit|]. left. exists [], (on_path <$> pvs). by split_and!; [..|constructor].
  - destruct Hm as [[-> Hz]|(known & osd & -> & -> & Hz)].
    + destruct (zap_child_step before after pvs before cs1 c cs2 w w' c') as (Hg' & Hl' & Hz'); [done..|]. split; [done|].
      left. exists before, after, pvs. split_and!; [done..|]. by left.
    + destruct (zap_child_step (known ++ [osd]) after pvs known cs1 c cs2 w w' c') as (Hg' & Hl' & Hz'); [done|done| |done..|].
      { intros o Hin. apply elem_of_app. by left. }
      split; [done|]. left. exists (known ++ [osd]), after, pvs. split_and!; [done..|]. right. by exists known, osd.
Qed.

Lemma clean_step_inv s s' : guarded volume_call (log s.1) -> clean_phase s -> step s s' -> volume_inv s'.
Proof.
  intros Hg (pvs & Hl & Hz & Hi) Hs. destruct (sanitize_step _ _ _ Hi Hs) as [Hc Hi'].
  destruct Hc as [E|(o & cmd & r & Hin & E & Hcmd)]; [by rewrite <- E in *; split; [|right; right; exists pvs]|].
  apply list_elem_of_fmap in Hin as (pv & -> & Hin). apply list_elem_of_lookup in Hin as [i Hi0].
  destruct (Forall2_lookup_r _ _ _ _ _ Hl Hi0) as (osd & Hosd & Hpv).
  split.
  - rewrite E. apply guarded_snoc; [done|]. destruct Hcmd as [[He _]|(p & Hp & Hcmd)]; [done|]. unfold data_path in Hp. cbn in Hp. subst p.
    destruct (shred_wipes _ _ _ Hcmd) as (device & [Hne Hd] & Hw). cbn in Hd. assert (device = pv) as -> by (destruct Hd as [|[|]]; done).
    eapply cleans; [by eapply list_elem_of_lookup_2|done..].
  - right; right. exists pvs. rewrite E. split_and!; [by apply Forall2_looked|eapply Forall_impl; [exact Hz|]; intros; by apply lasting_executed|done].
Qed.

Lemma volume_step s s' : volume_inv s -> step s s' -> volume_inv s'.
Proof.
  intros [Hg [Hz|[[Hp _]|Hc]]] Hs; [by eapply zap_step| |by eapply clean_step_inv].
  exfalso. destruct Hs as [w p cs w' p' Ha|w child p cs|w p cs Hx|w p cs1 c cs2 w' c' Hp' Ha]; cbn in Hp; subst; done.
Qed.

(** When nothing can go on, a lookup failed or all is done. *)
Definition volume_done (h : list event) (osd : OSDInfo) : Prop :=
  zapped h osd /\ exists pv, looked_up h osd pv /\ (pv <> "" -> wiped h pv).

Lemma zap_goes_on before pvs cs w :
  Forall2 (zapping (log w)) before cs -> (forall s, ~ step (w, Build_threads (Wait (sanitize_each spec (on_path <$> pvs) Exit)) cs) s) -> False.
Proof.
  intros Hz Hs. assert (forallb is_exit cs = true) as Hx; [|by destruct (Hs _ (main_waited w _ cs Hx))].
  apply forallb_forall. intros c Hin%list_elem_of_In. apply list_elem_of_split in Hin as (cs1 & cs2 & ->).
  apply Forall2_app_inv_r in Hz as (s1 & s2 & _ & Hz2 & ->). inversion Hz2 as [|o x l l' Ho Hl]; subst.
  destruct Ho as [->|[-> _]]; [|done]. exfalso. destruct (exec (zap_osd_cmd (ID o)) w) as [w' r] eqn:Er.
  apply (Hs (w', Build_threads (Wait (sanitize_each spec (on_path <$> pvs) Exit)) (cs1 ++ Exit :: cs2))).
  apply child_does; [done|]. cbn. by rewrite Er.
Qed.

Lemma volume_stuck s : volume_inv s -> (forall s', ~ step s s') -> crashed s \/ Forall (volume_done (log s.1)) osds.
Proof.
  intros [_ [(before & after & pvs & Ho & Hl & Hm)|[Hc|(pvs & Hl & Hz & Hi)]]] Hs; [|by left|right].
  - exfalso. destruct s as [w [p cs]]. cbn in *. destruct Hm as [[-> Hz]|(known & osd & -> & -> & Hz)]; [|by apply (Hs _ (main_goes _ _ _ _))].
    destruct after as [|o after]; [by eapply zap_goes_on|]. destruct (exec (pv_cmd (BlockPath o)) w) as [w' r] eqn:Er.
    refine (Hs (w', Build_threads _ cs) (main_does w _ cs w' _ _)). cbn. rewrite Er. reflexivity.
  - pose proof (sanitize_stuck _ _ Hi Hs) as Hd. apply Forall_forall. intros osd Hin. rewrite Forall_forall in Hz. split; [by apply Hz|].
    apply list_elem_of_lookup in Hin as [i Hosd]. destruct (Forall2_lookup_l _ _ _ _ _ Hl Hosd) as (pv & Hpv & Hlook). exists pv. split; [done|].
    rewrite Forall_fmap, Forall_forall in Hd. destruct (Hd pv (list_elem_of_lookup_2 _ _ _ Hpv)) as (p & Hp & Hc). unfold data_path in Hp. cbn in Hp. subst p.
    intros Hne. eapply shred_all; [exact Hc|]. by split; [|left].
Qed.

End Volumes.

Lemma zap_bounded osds pvs : bounded (9 * length osds + 6 * length pvs + 2) (zap_each (W := W) spec osds pvs Exit).
Proof.
  revert pvs. induction osds as [|o osds IH]; intros pvs; cbn [zap_each].
  - eapply bounded_weaken; [constructor; apply (each_bounded _ Exit 0); constructor|]. rewrite length_fmap. cbn. lia.
  - cbn [length]. replace (9 * S (length osds) + 6 * length pvs + 2)%nat with (S (9 * length osds + 6 * length pvs + 10)) by lia. constructor. intros r.
    destruct (returnPVDevice r) as [|pv l]; [constructor|]. eapply bounded_weaken; [constructor; [apply (bounded_do 0); constructor|apply IH]|].
    rewrite length_app. cbn. lia.
Qed.

(** C31: however the goroutines take turns, sanitizing the disks of a list of LVM OSDs takes at most nine
    steps per OSD and two more; every call looks up the disk of one of these volumes, zaps a volume whose
    disk is known, or sanitizes such a disk, which happens only after all volumes were zapped; and when no
    goroutine can go on every volume is zapped and its disk sanitized, unless the disk of a volume could
    not be looked up, which crashes the job. *)
Theorem volumes_are_zapped_first osds e n w ts :
  nsteps step n (World e [], threads_of (SanitizeLVMDisk spec osds Exit)) (w, ts) ->
  (n <= 9 * length osds + 2)%nat /\ guarded (volume_call osds) (log w) /\
  ((forall s, ~ step (w, ts) s) -> crashed osds (w, ts) \/ Forall (volume_done (log w)) osds).
Proof.
  intros Hn. split.
  - eapply nsteps_bound; [exact Hn|]. exists (9 * length osds + 2)%nat, []. split_and!; [|constructor|cbn; lia].
    eapply bounded_weaken; [apply zap_bounded|cbn; lia].
  - assert (volume_inv osds (w, ts)) as Hi; [|split; [apply Hi|intros Hs; by apply volume_stuck]].
    apply (nsteps_inv (volume_inv osds) n _ (w, ts)) in Hn; [exact Hn|intros s s'; apply volume_step|].
    split; [apply guarded_nil|]. left. exists [], osds, []. split_and!; [done|constructor|left; split; [done|constructor]].
Qed.

End Disks.

(** ** Witnesses *)

#[export] Instance lab_host : HostEnv Lab := {
  env_stat_path _ w := (w, Ok ());
  env_read_path p w := (w, if String.eqb p "/var/lib/rook/mon-a/data/keyring" then Ok "	key = ours" else Ok "	key = theirs");
  env_glob _ w := (w, Ok ["/var/lib/rook/mon-a"; "/var/lib/rook/mon-b"]);
  env_read_dir _ w := (w, Ok [("rook-ceph.rbd.csi.ceph.com", true); ("data", true)]);
  env_remove_all _ w := (w, Ok ());
  is_not_exist _ := false;
}.

Definition host_lab (lvs : result string) : Lab :=
  {| lab_exec cmd := match cmd with "lvs" :: _ => lvs | _ => Ok "" end; lab_read _ := Ok ""; lab_ceph _ := Ok ""; lab_deployments := []; lab_claims := [] |}.

Definition paths_log : list event := log (StartHostPathCleanup "rook-ceph" "/var/lib/rook" "ours" (World (host_lab (Ok "")) [])).1.

(** The directory of the mon of another cluster is not removed. *)
Lemma host_paths_are_own_witness :
  paths_log !! 4%nat = Some (RemoveAll "/var/lib/rook/mon-a" (Ok ())) /\ (forall r, RemoveAll "/var/lib/rook/mon-b" r ∉ paths_log) /\
  path_needs (W := Lab) "rook-ceph" "/var/lib/rook" "ours" (take 4 paths_log) (RemoveAll "/var/lib/rook/mon-a" (Ok ())).
Proof.
  split; [vm_compute; reflexivity|]. split.
  - intros r Hin. vm_compute in Hin. repeat (apply elem_of_cons in Hin as [Hin|Hin]; [discriminate|]). by apply elem_of_nil in Hin.
  - apply (host_paths_are_own (W := Lab) "rook-ceph" "/var/lib/rook" "ours" (host_lab (Ok "")) (take 4 paths_log) (drop 5 paths_log)
             (RemoveAll "/var/lib/rook/mon-a" (Ok ()))). vm_compute. reflexivity.
Defined.

Definition quick : SanitizeDisksSpec := {| Method := "quick"; DataSource := "zero"; Iteration := 1 |}.

Definition two_osds : list OSDInfo := [on_path "/dev/vg0/lv0"; on_path "/dev/vg1/lv1"].

Definition lvm_end (lvs : result string) (n : nat) : option (world Lab event * threads Lab) :=
  execute n (World (host_lab lvs) [], threads_of (SanitizeLVMDisk quick two_osds Exit)).

(** What is computed from the state after some steps. *)
Lemma at_state {A B} (o : option A) (f : A -> B) x b : o = Some x -> f <$> o = Some b -> f x = b.
Proof. by intros -> [= <-]. Qed.

Lemma volumes_are_zapped_first_witness :
  exists w ts, lvm_end (Ok "/dev/sda:0-10") 12 = Some (w, ts) /\ (12 <= 20)%nat /\ Forall (volume_done quick (log w)) two_osds.
Proof.
  destruct (lvm_end (Ok "/dev/sda:0-10") 12) as [[w ts]|] eqn:E; [|by vm_compute in E]. exists w, ts. split; [done|].
  destruct (volumes_are_zapped_first quick two_osds (host_lab (Ok "/dev/sda:0-10")) 12 w ts (execute_nsteps _ _ _ E)) as (Hn & _ & Hs).
  split; [exact Hn|]. destruct Hs as [[Hp _]|Hd]; [|exfalso|done].
  - apply next_none. exact (at_state _ next _ None E ltac:(vm_compute; reflexivity)).
  - assert (is_exit (main ts) = true) as Hx by exact (at_state _ (fun s => is_exit (main s.2)) _ _ E ltac:(vm_compute; reflexivity)).
    cbn in Hp. by rewrite Hp in Hx.
Defined.

Definition raw_end (n : nat) : option (world Lab event * threads Lab) :=
  execute n (World (host_lab (Ok "")) [], threads_of (SanitizeRawDisk quick two_osds Exit)).

Lemma raw_disks_are_sanitized_witness :
  exists w ts, raw_end 5 = Some (w, ts) /\ (5 <= 13)%nat /\ Forall (sanitized quick (log w)) two_osds.
Proof.
  destruct (raw_end 5) as [[w ts]|] eqn:E; [|by vm_compute in E]. exists w, ts. split; [done|].
  destruct (raw_disks_are_sanitized quick two_osds (host_lab (Ok "")) 5 w ts (execute_nsteps _ _ _ E)) as (Hn & _ & Hs).
  split; [exact Hn|]. apply Hs, next_none. exact (at_state _ next _ None E ltac:(vm_compute; reflexivity)).
Defined.

(** ** What the theorems do not promise *)

(** When the disk of the second volume cannot be looked up the job crashes; the first volume is not zapped
    yet, or is, as the goroutines took their turns. *)
Definition second_fails : Lab :=
  {| lab_exec cmd := match cmd with ["lvs"; p; _; _; _] => if String.eqb p "/dev/vg0/lv0" then Ok "/dev/sda:0-10" else Err (External "failed") | _ => Ok "" end;
     lab_read _ := Ok ""; lab_ceph _ := Ok ""; lab_deployments := []; lab_claims := [] |}.

Example lookup_crashes :
  (fun s => (match main s.2 with Panic => true | _ => false end, length (log s.1), match next s with None => true | Some _ => false end)) <$>
    execute 3 (World second_fails [], threads_of (SanitizeLVMDisk quick two_osds Exit)) = Some (true, 2%nat, true).
Proof. vm_compute. reflexivity. Qed.

End HostSafety.
