(* ===== verification/OsdReplaceProofs.v ===== *)
(** * OsdReplaceProofs: what the replacement of OSDs guarantees

    The theorems on file OsdReplace, for every environment: what must have happened in the same
    tick, in this order, before an OSD is destroyed, a deployment is deleted or a deployment is
    changed; and which requests are handed over. *)

From stdpp Require Import base gmap strings list fin_maps.
From Stdlib Require Import ZArith Ascii.
From S2P Require Import Prelude CephVersion GoTime Topology Kube Disruption Upgrade Cephx OsdBase OsdReplace.
Import Log Version GoTime Kube Upgrade OsdBase OsdReplace.
Open Scope Z_scope.

Module OsdReplaceProofs.

(** ** Which calls matter *)

Definition destroy_args (id : Z) : list string := ["osd"; "destroy"; "osd." +:+ Itoa id; confirmFlag].

Definition safe_args (id : Z) : list string := ["osd"; "safe-to-destroy"; Itoa id].

Definition osd_selector : string := AppAttr +:+ "=" +:+ AppName.

Definition id_selector (id : Z) : string := OsdIdLabelKey +:+ "=" +:+ Itoa id.

(** A call that changes no deployment and destroys no OSD. *)
Definition idle (ev : event) : Prop :=
  match ev with
  | Ceph args _ => forall id, args <> destroy_args id
  | UpdateDeployment _ _ _ | CreateDeployment _ _ _ | DeleteDeployment _ _ _ => False
  | _ => True
  end.

Ltac idle :=
  repeat first
    [ progress intros
    | apply harmless_bind | apply harmless_try | apply harmless_wrapM
    | apply harmless_ret | apply harmless_fail | apply harmless_lift | apply harmless_silent
    | apply harmless_record
    | progress unfold unmarshal
    | done
    | case_match ].

Section Idle.
Context {W : Type} `{OsdEnv W} (c : OsdCluster).

Lemma getTopologyFromNode_idle d o : harmless idle (getTopologyFromNode (W := W) c d o).
Proof. unfold getTopologyFromNode. idle. Qed.

Lemma getOSDInfo_idle d : harmless idle (getOSDInfo (W := W) c d).
Proof. unfold getOSDInfo. idle; apply getTopologyFromNode_idle. Qed.

Lemma wait_job_deleted_idle n ns name : harmless idle (wait_job_deleted (W := W) n ns name).
Proof. induction n as [|n IH]; cbn [wait_job_deleted]; idle; apply IH. Qed.

#[local] Opaque wait_job_deleted.

Lemma DeleteBatchJob_idle ns name wait : harmless idle (DeleteBatchJob (W := W) ns name wait).
Proof. unfold DeleteBatchJob. idle. apply wait_job_deleted_idle. Qed.

Lemma RunReplaceableJob_idle ns job b : harmless idle (RunReplaceableJob (W := W) ns job b).
Proof. unfold RunReplaceableJob. idle; apply wait_job_deleted_idle. Qed.

Lemma replaceOSDNodeName_idle d id : harmless idle (replaceOSDNodeName (W := W) c d id).
Proof. unfold replaceOSDNodeName. apply harmless_bind; [apply harmless_wrapM, getOSDInfo_idle|]. idle. Qed.

Lemma startCryptCloseJob_idle id n : harmless idle (startCryptCloseJob (W := W) c id n).
Proof. apply harmless_wrapM, RunReplaceableJob_idle. Qed.

(** Waiting for a deployment to be gone only gets it. *)
Lemma wait_deleted_gets n ns name :
  harmless (fun ev => exists r, ev = GetDeployment ns name r) (wait_deleted (W := W) n name (get_deployment ns name)).
Proof.
  induction n as [|n IH]; cbn [wait_deleted]; [apply harmless_fail|].
  apply harmless_bind; [apply harmless_try, harmless_record; by eexists|]. intros [d|err].
  - apply harmless_bind; [apply harmless_silent|by intros _].
  - destruct (IsNotFound err); [apply harmless_ret|apply harmless_fail].
Qed.

#[local] Opaque wait_deleted.

Lemma DeleteDeployment_good nds h0 h ns name :
  (forall pre r, nds pre (GetDeployment ns name r)) -> good nds h0 h -> (forall r, nds h (DeleteDeployment ns name r)) ->
  logs (DeleteDeployment_ (W := W) ns name) (fun _ h' => good nds h0 h') h.
Proof.
  intros Hget Hg Hdel. unfold DeleteDeployment_, deleteResourceAndWait. apply logs_bind, logs_try, logs_record.
  intros r. assert (good nds h0 (h ++ [DeleteDeployment ns name r])) as Hd by (by apply good_snoc).
  destruct r as [[]|err].
  - eapply logs_harmless; [apply wait_deleted_gets|]. intros r l Hl. apply good_free; [done|].
    eapply Forall_impl; [exact Hl|]. by intros ev (r' & ->).
  - destruct (IsNotFound err); [by apply logs_ret|by apply logs_fail].
Qed.

Lemma checkRequireOSDRelease_idle m : harmless idle (checkRequireOSDRelease (W := W) m).
Proof. unfold checkRequireOSDRelease. idle. Qed.

End Idle.

(** ** What must have happened *)

Section Tick.
Context {W : Type} `{OsdEnv W} (c : OsdCluster) (remove : bool).

(** The path of the block device of an OSD, and whether the OSD is encrypted. *)
Definition block_path (d : Deployment) : result string :=
  container ← findOSDContainer (Containers (Template d));
  osdID ← GetOSDID d;
  '(osd, isPVC) ← read_envs (set_ID osdID empty_info, false) (Env container);
  if negb isPVC && String.eqb (BlockPath osd) "" then getBlockPathFromActivateInitContainer d else Ok (BlockPath osd).

Definition is_encrypted (d : Deployment) : bool :=
  String.eqb (read (dep_labels d) encrypted) "true" ||
  match block_path d with Ok path => Contains path "-dmcrypt" | Err _ => false end.

(** The deployment of OSD [id] is marked by the operator and not yet finished. *)
Definition owned (d : Deployment) (id : Z) : Prop :=
  read (dep_annotations d) ReplaceInProgressOSDAnnotationKey = "true" /\
  GetOSDID d = Ok id /\ isWaitingForDiskSwap d = false.

(** The tick listed [d] and then read the tree and the dump of Ceph. *)
Definition seen (h : list event) (d : Deployment) (id : Z) (tree : OsdTree) (dump : OSDDump) (calls : list event) : Prop :=
  exists ds tbuf dbuf,
    [ListDeployments (namespace c) osd_selector (Ok ds); Ceph ["osd"; "tree"] (Ok tbuf);
     Ceph ["osd"; "dump"] (Ok dbuf)] ++ calls `sublist_of` h /\
    d ∈ ds /\ owned d id /\
    unmarshal_tree (W := W) tbuf = Some tree /\ json_dump (W := W) dbuf = Some dump.

(** Ceph said that OSD [id] can be destroyed. *)
Definition said_safe (id : Z) (ev : event) : Prop :=
  exists buf rest, ev = Ceph (safe_args id) (Ok buf) /\ json_safe_to_destroy (W := W) buf = Some (id :: rest).

Definition destroy_ok (h : list event) (id : Z) : Prop :=
  exists d tree dump pods jobs safe down,
    seen h d id tree dump
      ([ListPods (namespace c) (id_selector id) (Ok pods)] ++ jobs ++
       [safe] ++ [Ceph ["osd"; "down"; Itoa id] (Ok down)]) /\
    isReplaceRequested d = true /\ isOSDDestroyedInTree tree id = false /\ Replicas d = Some 0 /\
    Forall (fun pod => Phase pod <> "Running") pods /\
    said_safe id safe /\
    (is_encrypted d = true ->
     exists job r, 0 < Succeeded job /\
       jobs = [GetJob (namespace c) (cryptCloseJobName id) (Ok job)] ++ [DeleteJob (namespace c) (cryptCloseJobName id) r]).

(** The deployment runs again, without the marker and without the fence. *)
Definition released (d : Deployment) : Deployment :=
  with_labels (with_annotations (with_replicas d (Some 1))
                 (delete "osd.rook.io/replace-in-progress" (dep_annotations d)))
    (delete "ceph.rook.io/do-not-reconcile" (dep_labels d)).

(** A deployment of OSD [id] is marked, finished or not. *)
Definition under_replacement (ds : list Deployment) (id : Z) : Prop :=
  exists d, d ∈ ds /\ read (dep_annotations d) ReplaceInProgressOSDAnnotationKey = "true" /\ GetOSDID d = Ok id.

Definition update_ok (h : list event) (ns : string) (d' : Deployment) : Prop :=
  ns = namespace c /\
  exists d id tree dump calls,
    seen h d id tree dump calls /\
    ((* the daemon is stopped: it is out and drained *)
     (d' = with_replicas d (Some 0) /\ isReplaceRequested d = true /\ isOSDDestroyedInTree tree id = false /\
      (exists up inn, StatusByID dump id = Ok (up, inn) /\ inn <> 1) /\
      exists safe, calls = [safe] /\ said_safe id safe) \/
     (* ready for the swap: it is destroyed *)
     (d' = AddAnnotationToDeployment ReadyForSwapOSDAnnotationKey "true" d /\ isOSDDestroyedInTree tree id = true) \/
     (* cancelled: it is in again, and the job that closes its devices is gone *)
     (d' = released d /\ isReplaceRequested d = false /\ isOSDDestroyedInTree tree id = false /\
      exists out r e, calls = [Ceph ["osd"; "in"; Itoa id] (Ok out)] ++
                              [DeleteJob (namespace c) (cryptCloseJobName id) r] ++
                              [GetJob (namespace c) (cryptCloseJobName id) (Err e)] /\ IsNotFound e = true)).

Definition delete_ok (h : list event) (ns name : string) : Prop :=
  remove = true /\
  exists id r dbuf dump up inn dp rest safe t,
    [ListDeployments (namespace c) osd_selector r] ++ [Ceph ["osd"; "dump"] (Ok dbuf)] ++
    [ListDeployments (namespace c) (id_selector id) (Ok (dp :: rest))] ++ [safe] ++ [Now (Ok t)] `sublist_of` h /\
    ns = dep_namespace dp /\ name = dep_name dp /\
    json_dump (W := W) dbuf = Some dump /\ StatusByID dump id = Ok (up, inn) /\ up <> 1 /\ inn <> 1 /\
    said_safe id safe /\ CreationTimestamp dp + graceTime < t /\
    (forall ds, r = Ok ds -> ~ under_replacement ds id).

Definition needs (h : list event) (ev : event) : Prop :=
  match ev with
  | Ceph args _ => forall id, args = destroy_args id -> destroy_ok h id
  | UpdateDeployment ns d _ => update_ok h ns d
  | DeleteDeployment ns name _ => delete_ok h ns name
  | CreateDeployment _ _ _ => False
  | _ => True
  end.

Lemma idle_needs ev : idle ev -> forall h, needs h ev.
Proof. intros Hi h. destruct ev; simpl in *; try done. intros id E. by apply Hi in E. Qed.

Abbreviation good := (Log.good needs).

Lemma good_idle h0 h l : good h0 h -> Forall idle l -> good h0 (h ++ l).
Proof. intros Hg Hl. apply good_free; [done|]. eapply Forall_impl; [exact Hl|]. apply idle_needs. Qed.

Lemma good_harmless {A} (m : MW W A) h0 h : harmless idle m -> good h0 h -> logs m (fun _ h' => good h0 h') h.
Proof. intros Hm Hg. eapply logs_harmless; [exact Hm|]. intros r l Hl. by apply good_idle. Qed.


(** What is reported as encrypted is [is_encrypted]. *)
Lemma getOSDInfo_encrypted d w w' info :
  getOSDInfo (W := W) c d w = (w', Ok info) -> Encrypted info = is_encrypted d.
Proof.
  unfold getOSDInfo. intros Hrun. inv_run.
  assert (block_path d = Ok (BlockPath a1)) as Hpath.
  { unfold block_path. repeat match goal with E : _ = Ok _ |- _ => rewrite E; cbn [mbind result_bind] end.
    destruct (negb b && _); inv_run; [|done].
    by destruct (getBlockPathFromActivateInitContainer d); simplify_eq/=. }
  assert (BlockPath a2 = BlockPath a1) as E2 by (clear Hrun; repeat case_match; inv_run; done).
  assert (BlockPath a3 = BlockPath a2) as E3 by (clear Hrun; repeat case_match; inv_run; repeat case_match; done).
  unfold is_encrypted. rewrite Hpath, <- E2, <- E3.
  repeat case_match; inv_run; done.
Qed.


Lemma seen_later h l d id tree dump calls : seen h d id tree dump calls -> seen (h ++ l) d id tree dump calls.
Proof. intros (ds & tbuf & dbuf & Hs & Hr). exists ds, tbuf, dbuf. split; [by apply happened_later|done]. Qed.

Lemma seen_snoc h ev d id tree dump calls : seen h d id tree dump calls -> seen (h ++ [ev]) d id tree dump (calls ++ [ev]).
Proof.
  intros (ds & tbuf & dbuf & Hs & Hr). exists ds, tbuf, dbuf. split; [|done].
  rewrite (assoc_L (++)). by apply happened_snoc.
Qed.

(** The calls that need no justification. *)
Ltac calm :=
  repeat first
    [ done
    | apply good_refl
    | apply good_snoc; [|solve [apply idle_needs; by intros ?]]
    | apply good_snoc; [|solve [apply idle_needs; done]]
    | apply good_idle; [|done] ].

Lemma job_status_found job : job_status job <> cryptCloseJobNotFound.
Proof. unfold job_status. by repeat case_match. Qed.

Lemma update_needs h d d' id tree dump calls r :
  seen h d id tree dump calls ->
  (d' = with_replicas d (Some 0) /\ isReplaceRequested d = true /\ isOSDDestroyedInTree tree id = false /\
   (exists up inn, StatusByID dump id = Ok (up, inn) /\ inn <> 1) /\
   exists safe, calls = [safe] /\ said_safe id safe) \/
  (d' = AddAnnotationToDeployment ReadyForSwapOSDAnnotationKey "true" d /\ isOSDDestroyedInTree tree id = true) \/
  (d' = released d /\ isReplaceRequested d = false /\ isOSDDestroyedInTree tree id = false /\
   exists out r e, calls = [Ceph ["osd"; "in"; Itoa id] (Ok out)] ++
                           [DeleteJob (namespace c) (cryptCloseJobName id) r] ++
                           [GetJob (namespace c) (cryptCloseJobName id) (Err e)] /\ IsNotFound e = true) ->
  needs h (UpdateDeployment (namespace c) d' r).
Proof. intros Hs Hc. split; [done|]. by exists d, id, tree, dump, calls. Qed.

Lemma cancelReplaceOSD_good h d id tree dump :
  guarded needs h -> seen h d id tree dump [] ->
  isReplaceRequested d = false -> isOSDDestroyedInTree tree id = false ->
  logs (cancelReplaceOSD (W := W) c d id) (fun _ h' => good h h') h.
Proof.
  intros Hg Hseen Hreq Hdes.
  unfold cancelReplaceOSD, OSDIn, deleteCryptCloseJob, DeleteBatchJob, cryptCloseJobStatusForOSD.
  run; calm; try (by exfalso; eapply job_status_found).
  all: apply good_snoc; [by calm|]; (eapply update_needs; [do 3 apply seen_snoc; exact Hseen|]);
    right; right; repeat (split; [done|]); by do 3 eexists.
Qed.

Lemma annotateReadyForSwap_good h d id tree dump :
  guarded needs h -> seen h d id tree dump [] -> isOSDDestroyedInTree tree id = true ->
  logs (annotateReadyForSwap (W := W) c d id) (fun _ h' => good h h') h.
Proof.
  intros Hg Hseen Hdes. unfold annotateReadyForSwap. run; calm.
  all: apply good_snoc; [by calm|]; eapply update_needs; [exact Hseen|]; right; by left.
Qed.

Lemma safe_output buf id rest : json_safe_to_destroy (W := W) buf = Some (id :: rest) ->
  said_safe id (Ceph (safe_args id) (Ok buf)).
Proof. by exists buf, rest. Qed.

Lemma drain_good h d id tree dump :
  guarded needs h -> seen h d id tree dump [] ->
  isReplaceRequested d = true -> isOSDDestroyedInTree tree id = false ->
  logs (drain (W := W) c d id dump) (fun _ h' => good h h') h.
Proof.
  intros Hg Hseen Hreq Hdes. unfold drain, OSDOut, OsdSafeToDestroy, scaleDownOSDDeployment.
  run; calm.
  all: apply good_snoc; [by calm|]; (eapply update_needs; [apply seen_snoc; exact Hseen|]); left;
    repeat (split; [done|]); (split; [do 2 eexists; split; [done|lia]|]);
    eexists; (split; [done|]); eapply safe_output; match goal with E : json_safe_to_destroy _ = _ |- _ => rewrite E end;
    do 2 f_equal; lia.
Qed.

Lemma seen_app h l d id tree dump calls more :
  seen h d id tree dump calls -> more `sublist_of` l -> seen (h ++ l) d id tree dump (calls ++ more).
Proof.
  intros (ds & tbuf & dbuf & Hs & Hr) Hm. exists ds, tbuf, dbuf. split; [|done].
  rewrite (assoc_L (++)). by apply sublist_app.
Qed.

Definition close_calls (d : Deployment) (id : Z) (jobs : list event) : Prop :=
  is_encrypted d = true ->
  exists job r, 0 < Succeeded job /\
    jobs = [GetJob (namespace c) (cryptCloseJobName id) (Ok job)] ++ [DeleteJob (namespace c) (cryptCloseJobName id) r].

Lemma isReplaceOSDEncrypted_spec h d :
  logs (isReplaceOSDEncrypted (W := W) c d)
    (fun r h' => exists l, h' = h ++ l /\ Forall idle l /\ forall b, r = Ok b -> b = is_encrypted d) h.
Proof.
  unfold isReplaceOSDEncrypted. destruct (String.eqb _ "true") eqn:El.
  - apply logs_ret. exists []. rewrite app_nil_r. split; [done|]. split; [done|]. intros b [= <-].
    unfold is_encrypted. by rewrite El.
  - apply logs_bind, logs_wrapM. intros e. destruct (getOSDInfo_idle c d h e) as (l & Hl & Hi).
    rewrite Hl. destruct (getOSDInfo c d (World e h)) as [w' [info|err]] eqn:Er; cbn [snd wrap_err].
    + apply logs_ret. exists l. repeat (split; [done|]). intros b [= <-]. by eapply getOSDInfo_encrypted.
    + exists l. by repeat (split; [done|]).
Qed.

Lemma runCryptCloseJobForOSD_spec h d id :
  logs (runCryptCloseJobForOSD (W := W) c d id)
    (fun r h' => exists l, h' = h ++ l /\ Forall idle l /\
       (r = Ok true -> exists job, 0 < Succeeded job /\
                         l = [GetJob (namespace c) (cryptCloseJobName id) (Ok job)])) h.
Proof.
  assert (forall ev, idle ev ->
    logs (nodeName ← replaceOSDNodeName (W := W) c d id; _ ← startCryptCloseJob c id nodeName; mret false)
      (fun r h' => exists l, h' = h ++ l /\ Forall idle l /\
         (r = Ok true -> exists job, 0 < Succeeded job /\
                           l = [GetJob (namespace c) (cryptCloseJobName id) (Ok job)])) (h ++ [ev])) as Hstart.
  { intros ev Hev. apply logs_bind. eapply logs_harmless; [apply replaceOSDNodeName_idle|].
    intros [n|err] l Hl.
    2:{ exists (ev :: l). rewrite <- (assoc_L (++)). repeat (split; [by try constructor|]). done. }
    apply logs_bind. eapply logs_harmless; [apply startCryptCloseJob_idle|]. intros r l' Hl'.
    assert (Forall idle (ev :: l ++ l')) by (constructor; [done|]; by apply Forall_app).
    destruct r; [apply logs_ret|]; exists (ev :: l ++ l'); rewrite <- !(assoc_L (++)); by repeat (split; [done|]). }
  unfold runCryptCloseJobForOSD, cryptCloseJobStatusForOSD. apply logs_bind, logs_bind, logs_try.
  apply logs_record. intros [job|err].
  - apply logs_ret. destruct (job_status job) eqn:Ej.
    + by apply job_status_found in Ej.
    + apply logs_ret. exists [GetJob (namespace c) (cryptCloseJobName id) (Ok job)]. repeat (split; [by repeat constructor|]).
      done.
    + apply logs_ret. exists [GetJob (namespace c) (cryptCloseJobName id) (Ok job)]. repeat (split; [by repeat constructor|]).
      intros _. exists job. split; [|done]. unfold job_status in Ej.
      destruct (Z.ltb_spec 0 (Succeeded job)); [done|by repeat case_match].
    + by apply Hstart.
  - destruct (IsNotFound err); [apply logs_ret; by apply Hstart|]. apply logs_fail.
    exists [GetJob (namespace c) (cryptCloseJobName id) (Err err)]. repeat (split; [by repeat constructor|]). done.
Qed.

Lemma close_devices_spec h d id :
  logs (close_devices (W := W) c d id)
    (fun r h' => exists l, h' = h ++ l /\ Forall idle l /\
       (r = Ok true -> exists jobs, jobs `sublist_of` l /\ close_calls d id jobs)) h.
Proof.
  unfold close_devices. apply logs_bind. eapply logs_mono; [|apply isReplaceOSDEncrypted_spec].
  intros [[]|err] h' (l & -> & Hl & Hb); [| |by exists l].
  2:{ apply logs_ret. exists l. repeat (split; [done|]). intros _. exists []. split; [apply sublist_nil_l|].
      intros E. specialize (Hb false eq_refl). congruence. }
  apply logs_bind. eapply logs_mono; [|apply runCryptCloseJobForOSD_spec].
  intros [[]|err] h' (l' & -> & Hl' & Hjob).
  2,3: try apply logs_ret; exists (l ++ l'); rewrite (assoc_L (++)); (split; [done|]); (split; [by apply Forall_app|done]).
  destruct (Hjob eq_refl) as (job & Hs & ->).
  apply logs_bind, logs_wrapM. unfold deleteCryptCloseJob, DeleteBatchJob. apply logs_bind, logs_try, logs_record.
  intros r. set (ev := DeleteJob _ _ r).
  assert (exists l0, ((h ++ l) ++ [GetJob (namespace c) (cryptCloseJobName id) (Ok job)]) ++ [ev] = h ++ l0 /\
    Forall idle l0 /\ exists jobs, jobs `sublist_of` l0 /\ close_calls d id jobs) as Hdone.
  { exists (l ++ [GetJob (namespace c) (cryptCloseJobName id) (Ok job)] ++ [ev]).
    split; [by rewrite !(assoc_L (++))|]. split; [apply Forall_app; split; [done|by repeat constructor]|].
    exists ([GetJob (namespace c) (cryptCloseJobName id) (Ok job)] ++ [ev]).
    split; [by apply sublist_inserts_l|]. intros _. by exists job, r. }
  destruct Hdone as (l0 & Hl0 & Hi & Hj).
  destruct r as [[]|err]; [|destruct (IsNotFound err)]; run; exists l0; repeat (split; [done|]); done.
Qed.

Lemma pods_gone pods :
  (0 <? Z.of_nat (length (List.filter (fun pod => String.eqb (Phase pod) "Running") pods))) = false ->
  Forall (fun pod => Phase pod <> "Running") pods.
Proof.
  intros Hn. apply Forall_forall. intros pod Hpod E.
  assert (pod ∈ List.filter (fun pod => String.eqb (Phase pod) "Running") pods) as Hin.
  { apply list_elem_of_In, filter_In. split; [by apply list_elem_of_In|by rewrite E]. }
  destruct (List.filter _ _); [by apply not_elem_of_nil in Hin|done].
Qed.

Lemma destroy_needs h d id tree dump pods jobs l safe down r :
  seen h d id tree dump [] -> isReplaceRequested d = true -> isOSDDestroyedInTree tree id = false ->
  Replicas d = Some 0 -> Forall (fun pod => Phase pod <> "Running") pods ->
  jobs `sublist_of` l -> close_calls d id jobs -> said_safe id safe ->
  needs ((((h ++ [ListPods (namespace c) (id_selector id) (Ok pods)]) ++ l) ++ [safe]) ++
           [Ceph ["osd"; "down"; Itoa id] (Ok down)]) (Ceph (destroy_args id) r).
Proof.
  intros Hseen Hreq Hdes Hrep Hpods Hsub Hclose Hsafe id' E. injection E as E. apply Itoa_injective in E as <-.
  exists d, tree, dump, pods, jobs, safe, down. split; [|done].
  rewrite (assoc_L (++) [_]), (assoc_L (++) ([_] ++ jobs) [safe]). do 2 apply seen_snoc. apply seen_app; [|done].
  by apply (seen_snoc _ _ _ _ _ _ []).
Qed.

Lemma destroy_downscaled_good h d id tree dump :
  guarded needs h -> seen h d id tree dump [] ->
  isReplaceRequested d = true -> isOSDDestroyedInTree tree id = false -> Replicas d = Some 0 ->
  logs (destroy_downscaled (W := W) c d id) (fun _ h' => good h h') h.
Proof.
  intros Hg Hseen Hreq Hdes Hrep. unfold destroy_downscaled, isOSDPodGone, PodsRunningWithLabel, podStatusWithLabel.
  apply logs_bind, logs_bind, logs_wrapM, logs_bind, logs_bind, logs_record. intros [pods|err]; [|by calm].
  do 3 apply logs_ret. rewrite negb_involutive. case_match; [apply logs_ret; by calm|].
  apply logs_bind. eapply logs_mono; [|apply close_devices_spec].
  intros [[]|err] h' (l & -> & Hl & Hjobs); [|apply logs_ret; by calm|by calm]. cbn [negb].
  destruct (Hjobs eq_refl) as (jobs & Hsub & Hclose).
  unfold OsdSafeToDestroy, OSDDown, OSDDestroy. run; calm.
  all: apply good_snoc; [by calm|]; (eapply destroy_needs; [done..|by apply pods_gone|done|done|]);
    eapply safe_output; match goal with E : json_safe_to_destroy _ = _ |- _ => rewrite E end; do 2 f_equal; lia.
Qed.


Lemma processOSDReplacementDestroy_good h d id tree dump :
  guarded needs h -> seen h d id tree dump [] ->
  logs (processOSDReplacementDestroy (W := W) c d id tree dump) (fun _ h' => good h h') h.
Proof.
  intros Hg Hseen. unfold processOSDReplacementDestroy.
  destruct (isReplaceRequested d) eqn:Hreq, (isOSDDestroyedInTree tree id) eqn:Hdes; cbn [negb andb].
  - by eapply annotateReadyForSwap_good.
  - destruct (is_downscaled d) eqn:Hrep.
    + eapply destroy_downscaled_good; [done..|]. by apply bool_decide_eq_true in Hrep.
    + by eapply drain_good.
  - by eapply annotateReadyForSwap_good.
  - by eapply cancelReplaceOSD_good.
Qed.

Lemma collect_owned ds : Forall (fun p => p.1 ∈ ds /\ owned p.1 p.2) (foldl collect (∅, []) ds).2.
Proof.
  induction ds as [|d ds IH] using rev_ind; [constructor|].
  assert (Forall (fun p => p.1 ∈ ds ++ [d] /\ owned p.1 p.2) (foldl collect (∅, []) ds).2) as IH'.
  { eapply Forall_impl; [exact IH|]. intros p [Hin Ho]. split; [|done]. apply elem_of_app. by left. }
  rewrite foldl_app. cbn [foldl]. destruct (foldl collect (∅, []) ds) as [s l]. unfold collect.
  destruct (String.eqb_spec (read (dep_annotations d) ReplaceInProgressOSDAnnotationKey) "true") as [Hm|]; [|done].
  cbn [negb]. destruct (GetOSDID d) as [id|] eqn:Hid; [|done]. cbn [snd].
  destruct (isWaitingForDiskSwap d) eqn:Hw; [done|]. apply Forall_app. split; [done|].
  constructor; [|done]. split; [|done]. apply elem_of_app. right. by apply list_elem_of_singleton.
Qed.

Lemma collect_marked ds id : id ∈ (foldl collect (∅, []) ds).1 <-> under_replacement ds id.
Proof.
  unfold under_replacement. induction ds as [|d ds IH] using rev_ind; [set_solver|].
  rewrite foldl_app. cbn [foldl]. setoid_rewrite elem_of_app. setoid_rewrite list_elem_of_singleton.
  destruct (foldl collect (∅, []) ds) as [s l]. cbn [fst] in IH. unfold collect.
  destruct (String.eqb_spec (read (dep_annotations d) ReplaceInProgressOSDAnnotationKey) "true") as [Hm|Hm];
    cbn [negb fst]; [destruct (GetOSDID d) as [i|] eqn:Hid; cbn [fst]|].
  1: rewrite elem_of_union, elem_of_singleton.
  all: rewrite IH; split; [naive_solver|].
  all: intros (d' & [?| ->] & Hm' & Hid').
  1,3,5: first [by right; exists d'|by exists d'].
  - left. congruence.
  - congruence.
  - done.
Qed.

Lemma process_all_good l tree dump h :
  guarded needs h -> Forall (fun p => seen h p.1 p.2 tree dump []) l ->
  logs (forM_ l (fun '(d, id) => _ ← try_ (processOSDReplacementDestroy (W := W) c d id tree dump); mret ()))
    (fun r h' => r = Ok () /\ good h h') h.
Proof.
  revert h. induction l as [|[d id] l IH]; intros h Hg Hl; cbn [forM_].
  - apply logs_ret. split; [done|]. by calm.
  - apply Forall_cons_1 in Hl as [Hd Hl]. apply logs_bind, logs_bind, logs_try.
    eapply logs_mono; [|by apply processOSDReplacementDestroy_good]. intros r h' [Hg' Hsub]. apply logs_ret.
    eapply logs_mono; [|apply IH; [done|]].
    + intros r' h'' [? Hgood]. split; [done|]. by eapply good_trans.
    + eapply Forall_impl; [exact Hl|]. intros p (ds & tb & db & Hs & Hr). exists ds, tb, db. split; [by etrans|done].
Qed.

(** The first call lists the deployments, and the OSDs that are reported are those of its answer. *)
Definition listed (h : list event) (s : gset Z) : Prop :=
  exists r, [ListDeployments (namespace c) osd_selector r] `sublist_of` h /\
            (forall ds, r = Ok ds -> s = (foldl collect (∅, []) ds).1).

Lemma processOSDsDestroyForReplacement_good :
  logs (processOSDsDestroyForReplacement (W := W) c)
    (fun r h => guarded needs h /\ exists s e, r = Ok (s, e) /\ listed h s) [].
Proof.
  unfold processOSDsDestroyForReplacement, getOSDDeployments.
  apply logs_bind, logs_try, logs_wrapM, logs_record. intros r0. cbn [app]. set (ev := ListDeployments _ _ r0).
  assert (guarded needs [ev]) as Hg by (apply (guarded_snoc _ []); [apply guarded_nil|done]).
  assert (forall h s, [ev] `sublist_of` h -> (forall ds, r0 = Ok ds -> s = (foldl collect (∅, []) ds).1) -> listed h s)
    as Hlisted by (intros h s ??; by exists r0).
  destruct r0 as [ds|err]; cbn [wrap_err].
  2:{ apply logs_ret. split; [done|]. do 2 eexists. split; [done|]. by apply Hlisted. }
  pose proof (collect_owned ds) as Howned. destruct (foldl collect (∅, []) ds) as [s l] eqn:Ef. cbn [snd] in Howned.
  assert (forall h, [ev] `sublist_of` h -> listed h s) as Hl.
  { intros h Hh. apply Hlisted; [done|]. intros ds' [= <-]. by rewrite Ef. }
  assert (forall h, good [ev] h -> guarded needs h /\ exists s' e, Ok (s, @None gerror) = Ok (s', e) /\ listed h s') as Hret.
  { intros h [? ?]. split; [done|]. exists s, None. auto. }
  destruct l as [|p l']; [apply logs_ret; apply Hret; by calm|]. remember (p :: l') as l eqn:El. clear El.
  unfold HostTree, GetOSDDump. apply logs_bind, logs_try, logs_bind, logs_wrapM, logs_record. intros [tbuf|]; cbn [wrap_err].
  2:{ apply logs_ret, Hret. by calm. }
  unfold unmarshal at 1. destruct (unmarshal_tree tbuf) as [tree|] eqn:Et; run; try (apply Hret; by calm).
  eapply logs_mono; [|apply process_all_good].
  - intros r h' [-> Hgood]. apply logs_ret, Hret. eapply good_trans; [|exact Hgood]. by calm.
  - assert (good [ev] (([ev] ++ [Ceph ["osd"; "tree"] (Ok tbuf)]) ++ [Ceph ["osd"; "dump"] (Ok a)])) as [? _] by calm.
    done.
  - eapply Forall_impl; [exact Howned|]. intros [d id] [Hin Ho]. by exists ds, tbuf, a.
Qed.

#[local] Opaque DeleteDeployment_.

Lemma removeOSDDeploymentIfSafeToDestroy_good h r dbuf dump id up inn :
  remove = true -> guarded needs h ->
  [ListDeployments (namespace c) osd_selector r] ++ [Ceph ["osd"; "dump"] (Ok dbuf)] `sublist_of` h ->
  json_dump (W := W) dbuf = Some dump -> StatusByID dump id = Ok (up, inn) -> up <> 1 -> inn <> 1 ->
  (forall ds, r = Ok ds -> ~ under_replacement ds id) ->
  logs (removeOSDDeploymentIfSafeToDestroy (W := W) c id) (fun _ h' => good h h') h.
Proof.
  intros Hremove Hg Hsub Hdump Hst Hup Hinn Hnot.
  unfold removeOSDDeploymentIfSafeToDestroy, GetDeployments, OsdSafeToDestroy.
  apply logs_bind, logs_try, logs_bind, logs_try, logs_record. intros [[|dp rest]|err].
  1,3: run; by calm.
  apply logs_ret. apply logs_bind, logs_wrapM, logs_bind, logs_wrapM, logs_record. intros [buf|err]; [|by calm].
  cbn [wrap_err]. unfold unmarshal.
  destruct (json_safe_to_destroy buf) as [[|i output]|] eqn:Es; run; try by calm.
  apply DeleteDeployment_good; [done|by calm|]. intros r0. split; [done|].
  assert (i = id) as -> by lia.
  match goal with Et : (_ <? ?t) = true |- _ =>
    apply Z.ltb_lt in Et; exists id, r, dbuf, dump, up, inn, dp, rest, (Ceph (safe_args id) (Ok buf)), t end.
  split; [|repeat (split; [done|]); split; [by eapply safe_output|done]].
  rewrite (assoc_L (++) [_] [_]), (assoc_L (++) ([_] ++ [_]) [_]), (assoc_L (++) (([_] ++ [_]) ++ [_]) [_]).
  by repeat apply happened_snoc.
Qed.

Lemma checkOSDDump_good m s h :
  remove = removeOSDsIfOUTAndSafeToRemove m -> guarded needs h -> listed h s ->
  logs (checkOSDDump (W := W) c m s) (fun _ h' => good h h') h.
Proof.
  intros Hremove Hg (r & Hsub & Hs). unfold checkOSDDump, GetOSDDump.
  apply logs_bind, logs_wrapM, logs_bind, logs_wrapM, logs_record. intros [dbuf|err]; [|by calm]. cbn [wrap_err].
  unfold unmarshal. destruct (json_dump dbuf) as [dump|] eqn:Ed; run; [|by calm].
  generalize (OSDs dump) at 1 as l. intros l.
  assert (good h (h ++ [Ceph ["osd"; "dump"] (Ok dbuf)])) as Hgood by calm.
  assert ([ListDeployments (namespace c) osd_selector r] ++ [Ceph ["osd"; "dump"] (Ok dbuf)]
            `sublist_of` h ++ [Ceph ["osd"; "dump"] (Ok dbuf)]) as Hchain by (by apply happened_snoc).
  revert Hgood Hchain. generalize (h ++ [Ceph ["osd"; "dump"] (Ok dbuf)]) as h1.
  induction l as [|o l IH]; intros h1 Hgood Hchain; cbn [forM_]; [by apply logs_ret|].
  apply logs_bind. unfold check_osd at 1.
  destruct (Atoi (OSD o)) as [id|]; [|apply logs_ret; by apply IH].
  case_bool_decide; [apply logs_ret; by apply IH|].
  apply logs_bind, logs_lift. destruct (StatusByID dump id) as [[up inn]|] eqn:Est; [|done].
  destruct (up =? upStatus) eqn:Eup; [apply logs_ret; by apply IH|].
  destruct (negb (inn =? inStatus) && removeOSDsIfOUTAndSafeToRemove m) eqn:Erm; [|apply logs_ret; by apply IH].
  apply andb_prop in Erm as [Ein%negb_true_iff Erm].
  apply logs_bind, logs_try. eapply logs_mono; [|eapply removeOSDDeploymentIfSafeToDestroy_good].
  2-4: first [congruence | apply Hgood | exact Hchain].
  2,3: done.
  2,3: unfold upStatus, inStatus in *; lia.
  2: intros ds ->; rewrite <- collect_marked, <- (Hs ds eq_refl); done.
  intros r' h' [Hg' Hsub']. apply logs_ret. apply IH; [|by etrans].
  eapply good_trans; [exact Hgood|done].
Qed.

(** Every call of a tick is justified. *)
Lemma checkOSDHealth_guarded m :
  remove = removeOSDsIfOUTAndSafeToRemove m ->
  logs (checkOSDHealth (W := W) c m) (fun _ h => guarded needs h) [].
Proof.
  intros Hremove. unfold checkOSDHealth. apply logs_bind.
  eapply logs_mono; [|apply processOSDsDestroyForReplacement_good].
  intros r h (Hg & s & e & -> & Hl). apply logs_bind, logs_try.
  eapply logs_mono; [|by apply checkOSDDump_good]. intros r' h' [Hg' _].
  eapply logs_harmless; [apply checkRequireOSDRelease_idle|]. intros r'' l Hidle.
  by apply (good_idle h' h' l (good_refl _ h' Hg') Hidle).
Qed.

End Tick.

(** ** Requests *)

(** Another OSD of the host reports the same devices. *)
Definition shares_device (id : Z) (metadata : list OSDMetadata) : Prop :=
  exists target other,
    List.find (fun m => osd_id m =? id) metadata = Some target /\ Devices target <> "" /\ HostName target <> "" /\
    other ∈ metadata /\ osd_id other <> id /\ HostName other = HostName target /\ Devices other = Devices target.

(** The request names the OSD of the deployment, which is on a host, known to Ceph and alone on its device. *)
Definition replaceable (d : Deployment) (value : string) (tree : OsdTree) (metadata : list OSDMetadata) : Prop :=
  exists id, GetOSDID d = Ok id /\ value = "yes-really-replace-osd-" +:+ Itoa id /\
    dep_labels d !! OSDOverPVCLabelKey = None /\
    (exists node, node ∈ default [] (Nodes tree) /\ node_type node = "osd" /\ node_id node = id) /\
    ~ shares_device id metadata.

Lemma find_elem {A} (f : A -> bool) l x : List.find f l = Some x -> x ∈ l /\ f x = true.
Proof. intros [Hin Hf]%List.find_some. split; [by apply list_elem_of_In|done]. Qed.

Lemma find_none {A} (f : A -> bool) l x : List.find f l = None -> x ∈ l -> f x = false.
Proof. intros Hf Hin. eapply List.find_none; [exact Hf|by apply list_elem_of_In]. Qed.

Lemma validateSingleOSDPerDevice_spec id metadata :
  validateSingleOSDPerDevice id metadata = Ok () <-> ~ shares_device id metadata.
Proof.
  unfold validateSingleOSDPerDevice, shares_device. destruct (List.find _ metadata) as [target|] eqn:Et.
  2:{ split; [|done]. intros _ (t & o & E & _). done. }
  destruct (String.eqb_spec (Devices target) "") as [Ed|Ed]; cbn [orb].
  { split; [|done]. intros _ (t & o & [= <-] & ? & _). done. }
  destruct (String.eqb_spec (HostName target) "") as [Eh|Eh].
  { split; [|done]. intros _ (t & o & [= <-] & ? & ? & _). done. }
  destruct (List.find (fun o => negb _) metadata) as [other|] eqn:Eo.
  - split; [done|]. intros []. apply find_elem in Eo as [Hin Ho].
    apply negb_true_iff, orb_false_iff in Ho as [[Hid Hh]%orb_false_iff Hd].
    apply negb_false_iff, String.eqb_eq in Hh. apply negb_false_iff, String.eqb_eq in Hd.
    exists target, other. repeat (split; [done|]). split; [lia|done].
  - split; [|done]. intros _ (t & o & [= <-] & _ & _ & Hin & Hid & Hh & Hd).
    eapply find_none in Eo; [|exact Hin]. rewrite Hh, Hd, !String.eqb_refl in Eo.
    destruct (Z.eqb_spec (osd_id o) id); [lia|done].
Qed.

Lemma validateReplaceOSD_spec d value tree metadata :
  validateReplaceOSD d value tree metadata = Ok () <-> replaceable d value tree metadata.
Proof.
  unfold validateReplaceOSD, replaceable. destruct (GetOSDID d) as [id|e]; cbn [wrap_err mbind result_bind].
  2:{ split; [done|]. by intros (id & E & _). }
  destruct (String.eqb_spec value ("yes-really-replace-osd-" +:+ Itoa id)) as [Ev|Ev]; cbn [negb].
  2:{ split; [done|]. intros (id' & [= <-] & E & _). done. }
  destruct (bool_decide _) eqn:Ep.
  { apply bool_decide_eq_true in Ep as [v Ep]. split; [done|]. intros (id' & [= <-] & _ & E & _). congruence. }
  apply bool_decide_eq_false, eq_None_not_Some in Ep.
  destruct (existsb _ _) eqn:Ex; cbn [negb].
  - apply existsb_exists in Ex as (node & Hin%list_elem_of_In & [Ht%String.eqb_eq Hi%Z.eqb_eq]%andb_prop).
    rewrite validateSingleOSDPerDevice_spec. split.
    + intros Hs. exists id. repeat (split; [done|]). split; [by exists node|done].
    + by intros (id' & [= <-] & _ & _ & _ & Hs).
  - split; [done|]. intros (id' & [= <-] & _ & _ & (node & Hin & Ht & Hi) & _).
    assert (existsb (fun node => String.eqb (node_type node) "osd" && (node_id node =? id)) (default [] (Nodes tree)) = true) as E.
    { apply existsb_exists. exists node. split; [by apply list_elem_of_In|]. rewrite Ht, Hi. simpl. lia. }
    congruence.
Qed.

Section Requests.
Context {W : Type} `{OsdEnv W} (c : OsdCluster).

Definition listing (ds : list Deployment) : event := ListDeployments (namespace c) osd_selector (Ok ds).

Definition marked_ok (h : list event) (ns : string) (d' : Deployment) : Prop :=
  ns = namespace c /\
  exists ds d value tbuf mbuf tree metadata,
    [listing ds] ++ [Ceph ["osd"; "tree"] (Ok tbuf)] ++ [Ceph ["osd"; "metadata"] (Ok mbuf)] `sublist_of` h /\
    unmarshal_tree (W := W) tbuf = Some tree /\ json_metadata (W := W) mbuf = Some metadata /\
    d ∈ ds /\ d' = mark_in_progress d /\
    isWaitingForDiskSwap d = false /\ read (dep_annotations d) ReplaceInProgressOSDAnnotationKey <> "true" /\
    dep_annotations d !! ReplaceOSDAnnotationKey = Some value /\ replaceable d value tree metadata.

Definition cleaned_ok (h : list event) (ns name : string) : Prop :=
  exists ds d dbuf dump id,
    [listing ds] ++ [Ceph ["osd"; "dump"] (Ok dbuf)] `sublist_of` h /\ json_dump (W := W) dbuf = Some dump /\
    d ∈ ds /\ ns = dep_namespace d /\ name = dep_name d /\ isWaitingForDiskSwap d = true /\
    GetOSDID d = Ok id /\ OSDs dump <> [] /\ Exists dump id = false.

Definition request_needs (h : list event) (ev : event) : Prop :=
  match ev with
  | UpdateDeployment ns d _ => marked_ok h ns d
  | DeleteDeployment ns name _ => cleaned_ok h ns name
  | CreateDeployment _ _ _ => False
  | Ceph args _ => args ∈ [["osd"; "tree"]; ["osd"; "metadata"]; ["osd"; "dump"]]
  | _ => True
  end.

(** What the cache holds was read in this pass. *)
Definition cached (h : list event) (ds : list Deployment) (st : Cache) : Prop :=
  [listing ds] `sublist_of` h /\
  (forall dump, cache_dump st = Some dump -> exists dbuf,
     [listing ds] ++ [Ceph ["osd"; "dump"] (Ok dbuf)] `sublist_of` h /\ json_dump (W := W) dbuf = Some dump) /\
  (forall tree metadata, cache_tree st = Some (tree, metadata) -> exists tbuf mbuf,
     [listing ds] ++ [Ceph ["osd"; "tree"] (Ok tbuf)] ++ [Ceph ["osd"; "metadata"] (Ok mbuf)] `sublist_of` h /\
     unmarshal_tree (W := W) tbuf = Some tree /\ json_metadata (W := W) mbuf = Some metadata).

Abbreviation rgood := (Log.good request_needs).

Lemma cached_past h h' ds st : rgood h h' -> cached h ds st -> cached h' ds st.
Proof.
  intros [_ Hs] (Ha & Hb & Hc). split; [by etrans|]. split.
  - intros dump E. destruct (Hb dump E) as (dbuf & ? & ?). exists dbuf. split; [by etrans|done].
  - intros tree md E. destruct (Hc tree md E) as (tb & mb & ? & ?). exists tb, mb. split; [by etrans|done].
Qed.

Ltac listed_here := by first [apply list_elem_of_here | do 1 apply list_elem_of_further; apply list_elem_of_here
                             | do 2 apply list_elem_of_further; apply list_elem_of_here].

(** One deployment: every call is justified, and what is cached was read. *)
Definition passes (ds : list Deployment) (h : list event) (r : result Cache) (h' : list event) : Prop :=
  exists st, r = Ok st /\ rgood h h' /\ cached h' ds st.

Lemma GetOSDDump_spec h ds st :
  guarded request_needs h -> cached h ds st -> cache_dump st = None ->
  logs (GetOSDDump (W := W))
    (fun r h' => rgood h h' /\
       (forall dump, r = Ok dump -> cached h' ds {| cache_dump := Some dump; cache_tree := cache_tree st |})) h.
Proof.
  intros Hg Hc Hn. unfold GetOSDDump. apply logs_bind, logs_wrapM, logs_record. intros r.
  assert (rgood h (h ++ [Ceph ["osd"; "dump"] r])) as Hgood.
  { apply good_snoc; [by apply good_refl|]. simpl. listed_here. }
  destruct r as [dbuf|err]; cbn [wrap_err]; [|done]. unfold unmarshal.
  destruct (json_dump dbuf) as [dump|] eqn:Ed; [apply logs_ret|by apply logs_fail]. split; [done|].
  intros dump' [= <-]. destruct (cached_past _ _ _ _ Hgood Hc) as (Ha & _ & Ht). split; [done|]. split; [|done].
  intros dump' [= <-]. exists dbuf. split; [|done]. apply happened_snoc. apply Hc.
Qed.

Lemma clean_up_swap_spec h ds st d :
  guarded request_needs h -> cached h ds st -> d ∈ ds -> isWaitingForDiskSwap d = true ->
  logs (clean_up_swap (W := W) st d) (passes ds h) h.
Proof.
  intros Hg Hc Hin Hw. unfold clean_up_swap. apply logs_bind.
  apply (logs_mono _ (fun r h' => exists r', r = Ok r' /\ rgood h h' /\ cached h' ds st /\
    (forall dump, r' = Ok dump -> cached h' ds {| cache_dump := Some dump; cache_tree := cache_tree st |}))).
  { intros r h1 (r' & -> & Hgood & Hcst & Hdump). destruct r' as [dump|err]; [|apply logs_ret; by exists st].
    specialize (Hdump dump eq_refl). destruct Hdump as (Ha & Hb & Ht).
    destruct (isMissingFromOSDDump d (Some dump)) eqn:Em.
    2:{ run. eexists. split; [done|]. split; [done|]. by split. }
    apply logs_bind, logs_bind, logs_try.
    eapply (logs_mono _ (fun _ h' => rgood h1 h')).
    { intros r h2 Hgood2. do 2 apply logs_ret. eexists. split; [done|]. split; [by eapply good_trans|].
      eapply cached_past; [exact Hgood2|]. by split. }
    apply DeleteDeployment_good; [done|apply good_refl; by destruct Hgood|]. intros r0.
    destruct (Hb dump eq_refl) as (dbuf & Hsub & Hj).
    unfold isMissingFromOSDDump in Em. destruct (GetOSDID d) as [id|] eqn:Eid; [|done].
    exists ds, d, dbuf, dump, id. repeat (split; [done|]).
    destruct (OSDs dump) eqn:Eo; [done|]. split; [done|]. by apply negb_true_iff in Em. }
  destruct (cache_dump st) as [dump|] eqn:Ed.
  - apply logs_ret. eexists. split; [done|]. split; [by apply good_refl|]. split; [done|].
    intros dump' [= <-]. destruct Hc as (Ha & Hb & Ht). split; [done|]. split; [|done].
    intros dump' [= <-]. by apply Hb.
  - apply logs_try. eapply logs_mono; [|by apply GetOSDDump_spec]. intros r h' [Hgood Hd].
    exists r. split; [done|]. split; [done|]. split; [by eapply cached_past|done].
Qed.

Lemma read_tree_spec h ds st :
  guarded request_needs h -> cached h ds st ->
  logs (tree ← HostTree; metadata ← GetOSDMetadata (W := W); mret (tree, metadata))
    (fun r h' => rgood h h' /\
       (forall tm, r = Ok tm -> cached h' ds {| cache_dump := cache_dump st; cache_tree := Some tm |})) h.
Proof.
  intros Hg Hc. unfold HostTree, GetOSDMetadata.
  apply logs_bind, logs_bind, logs_wrapM, logs_record. intros r.
  assert (rgood h (h ++ [Ceph ["osd"; "tree"] r])) as Hgood.
  { apply good_snoc; [by apply good_refl|]. simpl. listed_here. }
  destruct r as [tbuf|err]; cbn [wrap_err]; [|done]. unfold unmarshal.
  destruct (unmarshal_tree tbuf) as [tree|] eqn:Et; [apply logs_ret|by apply logs_fail].
  apply logs_bind, logs_bind, logs_wrapM, logs_record. intros r.
  assert (rgood h ((h ++ [Ceph ["osd"; "tree"] (Ok tbuf)]) ++ [Ceph ["osd"; "metadata"] r])) as Hgood'.
  { apply good_snoc; [done|]. simpl. listed_here. }
  destruct r as [mbuf|err]; cbn [wrap_err]; [|done].
  destruct (json_metadata mbuf) as [metadata|] eqn:Em; [do 2 apply logs_ret|by apply logs_fail]. split; [done|].
  intros tm [= <-]. destruct (cached_past _ _ _ _ Hgood' Hc) as (Ha & Hb & _). split; [done|]. split; [done|].
  intros tree' md' [= <- <-]. exists tbuf, mbuf. split; [|done]. rewrite (assoc_L (++)).
  do 2 apply happened_snoc. apply Hc.
Qed.

Lemma validate_request_spec h ds st d value :
  guarded request_needs h -> cached h ds st -> d ∈ ds -> isWaitingForDiskSwap d = false ->
  read (dep_annotations d) ReplaceInProgressOSDAnnotationKey <> "true" ->
  dep_annotations d !! ReplaceOSDAnnotationKey = Some value ->
  logs (validate_request (W := W) c st d value) (passes ds h) h.
Proof.
  intros Hg Hc Hin Hw Hm Hv. unfold validate_request. apply logs_bind.
  apply (logs_mono _ (fun r h' => exists r', r = Ok r' /\ rgood h h' /\ cached h' ds st /\
    (forall tm, r' = Ok tm -> cached h' ds {| cache_dump := cache_dump st; cache_tree := Some tm |}))).
  { intros r h1 (r' & -> & Hgood & Hcst & Htm). destruct r' as [[tree metadata]|err]; [|apply logs_ret; by exists st].
    specialize (Htm _ eq_refl). destruct (validateReplaceOSD d value tree metadata) as [[]|] eqn:Ev.
    2:{ apply logs_ret. by eexists. }
    apply logs_bind, logs_try, logs_record. intros r. apply logs_ret. eexists. split; [done|].
    assert (rgood h (h1 ++ [UpdateDeployment (namespace c) (mark_in_progress d) r])) as Hup.
    { apply good_snoc; [done|]. split; [done|]. destruct Htm as (_ & _ & Ht).
      destruct (Ht tree metadata eq_refl) as (tbuf & mbuf & Hsub & Hj & Hk).
      exists ds, d, value, tbuf, mbuf, tree, metadata. repeat (split; [done|]).
      by apply validateReplaceOSD_spec. }
    split; [done|]. eapply (cached_past h1); [|done]. split; [by destruct Hup|]. by apply happened_later. }
  destruct (cache_tree st) as [tm|] eqn:Et.
  - apply logs_ret. eexists. split; [done|]. split; [by apply good_refl|]. split; [done|].
    intros tm' [= <-]. destruct Hc as (Ha & Hb & Ht). split; [done|]. split; [done|].
    cbn [cache_tree]. rewrite <- Et. done.
  - apply logs_try. eapply logs_mono; [|by apply read_tree_spec]. intros r h' [Hgood Hd].
    exists r. split; [done|]. split; [done|]. split; [by eapply cached_past|done].
Qed.

Lemma process_deployments_spec ds l st h :
  guarded request_needs h -> cached h ds st -> (forall d, d ∈ l -> d ∈ ds) ->
  logs (process_deployments (W := W) c st l) (fun _ h' => guarded request_needs h') h.
Proof.
  revert st h. induction l as [|d l IH]; intros st h Hg Hc Hl; cbn [process_deployments]; [by apply logs_ret|].
  assert (d ∈ ds) as Hd by (apply Hl; apply list_elem_of_here).
  apply logs_bind. apply (logs_mono _ (passes ds h)).
  { intros r h' (st' & -> & [Hg' _] & Hc'). apply IH; [done..|]. intros x Hx. apply Hl. by apply list_elem_of_further. }
  assert (passes ds h (Ok st) h) as Hsame by (exists st; split; [done|split; [by apply good_refl|done]]).
  unfold process_deployment. destruct (isWaitingForDiskSwap d) eqn:Hw; [by apply clean_up_swap_spec|].
  destruct (String.eqb_spec (read (dep_annotations d) ReplaceInProgressOSDAnnotationKey) "true"); [by apply logs_ret|].
  destruct (dep_annotations d !! ReplaceOSDAnnotationKey) as [value|] eqn:Hv; [|by apply logs_ret].
  by apply validate_request_spec.
Qed.

Lemma processOSDReplacements_guarded :
  logs (processOSDReplacements (W := W) c) (fun _ h => guarded request_needs h) [].
Proof.
  unfold processOSDReplacements, getOSDDeployments. apply logs_bind, logs_wrapM, logs_wrapM, logs_record.
  intros r. cbn [app].
  assert (guarded request_needs [ListDeployments (namespace c) osd_selector r]) as Hg
    by (apply (guarded_snoc _ []); [apply guarded_nil|done]).
  destruct r as [ds|err]; cbn [wrap_err]; [|done].
  apply (process_deployments_spec ds); [done| |done]. by split.
Qed.

End Requests.

End OsdReplaceProofs.
