(* ===== verification/OsdSafety.v ===== *)
(** * OsdSafety: the promises of the replacement of OSDs

    For every environment, what was checked before an OSD is destroyed, its deployment deleted or
    changed, or a request handed over (from file OsdReplaceProofs).  The cluster of
    one OSD at the end is the laboratory of the witnesses and examples only. *)

From stdpp Require Import base gmap strings list fin_maps.
From Stdlib Require Import ZArith Ascii.
From S2P Require Import Prelude CephVersion GoTime Topology Kube Disruption Upgrade Cephx OsdBase OsdReplace OsdReplaceProofs.
Import Log Version GoTime Kube Upgrade OsdBase OsdReplace OsdReplaceProofs.
Open Scope Z_scope.

Module OsdSafety.

(** ** Safety *)

Section Safety.
Context {W : Type} `{OsdEnv W}.

(** C4: a tick of the OSD health check destroys an OSD only if, earlier in the same tick and in this
    order, it listed a deployment that the operator had marked for the replacement of this OSD, with
    the user's request still on it and scaled to zero; Ceph's tree did not show the OSD as
    destroyed; none of its pods was running; for an encrypted OSD the job that closes its devices
    had succeeded and was deleted; Ceph said that the OSD is safe to destroy; and it was marked
    down. *)
Theorem destroy_is_safe c m e pre post id r :
  log (checkOSDHealth (W := W) c m (World e [])).1 = pre ++ Ceph (destroy_args id) r :: post ->
  destroy_ok (W := W) c pre id.
Proof.
  intros Hlog. pose proof (checkOSDHealth_guarded c _ m eq_refl e) as Hg.
  exact (Hg _ _ _ Hlog id eq_refl).
Qed.

(** C5: a tick changes a deployment only in three ways, each of a deployment that it listed as marked
    for replacement: it is scaled to zero after Ceph reported the OSD as out and said it is safe
    to destroy; it is annotated as ready for the swap of the disk when Ceph shows the OSD as
    destroyed; or, when the user withdrew the request before that, it is scaled up and loses the
    marker and the fence together, after the OSD was marked in and the job that closes its devices
    was seen to be gone. *)
Theorem update_is_safe c m e pre post ns d r :
  log (checkOSDHealth (W := W) c m (World e [])).1 = pre ++ UpdateDeployment ns d r :: post ->
  update_ok (W := W) c pre ns d.
Proof.
  intros Hlog. pose proof (checkOSDHealth_guarded c _ m eq_refl e) as Hg.
  exact (Hg _ _ _ Hlog).
Qed.

(** C6: a tick deletes the deployment of an OSD only if the removal of OSDs is enabled, Ceph reported
    the OSD as down and out and said it is safe to destroy, and the deployment is older than an
    hour; and the OSD is not one under replacement, provided that the deployments could be
    listed. *)
Theorem delete_is_safe c m e pre post ns name r :
  log (checkOSDHealth (W := W) c m (World e [])).1 = pre ++ DeleteDeployment ns name r :: post ->
  delete_ok (W := W) c (removeOSDsIfOUTAndSafeToRemove m) pre ns name.
Proof.
  intros Hlog. pose proof (checkOSDHealth_guarded c _ m eq_refl e) as Hg.
  exact (Hg _ _ _ Hlog).
Qed.

(** The reconcile hands over a request for a replacement, by setting the marker and the fence in
    one update, only for a deployment it listed without the marker, whose request names its own
    OSD, which is on a host, in Ceph's tree, and alone on its devices by Ceph's metadata; and it
    deletes a deployment that waits for the swap of its disk only if Ceph's dump, which is not
    empty, does not have its OSD.  It runs no command that changes Ceph. *)
Theorem requests_are_valid c e pre post ev :
  log (processOSDReplacements (W := W) c (World e [])).1 = pre ++ ev :: post ->
  request_needs (W := W) c pre ev.
Proof. apply processOSDReplacements_guarded. Qed.

End Safety.

(** ** A cluster with one OSD, in which the theorems are tried out *)

Record Sim := {
  s_dep : Deployment;
  s_in : bool;
  s_drained : bool;
  s_running : bool;
  s_job : option Job;
  s_destroyed : bool;
  s_metadata : list OSDMetadata;
  s_now : Z;
  (** how many listings will fail before one succeeds *)
  s_failures : nat;
}.

Definition with_dep (s : Sim) (d : Deployment) : Sim :=
  {| s_dep := d; s_in := s_in s; s_drained := s_drained s; s_running := s_running s; s_job := s_job s;
     s_destroyed := s_destroyed s; s_metadata := s_metadata s; s_now := s_now s; s_failures := s_failures s |}.

Definition with_ceph (s : Sim) (inn destroyed : bool) : Sim :=
  {| s_dep := s_dep s; s_in := inn; s_drained := s_drained s; s_running := s_running s; s_job := s_job s;
     s_destroyed := destroyed; s_metadata := s_metadata s; s_now := s_now s; s_failures := s_failures s |}.

Definition with_job (s : Sim) (j : option Job) : Sim :=
  {| s_dep := s_dep s; s_in := s_in s; s_drained := s_drained s; s_running := s_running s; s_job := j;
     s_destroyed := s_destroyed s; s_metadata := s_metadata s; s_now := s_now s; s_failures := s_failures s |}.

Definition with_failures (s : Sim) (n : nat) : Sim :=
  {| s_dep := s_dep s; s_in := s_in s; s_drained := s_drained s; s_running := s_running s; s_job := s_job s;
     s_destroyed := s_destroyed s; s_metadata := s_metadata s; s_now := s_now s; s_failures := n |}.

Section Env.
Context (osd : Z).

Definition sim_ceph (args : list string) (s : Sim) : Sim * result string :=
  match args with
  | ["osd"; "tree"] => (s, Ok (if s_destroyed s then "destroyed" else "up"))
  | ["osd"; "dump"] => (s, Ok (if s_in s then "1" else "0"))
  | ["osd"; "safe-to-destroy"; _] => (s, Ok (if s_drained s then "yes" else "no"))
  | ["osd"; "metadata"] => (s, Ok "")
  | ["osd"; "out"; _] => (with_ceph s false (s_destroyed s), Ok "")
  | ["osd"; "in"; _] => (with_ceph s true (s_destroyed s), Ok "")
  | ["osd"; "destroy"; _; _] => (with_ceph s (s_in s) true, Ok "")
  | _ => (s, Ok "")
  end.

#[export] Instance sim_osd : OsdEnv Sim := {
  osd_cmd := {|
    run_ceph := sim_ceph;
    unmarshal_versions _ := Some {| Mon := []; Mgr := []; Osd := []; Rgw := []; Mds := []; RbdMirror := [];
                                    CephFSMirror := []; Overall := [] |};
    unmarshal_tree s := Some {| Nodes := Some [{| node_id := osd; tree_name := ""; node_type := "osd"; Children := []; node_status := s |}];
                                Stray := [] |};
    unmarshal_osds _ := Some [osd];
    unmarshal_status _ := None;
    ctx_err s := (s, Ok None);
    wait_delay _ s := (s, Ok None);
    load_cluster_info s := (s, Ok (None, None));
    write_connection_config _ s := (s, Ok ()) |};
  json_dump s := Some {| OSDs := [{| OSD := Itoa osd; Up := "0"; In := s |}] |};
  json_metadata s := Some [{| osd_id := osd; HostName := "a"; Devices := "sdb" |}];
  json_safe_to_destroy s := Some (if String.eqb s "yes" then [osd] else []);
  json_ok_to_stop _ := Some [osd];
  json_device_classes _ := Some [];
  json_cephx _ := None;
  env_list_deployments _ _ s :=
    match s_failures s with
    | O => (s, Ok [s_dep s])
    | S n => (with_failures s n, Err (External "the server is busy"))
    end;
  env_get_deployment _ _ s := (s, Err (APIStatus NotFound));
  env_update_deployment _ d s := (with_dep s d, Ok d);
  env_create_deployment _ d s := (s, Ok d);
  env_delete_deployment _ _ s := (s, Ok ());
  env_list_pods _ _ s := (s, Ok (if s_running s then [{| pod_name := "osd"; Phase := "Running"; pod_node := "a" |}] else []));
  env_get_job _ _ s := (s, match s_job s with Some j => Ok j | None => Err (APIStatus NotFound) end);
  env_create_job _ j s := (with_job s (Some j), Ok j);
  env_delete_job _ _ s := (with_job s None, Ok ());
  env_get_node _ s := (s, Err (APIStatus NotFound));
  env_list_nodes _ s := (s, Ok []);
  env_now s := (s, Ok (s_now s));
  env_sleep _ s := (s, Ok ());
  env_timed_out s := (s, Ok true);
  patch_is_empty _ _ := Ok false;
  set_last_applied d := Ok d;
}.

End Env.

(** An OSD on host [a], marked for replacement. *)
Definition demo_osd (labels annotations : gmap string string) (replicas : option Z) : Deployment :=
  {| dep_namespace := "rook-ceph"; dep_name := "rook-ceph-osd-3";
     dep_labels := {[ "ceph-osd-id" := "3" ]} ∪ labels; dep_annotations := annotations;
     CreationTimestamp := 0; Replicas := replicas; ProgressDeadlineSeconds := None;
     Template := {| tpl_annotations := ∅; NodeSelector := ∅;
                    Containers := [{| container_name := "osd";
                                      Env := [{| env_name := "ROOK_NODE_NAME"; env_value := "a" |};
                                              {| env_name := "ROOK_OSD_UUID"; env_value := "u" |};
                                              {| env_name := "ROOK_BLOCK_PATH"; env_value := "/dev/sdb" |}];
                                      Args := ["--crush-location=root=default host=a"]; Command := [] |}];
                    InitContainers := [] |};
     ObservedGeneration := 1; UpdatedReplicas := 1; ReadyReplicas := 1; dep_conditions := [] |}.

Definition demo_request : gmap string string :=
  list_to_map [(ReplaceOSDAnnotationKey, "yes-really-replace-osd-3")].

Definition demo_marked : gmap string string :=
  <[ReplaceInProgressOSDAnnotationKey := "true"]> demo_request.

Definition demo_encrypted : gmap string string := {[ "encrypted" := "true" ]}.

Definition demo_cluster : OsdCluster :=
  {| namespace := "rook-ceph"; customHostnameLabel := ""; StorageConfig := None |}.

Definition demo_monitor : OSDHealthMonitor :=
  {| removeOSDsIfOUTAndSafeToRemove := true; lastRequireOSDRelease := "" |}.

Definition demo (d : Deployment) (inn running : bool) (job : option Job) (failures : nat) : Sim :=
  {| s_dep := d; s_in := inn; s_drained := negb inn; s_running := running; s_job := job; s_destroyed := false;
     s_metadata := []; s_now := 7200 * Second; s_failures := failures |}.

Definition demo_job : Job :=
  {| job_name := cryptCloseJobName 3; job_node := "a"; Active := 0; Succeeded := 1; job_conditions := [] |}.

Definition tick_log (s : Sim) : list event :=
  log (checkOSDHealth (H := sim_osd 3) demo_cluster demo_monitor (World s [])).1.

Definition position (f : event -> bool) (l : list event) : nat :=
  match list_find (fun ev => f ev = true) l with Some (n, _) => n | None => length l end.

(** *** Witnesses *)

Definition drained : Sim := demo (demo_osd demo_encrypted demo_marked (Some 0)) false false (Some demo_job) 0.

Lemma destroy_is_safe_witness : destroy_ok (H := sim_osd 3) demo_cluster (take 8 (tick_log drained)) 3.
Proof.
  apply (destroy_is_safe (H := sim_osd 3) demo_cluster demo_monitor drained (take 8 (tick_log drained))
           (drop 9 (tick_log drained)) 3 (Ok "")).
  vm_compute. reflexivity.
Defined.

Definition out : Sim := demo (demo_osd ∅ demo_marked (Some 1)) false true None 0.

Lemma update_is_safe_witness :
  update_ok (H := sim_osd 3) demo_cluster (take 4 (tick_log out)) "rook-ceph" (demo_osd ∅ demo_marked (Some 0)).
Proof.
  apply (update_is_safe (H := sim_osd 3) demo_cluster demo_monitor out (take 4 (tick_log out))
           (drop 5 (tick_log out)) "rook-ceph" (demo_osd ∅ demo_marked (Some 0)) (Ok (demo_osd ∅ demo_marked (Some 0)))).
  vm_compute. reflexivity.
Defined.

Definition failed_osd : Sim := demo (demo_osd ∅ ∅ (Some 1)) false true None 0.

Lemma delete_is_safe_witness :
  delete_ok (H := sim_osd 3) demo_cluster true (take 5 (tick_log failed_osd)) "rook-ceph" "rook-ceph-osd-3".
Proof.
  apply (delete_is_safe (H := sim_osd 3) demo_cluster demo_monitor failed_osd (take 5 (tick_log failed_osd))
           (drop 6 (tick_log failed_osd)) "rook-ceph" "rook-ceph-osd-3" (Ok ())).
  vm_compute. reflexivity.
Defined.

Definition requested : Sim := demo (demo_osd ∅ demo_request (Some 1)) true true None 0.

Definition request_log : list event :=
  log (processOSDReplacements (H := sim_osd 3) demo_cluster (World requested [])).1.

Lemma requests_are_valid_witness :
  request_needs (H := sim_osd 3) demo_cluster (take 3 request_log)
    (UpdateDeployment "rook-ceph" (mark_in_progress (demo_osd ∅ demo_request (Some 1)))
       (Ok (mark_in_progress (demo_osd ∅ demo_request (Some 1))))).
Proof.
  apply (requests_are_valid (H := sim_osd 3) demo_cluster requested (take 3 request_log) []).
  vm_compute. reflexivity.
Defined.

(** The proviso of [delete_is_safe] is needed: when the listing of the deployments fails, the set of
    OSDs under replacement is empty and the tick goes on; an OSD that is being replaced is down and
    out, and its deployment, which carries the markers of the replacement, is deleted. *)
Example replaced_osd_deleted :
  DeleteDeployment "rook-ceph" "rook-ceph-osd-3" (Ok ()) ∈
    tick_log (demo (demo_osd ∅ demo_marked (Some 0)) false false None 1) /\
  Forall (fun ev => forall ns name r, ev <> DeleteDeployment ns name r)
    (tick_log (demo (demo_osd ∅ demo_marked (Some 0)) false false None 0)).
Proof.
  split.
  - do 5 apply list_elem_of_further. apply list_elem_of_here.
  - vm_compute. repeat constructor; done.
Qed.

End OsdSafety.
