(* ===== verification/OsdRolloutProofs.v ===== *)
(** * OsdRolloutProofs: rounds of updates, creation and migration of OSDs

    Helper lemmas on the model of file OsdRollout: what a round of updates may change and what it
    asked before, how the queue shrinks, when the loop ends. *)

From stdpp Require Import base gmap strings list fin_maps.
From Stdlib Require Import ZArith Ascii.
From S2P Require Import Prelude Names CephVersion GoTime Topology Kube Disruption Upgrade Cephx OsdBase OsdSpec OsdReplace OsdRollout OsdReplaceProofs.
Import Log Version GoTime Kube Upgrade Cephx OsdBase OsdSpec OsdReplace OsdRollout OsdReplaceProofs.
Open Scope Z_scope.

Module OsdRolloutProofs.

(** ** The queue *)

Lemma existsb_elem (id : Z) l : existsb (Z.eqb id) l = true <-> id ∈ l.
Proof.
  rewrite existsb_exists. setoid_rewrite Z.eqb_eq. split.
  - intros (x & Hx & ->). by apply list_elem_of_In.
  - intros Hid. exists id. split; [by apply list_elem_of_In|done].
Qed.

Lemma existsb_not_elem (id : Z) l : existsb (Z.eqb id) l = false <-> id ∉ l.
Proof. rewrite <- existsb_elem. by destruct (existsb _ _). Qed.

Lemma remove_loop_filter (osdIDs rest : list Z) (idx : nat) (kept gap : list Z) :
  (length kept + length gap)%nat = idx ->
  remove_loop (length rest) idx (length kept) osdIDs (kept ++ gap ++ rest) =
  kept ++ filter (fun id => id ∉ osdIDs) rest.
Proof.
  revert idx kept gap. induction rest as [|x rest IH]; intros idx kept gap Hidx; cbn [remove_loop length].
  - rewrite take_app_length. by rewrite filter_nil, app_nil_r.
  - assert ((kept ++ gap ++ x :: rest) !! idx = Some x) as ->.
    { rewrite (assoc_L (++)), list_lookup_middle; [done|]. rewrite length_app. lia. }
    rewrite filter_cons. destruct (existsb (Z.eqb x) osdIDs) eqn:Ex.
    + rewrite decide_False by (apply existsb_elem in Ex; auto).
      replace (gap ++ x :: rest) with ((gap ++ [x]) ++ rest) by (by rewrite <- (assoc_L (++))).
      apply IH. rewrite length_app. cbn. lia.
    + rewrite decide_True by (by apply existsb_not_elem in Ex).
      replace (<[length kept:=x]> (kept ++ gap ++ x :: rest)) with ((kept ++ [x]) ++ drop 1 (gap ++ [x]) ++ rest).
      * replace (S (length kept)) with (length (kept ++ [x])) by (rewrite length_app; cbn; lia).
        rewrite IH; [by rewrite <- (assoc_L (++))|]. rewrite length_drop, !length_app. cbn. lia.
      * rewrite insert_app_r_alt, Nat.sub_diag, <- !(assoc_L (++)) by lia.
        by destruct gap; cbn; rewrite ?drop_0, <- ?(assoc_L (++)).
Qed.

Lemma queue_Remove_filter q osdIDs : queue_Remove q osdIDs = filter (fun id => id ∉ osdIDs) q.
Proof. exact (remove_loop_filter osdIDs q 0 [] [] eq_refl). Qed.

(** Run a program symbolically on its own calls, with a case for each answer. *)
Ltac trace :=
  repeat (first
    [ apply yields_bind | apply yields_wrapM | apply yields_try | apply yields_lift
    | apply yields_ret | apply yields_fail | apply yields_silent; intros [?|?]
    | apply yields_record; intros [?|?]; (split; [done|])
    | progress unfold unmarshal
    | case_match ]; cbn [wrap_err app]).

(** A call that is in a list of calls. *)
Ltac found := repeat first [apply list_elem_of_here | apply list_elem_of_further].

(** Rewrite with the equations of the cases. *)
Ltac rewriting := repeat match goal with E : ?a = ?b |- context [?a] => rewrite E end; eauto.

(** ** What a round of updates asks *)

Section Asked.
Context {W : Type} `{RolloutEnv W} (c : RolloutCluster).

(** The states that count as healthy. *)
Definition healthy_pgs : option (string -> bool) :=
  if String.eqb (PGHealthyRegex c) "" then Some Disruption.defaultPgHealthyRegex else compile_regexp (PGHealthyRegex c).

(** Ceph's status was read and all placement groups were healthy. *)
Definition saw_clean_pgs (l : list event) : Prop :=
  exists buf status healthy,
    Ceph ["status"] (Ok buf) ∈ l /\ json_pgs buf = Some status /\ healthy_pgs = Some healthy /\
    Disruption.isClusterClean status healthy = true.

(** OSD [id] may be stopped together with [query], the first of the queue. *)
Definition may_stop (l : list event) (query id : Z) : Prop :=
  (exists max buf ids, Ceph ["osd"; "ok-to-stop"; Itoa query; "--max=" +:+ Itoa max] (Ok buf) ∈ l /\
     json_ok_to_stop (W := W) buf = Some ids /\ id ∈ ids) \/
  (id = query /\
   (SkipUpgradeChecks c = true \/ ContinueUpgradeAfterChecksEvenIfNotHealthy c = true \/
    exists buf osds, Ceph ["osd"; "ls"] (Ok buf) ∈ l /\ unmarshal_osds (W := W) buf = Some osds /\ (length osds < 3)%nat)).

Lemma IsClusterClean_asks : yields idle (IsClusterClean (W := W) c) (fun r l => r = Ok true -> saw_clean_pgs l).
Proof.
  unfold IsClusterClean. trace; try done.
  all: intros [= Hc]; do 3 eexists; (split; [by left|]); unfold healthy_pgs; by rewriting.
Qed.

Lemma pgs_allow_update_asks :
  yields idle (pgs_allow_update (W := W) c)
    (fun r l => exists b, r = Ok b /\
       (b = true -> SkipUpgradeChecks c = true \/ UpgradeOSDRequiresHealthyPGs c = false \/ saw_clean_pgs l)).
Proof.
  unfold pgs_allow_update. destruct (SkipUpgradeChecks c), (UpgradeOSDRequiresHealthyPGs c); cbn [negb andb].
  1,2,4: apply yields_ret; eauto.
  apply yields_bind, yields_try. eapply yields_mono; [|apply IsClusterClean_asks]. intros [b|err] l _ Hb; trace.
  all: rewrite app_nil_r; eexists; (split; [done|]); naive_solver.
Qed.

Lemma osds_to_update_asks query :
  yields idle (osds_to_update (W := W) c query)
    (fun r l => exists o, r = Ok o /\ forall ids, o = Some ids -> forall id, id ∈ ids -> may_stop l query id).
Proof.
  unfold osds_to_update, OSDUpdateShouldCheckOkToStop, OsdListNum, OSDOkToStop. trace; eexists; (split; [done|]); try done.
  all: intros ids [= <-] id Hid; unfold may_stop; rewrite ?list_elem_of_singleton in Hid.
  all: solve [ right; split; [done|]; auto
             | left; do 3 eexists; split; [found|]; by split
             | right; split; [done|]; do 2 right; do 2 eexists; split; [found|]; split; [done|]; by apply Nat.ltb_lt ].
Qed.

End Asked.

(** ** What a round of updates builds *)

Section Built.
Context {W : Type} `{RolloutEnv W} (c : RolloutCluster).

Lemma read_env_id st e st' : read_env st e = Ok st' -> ID st'.1 = ID st.1.
Proof.
  destruct st as [osd isPVC]. cbn [fst].
  enough (match read_env (osd, isPVC) e with Ok st => ID st.1 = ID osd | Err _ => True end) as Hr
    by (intros E; by rewrite E in Hr).
  cbv beta iota delta [read_env]. remember (ID osd) as i eqn:Hi. symmetry in Hi.
  generalize (String.eqb (env_name e)). intros named.
  repeat match goal with
  | |- match (let x := ?v in @?b x) with Ok _ => _ | Err _ => _ end =>
      let o := fresh "o" in let Ho := fresh "Ho" in
      first [ assert (ID v = i) as Ho by (destruct (_ : bool); done)
            | pose proof I as Ho ];
      change (match b v with Ok st => ID st.1 = i | Err _ => True end);
      revert Ho; generalize v; intros o Ho; cbv beta
  end.
  match goal with |- context [if ?x then match _ with _ => _ end else _] =>
    destruct x; [destruct (ParseBool _)|]; cbn; try done end.
  all: by repeat (destruct (_ : bool); cbn).
Qed.

Lemma read_envs_id l st st' : read_envs st l = Ok st' -> ID st'.1 = ID st.1.
Proof.
  revert st. induction l as [|e l IH]; intros st; cbn [read_envs]; [by intros [= ->]|].
  destruct (read_env st e) as [st1|] eqn:E; [|done]. cbn. intros Hr. rewrite (IH _ Hr). by eapply read_env_id.
Qed.

Lemma getOSDInfo_id d w w' info : getOSDInfo (W := W) c d w = (w', Ok info) -> Disruption.GetOSDID d = Ok (ID info).
Proof.
  unfold getOSDInfo. intros Hrun. inv_run.
  match goal with E : read_envs _ _ = Ok _ |- _ => apply read_envs_id in E; cbn in E end.
  match goal with E : Disruption.GetOSDID d = _ |- _ => rewrite E end. f_equal.
  assert (ID a1 = ID o) as E1 by (clear Hrun; repeat case_match; inv_run; done).
  assert (ID a2 = ID a1) as E2 by (clear Hrun; repeat case_match; inv_run; done).
  assert (ID a3 = ID a2) as E3 by (clear Hrun; repeat case_match; inv_run; repeat case_match; done).
  transitivity (ID a3); [congruence|]. clear -Hrun. repeat case_match; inv_run; done.
Qed.

End Built.

Section Rounds.
Context {W : Type} `{RolloutEnv W} (c : RolloutCluster).

Lemma getOSDInfo_yields d :
  yields idle (getOSDInfo (W := W) c d) (fun r _ => forall info, r = Ok info -> Disruption.GetOSDID d = Ok (ID info)).
Proof.
  apply yields_result; [apply getOSDInfo_idle|]. intros w info Hr.
  destruct (getOSDInfo c d w) as [w' r] eqn:E. simpl in Hr. subst r. by eapply getOSDInfo_id.
Qed.

Lemma getNode_idle n : harmless idle (getNode (W := W) c n).
Proof. unfold getNode. idle. Qed.

Lemma getOSDPropsForNode_yields name :
  yields idle (getOSDPropsForNode (W := W) c name) (fun r _ => forall p, r = Ok p -> crushHostname p = name).
Proof.
  unfold getOSDPropsForNode, resolveNode, ResolveNode.
  destruct (List.find _ _) as [n|] eqn:Ef; cbn [fmap option_fmap option_map]; [|by apply yields_fail].
  apply yields_bind. unfold resolveDeviceClass. eapply yields_harmless.
  - apply harmless_bind; [apply harmless_wrapM, getNode_idle|]. idle.
  - intros [class|err] l _; [|done]. apply yields_ret. intros p [= <-].
    apply find_some in Ef as [_ Ef%String.eqb_eq]. done.
Qed.

Lemma getOSDPropsForPVC_idle name : harmless idle (getOSDPropsForPVC (W := W) c name).
Proof. unfold getOSDPropsForPVC. idle. Qed.

(** A deployment that is built was recorded, for the OSD that is returned, which has the same ID. *)
Lemma deploymentOn_yields (props : MW W osdProperties) (P : osdProperties -> Prop) long osd :
  yields idle props (fun r _ => forall p, r = Ok p -> P p) ->
  yields idle (deploymentOn (W := W) c props long osd)
    (fun r l => exists osd' b, r = Ok (osd', b) /\ forall d, b = Ok d ->
       ID osd' = ID osd /\ exists p, P p /\ Build (pvc p) (crushHostname p) osd' (Ok d) ∈ l).
Proof.
  intros Hp. unfold deploymentOn. apply yields_bind, yields_try. eapply yields_mono; [|exact Hp].
  intros [p|err] lp _ Hprops; [|apply yields_ret; by do 2 eexists].
  assert (ID (update_class c p osd) = ID osd) as Hid by (unfold update_class; repeat case_match; done).
  unfold makeDeployment, setOSDProperties, SetPrimaryAffinity. trace; do 2 eexists; (split; [done|]); try done.
  all: intros d' [= <-]; (split; [done|]); exists p; (split; [by apply Hprops|]).
  all: apply elem_of_app; right; rewrite ?app_nil_r; found.
Qed.

Lemma deploymentOnNode_yields osd name :
  yields idle (deploymentOnNode (W := W) c osd name)
    (fun r l => exists osd' b, r = Ok (osd', b) /\ forall d, b = Ok d ->
       ID osd' = ID osd /\ exists claim, Build claim name osd' (Ok d) ∈ l).
Proof.
  eapply yields_mono; [|apply deploymentOn_yields, getOSDPropsForNode_yields].
  intros r l _ (osd' & b & -> & Hr). exists osd', b. split; [done|]. intros d E.
  destruct (Hr d E) as (Hid & p & <- & Hb). eauto.
Qed.

Lemma deploymentOnPVC_yields osd name :
  yields idle (deploymentOnPVC (W := W) c osd name)
    (fun r l => exists osd' b, r = Ok (osd', b) /\ forall d, b = Ok d ->
       ID osd' = ID osd /\ exists claim host, Build claim host osd' (Ok d) ∈ l).
Proof.
  eapply yields_mono; [|apply (deploymentOn_yields _ (fun _ => True))].
  - intros r l _ (osd' & b & -> & Hr). exists osd', b. split; [done|]. intros d E.
    destruct (Hr d E) as (Hid & p & _ & Hb). eauto.
  - apply yields_harmless; [apply getOSDPropsForPVC_idle|done].
Qed.

Lemma AuthRotate_idle v j name t : harmless idle (AuthRotate (W := W) v j name t).
Proof. unfold AuthRotate. idle. Qed.

Lemma rotateCephxKey_yields osd : yields idle (rotateCephxKey (W := W) c osd) (fun r _ => exists x, r = Ok x).
Proof.
  unfold rotateCephxKey. destruct (ShouldRotateCephxKeys _ _ _ _ _ _ _) as [[]|err]; cbn [negb];
    [|apply yields_ret; eauto..].
  apply yields_bind, yields_try. eapply yields_harmless; [apply AuthRotate_idle|]. intros [x|err] l _; [|apply yields_ret; eauto].
  destruct (Encrypted osd); [|apply yields_ret; eauto].
  apply yields_bind, yields_try. eapply yields_harmless; [apply AuthRotate_idle|]. intros [y|err] l' _; apply yields_ret; eauto.
Qed.

(** OSD [id], one of the queue or [query], was found, may be updated, and [d] was built for it. *)
Definition built (u : updateConfig) (query id : Z) (l : list event) (d : Deployment) : Prop :=
  (id = query \/ id ∈ queue u) /\ id ∈ up_deployments u /\ Itoa id ∉ osdsToSkipReconcile u /\
  exists dep claim host osd,
    GetDeployment (namespace c) (deploymentName id) (Ok dep) ∈ l /\ Disruption.GetOSDID dep = Ok (ID osd) /\
    Build claim host osd (Ok d) ∈ l /\
    (osdIsOnPVC dep = false -> NodeExists (ValidStorage c) host = true).

Lemma built_sub u query id l l' d : l ⊆ l' -> built u query id l d -> built u query id l' d.
Proof.
  intros Hl (Hq & He & Hs & dep & claim & host & osd & Hg & Hid & Hb & Hn). repeat (split; [done|]).
  exists dep, claim, host, osd. auto.
Qed.

(** Rebuilding appends at most the deployment of this OSD. *)
Lemma rebuild_osd_yields r id dep name osd :
  yields idle (rebuild_osd (W := W) c r id dep name osd)
    (fun res l => exists r', res = Ok r' /\
       (updatedDeployments r' = updatedDeployments r \/
        exists d claim host osd', updatedDeployments r' = updatedDeployments r ++ [d] /\ ID osd' = ID osd /\
          Build claim host osd' (Ok d) ∈ l /\ (osdIsOnPVC dep = false -> NodeExists (ValidStorage c) host = true))).
Proof.
  unfold rebuild_osd. apply yields_bind. eapply yields_mono; [|apply rotateCephxKey_yields].
  intros r0 l0 _ [[status e] ->]. cbv zeta.
  set (r1 := match e with Some _ => _ | None => r end).
  assert (updatedDeployments r1 = updatedDeployments r) as Hr1 by (by destruct e).
  set (osd1 := if MultiClusterService c then _ else _).
  assert (ID osd1 = ID osd) as Hid by (unfold osd1; by case_match).
  assert (forall l1 (m : MW W (OSDInfo * result Deployment)),
    yields idle m (fun res l => exists osd' b, res = Ok (osd', b) /\ forall d, b = Ok d ->
       ID osd' = ID osd1 /\ exists claim host, Build claim host osd' (Ok d) ∈ l /\
                            (osdIsOnPVC dep = false -> NodeExists (ValidStorage c) host = true)) ->
    yields idle (built ← m; (let '(osdInfo, updatedDep) := built in
       _ ← update_condition ("Processing OSD " +:+ Itoa id +:+ " on " +:+ name);
       match updatedDep with
       | Err _ => mret (round_error (round_desire r1 id osdInfo) "failed to update OSD %d" [Itoa id])
       | Ok d => mret (round_update (round_desire r1 id osdInfo) id d)
       end))
      (fun res l => exists r', res = Ok r' /\
         (updatedDeployments r' = updatedDeployments r \/
          exists d claim host osd', updatedDeployments r' = updatedDeployments r ++ [d] /\ ID osd' = ID osd /\
            Build claim host osd' (Ok d) ∈ l1 ++ l /\ (osdIsOnPVC dep = false -> NodeExists (ValidStorage c) host = true))))
    as Hfin.
  { intros l1 m Hm. apply yields_bind. eapply yields_mono; [|exact Hm]. intros r2 l2 _ (osd' & b & -> & Hb).
    unfold update_condition. trace; eexists; (split; [done|]); [right|by left|right|by left].
    all: destruct (Hb _ eq_refl) as (Hid' & claim & host & Hbuild & Hn); eexists _, claim, host, osd'; rewrite Hid', Hid.
    all: repeat split; [cbn; by rewrite Hr1|rewrite ?elem_of_app; auto|done]. }
  destruct (osdIsOnPVC dep) eqn:Hpvc; [|destruct (NodeExists (ValidStorage c) name) eqn:Hn; cbn [negb]].
  - apply Hfin. eapply yields_mono; [|apply deploymentOnPVC_yields]. intros r2 l2 _ (osd' & b & -> & Hb).
    exists osd', b. split; [done|]. intros d Hd. destruct (Hb d Hd) as (Hid' & claim & host & Hbuild). split; [done|].
    by exists claim, host.
  - apply Hfin. eapply yields_mono; [|apply deploymentOnNode_yields]. intros r2 l2 _ (osd' & b & -> & Hb).
    exists osd', b. split; [done|]. intros d Hd. destruct (Hb d Hd) as (Hid' & claim & Hbuild). split; [done|].
    by exists claim, name.
  - apply yields_ret. eexists. split; [done|]. by left.
Qed.

End Rounds.

Section Round.
Context {W : Type} `{RolloutEnv W} (c : RolloutCluster).

(** The operator panicked: Ceph answered with an empty list when it was asked for the device class of an OSD. *)
Definition panicked {A} (res : result A) (l : list event) : Prop :=
  res = Err index_panic /\
  exists id buf, Ceph ["osd"; "crush"; "get-device-class"; Itoa id] (Ok buf) ∈ l /\ json_device_classes (W := W) buf = Some [].

Lemma panicked_later {A B} (l l' : list event) err : panicked (A := A) (Err err) l -> l ⊆ l' -> panicked (A := B) (Err err) l'.
Proof. intros ([= ->] & id & buf & Hin & Hb) Hl. split; [done|]. exists id, buf. set_solver. Qed.

Lemma fill_device_class_yields id osd :
  yields idle (fill_device_class (W := W) id osd)
    (fun r l => (forall osd', r = Ok osd' -> ID osd' = ID osd) /\ ((exists osd', r = Ok osd') \/ panicked r l)).
Proof.
  unfold fill_device_class, OSDDeviceClasses. trace; (split; [try (by intros osd' [= <-])|try (left; by eexists)]).
  right. split; [done|]. exists id. eexists. split; [apply list_elem_of_here|done].
Qed.

(** What one OSD of a round, or several, adds to the deployments. *)
Definition adds (u : updateConfig) (query : Z) (ids : list Z) (r : Round) (res : result Round) (l : list event) : Prop :=
  (forall r', res = Ok r' -> exists ds, updatedDeployments r' = updatedDeployments r ++ ds /\
     Forall (fun d => exists id, id ∈ ids /\ built c u query id l d) ds) /\
  ((exists r', res = Ok r') \/ panicked res l).

Lemma adds_nothing u query ids (r r' : Round) l :
  updatedDeployments r' = updatedDeployments r -> adds u query ids r (Ok r') l.
Proof. intros Hr. split; [|left; eauto]. intros ? [= <-]. exists []. by rewrite app_nil_r. Qed.

Lemma adds_one u query id r d r' l :
  updatedDeployments r' = updatedDeployments r ++ [d] -> built c u query id l d -> adds u query [id] r (Ok r') l.
Proof.
  intros Hr Hb. split; [|left; eauto]. intros ? [= <-]. exists [d]. split; [done|]. constructor; [|done].
  exists id. split; [by left|done].
Qed.

Lemma update_osd_yields u query r id : yields idle (update_osd (W := W) c u query r id) (adds u query [id] r).
Proof.
  unfold update_osd. destruct (existence_Exists (up_deployments u) id) eqn:Ee; cbn [negb];
    [|by apply yields_ret, adds_nothing].
  destruct (negb (id =? query) && negb (queue_Exists (queue u) id)) eqn:Eq; [by apply yields_ret, adds_nothing|].
  assert (id = query \/ id ∈ queue u) as Hq.
  { apply andb_false_iff in Eq as [Eq|Eq]; apply negb_false_iff in Eq.
    - left. by apply Z.eqb_eq.
    - right. by apply existsb_elem. }
  apply bool_decide_eq_true in Ee.
  apply yields_bind, yields_try, yields_record. intros [dep|err]; (split; [done|]); [|by apply yields_ret, adds_nothing].
  apply yields_bind, yields_try. eapply yields_mono; [|apply getOSDInfo_yields].
  intros [osd|err] l1 _ Hid; [|by apply yields_ret, adds_nothing]. specialize (Hid _ eq_refl).
  case_bool_decide as Hskip; [by apply yields_ret, adds_nothing|].
  apply yields_bind. eapply yields_mono; [|apply fill_device_class_yields].
  intros [osd1|err] l2 _ [Hid1 Hno].
  2:{ split; [done|]. right. destruct Hno as [[? ?]|Hno]; [done|]. eapply panicked_later; [exact Hno|set_solver]. }
  specialize (Hid1 _ eq_refl). destruct (getNodeOrPVCName _ dep) as [name|]; [|by apply yields_ret, adds_nothing].
  eapply yields_mono; [|apply rebuild_osd_yields].
  intros res l3 _ (r' & -> & [Hr|(d & claim & host & osd' & Hr & Hid' & Hb & Hn)]); [by apply adds_nothing|].
  apply (adds_one _ _ _ _ d); [done|]. repeat (split; [done|]). exists dep, claim, host, osd'.
  split; [by left|]. split; [by rewrite Hid', Hid1|]. split; [|done]. rewrite !elem_of_app. auto.
Qed.

Lemma update_osds_yields u query ids r : yields idle (update_osds (W := W) c u query r ids) (adds u query ids r).
Proof.
  revert r. induction ids as [|id ids IH]; intros r; cbn [update_osds]; [by apply yields_ret, adds_nothing|].
  apply yields_bind. eapply yields_mono; [|apply update_osd_yields]. intros [r1|err] l1 _ [Hr1 Hno1].
  2:{ split; [done|]. right. destruct Hno1 as [[? ?]|Hno1]; [done|]. by eapply panicked_later. }
  destruct (Hr1 _ eq_refl) as (ds1 & E1 & Hds1).
  eapply yields_mono; [|apply IH]. intros res l2 _ [Hr2 Hno2]. split.
  2:{ destruct Hno2 as [Hno2|Hno2]; [by left|right]. destruct res as [?|err]; [by destruct Hno2|].
      eapply panicked_later; [exact Hno2|set_solver]. }
  intros r' ->. destruct (Hr2 _ eq_refl) as (ds2 & E2 & Hds2). exists (ds1 ++ ds2). rewrite E2, E1, (assoc_L (++)).
  split; [done|]. apply Forall_app. split; eapply Forall_impl; [exact Hds1| |exact Hds2|].
  - intros d (i & ->%list_elem_of_singleton & Hb). exists id. split; [by left|]. eapply built_sub; [|exact Hb]. set_solver.
  - intros d (i & Hi & Hb). exists i. split; [by right|]. eapply built_sub; [|exact Hb]. set_solver.
Qed.

End Round.

(** ** The updates of a round *)

Section Updates.
Context {W : Type} `{RolloutEnv W} (c : RolloutCluster).

(** An update of one of the deployments, or a call that changes none. *)
Definition update_of (deps : list Deployment) (ev : event) : Prop :=
  idle ev \/ exists d d' r, d ∈ deps /\ set_last_applied (W := W) d = Ok d' /\ ev = UpdateDeployment (dep_namespace d) d' r.

(** Waiting answers, when the clock does. *)
Definition clock_answers : Prop := forall e, is_ok (env_timed_out (W := W) e).2 = true.

Lemma update_one_yields deps d u :
  d ∈ deps -> yields (update_of deps) (update_one (W := W) u d) (fun r _ => exists x, r = Ok x).
Proof.
  intros Hd. unfold update_one, updateDeployment. apply yields_bind, yields_try. apply (yields_mono _ _ (fun _ _ => True)).
  { intros r l _ _. destruct r as [[old [new|]]|err]; apply yields_ret; eauto. }
  apply yields_bind, yields_wrapM, yields_record. intros [old|err]; (split; [left; exact I|]); [|done]. cbn [wrap_err].
  destruct (match patch_is_empty old d with Ok e => negb e | Err _ => true end); [|by apply yields_ret].
  apply yields_bind, yields_wrapM, yields_lift. destruct (set_last_applied d) as [d'|err] eqn:Es; cbn [wrap_err]; [|done].
  apply yields_bind, yields_wrapM, yields_record. intros r. split; [|by destruct r; cbn [wrap_err]; [apply yields_ret|]].
  right. exists d, d', r. done.
Qed.

Lemma update_all_yields deps l u :
  l ⊆ deps -> yields (update_of deps) (update_all (W := W) u l) (fun r _ => exists x, r = Ok x).
Proof.
  revert u. induction l as [|d l IH]; intros u Hl; cbn [update_all]; [apply yields_ret; eauto|].
  apply yields_bind. eapply yields_mono; [|apply update_one_yields; set_solver]. intros r l' _ [x ->]. apply IH. set_solver.
Qed.

Lemma wait_func_yields (listFunc : MW W (list Deployment)) w :
  harmless idle listFunc -> yields idle (wait_func listFunc w) (fun r _ => exists x, r = Ok x).
Proof.
  intros Hl. unfold wait_func. apply yields_bind, yields_try. eapply yields_harmless; [exact Hl|].
  intros [ds|err] l _; [|destruct (IsCanceled err)]; apply yields_ret; eauto.
Qed.

Lemma retry_rounds_yields {S} n (f : S -> MW W (S * bool * option gerror)) s :
  (forall s, yields idle (f s) (fun r _ => exists x, r = Ok x)) ->
  yields idle (retry_rounds n f s) (fun r _ => clock_answers -> exists x, r = Ok x).
Proof.
  intros Hf. revert s. induction n as [|n IH]; intros s; cbn [retry_rounds].
  - apply yields_bind. eapply yields_mono; [|apply Hf]. intros r l _ [[[s' done] err] ->]. apply yields_ret. eauto.
  - apply yields_bind. eapply yields_mono; [|apply Hf]. intros r l _ [[[s' done] err] ->].
    destruct done; [apply yields_ret; eauto|]. apply yields_bind.
    intros h e. unfold timed_out, silent. simpl. destruct (env_timed_out e) as [e' r'] eqn:Et. exists [].
    rewrite app_nil_r. split; [done|]. split; [done|]. destruct r' as [[]|err']; simpl.
    + apply yields_bind. eapply yields_mono; [|apply Hf]. intros r l' _ [[[s'' done] err'] ->]. apply yields_ret. eauto.
    + eapply yields_mono; [|apply IH]. done.
    + intros Hc. specialize (Hc e). rewrite Et in Hc. done.
Qed.

Lemma UpdateMultipleDeploymentsAndWait_yields deps listFunc :
  harmless idle listFunc ->
  yields (update_of deps) (UpdateMultipleDeploymentsAndWait (W := W) deps listFunc)
    (fun r _ => clock_answers -> exists x, r = Ok x).
Proof.
  intros Hl. unfold UpdateMultipleDeploymentsAndWait, UpdateMultipleDeployments. apply yields_bind.
  eapply yields_mono; [|apply update_all_yields; set_solver]. intros r l _ [u ->]. apply yields_bind.
  unfold WaitForDeploymentsToUpdate, RetryWithTimeout. case_bool_decide; [apply yields_ret, yields_ret; eauto|].
  eapply yields_impl; [by left|]. apply yields_bind. eapply yields_mono; [|apply retry_rounds_yields].
  - intros [[[waitingOn failures] err]|err] l1 _ Hr; [apply yields_ret, yields_ret; eauto|]. intros Hc. by destruct (Hr Hc).
  - intros w. by apply wait_func_yields.
Qed.

End Updates.

(** ** A round of updates *)

Lemma app_assoc4 {A} (a b d e : list A) : a ++ b ++ d ++ e = (a ++ b ++ d) ++ e.
Proof. by rewrite <- !(assoc_L (++)). Qed.

Section OneRound.
Context {W : Type} `{RolloutEnv W} (c : RolloutCluster).

(** What must have happened in a round before a call. *)
Definition update_needs (u : updateConfig) (h : list event) (ev : event) : Prop :=
  match ev with
  | UpdateDeployment ns d' _ =>
      exists query id d,
        head (queue u) = Some query /\ set_last_applied (W := W) d = Ok d' /\ ns = dep_namespace d /\
        built c u query id h d /\ may_stop (W := W) c h query id /\
        (SkipUpgradeChecks c = true \/ UpgradeOSDRequiresHealthyPGs c = false \/ saw_clean_pgs (W := W) c h)
  | _ => idle ev
  end.

(** How a round changes the queue: not at all; the first OSD waits for another round; or the OSDs
    [ids] of the round leave it, and with them every OSD that was updated. *)
Definition round_queue (u : updateConfig) (l : list event) (q' : list Z) : Prop :=
  (q' = queue u /\ Forall idle l) \/
  exists query q, queue u = query :: q /\
    ((q' = q ++ [query] /\ Forall idle l) \/
     exists ids : list Z, q' = filter (fun id => id ∉ ids) q /\
       forall ns d' r, UpdateDeployment ns d' r ∈ l ->
         exists id d, id ∈ ids /\ set_last_applied (W := W) d = Ok d' /\ built c u query id l d).

Lemma may_stop_sub h h' query id : h ⊆ h' -> may_stop (W := W) c h query id -> may_stop (W := W) c h' query id.
Proof. unfold may_stop. intros Hh. naive_solver. Qed.

Lemma saw_clean_sub h h' : h ⊆ h' -> saw_clean_pgs (W := W) c h -> saw_clean_pgs (W := W) c h'.
Proof. unfold saw_clean_pgs. intros Hh. naive_solver. Qed.

Lemma idle_update_needs u l h : Forall idle l -> guarded_from (update_needs u) h l.
Proof.
  intros Hl. apply guarded_from_all. eapply Forall_impl; [exact Hl|]. intros ev Hev pre. by destruct ev.
Qed.

Lemma built_queue u query q id h d :
  queue u = query :: q -> built c (with_queue u q) query id h d -> built c u query id h d.
Proof.
  intros Hq (Hi & He & Hs & Hr). split; [|done]. rewrite Hq. right. destruct Hi as [->|Hi]; [by left|by right].
Qed.

(** The deployments of a round, before they are updated. *)
Definition round_deps (u : updateConfig) (query : Z) (ids : list Z) (h : list event) (ds : list Deployment) : Prop :=
  Forall (fun d => exists id, id ∈ ids /\ may_stop (W := W) c h query id /\ built c u query id h d) ds.

Lemma round_guarded u query ids h ds l :
  Forall idle h -> head (queue u) = Some query -> round_deps u query ids h ds ->
  (SkipUpgradeChecks c = true \/ UpgradeOSDRequiresHealthyPGs c = false \/ saw_clean_pgs (W := W) c h) ->
  Forall (update_of (W := W) ds) l -> guarded_from (update_needs u) [] (h ++ l).
Proof.
  intros Hh Hq Hds Hpgs Hl. apply guarded_from_app; [by apply idle_update_needs|].
  intros pre ev post ->. apply Forall_app in Hl as [_ [Hev _]%Forall_cons].
  destruct Hev as [Hev|(d & d' & r & Hd' & Hs & ->)]; [by destruct ev|].
  unfold round_deps in Hds. rewrite Forall_forall in Hds. destruct (Hds d Hd') as (id & Hid & Hms & Hb).
  exists query, id, d. repeat (split; [done|]). rewrite app_nil_l.
  split; [eapply built_sub; [|exact Hb]; set_solver|]. split; [eapply may_stop_sub; [|exact Hms]; set_solver|].
  destruct Hpgs as [?|[?|Hpgs]]; auto. do 2 right. eapply saw_clean_sub; [|exact Hpgs]. set_solver.
Qed.

Lemma round_updates u query ids h ds l ns d' r :
  Forall idle h -> round_deps u query ids h ds -> Forall (update_of (W := W) ds) l ->
  UpdateDeployment ns d' r ∈ h ++ l ->
  exists id d, id ∈ ids /\ set_last_applied (W := W) d = Ok d' /\ built c u query id (h ++ l) d.
Proof.
  unfold round_deps. rewrite !Forall_forall. intros Hh Hds Hl [Hin|Hin]%elem_of_app; [by apply Hh in Hin|].
  apply Hl in Hin as [[]|(d & d'' & r' & Hd' & Hs & [= -> <- <-])]. destruct (Hds d Hd') as (id & Hid & _ & Hb).
  exists id, d. split; [done|]. split; [done|]. eapply built_sub; [|exact Hb]. set_solver.
Qed.

Lemma update_deps_yields ds ids :
  yields (fun _ => True)
    (match ds with
     | [] => mret []
     | d :: ds => UpdateMultipleDeploymentsAndWait (W := W) (d :: ds) (getFuncToListDeploymentsWithIDs c ids)
     end)
    (fun r l => Forall (update_of (W := W) ds) l /\ (clock_answers (W := W) -> exists x, r = Ok x)).
Proof.
  destruct ds as [|d ds]; [apply yields_ret; eauto|].
  apply (yields_weaken (update_of (d :: ds))); [done|]. apply UpdateMultipleDeploymentsAndWait_yields.
  unfold getFuncToListDeploymentsWithIDs. destruct ids; [apply harmless_ret|by apply harmless_record].
Qed.

Lemma updateExistingOSDs_yields u errs :
  yields (fun _ => True) (updateExistingOSDs (W := W) c u errs)
    (fun res l => guarded_from (update_needs u) [] l /\
       (forall u' errs', res = Ok (u', errs') ->
          round_queue u l (queue u') /\ up_deployments u' = up_deployments u /\
          osdsToSkipReconcile u' = osdsToSkipReconcile u /\ numUpdatesNeeded u' = numUpdatesNeeded u) /\
       (clock_answers (W := W) -> (exists x, res = Ok x) \/ panicked (W := W) res l)).
Proof.
  unfold updateExistingOSDs. destruct (doneUpdating u) eqn:Hd.
  { apply yields_ret. split; [apply guarded_from_nil|]. split; [|eauto]. intros u' errs' [= <- <-]. split; [by left|done]. }
  apply yields_bind. eapply yields_mono; [|apply (yields_weaken idle); [done|apply pgs_allow_update_asks]].
  intros r1 l1 _ (Hi1 & allowed & -> & Hpgs). destruct allowed; cbn [negb].
  2:{ apply yields_ret. rewrite app_nil_r. split; [by apply idle_update_needs|]. split; [|eauto].
      intros u' errs' [= <- <-]. split; [by left|done]. }
  specialize (Hpgs eq_refl). unfold doneUpdating, queue_Len in Hd. destruct (queue u) as [|query q] eqn:Hq; [done|].
  cbn [queue_Pop]. apply yields_bind.
  eapply yields_mono; [|apply (yields_weaken idle); [done|apply osds_to_update_asks]].
  intros r2 l2 _ (Hi2 & o & -> & Hstop). assert (Forall idle (l1 ++ l2)) as Hi12 by (by apply Forall_app).
  destruct o as [ids|].
  2:{ apply yields_ret. rewrite app_nil_r. split; [by apply idle_update_needs|]. split; [|eauto].
      intros u' errs' [= <- <-]. split; [|done]. right. exists query, q. split; [done|]. by left. }
  specialize (Hstop ids eq_refl). apply yields_bind.
  eapply yields_mono; [|apply (yields_weaken idle); [done|apply update_osds_yields]].
  intros r3 l3 _ (Hi3 & Hadds & Hno). assert (Forall idle (l1 ++ l2 ++ l3)) as Hi123 by (by rewrite !Forall_app).
  destruct r3 as [rd|err].
  2:{ split; [by apply idle_update_needs|]. split; [done|]. intros _. right. destruct Hno as [[? ?]|Hno]; [done|].
      eapply panicked_later; [exact Hno|set_solver]. }
  destruct (Hadds _ eq_refl) as (ds & Hds & Hbuilt). cbn [updatedDeployments app] in Hds.
  assert (round_deps u query ids (l1 ++ l2 ++ l3) ds) as Hall.
  { eapply Forall_impl; [exact Hbuilt|]. intros d (id & Hid & Hb). exists id. split; [done|]. split.
    - eapply may_stop_sub; [|by apply Hstop]. set_solver.
    - eapply built_queue; [done|]. eapply built_sub; [|exact Hb]. set_solver. }
  assert (forall l4, Forall (update_of (W := W) ds) l4 -> guarded_from (update_needs u) [] (l1 ++ l2 ++ l3 ++ l4)) as Hg.
  { intros l4 Hl4. rewrite app_assoc4. eapply round_guarded; [done|by rewrite Hq|done| |done].
    destruct Hpgs as [?|[?|Hpgs]]; auto. do 2 right. eapply saw_clean_sub; [|exact Hpgs]. set_solver. }
  apply yields_bind. rewrite Hds.
  eapply yields_mono; [|apply update_deps_yields]. intros [fs|err] l4 _ [Hl4 Hclock].
  2:{ split; [by apply Hg|]. split; [done|]. intros Hc. by destruct (Hclock Hc). }
  apply yields_ret. rewrite app_nil_r. split; [by apply Hg|]. split; [|eauto]. intros u' errs' [= <- <-]. split; [|done]. right. exists query, q. split; [done|]. right. exists ids. cbn [queue with_desired with_queue].
  rewrite queue_Remove_filter. split; [done|]. intros ns d' r. rewrite (app_assoc4 l1 l2 l3 l4).
  by eapply round_updates.
Qed.

End OneRound.

(** ** Creation *)

Section Creation.
Context {W : Type} `{RolloutEnv W} (c : RolloutCluster).

(** A deployment is created only after it was built for OSD [id]. *)
Definition built_for (id : Z) (h : list event) (ev : event) : Prop :=
  match ev with
  | CreateDeployment ns d' _ =>
      exists claim host osd d, Build claim host osd (Ok d) ∈ h /\ ID osd = id /\ set_last_applied (W := W) d = Ok d' /\
        ns = dep_namespace d'
  | DeleteDeployment _ _ _ => False
  | _ => True
  end.

Lemma idle_built_for id h l : Forall idle l -> guarded_from (built_for id) h l.
Proof.
  intros Hl. apply guarded_from_all. eapply Forall_impl; [exact Hl|]. intros ev Hev pre. by destruct ev.
Qed.

(** What the construction of a deployment promises to those who create it. *)
Definition builds (build : OSDInfo -> MW W (OSDInfo * result Deployment)) : Prop :=
  forall o, yields idle (build o) (fun r l => exists osd' b, r = Ok (osd', b) /\ forall d, b = Ok d ->
              ID osd' = ID o /\ exists claim host, Build claim host osd' (Ok d) ∈ l).

Lemma CreateDeployment_built id h l d claim host osd :
  Build claim host osd (Ok d) ∈ l -> ID osd = id ->
  yields (fun _ => True) (CreateDeployment_ (W := W) d) (fun _ l' => guarded_from (built_for id) (h ++ l) l').
Proof.
  intros Hb Hid. unfold CreateDeployment_. apply yields_bind, yields_wrapM, yields_lift.
  destruct (set_last_applied d) as [d'|err] eqn:Es; cbn [wrap_err]; [|apply guarded_from_nil].
  apply yields_record. intros r. split; [done|]. intros [|? pre] ev post E; [|by destruct pre].
  injection E as <- _. exists claim, host, osd, d. rewrite app_nil_r. split; [set_solver|done].
Qed.

Lemma CreateOrUpdate_built id h l d claim host osd :
  Build claim host osd (Ok d) ∈ l -> ID osd = id ->
  yields (fun _ => True) (CreateOrUpdateDeployment (W := W) d) (fun _ l' => guarded_from (built_for id) (h ++ l) l').
Proof.
  intros Hb Hid. unfold CreateOrUpdateDeployment. apply yields_bind, yields_try.
  eapply yields_mono; [|by eapply CreateDeployment_built]. intros [d'|err] l' _ Hg; [apply yields_ret; by rewrite app_nil_r|].
  apply yields_wrapM. destruct (IsAlreadyExists err); [|apply yields_fail; by rewrite app_nil_r].
  apply yields_record. intros r. split; [done|]. apply guarded_from_app; [done|]. by apply guarded_from_all; repeat constructor.
Qed.

Lemma createDaemonOn_built build osd place h :
  builds build ->
  yields (fun _ => True) (createDaemonOn (W := W) c build osd place) (fun _ l => guarded_from (built_for (ID osd)) h l).
Proof.
  intros Hbuild. unfold createDaemonOn. apply yields_bind.
  eapply yields_mono; [|apply (yields_weaken idle); [done|apply Hbuild]]. intros r l1 _ (Hi1 & osd1 & b & -> & Hb).
  apply yields_bind, yields_lift. destruct b as [d|err]; rewrite ?app_nil_r; [|by apply idle_built_for].
  destruct (Hb d eq_refl) as (Hid1 & claim & host & Hb1). apply yields_bind. unfold update_condition at 1.
  apply yields_bind, yields_try, yields_silent. intros _. apply yields_ret. rewrite ?app_nil_r. cbn [app].
  apply yields_bind, yields_wrapM. eapply yields_mono; [|by eapply (CreateDeployment_built (ID osd) h l1)].
  intros r2 l2 _ Hg2.
  assert (guarded_from (built_for (ID osd)) h (l1 ++ l2)) as Hg12 by (by apply guarded_from_app; [apply idle_built_for|]).
  destruct r2 as [d2|err]; cbn [wrap_err]; [|done].
  destruct (MultiClusterService c); [|apply yields_ret; by rewrite app_nil_r]. apply yields_bind.
  eapply yields_mono; [|apply (yields_weaken idle); [done|apply Hbuild]]. intros r l3 _ (Hi3 & osd3 & b3 & -> & Hb3).
  assert (guarded_from (built_for (ID osd)) h (l1 ++ l2 ++ l3)) as Hg123.
  { rewrite (assoc_L (++)). apply guarded_from_app; [done|by apply idle_built_for]. }
  apply yields_bind, yields_wrapM, yields_lift. destruct b3 as [d3|err]; cbn [wrap_err]; rewrite ?app_nil_r; [|done].
  destruct (Hb3 d3 eq_refl) as (Hid3 & claim3 & host3 & Hb3'). apply yields_bind, yields_wrapM.
  eapply yields_mono; [|eapply (CreateOrUpdate_built (ID osd) (h ++ l1 ++ l2) l3); [exact Hb3'|]].
  - intros r4 l4 _ Hg4. rewrite <- !(assoc_L (++)) in Hg4.
    assert (guarded_from (built_for (ID osd)) h (l1 ++ l2 ++ l3 ++ l4)).
    { rewrite app_assoc4. by apply guarded_from_app. }
    destruct r4; cbn [wrap_err]; [apply yields_ret; by rewrite app_nil_r|done].
  - rewrite Hid3. cbn. by rewrite Hid1.
Qed.

Lemma deploymentOnNode_builds name : builds (fun osd => deploymentOnNode c osd name).
Proof.
  intros o. eapply yields_mono; [|apply deploymentOnNode_yields]. intros r l _ (osd' & b & -> & Hb).
  exists osd', b. split; [done|]. intros d Hd. destruct (Hb d Hd) as (? & claim & ?). eauto.
Qed.

Lemma deploymentOnPVC_builds name : builds (fun osd => deploymentOnPVC c osd name).
Proof. intros o. apply deploymentOnPVC_yields. Qed.

(** A status map was listed or its change was watched. *)
Definition status_seen (h : list event) (cm : LabelledMap) : Prop :=
  (exists ms, ListConfigMaps (namespace c) statusConfigMapSelector (Ok ms) ∈ h /\ cm ∈ ms) \/
  (exists t, Select (Ok (Watched t (Some cm))) ∈ h /\ isAddOrModifyEvent t = true).

(** OSD [id] is in the results of a prepare job that is awaited and completed. *)
Definition announced (awaiting : gset string) (h : list event) (id : Z) : Prop :=
  exists cm name status osd,
    status_seen h cm /\ map_labels cm !! nodeLabelKey = Some name /\ statusConfigMapName name ∈ awaiting /\
    parseOrchestrationStatus (W := W) (map_data cm) = Some status /\
    status_Status status = OrchestrationStatusCompleted /\ osd ∈ status_OSDs status /\ ID osd = id.

(** The deployment of OSD [id] was found to be the marker of a replacement whose disk was swapped. *)
Definition marker_found (h : list event) (id : Z) : Prop :=
  exists dep, GetDeployment (namespace c) (deploymentName id) (Ok dep) ∈ h /\ isWaitingForDiskSwap dep = true.

Definition create_needs (cc : createConfig) (h : list event) (ev : event) : Prop :=
  match ev with
  | CreateDeployment ns d' r =>
      exists id, built_for id h ev /\ announced (awaitingStatusConfigMaps cc) h id /\
        (id ∉ cr_deployments cc \/
         marker_found h id /\ exists r, DeleteDeployment (namespace c) (deploymentName id) r ∈ h)
  | DeleteDeployment ns name _ =>
      exists id, ns = namespace c /\ name = deploymentName id /\ id ∈ cr_deployments cc /\
        announced (awaitingStatusConfigMaps cc) h id /\ marker_found h id
  | _ => True
  end.

Lemma status_seen_sub h h' cm : h ⊆ h' -> status_seen h cm -> status_seen h' cm.
Proof. unfold status_seen. intros Hh. naive_solver. Qed.

Lemma announced_sub awaiting h h' id : h ⊆ h' -> announced awaiting h id -> announced awaiting h' id.
Proof.
  intros Hh (cm & name & status & osd & Hs & Hr). exists cm, name, status, osd. split; [by eapply status_seen_sub|done].
Qed.

Lemma deleteOSDDeployment_yields id (needs : list event -> event -> Prop) h :
  (forall r, needs h (DeleteDeployment (namespace c) (deploymentName id) r)) ->
  (forall pre r, needs pre (GetDeployment (namespace c) (deploymentName id) r)) ->
  yields (fun _ => True) (deleteOSDDeployment (W := W) c id)
    (fun res l => guarded_from needs h l /\ exists r, DeleteDeployment (namespace c) (deploymentName id) r ∈ l).
Proof.
  intros Hdel Hget. unfold deleteOSDDeployment, DeleteDeployment_, deleteResourceAndWait.
  apply yields_bind, yields_try, yields_bind, yields_try, yields_record. intros r. split; [done|].
  assert (guarded_from needs h [DeleteDeployment (namespace c) (deploymentName id) r]) as Hg.
  { intros [|? pre] ev post E; [|by destruct pre]. injection E as <- _. rewrite app_nil_r. apply Hdel. }
  assert (forall l, Forall (fun ev => exists r, ev = GetDeployment (namespace c) (deploymentName id) r) l ->
            guarded_from needs h ([DeleteDeployment (namespace c) (deploymentName id) r] ++ l)) as Hgl.
  { intros l Hl. apply guarded_from_app; [done|]. apply guarded_from_all. eapply Forall_impl; [exact Hl|].
    intros ev (r' & ->) pre. apply Hget. }
  destruct r as [[]|err].
  - eapply yields_mono; [|eapply yields_weaken; [done|apply (yields_harmless _ _ (fun _ _ => True)); [apply wait_deleted_gets|done]]].
    intros r' l _ [Hl _]. destruct r' as [[]|err]; [|destruct (IsNotFound err)].
    all: first [apply yields_ret | apply yields_fail]; rewrite app_nil_r; (split; [by apply Hgl|]; eexists; by apply list_elem_of_here).
  - destruct (IsNotFound err); [apply yields_ret, yields_ret|apply yields_fail; case_match; [apply yields_ret|apply yields_fail]].
    all: rewrite !app_nil_r; (split; [done|eexists; by apply list_elem_of_here]).
Qed.

End Creation.

(** ** The loop *)

Section Loop.
Context {W : Type} `{RolloutEnv W} (c : RolloutCluster).

Lemma idle_create_needs cc h l : Forall idle l -> guarded_from (create_needs (W := W) c cc) h l.
Proof.
  intros Hl. apply guarded_from_all. eapply Forall_impl; [exact Hl|]. intros ev Hev pre. by destruct ev.
Qed.

Lemma ready_to_create_yields cc id h :
  announced (W := W) c (awaitingStatusConfigMaps cc) h id ->
  yields (fun _ => True) (ready_to_create (W := W) c cc id)
    (fun res l => guarded_from (create_needs (W := W) c cc) h l /\ exists x, res = Ok x /\
       (x = Ok true -> id ∉ cr_deployments cc \/
          marker_found c (h ++ l) id /\ exists r, DeleteDeployment (namespace c) (deploymentName id) r ∈ h ++ l)).
Proof.
  intros Hann. unfold ready_to_create, existence_Exists. case_bool_decide as Hin.
  2:{ apply yields_ret. split; [apply guarded_from_nil|]. eexists. split; [done|]. by left. }
  unfold replacementReadyForSwap. apply yields_bind, yields_try, yields_bind, yields_try, yields_record.
  intros r. split; [done|]. set (g := GetDeployment (namespace c) (deploymentName id) r).
  assert (guarded_from (create_needs (W := W) c cc) h [g]) as Hg by (apply idle_create_needs; by repeat constructor).
  destruct r as [dep|err].
  2:{ destruct (IsNotFound err); [apply yields_ret, yields_ret|apply yields_fail, yields_ret]; cbn [app];
        (split; [done|]); eexists; (split; [done|]); done. }
  apply yields_ret. cbn [app]. destruct (isWaitingForDiskSwap dep) eqn:Hw.
  2:{ apply yields_ret. split; [done|]. eexists. split; [done|]. done. }
  assert (marker_found c (h ++ [g]) id) as Hm.
  { exists dep. split; [|done]. apply elem_of_app. right. by apply list_elem_of_singleton. }
  apply yields_bind, yields_try. eapply yields_mono; [|apply (deleteOSDDeployment_yields c id (create_needs (W := W) c cc) (h ++ [g]))].
  - intros r l _ (Hgl & r' & Hr'). assert (guarded_from (create_needs (W := W) c cc) h ([g] ++ l)) by (by apply guarded_from_app).
    assert (marker_found c (h ++ [g] ++ l) id /\
            exists r, DeleteDeployment (namespace c) (deploymentName id) r ∈ h ++ [g] ++ l) as Hx.
    { split; [|exists r'; set_solver]. destruct Hm as (dep' & Hd & Hw'). exists dep'. split; [set_solver|done]. }
    destruct r; apply yields_ret; rewrite app_nil_r; (split; [done|]); eexists; (split; [done|]); auto.
  - intros r. exists id. do 3 (split; [done|]). split; [eapply announced_sub; [|exact Hann]; set_solver|done].
  - done.
Qed.

Lemma create_osd_yields cc onPVC name errs osd h :
  announced (W := W) c (awaitingStatusConfigMaps cc) h (ID osd) ->
  yields (fun _ => True) (create_osd (W := W) c cc onPVC name errs osd)
    (fun res l => guarded_from (create_needs (W := W) c cc) h l /\ exists x, res = Ok x).
Proof.
  intros Hann. unfold create_osd. apply yields_bind. eapply yields_mono; [|by apply ready_to_create_yields].
  intros r l _ (Hg & x & -> & Hx). destruct x as [[]|err].
  2,3: apply yields_ret; rewrite app_nil_r; eauto.
  specialize (Hx eq_refl). apply yields_bind, yields_try.
  apply (yields_mono _ _ (fun _ l' => guarded_from (built_for (W := W) (ID osd)) (h ++ l) l')).
  - intros r l' _ Hg'. assert (guarded_from (create_needs (W := W) c cc) h (l ++ l')) as Hgg.
    { apply guarded_from_app; [done|]. eapply guarded_from_impl; [|exact Hg']. intros pre ev Hev. destruct ev; try done.
      exists (ID osd). split; [done|]. split; [eapply announced_sub; [|exact Hann]; set_solver|].
      destruct Hx as [?|[(dep & Hd & Hw) (r' & Hr')]]; [by left|right]. split; [exists dep|exists r']; set_solver. }
    destruct r; apply yields_ret; rewrite app_nil_r; eauto.
  - destruct onPVC; apply (createDaemonOn_built c _ (set_info_CephxStatus (first_cephx c) osd)).
    + apply deploymentOnPVC_builds.
    + apply deploymentOnNode_builds.
Qed.

Lemma create_osds_yields cc onPVC name errs osds h :
  Forall (fun osd => announced (W := W) c (awaitingStatusConfigMaps cc) h (ID osd)) osds ->
  yields (fun _ => True) (create_osds (W := W) c cc onPVC name errs osds)
    (fun res l => guarded_from (create_needs (W := W) c cc) h l /\ exists x, res = Ok x).
Proof.
  revert errs h. induction osds as [|osd osds IH]; intros errs h Hann; cbn [create_osds].
  - apply yields_ret. split; [apply guarded_from_nil|eauto].
  - apply Forall_cons in Hann as [Ho Hann]. apply yields_bind. eapply yields_mono; [|by apply create_osd_yields].
    intros r l _ [Hg [errs' ->]]. eapply yields_mono; [|apply (IH errs' (h ++ l))].
    + intros r' l' _ [Hg' Hx]. split; [by apply guarded_from_app|done].
    + eapply Forall_impl; [exact Hann|]. intros o Ho'. eapply announced_sub; [|exact Ho']. set_solver.
Qed.

(** What one status map changes: nothing; or its name is finished, because it was awaited and not yet
    finished and its OSDs were created, or because it reports a failure. *)
Definition after_map (cc : createConfig) (cm : LabelledMap) (cc' : createConfig) : Prop :=
  cc' = cc \/
  exists name status, map_labels cm !! nodeLabelKey = Some name /\
    parseOrchestrationStatus (W := W) (map_data cm) = Some status /\ cc' = doneWithStatus cc name /\
    ((status_Status status = OrchestrationStatusCompleted /\ statusConfigMapName name ∈ awaitingStatusConfigMaps cc) \/
     status_Status status = OrchestrationStatusFailed).

Lemma deleteStatusConfigMap_yields name : yields idle (deleteStatusConfigMap (W := W) c name) (fun r _ => r = Ok ()).
Proof. unfold deleteStatusConfigMap, ClearStore. trace; done. Qed.

Lemma createNewOSDsFromStatus_yields cc cm name status errs h :
  status_seen c h cm -> map_labels cm !! nodeLabelKey = Some name ->
  parseOrchestrationStatus (W := W) (map_data cm) = Some status -> status_Status status = OrchestrationStatusCompleted ->
  yields (fun _ => True) (createNewOSDsFromStatus (W := W) c cc status name errs)
    (fun res l => guarded_from (create_needs (W := W) c cc) h l /\
                  exists cc' errs', res = Ok (cc', errs') /\ after_map cc cm cc').
Proof.
  intros Hs Hn Hp Hc. unfold createNewOSDsFromStatus.
  assert (guarded_from (create_needs (W := W) c cc) h []) as Hnil by apply guarded_from_nil.
  case_bool_decide as Ha; cbn [negb].
  2:{ apply yields_ret. split; [done|]. do 2 eexists. split; [done|]. by left. }
  case_bool_decide as Hf.
  { apply yields_ret. split; [done|]. do 2 eexists. split; [done|]. by left. }
  apply yields_bind. eapply yields_mono; [|apply (create_osds_yields _ _ _ _ _ h)].
  - intros r l _ [Hg [errs' ->]]. apply yields_ret. rewrite app_nil_r. split; [done|]. do 2 eexists. split; [done|].
    right. exists name, status. do 3 (split; [done|]). by left.
  - apply Forall_forall. intros osd Ho. by exists cm, name, status, osd.
Qed.

Lemma createOSDsForStatusMap_yields cc errs cm h :
  status_seen c h cm ->
  yields (fun _ => True) (createOSDsForStatusMap (W := W) c cc errs cm)
    (fun res l => guarded_from (create_needs (W := W) c cc) h l /\
                  exists cc' errs', res = Ok (cc', errs') /\ after_map cc cm cc').
Proof.
  intros Hs. unfold createOSDsForStatusMap.
  assert (forall errs, yields (fun _ => True) (mret (cc, errs) : MW W (createConfig * list gerror))
            (fun res l => guarded_from (create_needs (W := W) c cc) h l /\
                          exists cc' errs', res = Ok (cc', errs') /\ after_map cc cm cc')) as Hret.
  { intros errs0. apply yields_ret. split; [apply guarded_from_nil|]. do 2 eexists. split; [done|]. by left. }
  destruct (map_labels cm !! nodeLabelKey) as [name|] eqn:Hn; [|apply Hret].
  destruct (parseOrchestrationStatus (map_data cm)) as [status|] eqn:Hp; [|apply Hret].
  assert (forall l1 (cc' : createConfig) (errs' : list gerror),
    guarded_from (create_needs (W := W) c cc) h l1 -> after_map cc cm cc' ->
    yields (fun _ => True) (_ ← deleteStatusConfigMap c name; mret (cc', errs') : MW W (createConfig * list gerror))
      (fun res l => guarded_from (create_needs (W := W) c cc) h (l1 ++ l) /\
                    exists cc' errs', res = Ok (cc', errs') /\ after_map cc cm cc')) as Hfin.
  { intros l1 cc' errs' Hg Ha. apply yields_bind.
    eapply yields_mono; [|apply (yields_weaken idle); [done|apply deleteStatusConfigMap_yields]].
    intros r l2 _ [Hi ->]. apply yields_ret. rewrite app_nil_r. split; [|by eauto].
    apply guarded_from_app; [done|by apply idle_create_needs]. }
  destruct (String.eqb_spec (status_Status status) OrchestrationStatusCompleted) as [Hc|].
  - apply yields_bind. eapply yields_mono; [|by eapply createNewOSDsFromStatus_yields].
    intros r l1 _ (Hg & cc' & errs' & -> & Ha). by apply Hfin.
  - destruct (String.eqb_spec (status_Status status) OrchestrationStatusFailed) as [Hf|]; [|apply Hret].
    apply (Hfin [] (doneWithStatus cc name)); [apply guarded_from_nil|]. right. exists name, status. do 3 (split; [done|]). by right.
Qed.

(** The plan of a creation is what it awaits and which deployments exist. *)
Definition same_plan (cc cc' : createConfig) : Prop :=
  awaitingStatusConfigMaps cc' = awaitingStatusConfigMaps cc /\ cr_deployments cc' = cr_deployments cc.

Lemma after_map_plan cc cm cc' : after_map cc cm cc' -> same_plan cc cc'.
Proof. by intros [->|(name & status & _ & _ & -> & _)]. Qed.

Lemma create_needs_plan cc cc' h l :
  same_plan cc cc' -> guarded_from (create_needs (W := W) c cc') h l -> guarded_from (create_needs (W := W) c cc) h l.
Proof.
  intros [Ha Hd]. apply guarded_from_impl. intros pre ev. unfold create_needs. by rewrite Ha, Hd.
Qed.

(** The status map [name] was seen with its results awaited and completed, or with a failure. *)
Definition reported (awaiting : gset string) (h : list event) (name : string) : Prop :=
  exists cm node status, status_seen c h cm /\ map_labels cm !! nodeLabelKey = Some node /\ name = statusConfigMapName node /\
    parseOrchestrationStatus (W := W) (map_data cm) = Some status /\
    ((status_Status status = OrchestrationStatusCompleted /\ name ∈ awaiting) \/
     status_Status status = OrchestrationStatusFailed).

(** What is finished was finished before or reported since. *)
Definition finish_ok (cc : createConfig) (h : list event) (cc' : createConfig) : Prop :=
  same_plan cc cc' /\ finishedStatusConfigMaps cc ⊆ finishedStatusConfigMaps cc' /\
  forall name, name ∈ finishedStatusConfigMaps cc' ->
    name ∈ finishedStatusConfigMaps cc \/ reported (awaitingStatusConfigMaps cc) h name.

Lemma reported_sub awaiting h h' name : h ⊆ h' -> reported awaiting h name -> reported awaiting h' name.
Proof.
  intros Hh (cm & node & status & Hs & Hr). exists cm, node, status. split; [by eapply status_seen_sub|done].
Qed.

Lemma finish_refl cc h : finish_ok cc h cc.
Proof. split; [done|]. split; [done|]. by left. Qed.

Lemma finish_trans cc cc1 cc2 h h' :
  h ⊆ h' -> finish_ok cc h cc1 -> finish_ok cc1 h' cc2 -> finish_ok cc h' cc2.
Proof.
  intros Hh ([Ha Hd] & Hsub & Hf) ([Ha' Hd'] & Hsub' & Hf'). split; [split; congruence|]. split; [set_solver|].
  intros name Hn. destruct (Hf' name Hn) as [Hn1|Hr]; [|right; by rewrite <- Ha].
  destruct (Hf name Hn1) as [?|Hr]; [by left|right]. by eapply reported_sub.
Qed.

Lemma finish_map cc cm cc' h : status_seen c h cm -> after_map cc cm cc' -> finish_ok cc h cc'.
Proof.
  intros Hs [->|(node & status & Hl & Hp & -> & Hc)]; [apply finish_refl|]. split; [done|].
  cbn [doneWithStatus finishedStatusConfigMaps]. split; [set_solver|].
  intros name [->%elem_of_singleton|Hn]%elem_of_union; [|by left]. right. by exists cm, node, status.
Qed.

Lemma create_for_maps_yields maps cc errs h :
  Forall (status_seen c h) maps ->
  yields (fun _ => True) (create_for_maps (W := W) c cc errs maps)
    (fun res l => guarded_from (create_needs (W := W) c cc) h l /\
                  exists cc' errs', res = Ok (cc', errs') /\ finish_ok cc (h ++ l) cc').
Proof.
  revert cc errs h. induction maps as [|cm maps IH]; intros cc errs h Hs; cbn [create_for_maps].
  - apply yields_ret. split; [apply guarded_from_nil|]. do 2 eexists. split; [done|]. apply finish_refl.
  - apply Forall_cons in Hs as [Hcm Hs]. apply yields_bind. eapply yields_mono; [|by apply createOSDsForStatusMap_yields].
    intros r l _ (Hg & cc1 & errs1 & -> & Ha). eapply yields_mono; [|apply (IH cc1 errs1 (h ++ l))].
    + intros r' l' _ (Hg' & cc2 & errs2 & -> & Hf). split.
      * apply guarded_from_app; [done|]. eapply create_needs_plan; [by eapply after_map_plan|done].
      * exists cc2, errs2. split; [done|]. rewrite (assoc_L (++)).
        eapply (finish_trans _ cc1 _ h); [set_solver|by eapply finish_map|done].
    + eapply Forall_impl; [exact Hs|]. intros m Hm. eapply status_seen_sub; [|exact Hm]. set_solver.
Qed.

Lemma update_create_needs u cc h l : guarded_from (update_needs (W := W) c u) [] l -> guarded_from (create_needs (W := W) c cc) h l.
Proof. intros Hg pre ev post ->. specialize (Hg pre ev post eq_refl). by destruct ev. Qed.

Lemma minute_tick_idle p t : harmless idle (minute_tick (W := W) p t).
Proof. unfold minute_tick. idle. Qed.

Definition ended_progress (e : Ended) : Progress := match e with Returned p _ _ => p | OutOfFuel p => p end.

(** How the loop ends, with and without success. *)
Definition ends_ok (p : Progress) (h : list event) (e : Ended) : Prop :=
  finish_ok (creating p) h (creating (ended_progress e)) /\
  forall p', e = Returned p' false None -> doneUpdating (updating p') = true /\ doneCreating (creating p') = true.

Lemma ends_step p p1 h h' e :
  h ⊆ h' -> finish_ok (creating p) h (creating p1) -> ends_ok p1 h' e -> ends_ok p h' e.
Proof. intros Hh Hf [He Hd]. split; [by eapply finish_trans|done]. Qed.

Lemma select_loop_yields fuel p t h :
  yields (fun _ => True) (select_loop (W := W) c fuel p t)
    (fun res l => guarded_from (create_needs (W := W) c (creating p)) h l /\ forall e, res = Ok e -> ends_ok p (h ++ l) e).
Proof.
  revert p t h. induction fuel as [|fuel IH]; intros p t h; cbn [select_loop].
  all: destruct (doneUpdating (updating p) && doneCreating (creating p)) eqn:Hd.
  1,3: apply yields_ret; (split; [apply guarded_from_nil|]); intros e [= <-]; (split; [apply finish_refl|]);
    intros p' [= <-]; by apply andb_true_iff.
  { apply yields_ret. split; [apply guarded_from_nil|]. intros e [= <-]. split; [apply finish_refl|done]. }
  assert (forall p1 t1 l1, guarded_from (create_needs (W := W) c (creating p)) h l1 ->
    finish_ok (creating p) (h ++ l1) (creating p1) ->
    yields (fun _ => True) (select_loop (W := W) c fuel p1 t1)
      (fun res l => guarded_from (create_needs (W := W) c (creating p)) h (l1 ++ l) /\
                    forall e, res = Ok e -> ends_ok p (h ++ l1 ++ l) e)) as Hgo.
  { intros p1 t1 l1 Hg Hf. eapply yields_mono; [|apply (IH p1 t1 (h ++ l1))]. intros r l _ [Hg' He]. split.
    - apply guarded_from_app; [done|]. eapply create_needs_plan; [apply Hf|done].
    - intros e ->. rewrite (assoc_L (++)). eapply ends_step; [|exact Hf|by apply He]. set_solver. }
  assert (forall p1 t1 l0 l1, guarded_from (create_needs (W := W) c (creating p)) h (l0 ++ l1) ->
    finish_ok (creating p) (h ++ l0 ++ l1) (creating p1) ->
    yields (fun _ => True) (select_loop (W := W) c fuel p1 t1)
      (fun res l => guarded_from (create_needs (W := W) c (creating p)) h (l0 ++ l1 ++ l) /\
                    forall e, res = Ok e -> ends_ok p (h ++ l0 ++ l1 ++ l) e)) as Hgo2.
  { intros p1 t1 l0 l1 Hg Hf. eapply yields_mono; [|by apply Hgo]. intros r l _ HQ. cbv beta in HQ. by rewrite <- (assoc_L (++) l0 l1 l) in HQ. }
  assert (forall l, Forall idle l -> guarded_from (create_needs (W := W) c (creating p)) h l) as Hidle
    by (intros; by apply idle_create_needs).
  assert (forall l p' b err, (b, err) <> (false, None) -> p' = p -> ends_ok p (h ++ l) (Returned p' b err)) as Hend.
  { intros l p' b err Hb ->. split; [apply finish_refl|]. by intros p' [= _ -> ->]. }
  apply yields_bind, yields_record. intros r. split; [done|].
  destruct r as [s|err]; [|split; [by apply Hidle; repeat constructor|done]].
  assert (Forall idle [Select (Ok s)]) as Hs by (by repeat constructor).
  destruct s as [|type [cm|]| | |err].
  - apply yields_ret. split; [by apply Hidle|]. intros e [= <-]. by apply Hend.
  - destruct (isAddOrModifyEvent type) eqn:Ht; cbn [negb]; [|apply Hgo; [by apply Hidle|apply finish_refl]].
    apply yields_bind.
    eapply yields_mono; [|apply (createOSDsForStatusMap_yields _ _ cm (h ++ [Select (Ok (Watched type (Some cm)))]))].
    + intros r l _ (Hg & cc' & errs' & -> & Ha). apply Hgo2.
      * apply guarded_from_app; [by apply Hidle|done].
      * cbn [creating]. eapply finish_map; [|exact Ha]. right. exists type. split; [set_solver|done].
    + right. exists type. split; [set_solver|done].
  - destruct (isAddOrModifyEvent type); apply Hgo; first [by apply Hidle|apply finish_refl].
  - apply yields_bind. eapply yields_mono; [|apply updateExistingOSDs_yields]. intros [[u errs]|err] l _ (Hg & _).
    + apply Hgo2; [|apply finish_refl]. apply guarded_from_app; [by apply Hidle|]. by eapply update_create_needs.
    + split; [|done]. apply guarded_from_app; [by apply Hidle|]. by eapply update_create_needs.
  - apply yields_bind. eapply yields_impl; [done|]. eapply yields_harmless; [apply minute_tick_idle|].
    intros [[t'|err]|err] l Hl; assert (Forall idle ([Select (Ok MinuteTick)] ++ l)) as Hl' by (by apply Forall_app).
    + apply Hgo2; [by apply Hidle|apply finish_refl].
    + apply yields_ret. rewrite app_nil_r. split; [by apply Hidle|]. intros e [= <-]. by apply Hend.
    + split; [by apply Hidle|done].
  - apply yields_ret. split; [by apply Hidle|]. intros e [= <-]. by apply Hend.
Qed.

Lemma updateAndCreateOSDsLoop_yields fuel p h :
  yields (fun _ => True) (updateAndCreateOSDsLoop (W := W) c fuel p)
    (fun res l => guarded_from (create_needs (W := W) c (creating p)) h l /\ forall e, res = Ok e -> ends_ok p (h ++ l) e).
Proof.
  assert (forall l, Forall idle l -> guarded_from (create_needs (W := W) c (creating p)) h l) as Hidle
    by (intros; by apply idle_create_needs).
  unfold updateAndCreateOSDsLoop. apply yields_bind, yields_try, yields_record. intros [ms|err]; (split; [done|]).
  2:{ apply yields_ret. split; [apply Hidle; by repeat constructor|]. intros e [= <-]. split; [apply finish_refl|done]. }
  set (ev := ListConfigMaps _ _ _). assert (Forall (status_seen c (h ++ [ev])) ms) as Hms.
  { apply Forall_forall. intros m Hm. left. exists ms. split; [set_solver|done]. }
  apply yields_bind. eapply yields_mono; [|by apply create_for_maps_yields].
  intros r l _ (Hg & cc & errs & -> & Hf).
  assert (guarded_from (create_needs (W := W) c (creating p)) h ([ev] ++ l)) as Hg1
    by (apply guarded_from_app; [by apply Hidle; repeat constructor|done]).
  rewrite <- (assoc_L (++)) in Hf. apply yields_bind, yields_try, yields_record. intros w. split; [done|].
  assert (forall l', Forall idle l' -> guarded_from (create_needs (W := W) c (creating p)) h (([ev] ++ l) ++ l')) as Hg2
    by (intros l' Hl'; apply guarded_from_app; [done|by apply idle_create_needs]).
  destruct w as [[]|err].
  2:{ apply yields_ret. rewrite app_nil_r, (assoc_L (++)). split; [by apply Hg2; repeat constructor|]. intros e [= <-].
      split; [|done]. eapply (finish_trans _ _ _ (h ++ [ev] ++ l)); [set_solver|done|apply finish_refl]. }
  apply yields_bind, yields_record. intros [time|err]; (split; [done|]).
  2:{ rewrite !(assoc_L (++)). rewrite <- (assoc_L (++) _ [_] [_]). split; [by apply Hg2; repeat constructor|done]. }
  set (w := [Watch _ _ _]). set (n := [Now _]).
  eapply yields_mono; [|apply (select_loop_yields fuel _ _ (h ++ [ev] ++ l ++ w ++ n))].
  intros r l' _ [Hg' He]. cbn [creating] in *.
  assert (h ++ [ev] ++ l ++ w ++ n ++ l' = (h ++ [ev] ++ l ++ w ++ n) ++ l') as Eq by (by rewrite <- !(assoc_L (++))).
  split.
  - replace ([ev] ++ l ++ w ++ n ++ l') with (([ev] ++ l ++ w ++ n) ++ l') by (by rewrite <- !(assoc_L (++))).
    apply guarded_from_app.
    + rewrite (assoc_L (++) [ev]). apply Hg2. by repeat constructor.
    + eapply create_needs_plan; [apply Hf|]. exact Hg'.
  - intros e ->. rewrite Eq. eapply (ends_step _ {| creating := cc; updating := updating p; errors := errs |}); [|exact Hf|by apply He]. set_solver.
Qed.

End Loop.

(** ** Migration *)

Section Migration.
Context {W : Type} `{RolloutEnv W} (c : RolloutCluster).

(** A deployment of OSD [id] was listed that does not have the encryption or the store that is asked
    for. *)
Definition mismatched (h : list event) (id : Z) : Prop :=
  exists deps d, ListDeployments (namespace c) (AppAttr +:+ "=" +:+ AppName) (Ok deps) ∈ h /\ d ∈ deps /\
    Disruption.GetOSDID d = Ok id /\ (needs_encryption_change c d = true \/ needs_store_change c d = true).

(** The OSD that was migrated last, if one is recorded, has its deployment again. *)
Definition last_migrated_back (h : list event) : Prop :=
  exists r, GetConfigMap (namespace c) OSDMigrationConfigName r ∈ h /\
    forall cm s id, r = Ok cm -> map_data cm !! OSDIdKey = Some s -> s <> "" -> Atoi s = Some id -> id <> -1 ->
      exists r', GetDeployment (namespace c) (deploymentName id) r' ∈ h /\ forall err, r' = Err err -> IsNotFound err = false.

Definition migration_needs (skip : gset string) (h : list event) (ev : event) : Prop :=
  match ev with
  | DeleteDeployment ns name _ =>
      exists id, ns = namespace c /\ name = deploymentName id /\ isMigrationRequested c = true /\
        saw_clean_pgs (W := W) c h /\ mismatched h id /\ Itoa id ∉ skip /\ last_migrated_back h /\ Forall idle h
  | CreateDeployment _ _ _ | UpdateDeployment _ _ _ => False
  | _ => True
  end.

Lemma retry_rounds_success {S} n (f : S -> MW W (S * bool * option gerror)) (P : list event -> Prop) s :
  (forall l l', P l -> P (l' ++ l)) ->
  (forall s, yields idle (f s) (fun r l => forall s', r = Ok (s', true, None) -> P l)) ->
  yields idle (retry_rounds n f s) (fun r l => forall s', r = Ok (s', None) -> P l).
Proof.
  intros HP Hf.
  assert (forall l1 s, yields idle ('(s, done, err) ← f s;
             mret (s, if (done : bool) then err
                      else Some (match err with
                                 | Some e => Wrapf e "timed out waiting for %s" []
                                 | None => Errorf "timed out waiting for %s" []
                                 end)))
           (fun r l => forall s', r = Ok (s', None) -> P (l1 ++ l))) as Hlast.
  { intros l1 s0. apply yields_bind. eapply yields_mono; [|apply Hf]. intros [[[s' fin] err]|err] l _ Hr; [|done].
    apply yields_ret. rewrite app_nil_r. intros s'' [= <- Hd]. destruct fin, err; try done. by eapply HP, Hr. }
  revert s. induction n as [|n IH]; intros s; cbn [retry_rounds]; [apply (Hlast [])|].
  apply yields_bind. eapply yields_mono; [|apply Hf]. intros [[[s' fin] err]|err] l _ Hr; [|done]. destruct fin.
  { apply yields_ret. rewrite app_nil_r. intros s'' [= <- ->]. by eapply Hr. }
  apply yields_bind, yields_silent. intros [[]|err']; cbn [app]; [apply Hlast| |done].
  eapply yields_mono; [|apply IH]. intros r l' _ Hr' s'' ->. by eapply HP, Hr'.
Qed.

Lemma waitForHealthyPGs_yields :
  yields idle (waitForHealthyPGs (W := W) c) (fun r l => forall b, r = Ok b -> b = true /\ saw_clean_pgs (W := W) c l).
Proof.
  unfold waitForHealthyPGs, RetryWithTimeout. apply yields_bind.
  eapply yields_mono; [|apply (retry_rounds_success _ _ (saw_clean_pgs (W := W) c))].
  - intros [[[] [err|]]|err] l _ Hr; [by apply yields_fail| |done]. apply yields_ret. rewrite app_nil_r.
    intros b [= <-]. split; [done|]. by eapply Hr.
  - intros l l' Hl. eapply saw_clean_sub; [|exact Hl]. set_solver.
  - intros []. apply yields_bind, yields_try. eapply yields_mono; [|apply IsClusterClean_asks].
    intros [b|err] l _ Hr; apply yields_ret; rewrite app_nil_r; [|done]. intros [] [= ->]. by apply Hr.
Qed.

Lemma migrate_for_yields needs (P : Z -> Prop) m l :
  map_Forall (fun id o => ID o = id /\ P id) m ->
  (forall d id, d ∈ l -> needs d = true -> Disruption.GetOSDID d = Ok id -> P id) ->
  yields idle (migrate_for (W := W) c needs m l) (fun r _ => forall m', r = Ok m' -> map_Forall (fun id o => ID o = id /\ P id) m').
Proof.
  revert m. induction l as [|d l IH]; intros m Hm Hl; cbn [migrate_for]; [apply yields_ret; by intros m' [= <-]|].
  destruct (needs d) eqn:Hn; [|apply IH; [done|set_solver]].
  apply yields_bind, yields_wrapM. eapply yields_mono; [|apply getOSDInfo_yields].
  intros [o|err] l1 _ Hid; cbn [wrap_err]; [|done]. apply IH; [|set_solver]. destruct (m !! ID o) eqn:Em; [done|].
  apply map_Forall_insert_2; [|done]. split; [done|]. eapply Hl; [by left|done|by apply Hid].
Qed.

Lemma newMigrationConfig_yields :
  yields idle (newMigrationConfig (W := W) c)
    (fun r l => forall m, r = Ok m -> map_Forall (fun id o => ID o = id /\ mismatched l id) m).
Proof.
  unfold newMigrationConfig, getOSDDeployments. apply yields_bind, yields_wrapM, yields_wrapM, yields_record.
  intros [deps|err]; (split; [done|]); cbn [wrap_err]; [|done].
  set (ev := ListDeployments _ _ _). apply yields_bind, yields_wrapM.
  assert (forall d id needs l, needs d = true \/ needs_store_change c d = true -> needs = needs_encryption_change c ->
            d ∈ deps -> Disruption.GetOSDID d = Ok id -> mismatched ([ev] ++ l) id) as Hmis.
  { intros d id needs l Hn -> Hd Hid. exists deps, d. split; [by left|]. done. }
  eapply yields_mono; [|apply (migrate_for_yields _ (fun id => forall l, mismatched ([ev] ++ l) id)); [apply map_Forall_empty|]].
  2:{ intros d id Hd Hn Hid l. eapply Hmis; eauto. }
  intros [m|err] l1 _ Hm; cbn [wrap_err]; [|done]. apply yields_wrapM.
  eapply yields_mono; [|apply (migrate_for_yields _ (fun id => forall l, mismatched ([ev] ++ l) id)); [by apply Hm|]].
  2:{ intros d id Hd Hn Hid l. eapply Hmis; eauto. }
  intros [m'|err] l2 _ Hm'; cbn [wrap_err]; [|done]. intros ? [= <-]. eapply map_Forall_impl; [by apply Hm'|].
  intros id o [Ho Hp]. split; [done|]. apply Hp.
Qed.

Lemma getOSDToMigrate_yields m :
  m <> ∅ ->
  yields idle (getOSDToMigrate (W := W) m) (fun r _ => forall o m', r = Ok (o, m') -> exists id, m !! id = Some o /\ m' = delete id m).
Proof.
  intros Hm. unfold getOSDToMigrate. apply yields_bind, yields_silent. intros [n|err]; [|done].
  destruct (map_to_list m !! (n mod size m)%nat) as [[id o]|] eqn:El.
  - apply yields_ret. intros o' m' [= <- <-]. exists id. split; [|done]. apply list_elem_of_lookup_2 in El.
    by apply elem_of_map_to_list in El.
  - apply lookup_ge_None in El. rewrite length_map_to_list in El.
    assert (size m <> 0%nat) as Hs by (by rewrite map_size_non_empty_iff).
    pose proof (Nat.mod_upper_bound n (size m) Hs). lia.
Qed.

Lemma isLastOSDMigrationComplete_yields :
  yields idle (isLastOSDMigrationComplete (W := W) c) (fun r l => r = Ok true -> last_migrated_back l).
Proof.
  unfold isLastOSDMigrationComplete, getLastMigratedOSDId.
  apply yields_bind, yields_wrapM, yields_bind, yields_try, yields_record. intros [cm|err]; (split; [done|]).
  2:{ apply yields_ret. cbn [wrap_err app]. rewrite Z.eqb_refl. apply yields_ret. intros _. eexists.
      split; [by left|done]. }
  set (ev := GetConfigMap _ _ _).
  assert (forall l, (forall s id, map_data cm !! OSDIdKey = Some s -> s <> "" -> Atoi s = Some id -> id <> -1 ->
      exists r', GetDeployment (namespace c) (deploymentName id) r' ∈ [ev] ++ l /\ forall err, r' = Err err -> IsNotFound err = false) ->
      last_migrated_back ([ev] ++ l)) as Hback.
  { intros l Hl. exists (Ok cm). split; [by left|]. intros cm' s id [= <-]. apply Hl. }
  destruct (map_data cm !! OSDIdKey) as [s|]; [destruct (String.eqb_spec s ""); [|destruct (Atoi s) as [id|] eqn:Ea]|].
  all: first [apply yields_ret | by apply yields_fail]; cbn [wrap_err app]; rewrite ?Z.eqb_refl.
  1,3: apply yields_ret; intros _; apply (Hback []); intros; simplify_eq.
  destruct (Z.eqb_spec id (-1)); [apply yields_ret; intros _; apply (Hback []); intros; simplify_eq|].
  apply yields_bind, yields_try, yields_record. intros r; (split; [done|]). set (g := GetDeployment _ _ _).
  destruct r as [d|err]; [|destruct (IsNotFound err) eqn:En]; apply yields_ret; try done; intros _; apply (Hback ([g] ++ [])).
  all: intros s' id' [= <-] _ [= <-]%(eq_trans (eq_sym Ea)) _; eexists; (split; [right; by left|]); naive_solver.
Qed.

(** What the migration returns: the OSDs that wait are mismatched, as is the OSD that is migrated,
    which does not wait any longer. *)
Definition migration_result (skip : gset string) (l : list event) (res : option (gmap Z OSDInfo) * option OSDInfo) : Prop :=
  (forall m, res.1 = Some m -> map_Forall (fun id o => ID o = id /\ mismatched l id /\ Itoa id ∉ skip) m) /\
  (forall o, res.2 = Some o -> mismatched l (ID o) /\ Itoa (ID o) ∉ skip /\
     (exists r, DeleteDeployment (namespace c) (deploymentName (ID o)) r ∈ l) /\
     exists m, res.1 = Some m /\ m !! ID o = None).

Lemma mismatched_sub h h' id : h ⊆ h' -> mismatched h id -> mismatched h' id.
Proof. unfold mismatched. intros Hh. naive_solver. Qed.

Lemma idle_migration_needs skip h l : Forall idle l -> guarded_from (migration_needs skip) h l.
Proof.
  intros Hl. apply guarded_from_all. eapply Forall_impl; [exact Hl|]. intros ev Hev pre. by destruct ev.
Qed.

Lemma saveMigrationConfig_idle id : harmless idle (saveMigrationConfig (W := W) c id).
Proof. unfold saveMigrationConfig, CreateOrUpdateConfigMap. idle. Qed.

Lemma last_migrated_sub h h' : h ⊆ h' -> last_migrated_back h -> last_migrated_back h'.
Proof.
  intros Hh (r & Hr & Hb). exists r. split; [auto|]. intros cm s id E Es Hs Ha Hi.
  destruct (Hb cm s id E Es Hs Ha Hi) as (r' & Hr' & Hn). eauto.
Qed.

(** An OSD that may be migrated is migrated, and only then its ID is saved. *)
Lemma migrate_one_yields skip h (m : gmap Z OSDInfo) id o :
  Forall idle h -> isMigrationRequested c = true -> saw_clean_pgs (W := W) c h -> last_migrated_back h ->
  map_Forall (fun id o => ID o = id /\ mismatched h id /\ Itoa id ∉ skip) m -> m !! id = Some o ->
  yields (fun _ => True)
    (_ ← wrapM (deleteOSDDeployment (W := W) c (ID o)) "failed to delete deployment for osd.%d that needs migration %q"
           [Itoa (ID o); namespace c];
     _ ← wrapM (saveMigrationConfig (W := W) c (ID o)) "failed to save migrated OSD ID %din the config map" [Itoa (ID o)];
     mret (Some (delete id m), Some o))
    (fun res l => guarded_from (migration_needs skip) [] (h ++ l) /\ forall x, res = Ok x -> migration_result skip (h ++ l) x).
Proof.
  intros Hh Hreq Hclean Hlast Hm Hid. destruct (Hm id o Hid) as (Eid & Hmis & Hskip). rewrite Eid.
  apply yields_bind, yields_wrapM. eapply yields_mono; [|apply (deleteOSDDeployment_yields c id (migration_needs skip) h)]; [| |done].
  - intros r l1 _ (Hg & rd & Hdel). assert (guarded_from (migration_needs skip) [] (h ++ l1)) as Hg1
      by (apply guarded_from_app; [by apply idle_migration_needs|done]).
    destruct r; cbn [wrap_err]; [|done]. apply yields_bind, yields_wrapM.
    eapply yields_impl; [done|]. eapply yields_harmless; [apply saveMigrationConfig_idle|]. intros r l2 Hl2.
    assert (guarded_from (migration_needs skip) [] (h ++ l1 ++ l2)) as Hg2
      by (rewrite (assoc_L (++)); apply guarded_from_app; [done|by apply idle_migration_needs]).
    destruct r; cbn [wrap_err]; [|done]. apply yields_ret. rewrite app_nil_r. split; [done|]. intros x [= <-].
    assert (forall i, mismatched h i -> mismatched (h ++ l1 ++ l2) i) as Hsub
      by (intros i; apply mismatched_sub; set_solver).
    split; cbn [fst snd].
    + intros m' [= <-]. apply map_Forall_delete. eapply map_Forall_impl; [exact Hm|]. naive_solver.
    + intros o' [= <-]. rewrite Eid. split; [by apply Hsub|]. split; [done|]. split; [exists rd; set_solver|].
      eexists. split; [done|]. by rewrite lookup_delete_eq.
  - intros r. exists id. by repeat (split; [done|]).
Qed.

Lemma startOSDMigration_yields skip :
  yields (fun _ => True) (startOSDMigration (W := W) c skip)
    (fun res l => guarded_from (migration_needs skip) [] l /\ forall x, res = Ok x -> migration_result skip l x).
Proof.
  assert (forall l err, Forall idle l -> guarded_from (migration_needs skip) [] l /\
            forall x, Err err = Ok x -> migration_result skip l x) as Hfail by (intros; split; [by apply idle_migration_needs|done]).
  unfold startOSDMigration. destruct (isMigrationRequested c) eqn:Hreq; cbn [negb].
  2:{ apply yields_ret. split; [apply guarded_from_nil|]. by intros x [= <-]. }
  apply yields_bind, yields_wrapM. eapply yields_mono; [|apply (yields_weaken idle); [done|apply waitForHealthyPGs_yields]].
  intros [b|err] l1 _ [Hi1 Hpgs]; cbn [wrap_err]; [|by apply Hfail].
  destruct (Hpgs b eq_refl) as [-> Hclean]. cbn [negb].
  apply yields_bind, yields_wrapM. eapply yields_mono; [|apply (yields_weaken idle); [done|apply newMigrationConfig_yields]].
  intros [m|err] l2 _ [Hi2 Hm]; cbn [wrap_err]; [|apply Hfail; by apply Forall_app]. specialize (Hm m eq_refl).
  set (m' := filter _ m).
  assert (forall l, map_Forall (fun id o => ID o = id /\ mismatched (l1 ++ l2 ++ l) id /\ Itoa id ∉ skip) m') as Hm'.
  { intros l id o [Ho Hs]%map_lookup_filter_Some. destruct (Hm id o Ho) as [Hid Hmis]. split; [done|]. split; [|done].
    eapply mismatched_sub; [|exact Hmis]. set_solver. }
  clearbody m'. apply yields_bind, yields_wrapM.
  eapply yields_mono; [|apply (yields_weaken idle); [done|apply isLastOSDMigrationComplete_yields]].
  intros [b|err] l3 _ [Hi3 Hlast]; cbn [wrap_err]; [|apply Hfail; by rewrite !Forall_app].
  assert (yields (fun _ => True) (mret (Some m', None) : MW W (option (gmap Z OSDInfo) * option OSDInfo))
    (fun res l => guarded_from (migration_needs skip) [] (l1 ++ l2 ++ l3 ++ l) /\
                  forall x, res = Ok x -> migration_result skip (l1 ++ l2 ++ l3 ++ l) x)) as Hnone.
  { apply yields_ret. rewrite app_nil_r. split; [by apply idle_migration_needs; rewrite !Forall_app|]. intros y [= <-].
    split; [|done]. intros ? [= <-]. apply Hm'. }
  destruct b; cbn [negb]; [|exact Hnone]. case_bool_decide as He; [exact Hnone|]. specialize (Hlast eq_refl).
  apply yields_bind. eapply yields_mono; [|apply (yields_weaken idle); [done|by apply getOSDToMigrate_yields]].
  intros [[o m1]|err] l4 _ [Hi4 Ho]; [|apply Hfail; by rewrite !Forall_app].
  destruct (Ho _ _ eq_refl) as (id & Hid & ->).
  eapply yields_mono; [|apply (migrate_one_yields skip (l1 ++ l2 ++ l3 ++ l4) m' id o)]; try done.
  - intros res l _ Hres. cbv beta in Hres. by rewrite <- !(assoc_L (++)) in Hres.
  - by rewrite !Forall_app.
  - eapply saw_clean_sub; [|exact Hclean]. set_solver.
  - eapply last_migrated_sub; [|exact Hlast]. set_solver.
Qed.

End Migration.

(** ** Progress *)

Section Progress.
Context {W : Type} `{RolloutEnv W} (c : RolloutCluster).

(** The specification lets updates go on whatever Ceph says. *)
Definition unblocked : Prop :=
  SkipUpgradeChecks c = true \/
  (ContinueUpgradeAfterChecksEvenIfNotHealthy c = true /\ UpgradeOSDRequiresHealthyPGs c = false).

Lemma osds_to_update_unblocked query :
  unblocked -> yields idle (osds_to_update (W := W) c query) (fun r _ => exists ids, r = Ok (Some ids)).
Proof.
  intros Hu. unfold osds_to_update, OSDUpdateShouldCheckOkToStop, OsdListNum, OSDOkToStop. trace; eauto.
  all: by destruct Hu as [?|[? _]]; congruence.
Qed.

Lemma pgs_allow_unblocked : unblocked -> pgs_allow_update (W := W) c = mret true.
Proof. unfold pgs_allow_update. by intros [->|[_ ->]]; rewrite ?andb_false_r. Qed.

(** Then every round takes the first OSD from the queue, and those it updates with it. *)
Lemma updateExistingOSDs_progress u errs query q :
  unblocked -> clock_answers (W := W) -> queue u = query :: q ->
  yields (fun _ => True) (updateExistingOSDs (W := W) c u errs)
    (fun res l => (exists u' errs' (ids : list Z), res = Ok (u', errs') /\ queue u' = filter (fun id => id ∉ ids) q) \/
                  panicked (W := W) res l).
Proof.
  intros Hu Hc Hq. unfold updateExistingOSDs. replace (doneUpdating u) with false
    by (unfold doneUpdating, queue_Len; by rewrite Hq).
  rewrite pgs_allow_unblocked by done. apply yields_bind, yields_ret. cbn [negb]. rewrite Hq. cbn [queue_Pop].
  apply yields_bind. eapply yields_impl; [done|]. eapply yields_mono; [|by apply osds_to_update_unblocked].
  intros r l1 _ [ids ->]. apply yields_bind.
  eapply yields_mono; [|apply (yields_weaken idle); [done|apply update_osds_yields]].
  intros r2 l2 _ (_ & _ & Hno). destruct r2 as [rd|err].
  2:{ right. destruct Hno as [[? ?]|Hno]; [done|]. eapply panicked_later; [exact Hno|set_solver]. }
  apply yields_bind.
  eapply yields_mono; [|apply update_deps_yields]. intros r3 l3 _ [_ Hr]. destruct (Hr Hc) as [fs ->].
  apply yields_ret. left. do 2 eexists. exists ids. split; [done|]. cbn [queue with_desired with_queue]. apply queue_Remove_filter.
Qed.

(** When only the ticker of the updates fires, as many rounds as there are OSDs in the queue suffice, unless
    the operator panics. *)
Lemma select_loop_ends fuel p t :
  unblocked -> clock_answers (W := W) -> (forall e : W, (env_select e).2 = Ok UpdateTick) ->
  doneCreating (creating p) = true -> (length (queue (updating p)) <= fuel)%nat ->
  yields (fun _ => True) (select_loop (W := W) c fuel p t)
    (fun res l => (exists p', res = Ok (Returned p' false None) /\ queue (updating p') = [] /\ creating p' = creating p) \/
                  panicked (W := W) res l).
Proof.
  intros Hu Hc Ht. revert p t. induction fuel as [|fuel IH]; intros p t Hcr Hlen; cbn [select_loop]; rewrite Hcr, andb_true_r.
  all: destruct (queue (updating p)) as [|query q] eqn:Hq.
  1,3: replace (doneUpdating (updating p)) with true by (unfold doneUpdating, queue_Len; by rewrite Hq);
    apply yields_ret; left; by exists p.
  { cbn in Hlen. lia. }
  replace (doneUpdating (updating p)) with false by (unfold doneUpdating, queue_Len; by rewrite Hq).
  apply yields_bind. intros h e. unfold select, record. simpl. destruct (env_select e) as [e' r] eqn:Es.
  specialize (Ht e). rewrite Es in Ht. simpl in Ht. subst r. simpl. exists [Select (Ok UpdateTick)].
  do 2 (split; [by repeat constructor|]). apply yields_bind.
  eapply yields_mono; [|by apply (updateExistingOSDs_progress (updating p) (errors p) query q)].
  intros r l _ [(u' & errs' & ids & -> & Hq')|Hp].
  2:{ destruct r as [?|err]; [by destruct Hp|right]. eapply panicked_later; [exact Hp|set_solver]. }
  eapply yields_mono; [|apply (IH {| creating := creating p; updating := u'; errors := errs' |}); [done|]].
  - intros res l' _ [Hr|Hp]; [by left|right]. destruct res as [?|err]; [by destruct Hp|].
    eapply panicked_later; [exact Hp|set_solver].
  - cbn [updating]. rewrite Hq'. pose proof (length_filter (fun id => id ∉ ids) q). cbn in Hlen. lia.
Qed.

End Progress.

(** ** Preparing the updates *)

Section Prepare.
Context {W : Type} `{RolloutEnv W} (c : RolloutCluster).

Definition osd_ids (deps : list Deployment) : list Z :=
  omap (fun d => match Disruption.GetOSDID d with Ok id => Some id | Err _ => None end) deps.

Lemma update_info_spec deps q e errs :
  exists errs', foldl update_info_step (q, e, errs) deps = (q ++ osd_ids deps, e ∪ list_to_set (osd_ids deps), errs').
Proof.
  revert q e errs. induction deps as [|d deps IH]; intros q e errs; cbn [foldl].
  { exists errs. cbn. by rewrite app_nil_r, union_empty_r_L. }
  unfold update_info_step at 2. unfold osd_ids. cbn [omap list_omap].
  destruct (Disruption.GetOSDID d) as [id|err]; [|apply IH].
  destruct (IH (queue_Push q id) (existence_Add id e) errs) as [errs' ->]. exists errs'. unfold queue_Push, existence_Add.
  f_equal. f_equal; [by rewrite <- (assoc_L (++))|]. cbn [list_to_set]. set_solver.
Qed.

(** What is prepared: the queue holds the listed OSDs but those that wait for their migration, and
    the OSDs to skip are the labelled ones unless these could not be listed. *)
Definition prepared (l : list event) (u : updateConfig) : Prop :=
  exists deps (pending : list Z),
    ListDeployments (namespace c) (AppAttr +:+ "=" +:+ AppName) (Ok deps) ∈ l /\
    up_deployments u = list_to_set (osd_ids deps) /\
    queue u = filter (fun id => id ∉ pending) (osd_ids deps) /\ numUpdatesNeeded u = queue_Len (queue u) /\
    Forall (fun id => mismatched c l id /\ Itoa id ∉ osdsToSkipReconcile u) pending /\
    exists r, ListDeployments (namespace c) (AppAttr +:+ "=" +:+ AppName +:+ "," +:+ SkipReconcileLabelKey) r ∈ l /\
      osdsToSkipReconcile u = match r with
                              | Ok ds => list_to_set (omap (fun d => dep_labels d !! OsdIdLabelKey) ds)
                              | Err _ => ∅
                              end.

Lemma getOSDIds_pending (P : Z -> Prop) (m : gmap Z OSDInfo) :
  map_Forall (fun id o => ID o = id /\ P id) m -> Forall P (getOSDIds m).
Proof.
  intros Hm. apply Forall_forall. intros id Hid. unfold getOSDIds in Hid.
  apply list_elem_of_fmap in Hid as ([id' o] & -> & Ho). apply elem_of_map_to_list in Ho. by destruct (Hm id' o Ho).
Qed.

#[local] Opaque wait_deleted.

Lemma DeleteDeployment_appends ns name : harmless (fun _ => True) (DeleteDeployment_ (W := W) ns name).
Proof.
  unfold DeleteDeployment_, deleteResourceAndWait. apply harmless_bind; [idle|]. intros [[]|err]; idle.
  eapply harmless_impl; [|apply wait_deleted_gets]. done.
Qed.

#[local] Opaque DeleteDeployment_.

Lemma process_deployments_appends st l : harmless (fun _ => True) (process_deployments (W := W) c st l).
Proof.
  revert st. induction l as [|d l IH]; intros st; cbn [process_deployments]; [apply harmless_ret|].
  apply harmless_bind; [|intros; apply IH]. unfold process_deployment, clean_up_swap, validate_request.
  idle; apply DeleteDeployment_appends.
Qed.

Lemma processOSDReplacements_appends : harmless (fun _ => True) (processOSDReplacements (W := W) c).
Proof.
  unfold processOSDReplacements, getOSDDeployments. apply harmless_bind; [idle|]. intros. apply process_deployments_appends.
Qed.

Lemma prepare_updates_yields :
  yields (fun _ => True) (prepare_updates (W := W) c)
    (fun res l => forall u errs o, res = Ok (u, errs, o) -> prepared l u).
Proof.
  unfold prepare_updates, GetDaemonsToSkipReconcile, getOSDUpdateInfo. apply yields_bind, yields_try.
  eapply yields_harmless; [apply processOSDReplacements_appends|]. intros r0 l1 _.
  apply yields_bind, yields_try, yields_bind, yields_wrapM, yields_record. intros ds; (split; [done|]).
  set (ev := ListDeployments _ _ _).
  set (skip := match ds with Ok ds => list_to_set (omap (fun d => dep_labels d !! OsdIdLabelKey) ds) | Err _ => ∅ end : gset string).
  assert (yields (fun _ => True)
    ('(migration, migrateOSD) ← wrapM (startOSDMigration c skip) "failed to start OSD migration" [];
     '(q, deployments, errs) ← wrapM (deps ← wrapM (list_deployments (namespace c) (AppAttr +:+ "=" +:+ AppName))
         "failed to query existing OSD deployments to see if they need updated" [];
         mret (foldl update_info_step ([], ∅, []) deps))
         "failed to get information about currently-running OSD Deployments in namespace %q" [namespace c];
     mret (newUpdateConfig (match migration with Some m => queue_Remove q (getOSDIds m) | None => q end) deployments skip,
           errs, migrateOSD) : MW W (updateConfig * list gerror * option OSDInfo))
    (fun res l => forall u errs o, res = Ok (u, errs, o) -> prepared (l1 ++ [ev] ++ l) u)) as Hrest.
  { apply yields_bind, yields_wrapM. eapply yields_mono; [|apply startOSDMigration_yields].
    intros [[mo o]|err] l2 _ [_ Hm]; cbn [wrap_err]; [|done]. destruct (Hm _ eq_refl) as [Hpend _]. cbn [fst] in Hpend.
    apply yields_bind, yields_wrapM, yields_bind, yields_wrapM, yields_record. intros [deps|err]; (split; [done|]); cbn [wrap_err]; [|done].
    apply yields_ret. destruct (update_info_spec deps [] ∅ []) as [errs ->]. cbn [wrap_err].
    apply yields_ret. intros u errs' o' [= <- _ _]. exists deps, (match mo with Some m => getOSDIds m | None => [] end).
    rewrite union_empty_l_L, ?app_nil_r. cbn [app up_deployments queue numUpdatesNeeded newUpdateConfig osdsToSkipReconcile].
    split; [set_solver|]. split; [done|]. split; [destruct mo; [apply queue_Remove_filter|]|].
    { clear. induction (osd_ids deps) as [|id ids IH]; [done|]. rewrite filter_cons_True by apply not_elem_of_nil. by f_equal. }
    split; [done|]. split; [destruct mo as [m|]; [|done]|exists ds; split; [set_solver|done]].
    apply getOSDIds_pending. eapply map_Forall_impl; [by apply Hpend|]. intros id oi (Hid & Hmis & Hs). split; [done|].
    split; [|done]. eapply mismatched_sub; [|exact Hmis]. set_solver. }
  destruct ds as [ds|err]; cbn [wrap_err]; [apply yields_ret|]; cbn [app]; exact Hrest.
Qed.

End Prepare.

End OsdRolloutProofs.
