(* ===== verification/RolloutSafety.v ===== *)
(** * RolloutSafety: the promises of the rollout of OSDs

    For every environment: what was checked before the deployment of an OSD is updated, created or
    deleted by the rollout or for a migration, that no OSD is updated twice, and how the loop ends
    (from file OsdRolloutProofs); with a site of two hosts as example. *)

From stdpp Require Import base gmap strings list fin_maps.
From Stdlib Require Import ZArith Ascii.
From S2P Require Import Prelude Names CephVersion GoTime Topology Kube Disruption Upgrade Cephx OsdBase OsdSpec OsdReplace OsdRollout OsdReplaceProofs OsdRolloutProofs.
Import Log Version GoTime Kube Upgrade Cephx OsdBase OsdSpec OsdReplace OsdRollout OsdReplaceProofs OsdRolloutProofs.
Open Scope Z_scope.

Module RolloutSafety.

(** ** Safety *)

Section Safety.
Context {W : Type} `{RolloutEnv W} (c : RolloutCluster).

(** C7: a round of updates changes a deployment only if it is the new one, built in this round after
    the existing deployment was fetched, of an OSD that is in the queue and known to exist and is
    not to be skipped; an OSD of a host only if the host is still part of the storage; Ceph said
    that the OSD can be stopped together with the first of the queue, or it is that first OSD and
    the checks are skipped or overridden, or there are fewer than three OSDs; and, if the
    specification asks for it, Ceph had reported all placement groups as healthy. *)
Theorem update_is_checked u errs e pre post ns d r :
  log (updateExistingOSDs c u errs (World e [])).1 = pre ++ UpdateDeployment ns d r :: post ->
  update_needs (W := W) c u pre (UpdateDeployment ns d r).
Proof.
  intros Hlog. destruct (yields_run _ _ _ e (updateExistingOSDs_yields c u errs)) as [Hg _].
  exact (Hg _ _ _ Hlog).
Qed.


(** C10: a migration deletes at most one deployment, and only if it was asked for, Ceph had reported
    all placement groups as healthy, the deployment of this OSD was listed and does not have the
    encryption or store that is asked for, the OSD is not to be skipped, and the OSD that was
    migrated last, if one is recorded, was looked for and not found missing.  It creates and
    updates no deployment. *)
Theorem migration_is_checked skip e pre post ev :
  log (startOSDMigration c skip (World e [])).1 = pre ++ ev :: post ->
  migration_needs (W := W) c skip pre ev.
Proof.
  intros Hlog. destruct (yields_run _ _ _ e (startOSDMigration_yields c skip)) as [Hg _].
  exact (Hg _ _ _ Hlog).
Qed.

(** The updates are prepared for the OSDs whose deployments were listed, in that order, but not
    for those that wait for their migration, which are all mismatched and not to be skipped; and the
    OSDs to skip are the labelled ones, or none when these could not be listed. *)
Theorem updates_are_prepared e e' l u errs o :
  prepare_updates c (World e []) = (World e' l, Ok (u, errs, o)) -> prepared c l u.
Proof.
  intros Hrun. pose proof (yields_run _ _ _ e (prepare_updates_yields (W := W) c)) as Hp. rewrite Hrun in Hp.
  by eapply Hp.
Qed.

(** When the loop ends without an error and is not to be restarted, the queue of updates is
    empty and as many prepare jobs are finished as were awaited; each of them is in a result that
    was listed or watched, which says that it completed, and then it was awaited, or that it failed.
    So the loop waits for all prepare jobs, provided that the jobs that failed are awaited ones. *)
Theorem loop_finishes fuel p e e' l p' :
  updateAndCreateOSDsLoop c fuel p (World e []) = (World e' l, Ok (Returned p' false None)) ->
  finishedStatusConfigMaps (creating p) = ∅ ->
  queue (updating p') = [] /\
  size (finishedStatusConfigMaps (creating p')) = size (awaitingStatusConfigMaps (creating p)) /\
  (forall name, name ∈ finishedStatusConfigMaps (creating p') ->
     reported (W := W) c (awaitingStatusConfigMaps (creating p)) l name) /\
  ((forall name, name ∈ finishedStatusConfigMaps (creating p') -> name ∈ awaitingStatusConfigMaps (creating p)) ->
   finishedStatusConfigMaps (creating p') = awaitingStatusConfigMaps (creating p)).
Proof.
  intros Hrun Hempty. destruct (yields_run _ _ _ e (updateAndCreateOSDsLoop_yields (W := W) c fuel p [])) as [_ He].
  rewrite Hrun in He. destruct (He _ eq_refl) as [([Ha _] & _ & Hf) Hd]. destruct (Hd _ eq_refl) as [Hu Hc].
  cbn [ended_progress] in *. unfold doneCreating in Hc. apply Nat.eqb_eq in Hc. rewrite Ha in Hc.
  split; [|split; [done|split]].
  - unfold doneUpdating, queue_Len in Hu. apply Z.eqb_eq in Hu. destruct (queue (updating p')); [done|cbn in Hu; lia].
  - intros name Hn. destruct (Hf name Hn) as [Hn'|Hr]; [by rewrite Hempty in Hn'|done].
  - intros Hsub. apply set_subseteq_size_eq; [exact Hsub|]. lia.
Qed.

(** C11: when the specification lets updates go on whatever Ceph says, all prepare jobs are finished and the
    clock answers, a loop in which only the ticker of the updates fires ends after at most as many rounds as
    there are OSDs in the queue, without an error and with an empty queue, whatever fails in between; or the
    operator panicked, and then Ceph had answered with an empty list when it was asked for the device class
    of an OSD. *)
Theorem rollout_terminates fuel p t e :
  unblocked c -> clock_answers (W := W) -> (forall e : W, (env_select e).2 = Ok UpdateTick) ->
  doneCreating (creating p) = true -> (length (queue (updating p)) <= fuel)%nat ->
  let run := select_loop c fuel p t (World e []) in
  (exists p', run.2 = Ok (Returned p' false None) /\ queue (updating p') = []) \/
  (run.2 = Err index_panic /\
   exists id buf, Ceph ["osd"; "crush"; "get-device-class"; Itoa id] (Ok buf) ∈ log run.1 /\ json_device_classes (W := W) buf = Some []).
Proof.
  intros Hu Hc Ht Hd Hl. destruct (yields_run _ _ _ e (select_loop_ends c fuel p t Hu Hc Ht Hd Hl)) as [(p' & Hr & Hq & _)|Hp].
  - left. by exists p'.
  - by right.
Qed.

End Safety.

(** ** No OSD is updated twice *)

Section Once.
Context {W : Type} `{RolloutEnv W} (c : RolloutCluster).

(** Rounds one after another, with the calls of each; between two rounds anything can happen
    outside. *)
Inductive rounds : updateConfig -> list (list event) -> updateConfig -> Prop :=
| rounds_done u : rounds u [] u
| rounds_step u e errs e' l u' errs' ls u'' :
    updateExistingOSDs c u errs (World e []) = (World e' l, Ok (u', errs')) ->
    rounds u' ls u'' -> rounds u (l :: ls) u''.

(** What is built for an OSD, or fetched by its name, is its deployment. *)
Definition named (ev : event) : bool :=
  match ev with
  | Build _ _ osd (Ok d) => String.eqb (dep_name d) (deploymentName (ID osd))
  | GetDeployment _ name (Ok d) =>
      match Disruption.GetOSDID d with Ok id => String.eqb name (deploymentName id) | Err _ => false end
  | _ => true
  end.

Definition well_named (l : list event) : Prop := forallb named l = true.

Lemma deploymentName_inj id id' : deploymentName id = deploymentName id' -> id = id'.
Proof. unfold deploymentName. intros E%(inj (String.app _)). by apply Itoa_injective. Qed.

Definition keeps_names : Prop := forall d d', set_last_applied (W := W) d = Ok d' -> dep_name d' = dep_name d.

Lemma built_name u query id l d : well_named l -> built c u query id l d -> dep_name d = deploymentName id.
Proof.
  unfold well_named. rewrite forallb_forall. setoid_rewrite <- list_elem_of_In.
  intros Hw (_ & _ & _ & dep & claim & host & osd & Hdep%Hw & Hid & Hbuild%Hw & _). cbn [named] in Hdep, Hbuild.
  rewrite Hid in Hdep. apply String.eqb_eq in Hdep, Hbuild. congruence.
Qed.

(** A round keeps the queue free of duplicates and takes no OSD into it, and what it updates leaves
    the queue. *)
Lemma round_leaves u e errs e' l u' errs' :
  keeps_names -> well_named l -> NoDup (queue u) ->
  updateExistingOSDs c u errs (World e []) = (World e' l, Ok (u', errs')) ->
  NoDup (queue u') /\ queue u' ⊆ queue u /\
  forall ns d r, UpdateDeployment ns d r ∈ l ->
    exists id, dep_name d = deploymentName id /\ id ∈ queue u /\ id ∉ queue u'.
Proof.
  intros Hk Hw Hnd Hrun. destruct (yields_run _ _ _ e (updateExistingOSDs_yields c u errs)) as (_ & Hq & _).
  rewrite Hrun in Hq. destruct (Hq _ _ eq_refl) as [Hround _]. cbn [log fst snd] in Hround.
  assert (forall P, Forall idle l -> forall ns d r, UpdateDeployment ns d r ∈ l -> P) as Hidle.
  { intros P Hi ns d r Hin. rewrite Forall_forall in Hi. by apply Hi in Hin. }
  destruct Hround as [[-> Hi]|(query & q & Hu & Hround)]; [split; [done|]; split; [done|]; intros; by eapply Hidle|].
  rewrite Hu in Hnd |- *. apply NoDup_cons in Hnd as [Hnin Hnd].
  destruct Hround as [[-> Hi]|(ids & -> & Hup)].
  - split; [rewrite NoDup_app; set_solver by (by apply NoDup_singleton)|]. split; [set_solver|]. intros; by eapply Hidle.
  - split; [by apply NoDup_filter|]. split; [intros id Hid; apply list_elem_of_filter in Hid; right; apply Hid|].
    intros ns d' r Hin. destruct (Hup _ _ _ Hin) as (id & d & Hid & Hs & Hb). exists id.
    split; [by rewrite (Hk _ _ Hs), (built_name _ _ _ _ _ Hw Hb)|]. destruct Hb as ([->|Hi] & _).
    + split; [by left|]. rewrite list_elem_of_filter. tauto.
    + rewrite Hu in Hi. split; [done|]. rewrite list_elem_of_filter. tauto.
Qed.

Lemma rounds_update u ls u' i l ns d r :
  keeps_names -> Forall well_named ls -> NoDup (queue u) -> rounds u ls u' ->
  ls !! i = Some l -> UpdateDeployment ns d r ∈ l -> exists id, dep_name d = deploymentName id /\ id ∈ queue u /\ id ∉ queue u'.
Proof.
  intros Hk Hw Hnd Hr. revert i Hnd Hw. induction Hr as [u|u e errs e' l' u1 errs' ls u'' Hrun Hr IH]; intros i Hnd Hw Hi Hin; [done|].
  apply Forall_cons in Hw as [Hw1 Hw]. destruct (round_leaves _ _ _ _ _ _ _ Hk Hw1 Hnd Hrun) as (Hnd1 & Hsub & Hup).
  destruct i as [|i]; [|destruct (IH i Hnd1 Hw Hi Hin) as (id & Hn & Hq & Hq'); eauto].
  injection Hi as ->. destruct (Hup _ _ _ Hin) as (id & Hn & Hq & Hq'). exists id. do 2 (split; [done|]).
  intros Hid. apply Hq'. clear -Hk Hw Hnd1 Hr Hid.
  induction Hr as [u|u e errs e' l' u1 errs' ls u'' Hrun Hr IH]; [done|]. apply Forall_cons in Hw as [Hw1 Hw].
  destruct (round_leaves _ _ _ _ _ _ _ Hk Hw1 Hnd1 Hrun) as (Hnd & Hsub & _). auto.
Qed.

(** C9: an OSD is updated in at most one round: in rounds one after another, from a queue without
    duplicates, two rounds do not update the deployment of the same name, whatever happens in between,
    provided that in every round what is built for an OSD, or fetched by its name, is the deployment of this
    name, and that the annotation of the applied state keeps the name. *)
Theorem rollout_once u ls u' i j li lj ns ns' d d' r r' :
  keeps_names -> Forall well_named ls -> NoDup (queue u) -> rounds u ls u' ->
  ls !! i = Some li -> ls !! j = Some lj ->
  UpdateDeployment ns d r ∈ li -> UpdateDeployment ns' d' r' ∈ lj -> dep_name d = dep_name d' -> i = j.
Proof.
  intros Hk Hw Hnd Hr. revert i j Hnd Hw. induction Hr as [u|u e errs e' l u1 errs' ls u'' Hrun Hr IH];
    intros i j Hnd Hw Hi Hj Hin Hin' En; [done|].
  apply Forall_cons in Hw as [Hw1 Hw]. destruct (round_leaves _ _ _ _ _ _ _ Hk Hw1 Hnd Hrun) as (Hnd1 & Hsub & Hup).
  destruct i as [|i], j as [|j]; [done| | |f_equal; by eapply IH].
  - injection Hi as ->. destruct (Hup _ _ _ Hin) as (id & Hn & _ & Hq).
    destruct (rounds_update _ _ _ _ _ _ _ _ Hk Hw Hnd1 Hr Hj Hin') as (id' & Hn' & Hq' & _).
    exfalso. apply Hq. replace id with id'; [done|]. apply deploymentName_inj. congruence.
  - injection Hj as ->. destruct (Hup _ _ _ Hin') as (id & Hn & _ & Hq).
    destruct (rounds_update _ _ _ _ _ _ _ _ Hk Hw Hnd1 Hr Hi Hin) as (id' & Hn' & Hq' & _).
    exfalso. apply Hq. replace id with id'; [done|]. apply deploymentName_inj. congruence.
Qed.

(** A configuration of updates: no OSD is queued twice, every queued OSD has a deployment, and no
    more are queued than were at the start. *)
Definition well_formed (u : updateConfig) : Prop :=
  NoDup (queue u) /\ (forall id, id ∈ queue u -> id ∈ up_deployments u) /\ queue_Len (queue u) <= numUpdatesNeeded u.

Lemma prepared_well_formed l u :
  prepared c l u -> (forall deps, ListDeployments (namespace c) (AppAttr +:+ "=" +:+ AppName) (Ok deps) ∈ l -> NoDup (osd_ids deps)) ->
  well_formed u.
Proof.
  intros (deps & pending & Hl & Hup & Hq & Hn & _) Hd. split; [|split; [|lia]]; rewrite Hq.
  - by apply NoDup_filter, Hd.
  - intros id [_ Hid]%list_elem_of_filter. rewrite Hup. by apply elem_of_list_to_set.
Qed.

Lemma round_well_formed u e errs e' l u' errs' :
  well_formed u -> updateExistingOSDs c u errs (World e []) = (World e' l, Ok (u', errs')) -> well_formed u'.
Proof.
  intros (Hnd & Hex & Hlen) Hrun. destruct (yields_run _ _ _ e (updateExistingOSDs_yields c u errs)) as (_ & Hq & _).
  rewrite Hrun in Hq. destruct (Hq _ _ eq_refl) as (Hround & Hup & _ & Hnum). unfold well_formed, queue_Len in *. rewrite Hup, Hnum.
  destruct Hround as [[-> _]|(query & q & Hu & [[-> _]|(ids & -> & _)])]; [done| |].
  all: rewrite Hu in Hnd, Hex, Hlen; apply NoDup_cons in Hnd as [Hnin Hnd]; cbn [length] in Hlen.
  - split; [rewrite NoDup_app; set_solver by (by apply NoDup_singleton)|]. split; [set_solver|]. rewrite length_app. cbn. lia.
  - split; [by apply NoDup_filter|]. split; [intros id [_ Hid]%list_elem_of_filter; apply Hex; by right|].
    pose proof (length_filter (fun id => id ∉ ids) q). lia.
Qed.

(** C12: a configuration of updates that was prepared from deployments with different IDs is
    well-formed, and stays so in any number of rounds; so the progress it reports is always between
    zero and the number of updates that are needed. *)
Theorem progress_in_range e e' l u errs o ls u' :
  prepare_updates c (World e []) = (World e' l, Ok (u, errs, o)) ->
  (forall deps, ListDeployments (namespace c) (AppAttr +:+ "=" +:+ AppName) (Ok deps) ∈ l -> NoDup (osd_ids deps)) ->
  rounds u ls u' ->
  well_formed u' /\ 0 <= (update_progress u').1 <= (update_progress u').2.
Proof.
  intros Hp Hd Hr. assert (well_formed u') as Hwf.
  { pose proof (yields_run _ _ _ e (prepare_updates_yields (W := W) c)) as Hprep. rewrite Hp in Hprep.
    assert (well_formed u) as Hu by (eapply prepared_well_formed; [by eapply Hprep|done]). clear Hp Hprep.
    induction Hr; [done|]. eauto using round_well_formed. }
  split; [done|]. destruct Hwf as (_ & _ & Hlen). unfold update_progress, queue_Len in *. cbn [fst snd]. lia.
Qed.

End Once.


(** ** A site with three hosts *)

Record Site := {
  t_deps : list Deployment;
  t_maps : list LabelledMap;
  (** whether Ceph answers when it is asked what can be stopped *)
  t_stop : result string;
  (** the deployments with the label of the fence *)
  t_fenced : result (list Deployment);
}.

Definition with_deps (s : Site) (ds : list Deployment) : Site :=
  {| t_deps := ds; t_maps := t_maps s; t_stop := t_stop s; t_fenced := t_fenced s |}.

Definition find_named {A} (name : A -> string) (n : string) (l : list A) : result A :=
  match List.find (fun a => String.eqb (name a) n) l with Some a => Ok a | None => Err (APIStatus NotFound) end.

Definition replace_dep (d : Deployment) (l : list Deployment) : list Deployment :=
  (fun o => if String.eqb (dep_name o) (dep_name d) then d else o) <$> l.

(** The deployment of OSD [id] on host [host]. *)
Definition site_osd_of (class : string) (id : Z) (host : string) (labels annotations : gmap string string) : Deployment :=
  {| dep_namespace := "rook-ceph"; dep_name := deploymentName id;
     dep_labels := {[ OsdIdLabelKey := Itoa id ]} ∪ labels; dep_annotations := annotations;
     CreationTimestamp := 0; Replicas := Some 1; ProgressDeadlineSeconds := None;
     Template := {| tpl_annotations := ∅; NodeSelector := {[ Topology.DefaultLabelHostname := host ]};
                    Containers := [{| container_name := "osd";
                                      Env := [{| env_name := "ROOK_NODE_NAME"; env_value := host |};
                                              {| env_name := "ROOK_OSD_UUID"; env_value := "u" |};
                                              {| env_name := "ROOK_OSD_DEVICE_CLASS"; env_value := class |};
                                              {| env_name := "ROOK_BLOCK_PATH"; env_value := "/dev/sdb" |}];
                                      Args := ["--crush-location=root=default host=" +:+ host]; Command := [] |}];
                    InitContainers := [] |};
     ObservedGeneration := 1; UpdatedReplicas := 1; ReadyReplicas := 1; dep_conditions := [] |}.

Definition site_osd := site_osd_of "hdd".

Definition site_status (s : string) : OrchestrationStatus :=
  {| status_OSDs := [set_CVMode "raw" (set_ID 2 empty_info)]; status_Status := s; PvcBackedOSD := false; status_Message := "" |}.

#[export] Instance site_osd_env : OsdEnv Site := {
  osd_cmd := {|
    run_ceph args s := (s, match args with "osd" :: "ok-to-stop" :: id :: _ => match t_stop s with Ok _ => Ok id | Err err => Err err end
                                     | "osd" :: "crush" :: "get-device-class" :: _ => Ok "[]" | _ => Ok "" end);
    unmarshal_versions _ := None;
    unmarshal_tree _ := None;
    unmarshal_osds _ := Some [0; 1; 2];
    unmarshal_status _ := None;
    ctx_err s := (s, Ok None);
    wait_delay _ s := (s, Ok None);
    load_cluster_info s := (s, Ok (None, None));
    write_connection_config _ s := (s, Ok ()) |};
  json_dump _ := None;
  json_metadata _ := None;
  json_safe_to_destroy _ := None;
  json_ok_to_stop id := Some (if String.eqb id "1" then [1] else [0; 2]);
  json_device_classes s := if String.eqb s "[]" then Some [] else None;
  json_cephx _ := None;
  env_list_deployments _ selector s :=
    (s, if String.eqb selector (AppAttr +:+ "=" +:+ AppName +:+ "," +:+ SkipReconcileLabelKey) then t_fenced s else Ok (t_deps s));
  env_get_deployment _ name s := (s, find_named dep_name name (t_deps s));
  env_update_deployment _ d s := (with_deps s (replace_dep d (t_deps s)), Ok d);
  env_create_deployment _ d s := (with_deps s (t_deps s ++ [d]), Ok d);
  env_delete_deployment _ name s :=
    (with_deps s (filter (fun d => dep_name d <> name) (t_deps s)), Ok ());
  env_list_pods _ _ s := (s, Ok []);
  env_get_job _ _ s := (s, Err (APIStatus NotFound));
  env_create_job _ j s := (s, Ok j);
  env_delete_job _ _ s := (s, Ok ());
  env_get_node n s := (s, Ok {| Topology.node_name := n; Topology.node_labels := ∅ |});
  env_list_nodes _ s := (s, Ok []);
  env_now s := (s, Ok 0);
  env_sleep _ s := (s, Ok ());
  env_timed_out s := (s, Ok true);
  patch_is_empty _ _ := Ok false;
  set_last_applied d := Ok d;
}.

#[export] Instance site_env : RolloutEnv Site := {
  rollout_spec := {|
    spec_osd := site_osd_env;
    env_make_deployment props osd s := (s, Ok (site_osd (ID osd) (crushHostname props) ∅ ∅));
    env_update_condition _ s := (s, Ok ()) |};
  json_pgs _ := Some {| PgsByState := [{| StateName := "active+clean"; Count := 3 |}]; NumPgs := 3 |};
  json_rotated _ := None;
  json_orchestration s := if String.eqb s "" then None else Some (site_status s);
  compile_regexp _ := None;
  env_list_configmaps _ _ s := (s, Ok (t_maps s));
  env_get_configmap _ name s := (s, find_named map_name name (t_maps s));
  env_create_configmap _ m s := (s, Ok ());
  set_controller_reference _ := Ok ();
  env_update_configmap _ m s := (s, Ok ());
  env_delete_configmap _ name s := (s, Ok ());
  env_watch _ _ s := (s, Ok ());
  env_select s := (s, Ok UpdateTick);
  env_first s := (s, Ok O);
}.

Definition no_selection : Selection :=
  {| UseAllDevices := None; DeviceFilter := ""; DevicePathFilter := ""; selection_devices := []; VolumeClaimTemplates := [] |}.

Definition site_storage (confirmation : string) : StorageScopeSpec :=
  {| UseAllNodes := false;
     StorageNodes := (fun n => {| storage_node_name := n; node_config := None; node_selection := no_selection |}) <$> ["a"; "b"; "c"];
     scope_config := ∅; scope_selection := no_selection; StorageClassDeviceSets := []; StoreType := "bluestore";
     UpdateStore := confirmation; MigrationConfirmation := ""; OSDMaxUpdatesInParallel := 0; AllowDeviceClassUpdate := false |}.

Definition site (healthy skipChecks : bool) (confirmation : string) : RolloutCluster :=
  {| spec_cluster := {| base := {| namespace := "rook-ceph"; customHostnameLabel := ""; StorageConfig := None |};
                        Storage := site_storage confirmation; ValidStorage := site_storage confirmation;
                        deviceSets := []; MultiClusterService := false |};
     SkipUpgradeChecks := skipChecks; UpgradeOSDRequiresHealthyPGs := healthy;
     ContinueUpgradeAfterChecksEvenIfNotHealthy := false; PGHealthyRegex := "";
     CephXDaemon := {| KeyRotationPolicy := ""; cfg_KeyGeneration := 0; cfg_KeyType := "" |};
     clusterVersion := {| Major := 19; Minor := 2; Extra := 0; Version.Build := 0; CommitID := "" |};
     allowRotation := {[ "rook-ceph" := false ]} |}.

Definition site_deps : list Deployment :=
  [site_osd 0 "a" ∅ ∅; site_osd 1 "b" ∅ ∅; site_osd 2 "c" {[ osdStore := "bluestore-rdr" ]} ∅].

Definition site_with (fenced : result (list Deployment)) : Site :=
  {| t_deps := site_deps; t_maps := []; t_stop := Ok ""; t_fenced := fenced |}.

Definition site_start : Site := site_with (Ok []).

Definition site_queue : updateConfig := newUpdateConfig [0; 1; 2] (list_to_set [0; 1; 2]) ∅.

Definition round_log (c : RolloutCluster) (u : updateConfig) (s : Site) : list event :=
  log (updateExistingOSDs c u [] (World s [])).1.

(** *** Witnesses *)

Definition first_log : list event := round_log (site true false "") site_queue site_start.

Lemma update_is_checked_witness :
  update_needs (site true false "") site_queue (take 10 first_log)
    (UpdateDeployment "rook-ceph" (site_osd 0 "a" ∅ ∅) (Ok (site_osd 0 "a" ∅ ∅))).
Proof.
  apply (update_is_checked (site true false "") site_queue [] site_start (take 10 first_log) (drop 11 first_log)).
  vm_compute. reflexivity.
Defined.

Definition next_site (c : RolloutCluster) (u : updateConfig) (s : Site) : Site :=
  env (updateExistingOSDs c u [] (World s [])).1.

Definition next_queue (c : RolloutCluster) (u : updateConfig) (s : Site) : updateConfig :=
  match (updateExistingOSDs c u [] (World s [])).2 with Ok (u, _) => u | Err _ => u end.

Lemma rounds_run c u s ls u' :
  is_ok (updateExistingOSDs c u [] (World s [])).2 = true ->
  rounds c (next_queue c u s) ls u' -> rounds c u (round_log c u s :: ls) u'.
Proof.
  unfold next_queue, round_log. destruct (updateExistingOSDs c u [] (World s [])) as [[e l] [[u1 errs]|err]] eqn:E; [|done].
  intros _ Hr. by eapply rounds_step.
Qed.

Definition second_log : list event :=
  round_log (site true false "") (next_queue (site true false "") site_queue site_start)
    (next_site (site true false "") site_queue site_start).

Lemma site_rounds : exists u, rounds (site true false "") site_queue [first_log; second_log] u.
Proof.
  eexists. apply rounds_run; [vm_compute; reflexivity|]. apply rounds_run; [vm_compute; reflexivity|apply rounds_done].
Qed.

(** Two rounds that both update a deployment: no update of the second is of a name that the first updated. *)
Lemma rollout_once_witness :
  let a := site_osd 0 "a" ∅ ∅ in let b := site_osd 1 "b" ∅ ∅ in
  UpdateDeployment "rook-ceph" a (Ok a) ∈ first_log /\ UpdateDeployment "rook-ceph" b (Ok b) ∈ second_log /\
  forall ns ns' d d' r r',
    UpdateDeployment ns d r ∈ first_log -> UpdateDeployment ns' d' r' ∈ second_log -> dep_name d <> dep_name d'.
Proof.
  cbv zeta. split; [apply (list_elem_of_lookup_2 _ 10); vm_compute; reflexivity|].
  split; [apply (list_elem_of_lookup_2 _ 7); vm_compute; reflexivity|]. intros ns ns' d d' r r' Hd Hd' En.
  destruct site_rounds as [u Hu].
  enough (0 = 1)%nat by discriminate.
  refine (rollout_once (site true false "") site_queue [first_log; second_log] u 0 1 first_log second_log ns ns' d d' r r'
            _ _ _ Hu eq_refl eq_refl Hd Hd' En).
  - by intros x x' [= <-].
  - repeat constructor; vm_compute; reflexivity.
  - apply NoDup_ListNoDup. repeat constructor; cbn; lia.
Defined.

Definition status_map (node status : string) : LabelledMap :=
  {| map_name := statusConfigMapName node; map_labels := {[ nodeLabelKey := node ]};
     map_data := {[ orchestrationStatusKey := status ]} |}.

(** The prepare job of host [c] is awaited; the other two OSDs exist. *)
Definition site_progress : Progress :=
  {| creating := newCreateConfig {[ statusConfigMapName "c" ]} (list_to_set [0; 1]);
     updating := newUpdateConfig [] (list_to_set [0; 1]) ∅; errors := [] |}.

Definition provisioned (node status : string) : Site :=
  {| t_deps := [site_osd 0 "a" ∅ ∅; site_osd 1 "b" ∅ ∅]; t_maps := [status_map node status]; t_stop := Ok "";
     t_fenced := Ok [] |}.

Definition loop_log : list event :=
  log (updateAndCreateOSDsLoop (site true false "") 5 site_progress (World (provisioned "c" "completed") [])).1.


Definition loop_end : Progress :=
  match (updateAndCreateOSDsLoop (site true false "") 5 site_progress (World (provisioned "c" "completed") [])).2 with
  | Ok (Returned p _ _) => p
  | _ => site_progress
  end.

Lemma loop_finishes_witness :
  queue (updating loop_end) = [] /\ finishedStatusConfigMaps (creating loop_end) = {[ statusConfigMapName "c" ]}.
Proof.
  destruct (loop_finishes (site true false "") 5 site_progress (provisioned "c" "completed")
              (env (updateAndCreateOSDsLoop (site true false "") 5 site_progress (World (provisioned "c" "completed") [])).1)
              loop_log loop_end) as (Hq & _ & _ & Hf).
  - vm_compute. reflexivity.
  - reflexivity.
  - split; [exact Hq|]. apply Hf. intros name Hn. vm_compute in Hn. vm_compute. exact Hn.
Defined.

Definition migration_log : list event :=
  log (startOSDMigration (site true false OSDUpdateStoreConfirmation) ∅ (World site_start [])).1.

Lemma migration_is_checked_witness :
  migration_needs (site true false OSDUpdateStoreConfirmation) ∅ (take 3 migration_log)
    (DeleteDeployment "rook-ceph" "rook-ceph-osd-2" (Ok ())).
Proof.
  apply (migration_is_checked (site true false OSDUpdateStoreConfirmation) ∅ site_start (take 3 migration_log) (drop 4 migration_log)).
  vm_compute. reflexivity.
Defined.

Definition prepare_run := prepare_updates (site true false "") (World site_start []).

Lemma updates_are_prepared_witness :
  prepared (site true false "") (log prepare_run.1)
    (newUpdateConfig [0; 1; 2] (list_to_set [0; 1; 2]) ∅).
Proof.
  apply (updates_are_prepared (site true false "") site_start (env prepare_run.1) (log prepare_run.1) _ [] None).
  vm_compute. reflexivity.
Defined.

Lemma progress_in_range_witness :
  well_formed (newUpdateConfig [0; 1; 2] (list_to_set [0; 1; 2]) ∅) /\
  0 <= (update_progress (newUpdateConfig [0; 1; 2] (list_to_set [0; 1; 2]) ∅)).1 <= 3.
Proof.
  apply (progress_in_range (site true false "") site_start (env prepare_run.1) (log prepare_run.1)
           (newUpdateConfig [0; 1; 2] (list_to_set [0; 1; 2]) ∅) [] None []); [vm_compute; reflexivity| |apply rounds_done].
  intros deps Hin. assert (forallb (fun ev => match ev with ListDeployments _ _ (Ok ds) => bool_decide (NoDup (osd_ids ds)) | _ => true end)
    (log prepare_run.1) = true) as Hall by (vm_compute; reflexivity).
  rewrite forallb_forall in Hall. apply list_elem_of_In, Hall in Hin. by apply bool_decide_eq_true in Hin.
Defined.

Definition rollout_run (s : Site) :=
  select_loop (site true true "") 3 {| creating := newCreateConfig ∅ ∅; updating := site_queue; errors := [] |}
    {| prevCreatedCount := 0; prevUpdatedCount := 0; prevChangeTime := 0 |} (World s []).

Lemma rollout_terminates_witness : exists p, (rollout_run site_start).2 = Ok (Returned p false None) /\ queue (updating p) = [].
Proof.
  destruct (rollout_terminates (site true true "") 3 {| creating := newCreateConfig ∅ ∅; updating := site_queue; errors := [] |}
              {| prevCreatedCount := 0; prevUpdatedCount := 0; prevChangeTime := 0 |} site_start) as [Hr|[Hr _]].
  - by left.
  - done.
  - done.
  - reflexivity.
  - cbn. lia.
  - exact Hr.
  - vm_compute in Hr. discriminate Hr.
Defined.

(** A deployment without a device class, of an OSD for which Ceph knows none, ends the operator. *)
Example unknown_class_panics :
  (rollout_run {| t_deps := [site_osd_of "" 0 "a" ∅ ∅]; t_maps := []; t_stop := Ok ""; t_fenced := Ok [] |}).2 = Err index_panic.
Proof. vm_compute. reflexivity. Qed.

(** A prepare job that nobody awaits and that failed, such as one of an earlier reconcile, counts as
    finished: the loop ends although the prepare job of host [c] never reported. *)
Example stale_failure_ends_loop :
  exists p, (updateAndCreateOSDsLoop (site true false "") 5 site_progress (World (provisioned "b" "failed") [])).2 =
              Ok (Returned p false None) /\
            statusConfigMapName "c" ∉ finishedStatusConfigMaps (creating p) /\
            finishedStatusConfigMaps (creating p) = {[ statusConfigMapName "b" ]}.
Proof. eexists. split; [vm_compute; reflexivity|]. split; [vm_compute; intros Hin; discriminate Hin|vm_compute; reflexivity]. Qed.

(** The OSDs to skip when these can be listed, and when they cannot. *)
Definition fence (fenced : result (list Deployment)) : option updateConfig :=
  match (prepare_updates (site false true "") (World (site_with fenced) [])).2 with
  | Ok (u, _, _) => Some u
  | Err _ => None
  end.

Definition updated_names (l : list event) : list string :=
  omap (fun ev => match ev with UpdateDeployment _ d _ => Some (dep_name d) | _ => None end) l.

(** When the OSDs with the label of the fence cannot be listed, the error is only logged and they
    are updated like the others. *)
Example fence_lost :
  updated_names (round_log (site false true "")
    (default site_queue (fence (Ok [site_osd 0 "a" ∅ ∅]))) site_start) = [] /\
  updated_names (round_log (site false true "")
    (default site_queue (fence (Err (External "the server is busy")))) site_start) = ["rook-ceph-osd-0"].
Proof. split; vm_compute; reflexivity. Qed.


End RolloutSafety.
