(* ===== verification/DeviceSafety.v ===== *)
(** * DeviceSafety: which devices become OSDs, and which are wiped

    The theorems on the choice and the wiping of devices (file Devices): a device is chosen only if it
    is free and wanted, a device is wiped only if it carries an OSD of another cluster, and the output
    of lsblk is read back. *)

From stdpp Require Import base gmap strings list fin_maps.
From Stdlib Require Import ZArith Ascii.
From S2P Require Import Prelude CephVersion GoTime Topology Kube Disruption Upgrade Cephx OsdBase OsdSpec Devices OsdReplace OsdRollout Provision Prepare Remove NodeLab.
Import Log Version GoTime Kube Upgrade Cephx OsdBase OsdSpec Devices NodeLab.
Open Scope Z_scope.

Module DeviceSafety.

(** Run a program symbolically on its own calls, with a case for each answer. *)
Ltac trace :=
  repeat (first
    [ apply yields_bind | apply yields_wrapM | apply yields_try | apply yields_lift
    | apply yields_ret | apply yields_fail | apply yields_silent; intros [?|?]
    | apply yields_record; intros [?|?]; (split; [done|])
    | progress unfold unmarshal
    | case_match ]; cbn [wrap_err app]).

(** Any run at all. *)
Ltac some_calls :=
  repeat first
    [ progress intros
    | apply harmless_bind | apply harmless_try | apply harmless_wrapM
    | apply harmless_ret | apply harmless_fail | apply harmless_lift | apply harmless_silent
    | apply harmless_record
    | progress unfold unmarshal
    | done
    | case_match ].

(** ** What is known of a device that is free *)

(** The first bytes of the device do not name an OSD. *)
Definition no_osd (buffer : string) : Prop :=
  match read_line buffer with
  | Some (signature, rest) => signature = bluestoreSignature -> exists rest', read_line rest = Some ("", rest')
  | None => True
  end.

Section Free.
Context {W : Type} `{NodeEnv W} (a : OsdAgent).

Abbreviation any := (fun _ : event => True).

(** ceph-volume says that the device is available, or lists no OSD on the logical volume. *)
Definition said_available (path : string) (l : list event) : Prop :=
  (exists out, Exec ["ceph-volume"; "inventory"; "--format"; "json"; path] (Ok out) ∈ l /\ json_inventory (W := W) out = Some true) \/
  (exists lv out, Exec ["ceph-volume"; "lvm"; "list"; "--format"; "json"; lv] (Ok out) ∈ l /\ json_lvm_keys (W := W) out = Some []).

(** ceph-volume lists no OSD of this cluster on the claim. *)
Definition no_osd_listed (l : list event) : Prop :=
  exists cmd out infos, Exec cmd (Ok out) ∈ l /\ json_raw_list (W := W) out = Some infos /\
    Forall (fun i => block_fsid i <> FSID a \/ block_uuid i = "") infos.

(** No file system and no OSD; on a claim also a path of a multipath device. *)
Definition unused (d : LocalDisk) (l : list event) : Prop :=
  (Filesystem d = "" /\ exists buffer, ReadDevice (RealPath d) (Ok buffer) ∈ l /\ no_osd buffer) \/
  (Filesystem d = "mpath_member" /\ pvcBacked a = true).

Definition reported_free (d : LocalDisk) (l : list event) : Prop :=
  if pvcBacked a then no_osd_listed l else said_available (RealPath d) l.

(** The user asks for the device, by a filter on its name or on its paths, or by name. *)
Definition matches (d : LocalDisk) (dd : DesiredDevice) : Prop :=
  if IsFilter dd then is_volume d = false /\ regexp_match (W := W) (desired_Name dd) (disk_Name d) = Some true
  else if IsDevicePathFilter dd then
    is_volume d = false /\ exists p, p ∈ Fields (DevLinks d) ++ [dev_path (disk_Name d)] /\ regexp_match (W := W) (desired_Name dd) p = Some true
  else match_name a d dd = true.

Definition wanted (d : LocalDisk) : Prop :=
  (metadataDevice_ a <> "" /\ metadataDevice_ a = disk_Name d) \/
  (exists dd, agent_devices a = [dd] /\ desired_Name dd = "all" /\ is_volume d = false) \/
  (exists dd, dd ∈ agent_devices a /\ matches d dd).

(** ** The parts of the choice *)

Lemma match_paths_true pattern ps err :
  match_paths (W := W) pattern ps = (true, err) -> exists p, p ∈ ps /\ regexp_match (W := W) pattern p = Some true.
Proof.
  revert err. induction ps as [|p ps IH]; intros err; cbn [match_paths]; [done|].
  destruct (regexp_match pattern p) as [[]|] eqn:E; [intros _; exists p; split; [apply list_elem_of_here|done]|..];
    (destruct ps as [|q ps]; [done|]); intros (x & Hx & Hm)%IH; exists x; (split; [by apply list_elem_of_further|done]).
Qed.

Lemma match_desired_matches d err desired dd :
  match_desired (W := W) a d err desired = (false, Some dd) -> dd ∈ desired /\ matches d dd.
Proof.
  revert err. induction desired as [|x desired IH]; intros err; cbn [match_desired]; [done|].
  assert (forall err', match_desired a d err' desired = (false, Some dd) -> dd ∈ x :: desired /\ matches d dd) as Hnext.
  { intros err' (? & ?)%IH. split; [by apply list_elem_of_further|done]. }
  destruct (IsFilter x) eqn:Ef.
  - destruct (is_volume d) eqn:Ev; [apply Hnext|]. destruct (regexp_match _ _) as [[]|] eqn:Er; [|apply Hnext..].
    intros [= <-]. split; [apply list_elem_of_here|]. unfold matches. by rewrite Ef.
  - destruct (IsDevicePathFilter x) eqn:Ep.
    + destruct (is_volume d) eqn:Ev; [apply Hnext|]. destruct (match_paths _ _) as [[] err'] eqn:Em; [|apply Hnext].
      intros [= -> <-]. split; [apply list_elem_of_here|]. unfold matches. rewrite Ef, Ep. split; [done|]. by eapply match_paths_true.
    + destruct (match_name a d x) eqn:Em; [|apply Hnext]. intros [= -> <-]. split; [apply list_elem_of_here|]. unfold matches. by rewrite Ef, Ep.
Qed.

Lemma choose_entry_wanted d entry : choose_entry (W := W) a d = Some entry -> wanted d /\ DeviceInfo entry = d.
Proof.
  unfold choose_entry. destruct (negb _ && _) eqn:Em.
  - intros [= <-]. split; [left|done]. apply andb_true_iff in Em as [Hn Hm%String.eqb_eq].
    split; [|done]. intros E. by rewrite E in Hn.
  - destruct (useAllDevices _) eqn:Ea.
    + destruct (is_volume d) eqn:Ev; [done|]. intros [= <-]. split; [right; left|done].
      unfold useAllDevices in Ea. destruct (agent_devices a) as [|dd []]; [done| |done]. exists dd. by apply String.eqb_eq in Ea as ->.
    + destruct (match_desired _ _ _ _) as [[] [dd|]] eqn:Ed; try done. intros [= <-].
      apply match_desired_matches in Ed. split; [right; right; eauto|]. by repeat case_match.
Qed.

Lemma getOsdUUID_yields d :
  yields any (getOsdUUID (W := W) d)
    (fun r l => r = Ok "" -> exists buffer, ReadDevice (RealPath d) (Ok buffer) ∈ l /\ no_osd buffer).
Proof.
  unfold getOsdUUID. apply yields_bind, yields_record. intros [buffer|err]; (split; [done|]); [|done].
  assert (no_osd buffer -> exists b, ReadDevice (RealPath d) (Ok b) ∈ [ReadDevice (RealPath d) (Ok buffer)] ++ [] /\ no_osd b) as Hb.
  { intros Hn. exists buffer. split; [apply list_elem_of_here|done]. }
  unfold no_osd in Hb. destruct (read_line buffer) as [[signature rest]|]; [|by apply yields_ret; auto].
  destruct (String.eqb signature bluestoreSignature) eqn:Es; cbn [negb].
  - destruct (read_line rest) as [[uuid rest']|]; [|by apply yields_fail]. apply yields_ret. intros [= ->]. apply Hb. eauto.
  - apply yields_ret. intros _. apply Hb. intros ->. by rewrite String.eqb_refl in Es.
Qed.

Lemma CheckIfDeviceAvailable_yields path :
  yields any (CheckIfDeviceAvailable (W := W) path) (fun r l => r = Ok true -> said_available path l).
Proof.
  unfold CheckIfDeviceAvailable, IsLV, GetDevicePropertiesFromPath, exec. trace; try done.
  - unfold isLVAvailable, GetLVName, lvmList, exec. trace; try done. intros _. right. eexists _, _. split; [|done].
    do 3 apply list_elem_of_further. apply list_elem_of_here.
  - unfold isDeviceAvailable, inventoryDevice, exec. trace; try done. intros [= ->]. left. eexists. split; [|done].
    apply list_elem_of_further, list_elem_of_here.
Qed.

Lemma isCephEncryptedBlock_any disk : harmless any (isCephEncryptedBlock (W := W) a disk).
Proof. unfold isCephEncryptedBlock, dumpLUKS, exec. some_calls. Qed.

Lemma resolve_block_any block : harmless any (resolve_block (W := W) a block).
Proof.
  unfold resolve_block. destruct (String.eqb block ""); [some_calls|]. apply harmless_bind; [apply isCephEncryptedBlock_any|].
  intros b. unfold ListDevicesChild, RemoveEncryptedDevice, openEncryptedDevice, IsDeviceEncrypted, exec. some_calls.
Qed.

Lemma callCephVolume_any args : harmless any (callCephVolume (W := W) args).
Proof. unfold callCephVolume, exec. some_calls. Qed.

Lemma PopulateDeviceInfo_any d : harmless any (PopulateDeviceInfo (W := W) d).
Proof. unfold PopulateDeviceInfo, GetDeviceProperties, GetDevicePropertiesFromPath, GetDiskUUID, parseUUID, exec. some_calls. Qed.

Lemma PopulateDeviceUdevInfo_any n d : harmless any (PopulateDeviceUdevInfo (W := W) n d).
Proof. unfold PopulateDeviceUdevInfo, GetUdevInfo, exec. some_calls. Qed.

Lemma classify_any devices osd : harmless any (classify (W := W) devices osd).
Proof.
  unfold classify. apply harmless_bind; [apply harmless_wrapM, PopulateDeviceInfo_any|]. intros d. destruct devices; [some_calls|].
  apply harmless_bind; [apply harmless_try, PopulateDeviceUdevInfo_any|some_calls].
Qed.

Lemma close_encrypted_any b m w id : harmless any (close_encrypted (W := W) a b m w id).
Proof.
  unfold close_encrypted. apply harmless_bind; [apply isCephEncryptedBlock_any|].
  unfold setLUKSLabelAndSubsystem, close_if_any, CloseEncryptedDevice, exec. some_calls.
Qed.

(** A volume that is skipped is not one of an OSD of this cluster. *)
Lemma raw_osd_yields fromList b m w lvb skip devices info :
  yields any (raw_osd (W := W) a fromList b m w lvb skip devices info)
    (fun r _ => r = Ok None -> block_fsid info <> FSID a \/ block_uuid info = "").
Proof.
  unfold raw_osd. destruct (String.eqb (block_fsid info) (FSID a)) eqn:Ef; cbn [negb].
  2: { apply String.eqb_neq in Ef. by trace; auto. }
  destruct (String.eqb (block_uuid info) "") eqn:Eu; [apply String.eqb_eq in Eu; by trace; auto|].
  cbn zeta. apply yields_bind. eapply (yields_harmless _ _ (fun r l => _)).
  - destruct skip; [some_calls|apply classify_any].
  - intros [osd|err] l _; [|done]. apply yields_bind. eapply yields_harmless.
    + destruct (_ && _); [apply close_encrypted_any|some_calls].
    + intros [[]|err] l' _; [|done]. by apply yields_ret.
Qed.

Lemma raw_osds_yields fromList b m w lvb skip devices infos :
  yields any (raw_osds (W := W) a fromList b m w lvb skip devices infos)
    (fun r _ => r = Ok [] -> Forall (fun i => block_fsid i <> FSID a \/ block_uuid i = "") infos).
Proof.
  induction infos as [|i infos IH]; cbn [raw_osds]; [by apply yields_ret|].
  apply yields_bind. eapply yields_mono; [|apply raw_osd_yields]. intros [o|err] l _ Ho; [|done].
  apply yields_bind. eapply yields_mono; [|exact IH]. intros [osds|err] l' _ Hr; [|done].
  apply yields_ret. intros [= E]. destruct o; [done|]. cbn in E. subst. auto.
Qed.

Lemma GetCephVolumeRawOSDs_yields b m w lvb skip devices :
  yields any (GetCephVolumeRawOSDs (W := W) a b m w lvb skip devices) (fun r l => r = Ok [] -> no_osd_listed l).
Proof.
  unfold GetCephVolumeRawOSDs. apply yields_bind, yields_harmless; [apply resolve_block_any|]. intros [block|err] l _; [|done].
  apply yields_bind, yields_wrapM. unfold callCephVolume, exec. trace; try done;
    (eapply yields_mono; [|apply raw_osds_yields]); intros r l' _ Hr E; specialize (Hr E);
    (eexists _, _, _; split; [|split; [done|exact Hr]]); apply elem_of_app; right; apply list_elem_of_here.
Qed.

Lemma unformatted_yields d : yields any (unformatted (W := W) a d) (fun r l => r = Ok true -> unused d l).
Proof.
  unfold unformatted. destruct (String.eqb (Filesystem d) "") eqn:Ef; cbn [negb].
  - apply String.eqb_eq in Ef. apply yields_bind, yields_try. eapply yields_mono; [|apply getOsdUUID_yields].
    intros [uuid|err] l _ Hr; apply yields_ret; [|done]. intros [= E%String.eqb_eq]. subst. rewrite app_nil_r. left. auto.
  - destruct (_ && _) eqn:Eb.
    + apply yields_bind, yields_harmless; [apply isCephEncryptedBlock_any|]. intros [] l _; [by apply yields_ret|done].
    + apply yields_ret. intros [= [?%String.eqb_eq ?]%andb_true_iff]. by right.
Qed.

Lemma device_available_yields d :
  yields any (device_available (W := W) a d) (fun r l => r = Ok true -> reported_free d l).
Proof.
  unfold device_available, reported_free. destruct (pvcBacked a) eqn:Ep; apply yields_bind, yields_try.
  - eapply yields_mono; [|apply GetCephVolumeRawOSDs_yields]. intros [[|o os]|err] l _ Hr; apply yields_ret; try done.
    intros _. rewrite app_nil_r. auto.
  - eapply yields_mono; [|apply CheckIfDeviceAvailable_yields]. intros [b|err] l _ Hr; apply yields_ret; [|done].
    rewrite app_nil_r. intros [= ->]. auto.
Qed.

(** The device of an entry is the one that was looked at, for a partition with what udev knows. *)
Definition same_device (d d' : LocalDisk) : Prop := d' = d \/ (disk_Type d = PartType /\ exists info, d' = udev_disk info d).

(** Everything that is known of the device [d] of an entry. *)
Definition chosen (entry : DeviceOsdIDEntry) (d : LocalDisk) (l : list event) : Prop :=
  same_device d (DeviceInfo entry) /\ Mountpoint d = "" /\ unused d l /\ reported_free d l /\ wanted (DeviceInfo entry) /\
  ~ (disk_Type d = PartType /\ EncryptedDevice (storeConfig_ a) = true).

Lemma select_device_yields d :
  yields any (select_device (W := W) a d)
    (fun r l => forall d' o, r = Ok (d', o) -> same_device d d' /\ forall entry, o = Some entry -> chosen entry d l /\ DeviceInfo entry = d').
Proof.
  assert (same_device d d) as Hd by (by left).
  unfold select_device. destruct (String.eqb (Mountpoint d) "") eqn:Em; cbn [negb]; [|by apply yields_ret; intros ?? [= <- <-]].
  apply String.eqb_eq in Em. apply yields_bind. eapply yields_mono; [|apply unformatted_yields].
  intros [free|err] l _ Hf; [|done]. destruct free; cbn [negb]; [|by apply yields_ret; intros ?? [= <- <-]].
  specialize (Hf eq_refl). apply yields_bind.
  eapply (yields_mono _ _ (fun r l1 => exists r', r = Ok r' /\ forall d', r' = Ok d' -> same_device d d' /\ RealPath d' = RealPath d /\ disk_Type d' = disk_Type d)).
  2: { destruct (String.eqb (disk_Type d) PartType) eqn:Ep; [|apply yields_ret; eexists; split; [done|]; by intros d' [= <-]].
       apply String.eqb_eq in Ep. apply yields_try. unfold PopulateDeviceUdevInfo, GetUdevInfo, exec. trace; (eexists; split; [done|]); [|done].
       intros d' [= <-]. split; [right; split; [done|by eexists]|done]. }
  intros r l1 _ (r' & -> & Hd'). destruct r' as [d1|err]; [|by apply yields_ret; intros ?? [= <- <-]].
  destruct (Hd' d1 eq_refl) as (Hs & Hp & Ht). apply yields_bind. eapply yields_mono; [|apply device_available_yields].
  intros [b|err] l2 _ Hb; [|done]. destruct b; cbn [negb]; [|by apply yields_ret; intros ?? [= <- <-]]. specialize (Hb eq_refl).
  destruct (_ && _) eqn:Ee; [by apply yields_ret; intros ?? [= <- <-]|]. apply yields_ret. intros d' o [= <- <-]. split; [done|].
  intros entry [Hw Hi]%choose_entry_wanted. split; [|done]. unfold chosen. rewrite Hi. split_and!; try done.
  - destruct Hf as [(Hfs & b & Hb' & Hn)|?]; [left; split; [done|]; exists b; split; [|done]; rewrite !elem_of_app; auto|by right].
  - unfold reported_free in *. rewrite Hp in Hb. destruct (pvcBacked a).
    + destruct Hb as (c & o & i & Hin & Hrest). exists c, o, i. split; [|done]. rewrite !elem_of_app. auto.
    + destruct Hb as [(o & Hin & Ho)|(lv & o & Hin & Ho)]; [left; exists o|right; exists lv, o]; (split; [|done]); rewrite !elem_of_app; auto.
  - intros [Hpt He]. by rewrite Ht, Hpt, He in Ee.
Qed.


Lemma chosen_app entry d l1 l2 l3 : chosen entry d l2 -> chosen entry d (l1 ++ l2 ++ l3).
Proof.
  assert (forall ev, ev ∈ l2 -> ev ∈ l1 ++ l2 ++ l3) as Hin by (intros ev; rewrite !elem_of_app; auto).
  intros (Hs & Hm & Hu & Hr & Hw & He). split_and!; try done.
  - destruct Hu as [(? & b & ? & ?)|?]; [left; split; [done|]; exists b; auto|by right].
  - unfold reported_free in *. destruct (pvcBacked a).
    + destruct Hr as (c & o & i & ? & ?). exists c, o, i. auto.
    + destruct Hr as [(o & ? & ?)|(lv & o & ? & ?)]; [left; exists o|right; exists lv, o]; auto.
Qed.

Lemma select_devices_yields available devices :
  yields any (select_devices (W := W) a available devices)
    (fun r l => forall disks available', r = Ok (disks, available') ->
       Forall2 same_device devices disks /\
       forall n entry, available' !! n = Some entry ->
         available !! n = Some entry \/ (entry_name a (DeviceInfo entry) = Some n /\ exists d, d ∈ devices /\ chosen entry d l)).
Proof.
  revert available. induction devices as [|d devices IH]; intros available; cbn [select_devices].
  { apply yields_ret. intros disks av [= <- <-]. split; [constructor|auto]. }
  apply yields_bind. eapply yields_mono; [|apply select_device_yields]. intros [[d' o]|err] l _ Hd; [|done].
  destruct (Hd d' o eq_refl) as [Hs Ho]. apply yields_bind. eapply yields_mono; [|apply IH].
  intros [[disks av]|err] l' _ Hr; [|done]. apply yields_ret. intros disks' av' [= <- <-].
  destruct (Hr disks av eq_refl) as [Hf Hav]. split; [by constructor|]. intros n entry Hn.
  destruct (Hav n entry Hn) as [Hin|(He & x & Hx & Hc)].
  - unfold add_entry in Hin. destruct o as [e|]; [|by left]. destruct (entry_name a d') as [n'|] eqn:En; [|by left].
    destruct (decide (n' = n)) as [->|Hne]; [|rewrite lookup_insert_ne in Hin by done; by left].
    rewrite lookup_insert_eq in Hin. injection Hin as ->. destruct (Ho entry eq_refl) as [Hc Hi]. right. rewrite Hi. split; [done|].
    exists d. split; [apply list_elem_of_here|]. exact (chosen_app entry d [] l (l' ++ []) Hc).
  - right. split; [done|]. exists x. split; [by apply list_elem_of_further|]. exact (chosen_app entry x l l' [] Hc).
Qed.

(** C15: a device that is chosen for an OSD is one of the devices of the node (for a partition with
    what udev says about it), is kept under its own name, and is not mounted; it has no file system and
    its first bytes name no OSD, or on a claim it is a path of a multipath device; ceph-volume said
    that it is available, or listed no OSD of this cluster on it; the user asks for it, and it is not
    a partition that would have to be encrypted. *)
Theorem chosen_devices_are_free devices e e' l disks available n entry :
  getAvailableDevices (W := W) a devices (World e []) = (World e' l, Ok (disks, available)) ->
  available !! n = Some entry ->
  entry_name a (DeviceInfo entry) = Some n /\ exists d, d ∈ devices /\ chosen entry d l.
Proof.
  intros Hrun Hn. pose proof (yields_run _ _ _ e (select_devices_yields ∅ devices)) as Hy.
  unfold getAvailableDevices in Hrun. rewrite Hrun in Hy.
  destruct (Hy disks available eq_refl) as [_ Hav]. destruct (Hav n entry Hn) as [Hin|Hc]; [by rewrite lookup_empty in Hin|done].
Qed.

End Free.

(** ** Wiping *)

(** The commands that destroy what is on a device. *)
Definition wiping (path : string) : list (list string) :=
  [["stdbuf"; "-oL"; "ceph-volume"; "lvm"; "zap"; path]; ["umount"; path]; ["wipefs"; "--all"; path];
   ["ceph-bluestore-tool"; "zap-device"; "--dev"; path; "--yes-i-really-really-mean-it"];
   ["dd"; "if=/dev/zero"; "of=" +:+ path; "bs=1M"; "count=10"; "conv=fsync"]].

Section Wipe.
Context {W : Type} `{NodeEnv W} (a : OsdAgent) (devices : list LocalDisk).

Abbreviation any := (fun _ : event => True).

Definition raw_list : list string :=
  ["stdbuf"; "-oL"; "ceph-volume"; "--log-path"; cephVolumeTmpLogDir; "raw"; "list"; "--format"; "json"].

(** The device carries an OSD that is listed with another cluster, itself or below an opened mapping. *)
Definition foreign_osd (d : LocalDisk) (h : list event) : Prop :=
  exists out infos i dev, Exec raw_list (Ok out) ∈ h /\ json_raw_list (W := W) out = Some infos /\ i ∈ infos /\
    block_fsid i <> FSID a /\ is_disk dev d = true /\
    (dev = block_device i \/
     exists st, Exec ["cryptsetup"; "status"; block_device i; "-v"] (Ok st) ∈ h /\ find_backing (split_byte newline st) = Some dev).

(** Its LUKS header names another cluster. *)
Definition foreign_header (d : LocalDisk) (h : list event) : Prop :=
  Filesystem d = "crypto_LUKS" /\
  exists header fsid, Exec ["cryptsetup"; "luksDump"; disk_Name d] (Ok header) ∈ h /\ luks_fsid header = Some fsid /\ fsid <> FSID a.

Definition wipe_needs (h : list event) (ev : event) : Prop :=
  match ev with
  | Exec cmd _ => forall path, cmd ∈ wiping path -> exists d, d ∈ devices /\ RealPath d = path /\ (foreign_osd d h \/ foreign_header d h)
  | ReadDevice _ _ => True
  | _ => False
  end.

(** A command that wipes nothing. *)
Definition harmless_cmd (ev : event) : Prop := exists cmd r, ev = Exec cmd r /\ forall path, cmd ∉ wiping path.

Lemma harmless_cmd_needs ev h : harmless_cmd ev -> wipe_needs h ev.
Proof. intros (cmd & r & -> & Hn) path Hp. by apply Hn in Hp. Qed.

Lemma harmless_cmds_guarded h l : Forall harmless_cmd l -> guarded_from wipe_needs h l.
Proof. intros Hl. apply guarded_from_all. eapply Forall_impl; [exact Hl|]. intros ev Hev h'. by apply harmless_cmd_needs. Qed.

(** Decide whether a command is in a list of commands. *)
Ltac not_wiping := intros; unfold wiping; rewrite !elem_of_cons, elem_of_nil; naive_solver.

Ltac reading := eexists _, _; (split; [done|]); not_wiping.

Lemma wiping_inj path path' cmd : cmd ∈ wiping path -> cmd ∈ wiping path' -> path = path'.
Proof. unfold wiping. rewrite !elem_of_cons, !elem_of_nil. intros Hc Hc'. destruct_or!; simplify_eq; done. Qed.

(** Zapping a device that is foreign. *)
Lemma ZapDevice_guarded d h :
  d ∈ devices -> foreign_osd d h \/ foreign_header d h ->
  yields any (ZapDevice (W := W) (RealPath d)) (fun _ l => guarded_from wipe_needs h l).
Proof.
  intros Hd Hf.
  assert (forall l, foreign_osd d (h ++ l) \/ foreign_header d (h ++ l)) as Hl.
  { intros l. destruct Hf as [(out & infos & i & dev & Ho & Hj & Hi & Hn & Hk & Hb)|(Hfs & hd & fs & Hh & Hr)].
    - left. exists out, infos, i, dev. split_and!; try done; [apply elem_of_app; auto|]. destruct Hb as [?|(st & ? & ?)]; [by left|].
      right. exists st. split; [apply elem_of_app; auto|done].
    - right. split; [done|]. exists hd, fs. split; [apply elem_of_app; auto|done]. }
  assert (harmless (fun ev => exists cmd r, ev = Exec cmd r /\ cmd ∈ wiping (RealPath d)) (ZapDevice (W := W) (RealPath d))) as Hz.
  { unfold ZapDevice, unmountDevice, exec, wiping. some_calls; eexists _, _; (split; [done|]); rewrite !elem_of_cons; auto 10. }
  eapply yields_mono; [|eapply yields_weaken; [done|apply (yields_harmless _ _ (fun _ _ => True) Hz); done]].
  intros r l _ [Hw _] pre ev post ->. rewrite Forall_app, Forall_cons in Hw. destruct Hw as (_ & (cmd & r' & -> & Hc) & _).
  intros path Hp. rewrite <- (wiping_inj _ _ _ Hc Hp). exists d. auto.
Qed.

(** The devices as they are, with some file systems wiped. *)
Definition some_cleared (ds : list LocalDisk) : Prop := Forall2 (fun d0 d => d = d0 \/ d = set_Filesystem "" d0) devices ds.

Lemma some_cleared_refl : some_cleared devices.
Proof. apply Forall_Forall2_diag, Forall_forall. intros d _. by left. Qed.

Lemma some_cleared_clear ds i : some_cleared ds -> some_cleared (clear_filesystem ds i).
Proof.
  intros Hs. unfold clear_filesystem. apply Forall2_same_length_lookup. split; [rewrite length_alter; by eapply Forall2_length|].
  intros j d0 d H0 Hd. destruct (decide (i = j)) as [->|Hn].
  - rewrite list_lookup_alter_eq in Hd. destruct (ds !! j) as [d1|] eqn:E; [|done]. cbn in Hd. injection Hd as <-.
    right. destruct (Forall2_lookup_lr _ _ _ _ _ _ Hs H0 E) as [->| ->]; done.
  - rewrite list_lookup_alter_ne in Hd by done. exact (Forall2_lookup_lr _ _ _ _ _ _ Hs H0 Hd).
Qed.

Lemma some_cleared_lookup ds i d :
  some_cleared ds -> ds !! i = Some d -> exists d0, d0 ∈ devices /\ RealPath d0 = RealPath d /\ (d = d0 \/ d = set_Filesystem "" d0).
Proof.
  intros Hs Hd. destruct (Forall2_lookup_r _ _ _ _ _ Hs Hd) as (d0 & H0 & Hr). exists d0.
  split; [by eapply list_elem_of_lookup_2|]. split; [by destruct Hr; subst|done].
Qed.

(** Which device carries a listed OSD. *)
Lemma getOSDDiskToBeWiped_yields ds i :
  yields harmless_cmd (getOSDDiskToBeWiped (W := W) ds (block_device i))
    (fun r l => forall k b, r = Ok (Some k, b) -> exists d dev, ds !! k = Some d /\ is_disk dev d = true /\
       (dev = block_device i \/
        exists st, Exec ["cryptsetup"; "status"; block_device i; "-v"] (Ok st) ∈ l /\ find_backing (split_byte newline st) = Some dev)).
Proof.
  assert (forall dev k, fst <$> list_find (fun d => is_disk dev d = true) ds = Some k -> exists d, ds !! k = Some d /\ is_disk dev d = true) as Hfind.
  { intros dev k ([k' d] & (Hd & Hp & _)%list_find_Some & ->)%fmap_Some. by exists d. }
  unfold getOSDDiskToBeWiped. destruct (Contains (block_device i) "mapper").
  - apply yields_bind, yields_try. unfold GetBackingDeviceForEncryptedBlock, exec.
    apply yields_bind, yields_wrapM, yields_record. intros [st|err]; (split; [reading|]); cbn; [|by apply yields_ret].
    destruct (find_backing _) as [dev|] eqn:Eb; [|by apply yields_fail, yields_ret]. apply yields_ret, yields_ret. cbn.
    intros k b [= Hk _]. destruct (Hfind dev k Hk) as (d & Hd & Hp). exists d, dev. split; [done|]. split; [done|].
    right. exists st. split; [apply list_elem_of_here|done].
  - apply yields_ret. intros k b [= Hk _]. destruct (Hfind _ k Hk) as (d & Hd & Hp). exists d, (block_device i). auto.
Qed.

Lemma wipe_osd_guarded ds i out infos h :
  some_cleared ds -> Exec raw_list (Ok out) ∈ h -> json_raw_list (W := W) out = Some infos -> i ∈ infos ->
  yields any (wipe_osd (W := W) a ds i) (fun r l => guarded_from wipe_needs h l /\ forall ds', r = Ok ds' -> some_cleared ds').
Proof.
  intros Hs Ho Hj Hi. unfold wipe_osd. destruct (String.eqb (block_fsid i) (FSID a)) eqn:Ef.
  { apply yields_ret. split; [apply guarded_from_nil|]. by intros ds' [= <-]. }
  apply String.eqb_neq in Ef. apply yields_bind.
  eapply yields_mono; [|eapply yields_weaken; [done|apply getOSDDiskToBeWiped_yields]].
  intros [[k b]|err] l1 _ [Hl1 Hk]; [|by split; [apply harmless_cmds_guarded|]].
  destruct (k ≫= _) as [[k' d]|] eqn:Ek; [|apply yields_ret; rewrite app_nil_r; split; [by apply harmless_cmds_guarded|by intros ? [= <-]]].
  apply bind_Some in Ek as (k0 & -> & (d' & Hd & E)%fmap_Some). injection E as -> ->. rename k0 into k', d' into d.
  destruct (Hk k' b eq_refl) as (d1 & dev & Hd1 & Hp & Hsrc). rewrite Hd in Hd1. injection Hd1 as <-.
  destruct (some_cleared_lookup ds k' d Hs Hd) as (d0 & Hd0 & Hrp & Hcl).
  assert (is_disk dev d0 = true) as Hp0 by (by destruct Hcl; subst).
  apply yields_bind. eapply yields_mono; [|eapply (yields_weaken harmless_cmd); [done|apply (yields_harmless _ _ (fun r _ => True))]]; [| |done].
  2: { destruct (String.eqb b ""); unfold RemoveEncryptedDevice, exec; some_calls; reading. }
  intros [[[]|err]|err] l2 _ [Hl2 _]; cbn.
  2,3: try apply yields_ret; rewrite ?app_nil_r; (split; [apply harmless_cmds_guarded, Forall_app; done|by intros ? [= <-]]).
  apply yields_bind, yields_wrapM. rewrite <- Hrp.
  eapply yields_mono; [|apply (ZapDevice_guarded d0 (h ++ l1 ++ l2)); [done|left]].
  - intros r l3 _ Hg. assert (guarded_from wipe_needs h ((l1 ++ l2) ++ l3)) as Hall.
    { apply guarded_from_app; [apply harmless_cmds_guarded, Forall_app; done|done]. }
    rewrite <- (assoc_L (++)) in Hall. destruct r as [[]|err]; cbn; [apply yields_ret; rewrite app_nil_r|]; (split; [done|]); [|done].
    intros ds' [= <-]. by apply some_cleared_clear.
  - exists out, infos, i, dev. split_and!; try done; [apply elem_of_app; auto|]. destruct Hsrc as [?|(st & ? & ?)]; [by left|right].
    exists st. rewrite !elem_of_app. auto.
Qed.

Lemma wipe_osds_guarded ds l out infos h :
  some_cleared ds -> Exec raw_list (Ok out) ∈ h -> json_raw_list (W := W) out = Some infos -> (forall i, i ∈ l -> i ∈ infos) ->
  yields any (wipe_osds (W := W) a ds l) (fun _ l' => guarded_from wipe_needs h l').
Proof.
  revert ds h. induction l as [|i l IH]; intros ds h Hs Ho Hj Hl; cbn [wipe_osds]; [apply yields_ret, guarded_from_nil|].
  apply yields_bind. eapply yields_mono; [|apply (wipe_osd_guarded ds i out infos h); try done; apply Hl, list_elem_of_here].
  intros [ds'|err] l1 _ [Hg Hd]; [|done]. eapply yields_mono; [|apply (IH ds' (h ++ l1)); [by apply Hd|apply elem_of_app; auto|done|]].
  - intros r l2 _ Hg2. by apply guarded_from_app.
  - intros j Hj'. by apply Hl, list_elem_of_further.
Qed.

Lemma wipe_encrypted_guarded n i ds h :
  some_cleared ds -> yields any (wipe_encrypted (W := W) a n i ds) (fun _ l => guarded_from wipe_needs h l).
Proof.
  revert i ds h. induction n as [|n IH]; intros i ds h Hs; cbn [wipe_encrypted]; [apply yields_ret, guarded_from_nil|].
  destruct (ds !! i) as [d|] eqn:Ed; [|apply yields_ret, guarded_from_nil].
  destruct (String.eqb (Filesystem d) "crypto_LUKS") eqn:Ef; [apply String.eqb_eq in Ef|by apply IH].
  destruct (some_cleared_lookup ds i d Hs Ed) as (d0 & Hd0 & Hrp & Hcl).
  assert (d = d0) as -> by (destruct Hcl as [?|E]; [done|rewrite E in Ef; done]).
  apply yields_bind, yields_try. unfold dumpLUKS, exec. apply yields_wrapM, yields_record.
  assert (forall r, harmless_cmd (Exec ["cryptsetup"; "luksDump"; disk_Name d0] r)) as Hdump by (intros r; reading).
  intros [header|err]; (split; [done|]); cbn; [|apply yields_ret, harmless_cmds_guarded; by apply Forall_singleton].
  destruct (luks_fsid header) as [fsid|] eqn:El; [|apply yields_ret, harmless_cmds_guarded; by apply Forall_singleton].
  set (ev := Exec ["cryptsetup"; "luksDump"; disk_Name d0] (Ok header)).
  assert (guarded_from wipe_needs h [ev]) as Hev by (apply harmless_cmds_guarded, Forall_singleton, Hdump).
  destruct (String.eqb fsid (FSID a)) eqn:Efs.
  { eapply yields_mono; [|apply (IH (S i) ds (h ++ [ev]) Hs)]. intros r l _ Hg. exact (guarded_from_app _ h [ev] l Hev Hg). }
  apply String.eqb_neq in Efs. apply yields_bind, yields_wrapM. eapply yields_mono; [|apply (ZapDevice_guarded d0 (h ++ [ev])); [done|right]].
  - intros r l1 _ Hg1. pose proof (guarded_from_app _ h [ev] l1 Hev Hg1) as Hg.
    destruct r as [[]|err]; cbn; [|done]. eapply yields_mono; [|apply (IH (S i) (clear_filesystem ds i) (h ++ ev :: l1)); by apply some_cleared_clear].
    intros r l2 _ Hg2. exact (guarded_from_app _ h (ev :: l1) l2 Hg Hg2).
  - split; [done|]. exists header, fsid. split; [apply elem_of_app; right; apply list_elem_of_here|done].
Qed.

(** C16: before the devices are used, what is on a device is destroyed only if the device is one of
    this node and carries an OSD that ceph-volume lists with another cluster, itself or below an
    opened mapping, or has a LUKS header that names another cluster. *)
Theorem wipes_only_foreign e pre post ev :
  log (WipeDevicesFromOtherClusters (W := W) a devices (World e [])).1 = pre ++ ev :: post -> wipe_needs pre ev.
Proof.
  assert (yields any (WipeDevicesFromOtherClusters (W := W) a devices) (fun _ l => guarded_from wipe_needs [] l)) as Hy.
  { unfold WipeDevicesFromOtherClusters, callCephVolume, exec.
    assert (forall r, harmless_cmd (Exec raw_list r)) as Hraw by (intros r; reading).
    apply yields_bind, yields_wrapM, yields_bind, yields_wrapM, yields_silent. intros [[]|err]; cbn; [|apply guarded_from_nil].
    apply yields_wrapM, yields_record. intros [out|err]; (split; [done|]); cbn; [|apply harmless_cmds_guarded; by apply Forall_singleton].
    assert (guarded_from wipe_needs [] [Exec raw_list (Ok out)]) as Hg by (apply harmless_cmds_guarded; by apply Forall_singleton).
    apply yields_bind. unfold unmarshal. destruct (json_raw_list out) as [infos|] eqn:Ej; [apply yields_ret|by apply yields_fail]. cbn.
    eapply (yields_mono _ _ (fun _ l => guarded_from wipe_needs [Exec raw_list (Ok out)] l)).
    { intros r l _ Hl. exact (guarded_from_app _ [] [Exec raw_list (Ok out)] l Hg Hl). }
    destruct infos as [|i infos]; [apply yields_wrapM, wipe_encrypted_guarded, some_cleared_refl|].
    apply (wipe_osds_guarded _ _ out (i :: infos)); [apply some_cleared_refl|apply list_elem_of_here|done|done]. }
  intros E. pose proof (yields_run _ _ _ e Hy) as Hg. by apply (Hg pre ev post).
Qed.

End Wipe.

(** ** Reading lsblk *)

(** A line of [lsblk --pairs]. *)
Definition pair_text (kv : string * string) : string := kv.1 +:+ "=" +:+ String quote (kv.2 +:+ String quote "").

Definition plain (s : string) : bool := free_of " " s && free_of "=" s && free_of quote s.

Lemma remove_byte_app b s t : remove_byte b (s +:+ t) = remove_byte b s +:+ remove_byte b t.
Proof. induction s as [|c s IH]; cbn; [done|]. destruct (Ascii.eqb c b); cbn; by rewrite IH. Qed.

Lemma remove_byte_free b s : free_of b s = true -> remove_byte b s = s.
Proof.
  induction s as [|c s IH]; cbn; [done|]. intros [Hc Hs]%andb_true_iff. apply negb_true_iff in Hc. by rewrite Hc, IH.
Qed.

Lemma key_value_pair k v : plain k = true -> plain v = true -> key_value (pair_text (k, v)) = Some (k, v).
Proof.
  unfold plain. rewrite !andb_true_iff. intros [[_ Hk] _] [[_ Hv] Hq]. unfold key_value, pair_text. cbn [fst snd].
  change ("=" +:+ String quote (v +:+ String quote "")) with (String "=" (String quote (v +:+ String quote ""))).
  rewrite split_byte_app by done. rewrite (split_byte_free _ (String quote _)).
  2: { change (free_of "=" (v +:+ String quote "") = true). by rewrite free_of_app, Hv. }
  cbn. rewrite remove_byte_app, remove_byte_free by done. cbn. by rewrite app_string_nil_r.
Qed.

Lemma plain_pair k v : plain k = true -> plain v = true -> free_of " " (pair_text (k, v)) = true.
Proof.
  unfold plain. rewrite !andb_true_iff. intros [[Hk _] _] [[Hv _] _]. unfold pair_text. cbn [fst snd].
  rewrite free_of_app, Hk. change (free_of " " (v +:+ String quote "") = true). by rewrite free_of_app, Hv.
Qed.

Lemma insert_pairs kvs (m : gmap string string) :
  Forall (fun kv => plain kv.1 = true /\ plain kv.2 = true) kvs ->
  foldl (fun m s => match key_value s with Some (k, v) => <[k := v]> m | None => m end) m (pair_text <$> kvs) =
  foldl (fun m kv => <[kv.1 := kv.2]> m) m kvs.
Proof.
  intros Hp. revert m. induction Hp as [|[k v] kvs [Hk Hv] Hp IH]; intros m; [done|]. cbn [fmap list_fmap foldl].
  rewrite key_value_pair by done. apply IH.
Qed.

Lemma foldl_insert_pairs kvs (m : gmap string string) :
  NoDup kvs.*1 -> foldl (fun m kv => <[kv.1 := kv.2]> m) m kvs = list_to_map kvs ∪ m.
Proof.
  revert m. induction kvs as [|[k v] kvs IH]; intros m Hn; cbn; [by rewrite (left_id_L ∅ (∪))|].
  apply NoDup_cons in Hn as [Hk Hn]. rewrite IH by done. rewrite <- insert_union_l, <- insert_union_r; [done|].
  by apply not_elem_of_list_to_map_1.
Qed.

(** What [lsblk --pairs] prints for properties whose names and values have no space, equals sign or
    quote is read back as these properties. *)
Theorem parse_pairs_roundtrip kvs :
  kvs <> [] -> NoDup kvs.*1 -> Forall (fun kv => plain kv.1 = true /\ plain kv.2 = true) kvs ->
  parseKeyValuePairString (Join (pair_text <$> kvs) " ") = list_to_map kvs.
Proof.
  intros Hne Hn Hp. unfold parseKeyValuePairString. rewrite split_Join.
  - rewrite insert_pairs by done. rewrite foldl_insert_pairs by done. by rewrite (right_id_L ∅ (∪)).
  - by destruct kvs.
  - apply Forall_fmap. eapply Forall_impl; [exact Hp|]. intros [k v] [Hk Hv]. by apply plain_pair.
Qed.

Definition sda_props : list (string * string) := [("SIZE", "10"); ("TYPE", "disk"); ("MOUNTPOINT", "")].

Lemma parse_pairs_roundtrip_witness :
  parseKeyValuePairString (Join (pair_text <$> sda_props) " ") = list_to_map sda_props /\
  parseKeyValuePairString (Join (pair_text <$> sda_props) " ") !! "TYPE" = Some "disk".
Proof.
  rewrite (parse_pairs_roundtrip sda_props); [split; reflexivity|done|by apply (bool_decide_unpack _)|].
  by apply (bool_decide_unpack _).
Defined.

(** A value with an equals sign is lost: a device that is mounted on such a path looks unmounted. *)
Example mountpoint_lost :
  Mountpoint (disk_of "sda" "disk" "" (parseKeyValuePairString (pair_text ("MOUNTPOINT", "/mnt/a")))) = "a" /\
  Mountpoint (disk_of "sda" "disk" "" (parseKeyValuePairString (pair_text ("MOUNTPOINT", "/mnt/a=b")))) = "".
Proof. split; vm_compute; reflexivity. Qed.

(** ** Witnesses *)

Definition all_disks : OsdAgent := agent [desired "sd" true].

Definition sdc_entry : DeviceOsdIDEntry :=
  {| entry_Data := -1; entry_Metadata := None; entry_Config := with_device_class (desired "sd" true) "ssd"; PersistentDevicePaths := [];
     DeviceInfo := disk "sdc" "" "" false |}.

Definition choice_run : world Lab event * result (list LocalDisk * gmap string DeviceOsdIDEntry) :=
  getAvailableDevices all_disks disks (World lab []).

Lemma chosen_devices_are_free_witness :
  exists available, choice_run.2 = Ok (disks, available) /\ available !! "sdc" = Some sdc_entry /\
    exists d, d ∈ disks /\ chosen (W := Lab) all_disks sdc_entry d (log choice_run.1).
Proof.
  exists {["sdc" := sdc_entry]}. split; [vm_compute; reflexivity|]. split; [reflexivity|].
  refine (proj2 (chosen_devices_are_free (W := Lab) all_disks disks lab lab (log choice_run.1) disks {["sdc" := sdc_entry]} "sdc" sdc_entry _ _));
    vm_compute; reflexivity.
Defined.

Definition wipe_log : list event := log (WipeDevicesFromOtherClusters all_disks disks (World lab [])).1.

Lemma wipes_only_foreign_witness :
  wipe_log !! 3%nat = Some (Exec ["wipefs"; "--all"; "/dev/sdb"] (Ok "")) /\
  exists d, d ∈ disks /\ RealPath d = "/dev/sdb" /\
    (foreign_osd (W := Lab) all_disks d (take 3 wipe_log) \/ foreign_header all_disks d (take 3 wipe_log)).
Proof.
  split; [vm_compute; reflexivity|].
  apply (wipes_only_foreign (W := Lab) all_disks disks lab (take 3 wipe_log) (drop 4 wipe_log) (Exec ["wipefs"; "--all"; "/dev/sdb"] (Ok ""))).
  - vm_compute. reflexivity.
  - do 2 apply list_elem_of_further. apply list_elem_of_here.
Defined.

(** The search for encrypted disks of other clusters ends at the first disk whose header names no
    cluster: the disk after it is not wiped. *)
Definition headers (cmd : list string) : result string :=
  match cmd with
  | ["stdbuf"; _; _; _; _; "raw"; "list"; _; _] => Ok "no osds"
  | ["cryptsetup"; "luksDump"; "sdc"] => Ok "ceph_fsid=other"
  | ["cryptsetup"; "luksDump"; _] => Ok "no label"
  | _ => Ok ""
  end.

Definition encrypted_lab : Lab :=
  {| lab_exec := headers; lab_read _ := Ok ""; lab_ceph := ceph_answers; lab_deployments := []; lab_claims := [] |}.

Definition encrypted_log (disks : list LocalDisk) : list event :=
  log (WipeDevicesFromOtherClusters all_disks disks (World encrypted_lab [])).1.

Example foreign_disk_not_wiped :
  length (encrypted_log [disk "sdc" "crypto_LUKS" "" false; disk "sdb" "crypto_LUKS" "" false]) = 8%nat /\
  length (encrypted_log [disk "sdb" "crypto_LUKS" "" false; disk "sdc" "crypto_LUKS" "" false]) = 2%nat.
Proof. split; vm_compute; reflexivity. Qed.


End DeviceSafety.
