(* ===== verification/PrepareSafety.v ===== *)
(** * PrepareSafety: destroyed OSDs and blank devices, and what is prepared

    The theorems on the prepare job (files Provision and Prepare): the pairing of destroyed OSDs with
    blank devices, what the replacement prepares and leaves for new OSDs, and what a job reports. *)

From stdpp Require Import base gmap strings list fin_maps sorting.
From Stdlib Require Import ZArith Ascii.
From S2P Require Import Prelude CephVersion GoTime Topology Kube Disruption Upgrade Cephx OsdBase OsdSpec OsdReplace OsdRollout Devices Provision Prepare Remove NodeLab.
Import Log Version GoTime Kube Upgrade Cephx OsdBase OsdSpec OsdReplace OsdRollout Devices Provision Prepare NodeLab.
Open Scope Z_scope.

Module PrepareSafety.

(** ** Exchanging two elements *)

Section Swap.
Context {A : Type}.

Lemma insert_Permutation (l : list A) j x y : l !! j = Some y -> y :: <[j := x]> l ≡ₚ x :: l.
Proof.
  revert j. induction l as [|b l IH]; intros [|j] Hj; try done; cbn in *.
  - injection Hj as <-. apply Permutation_swap.
  - rewrite Permutation_swap, (IH j Hj). apply Permutation_swap.
Qed.

Lemma swap_Permutation i j (l : list A) : swap i j l ≡ₚ l.
Proof.
  unfold swap. revert i j. induction l as [|b l IH]; intros [|i] [|j]; try done; cbn.
  - destruct (l !! j) as [y|] eqn:E; [|done]. cbn. by apply insert_Permutation.
  - destruct (l !! i) as [x|] eqn:E; [|done]. cbn. by apply insert_Permutation.
  - specialize (IH i j). destruct (l !! i) as [x|], (l !! j) as [y|]; try done. cbn. by rewrite IH.
Qed.

Lemma swap_before i j k (l : list A) : (k < i)%nat -> (i <= j)%nat -> swap i j l !! k = l !! k.
Proof.
  intros Hi Hj. unfold swap. destruct (l !! i), (l !! j); try done. by rewrite !list_lookup_insert_ne by lia.
Qed.

Lemma swap_at i j (l : list A) x : (i <= j)%nat -> l !! j = Some x -> swap i j l !! i = Some x.
Proof.
  intros Hij Hj. unfold swap. assert (i < length l)%nat as Hi by (apply lookup_lt_Some in Hj; lia).
  destruct (lookup_lt_is_Some_2 l i Hi) as [y Hy]. rewrite Hy, Hj. rewrite list_lookup_insert_eq; [done|]. by rewrite length_insert.
Qed.

Lemma length_swap i j (l : list A) : length (swap i j l) = length l.
Proof. by rewrite swap_Permutation. Qed.

End Swap.

(** ** Pairing *)

Section Pairing.
Context (dc : Z -> string) (bc : string -> string).

Lemma find_blank_Some c j blank k :
  find_blank bc c j blank = Some k -> exists b, (j <= k)%nat /\ blank !! (k - j)%nat = Some b /\ isDeviceClassMatch c (bc b) = true.
Proof.
  revert j. induction blank as [|b blank IH]; intros j; cbn; [done|]. destruct (isDeviceClassMatch c (bc b)) eqn:E.
  - intros [= <-]. exists b. by rewrite Nat.sub_diag.
  - intros (b' & Hle & Hb & Hm)%IH. exists b'. split; [lia|]. replace (k - j)%nat with (S (k - S j)) by lia. done.
Qed.

Lemma find_blank_None c j blank : find_blank bc c j blank = None -> forall b, b ∈ blank -> isDeviceClassMatch c (bc b) = false.
Proof.
  revert j. induction blank as [|x blank IH]; intros j; cbn; [intros _ b Hb; by apply elem_of_nil in Hb|].
  destruct (isDeviceClassMatch c (bc x)) eqn:E; [done|]. intros Hn b [->|Hb]%elem_of_cons; [done|]. by eapply IH.
Qed.

Lemma find_pair_Some k i ids blank p q :
  find_pair dc bc k i ids blank = Some (p, q) ->
  exists id b, (i <= p)%nat /\ ids !! (p - i)%nat = Some id /\ (k <= q)%nat /\ blank !! (q - k)%nat = Some b /\
    isDeviceClassMatch (dc id) (bc b) = true.
Proof.
  revert i. induction ids as [|id ids IH]; intros i; cbn; [done|]. destruct (find_blank bc (dc id) k blank) as [j|] eqn:E.
  - intros [= <- <-]. apply find_blank_Some in E as (b & ? & ? & ?). exists id, b. by rewrite Nat.sub_diag.
  - intros (id' & b & ? & Hid & ?)%IH. exists id', b. split; [lia|]. replace (p - i)%nat with (S (p - S i)) by lia. done.
Qed.

Lemma find_pair_None k i ids blank :
  find_pair dc bc k i ids blank = None -> forall id b, id ∈ ids -> b ∈ blank -> isDeviceClassMatch (dc id) (bc b) = false.
Proof.
  revert i. induction ids as [|x ids IH]; intros i; cbn; [intros _ id b Hid; by apply elem_of_nil in Hid|].
  destruct (find_blank bc (dc x) k blank) eqn:E; [done|]. intros Hn id b [->|Hid]%elem_of_cons Hb; [by eapply find_blank_None|by eapply IH].
Qed.

(** The first [k] are pairs of the same class. *)
Definition paired (k : nat) (ids : list Z) (blank : list string) : Prop :=
  forall i id b, (i < k)%nat -> ids !! i = Some id -> blank !! i = Some b -> isDeviceClassMatch (dc id) (bc b) = true.

Lemma match_loop_spec rounds k ids blank :
  (k + rounds)%nat = Nat.min (length ids) (length blank) -> paired k ids blank ->
  let '(ids', blank') := match_loop dc bc rounds k ids blank in
  ids' ≡ₚ ids /\ blank' ≡ₚ blank /\
  exists n, (n <= Nat.min (length ids) (length blank))%nat /\ paired n ids' blank' /\
    forall id b, id ∈ drop n ids' -> b ∈ drop n blank' -> isDeviceClassMatch (dc id) (bc b) = false.
Proof.
  revert k ids blank. induction rounds as [|rounds IH]; intros k ids blank Hk Hp; cbn [match_loop].
  - split_and!; [done|done|]. exists k. split; [lia|]. split; [done|]. intros id b Hid Hb. exfalso.
    destruct (Nat.min_dec (length ids) (length blank)) as [E|E]; [rewrite drop_ge in Hid by lia|rewrite drop_ge in Hb by lia];
      by eapply elem_of_nil.
  - destruct (find_pair dc bc k k (drop k ids) (drop k blank)) as [[p q]|] eqn:Ef.
    + apply find_pair_Some in Ef as (id & b & Hp1 & Hid & Hq1 & Hb & Hm). rewrite lookup_drop in Hid. rewrite lookup_drop in Hb.
      replace (k + (p - k))%nat with p in Hid by lia. replace (k + (q - k))%nat with q in Hb by lia.
      specialize (IH (S k) (swap k p ids) (swap k q blank)). rewrite !length_swap in IH.
      destruct (match_loop dc bc rounds (S k) (swap k p ids) (swap k q blank)) as [ids' blank'].
      destruct IH as (Ha & Hb' & Hrest); [lia| |by rewrite Ha, Hb', !swap_Permutation].
      intros i id' b' Hi Hid' Hb'. destruct (decide (i = k)) as [->|Hne].
      * rewrite (swap_at k p ids id) in Hid' by done. rewrite (swap_at k q blank b) in Hb' by done. by simplify_eq.
      * rewrite swap_before in Hid' by lia. rewrite swap_before in Hb' by lia. eapply Hp; [|done..]. lia.
    + split_and!; [done|done|]. exists k. split; [lia|]. split; [done|]. intros id b Hid Hb. by eapply find_pair_None.
Qed.

Lemma match_pairs_spec ids blank ids' blank' :
  matchBlankAndDestroyedByDeviceClasses dc bc ids blank = (ids', blank') ->
  ids' ≡ₚ ids /\ blank' ≡ₚ blank /\
  exists n, (n <= Nat.min (length ids) (length blank))%nat /\ paired n ids' blank' /\
    forall id b, id ∈ drop n ids' -> b ∈ drop n blank' -> isDeviceClassMatch (dc id) (bc b) = false.
Proof.
  unfold matchBlankAndDestroyedByDeviceClasses. intros E.
  pose proof (match_loop_spec (Nat.min (length ids) (length blank)) 0 ids blank) as Hs. rewrite E in Hs.
  apply Hs; [lia|]. intros i id b Hi. lia.
Qed.

(** C18: the destroyed OSDs and the blank devices are only reordered; the first pairs have the same
    device class, and no OSD and device that are left over after them could still be paired, so as
    many OSDs as possible get a device of their class. *)
Theorem pairing_is_maximal ids blank ids' blank' :
  matchBlankAndDestroyedByDeviceClasses dc bc ids blank = (ids', blank') ->
  ids' ≡ₚ ids /\ blank' ≡ₚ blank /\
  exists n, (n <= Nat.min (length ids) (length blank))%nat /\ paired n ids' blank' /\
    forall id b, id ∈ drop n ids' -> b ∈ drop n blank' -> isDeviceClassMatch (dc id) (bc b) = false.
Proof. apply match_pairs_spec. Qed.

End Pairing.

(** ** The replacement of destroyed OSDs *)

(** A run of ceph-volume that prepares a device for a given OSD. *)
Definition is_prepare (ev : event) : bool :=
  match ev with
  | Exec (_ :: _ :: _ :: _ :: _ :: _ :: verb :: _) _ => String.eqb verb "prepare"
  | _ => false
  end.

Section Replacement.
Context {W : Type} `{ProvisionEnv W} `{ErrorText} (a : OsdAgent).

Abbreviation DeviceOsdMapping := (gmap string DeviceOsdIDEntry) (only parsing).

(** The command prepares the device of an entry for an OSD. *)
Definition prepares (id : Z) (entry : DeviceOsdIDEntry) (ev : event) : Prop :=
  exists dbLV useRaw r, ev = Exec ("stdbuf" :: buildReplacementPrepareArgs a id (dev_path (disk_Name (DeviceInfo entry))) dbLV entry
                                    useRaw cephVolumeTmpLogDir) r.

(** Every command that prepares a device does so for one of the pairs. *)
Definition for_pairs (available : DeviceOsdMapping) (pairs : list (Z * string)) (ev : event) : Prop :=
  is_prepare ev = true -> exists id n entry, (id, n) ∈ pairs /\ available !! n = Some entry /\ prepares id entry ev.

Ltac other_calls :=
  repeat first
    [ progress intros
    | apply harmless_bind | apply harmless_try | apply harmless_wrapM
    | apply harmless_ret | apply harmless_fail | apply harmless_lift | apply harmless_silent
    | apply harmless_record
    | progress unfold unmarshal
    | done
    | case_match ].

Abbreviation other := (fun ev => is_prepare ev = false).

Lemma cephVolumeLVMList_other id : harmless other (cephVolumeLVMList (W := W) id).
Proof. unfold cephVolumeLVMList, callCephVolume, exec. other_calls. Qed.

Lemma find_binary_other b paths : harmless other (find_binary (W := W) b ["--help"] paths).
Proof.
  induction paths as [|p paths IH]; cbn [find_binary]; [other_calls|]. unfold callNsEnter, exec.
  apply harmless_bind; [other_calls|]. intros [[]|err]; [other_calls|]. apply harmless_bind; [other_calls|].
  intros [[]|err']; [other_calls|done].
Qed.

Lemma lvmPreReq_other : harmless other (lvmPreReq (W := W)).
Proof.
  unfold lvmPreReq, checkIfBinaryExistsOnHost. apply harmless_bind; [apply harmless_wrapM, find_binary_other|].
  unfold UpdateLVMConfig. other_calls.
Qed.

Lemma provisionReplacedOSD_calls id entry :
  harmless (fun ev => is_prepare ev = true -> prepares id entry ev) (provisionReplacedOSD (W := W) a id entry).
Proof.
  assert (forall A (m : MW W A), harmless other m -> harmless (fun ev => is_prepare ev = true -> prepares id entry ev) m) as Hother.
  { intros A m Hm. eapply harmless_impl; [|exact Hm]. intros ev E1 E2. congruence. }
  unfold provisionReplacedOSD, recoverDBLVForOSDFromHost. cbn zeta. apply harmless_bind.
  { apply Hother, harmless_wrapM, harmless_bind; [apply cephVolumeLVMList_other|other_calls]. }
  intros dbLV. apply harmless_bind; [apply Hother; other_calls|]. intros _. apply harmless_bind.
  { apply Hother. destruct (_ && _); [other_calls|]. apply harmless_wrapM, lvmPreReq_other. }
  intros _. apply harmless_bind; [|other_calls]. apply harmless_wrapM, harmless_record. intros r _.
  by exists dbLV, (allowRawMode a && isSafeToUseRawMode entry && String.eqb dbLV ""), r.
Qed.

Lemma replace_osds_yields ids blank available :
  NoDup blank -> (forall b, b ∈ blank -> is_Some (available !! b)) ->
  yields (fun _ => True) (replace_osds (W := W) a ids blank available)
    (fun r l => r = Ok (foldl (fun m n => delete n m) available (zip ids blank).*2) /\ Forall (for_pairs available (zip ids blank)) l).
Proof.
  revert blank available. induction ids as [|id ids IH]; intros [|b blank] available Hn Hb; cbn [replace_osds zip zip_with];
    try (apply yields_ret; split; [done|constructor]).
  destruct (Hb b (list_elem_of_here b blank)) as [entry He]. rewrite He. apply NoDup_cons in Hn as [Hnb Hn].
  apply yields_bind, yields_try. eapply yields_mono; [|eapply yields_weaken; [done|apply (yields_harmless _ _ (fun _ _ => True)); [apply provisionReplacedOSD_calls|done]]].
  intros r l1 _ [Hl1 _]. eapply yields_mono; [|apply (IH blank (delete b available) Hn)].
  - intros r' l2 _ [-> Hl2]. split; [done|]. apply Forall_app. split.
    + eapply Forall_impl; [exact Hl1|]. intros ev Hev E. exists id, b, entry. split; [apply list_elem_of_here|]. auto.
    + eapply Forall_impl; [exact Hl2|]. intros ev Hev E. destruct (Hev E) as (id' & n & entry' & Hp & Hd & Hpr).
      apply lookup_delete_Some in Hd as [_ Hd]. exists id', n, entry'. split; [by apply list_elem_of_further|done].
  - intros b' Hb'. rewrite lookup_delete_ne; [apply Hb; by apply list_elem_of_further|]. by intros ->.
Qed.

Lemma availableDataDevices_elem available n :
  n ∈ availableDataDevices available <-> exists entry, available !! n = Some entry /\ is_blank_data entry = true.
Proof.
  unfold availableDataDevices. rewrite elem_of_sort_strings, list_elem_of_fmap. split.
  - intros ([n' entry] & -> & [Hl Hb]%elem_of_map_to_list%map_lookup_filter_Some). by exists entry.
  - intros (entry & Hl & Hb). exists (n, entry). split; [done|]. apply elem_of_map_to_list, map_lookup_filter_Some. done.
Qed.

Lemma availableDataDevices_NoDup available : NoDup (availableDataDevices available).
Proof. unfold availableDataDevices. rewrite sort_strings_Permutation. apply NoDup_fst_map_to_list. Qed.

(** The destroyed OSDs below the host of a location. *)
Definition destroyed_here (tree : OsdTree) (crushLocation : string) (ids : list Z) : Prop :=
  filterDestroyedOSDIdsForNode tree (GetDestroyedIDs tree) crushLocation = Ok ids.

Lemma zip_fst_sublist {A B} (l : list A) (k : list B) : (zip l k).*1 `sublist_of` l.
Proof. revert k. induction l as [|x l IH]; intros [|y k]; cbn; [done|done|apply sublist_nil_l|]. by apply sublist_skip. Qed.

Lemma zip_snd_sublist {A B} (l : list A) (k : list B) : (zip l k).*2 `sublist_of` k.
Proof. revert k. induction l as [|x l IH]; intros [|y k]; cbn; [done|apply sublist_nil_l|done|]. by apply sublist_skip. Qed.

(** What the replacement does, in terms of the pairs of OSDs and devices it makes. *)
Record replaced (available : DeviceOsdMapping) (crushLocation : string) (r : result DeviceOsdMapping) (l : list event)
    (pairs : list (Z * string)) : Prop := {
  replaced_calls : Forall (for_pairs available pairs) l;
  replaced_once : NoDup pairs.*2;
  replaced_blank : forall id n, (id, n) ∈ pairs -> exists entry, available !! n = Some entry /\ is_blank_data entry = true;
  replaced_rest : forall available', r = Ok available' ->
    available' = foldl (fun m n => delete n m) available pairs.*2 /\
    ((pairs = [] /\ (pvcBacked a = true \/ is_Some (migrateOSD a))) \/
     exists buf tree ids, Ceph ["osd"; "tree"] (Ok buf) ∈ l /\ unmarshal_tree (W := W) buf = Some tree /\
       destroyed_here tree crushLocation ids /\ pairs.*1 ⊆+ ids /\
       length pairs = Nat.min (length ids) (length (availableDataDevices available)));
}.

(** Nothing is prepared before the run fails. *)
Lemma replaced_nothing available loc err l : Forall other l -> replaced available loc (Err err) l [].
Proof.
  intros Hl. split; [|constructor|by intros ?? ?%elem_of_nil|done]. eapply Forall_impl; [exact Hl|]. intros ev E1 E2. congruence.
Qed.

Lemma createOSDBootstrapKeyring_other v : harmless other (createOSDBootstrapKeyring (W := W) v).
Proof. unfold createOSDBootstrapKeyring, CreateKeyring, AuthGetOrCreateKey, WriteKeyring. other_calls. Qed.

Lemma replace_devices_yields available loc ids tree buf classes l :
  Forall other l -> Ceph ["osd"; "tree"] (Ok buf) ∈ l -> unmarshal_tree (W := W) buf = Some tree -> destroyed_here tree loc ids ->
  yields (fun _ => True)
    (let blankDevices := availableDataDevices available in
     let blankDeviceClasses := getBlankDeviceClasses available blankDevices in
     let '(ids, blankDevices) :=
       matchBlankAndDestroyedByDeviceClasses classes (fun b => default "" (blankDeviceClasses !! b)) (sort_ints ids) blankDevices in
     replace_osds (W := W) a ids blankDevices available)
    (fun r l' => exists pairs, replaced available loc r (l ++ l') pairs).
Proof.
  intros Hl Hin Ht Hd. cbn zeta. destruct (matchBlankAndDestroyedByDeviceClasses _ _ _ _) as [ids' blank'] eqn:Em.
  apply match_pairs_spec in Em as (Hi & Hb & _).
  assert (NoDup blank') as Hn by (rewrite Hb; apply availableDataDevices_NoDup).
  assert (forall b, b ∈ blank' -> exists entry, available !! b = Some entry /\ is_blank_data entry = true) as Hblank
    by (intros b; rewrite Hb; apply availableDataDevices_elem).
  eapply yields_mono; [|apply (replace_osds_yields ids' blank' available Hn)].
  2: { intros b (entry & ? & _)%Hblank. by exists entry. }
  intros r l' _ [-> Hl']. exists (zip ids' blank'). split.
  - apply Forall_app. split; [|done]. eapply Forall_impl; [exact Hl|]. intros ev E1 E2. congruence.
  - eapply sublist_NoDup; [exact Hn|]. apply zip_snd_sublist.
  - intros id n Hp. apply Hblank. by eapply elem_of_zip_r.
  - intros available' [= <-]. split; [done|]. right. exists buf, tree, ids. split_and!; [apply elem_of_app; auto|done|done| |].
    + rewrite <- (merge_sort_Permutation Z.le ids). fold (sort_ints ids). rewrite <- Hi. apply sublist_submseteq, zip_fst_sublist.
    + rewrite length_zip_with, Hi, Hb. unfold sort_ints. by rewrite merge_sort_Permutation.
Qed.

Lemma preProvision_yields available loc :
  yields (fun _ => True) (preProvisionReplacedOSDs (W := W) a available loc) (fun r l => exists pairs, replaced available loc r l pairs).
Proof.
  unfold preProvisionReplacedOSDs. assert (pvcBacked a = true \/ is_Some (migrateOSD a) -> replaced available loc (Ok available) [] []) as Hskip.
  { intros Hs. split; [constructor|constructor|by intros ?? ?%elem_of_nil|]. intros av [= <-]. auto. }
  destruct (pvcBacked a); [apply yields_ret; eauto|]. destruct (migrateOSD a) as [osd|]; [apply yields_ret; exists []; apply Hskip; eauto|].
  clear Hskip. unfold HostTree. apply yields_bind, yields_wrapM, yields_bind, yields_wrapM, yields_record.
  intros [buf|err]; (split; [done|]); cbn; [|exists []; apply replaced_nothing; by repeat constructor].
  unfold unmarshal. destruct (unmarshal_tree buf) as [tree|] eqn:Et; [|apply yields_fail; exists []; apply replaced_nothing; by repeat constructor].
  apply yields_ret. cbn. apply yields_bind, yields_wrapM, yields_lift.
  destruct (filterDestroyedOSDIdsForNode tree (GetDestroyedIDs tree) loc) as [ids|] eqn:Ed; cbn; [|exists []; apply replaced_nothing; by repeat constructor].
  set (tr := Ceph ["osd"; "tree"] (Ok buf)).
  destruct ids as [|id ids].
  { apply yields_ret. exists []. split; [by repeat constructor|constructor|by intros ?? ?%elem_of_nil|]. intros av [= <-]. split; [done|].
    right. exists buf, tree, []. split_and!; [apply list_elem_of_here|done|done|done|done]. }
  apply yields_bind, yields_wrapM. eapply yields_mono; [|eapply (yields_weaken other); [done|apply (yields_harmless _ _ (fun _ _ => True)); [|done]]].
  2: { unfold getDestroyedOSDDeviceClasses, OSDDeviceClasses. other_calls. }
  intros r l1 _ [Hl1 _]. assert (Forall other (tr :: l1)) as Hl1' by (by constructor).
  destruct r as [classes|err]; cbn; [|exists []; by apply replaced_nothing].
  apply yields_bind, yields_wrapM. eapply yields_mono; [|eapply (yields_weaken other); [done|apply (yields_harmless _ _ (fun _ _ => True)); [apply createOSDBootstrapKeyring_other|done]]].
  intros r l2 _ [Hl2 _]. assert (Forall other (tr :: l1 ++ l2)) as Hl2' by (constructor; [done|by apply Forall_app; inversion Hl1']).
  destruct r as [[]|err]; cbn; [|exists []; by apply replaced_nothing].
  eapply yields_mono; [|apply (replace_devices_yields available loc (id :: ids) tree buf _ (tr :: l1 ++ l2)); [done|apply list_elem_of_here|done|done]].
  intros r l3 _ (pairs & Hr). exists pairs. cbn in Hr. by rewrite <- (assoc_L (++)) in Hr.
Qed.

(** C17: the replacement of destroyed OSDs pairs destroyed OSDs below this host with different blank
    devices that are available, as many pairs as possible; every run of ceph-volume that prepares a
    device is for one of the pairs and keeps the OSD's ID; and exactly the devices of the pairs are no
    longer available for new OSDs.  On a claim or during a migration nothing is paired or prepared. *)
Theorem replacement_is_confined available loc e e' l r :
  preProvisionReplacedOSDs (W := W) a available loc (World e []) = (World e' l, r) -> exists pairs, replaced available loc r l pairs.
Proof. intros Hrun. pose proof (yields_run _ _ _ e (preProvision_yields available loc)) as Hy. by rewrite Hrun in Hy. Qed.

End Replacement.

(** ** Witnesses *)

Definition demo_classes (id : Z) : string := if id =? 3 then "ssd" else "hdd".

Definition demo_blank (b : string) : string := if String.eqb b "sdc" then "ssd" else "nvme".

Lemma pairing_is_maximal_witness :
  matchBlankAndDestroyedByDeviceClasses demo_classes demo_blank [5; 3] ["sdb"; "sdc"] = ([3; 5], ["sdc"; "sdb"]) /\
  [3; 5] ≡ₚ [5; 3].
Proof.
  split; [vm_compute; reflexivity|].
  apply (proj1 (pairing_is_maximal demo_classes demo_blank [5; 3] ["sdb"; "sdc"] [3; 5] ["sdc"; "sdb"] ltac:(vm_compute; reflexivity))).
Defined.

Definition blank_entry (name : string) (rotational : bool) : DeviceOsdIDEntry :=
  {| entry_Data := -1; entry_Metadata := None; entry_Config := no_desired; PersistentDevicePaths := [];
     DeviceInfo := disk name "" "" rotational |}.

Definition demo_available : gmap string DeviceOsdIDEntry := {["sdb" := blank_entry "sdb" true; "sdc" := blank_entry "sdc" false]}.

Definition replacement_run : world Lab event * result (gmap string DeviceOsdIDEntry) :=
  preProvisionReplacedOSDs (agent []) demo_available "root=default host=a" (World lab []).

(** Both destroyed OSDs of host [a] are brought back, each on the disk of its class. *)
Lemma replacement_is_confined_witness :
  replacement_run.2 = Ok ∅ /\
  length (List.filter is_prepare (log replacement_run.1)) = 2%nat /\
  exists pairs, replaced (W := Lab) (agent []) demo_available "root=default host=a" replacement_run.2 (log replacement_run.1) pairs.
Proof.
  split; [vm_compute; reflexivity|]. split; [vm_compute; reflexivity|].
  apply (replacement_is_confined (W := Lab) (agent []) demo_available "root=default host=a" lab (env replacement_run.1)).
  reflexivity.
Defined.

(** The volume group that is released when the OSD of a claim ends is not the one that was activated:
    the name is lost, and the release is asked of no volume group. *)
Example release_without_name :
  log (StartOSD "bluestore" "3" "u" "/dev/vg/lv" true false [] (World lab [])).1 !! 0%nat =
    Some (Exec ["vgchange"; "-an"; "-vv"; "vg"] (Ok "")) /\
  last (log (StartOSD "bluestore" "3" "u" "/dev/vg/lv" true false [] (World lab [])).1) =
    Some (Exec ["lvchange"; "-an"; "-vv"; ""] (Ok "")).
Proof. split; vm_compute; reflexivity. Qed.

(** Without a volume group the OSD is not started, and no error is returned. *)
Example start_without_group :
  StartOSD "bluestore" "3" "u" "/dev/lv" true false [] (World lab []) = (World lab [], Ok ()).
Proof. vm_compute. reflexivity. Qed.

(** For an OSD with a database volume the path of the OSD is that of the volume listed last. *)
Example lvm_path_of_last_volume :
  BlockPath <$> lvm_osd "ours" "" "bluestore" false false "3"
    [{| info_path := "/dev/vg/block"; info_tags := {| tag_osd_fsid := "u"; tag_encrypted := "0"; tag_cluster_fsid := "ours"; tag_crush_device_class := "" |} |};
     {| info_path := "/dev/vg/db"; info_tags := {| tag_osd_fsid := "u"; tag_encrypted := "0"; tag_cluster_fsid := "ours"; tag_crush_device_class := "" |} |}]
  = Some "/dev/vg/db".
Proof. reflexivity. Qed.


End PrepareSafety.
