(* ===== verification/RemoveSafety.v ===== *)
(** * RemoveSafety: what is removed was checked

    The theorems on the removal of OSDs (file Remove): an OSD is purged, and what belongs to it is
    deleted, only after the checks; a forced removal needs one check; and what the removal of an OSD
    whose claims are kept sends to the API server. *)

From stdpp Require Import base gmap strings list fin_maps.
From Stdlib Require Import ZArith Ascii.
From S2P Require Import Prelude CephVersion GoTime Topology Kube Disruption Upgrade Cephx OsdBase OsdSpec OsdReplace OsdRollout OsdReplaceProofs Devices Provision Prepare Remove NodeLab.
Import Log Version GoTime Kube Upgrade Cephx OsdBase OsdSpec OsdReplace OsdRollout OsdReplaceProofs Devices Provision Prepare Remove NodeLab.
Open Scope Z_scope.

Module RemoveSafety.

Section Safety.
Context {W : Type} `{RemoveEnv W} (ns : string) (preservePVC force : bool).

(** The OSD is not up in the dump, was told to be out, and then Ceph said that it is safe to destroy,
    unless the removal is forced. *)
Definition cleared (id : Z) (h : list event) : Prop :=
  exists dbuf dump up inn out calls,
    [Ceph ["osd"; "dump"] (Ok dbuf)] ++ [Ceph (out_args id) out] ++ calls `sublist_of` h /\
    json_dump (W := W) dbuf = Some dump /\ StatusByID dump id = Ok (up, inn) /\ up <> 1 /\
    (force = true \/ exists safe, calls = [safe] /\ said_safe (W := W) id safe).

(** The deployment of OSD [id] was read, and it runs on the claim [pvc]. *)
Definition on_claim (id : Z) (pvc : string) (h : list event) : Prop :=
  exists d, GetDeployment ns ("rook-ceph-osd-" +:+ Itoa id) (Ok d) ∈ h /\ dep_labels d !! "ceph.rook.io/pvc" = Some pvc.

(** The job was listed for the claim of an OSD that is cleared. *)
Definition own_job (name : string) (h : list event) : Prop :=
  exists id pvc jobs, cleared id h /\ on_claim id pvc h /\ ListJobs ns ("ceph.rook.io/pvc=" +:+ pvc) (Ok jobs) ∈ h /\
    name ∈ job_name <$> jobs.

(** The device set and the index in it of a claim. *)
Definition set_selector (data : Claim) : string :=
  "ceph.rook.io/DeviceSet=" +:+ default "" (claim_labels data !! "ceph.rook.io/DeviceSet") +:+ "," +:+
  "ceph.rook.io/setIndex=" +:+ default "" (claim_labels data !! "ceph.rook.io/setIndex").

(** The claim was listed for the device set and the index in it that the claim of a cleared OSD has. *)
Definition own_claim (claim : Claim) (h : list event) : Prop :=
  exists id pvc data claims, cleared id h /\ on_claim id pvc h /\ GetClaim ns pvc (Ok data) ∈ h /\
    ListClaims ns (set_selector data) (Ok claims) ∈ h /\ claim ∈ claims.

(** What must have happened before an OSD is purged, its deployment or job deleted, or a claim deleted
    or changed. *)
Definition removal_needs (h : list event) (ev : event) : Prop :=
  match ev with
  | Ceph args _ => forall id, args = purge_args id -> cleared id h
  | DeleteDeployment n name _ => exists id, n = ns /\ name = "rook-ceph-osd-" +:+ Itoa id /\ cleared id h
  | DeleteJob n name _ => n = ns /\ own_job name h
  | DeleteClaim n name _ => n = ns /\ preservePVC = false /\ exists claim, claim_name claim = name /\ own_claim claim h
  | UpdateClaim n claim _ => n = ns /\ preservePVC = true /\ own_claim claim h
  | UpdateDeployment _ _ _ | CreateDeployment _ _ _ | CreateJob _ _ _ | Exec _ _ => False
  | _ => True
  end.

(** A call that needs nothing. *)
Definition free (ev : event) : Prop := forall h, removal_needs h ev.

Abbreviation triple := (triple (W := W) removal_needs).

(** *** What stays known *)

Lemma cleared_later id : lasting (cleared id).
Proof.
  intros h l (dbuf & dump & up & inn & out & calls & Hs & Hrest). exists dbuf, dump, up, inn, out, calls.
  split; [by apply happened_later|done].
Qed.

Lemma on_claim_later id pvc : lasting (on_claim id pvc).
Proof. intros h l (d & Hd & Hp). exists d. split; [by apply lasting_member|done]. Qed.

#[local] Hint Resolve cleared_later on_claim_later lasting_and lasting_member lasting_const : removal.

(** *** Calls that need nothing *)

(** A run of such calls. *)
Ltac calls :=
  repeat first
    [ progress intros
    | apply harmless_bind | apply harmless_try | apply harmless_wrapM
    | apply harmless_ret | apply harmless_fail | apply harmless_lift | apply harmless_silent
    | apply harmless_record
    | progress unfold unmarshal
    | case_match ].

Lemma free_ceph args r : (forall id, args <> purge_args id) -> free (Ceph args r).
Proof. intros Hn h id E. by apply Hn in E. Qed.

Lemma GetCrushHostName_free id : harmless free (GetCrushHostName (W := W) id).
Proof. unfold GetCrushHostName, FindOSDInCrushMap. calls. by apply free_ceph. Qed.

Lemma archiveCrash_free id : harmless free (archiveCrash (W := W) id).
Proof.
  unfold archiveCrash, GetCrash, GetCrashList. calls; try (by apply free_ceph).
  apply harmless_forM. unfold ArchiveCrash. calls. by apply free_ceph.
Qed.

(** *** What belongs to an OSD *)

(** A call whose answer is looked at, and only logged when it is an error. *)
Lemma logged_triple {A} (ev : result A -> event) (m : M W A) P :
  lasting P -> (forall r h, P h -> removal_needs h (ev r)) -> triple P (_ ← try_ (record ev m); mret ()) (fun _ => P).
Proof.
  intros HP Hn. eapply (triple_bind _ _ _ _ (fun _ => P)); [|intros a; by apply triple_ret|done].
  apply triple_try, triple_record. intros r h Hp. split; [by apply Hn|by apply HP].
Qed.

Lemma removeOSDPrepareJob_triple id pvc :
  triple (fun h => cleared id h /\ on_claim id pvc h) (removeOSDPrepareJob (W := W) ns pvc) (fun _ h => cleared id h /\ on_claim id pvc h).
Proof.
  set (P := fun h => cleared id h /\ on_claim id pvc h). assert (lasting P) as HP by (unfold P; auto with removal).
  unfold removeOSDPrepareJob.
  eapply (triple_bind _ _ _ _ (fun r h => P h /\ match r with Ok (Ok l) => ListJobs ns ("ceph.rook.io/pvc=" +:+ pvc) (Ok l) ∈ h | _ => True end)).
  - apply triple_try, triple_record. intros r h Hp. split; [done|]. split; [by apply HP|]. destruct r; [set_solver|done].
  - intros [jobs|err]; [|cbn; by apply triple_ret; intros h []].
    eapply triple_conseq; [apply (triple_forM _ _ _ (fun h => P h /\ ListJobs ns ("ceph.rook.io/pvc=" +:+ pvc) (Ok jobs) ∈ h))|done|by intros r h []].
    intros job Hin. eapply (triple_bind _ _ _ _ (fun _ h => P h /\ ListJobs ns ("ceph.rook.io/pvc=" +:+ pvc) (Ok jobs) ∈ h));
      [|intros a; by apply triple_ret|done].
    apply triple_try. unfold DeleteBatchJob. eapply (triple_bind _ _ _ _ (fun _ h => P h /\ ListJobs ns ("ceph.rook.io/pvc=" +:+ pvc) (Ok jobs) ∈ h)).
    + apply triple_try, triple_record. intros r h [[Hc Ho] Hl]. split; [|split; [by apply HP|by apply lasting_member]].
      split; [done|]. exists id, pvc, jobs. split_and!; [done..|]. by apply list_elem_of_fmap_2.
    + intros [[]|err]; [by apply triple_ret|]. destruct (IsNotFound err); [by apply triple_ret|by apply triple_fail].
    + done.
  - by intros err h [].
Qed.

Lemma removePVCs_triple id pvc :
  triple (fun h => cleared id h /\ on_claim id pvc h) (removePVCs (W := W) ns pvc preservePVC) (fun _ => cleared id).
Proof.
  unfold removePVCs.
  eapply (triple_bind _ _ _ _ (fun r h => cleared id h /\ match r with Ok (Ok data) => on_claim id pvc h /\ GetClaim ns pvc (Ok data) ∈ h | _ => True end)).
  { apply triple_try, triple_record. intros r h [Hc Ho]. split; [done|]. split; [by apply cleared_later|].
    destruct r as [data|]; [|done]. split; [by apply on_claim_later|set_solver]. }
  2: by intros err h [].
  intros [data|err]; [|apply triple_ret; by intros h []].
  set (F := fun claims h => cleared id h /\ forall claim, claim ∈ (claims : list Claim) -> own_claim claim h).
  assert (forall claims, lasting (F claims)) as HF.
  { intros claims h l [Hc Hcl]. split; [by apply cleared_later|]. intros claim Hin.
    destruct (Hcl claim Hin) as (i & p & d & cs & Hi & Hp & Hd & Hl & Hx). exists i, p, d, cs.
    split_and!; [by apply cleared_later|by apply on_claim_later|by apply lasting_member|by apply lasting_member|done]. }
  eapply (triple_bind _ _ _ _ (fun r h => cleared id h /\ match r with Ok (Ok claims) => F claims h | _ => True end)).
  - apply triple_try, triple_record. intros r h (Hc & Ho & Hd). split; [done|]. split; [by apply cleared_later|].
    destruct r as [claims|]; [|done]. split; [by apply cleared_later|]. intros claim Hin. exists id, pvc, data, claims.
    split_and!; [by apply cleared_later|by apply on_claim_later|by apply lasting_member|set_solver|done].
  - intros [claims|err]; [|apply triple_ret; by intros h []].
    eapply triple_conseq; [apply (triple_forM _ _ _ (F claims))|by intros h []|by intros r h []].
    intros claim Hin. unfold detach_claim, update_claim, delete_claim. destruct preservePVC eqn:E.
    + apply logged_triple; [done|]. intros r h [_ Ho]. by split_and!; [..|apply Ho].
    + apply logged_triple; [done|]. intros r h [_ Ho]. split_and!; [done..|]. exists claim. by split; [|apply Ho].
  - by intros err h [].
Qed.

Lemma remove_objects_triple id : triple (cleared id) (remove_objects (W := W) ns id preservePVC) (fun _ => cleared id).
Proof.
  unfold remove_objects.
  eapply (triple_bind _ _ _ _ (fun r h => cleared id h /\
            match r with Ok (Ok d) => GetDeployment ns ("rook-ceph-osd-" +:+ Itoa id) (Ok d) ∈ h | _ => True end)).
  { apply triple_try, triple_record. intros r h Hc. split; [done|]. split; [by apply cleared_later|]. destruct r; [set_solver|done]. }
  2: by intros err h [].
  intros [d|err]; [|apply triple_ret; by intros h []].
  set (P := fun h => cleared id h /\ GetDeployment ns ("rook-ceph-osd-" +:+ Itoa id) (Ok d) ∈ h).
  assert (lasting P) as HP by (unfold P; auto with removal).
  eapply (triple_bind _ _ _ _ (fun _ => P)); [| |by intros err h []].
  - apply triple_try. unfold DeleteDeployment_, deleteResourceAndWait. eapply (triple_bind _ _ _ _ (fun _ => P)); [| |done].
    + apply triple_try, triple_record. intros r h Hp. split; [|by apply HP]. exists id. split_and!; [done|done|apply Hp].
    + intros [[]|err]; [|by apply triple_free; [calls|]]. apply triple_free; [|done]. eapply harmless_impl; [|apply wait_deleted_gets].
      intros ev (r & ->). by intros h.
  - intros _. destruct (dep_labels d !! OSDOverPVCLabelKey) as [pvc|] eqn:El; [|apply triple_ret; by intros h []].
    eapply triple_bind; [eapply triple_conseq; [apply (removeOSDPrepareJob_triple id pvc)| |done]|intros []; apply removePVCs_triple|by intros err h []].
    intros h [Hc Hd]. split; [done|]. by exists d.
Qed.

(** *** Removing an OSD *)

(** The dump that was read does not have the OSD up. *)
Definition down (id : Z) (h : list event) : Prop :=
  exists dbuf dump up inn, [Ceph ["osd"; "dump"] (Ok dbuf)] `sublist_of` h /\
    json_dump (W := W) dbuf = Some dump /\ StatusByID dump id = Ok (up, inn) /\ up <> 1.

(** And then the OSD was told to be out. *)
Definition told_out (id : Z) (h : list event) : Prop :=
  exists dbuf dump up inn out, [Ceph ["osd"; "dump"] (Ok dbuf)] ++ [Ceph (out_args id) out] `sublist_of` h /\
    json_dump (W := W) dbuf = Some dump /\ StatusByID dump id = Ok (up, inn) /\ up <> 1.

Lemma told_out_later id : lasting (told_out id).
Proof. intros h l (dbuf & dump & up & inn & out & Hs & Hr). exists dbuf, dump, up, inn, out. split; [by apply happened_later|done]. Qed.

(** The loop ends only when the removal is forced or the OSD is safe to destroy. *)
Lemma wait_safe_yields fuel id :
  yields free (wait_safe (W := W) fuel id force)
    (fun r l => (exists b, r = Ok b) /\ (r = Ok true -> force = true \/ exists pre safe, l = pre ++ [safe] /\ said_safe (W := W) id safe)).
Proof.
  induction fuel as [|fuel IH]; cbn [wait_safe]; [by apply yields_ret; split; [eauto|]|].
  assert (forall d l, yields free (_ ← try_ (sleep d); wait_safe fuel id force)
    (fun r' l' => (exists b, r' = Ok b) /\ (r' = Ok true -> force = true \/ exists pre safe, l ++ l' = pre ++ [safe] /\ said_safe (W := W) id safe)))
    as Hagain.
  { intros d l. apply yields_bind, yields_try, yields_silent. intros _. eapply yields_mono; [|exact IH]. intros r l' _ [Hr Hs].
    split; [done|]. intros E. destruct (Hs E) as [?|(pre & safe & -> & ?)]; [by left|].
    right. exists (l ++ pre), safe. split; [by rewrite <- (assoc_L (++))|done]. }
  apply yields_bind, yields_try. unfold OsdSafeToDestroy. apply yields_bind, yields_wrapM, yields_record. intros [buf|err].
  2: { split; [by apply free_ceph|]. cbn. destruct force; [apply yields_ret; split; [eauto|by left]|apply (Hagain _ [_])]. }
  split; [by apply free_ceph|]. cbn. apply yields_bind. unfold unmarshal.
  destruct (json_safe_to_destroy buf) as [output|] eqn:Ej; [|apply yields_fail; cbn; destruct force; [apply yields_ret; split; [eauto|by left]|apply (Hagain _ [_])]].
  apply yields_ret, yields_ret. cbn. destruct output as [|x output]; cbn; [destruct force; [apply yields_ret; split; [eauto|by left]|apply (Hagain _ [_])]|].
  destruct (x =? id) eqn:Ex; cbn; [|destruct force; [apply yields_ret; split; [eauto|by left]|apply (Hagain _ [_])]].
  apply Z.eqb_eq in Ex as ->. apply yields_ret. split; [eauto|]. intros _. right.
  exists [], (Ceph (safe_args id) (Ok buf)). split; [done|]. by exists buf, output.
Qed.

Lemma wait_safe_triple fuel id :
  triple (told_out id) (wait_safe (W := W) fuel id force) (fun r h => forall b, r = Ok b -> b = true -> cleared id h).
Proof.
  eapply triple_conseq; [apply (triple_yields _ _ (told_out id)), wait_safe_yields|done|].
  intros r h' (h & l & -> & (dbuf & dump & up & inn & out & Hs & Hr) & _ & Hsafe) b -> ->. exists dbuf, dump, up, inn, out.
  destruct (Hsafe eq_refl) as [Hf|(pre & safe & -> & Hsd)]; [exists []|exists [safe]]; (split; [|split_and!; [apply Hr..|]]).
  - rewrite app_nil_r. by apply happened_later.
  - by left.
  - rewrite (assoc_L (++)). apply sublist_app; [done|]. by apply sublist_inserts_l.
  - right. by exists safe.
Qed.

Lemma down_later id : lasting (down id).
Proof. intros h l (dbuf & dump & up & inn & Hs & Hr). exists dbuf, dump, up, inn. split; [by apply happened_later|done]. Qed.

Lemma removeOSD_triple fuel id P :
  lasting P -> (forall h, P h -> down id h) -> triple P (removeOSD (W := W) ns fuel id preservePVC force) (fun _ => P).
Proof.
  intros HP Hd. unfold removeOSD. eapply (triple_bind _ _ _ _ (fun _ => P)).
  { apply triple_try, triple_free; [apply GetCrushHostName_free|done]. }
  2: done.
  intros host. eapply (triple_bind _ _ _ _ (fun _ h => P h /\ told_out id h)); [| |by intros err h []].
  { apply triple_try, triple_record. intros out h Hp. split; [by apply free_ceph|]. split; [by apply HP|].
    destruct (Hd h Hp) as (dbuf & dump & up & inn & Hs & Hr). exists dbuf, dump, up, inn, out. split; [|done]. by apply happened_snoc. }
  intros _. eapply (triple_bind _ _ _ _ (fun r h => P h /\ forall b, r = Ok b -> b = true -> cleared id h)); [| |by intros err h []].
  { apply triple_frame; [done|apply wait_safe_triple]. }
  intros safe. destruct safe; cbn [negb]; [|apply triple_ret; by intros h []].
  set (C := fun h => P h /\ cleared id h). assert (lasting C) as HC by (unfold C; auto with removal).
  eapply (triple_bind _ _ _ _ (fun _ => C)); [| |by intros err h []].
  { eapply triple_conseq; [apply (triple_frame _ _ _ _ _ HP (remove_objects_triple id))|intros h [Hp Hc]; by split; [|eapply Hc]|done]. }
  intros []. eapply (triple_bind _ _ _ _ (fun _ => C)); [| |by intros err h []].
  { apply triple_try, triple_record. intros r h Hc. split; [|by apply HC]. intros id' E. injection E as E%Itoa_injective. subst id'. apply Hc. }
  intros _. eapply triple_conseq; [apply (triple_free _ _ C); [|done]|done|by intros r h []].
  apply harmless_bind; [apply harmless_try, harmless_record; intros r; by apply free_ceph|intros _].
  apply harmless_bind; [apply archiveCrash_free|calls].
Qed.

Lemma remove_osds_triple fuel dbuf dump l :
  json_dump (W := W) dbuf = Some dump ->
  triple (fun h => Ceph ["osd"; "dump"] (Ok dbuf) ∈ h) (remove_osds (W := W) ns fuel dump preservePVC force l)
    (fun _ h => Ceph ["osd"; "dump"] (Ok dbuf) ∈ h).
Proof.
  intros Hd. induction l as [|s l IH]; cbn [remove_osds]; [by apply triple_ret|].
  destruct (Atoi s) as [id|]; [|apply IH].
  eapply (triple_bind _ _ _ _ (fun r h => Ceph ["osd"; "dump"] (Ok dbuf) ∈ h /\ forall x, r = Ok x -> StatusByID dump id = Ok x)); [| |by intros err h []].
  { apply triple_wrapM, triple_lift. intros h Hh. split; [done|]. by destruct (StatusByID dump id). }
  intros [up inn]. destruct (Z.eqb_spec up 1) as [Eup|Eup]; [eapply triple_conseq; [apply IH|by intros h []|done]|].
  eapply (triple_bind _ _ _ _ (fun _ h => Ceph ["osd"; "dump"] (Ok dbuf) ∈ h /\ forall x, Ok (up, inn) = Ok x -> StatusByID dump id = Ok x)); [| |by intros err h []].
  { apply removeOSD_triple; [auto with removal|]. intros h [Hin Hst]. exists dbuf, dump, up, inn.
    split_and!; [by apply singleton_sublist_l|done|by apply Hst|done]. }
  intros [|]; [eapply triple_conseq; [apply IH|by intros h []|done]|apply triple_ret; by intros h []].
Qed.

Lemma RemoveOSDs_triple fuel osds : triple (fun _ => True) (RemoveOSDs (W := W) ns fuel osds preservePVC force) (fun _ _ => True).
Proof.
  unfold RemoveOSDs, GetOSDDump. eapply (triple_bind _ _ _ _ (fun _ _ => True)); [|intros []|done].
  { apply triple_free; [calls|by apply lasting_const]. }
  eapply (triple_bind _ _ _ _ (fun r h => forall dump, r = Ok dump -> exists dbuf, Ceph ["osd"; "dump"] (Ok dbuf) ∈ h /\ json_dump (W := W) dbuf = Some dump)).
  - apply triple_wrapM. eapply (triple_bind _ _ _ _ (fun r h => forall dbuf, r = Ok dbuf -> Ceph ["osd"; "dump"] (Ok dbuf) ∈ h)); [| |by intros err h _ x [=]].
    + apply triple_wrapM, triple_record. intros r h _. split; [by apply free_ceph|]. destruct r; cbn; intros ? [= <-]. set_solver.
    + intros dbuf. unfold unmarshal. destruct (json_dump dbuf) as [dump|] eqn:Ed; [apply triple_ret|by apply triple_fail].
      intros h Hh ? [= <-]. exists dbuf. split; [by apply Hh|done].
  - intros dump h Hg Hh. destruct (Hh dump eq_refl) as (dbuf & Hin & Hj). eapply logs_mono; [|by apply (remove_osds_triple fuel dbuf dump osds Hj)].
    by intros r h' (Hg' & Hp & _).
  - done.
Qed.

(** C19: an OSD is purged only if Ceph's dump did not have it up, it was told to be out, and then Ceph
    said that it is safe to destroy or the removal is forced.  Only then is its own deployment deleted; a
    job is deleted only if it was listed for the claim on which the deployment of such an OSD runs; and a
    claim is deleted, or sent back when claims are to be kept, only if it was listed with the device set
    and the index in the set of the claim on which such a deployment runs.  Nothing else is changed in
    Kubernetes, and no command is run on a node. *)
Theorem removal_is_checked fuel osds e pre post ev :
  log (RemoveOSDs (W := W) ns fuel osds preservePVC force (World e [])).1 = pre ++ ev :: post -> removal_needs pre ev.
Proof. intros E. destruct (triple_run _ _ _ _ e (RemoveOSDs_triple fuel osds) I) as [Hg _]. by eapply Hg. Qed.

End Safety.

(** ** Witnesses *)

Definition claimed_osd : Deployment :=
  {| dep_namespace := "rook-ceph"; dep_name := "rook-ceph-osd-3"; dep_labels := {["ceph.rook.io/pvc" := "set-data-0"]};
     dep_annotations := ∅; CreationTimestamp := 0; Replicas := Some 1; ProgressDeadlineSeconds := None;
     Template := {| tpl_annotations := ∅; NodeSelector := ∅; Containers := []; InitContainers := [] |};
     ObservedGeneration := 1; UpdatedReplicas := 1; ReadyReplicas := 1; dep_conditions := [] |}.

Definition data_claim : Claim := {| claim_name := "set-data-0"; claim_labels := {["ceph.rook.io/DeviceSetPVCId" := "set-data-0"; "ceph.rook.io/DeviceSet" := "set"; "ceph.rook.io/setIndex" := "0"]} |}.

Definition claim_lab : Lab :=
  {| lab_exec := answers; lab_read _ := Ok ""; lab_ceph := ceph_answers; lab_deployments := [claimed_osd]; lab_claims := [data_claim] |}.

Definition removal_log : list event := log (RemoveOSDs "rook-ceph" 1 ["3"; "4"; "x"] false false (World claim_lab [])).1.

(** The claim of an OSD that is removed is deleted. *)
Lemma removal_is_checked_witness :
  removal_log !! 10%nat = Some (DeleteClaim "rook-ceph" "set-data-0" (Ok ())) /\
  exists claim, claim_name claim = "set-data-0" /\ own_claim (W := Lab) "rook-ceph" false claim (take 10 removal_log).
Proof.
  split; [vm_compute; reflexivity|].
  apply (removal_is_checked (W := Lab) "rook-ceph" false false 1 ["3"; "4"; "x"] claim_lab (take 10 removal_log) (drop 11 removal_log)
           (DeleteClaim "rook-ceph" "set-data-0" (Ok ()))). vm_compute. reflexivity.
Defined.

(** A claim that is kept is sent back as it is, with the label that makes it a claim of Rook's. *)
Example kept_claim_not_detached :
  exists n, log (removeOSD "rook-ceph" 1 3 true false (World claim_lab [])).1 !! n = Some (UpdateClaim "rook-ceph" data_claim (Ok ())) /\
    claim_labels data_claim !! CephDeviceSetPVCIDLabelKey = Some "set-data-0".
Proof. exists 9%nat. split; vm_compute; reflexivity. Qed.

(** The removal of the host from the CRUSH map is asked for even when the host is not known. *)
Definition no_host_lab : Lab :=
  {| lab_exec := answers; lab_read _ := Ok "";
     lab_ceph args := match args with "osd" :: "find" :: _ => Err (External "timeout") | _ => ceph_answers args end;
     lab_deployments := []; lab_claims := [] |}.

Example unnamed_host_removed :
  Ceph ["osd"; "crush"; "rm"; ""] (Ok "") ∈ log (removeOSD "rook-ceph" 1 3 true false (World no_host_lab [])).1.
Proof. apply (list_elem_of_lookup_2 _ 5). vm_compute. reflexivity. Qed.


End RemoveSafety.
