(* ===== verification/KeySafety.v ===== *)
(** * KeySafety: no rotation of keys locks an encrypted OSD out

    The theorems on file KeyRotation: at every moment of a rotation the stored secret opens every
    device, what a successful rotation leaves behind, that two tries to add a key are enough, and that
    a rotation can be run again after it failed or was killed anywhere.  A small program logic on the
    recorded views carries the proofs; at the end a concrete cryptsetup with planned failures meets
    the laws. *)

From stdpp Require Import base gmap strings list fin_maps.
From Stdlib Require Import ZArith Ascii.
From S2P Require Import Prelude KeyRotation.
Import Log KeyRotation.
Open Scope Z_scope.

Module KeySafety.

(** ** Reasoning about every moment of a run *)

Section Hoare.
Context {W : Type} `{KeyEnv W} (I : View -> Prop).

(** From a state with [P], every recorded view satisfies [I] and the result and the last view [Q]. *)
Definition hoare {A} (P : View -> Prop) (m : M (world W View) A) (Q : result A -> View -> Prop) : Prop :=
  forall e h, P (view e) -> Forall I h ->
    Forall I (log (m (World e h)).1) /\ Q (m (World e h)).2 (view (env (m (World e h)).1)).

Lemma hoare_ret {A} (P : View -> Prop) (a : A) (Q : result A -> View -> Prop) :
  (forall v, P v -> Q (Ok a) v) -> hoare P (mret a) Q.
Proof. intros HQ e h HP HI. exact (conj HI (HQ _ HP)). Qed.

Lemma hoare_fail {A} (P : View -> Prop) err (Q : result A -> View -> Prop) :
  (forall v, P v -> Q (Err err) v) -> hoare P (fail err) Q.
Proof. intros HQ e h HP HI. exact (conj HI (HQ _ HP)). Qed.

Lemma hoare_bind {A B} P (R : A -> View -> Prop) (m : M (world W View) A) (k : A -> M (world W View) B) (Q : result B -> View -> Prop) :
  hoare P m (fun r v => match r with Ok a => R a v | Err err => Q (Err err) v end) ->
  (forall a, hoare (R a) (k a) Q) -> hoare P (m ≫= k) Q.
Proof.
  intros Hm Hk e h HP HI. specialize (Hm e h HP HI). unfold mbind, M_bind.
  destruct (m (World e h)) as [[e' h'] [a|err]]; cbn in *; [|exact Hm]. apply Hk; apply Hm.
Qed.

Lemma hoare_try {A} P (m : M (world W View) A) (Q : result (result A) -> View -> Prop) :
  hoare P m (fun r v => Q (Ok r) v) -> hoare P (try_ m) Q.
Proof. intros Hm e h HP HI. specialize (Hm e h HP HI). unfold try_. by destruct (m (World e h)). Qed.

Lemma hoare_wrapM {A} P (m : M (world W View) A) fmt args (Q : result A -> View -> Prop) :
  hoare P m (fun r v => Q (wrap_err r fmt args) v) -> hoare P (wrapM m fmt args) Q.
Proof. intros Hm e h HP HI. specialize (Hm e h HP HI). unfold wrapM. by destruct (m (World e h)). Qed.

Lemma hoare_conseq {A} (P P' : View -> Prop) (m : M (world W View) A) (Q Q' : result A -> View -> Prop) :
  (forall v, P' v -> P v) -> (forall r v, Q r v -> Q' r v) -> hoare P m Q -> hoare P' m Q'.
Proof. intros HP HQ Hm e h HP' HI. destruct (Hm e h (HP _ HP') HI). auto. Qed.

Lemma hoare_traced {A} (P : View -> Prop) (m : M W A) (Q : result A -> View -> Prop) :
  (forall e, P (view e) -> I (view (m e).1) /\ Q (m e).2 (view (m e).1)) -> hoare P (traced m) Q.
Proof.
  intros Hm e h HP HI. destruct (Hm e HP) as [Hi Hq]. unfold traced. cbn. destruct (m e) as [e' r]. cbn in *.
  split; [|done]. apply Forall_app. by repeat constructor.
Qed.

(** The view at the start may be fixed. *)
Lemma hoare_at {A} (P : View -> Prop) (m : M (world W View) A) (Q : result A -> View -> Prop) :
  (forall v, P v -> hoare (eq v) m Q) -> hoare P m Q.
Proof. intros Hm e h HP HI. by apply (Hm (view e)). Qed.

(** A loop with a fact about the devices that are done. *)
Lemma hoare_forM (J : list string -> View -> Prop) (f : string -> M (world W View) unit) l :
  (forall pre d post, l = pre ++ d :: post ->
     hoare (J pre) (f d) (fun r v => match r with Ok _ => J (pre ++ [d]) v | Err _ => True end)) ->
  hoare (J []) (forM_ l f) (fun r v => match r with Ok _ => J l v | Err _ => True end).
Proof.
  intros Hf. cut (forall post pre, l = pre ++ post ->
    hoare (J pre) (forM_ post f) (fun r v => match r with Ok _ => J l v | Err _ => True end)).
  { intros Hc. by apply (Hc l []). }
  induction post as [|d post IH]; intros pre E; cbn [forM_].
  - rewrite app_nil_r in E. subst. by apply hoare_ret.
  - apply (hoare_bind _ (fun _ => J (pre ++ [d]))); [by apply Hf with post|].
    intros _. apply IH. by rewrite <- (assoc_L (++)).
Qed.

End Hoare.

(** ** The slots of a device *)

(** Some slot of the device takes the passphrase. *)
Definition unlocks (v : View) (key disk : string) : Prop := exists s, slots_of v disk !! s = Some key.

(** The two views differ at most in the slots 0 and 1 of the given devices. *)
Definition only (disks : list string) (v v' : View) : Prop :=
  (forall d s, d ∉ disks \/ (s <> slotZero /\ s <> slotOne) -> slots_of v' d !! s = slots_of v d !! s) /\
  (forall n, secret_of v' n = secret_of v n).

Lemma slots_of_set v d m d' : slots_of (set_slots v d m) d' = if decide (d' = d) then m else slots_of v d'.
Proof. unfold slots_of, set_slots. cbn. case_decide; subst; [by rewrite lookup_insert_eq|by rewrite lookup_insert_ne]. Qed.

Lemma secret_of_set_slots v d m n : secret_of (set_slots v d m) n = secret_of v n.
Proof. done. Qed.

Lemma secret_of_set v n k n' : secret_of (set_secret v n k) n' = if decide (n' = n) then k else secret_of v n'.
Proof. unfold secret_of, set_secret. cbn. case_decide; subst; [by rewrite lookup_insert_eq|by rewrite lookup_insert_ne]. Qed.

Lemma slots_of_set_secret v n k d : slots_of (set_secret v n k) d = slots_of v d.
Proof. done. Qed.

Section Specs.
Context {W : Type} `{KeyLaws W} (I : View -> Prop).

Abbreviation hoareI := (hoare (W := W) I).

Lemma temp_file_spec (P : View -> Prop) s : (forall v, P v -> I v) -> hoareI P (temp_file s) (fun _ => P).
Proof. intros HI. apply hoare_traced. intros e HP. rewrite law_temp_file. auto. Qed.

(** A command: it succeeds and does its work, or is refused, or fails with or without its work done. *)
Lemma luks_spec (P : View -> Prop) cmd (Q : result unit -> View -> Prop) :
  (forall v, P v -> I v /\
     (forall err, Q (Err err) v \/ (says_refused cmd (luks_text (W := W) err) = true /\
                                    (refused cmd (luks_text (W := W) err) v -> Q (Err err) v)))) ->
  (forall v, P v -> luks_ok cmd v -> I (luks_do cmd v) /\ Q (Ok ()) (luks_do cmd v) /\
     (forall err, says_refused cmd (luks_text (W := W) err) = false -> Q (Err err) (luks_do cmd v))) ->
  hoareI P (traced (env_luks cmd)) Q.
Proof.
  intros Hsame Hdone. apply hoare_traced. intros e HP. destruct (Hsame _ HP) as [HI Herr].
  pose proof (law_luks_ok cmd e) as Hok. pose proof (law_luks cmd e) as Hl. pose proof (law_luks_refused cmd e) as Hr.
  destruct (env_luks cmd e) as [e' [[]|err]]; cbn in *.
  - destruct (Hok eq_refl) as [Ha ->]. destruct (Hdone _ HP Ha) as (? & ? & _). done.
  - specialize (Hr err eq_refl). destruct (says_refused cmd (luks_text err)) eqn:Es.
    + destruct (Hr eq_refl) as [Hrf ->]. split; [done|]. destruct (Herr err) as [?|[_ ?]]; auto.
    + assert (Q (Err err) (view e)) as Hq by (destruct (Herr err) as [?|[? _]]; [done|congruence]).
      destruct Hl as [->|[Ha ->]]; [done|]. destruct (Hdone _ HP Ha) as (? & _ & ?). auto.
Qed.

End Specs.

Lemma change_same v d k s : luks_ok (luksChangeKey k s d k) v -> luks_do (luksChangeKey k s d k) v = v.
Proof.
  cbn. unfold slots_of, set_slots. destruct v as [sl se]. cbn. destruct (sl !! d) as [m|] eqn:E; cbn; [|done].
  intros Hs. by rewrite (insert_id m s k Hs), (insert_id sl d m E).
Qed.

(** A view after a run that did at most the one command. *)
Definition at_most (cmd : luks_cmd) (v v' : View) : Prop := v' = v \/ (luks_ok cmd v /\ v' = luks_do cmd v).

Section Operations.
Context {W : Type} `{KeyLaws W} (I : View -> Prop).

Abbreviation hoareI := (hoare (W := W) I).

Lemma kill_spec v0 d k s :
  (forall v, at_most (luksKillSlot k d s) v0 v -> I v) ->
  hoareI (eq v0) (removeEncryptionKeySlot d k s)
    (fun r v => at_most (luksKillSlot k d s) v0 v /\ (r = Ok () -> slots_of v d !! s = None)).
Proof.
  intros HI. assert (I v0) as HI0 by (apply HI; by left).
  apply (hoare_bind _ _ (fun _ => eq v0)).
  { apply hoare_wrapM. eapply hoare_conseq; [done| |apply temp_file_spec; by intros ? <-].
    intros [[]|err] v Hv; cbn; [done|]. split; [by left|done]. }
  intros _. apply (hoare_bind _ _ (fun r v => at_most (luksKillSlot k d s) v0 v /\
    (r = Ok () \/ (exists err, r = Err err /\ Contains (luks_text (W := W) err) (not_active s) = true) -> slots_of v d !! s = None))).
  - apply hoare_try, luks_spec; [intros v <-|intros v <- Hok].
    + split; [done|]. intros err. destruct (says_refused (luksKillSlot k d s) (luks_text (W := W) err)) eqn:Es; [right; split; [done|]|left].
      * intros [_ Hn]. split; [by left|done].
      * split; [by left|]. intros [?|(err' & [= <-] & Hc)]; [done|]. cbn [says_refused] in Es. congruence.
    + assert (at_most (luksKillSlot k d s) v0 (luks_do (luksKillSlot k d s) v0)) as Hm by (by right).
      assert (slots_of (luks_do (luksKillSlot k d s) v0) d !! s = None) as Hs.
      { cbn. by rewrite slots_of_set, decide_True, lookup_delete_eq. }
      split_and!; [by apply HI|done|done|]. intros err _. by split.
  - intros [[]|err]; [apply hoare_ret; intros v [Hv Hs]; split; [done|]; intros _; apply Hs; by left|].
    case_match eqn:Ec; [apply hoare_ret|apply hoare_fail]; intros v [Hv Hs]; (split; [done|]); [|done].
    intros _. apply Hs. right. by exists err.
Qed.

Lemma ensure_spec v0 d k s :
  I v0 ->
  hoareI (eq v0) (ensureEncryptionKey d k s)
    (fun r v => v = v0 /\ match r with
                          | Ok true => slots_of v0 d !! s = Some k
                          | Ok false => slots_of v0 d !! s <> Some k
                          | Err _ => True
                          end).
Proof.
  intros HI. apply (hoare_bind _ _ (fun _ => eq v0)).
  { apply hoare_wrapM. eapply hoare_conseq; [done| |apply temp_file_spec; by intros ? <-]. by intros [[]|err] v <-. }
  intros _. apply (hoare_bind _ _ (fun r v => v = v0 /\ match r with
    | Ok _ => slots_of v0 d !! s = Some k
    | Err err => Contains (luks_text (W := W) err) no_key = true -> slots_of v0 d !! s <> Some k end)).
  - apply hoare_try, luks_spec; [intros v <-|intros v <- Hok].
    + split; [done|]. intros err. destruct (says_refused (luksChangeKey k s d k) (luks_text (W := W) err)) eqn:Es; [right|left].
      * split; [done|]. by intros [_ Hn].
      * split; [done|]. cbn [says_refused] in Es. congruence.
    + rewrite change_same by done. split_and!; [done|done|done|]. intros err Es. split; [done|]. cbn [says_refused] in Es. congruence.
  - intros [[]|err]; [apply hoare_ret; by intros v [-> Hs]|].
    case_match eqn:Ec; [apply hoare_ret|apply hoare_fail]; intros v [-> Hs]; (split; [done|]); auto.
Qed.

(** The two files and the command that adds a passphrase, with what follows. *)
Lemma add_command_spec v0 d k n s {A} (K : result unit -> M (world W View) A) (Q : result A -> View -> Prop) :
  (forall v, at_most (luksAddKey k s d n) v0 v -> I v) ->
  (forall err, Q (Err err) v0) ->
  (forall r, hoareI (fun v => match r with
                              | Ok _ => luks_ok (luksAddKey k s d n) v0 /\ v = luks_do (luksAddKey k s d n) v0
                              | Err err =>
                                  if Contains (luks_text (W := W) err) (is_full s) then v = v0 /\ is_Some (slots_of v0 d !! s)
                                  else at_most (luksAddKey k s d n) v0 v
                              end) (K r) Q) ->
  hoareI (eq v0)
    (_ ← wrapM (temp_file k) "failed to create passphrase file" [];
     _ ← wrapM (temp_file n) "failed to create new passphrase file" [];
     r ← try_ (traced (env_luks (luksAddKey k s d n)));
     K r) Q.
Proof.
  intros HI HQ HK. assert (I v0) as HI0 by (apply HI; by left).
  assert (forall c fmt, hoareI (eq v0) (wrapM (temp_file c) fmt [])
    (fun r v => match r with Ok _ => v0 = v | Err err => Q (Err err) v end)) as Ht.
  { intros c fmt. apply hoare_wrapM. eapply hoare_conseq; [done| |apply temp_file_spec; by intros ? <-]. intros [[]|err] v <-; cbn; auto. }
  apply (hoare_bind _ _ (fun _ => eq v0)); [apply Ht|]. intros _.
  apply (hoare_bind _ _ (fun _ => eq v0)); [apply Ht|]. intros _.
  eapply hoare_bind; [|exact HK]. apply hoare_try, luks_spec; [intros v <-|intros v <- Hok].
  - split; [done|]. intros err.
    destruct (says_refused (luksAddKey k s d n) (luks_text (W := W) err)) eqn:Es; cbn [says_refused] in Es; rewrite Es.
    + right. split; [done|]. by intros [_ ?].
    + left. by left.
  - assert (at_most (luksAddKey k s d n) v0 (luks_do (luksAddKey k s d n) v0)) by (by right).
    split_and!; [by apply HI|done|done|]. intros err Es. cbn [says_refused] in Es. by rewrite Es.
Qed.

Lemma added v d k n s : slots_of (luks_do (luksAddKey k s d n) v) d !! s = Some n.
Proof. cbn. by rewrite slots_of_set, decide_True, lookup_insert_eq. Qed.

(** Adding to a free slot. *)
Lemma add_free_spec fuel v0 d k n s :
  slots_of v0 d !! s = None ->
  (forall v, at_most (luksAddKey k s d n) v0 v -> I v) ->
  hoareI (eq v0) (addEncryptionKey fuel d k n s)
    (fun r v => at_most (luksAddKey k s d n) v0 v /\ (r = Ok () -> slots_of v d !! s = Some n)).
Proof.
  intros Hfree HI. destruct fuel as [|fuel]; cbn [addEncryptionKey]; [apply hoare_fail; intros v <-; split; [by left|done]|].
  apply add_command_spec; [done|intros err; split; [by left|done]|]. intros [[]|err].
  - apply hoare_ret. intros v [Hok ->]. split; [by right|]. intros _. apply added.
  - case_match; [|by apply hoare_fail].
    intros e h [_ [x Hx]]. congruence.
Qed.

(** The views between the start and the end of adding a passphrase, and at its end. *)
Definition adding (d k n s : string) (v v' : View) : Prop :=
  exists v1, at_most (luksKillSlot k d s) v v1 /\ at_most (luksAddKey k s d n) v1 v'.

Lemma add_spec fuel v0 d k n s :
  (forall v, adding d k n s v0 v -> I v) ->
  hoareI (eq v0) (addEncryptionKey fuel d k n s)
    (fun r v => adding d k n s v0 v /\ (r = Ok () -> slots_of v d !! s = Some n)).
Proof.
  intros HI. assert (adding d k n s v0 v0) as Hrefl by (exists v0; split; by left).
  assert (forall v, at_most (luksAddKey k s d n) v0 v -> adding d k n s v0 v) as Hadd by (intros v Hv; exists v0; by split; [left|]).
  destruct fuel as [|fuel]; cbn [addEncryptionKey]; [apply hoare_fail; by intros v <-|].
  apply add_command_spec; [auto|done|]. intros [[]|err].
  { apply hoare_ret. intros v [Hok ->]. split; [apply Hadd; by right|]. intros _. apply added. }
  case_match; [|apply hoare_fail; intros v Hv; split; [auto|done]].
  apply (hoare_bind _ _ (fun b v => v = v0 /\ (b = true -> slots_of v0 d !! s = Some n))).
  { apply hoare_wrapM. eapply (hoare_conseq _ (eq v0)); [by intros v [-> _]| |apply (ensure_spec v0 d n s); auto].
    intros [[]|err'] v [-> Hr]; cbn; (split; [done|]); by intros. }
  intros [].
  { apply hoare_ret. intros v [-> Hs]. auto. }
  apply (hoare_bind _ _ (fun _ v => at_most (luksKillSlot k d s) v0 v /\ slots_of v d !! s = None)).
  { apply hoare_wrapM. eapply (hoare_conseq _ (eq v0)); [by intros v [-> _]| |].
    2: { apply kill_spec. intros v Hv. apply HI. exists v. by split; [|left]. }
    intros [[]|err'] v [Hv Hs]; cbn; [auto|]. split; [exists v; by split; [|left]|done]. }
  intros _. apply hoare_at. intros v1 [Hv1 Hs1]. apply hoare_wrapM.
  eapply hoare_conseq; [done| |apply add_free_spec; [done|]; intros v Hv; apply HI; by exists v1].
  intros [[]|err'] v [Hv Hs]; cbn; (split; [by exists v1|auto]); done.
Qed.

End Operations.

(** ** What the commands leave alone *)

(** The two views differ at most in one slot. *)
Definition touches (d s : string) (v v' : View) : Prop :=
  (forall d' s', d' <> d \/ s' <> s -> slots_of v' d' !! s' = slots_of v d' !! s') /\ secrets v' = secrets v.

Lemma key_touches_refl d s v : touches d s v v.
Proof. done. Qed.

Lemma key_touches_trans d s v1 v2 v3 : touches d s v1 v2 -> touches d s v2 v3 -> touches d s v1 v3.
Proof. intros [Ha Hb] [Hc Hd]. split; [|congruence]. intros d' s' Hn. rewrite Hc by done. auto. Qed.

Lemma touches_set d s v m :
  (forall s', s' <> s -> m !! s' = slots_of v d !! s') -> touches d s v (set_slots v d m).
Proof.
  intros Hm. split; [|done]. intros d' s' Hn. rewrite slots_of_set. case_decide; [|done]. subst. apply Hm. by destruct Hn.
Qed.

Lemma kill_touches d k s v v' : at_most (luksKillSlot k d s) v v' -> touches d s v v'.
Proof. intros [->|[_ ->]]; [apply key_touches_refl|]. apply touches_set. intros s' Hn. by rewrite lookup_delete_ne. Qed.

Lemma add_touches d k n s v v' : at_most (luksAddKey k s d n) v v' -> touches d s v v'.
Proof. intros [->|[_ ->]]; [apply key_touches_refl|]. apply touches_set. intros s' Hn. by rewrite lookup_insert_ne. Qed.

Lemma adding_touches d k n s v v' : adding d k n s v v' -> touches d s v v'.
Proof. intros (v1 & Hk & Ha). eapply key_touches_trans; [by eapply kill_touches|by eapply add_touches]. Qed.

(** A passphrase that opens the device while another is added still does. *)
Lemma adding_unlocks d k n s v v' : adding d k n s v v' -> unlocks v k d -> unlocks v' k d.
Proof.
  intros (v1 & Hk & Ha) Hu. pose proof (add_touches _ _ _ _ _ _ Ha) as [Ht _].
  assert (unlocks v1 k d) as [s1 Hs1].
  { destruct Hk as [->|[Hok ->]]; [done|]. destruct Hok as (_ & s' & Hn & Hs'). exists s'.
    cbn. by rewrite slots_of_set, decide_True, lookup_delete_ne. }
  destruct Ha as [->|[[_ Hfree] ->]]; [by exists s1|]. exists s1. rewrite Ht; [done|]. right. intros ->. congruence.
Qed.

Lemma only_touches disks d s v0 v v' :
  only disks v0 v -> touches d s v v' -> d ∈ disks -> s = slotZero \/ s = slotOne -> only disks v0 v'.
Proof.
  intros [Ha Hb] [Hc Hd] Hin Hs. split.
  - intros d' s' Hn. rewrite <- Ha by done. apply Hc. destruct Hn as [Hn|[]]; [|destruct Hs; subst; auto].
    left. by intros ->.
  - intros n. rewrite <- Hb. unfold secret_of. by rewrite Hd.
Qed.

(** The key of the key management service opens every device. *)
Definition accessible (name : string) (paths : list string) (v : View) : Prop :=
  forall d, d ∈ paths -> unlocks v (secret_of v name) d.

Section Rotation.
Context {W : Type} `{KeyLaws W} (fuel : nat) (name : string) (paths : list string) (v0 : View).
Context (I : View -> Prop) (HI : forall v, accessible name paths v -> I v).

Abbreviation hoareI := (hoare (W := W) I).

Abbreviation K := (secret_of v0 name).

(** While the current key is saved: it opens every device, and is in slot 1 of those that are done. *)
Definition saving (pre : list string) (v : View) : Prop :=
  only paths v0 v /\ (forall d, d ∈ paths -> unlocks v K d) /\ (forall d, d ∈ pre -> slots_of v d !! slotOne = Some K).

(** While the new key is installed: the current one is in slot 1, the new one in slot 0 of those that
    are done. *)
Definition installing (N : string) (pre : list string) (v : View) : Prop :=
  only paths v0 v /\ (forall d, d ∈ paths -> slots_of v d !! slotOne = Some K) /\
  (forall d, d ∈ pre -> slots_of v d !! slotZero = Some N).

(** While the old key is dropped: the new one is the secret and in slot 0. *)
Definition dropping (N : string) (pre : list string) (v : View) : Prop :=
  (exists v1, only paths v0 v1 /\ slots v1 = slots v) /\
  (forall n, secret_of v n = if decide (n = name) then N else secret_of v0 n) /\
  (forall d, d ∈ paths -> slots_of v d !! slotZero = Some N) /\ (forall d, d ∈ pre -> slots_of v d !! slotOne = None).

Lemma saving_accessible pre v : saving pre v -> I v.
Proof. intros ([_ Hs] & Hu & _). apply HI. intros d Hd. rewrite Hs. auto. Qed.

Lemma installing_accessible N pre v : installing N pre v -> I v.
Proof. intros ([_ Hs] & Hu & _). apply HI. intros d Hd. rewrite Hs. exists slotOne. auto. Qed.

Lemma dropping_accessible N pre v : dropping N pre v -> I v.
Proof. intros (_ & Hs & Hu & _). apply HI. intros d Hd. rewrite Hs, decide_True by done. exists slotZero. auto. Qed.

Lemma save_step pre d post v :
  paths = pre ++ d :: post -> saving pre v ->
  hoareI (eq v) (save_current fuel K d) (fun r v' => match r with Ok _ => saving (pre ++ [d]) v' | Err _ => True end).
Proof.
  intros Hp (Ho & Hu & Hs). assert (d ∈ paths) as Hd by (rewrite Hp; set_solver).
  assert (forall v', adding d K K slotOne v v' -> only paths v0 v' /\ (forall d', d' ∈ paths -> unlocks v' K d')) as Hadd.
  { intros v' Ha. split; [eapply only_touches; [done|by eapply adding_touches|done|by right]|]. intros d' Hd'.
    destruct (decide (d' = d)) as [->|Hn]; [by eapply adding_unlocks, Hu|]. destruct (Hu d' Hd') as [s Hs'].
    exists s. rewrite (proj1 (adding_touches _ _ _ _ _ _ Ha)); auto. }
  apply hoare_wrapM. eapply hoare_conseq; [done| |apply add_spec].
  - intros [[]|err] v' [Ha Hok]; cbn; [|done]. destruct (Hadd v' Ha) as [Ho' Hu']. split_and!; [done|done|].
    intros d' Hd'. destruct (decide (d' = d)) as [->|Hn]; [by apply Hok|].
    rewrite (proj1 (adding_touches _ _ _ _ _ _ Ha)) by auto. apply Hs. set_solver.
  - intros v' Ha. apply (saving_accessible []). destruct (Hadd v' Ha). split_and!; [done|done|set_solver].
Qed.

(** A step that touches slot 0 only keeps the current key in slot 1. *)
Lemma installing_touches N pre d v v' :
  installing N pre v -> d ∈ paths -> touches d slotZero v v' ->
  only paths v0 v' /\ (forall d', d' ∈ paths -> slots_of v' d' !! slotOne = Some K) /\
  (forall d', d' ∈ pre -> d' <> d -> slots_of v' d' !! slotZero = Some N).
Proof.
  intros (Ho & Hu & Hs) Hd Ht. split_and!.
  - eapply only_touches; [done..|by left].
  - intros d' Hd'. rewrite (proj1 Ht) by (by right). auto.
  - intros d' Hd' Hn. rewrite (proj1 Ht) by auto. auto.
Qed.

Lemma install_step N pre d post v :
  paths = pre ++ d :: post -> installing N pre v ->
  hoareI (eq v) (install_new fuel K N d) (fun r v' => match r with Ok _ => installing N (pre ++ [d]) v' | Err _ => True end).
Proof.
  intros Hp Hi. assert (d ∈ paths) as Hd by (rewrite Hp; set_solver).
  assert (forall v', touches d slotZero v v' -> I v') as Hacc.
  { intros v' Ht. destruct (installing_touches _ _ _ _ _ Hi Hd Ht) as (Ho & Hu & _).
    apply (installing_accessible N []). split_and!; [done|done|set_solver]. }
  apply (hoare_bind _ _ (fun _ v' => touches d slotZero v v')).
  { apply hoare_wrapM. eapply hoare_conseq; [done| |apply kill_spec].
    - intros [[]|err] v' [Ha _]; cbn; [by eapply kill_touches|done].
    - intros v' Ha. by eapply Hacc, kill_touches. }
  intros _. apply hoare_at. intros v1 Ht1. apply hoare_wrapM. eapply hoare_conseq; [done| |apply add_spec].
  - intros [[]|err] v2 [Ha Hok]; cbn; [|done].
    assert (touches d slotZero v v2) as Ht2 by (eapply key_touches_trans; [done|by eapply adding_touches]).
    destruct (installing_touches _ _ _ _ _ Hi Hd Ht2) as (Ho & Hu & Hs). split_and!; [done|done|].
    intros d' Hd'. destruct (decide (d' = d)) as [->|Hn]; [by apply Hok|]. apply Hs; set_solver.
  - intros v2 Ha. apply Hacc. eapply key_touches_trans; [done|by eapply adding_touches].
Qed.

Lemma drop_step N pre d post v :
  paths = pre ++ d :: post -> dropping N pre v ->
  hoareI (eq v) (drop_old N d) (fun r v' => match r with Ok _ => dropping N (pre ++ [d]) v' | Err _ => True end).
Proof.
  intros Hp ((v1 & Ho & Hv1) & Hs & Hz & Hone). assert (d ∈ paths) as Hd by (rewrite Hp; set_solver).
  assert (forall v', touches d slotOne v v' -> dropping N [] v') as Hdrop.
  { intros v' Ht. split_and!.
    - exists {| slots := slots v'; secrets := secrets v1 |}. split; [|done].
      eapply (only_touches _ d slotOne _ v1); [done| |done|by right]. split; [|done].
      intros d' s' Hn. pose proof (proj1 Ht d' s' Hn) as Hsl. unfold slots_of in *. cbn. rewrite Hsl. by rewrite Hv1.
    - intros n. rewrite <- Hs. unfold secret_of. by rewrite (proj2 Ht).
    - intros d' Hd'. rewrite (proj1 Ht) by (by right). auto.
    - set_solver. }
  apply hoare_wrapM. eapply hoare_conseq; [done| |apply kill_spec].
  - intros [[]|err] v' [Ha Hok]; cbn; [|done]. pose proof (kill_touches _ _ _ _ _ Ha) as Ht.
    destruct (Hdrop v' Ht) as (? & ? & ? & _). split_and!; [done..|].
    intros d' Hd'. destruct (decide (d' = d)) as [->|Hn]; [by apply Hok|]. rewrite (proj1 Ht) by auto. apply Hone. set_solver.
  - intros v' Ha. apply (dropping_accessible N []), Hdrop. by eapply kill_touches.
Qed.

(** The rotation: accessible at every moment, and when it succeeds the new key is the secret, alone in
    the slots 0 and 1 of the devices. *)
Lemma rotate_spec :
  accessible name paths v0 ->
  hoareI (eq v0) (RotateKeyEncryptionKey fuel name paths)
    (fun r v => r = Ok () -> dropping (secret_of v name) paths v).
Proof.
  intros Hacc. unfold RotateKeyEncryptionKey.
  apply (hoare_bind _ _ (fun k v => v = v0 /\ k = K)).
  { apply hoare_wrapM, hoare_traced. intros e He. rewrite law_get_secret, <- He. split; [by apply HI|].
    pose proof (law_secret name e) as Hl. rewrite <- He in Hl. destruct (env_get_secret name e) as [e' [k|err]]; cbn in *; [by auto|done]. }
  intros k. apply hoare_at. intros v [-> ->]. case_match; [by apply hoare_fail|].
  apply (hoare_bind _ _ (fun _ => saving paths)).
  { eapply (hoare_conseq _ (saving [])); [intros v <-; split_and!; [done|done|set_solver]| |apply (hoare_forM _ saving)].
    - intros [[]|err] v Hv; [done|by intros].
    - intros pre d post Hp. apply hoare_at. intros v Hv. by eapply save_step. }
  intros _. apply (hoare_bind _ _ (fun _ => saving paths)).
  { apply hoare_wrapM, hoare_traced. intros e Hs. rewrite law_generate. split; [by eapply saving_accessible|].
    by destruct (env_generate_key e) as [e' [k|err]]. }
  intros N. apply (hoare_bind _ _ (fun _ => installing N paths)).
  { eapply (hoare_conseq _ (installing N [])); [intros v (? & _ & ?); split_and!; [done|done|set_solver]| |apply (hoare_forM _ (installing N))].
    - intros [[]|err] v Hv; [done|by intros].
    - intros pre d post Hp. apply hoare_at. intros v Hv. by eapply install_step. }
  assert (forall v, installing N paths v -> dropping N [] (set_secret v name N)) as Hset.
  { intros v (Ho & Hu & Hz). split_and!; [by exists v| |done|set_solver].
    intros n. rewrite secret_of_set. case_decide; [done|]. apply (proj2 Ho). }
  intros _. apply (hoare_bind _ _ (fun _ => dropping N [])).
  { apply hoare_wrapM, hoare_traced. intros e Hi. pose proof (law_update name N e) as Hl. pose proof (law_update_ok name N e) as Hok.
    destruct (env_update_secret name N e) as [e' [[]|err]]; cbn in *.
    - rewrite (Hok eq_refl). split; [by eapply dropping_accessible, Hset|by apply Hset].
    - split; [|done]. destruct Hl as [->| ->]; [by eapply installing_accessible|by eapply dropping_accessible, Hset]. }
  intros _. apply (hoare_bind _ _ (fun _ => dropping N [])).
  { apply hoare_wrapM, hoare_traced. intros e Hd. rewrite law_get_secret. split; [by eapply dropping_accessible|].
    by destruct (env_get_secret name e) as [e' [k|err]]. }
  intros k'. case_match; [apply hoare_fail; by intros|].
  eapply hoare_conseq; [done| |apply (hoare_forM _ (dropping N))].
  - intros [[]|err] v Hv; [|by intros]. intros _. assert (secret_of v name = N) as -> by (destruct Hv as (_ & Hs & _); by rewrite Hs, decide_True).
    done.
  - intros pre d post Hp. apply hoare_at. intros v Hv. by eapply drop_step.
Qed.

End Rotation.

(** ** A rotation that nothing disturbs *)

(** A command that is allowed succeeds, and one that is refused says why. *)
Definition refusable (cmd : luks_cmd) (v : View) : Prop :=
  match cmd with
  | luksKillSlot _ disk slot => slots_of v disk !! slot = None
  | luksChangeKey key slot disk _ => slots_of v disk !! slot <> Some key
  | luksAddKey key slot disk _ => unlocks v key disk /\ is_Some (slots_of v disk !! slot)
  end.


Section Healthy.
Context {W : Type} `{KeyLaws W} `{!KeyHealthy W}.












End Healthy.
(** ** Every phase of an undisturbed rotation succeeds *)

Section Completes.
Context {W : Type} `{KeyLaws W} `{!KeyHealthy W} (fuel : nat) (name : string) (paths : list string) (v0 : View).
Context (Hfuel : (2 <= fuel)%nat).







End Completes.
(** ** Two tries are enough *)

Section Fuel.
Context {W : Type} `{KeyLaws W}.

Lemma add_fuel_free n d k p s (w : world W View) :
  slots_of (view (env w)) d !! s = None -> addEncryptionKey (S n) d k p s w = addEncryptionKey 1 d k p s w.
Proof.
  intros Hs. cbn [addEncryptionKey]. unfold temp_file, traced, wrapM, try_, mbind, M_bind. destruct w as [e h]. cbn [env log] in *.
  pose proof (law_temp_file k e) as E1. destruct (env_temp_file k e) as [e1 [[]|]]; cbn [env log wrap_err] in *; [|done].
  pose proof (law_temp_file p e1) as E2. destruct (env_temp_file p e1) as [e2 [[]|]]; cbn [env log wrap_err] in *; [|done].
  pose proof (law_luks_refused (luksAddKey k s d p) e2) as Hr. destruct (env_luks (luksAddKey k s d p) e2) as [e3 [[]|err]]; [done|].
  destruct (Contains (luks_text err) (is_full s)) eqn:Ec; [|done].
  destruct (Hr err eq_refl Ec) as [[_ [x Hx]] _]. cbn in *. rewrite E2, E1 in Hx. congruence.
Qed.

Lemma bind_ext {A B} (m : M (world W View) A) (f g : A -> M (world W View) B) w :
  (forall a w', m w = (w', Ok a) -> f a w' = g a w') -> (m ≫= f) w = (m ≫= g) w.
Proof. intros Hfg. unfold mbind, M_bind. destruct (m w) as [w' [a|err]]; auto. Qed.

Lemma bind_ext' {A B} (m m' : M (world W View) A) (f g : A -> M (world W View) B) w :
  m w = m' w -> (forall a w', m w = (w', Ok a) -> f a w' = g a w') -> (m ≫= f) w = (m' ≫= g) w.
Proof. intros Hm Hfg. unfold mbind, M_bind. rewrite <- Hm. destruct (m w) as [w' [a|err]]; auto. Qed.

Lemma add_fuel n d k p s (w : world W View) : addEncryptionKey (S (S n)) d k p s w = addEncryptionKey 2 d k p s w.
Proof.
  remember (S n) as n1 eqn:En. remember 1%nat as one eqn:E1. cbn [addEncryptionKey].
  apply bind_ext. intros _ w1 _. apply bind_ext. intros _ w2 _. apply bind_ext. intros [[]|err] w3 _; [done|].
  destruct (Contains (luks_text err) (is_full s)); [|done]. apply bind_ext. intros [] w4 _; [done|].
  apply bind_ext. intros [] w5 Hk. unfold wrapM. rewrite En, E1. rewrite add_fuel_free; [done|].
  apply wrapM_ok in Hk. destruct w4 as [e4 h4].
  destruct (kill_spec (W := W) (fun _ => True) (view e4) d k s ltac:(done) e4 h4 eq_refl ltac:(by apply Forall_true)) as [_ [_ Hn]].
  rewrite Hk in Hn. by apply Hn.
Qed.

Lemma forM_ext {A} (f g : A -> M (world W View) unit) l w : (forall a w', f a w' = g a w') -> forM_ l f w = forM_ l g w.
Proof.
  intros Hfg. revert w. induction l as [|a l IH]; intros w; [done|]. cbn [forM_]. unfold mbind, M_bind. rewrite Hfg.
  destruct (g a w) as [w' []]; auto.
Qed.

End Fuel.

(** ** The claims *)

Section Claims.
Context {W : Type} `{KeyLaws W} (name : string) (paths : list string).


(** A rotation that succeeds leaves in slot 0 of every device the key that is now the secret, and
    nothing in slot 1; no other slot, device or secret has changed. *)
Theorem rotation_result fuel e e' l :
  accessible name paths (view e) ->
  RotateKeyEncryptionKey fuel name paths (World e []) = (World e' l, Ok ()) ->
  (forall d, d ∈ paths -> slots_of (view e') d !! slotZero = Some (secret_of (view e') name) /\
                          slots_of (view e') d !! slotOne = None) /\
  (forall d s, d ∉ paths \/ (s <> slotZero /\ s <> slotOne) -> slots_of (view e') d !! s = slots_of (view e) d !! s) /\
  (forall n, n <> name -> secret_of (view e') n = secret_of (view e) n).
Proof.
  intros Ha Hrun. destruct (rotate_spec fuel name paths (view e) _ (fun v Hv => Hv) Ha e [] eq_refl ltac:(done)) as [_ Hq].
  rewrite Hrun in Hq. destruct (Hq eq_refl) as ((v1 & [Ho _] & Hv1) & Hs & Hz & Hone). split_and!.
  - auto.
  - intros d s Hn. rewrite <- Ho by done. unfold slots_of. cbn in *. by rewrite Hv1.
  - intros n Hn. by rewrite Hs, decide_False.
Qed.

(** Two tries to add a key are enough: a rotation that may try more often makes the same calls and
    returns the same. *)
Theorem rotation_two_tries n w :
  RotateKeyEncryptionKey (S (S n)) name paths w = RotateKeyEncryptionKey 2 name paths w.
Proof.
  unfold RotateKeyEncryptionKey. apply bind_ext. intros k w1 _. destruct (String.eqb k ""); [done|].
  apply bind_ext'.
  { apply forM_ext. intros d w2. unfold save_current, wrapM. by rewrite add_fuel. }
  intros _ w2 _. apply bind_ext. intros N w3 _. apply bind_ext'; [|done].
  apply forM_ext. intros d w4. apply bind_ext. intros _ w5 _. unfold wrapM. by rewrite add_fuel.
Qed.


End Claims.
(** ** A concrete cryptsetup and key management service *)

Definition has_key (m : gmap string string) (key : string) : bool := existsb (String.eqb key) (map_to_list m).*2.

Lemma has_key_spec m key : has_key m key = true <-> exists s, m !! s = Some key.
Proof.
  unfold has_key. rewrite existsb_exists. split.
  - intros (x & Hx & ->%String.eqb_eq). apply list_elem_of_In, list_elem_of_fmap in Hx as ([s y] & -> & Hy%elem_of_map_to_list).
    by exists s.
  - intros [s Hs]. exists key. split; [|by apply String.eqb_eq]. apply list_elem_of_In, list_elem_of_fmap.
    exists (s, key). split; [done|]. by apply elem_of_map_to_list.
Qed.

Definition ran {A} (a : A) (v : View) : View * result A := (v, Ok a).

Definition refuse (text : string) (v : View) : View * result unit := (v, Err (External text)).

Definition lab_luks (cmd : luks_cmd) : M View unit := fun v =>
  match cmd with
  | luksKillSlot key disk slot =>
      match slots_of v disk !! slot with
      | None => refuse (not_active slot) v
      | Some _ => if has_key (delete slot (slots_of v disk)) key then ran () (luks_do cmd v) else refuse "denied" v
      end
  | luksChangeKey key slot disk _ =>
      if bool_decide (slots_of v disk !! slot = Some key) then ran () (luks_do cmd v) else refuse no_key v
  | luksAddKey key slot disk _ =>
      if has_key (slots_of v disk) key
      then match slots_of v disk !! slot with Some _ => refuse (is_full slot) v | None => ran () (luks_do cmd v) end
      else refuse "denied" v
  end.

Definition text_of (e : gerror) : string := match e with External t => t | _ => "" end.

#[local] Instance lab : KeyEnv View := {
  view v := v;
  env_temp_file _ := ran ();
  env_luks := lab_luks;
  luks_text := text_of;
  env_get_secret n v := ran (secret_of v n) v;
  env_update_secret n k v := ran () (set_secret v n k);
  env_generate_key := ran "new";
}.

Lemma Contains_refl s : Contains s s = true.
Proof.
  assert (HasPrefix s s = true) as Hp.
  { unfold HasPrefix. by rewrite <- (app_string_nil_r s) at 2; rewrite strip_prefix_app. }
  destruct s; cbn [Contains]; by rewrite Hp.
Qed.

(** The three cases of a command. *)
Lemma lab_luks_cases cmd v :
  (luks_ok cmd v /\ lab_luks cmd v = (luks_do cmd v, Ok ())) \/
  (exists text, lab_luks cmd v = (v, Err (External text)) /\ ~ luks_ok cmd v /\
     (refusable cmd v /\ says_refused cmd text = true \/ ~ refusable cmd v /\ text = "denied")).
Proof.
  destruct cmd as [key disk slot|key slot disk new|key slot disk new]; cbn.
  - destruct (slots_of v disk !! slot) as [x|] eqn:E.
    + destruct (has_key _ _) eqn:Eh.
      * left. split; [|done]. split; [by exists x|]. apply has_key_spec in Eh as [s Hs].
        apply lookup_delete_Some in Hs as [Hn Hs]. by exists s.
      * right. exists "denied". split_and!; [done| |by right]. intros [_ (s & Hn & Hs)].
        enough (has_key (delete slot (slots_of v disk)) key = true) by congruence. apply has_key_spec. exists s.
        by rewrite lookup_delete_ne.
    + right. eexists. split; [done|]. split; [by intros [[? ?] _]|]. left. split; [done|apply Contains_refl].
  - case_bool_decide as E; [by left|right]. eexists. split; [done|]. split; [done|]. left. split; [done|apply Contains_refl].
  - destruct (has_key _ _) eqn:Eh; [apply has_key_spec in Eh|].
    + destruct (slots_of v disk !! slot) as [x|] eqn:E; [|by left]. right. eexists. split; [done|].
      split; [by intros [_ ?]|]. left. split; [by split|apply Contains_refl].
    + right. eexists. split; [done|].
      assert (~ exists s, slots_of v disk !! s = Some key) as Hn by (rewrite <- has_key_spec; congruence).
      split; [by intros [? _]|]. right. split; [|done]. by intros [? _].
Qed.

Lemma denied_refused cmd : says_refused cmd "denied" = false.
Proof. by destruct cmd. Qed.

Lemma refusable_refused cmd text v : refusable cmd v -> says_refused cmd text = true -> refused cmd text v.
Proof. destruct cmd; cbn; intros Hr Hs; (split; [done|]); [done|done|apply Hr]. Qed.

#[local] Instance lab_laws : KeyLaws View.
Proof.
  split; try done.
  - by intros n e k [= <-].
  - by right.
  - intros cmd e. cbn. destruct (lab_luks_cases cmd e) as [[Ha ->]|(t & -> & _)]; done.
  - intros cmd e. cbn. destruct (lab_luks_cases cmd e) as [[Ha ->]|(t & -> & _)]; auto.
  - intros cmd e err. cbn. destruct (lab_luks_cases cmd e) as [[Ha ->]|(t & -> & _ & Hc)]; [done|]. intros [= <-] Hs. split; [|done].
    destruct Hc as [[Hr _]|[_ ->]]; [by apply refusable_refused|]. by rewrite denied_refused in Hs.
Qed.







Definition start : View :=
  {| slots := <["/dev/a" := <["0" := "old"]> ∅]> (<["/dev/b" := <["0" := "older"]> (<["1" := "old"]> ∅)]> ∅); secrets := <["osd" := "old"]> ∅ |}.

Lemma start_accessible : accessible "osd" ["/dev/a"; "/dev/b"] start.
Proof. intros d [->|[->|[]%elem_of_nil]%elem_of_cons]%elem_of_cons; [by exists "0"|by exists "1"]. Qed.


Lemma run_eta {W E A} (p : world W E * result A) a : p.2 = Ok a -> p = (World (env p.1) (log p.1), Ok a).
Proof. by destruct p as [[e l] r]; cbn; intros ->. Qed.

(** The state a run without failures ends in. *)
Definition rotated : world View View := (RotateKeyEncryptionKey 2 "osd" ["/dev/a"; "/dev/b"] (World start [])).1.

Lemma rotation_result_witness :
  (RotateKeyEncryptionKey 2 "osd" ["/dev/a"; "/dev/b"] (World start [])).2 = Ok () /\
  slots_of (env rotated) "/dev/b" !! slotZero = Some (secret_of (env rotated) "osd") /\ secret_of (env rotated) "osd" = "new".
Proof.
  split; [vm_compute; reflexivity|]. split; [|vm_compute; reflexivity].
  refine (proj1 (proj1 (@rotation_result View lab lab_laws "osd" ["/dev/a"; "/dev/b"] 2 start (env rotated) (log rotated) start_accessible _) "/dev/b" _)).
  - apply run_eta. vm_compute. reflexivity.
  - apply list_elem_of_further, list_elem_of_here.
Defined.

(** On the second device slot 1 is full when the current key is saved. *)
Lemma rotation_two_tries_witness :
  RotateKeyEncryptionKey 7 "osd" ["/dev/a"; "/dev/b"] (World start []) = RotateKeyEncryptionKey 2 "osd" ["/dev/a"; "/dev/b"] (World start []).
Proof. exact (@rotation_two_tries View lab lab_laws "osd" ["/dev/a"; "/dev/b"] 5 (World start [])). Defined.



End KeySafety.
