(* ===== verification/Pools.v ===== *)
(** * Pools: pools of Ceph and their CRUSH rules

    Models, of [pkg/daemon/ceph/client], [pool.go], [crush_rule.go], [erasure-code-profile.go], the
    CRUSH map of [crush.go], the mirroring of pools in [mirror.go] and [radosnamespace.go], with the
    pool specs of [pkg/apis/ceph.rook.io/v1].

    The commands [ceph] and [rbd], crushtool, files and the lock on CRUSH rules are the class
    [PoolEnv]; the programs run in the world [world W call] that records every call. *)

From stdpp Require Import base gmap strings list fin_maps.
From Stdlib Require Import ZArith Ascii.
From S2P Require Import Prelude CephVersion Kube Cephx.
Import Log Version Cephx.
Open Scope Z_scope.

Module Pools.

(** ** Pool specs *)

Record HybridStorageSpec := { PrimaryDeviceClass : string; SecondaryDeviceClass : string }.

(** Of a [float64], its sign and its decimal form ([strconv.FormatFloat]). *)
Record Ratio := { ratio_sign : comparison; ratio_text : string }.

Record ReplicatedSpec := {
  Size : Z;
  TargetSizeRatio : Ratio;
  RequireSafeReplicaSize : bool;
  ReplicasPerFailureDomain : Z;
  SubFailureDomain : string;
  HybridStorage : option HybridStorageSpec;
}.

(** Of a [resource.Quantity], whether it is zero and its value if it is an [int64]. *)
Record Quantity := { IsZero : bool; AsInt64 : option Z }.

Record ErasureCodedSpec := {
  CodingChunks : Z;
  DataChunks : Z;
  Algorithm : string;
  StripeUnit : option Quantity;
  CrushNumFailureDomains : Z;
  CrushOSDsPerFailureDomain : Z;
}.

Record SnapshotScheduleSpec := { Interval : string; StartTime : string }.

Record MirroringSpec := {
  mirror_Enabled : bool;
  mirror_Mode : string;
  SnapshotSchedules : list SnapshotScheduleSpec;
  (** the names of the secrets of the peers *)
  Peers : option (list string);
}.

Record QuotaSpec := { MaxBytes : option Z; MaxSize : option string; MaxObjects : option Z }.

Record PoolSpec := {
  FailureDomain : string;
  CrushRoot : string;
  DeviceClass : string;
  EnableCrushUpdates : option bool;
  CompressionMode : string;
  Replicated : ReplicatedSpec;
  ErasureCoded : ErasureCodedSpec;
  Parameters : gmap string string;
  EnableRBDStats : bool;
  Mirroring : MirroringSpec;
  (** [StatusCheck.Mirror.Disabled] *)
  MirrorCheckDisabled : bool;
  Quotas : QuotaSpec;
  Application : string;
}.

Record NamedPoolSpec := { pool_Name : string; pool_Spec : PoolSpec }.

Definition IsReplicated (p : PoolSpec) : bool := 0 <? Size (Replicated p).

Definition IsErasureCoded (p : PoolSpec) : bool :=
  (0 <? CodingChunks (ErasureCoded p)) || (0 <? DataChunks (ErasureCoded p)).

Definition IsHybridStoragePool (p : PoolSpec) : bool := match HybridStorage (Replicated p) with Some _ => true | None => false end.

Definition SnapshotSchedulesEnabled (m : MirroringSpec) : bool := match SnapshotSchedules m with [] => false | _ => true end.

Definition set_Application (app : string) (p : PoolSpec) : PoolSpec :=
  {| FailureDomain := FailureDomain p; CrushRoot := CrushRoot p; DeviceClass := DeviceClass p;
     EnableCrushUpdates := EnableCrushUpdates p; CompressionMode := CompressionMode p; Replicated := Replicated p;
     ErasureCoded := ErasureCoded p; Parameters := Parameters p; EnableRBDStats := EnableRBDStats p;
     Mirroring := Mirroring p; MirrorCheckDisabled := MirrorCheckDisabled p; Quotas := Quotas p; Application := app |}.

(** Of the spec of the cluster, the zones of a stretch cluster and the configuration of the storage. *)
Record ClusterSpec := { StretchZones : option (list string); StorageConfig : option (gmap string string) }.

Definition IsStretchCluster (c : ClusterSpec) : bool := match StretchZones c with Some (_ :: _) => true | _ => false end.

Definition DefaultCRUSHRoot : string := "default".

Definition DefaultFailureDomain : string := "host".

Definition CrushRootConfigKey : string := "crushRoot".

Definition GetCrushRootFromSpec (c : ClusterSpec) : string :=
  match StorageConfig c with
  | None => DefaultCRUSHRoot
  | Some config => default DefaultCRUSHRoot (config !! CrushRootConfigKey)
  end.

(** ** What Ceph answers *)

Record CephStoragePoolSummary := { sum_Name : string; sum_Number : Z }.

Record CephStoragePoolDetails := { det_Name : string; det_Number : Z; det_Size : Z; det_CrushRule : string }.

Definition no_details : CephStoragePoolDetails := {| det_Name := ""; det_Number := 0; det_Size := 0; det_CrushRule := "" |}.

(** Of the statistics of a pool, the images and their snapshots. *)
Record PoolStatistics := { images_Count : Z; images_SnapCount : Z }.

Record stepSpec := { Operation : string; step_Number : Z; Item : Z; ItemName : string; step_Type : string }.

Record ruleSpec := {
  rule_ID : Z;
  rule_Name : string;
  Ruleset : Z;
  rule_Type : Z;
  rule_MinSize : Z;
  rule_MaxSize : Z;
  Steps : list stepSpec;
}.

(** Of the CRUSH map, the names of types and buckets, and the rules. *)
Record CrushMap := { Types : list string; Buckets : list string; Rules : list ruleSpec }.

(** Of a profile, the plugin and the technique. *)
Record CephErasureCodeProfile := { Plugin : string; Technique : string }.

(** Of the mirroring of a pool, the mode and the UUIDs of the peers. *)
Record MirroringInfo := { info_Mode : string; info_Peers : list string }.

(** ** Custom resources *)

Record CephBlockPoolStatus := {
  Phase : string;
  Message : string;
  PoolID : Z;
  status_Info : gmap string string;
  ObservedGeneration : Z;
  PeerToken : option CephxStatus;
}.

Record CephBlockPool := {
  bp_Namespace : string;
  bp_Name : string;
  bp_Generation : Z;
  (** whether the deletion timestamp is set *)
  bp_Deleted : bool;
  bp_Annotations : gmap string string;
  (** the name of the pool, if it is not the one of the resource *)
  spec_Name : string;
  bp_Spec : PoolSpec;
  bp_Status : option CephBlockPoolStatus;
}.

Record RadosNamespaceMirroring := {
  RemoteNamespace : option string;
  rnm_Mode : string;
  rnm_SnapshotSchedules : list SnapshotScheduleSpec;
}.

Record CephBlockPoolRadosNamespace := {
  rns_Namespace : string;
  rns_Name : string;
  rns_Deleted : bool;
  rns_Annotations : gmap string string;
  rns_SpecName : string;
  rns_BlockPoolName : string;
  rns_Mirroring : option RadosNamespaceMirroring;
  rns_ClusterID : string;
  (** phase, message and the cluster ID *)
  rns_Status : option (string * string * gmap string string);
}.

(** Of the status of Ceph, the health and the severities of the details, by key. *)
Record CephStatus := { Health : string; Details : gmap string string }.

Record CephCluster := {
  cl_Spec : ClusterSpec;
  cl_Deleted : bool;
  (** [CleanupPolicy.Confirmation] *)
  Confirmation : string;
  cl_Status : option CephStatus;
  cl_Image : string;
  (** image and version *)
  cl_Version : option (string * string);
  (** [Status.Cephx.RBDMirrorPeer] *)
  RBDMirrorPeer : CephxStatus;
  (** [Spec.External.Enable], and of the spec when daemons may be restarted *)
  cl_External : bool;
  cl_SkipUpgradeChecks : bool;
  cl_ContinueUpgrade : bool;
  (** [Spec.Security.CephX.Daemon] *)
  cl_CephxDaemon : CephxConfig;
}.

(** The keys of CSI: [Spec.Security.CephX.CSI] and [Status.Cephx.CSI] of a cluster. *)
Record CsiCephx := {
  csi_Config : CephxConfig;
  KeepPriorKeyCountMax : Z;
  csi_Status : CephxStatus;
  PriorKeyCount : Z;
}.

(** ** File systems *)

(** A finite [float64]: [mantissa * 2 ^ exponent]. *)
Record Float64 := { mantissa : Z; exponent : Z }.

(** Memory of a pod in bytes; zero if it is not given. *)
Record ResourceRequirements := { Limits_Memory : Z; Requests_Memory : Z }.

Record MetadataServerSpec := {
  ActiveCount : Z;
  ActiveStandby : bool;
  mds_Resources : ResourceRequirements;
  CacheMemoryLimitFactor : option Float64;
  CacheMemoryRequestFactor : option Float64;
}.

Record SnapshotRetentionSpec := { retention_Path : string; retention_Duration : string }.

Record FSMirroringSpec := {
  fsm_Enabled : bool;
  fsm_Peers : option (list string);
  (** the path of each schedule with the schedule *)
  fsm_SnapshotSchedules : list (string * SnapshotScheduleSpec);
  fsm_SnapshotRetention : list SnapshotRetentionSpec;
}.

Record FilesystemSpec := {
  MetadataPool : NamedPoolSpec;
  DataPools : list NamedPoolSpec;
  PreservePoolNames : bool;
  PreservePoolsOnDelete : bool;
  PreserveFilesystemOnDelete : bool;
  MetadataServer : MetadataServerSpec;
  fs_Mirroring : option FSMirroringSpec;
  (** [StatusCheck.Mirror.Disabled] *)
  fs_MirrorCheckDisabled : bool;
}.

(** What was last seen of the mirroring, or of the schedules, of a file system; the entries are kept as
    they are. *)
Record MirrorReport := { LastChecked : string; LastChanged : string; report_Details : string; report_Items : list string }.

Record CephFilesystemStatus := {
  fss_Phase : string;
  fss_Message : string;
  fss_Info : option (gmap string string);
  SnapshotScheduleStatus : option MirrorReport;
  MirroringStatus : option MirrorReport;
  (** type and status *)
  fss_Conditions : list (string * string);
  fss_ObservedGeneration : Z;
  (** [Cephx.Daemon] *)
  fss_Cephx : CephxStatus;
}.

Record CephFilesystem := {
  fs_Namespace : string;
  fs_Name : string;
  fs_Generation : Z;
  fs_Deleted : bool;
  fs_Spec : FilesystemSpec;
  fs_Status : option CephFilesystemStatus;
}.

(** A fraction with the forms in which it is printed, exactly and with two digits. *)
Record Fraction := { fraction : Float64; fraction_text : string; fraction_short : string }.

Record PinningSpec := { Export : option Z; Distributed : option Z; Random : option Fraction }.

Record CephFilesystemSubVolumeGroup := {
  svg_Namespace : string;
  svg_Name : string;
  svg_Generation : Z;
  svg_Deleted : bool;
  svg_Annotations : gmap string string;
  svg_SpecName : string;
  svg_FilesystemName : string;
  Pinning : PinningSpec;
  (** the quota in bytes *)
  svg_Quota : option Z;
  svg_DataPoolName : string;
  svg_ClusterID : string;
  (** phase, message, the cluster ID and the pinning, and the observed generation *)
  svg_Status : option (string * string * gmap string string * Z);
}.

(** ** Calls *)

Inductive lock_action := RLock | RUnlock | WLock | WUnlock.

#[global] Instance lock_action_eq_dec : EqDecision lock_action.
Proof. solve_decision. Defined.

Inductive call :=
| Ceph (args : list string) (r : result string)
| Rbd (args : list string) (r : result string)
| Tool (cmd : list string) (r : result string)
| TempFile (r : result string)
| AppendFile (path text : string) (r : result unit)
| RemoveFile (path : string) (r : result unit)
(* the lock on CRUSH rules *)
| Mutex (a : lock_action)
(* the API server, about an object of the given kind and name *)
| Api (verb kind name : string) (failed : bool)
| GetPool (ns name : string) (r : result CephBlockPool)
| ListNamespaces (ns : string) (r : result (list CephBlockPoolRadosNamespace))
| GetNamespace (ns name : string) (r : result CephBlockPoolRadosNamespace)
| FindNamespaces (ns index : string) (r : result (list CephBlockPoolRadosNamespace))
| SetNamespaceStatus (n : CephBlockPoolRadosNamespace) (r : result unit)
| ListClusters (ns : string) (r : result (list CephCluster))
| SetPoolStatus (p : CephBlockPool) (r : result unit)
| GetFs (ns name : string) (r : result CephFilesystem)
| SetFsStatus (f : CephFilesystem) (r : result unit)
| ListGroups (ns : string) (r : result (list CephFilesystemSubVolumeGroup))
| FindGroups (ns index : string) (r : result (list CephFilesystemSubVolumeGroup))
| GetGroup (ns name : string) (r : result CephFilesystemSubVolumeGroup)
| SetGroupStatus (g : CephFilesystemSubVolumeGroup) (r : result unit)
| ListDeployments (ns selector : string) (r : result (list Kube.Deployment))
| GetDeployment (ns name : string) (r : result Kube.Deployment)
| CreateDeployment (d : Kube.Deployment) (r : result unit)
| UpdateDeployment (d : Kube.Deployment) (r : result unit)
| DeleteDeployment (ns name : string) (r : result unit)
| WriteSecret (verb ns name : string) (data : gmap string string) (r : result unit)
| GetCsiCephx (ns name : string) (r : result CsiCephx)
| SetCsiCephx (ns name : string) (s : CsiCephx) (r : result unit).

Class PoolEnv (W : Type) := {
  env_ceph : list string -> M W string;
  env_rbd : list string -> M W string;
  env_tool : list string -> M W string;
  env_temp_file : M W string;
  env_append_file : string -> string -> M W unit;
  env_remove_file : string -> M W unit;
  (** returns when the lock was granted *)
  env_mutex : lock_action -> W -> W;
  (** the text of an error, and the exit status of the command it is from *)
  error_text : gerror -> string;
  exit_status : gerror -> option Z;
  json_pools : string -> option (list CephStoragePoolSummary);
  (** decodes into the given value: fields that are not in the text are kept *)
  json_details : string -> CephStoragePoolDetails -> option CephStoragePoolDetails;
  (** the keys of the object, in the order they are visited *)
  json_applications : string -> option (list string);
  json_statistics : string -> option PoolStatistics;
  json_crush_map : string -> option CrushMap;
  json_rule : string -> option ruleSpec;
  json_ec_profile : string -> option CephErasureCodeProfile;
  json_ec_profiles : string -> option (list string);
  json_mirror_info : string -> option MirroringInfo;
  (** the names of the mirrored images *)
  json_mirrored_images : string -> option (list string);
  json_schedules : string -> option (list SnapshotScheduleSpec);
  json_namespaces : string -> option (list string);
  json_ints : string -> option (list Z);
  (** [resource.ParseQuantity], the value in bytes *)
  parse_quantity : string -> result Z;
  (** the order in which a map is visited *)
  range_map : gmap string string -> list (string * string);
  range_map_ok m : range_map m ≡ₚ map_to_list m;
}.

Abbreviation MW W := (M (world W call)).

Section Calls.
Context {W : Type} `{PoolEnv W}.

Definition ceph (args : list string) : MW W string := record (Ceph args) (env_ceph args).

Definition rbd (args : list string) : MW W string := record (Rbd args) (env_rbd args).

Definition tool (cmd : list string) : MW W string := record (Tool cmd) (env_tool cmd).

Definition mutex (a : lock_action) : MW W unit := record (fun _ => Mutex a) (fun w => (env_mutex a w, Ok ())).

(** [defer]: [c] runs when [m] returned; its error is only logged. *)
Definition deferred {A} (c : MW W unit) (m : MW W A) : MW W A :=
  r ← try_ m; _ ← try_ c; lift r.

Definition decode {A} (o : option A) (msg : string) (args : list string) : MW W A :=
  match o with Some a => mret a | None => fail (Errorf msg args) end.

End Calls.

(** [strings.Split(s, "}{")] *)
Fixpoint split_objects (s : string) : list string :=
  match s with
  | "" => [""]
  | String c rest =>
      match rest with
      | String d rest' =>
          if Ascii.eqb c "}" && Ascii.eqb d "{" then "" :: split_objects rest'
          else match split_objects rest with
               | x :: l => String c x :: l
               | [] => [String c ""]
               end
      | "" => [String c ""]
      end
  end.

(** What follows the first [sep]. *)
Fixpoint after_byte (sep : ascii) (s : string) : option string :=
  match s with
  | "" => None
  | String c rest => if Ascii.eqb c sep then Some rest else after_byte sep rest
  end.

(** The braces that [Split] took away are put back. *)
Definition close_object (s : string) : string :=
  let s := if HasPrefix s "{" then s else "{" +:+ s in
  if HasSuffix s "}" then s else s +:+ "}".

Section Client.
Context {W : Type} `{PoolEnv W}.

(** ** Reading pools *)

Definition ListPoolSummaries : MW W (list CephStoragePoolSummary) :=
  output ← wrapM (ceph ["osd"; "lspools"]) "failed to list pools" [];
  decode (json_pools (W := W) output) "unmarshal failed raw buffer response %s" [output].

Definition GetPoolNamesByID : MW W (gmap Z string) :=
  pools ← wrapM ListPoolSummaries "failed to list pools" [];
  mret (foldl (fun names p => <[sum_Number p := sum_Name p]> names) ∅ pools).

Definition GetPoolApplication (poolName : string) : MW W string :=
  appDetails ← wrapM (ceph ["osd"; "pool"; "application"; "get"; poolName]) "failed to get current application for pool %s" [poolName];
  if String.eqb appDetails "" then mret ""
  else
    application ← decode (json_applications (W := W) appDetails) "unmarshal failed raw buffer response %s" [appDetails];
    mret (default "" (head application)).

Fixpoint decode_details (units : list string) (poolDetails : CephStoragePoolDetails) : option CephStoragePoolDetails :=
  match units with
  | [] => Some poolDetails
  | pdu :: units => json_details (W := W) (close_object pdu) poolDetails ≫= decode_details units
  end.

Definition ParsePoolDetails (text : string) : option CephStoragePoolDetails := decode_details (split_objects text) no_details.

Definition GetPoolDetails (name : string) : MW W CephStoragePoolDetails :=
  output ← wrapM (ceph ["osd"; "pool"; "get"; name; "all"]) "failed to get pool %s details. %s" [name];
  decode (ParsePoolDetails output) "unmarshal failed raw buffer response %s" [output].

Definition IsPoolPresent (poolName : string) : MW W bool :=
  pools ← wrapM ListPoolSummaries "failed to list pools" [];
  mret (existsb (fun pool => String.eqb (sum_Name pool) poolName) pools).

Definition GetPoolStatistics (name : string) : MW W PoolStatistics :=
  output ← wrapM (rbd ["pool"; "stats"; name]) "failed to get pool stats" [];
  decode (json_statistics (W := W) output) "failed to unmarshal pool stats response" [].

Definition no_images (stats : PoolStatistics) : bool := (images_Count stats =? 0) && (images_SnapCount stats =? 0).

Definition checkIsPoolEmpty (name : string) : MW W bool :=
  r ← try_ (GetPoolStatistics name);
  match r with
  | Err err =>
      if Contains (error_text (W := W) err) "No such file or directory" then mret false
      else fail (Wrapf err "failed to list images/snapshots in pool %s" [name])
  | Ok stats => mret (no_images stats)
  end.

Definition checkForImagesInPool (name : string) : MW W unit :=
  isEmpty ← checkIsPoolEmpty name;
  if (isEmpty : bool) then mret () else fail (Errorf "pool %q contains images/snapshots" [name]).

(** ** Rados namespaces ([radosnamespace.go]) *)

Definition EEXIST : Z := 17.

Definition ENOENT : Z := 2.

Definition CreateRadosNamespace (poolName namespaceName : string) : MW W unit :=
  r ← try_ (rbd ["namespace"; "create"; "--pool"; poolName; "--namespace"; namespaceName]);
  match r with
  | Ok _ => mret ()
  | Err err =>
      if bool_decide (exit_status (W := W) err = Some EEXIST) then mret ()
      else fail (Wrapf err "failed to create rados namespace %s/%s. %s" [poolName; namespaceName])
  end.

Definition getRadosNamespaceStatistics (poolName namespaceName : string) : MW W PoolStatistics :=
  r ← try_ (rbd ["pool"; "stats"; "--pool"; poolName; "--namespace"; namespaceName]);
  match r with
  | Ok output => decode (json_statistics (W := W) output) "failed to unmarshal pool stats response" []
  | Err err =>
      if bool_decide (exit_status (W := W) err = Some ENOENT) then mret {| images_Count := 0; images_SnapCount := 0 |}
      else fail (Wrapf err "failed to get pool stats. %s" [])
  end.

(** Whether there are images, and the error that is returned with it. *)
Definition checkForImagesInRadosNamespace (poolName namespaceName : string) : MW W (bool * option gerror) :=
  r ← try_ (getRadosNamespaceStatistics poolName namespaceName);
  match r with
  | Err err => mret (false, Some (Wrapf err "failed to list images/snapshots in pool %s/%s" [poolName; namespaceName]))
  | Ok stats =>
      if no_images stats then mret (false, None)
      else mret (true, Some (Errorf "pool %s/%s contains %d images and %d snapshots"
                               [poolName; namespaceName; Itoa (images_Count stats); Itoa (images_SnapCount stats)]))
  end.

(** Whether the namespace holds images is returned also with an error. *)
Definition DeleteRadosNamespace (poolName namespaceName : string) : MW W (bool * option gerror) :=
  '(containsImages, e) ← checkForImagesInRadosNamespace poolName namespaceName;
  match e with
  | Some err => mret (containsImages, Some (Wrapf err "failed to check if pool %s/%s has rbd images" [poolName; namespaceName]))
  | None =>
      r ← try_ (rbd ["namespace"; "remove"; "--pool"; poolName; "--namespace"; namespaceName]);
      match r with
      | Ok _ => mret (false, None)
      | Err err =>
          if bool_decide (exit_status (W := W) err = Some ENOENT) then mret (false, None)
          else mret (false, Some (Wrapf err "failed to delete rados namespace %s/%s. %s" [poolName; namespaceName]))
      end
  end.

Definition ListRadosNamespacesInPool (poolName : string) : MW W (list string) :=
  buf ← wrapM (rbd ["namespace"; "list"; poolName]) "failed to retrieve rados namespaces on pool %q. %s" [poolName];
  decode (json_namespaces (W := W) buf) "failed to unmarshal rados namespaces list response" [].

Fixpoint namespaces_empty (name : string) (radosNamespaces : list string) : MW W bool :=
  match radosNamespaces with
  | [] => mret true
  | radosNamespace :: radosNamespaces =>
      '(containsImages, e) ← checkForImagesInRadosNamespace name radosNamespace;
      match e with
      | Some _ => mret false
      | None => if (containsImages : bool) then mret false else namespaces_empty name radosNamespaces
      end
  end.

(** Without the message for the status. *)
Definition IsPoolEmpty (name : string) (radosNamespaces : list string) : MW W bool :=
  isEmpty ← checkIsPoolEmpty name;
  if negb isEmpty then mret false else namespaces_empty name radosNamespaces.

End Client.


(** ** Texts of CRUSH rules ([crush_rule.go]) *)

Definition checkIfRuleIDExists (rules : list ruleSpec) (id : Z) : bool := existsb (fun rule => rule_ID rule =? id) rules.

Fixpoint next_rule_id (fuel : nat) (rules : list ruleSpec) (id : Z) : option Z :=
  match fuel with
  | O => None
  | S fuel => if checkIfRuleIDExists rules id then next_rule_id fuel rules (id + 1) else Some id
  end.

(** The last of no rules panics. *)
Definition generateRuleID (rules : list ruleSpec) : result Z :=
  match last rules with
  | None => Err (Errorf "runtime error: index out of range [-1]" [])
  | Some rule =>
      match next_rule_id (S (length rules)) rules (rule_ID rule + 1) with
      | Some id => Ok id
      | None => Err (Errorf "out of fuel" [])
      end
  end.

Definition nl : string := String "010" "".

Definition ruleMinSizeDefault : Z := 1.

Definition ruleMaxSizeDefault : Z := 10.

Definition crushReplicatedType : Z := 1.

Definition rule_head (ruleName : string) (id : Z) : string :=
  nl +:+ "rule " +:+ ruleName +:+ " {" +:+ nl +:+
  "        id " +:+ Itoa id +:+ nl +:+
  "        type replicated" +:+ nl +:+
  "        min_size " +:+ Itoa ruleMinSizeDefault +:+ nl +:+
  "        max_size " +:+ Itoa ruleMaxSizeDefault +:+ nl.

Definition twoStepCRUSHRuleTemplate (ruleName : string) (id : Z) (root insert failureDomain subFailureDomain : string) : string :=
  rule_head ruleName id +:+
  "        step take " +:+ root +:+ " " +:+ insert +:+ nl +:+
  "        step choose firstn 0 type " +:+ failureDomain +:+ nl +:+
  "        step chooseleaf firstn 2 type " +:+ subFailureDomain +:+ nl +:+
  "        step emit" +:+ nl +:+ "}" +:+ nl.

Definition twoStepHybridCRUSHRuleTemplate (ruleName : string) (id : Z) (root primary failureDomain secondary : string) : string :=
  rule_head ruleName id +:+
  "        step take " +:+ root +:+ " class " +:+ primary +:+ nl +:+
  "        step chooseleaf firstn 1 type " +:+ failureDomain +:+ nl +:+
  "        step emit" +:+ nl +:+
  "        step take " +:+ root +:+ " class " +:+ secondary +:+ nl +:+
  "        step chooseleaf firstn 0 type " +:+ failureDomain +:+ nl +:+
  "        step emit" +:+ nl +:+ "}" +:+ nl.

Definition buildTwoStepPlainCrushRule (crushMap : CrushMap) (ruleName root failureDomain subFailureDomain deviceClass : string) : result string :=
  let crushRuleInsert := if String.eqb deviceClass "" then "" else "class " +:+ deviceClass in
  id ← generateRuleID (Rules crushMap);
  Ok (twoStepCRUSHRuleTemplate ruleName id root crushRuleInsert failureDomain subFailureDomain).

Definition buildTwoStepHybridCrushRule (crushMap : CrushMap) (ruleName root failureDomain : string) (hybrid : HybridStorageSpec) : result string :=
  id ← generateRuleID (Rules crushMap);
  Ok (twoStepHybridCRUSHRuleTemplate ruleName id root (PrimaryDeviceClass hybrid) failureDomain (SecondaryDeviceClass hybrid)).

Definition stepEmit : stepSpec := {| Operation := "emit"; step_Number := 0; Item := 0; ItemName := ""; step_Type := "" |}.

Definition buildTwoStepCrushSteps (pool : PoolSpec) : list stepSpec :=
  [{| Operation := "take"; step_Number := 0; Item := -1; ItemName := CrushRoot pool; step_Type := "" |};
   {| Operation := "chooseleaf_firstn"; step_Number := 0; Item := 0; ItemName := ""; step_Type := FailureDomain pool |};
   {| Operation := "chooseleaf_firstn"; step_Number := ReplicasPerFailureDomain (Replicated pool); Item := 0; ItemName := "";
      step_Type := SubFailureDomain (Replicated pool) |};
   stepEmit].

Definition buildTwoStepCrushRule (crushMap : CrushMap) (ruleName : string) (pool : PoolSpec) : result ruleSpec :=
  ruleID ← generateRuleID (Rules crushMap);
  Ok {| rule_ID := ruleID; rule_Name := ruleName; Ruleset := ruleID; rule_Type := crushReplicatedType;
        rule_MinSize := ruleMinSizeDefault; rule_MaxSize := ruleMaxSizeDefault; Steps := buildTwoStepCrushSteps pool |}.

Definition crushRuleExists (crushMap : CrushMap) (ruleName : string) : bool :=
  existsb (fun rule => String.eqb (rule_Name rule) ruleName) (Rules crushMap).

(** The failure domain and the device class of a rule, from its first two steps. *)
Definition step_details (acc : string * string) (step : stepSpec) : string * string :=
  let '(failureDomain, deviceClass) := acc in
  (if String.eqb (step_Type step) "" then failureDomain else step_Type step,
   if String.eqb (ItemName step) "" then deviceClass
   else match after_byte "~" (ItemName step) with Some class => class | None => ItemName step end).

Definition extractPoolDetails (rule : ruleSpec) : string * string := foldl step_details ("", "") (take 2 (Steps rule)).

Section Rules.
Context {W : Type} `{PoolEnv W}.

Definition GetCrushMap : MW W CrushMap :=
  buf ← wrapM (ceph ["osd"; "crush"; "dump"]) "failed to get crush map. %s" [];
  decode (json_crush_map (W := W) buf) "failed to unmarshal crush map" [].

Definition getCurrentCrushMap : MW W CrushMap := wrapM GetCrushMap "failed to get crush map" [].

Definition getCrushRule (name : string) : MW W ruleSpec :=
  buf ← wrapM (ceph ["osd"; "crush"; "rule"; "dump"; name]) "failed to get crush rule %q. %s" [name];
  decode (json_rule (W := W) buf) "failed to unmarshal crush rule. %s" [buf].

Definition rm_rule_args (crushRuleName : string) : list string := ["osd"; "crush"; "rule"; "rm"; crushRuleName].

Definition deleteCrushRule (crushRuleName : string) : MW W unit :=
  _ ← wrapM (ceph (rm_rule_args crushRuleName)) "failed to delete crush rule %q. %s" [crushRuleName]; mret ().

Definition set_rule_args (poolName crushRule : string) : list string := ["osd"; "pool"; "set"; poolName; "crush_rule"; crushRule].

Definition setCrushRule (poolName crushRule : string) : MW W unit :=
  _ ← wrapM (ceph (set_rule_args poolName crushRule)) "failed to set crush rule %q. %s" [crushRule]; mret ().

Definition create_rule_args (ruleName crushRoot failureDomain deviceClass : string) : list string :=
  ["osd"; "crush"; "rule"; "create-replicated"; ruleName; crushRoot; failureDomain] ++
  (if String.eqb deviceClass "" then [] else [deviceClass]).

Definition or_default (s d : string) : string := if String.eqb s "" then d else s.

Definition createReplicationCrushRule (clusterSpec : ClusterSpec) (ruleName : string) (pool : NamedPoolSpec) : MW W unit :=
  let p := pool_Spec pool in
  _ ← wrapM (ceph (create_rule_args ruleName (or_default (CrushRoot p) (GetCrushRootFromSpec clusterSpec))
                     (or_default (FailureDomain p) DefaultFailureDomain) (DeviceClass p)))
        "failed to create crush rule %s. %s" [ruleName];
  mret ().

(** ** A rule that is added to the text of the CRUSH map

    Opening the file and writing to it are one call. *)

Definition buildDecompileCRUSHFileName (crushMapPath : string) : string := crushMapPath +:+ ".decompiled".

Definition buildCompileCRUSHFileName (crushMapPath : string) : string := crushMapPath +:+ ".compiled".

Definition GetCompiledCrushMap : MW W string :=
  path ← wrapM (record TempFile env_temp_file) "failed to generate temporarily file" [];
  _ ← wrapM (ceph ["osd"; "getcrushmap"; "--out-file"; path]) "failed to get compiled crush map. %s" [];
  mret path.

Definition decompileCRUSHMap (crushMapPath : string) : MW W unit :=
  let mapFile := buildDecompileCRUSHFileName crushMapPath in
  _ ← wrapM (tool ["crushtool"; "--decompile"; crushMapPath; "--outfn"; mapFile]) "failed to decompile crush map %q. %s" [mapFile]; mret ().

Definition compileCRUSHMap (crushMapPath : string) : MW W unit :=
  let mapFile := buildCompileCRUSHFileName crushMapPath in
  _ ← wrapM (tool ["crushtool"; "--compile"; crushMapPath; "--outfn"; mapFile]) "failed to compile crush map %q. %s" [mapFile]; mret ().

Definition injectCRUSHMap (crushMapPath : string) : MW W unit :=
  _ ← wrapM (ceph ["osd"; "setcrushmap"; "--in-file"; crushMapPath]) "failed to inject crush map %q. %s" [crushMapPath]; mret ().

Definition remove_file (path : string) : MW W unit := record (RemoveFile path) (env_remove_file path).

Definition updateCrushMap (ruleset : string) : MW W unit :=
  compiled ← wrapM GetCompiledCrushMap "failed to get crush map" [];
  deferred (remove_file compiled) (
    _ ← wrapM (decompileCRUSHMap compiled) "failed to compile crush map" [];
    let decompiled := buildDecompileCRUSHFileName compiled in
    deferred (remove_file decompiled) (
      _ ← wrapM (record (AppendFile decompiled ruleset) (env_append_file decompiled ruleset))
            "failed to append replicated plain crush rule to decompiled crush map %q" [decompiled];
      _ ← wrapM (compileCRUSHMap decompiled) "failed to compile crush map" [];
      let recompiled := buildCompileCRUSHFileName decompiled in
      deferred (remove_file recompiled) (wrapM (injectCRUSHMap recompiled) "failed to inject crush map" []))).

Definition createStretchCrushRule (clusterSpec : ClusterSpec) (ruleName : string) (pool : PoolSpec) : MW W unit :=
  let root := or_default (CrushRoot pool) (GetCrushRootFromSpec clusterSpec) in
  let failureDomain := or_default (FailureDomain pool) DefaultFailureDomain in
  let subFailureDomain := or_default (SubFailureDomain (Replicated pool)) DefaultFailureDomain in
  if String.eqb failureDomain subFailureDomain
  then fail (Errorf "failure and subfailure domains cannot be identical, current is %q" [failureDomain])
  else
    crushMap ← wrapM getCurrentCrushMap "failed to get current crush map" [];
    if crushRuleExists crushMap ruleName then mret ()
    else
      ruleset ← lift (buildTwoStepPlainCrushRule crushMap ruleName root failureDomain subFailureDomain (DeviceClass pool));
      updateCrushMap ruleset.

Definition createHybridCrushRule (clusterSpec : ClusterSpec) (ruleName : string) (pool : PoolSpec) (hybrid : HybridStorageSpec) : MW W unit :=
  let root := or_default (CrushRoot pool) (GetCrushRootFromSpec clusterSpec) in
  let failureDomain := or_default (FailureDomain pool) DefaultFailureDomain in
  crushMap ← wrapM getCurrentCrushMap "failed to get current crush map" [];
  if crushRuleExists crushMap ruleName then mret ()
  else
    ruleset ← lift (buildTwoStepHybridCrushRule crushMap ruleName root failureDomain hybrid);
    updateCrushMap ruleset.

End Rules.


Section Mirror.
Context {W : Type} `{PoolEnv W} (version : CephVersion).

(** ** Mirroring ([mirror.go]) *)

Definition GetPoolMirroringInfo (poolName : string) : MW W MirroringInfo :=
  buf ← wrapM (rbd ["mirror"; "pool"; "info"; poolName]) "failed to retrieve mirroring pool %q info. %s" [poolName];
  decode (json_mirror_info (W := W) buf) "failed to unmarshal mirror pool info response" [].

Definition GetMirroredPoolImages (poolName : string) : MW W (list string) :=
  buf ← wrapM (rbd ["mirror"; "pool"; "status"; "--verbose"; poolName]) "failed to retrieve mirroring pool %q status" [poolName];
  decode (json_mirrored_images (W := W) buf) "failed to unmarshal mirror pool status response" [].

Definition mirrorModeInitOnly : string := "init-only".

Definition enablePoolMirroring (pool : NamedPoolSpec) : MW W unit :=
  let mode := mirror_Mode (Mirroring (pool_Spec pool)) in
  if String.eqb mode mirrorModeInitOnly &&
     negb (IsAtLeast version {| Major := 19; Minor := 2; Extra := 1; Build := 0; CommitID := "" |})
  then fail (Errorf "ceph version %q does not support mirroring mode %s, minimum ceph version required is %q" [mode])
  else
    mirrorInfo ← wrapM (GetPoolMirroringInfo (pool_Name pool)) "failed to get mirroring info for the pool %q" [pool_Name pool];
    if negb (String.eqb (info_Mode mirrorInfo) "") && negb (String.eqb (info_Mode mirrorInfo) "disabled") &&
       negb (String.eqb mode (info_Mode mirrorInfo))
    then mret ()
    else
      _ ← wrapM (rbd ["mirror"; "pool"; "enable"; pool_Name pool; mode]) "failed to enable mirroring type %q for pool %q. %s"
            [mode; pool_Name pool];
      mret ().

Definition DisablePoolMirroring (poolName : string) : MW W unit :=
  _ ← wrapM (rbd ["mirror"; "pool"; "disable"; poolName]) "failed to disable mirroring for pool %q. %s" [poolName]; mret ().

Definition RemoveClusterPeer (poolName peerUUID : string) : MW W unit :=
  _ ← wrapM (rbd ["mirror"; "pool"; "peer"; "remove"; poolName; peerUUID])
        "failed to remove cluster peer with UUID %q for the pool %q. %s" [peerUUID; poolName];
  mret ().

Definition schedule_args (verb poolName : string) (s : SnapshotScheduleSpec) : list string :=
  ["mirror"; "snapshot"; "schedule"; verb; "--pool"; poolName; Interval s] ++
  (if String.eqb (StartTime s) "" then [] else [StartTime s]).

Definition enableSnapshotSchedule (poolName : string) (snapSpec : SnapshotScheduleSpec) : MW W unit :=
  _ ← wrapM (rbd (schedule_args "add" poolName snapSpec)) "failed to enable snapshot schedule on pool %q. %s" [poolName]; mret ().

Definition removeSnapshotSchedule (poolName : string) (s : SnapshotScheduleSpec) : MW W unit :=
  _ ← wrapM (rbd (schedule_args "remove" poolName s)) "failed to remove snapshot schedule on pool %q. %s" [poolName]; mret ().

Definition listSnapshotSchedules (poolName : string) : MW W (list SnapshotScheduleSpec) :=
  buf ← wrapM (rbd ["mirror"; "snapshot"; "schedule"; "ls"; "--pool"; poolName]) "failed to retrieve snapshot schedules on pool %q. %s" [poolName];
  decode (json_schedules (W := W) buf) "failed to unmarshal mirror snapshot schedule list response" [].

Definition removeSnapshotSchedules (pool : string) : MW W unit :=
  existing ← wrapM (listSnapshotSchedules pool) "failed to list snapshot schedule(s)" [];
  forM_ existing (fun s => wrapM (removeSnapshotSchedule pool s) "failed to remove snapshot schedule %v" [Interval s; StartTime s]).

Definition EnableSnapshotSchedules (poolName : string) (snapshotSchedules : list SnapshotScheduleSpec) : MW W unit :=
  _ ← try_ (removeSnapshotSchedules poolName);
  forM_ snapshotSchedules (fun s => wrapM (enableSnapshotSchedule poolName s) "failed to enable snapshot schedule" []).

Definition ImplicitNamespaceKey : string := "<implicit>".

Definition ImplicitNamespaceVal : string := "".

Definition radosNamespaceMirroringMinimumVersion : CephVersion :=
  {| Major := 19; Minor := 2; Extra := 0; Build := 0; CommitID := "" |}.

Definition EnableRBDRadosNamespaceMirroring (poolAndRadosNamespaceName : string) (remoteNamespace : option string) (mode : string) : MW W unit :=
  if negb (IsAtLeast version radosNamespaceMirroringMinimumVersion)
  then fail (Errorf "ceph version %q does not support mirroring in rados namespace %q with --remote-namespace flag, supported version are v20 and above."
               [poolAndRadosNamespaceName])
  else
    let remote (r : string) := if String.eqb r ImplicitNamespaceKey then ImplicitNamespaceVal else r in
    let args := ["mirror"; "pool"; "enable"; poolAndRadosNamespaceName; mode] ++
                match remoteNamespace with Some r => ["--remote-namespace"; remote r] | None => [] end in
    _ ← wrapM (rbd args) "failed to enable mirroring in rados namespace %s with mode %s. %s" [poolAndRadosNamespaceName; mode];
    mret ().

Definition DisableRBDRadosNamespaceMirroring (poolAndRadosNamespaceName : string) : MW W unit :=
  _ ← wrapM (rbd ["mirror"; "pool"; "disable"; poolAndRadosNamespaceName]) "failed to disable mirroring in rados namespace %s. %s"
        [poolAndRadosNamespaceName];
  mret ().

End Mirror.

Section Pool.
Context {W : Type} `{PoolEnv W} (version : CephVersion) (clusterSpec : ClusterSpec).

(** ** Properties of a pool *)

Definition set_property_args (name propName propVal : string) : list string := ["osd"; "pool"; "set"; name; propName; propVal].

Definition SetPoolProperty (name propName propVal : string) : MW W unit :=
  _ ← wrapM (ceph (set_property_args name propName propVal)) "failed to set pool property %q on pool %q. %s" [propName; name]; mret ().

Definition setPoolQuota (poolName quotaType quotaVal : string) : MW W unit :=
  _ ← wrapM (ceph ["osd"; "pool"; "set-quota"; poolName; quotaType; quotaVal]) "failed to set %q quota on pool %q. %s" [quotaType; poolName];
  mret ().

Definition SetPoolReplicatedSizeProperty (poolName size : string) : MW W unit :=
  let args := set_property_args poolName "size" size ++ (if String.eqb size "1" then ["--yes-i-really-mean-it"] else []) in
  _ ← wrapM (ceph args) "failed to set pool property %q on pool %q. %s" ["size"; poolName]; mret ().

Definition givePoolAppTag (poolName appName : string) : MW W unit :=
  currentAppName ← wrapM (GetPoolApplication poolName) "failed to get application for pool %q" [poolName];
  if String.eqb currentAppName appName then mret ()
  else
    _ ← wrapM (ceph ["osd"; "pool"; "application"; "enable"; poolName; appName; "--yes-i-really-mean-it"])
          "failed to enable application %q on pool %q. %s" [appName; poolName];
    mret ().

Definition targetSizeRatioProperty : string := "target_size_ratio".

Definition CompressionModeProperty : string := "compression_mode".

(** A property that is not among the parameters. *)
Definition add_parameter (name value : string) (given : bool) (params : gmap string string) : gmap string string :=
  match params !! name with
  | Some _ => params
  | None => if given then <[name := value]> params else params
  end.

Definition pool_parameters (p : PoolSpec) : gmap string string :=
  let ratio := TargetSizeRatio (Replicated p) in
  add_parameter CompressionModeProperty (CompressionMode p) (negb (String.eqb (CompressionMode p) ""))
    (add_parameter targetSizeRatioProperty (ratio_text ratio) (match ratio_sign ratio with Eq => false | _ => true end) (Parameters p)).

Definition set_quotas (name : string) (q : QuotaSpec) : MW W unit :=
  _ ← match MaxSize q, MaxBytes q with
      | Some size, _ =>
          maxBytesQuota ← wrapM (lift (parse_quantity (W := W) size)) "failed setting quota for pool %q, maxSize quota parse error" [name];
          wrapM (setPoolQuota name "max_bytes" (Itoa maxBytesQuota)) "failed to set max_bytes quota for pool %q" [name]
      | None, Some bytes => wrapM (setPoolQuota name "max_bytes" (Itoa bytes)) "failed to set max_bytes quota for pool %q" [name]
      | None, None => mret ()
      end;
  match MaxObjects q with
  | Some objects => wrapM (setPoolQuota name "max_objects" (Itoa objects)) "failed to set max_objects quota for pool %q" [name]
  | None => mret ()
  end.

Definition setCommonPoolProperties (pool : NamedPoolSpec) : MW W unit :=
  let p := pool_Spec pool in
  let name := pool_Name pool in
  _ ← forM_ (range_map (W := W) (pool_parameters p)) (fun '(propName, propValue) =>
        _ ← try_ (SetPoolProperty name propName propValue); mret ());
  _ ← (if String.eqb (Application p) "" then mret ()
       else wrapM (givePoolAppTag name (Application p)) "failed to tag pool %q for application %q" [name; Application p]);
  _ ← (if mirror_Enabled (Mirroring p) then
         _ ← wrapM (enablePoolMirroring version pool) "failed to enable mirroring for pool %q" [name];
         if SnapshotSchedulesEnabled (Mirroring p)
         then wrapM (EnableSnapshotSchedules name (SnapshotSchedules (Mirroring p))) "failed to enable snapshot scheduling for pool %q" [name]
         else mret ()
       else mret ());
  set_quotas name (Quotas p).

(** ** Erasure code profiles ([erasure-code-profile.go]) *)

Definition GetErasureCodeProfileForPool (baseName : string) : string := baseName +:+ "_ecprofile".

Definition ListErasureCodeProfiles : MW W (list string) :=
  buf ← wrapM (ceph ["osd"; "erasure-code-profile"; "ls"]) "failed to list erasure-code-profiles" [];
  decode (json_ec_profiles (W := W) buf) "unmarshal failed raw buffer response %s" [buf].

Definition GetErasureCodeProfileDetails (name : string) : MW W CephErasureCodeProfile :=
  buf ← wrapM (ceph ["osd"; "erasure-code-profile"; "get"; name]) "failed to get erasure-code-profile for %q" [name];
  decode (json_ec_profile (W := W) buf) "unmarshal failed raw buffer response %s" [buf].

Definition given_pair (given : bool) (key value : string) : list string := if given then [key +:+ "=" +:+ value] else [].

Definition stripe_pair (ec : ErasureCodedSpec) : result (list string) :=
  match StripeUnit ec with
  | Some q =>
      if IsZero q then Ok []
      else match AsInt64 q with
           | Some stripeBytes => Ok ["stripe_unit=" +:+ Itoa stripeBytes]
           | None => Err (Errorf "erasure-coded stripeUnit %q cannot be represented as a byte stripe for Ceph" [])
           end
  | None => Ok []
  end.

Definition profile_pairs (defaultProfile : CephErasureCodeProfile) (pool : PoolSpec) (stripe : list string) : list string :=
  let ec := ErasureCoded pool in
  ["k=" +:+ Itoa (DataChunks ec); "m=" +:+ Itoa (CodingChunks ec);
   "plugin=" +:+ or_default (Algorithm ec) (Plugin defaultProfile); "technique=" +:+ Technique defaultProfile] ++
  given_pair (negb (String.eqb (FailureDomain pool) "")) "crush-failure-domain" (FailureDomain pool) ++
  given_pair (negb (String.eqb (CrushRoot pool) "")) "crush-root" (CrushRoot pool) ++
  given_pair (negb (String.eqb (DeviceClass pool) "")) "crush-device-class" (DeviceClass pool) ++
  given_pair (0 <? CrushNumFailureDomains ec) "crush-num-failure-domains" (Itoa (CrushNumFailureDomains ec)) ++
  given_pair (0 <? CrushOSDsPerFailureDomain ec) "crush-osds-per-failure-domain" (Itoa (CrushOSDsPerFailureDomain ec)) ++ stripe.

Definition CreateErasureCodeProfile (profileName : string) (pool : PoolSpec) : MW W unit :=
  defaultProfile ← wrapM (GetErasureCodeProfileDetails "default") "failed to look up default erasure code profile" [];
  stripe ← lift (stripe_pair (ErasureCoded pool));
  _ ← wrapM (ceph (["osd"; "erasure-code-profile"; "set"; profileName; "--force"] ++ profile_pairs defaultProfile pool stripe))
        "failed to set ec-profile" [];
  mret ().

Definition DeleteErasureCodeProfile (profileName : string) : MW W unit :=
  _ ← wrapM (ceph ["osd"; "erasure-code-profile"; "rm"; profileName]) "failed to delete erasure-code-profile %q. output: %q." [profileName];
  mret ().

(** ** Creating and updating a pool *)

Definition createECPoolForApp (ecProfileName : string) (pool : NamedPoolSpec) (pgCount : string) (enableECOverwrite : bool) : MW W unit :=
  _ ← wrapM (ceph ["osd"; "pool"; "create"; pool_Name pool; pgCount; "erasure"; ecProfileName]) "failed to create EC pool %s. %s" [pool_Name pool];
  _ ← (if enableECOverwrite
       then wrapM (SetPoolProperty (pool_Name pool) "allow_ec_overwrites" "true") "failed to allow EC overwrite for pool %s" [pool_Name pool]
       else mret ());
  setCommonPoolProperties pool.

Definition updated_rule_name (pool : NamedPoolSpec) : string :=
  let p := pool_Spec pool in
  if String.eqb (DeviceClass p) "" then pool_Name pool +:+ "_" +:+ FailureDomain p
  else pool_Name pool +:+ "_" +:+ FailureDomain p +:+ "_" +:+ DeviceClass p.

Definition updatePoolCrushRuleLocked (pool : NamedPoolSpec) : MW W unit :=
  let p := pool_Spec pool in
  match EnableCrushUpdates p with
  | Some true =>
      if IsStretchCluster clusterSpec then mret ()
      else if String.eqb (FailureDomain p) "" && String.eqb (DeviceClass p) "" then mret ()
      else
        details ← wrapM (GetPoolDetails (pool_Name pool)) "failed to get pool %q details" [pool_Name pool];
        rule ← wrapM (getCrushRule (det_CrushRule details)) "failed to get crush rule %q" [det_CrushRule details];
        let '(currentFailureDomain, currentDeviceClass) := extractPoolDetails rule in
        if String.eqb currentFailureDomain (FailureDomain p) && String.eqb currentDeviceClass (DeviceClass p) then mret ()
        else
          let crushRuleName := updated_rule_name pool in
          if String.eqb crushRuleName (det_CrushRule details) then mret ()
          else
            _ ← wrapM (createReplicationCrushRule clusterSpec crushRuleName pool) "failed to create replicated crush rule %q" [crushRuleName];
            wrapM (setCrushRule (pool_Name pool) crushRuleName) "failed to set crush rule on pool %q" [pool_Name pool]
  | _ => mret ()
  end.

(** [RLock] with a deferred [RUnlock]. *)
Definition read_locked {A} (m : MW W A) : MW W A := _ ← mutex RLock; deferred (mutex RUnlock) m.

Definition write_locked {A} (m : MW W A) : MW W A := _ ← mutex WLock; deferred (mutex WUnlock) m.

Definition updatePoolCrushRule (pool : NamedPoolSpec) : MW W unit := read_locked (updatePoolCrushRuleLocked pool).

Definition defaultStretchCrushRuleName : string := "default_stretch_cluster_rule".

(** The rule of the pool: its name, and whether the failure domain is to be checked afterwards. *)
Definition prepare_rule (pool : NamedPoolSpec) (poolExists : bool) : MW W (string * bool) :=
  let p := pool_Spec pool in
  let name := pool_Name pool in
  if IsStretchCluster clusterSpec then mret (defaultStretchCrushRuleName, false)
  else match HybridStorage (Replicated p) with
  | Some hybrid =>
      _ ← wrapM (createHybridCrushRule clusterSpec name p hybrid) "failed to create hybrid crush rule %q" [name];
      mret (name, false)
  | None =>
      if 1 <? ReplicasPerFailureDomain (Replicated p) then
        _ ← wrapM (createStretchCrushRule clusterSpec name p) "failed to create two-step crush rule %q" [name];
        mret (name, false)
      else
        _ ← (if poolExists then mret ()
             else wrapM (createReplicationCrushRule clusterSpec name pool) "failed to create replicated crush rule %q" [name]);
        mret (name, true)
  end.

Definition create_pool_args (pool : NamedPoolSpec) (pgCount crushRuleName : string) : list string :=
  ["osd"; "pool"; "create"; pool_Name pool; pgCount; "replicated"; crushRuleName; "--size"; Itoa (Size (Replicated (pool_Spec pool)))] ++
  (if HasPrefix (pool_Name pool) "." then ["--yes-i-really-mean-it"] else []).

(** The pool is created, or its size is set. *)
Definition ensure_replicated (pool : NamedPoolSpec) (pgCount crushRuleName : string) (existing : result CephStoragePoolDetails) : MW W unit :=
  let p := pool_Spec pool in
  match existing with
  | Err _ =>
      _ ← wrapM (ceph (create_pool_args pool pgCount crushRuleName)) "failed to create replicated pool %s. %s" [pool_Name pool]; mret ()
  | Ok poolDetails =>
      if negb (IsStretchCluster clusterSpec) && IsReplicated p && negb (det_Size poolDetails =? Size (Replicated p))
      then wrapM (SetPoolReplicatedSizeProperty (pool_Name pool) (Itoa (Size (Replicated p))))
             "failed to set size property to replicated pool %q to %d" [pool_Name pool; Itoa (Size (Replicated p))]
      else mret ()
  end.

Definition createReplicatedPoolForApp (pool : NamedPoolSpec) (pgCount : string) : MW W unit :=
  let p := pool_Spec pool in
  read_locked (
    poolDetails ← try_ (GetPoolDetails (pool_Name pool));
    '(crushRuleName, checkFailureDomain) ← prepare_rule pool (is_ok poolDetails);
    _ ← ensure_replicated pool pgCount crushRuleName poolDetails;
    _ ← setCommonPoolProperties pool;
    if (checkFailureDomain : bool) || negb (String.eqb (DeviceClass p) "")
    then wrapM (updatePoolCrushRuleLocked pool) "failed to update crush rule for pool %q" [pool_Name pool]
    else mret ()).

(** The application of a pool that is built into Ceph. *)
Definition override_application (pool : NamedPoolSpec) : NamedPoolSpec :=
  let set app := {| pool_Name := pool_Name pool; pool_Spec := set_Application app (pool_Spec pool) |} in
  if String.eqb (pool_Name pool) ".mgr" then set "mgr"
  else if String.eqb (pool_Name pool) ".nfs" then set "nfs"
  else if String.eqb (pool_Name pool) ".rgw.root" then set "rgw"
  else if String.eqb (pool_Name pool) ".nvmeof" then set "nvmeof-meta"
  else pool.

(** Returns the pool as it was changed through the pointer. *)
Definition CreatePoolWithPGs (pool : NamedPoolSpec) (pgCount : string) : MW W NamedPoolSpec :=
  if String.eqb (pool_Name pool) "" then fail (Errorf "pool name must be specified" [])
  else
    let pool := override_application pool in
    let p := pool_Spec pool in
    if IsReplicated p then _ ← createReplicatedPoolForApp pool pgCount; mret pool
    else if negb (IsErasureCoded p) then fail (Errorf "pool %q type is not defined as replicated or erasure coded" [pool_Name pool])
    else
      let ecProfileName := GetErasureCodeProfileForPool (pool_Name pool) in
      _ ← wrapM (CreateErasureCodeProfile ecProfileName p) "failed to create erasure code profile for pool %q" [pool_Name pool];
      _ ← createECPoolForApp ecProfileName pool pgCount true;
      mret pool.

Definition DefaultPGCount : string := "0".

Definition CreatePool (pool : NamedPoolSpec) : MW W NamedPoolSpec := CreatePoolWithPGs pool DefaultPGCount.

(** ** Deleting *)

Definition delete_pool_args (name : string) : list string := ["osd"; "pool"; "delete"; name; name; "--yes-i-really-really-mean-it"].

Definition DeletePool (name : string) : MW W unit :=
  pool ← wrapM (GetPoolDetails name) "failed to get pool %q details" [name];
  _ ← wrapM (checkForImagesInPool name) "failed to check if pool %q has rbd images" [name];
  _ ← wrapM (ceph (delete_pool_args name)) "failed to delete pool %q. %s" [name];
  if String.eqb (det_CrushRule pool) "" then mret ()
  else _ ← try_ (deleteCrushRule (det_CrushRule pool)); mret ().

Fixpoint used_rules (pools : list CephStoragePoolSummary) (usedRules : gset string) : MW W (gset string) :=
  match pools with
  | [] => mret usedRules
  | pool :: pools =>
      details ← wrapM (GetPoolDetails (sum_Name pool)) "failed to get pool %q details while checking crush rule usage" [sum_Name pool];
      used_rules pools (if String.eqb (det_CrushRule details) "" then usedRules else {[det_CrushRule details]} ∪ usedRules)
  end.

Definition getUsedCrushRules : MW W (gset string) := pools ← ListPoolSummaries; used_rules pools ∅.

(** Goes on after an error, and returns the last one. *)
Fixpoint delete_unused (usedRules : gset string) (rules : list ruleSpec) (lastErr : option gerror) : MW W (option gerror) :=
  match rules with
  | [] => mret lastErr
  | rule :: rules =>
      if bool_decide (rule_Name rule ∈ usedRules) then delete_unused usedRules rules lastErr
      else if String.eqb (rule_Name rule) "replicated_rule" then delete_unused usedRules rules lastErr
      else
        r ← try_ (deleteCrushRule (rule_Name rule));
        delete_unused usedRules rules (match r with Ok _ => lastErr | Err err => Some err end)
  end.

Definition CleanupUnusedCrushRules : MW W unit :=
  write_locked (
    usedRules ← getUsedCrushRules;
    if bool_decide (usedRules = ∅) then mret ()
    else
      crushMap ← GetCrushMap;
      lastErr ← delete_unused usedRules (Rules crushMap) None;
      match lastErr with None => mret () | Some err => fail err end).


End Pool.


End Pools.
