(* ===== verification/BlockPool.v ===== *)
(** * BlockPool: the controller of block pools

    Models [pkg/operator/ceph/pool]: [validate.go], [controller.go], [dependents.go], [peers.go] and
    [status.go], with [IsReadyToReconcile] of [pkg/operator/ceph/controller/controller_utils.go], the
    settings in the mon store ([pkg/operator/ceph/config/monstore.go]) and the peer token of
    [mirror_peer.go].

    The API server is the class [BlockPoolEnv].  The reconciler's own state, which pools have a running
    monitor of their mirroring, is part of the world: the programs run in [world (Contexts * W) call]. *)

From stdpp Require Import base gmap strings list fin_maps.
From Stdlib Require Import ZArith Ascii.
From S2P Require Import Prelude Names CephVersion Cephx OsdBase Pools.
Import Log Version Cephx Pools.
Open Scope Z_scope.

Module BlockPool.

(** ** The state of the reconciler *)

(** Per pool, whether its monitor was started; the entry holds the context that stops it. *)
Abbreviation Contexts := (gmap string bool) (only parsing).

Definition on_env {S W A} (m : M W A) : M (S * W) A := fun '(s, w) => let '(w', r) := m w in ((s, w'), r).

#[global] Instance lifted_env {S W} `{PoolEnv W} : PoolEnv (S * W) := {
  env_ceph args := on_env (env_ceph args);
  env_rbd args := on_env (env_rbd args);
  env_tool cmd := on_env (env_tool cmd);
  env_temp_file := on_env env_temp_file;
  env_append_file path text := on_env (env_append_file path text);
  env_remove_file path := on_env (env_remove_file path);
  env_mutex a := fun '(s, w) => (s, env_mutex a w);
  error_text := error_text (W := W);
  exit_status := exit_status (W := W);
  json_pools := json_pools (W := W);
  json_details := json_details (W := W);
  json_applications := json_applications (W := W);
  json_statistics := json_statistics (W := W);
  json_crush_map := json_crush_map (W := W);
  json_rule := json_rule (W := W);
  json_ec_profile := json_ec_profile (W := W);
  json_ec_profiles := json_ec_profiles (W := W);
  json_mirror_info := json_mirror_info (W := W);
  json_mirrored_images := json_mirrored_images (W := W);
  json_schedules := json_schedules (W := W);
  json_namespaces := json_namespaces (W := W);
  json_ints := json_ints (W := W);
  parse_quantity := parse_quantity (W := W);
  range_map := range_map (W := W);
  range_map_ok := range_map_ok (W := W);
}.

(** ** Validation ([validate.go] and [pkg/apis/ceph.rook.io/v1/pool.go]) *)

Definition ToNamedPoolSpec (p : CephBlockPool) : NamedPoolSpec :=
  {| pool_Name := or_default (spec_Name p) (bp_Name p); pool_Spec := bp_Spec p |}.

Definition positive_ratio (r : Ratio) : bool := match ratio_sign r with Gt => true | _ => false end.

Definition zero_ratio (r : Ratio) : bool := match ratio_sign r with Eq => true | _ => false end.

Definition validatePoolSpec (ps : NamedPoolSpec) : result unit :=
  let ec := ErasureCoded (pool_Spec ps) in
  let rep := Replicated (pool_Spec ps) in
  if (CodingChunks ec <=? 0) && (DataChunks ec <=? 0) && negb (positive_ratio (TargetSizeRatio rep)) && (Size rep <=? 0)
  then Err (Errorf "invalid pool spec: either of erasurecoded or replicated fields should be set" [])
  else if ((0 <? CodingChunks ec) || (0 <? DataChunks ec) || negb (String.eqb (Algorithm ec) "")) &&
          ((0 <? Size rep) || positive_ratio (TargetSizeRatio rep))
  then Err (Errorf "invalid pool spec: both erasurecoded and replicated fields cannot be set at the same time" [])
  else if (Size rep =? 0) && zero_ratio (TargetSizeRatio rep) then
    if (DataChunks ec <? 2) && negb (DataChunks ec =? 0)
    then Err (Errorf "invalid pool spec: erasurecoded.datachunks needs minimum value of 2" [])
    else if (CodingChunks ec <? 1) && negb (CodingChunks ec =? 0)
    then Err (Errorf "invalid pool spec: erasurecoded.codingchunks needs minimum value of 1" [])
    else Ok ()
  else Ok ().

Definition ValidateCephBlockPool (p : CephBlockPool) : result unit :=
  if (String.eqb (spec_Name p) ".rgw.root" || String.eqb (spec_Name p) ".mgr" || String.eqb (spec_Name p) ".nfs") &&
     IsErasureCoded (bp_Spec p)
  then Err (Errorf "invalid CephBlockPool spec: ceph built-in pool %q cannot be erasure coded" [spec_Name p])
  else validatePoolSpec (ToNamedPoolSpec p).

Definition require (b : bool) (e : gerror) : result unit := if b then Ok () else Err e.

Definition compression_ok (params : gmap string string) : result unit :=
  match params !! CompressionModeProperty with
  | Some compression =>
      require (bool_decide (compression ∈ [""; "none"; "passive"; "aggressive"; "force"]))
        (Errorf "failed to validate pool spec unknown compression mode %q" [compression])
  | None => Ok ()
  end.

Definition mirroring_ok (m : MirroringSpec) : result unit :=
  if mirror_Enabled m then
    _ ← require (bool_decide (mirror_Mode m ∈ ["image"; "pool"; "init-only"]))
          (Errorf "unrecognized mirroring mode %q. only 'image and 'pool' are supported" [mirror_Mode m]);
    forE_ (SnapshotSchedules m) (fun s =>
      require (negb (String.eqb (Interval s) "" && negb (String.eqb (StartTime s) "")))
        (Errorf "schedule interval cannot be empty if start time is specified" []))
  else Ok ().

(** Names that are given must be in the CRUSH map. *)
Definition crush_ok (p : PoolSpec) (crush : CrushMap) : result unit :=
  let sub := SubFailureDomain (Replicated p) in
  let known name l := String.eqb name "" || bool_decide (name ∈ l) in
  _ ← require (known (FailureDomain p) (Types crush)) (Errorf "unrecognized failure domain %s" [FailureDomain p]);
  _ ← require (known (CrushRoot p) (Buckets crush)) (Errorf "unrecognized crush root %s" [CrushRoot p]);
  require (known sub (Types crush)) (Errorf "unrecognized crush sub domain %s" [sub]).

Definition replicas_ok (p : PoolSpec) : result unit :=
  let rep := Replicated p in
  let per := ReplicasPerFailureDomain rep in
  if IsReplicated p then
    _ ← require (negb ((Size rep =? 1) && RequireSafeReplicaSize rep))
          (Errorf "error pool size is %d and requireSafeReplicaSize is %t, must be false" [Itoa (Size rep)]);
    _ ← require (negb (Size rep <=? per)) (Errorf "error pool size is %d and replicasPerFailureDomain is %d, size must be greater"
                                             [Itoa (Size rep); Itoa per]);
    require ((per =? 0) || (Size rep mod per =? 0))
      (Errorf "error replicasPerFailureDomain is %d must be a factor of the replica count %d" [Itoa per; Itoa (Size rep)])
  else Ok ().

Section Validate.
Context {W : Type} `{PoolEnv W} (clusterSpec : ClusterSpec).

Definition GetDeviceClassOSDs (deviceClass : string) : MW W (list Z) :=
  buf ← wrapM (ceph ["osd"; "crush"; "class"; "ls-osd"; deviceClass]) "failed to get device class osd. %s" [];
  decode (json_ints (W := W) buf) "failed to unmarshal device class osd response" [].

Definition validateDeviceClassOSDs (deviceClassName : string) : MW W unit :=
  deviceClassOSDs ← wrapM (GetDeviceClassOSDs deviceClassName) "failed to get osds for the device class %q" [deviceClassName];
  match deviceClassOSDs with [] => fail (Errorf "no osds available for the device class %q" [deviceClassName]) | _ => mret () end.

Definition validateDeviceClasses (hybrid : HybridStorageSpec) : MW W unit :=
  _ ← wrapM (validateDeviceClassOSDs (PrimaryDeviceClass hybrid)) "failed to validate primary device class %q" [PrimaryDeviceClass hybrid];
  wrapM (validateDeviceClassOSDs (SecondaryDeviceClass hybrid)) "failed to validate secondary device class %q" [SecondaryDeviceClass hybrid].

(** What is checked without asking Ceph, before the CRUSH map is read. *)
Definition kind_ok (p : PoolSpec) : result unit :=
  let sub := SubFailureDomain (Replicated p) in
  _ ← require (negb (IsReplicated p && IsErasureCoded p)) (Errorf "both replication and erasure code settings cannot be specified" []);
  _ ← require (negb (negb (String.eqb (FailureDomain p) "") && negb (String.eqb sub "") && String.eqb (FailureDomain p) sub))
        (Errorf "failure and subfailure domain cannot be identical" []);
  if IsStretchCluster clusterSpec then
    _ ← require (negb (IsReplicated p) || (Size (Replicated p) =? 4)) (Errorf "pools in a stretch cluster must have replication size 4" []);
    require (negb (IsErasureCoded p)) (Errorf "erasure coded pools are not supported in stretch clusters" [])
  else Ok ().

Definition ValidatePoolSpec (p : PoolSpec) : MW W unit :=
  _ ← match HybridStorage (Replicated p) with
      | Some hybrid => wrapM (validateDeviceClasses hybrid) "failed to validate device classes for hybrid storage pool spec" []
      | None => mret ()
      end;
  _ ← lift (kind_ok p);
  crush ← (if String.eqb (FailureDomain p) "" && String.eqb (CrushRoot p) ""
           then mret {| Types := []; Buckets := []; Rules := [] |}
           else wrapM GetCrushMap "failed to get crush map" []);
  _ ← lift (crush_ok p crush);
  _ ← lift (replicas_ok p);
  _ ← lift (compression_ok (Parameters p));
  lift (mirroring_ok (Mirroring p)).

Definition validatePool (p : CephBlockPool) : MW W unit :=
  if String.eqb (bp_Name p) "" then fail (Errorf "missing name" [])
  else if String.eqb (bp_Namespace p) "" then fail (Errorf "missing namespace" [])
  else
    _ ← lift (ValidateCephBlockPool p);
    ValidatePoolSpec (bp_Spec p).

End Validate.

(** ** Whether Ceph can be reconciled ([controller_utils.go]) *)

Record Result := { Requeue : bool; RequeueAfter : Z }.

Definition Done : Result := {| Requeue := false; RequeueAfter := 0 |}.

Definition ImmediateRetryResult : Result := {| Requeue := true; RequeueAfter := 0 |}.

Definition WaitForRequeueIfCephClusterNotReady : Result := {| Requeue := true; RequeueAfter := 10 |}.

Definition WaitForRequeueIfFinalizerBlocked : Result := {| Requeue := true; RequeueAfter := 10 |}.

Definition WaitForRequeueIfOperatorNotInitialized : Result := {| Requeue := true; RequeueAfter := 10 |}.

Definition UninitializedCephConfigError : string := "error calling conf_read_file".

Definition DeleteDataDirOnHostsConfirmation : string := "yes-really-destroy-data".

Definition HasDataDirCleanPolicy (c : CephCluster) : bool := String.eqb (Confirmation c) DeleteDataDirOnHostsConfirmation.

Definition allowedErrStatus : list string :=
  ["MDS_ALL_DOWN"; "MGR_MODULE_ERROR"; "AUTH_INSECURE_SERVICE_KEY_TYPE"; "AUTH_INSECURE_ROTATING_SERVICE_KEY_TYPE";
   "AUTH_INSECURE_SERVICE_TICKETS"].

Definition canIgnoreHealthErrStatusInReconcile (status : CephStatus) : bool :=
  let healthErrKeys := (List.filter (fun kv => String.eqb kv.2 "HEALTH_ERR") (map_to_list (Details status))).*1 in
  match healthErrKeys with
  | [] => false
  | _ => forallb (fun key => bool_decide (key ∈ allowedErrStatus)) healthErrKeys
  end.

(** Whether commands to Ceph can be expected to work. *)
Definition cluster_ready (c : CephCluster) : bool :=
  match cl_Status c with
  | Some status =>
      String.eqb (Health status) "HEALTH_OK" || String.eqb (Health status) "HEALTH_WARN" || canIgnoreHealthErrStatusInReconcile status
  | None => false
  end.

Definition ExtractCephVersionFromLabel (labelVersion : string) : result CephVersion := ExtractCephVersion ("ceph version " +:+ labelVersion).

Definition GetImageVersion (c : CephCluster) : result CephVersion :=
  match cl_Version c with
  | Some (image, version) =>
      if String.eqb (cl_Image c) image then ExtractCephVersionFromLabel version
      else Err (Errorf "attempt to determine ceph version for the current cluster image timed out" [])
  | None => Err (Errorf "attempt to determine ceph version for the current cluster image timed out" [])
  end.

(** ** The environment of the controller *)

Class BlockPoolEnv (W : Type) := {
  bp_pool_env :: PoolEnv W;
  env_get_pool : string -> string -> M W CephBlockPool;
  env_list_pools : string -> M W (list CephBlockPool);
  env_list_namespaces : string -> M W (list CephBlockPoolRadosNamespace);
  env_list_clusters : string -> M W (list CephCluster);
  env_update_pool_status : CephBlockPool -> M W unit;
  (** adds the finalizer: whether the generation changed *)
  env_add_finalizer : CephBlockPool -> M W bool;
  env_remove_finalizer : CephBlockPool -> M W unit;
  (** the conditions that say whether deletion is blocked: not empty, and dependents *)
  env_update_conditions : CephBlockPool -> bool -> bool -> M W unit;
  (** [LoadClusterInfo] *)
  env_load_cluster_info : string -> M W unit;
  (** [ResourceCleanup.StartJob]: the job that removes what a resource of this kind holds, its name and its
      settings *)
  env_start_cleanup : string -> string -> gmap string string -> M W unit;
  env_get_secret : string -> string -> M W (gmap string string);
  env_write_secret : string -> gmap string string -> M W unit;
  (** [expandBootstrapPeerToken]: adds the namespace to the base64 token *)
  expand_token : string -> result string;
  (** [peermap.ReconcilePoolIDMap] *)
  env_pool_id_map : CephBlockPool -> M W unit;
  (** the mirroring part of the status, and [go checker.CheckMirroring] *)
  env_reset_mirroring_status : string -> M W unit;
  env_start_monitor : string -> M W unit;
}.

Section Controller.
Context {W : Type} `{BlockPoolEnv W}.

Abbreviation MC := (MW (gmap string bool * W)).

(** A call to the API server. *)
Definition api {A} (verb kind name : string) (m : M W A) : MC A :=
  record (fun r => Api verb kind name (negb (is_ok r))) (on_env m).

Definition get_pool (ns name : string) : MC CephBlockPool := record (GetPool ns name) (on_env (env_get_pool ns name)).

Definition get_contexts : MC (gmap string bool) := fun w => (w, Ok (env w).1).

Definition set_contexts (c : gmap string bool) : MC unit := fun w => (World (c, (env w).2) (log w), Ok ()).

(** ** The mon store *)

Definition normalizeKey (key : string) : string := map_bytes (fun c => if Ascii.eqb c " " || Ascii.eqb c "-" then "_"%char else c) key.

Definition monstore_Set (who option value : string) : MC unit :=
  _ ← wrapM (ceph ["config"; "set"; who; normalizeKey option; value])
        "failed to set ceph config in the centralized mon configuration database; you may need to use the rook-config-override ConfigMap. output: %s" [];
  mret ().

Definition monstore_Delete (who option : string) : MC unit :=
  _ ← wrapM (ceph ["config"; "rm"; who; normalizeKey option])
        "failed to delete ceph config in the centralized mon configuration database. output: %s" [];
  mret ().

Definition monstore_Get (who option : string) : MC string :=
  out ← wrapM (ceph ["config"; "get"; who; normalizeKey option]) "failed to get config setting %q for user %q" [option; who];
  mret (OsdBase.TrimSpace out).

Definition SetIfChanged (who option value : string) : MC bool :=
  let getWho := if String.eqb who "global" then "client" else who in
  currentVal ← wrapM (monstore_Get getWho option) "failed to get value %q" [option];
  if String.eqb currentVal value then mret false
  else _ ← wrapM (monstore_Set who option value) "failed to set value %s=%s" [option; value]; mret true.

(** ** Statistics per image *)

Fixpoint add_unique (removePools poolList pools : list string) : list string :=
  match pools with
  | [] => poolList
  | pool :: pools =>
      if String.eqb pool "" || bool_decide (pool ∈ removePools) || bool_decide (pool ∈ poolList)
      then add_unique removePools poolList pools
      else add_unique removePools (poolList ++ [pool]) pools
  end.

Definition stats_pools (existingStatsPools rookStatsPools removePools : list string) : list string :=
  sort_strings (add_unique removePools (add_unique removePools [] existingStatsPools) rookStatsPools).

Definition generateStatsPoolList (existingStatsPools rookStatsPools removePools : list string) : string :=
  Join (stats_pools existingStatsPools rookStatsPools removePools) ",".

Definition statsOption : string := "mgr/prometheus/rbd_stats_pools".

Definition wants_stats (p : CephBlockPool) : bool := negb (bp_Deleted p) && EnableRBDStats (bp_Spec p).

Definition configureRBDStats (ns deletedPool : string) : MC unit :=
  items ← wrapM (api "list" "CephBlockPool" ns (env_list_pools ns)) "failed to retrieve list of CephBlockPool" [];
  let name p := pool_Name (ToNamedPoolSpec p) in
  let rookStatsPools := name <$> List.filter wants_stats items in
  let removePools := (name <$> List.filter (fun p => negb (wants_stats p)) items) ++ (if String.eqb deletedPool "" then [] else [deletedPool]) in
  existingStatsPools ← wrapM (monstore_Get "mgr" statsOption) "failed to get rbd_stats_pools" [];
  let enableStatsForPools := generateStatsPoolList (split_byte "," existingStatsPools) rookStatsPools removePools in
  wrapM (if String.eqb enableStatsForPools "" then monstore_Delete "mgr" statsOption
         else monstore_Set "mgr" statsOption enableStatsForPools)
    "failed to enable rbd_stats_pools" [].

(** ** The status of the resource ([status.go]) *)

Definition ConditionReady : string := "Ready".

Definition ConditionProgressing : string := "Progressing".

Definition ConditionFailure : string := "Failure".

Definition ObservedGenerationNotAvailable : Z := -1.

Definition status_info (p : CephBlockPool) (phase : string) : gmap string string :=
  let mirror : gmap string string :=
    if String.eqb phase ConditionReady && mirror_Enabled (Mirroring (bp_Spec p))
    then {["rbdMirrorBootstrapPeerSecretName" := "pool-peer-token-" +:+ bp_Name p]} else ∅ in
  <["failureDomain" := or_default (FailureDomain (bp_Spec p)) DefaultFailureDomain]>
    (<["type" := if IsReplicated (bp_Spec p) then "Replicated" else "Erasure Coded"]> mirror).

Definition no_status : CephBlockPoolStatus :=
  {| Phase := ""; Message := ""; PoolID := 0; status_Info := ∅; ObservedGeneration := 0; PeerToken := None |}.

Definition set_Status (s : CephBlockPoolStatus) (p : CephBlockPool) : CephBlockPool :=
  {| bp_Namespace := bp_Namespace p; bp_Name := bp_Name p; bp_Generation := bp_Generation p; bp_Deleted := bp_Deleted p;
     bp_Annotations := bp_Annotations p; spec_Name := spec_Name p; bp_Spec := bp_Spec p; bp_Status := Some s |}.

(** The ID of the pool is looked up once. *)
Definition updatePoolID (p : CephBlockPool) (id : Z) : MC Z :=
  r ← try_ (GetPoolDetails (pool_Name (ToNamedPoolSpec p)));
  mret (match r with Ok details => det_Number details | Err _ => id end).

Definition set_status_once (ns name status message : string) (observedGeneration : Z) (cephx : option CephxStatus) : MC unit :=
  r ← try_ (get_pool ns name);
  match r with
  | Err err =>
      if IsNotFound err then mret () else fail (Wrapf err "failed to retrieve pool %q to update status to %q" [name; status])
  | Ok pool =>
      let old := default no_status (bp_Status pool) in
      id ← (if String.eqb status ConditionReady && (PoolID old =? 0) then updatePoolID pool (PoolID old) else mret (PoolID old));
      let new := {| Phase := status; Message := message; PoolID := id; status_Info := status_info pool status;
                    ObservedGeneration := if observedGeneration =? ObservedGenerationNotAvailable then ObservedGeneration old
                                          else observedGeneration;
                    PeerToken := match cephx with Some c => Some c | None => PeerToken old end |} in
      wrapM (record (SetPoolStatus (set_Status new pool)) (on_env (env_update_pool_status (set_Status new pool))))
        "failed to set pool %q status to %q" [bp_Name pool; status]
  end.

Definition IsConflict (e : gerror) : bool := bool_decide (ReasonForError e = Some (OtherReason 409)).

(** [retry.RetryOnConflict]: [steps] attempts after the first. *)
Fixpoint RetryOnConflict {A} (steps : nat) (f : MC A) : MC A :=
  match steps with
  | O => f
  | S steps =>
      r ← try_ f;
      match r with
      | Ok a => mret a
      | Err e => if IsConflict e then RetryOnConflict steps f else fail e
      end
  end.

(** An error is only logged: the function returns no error. *)
Definition updateStatus (ns name status message : string) (observedGeneration : Z) (cephx : option CephxStatus) : MC (option gerror) :=
  _ ← try_ (RetryOnConflict 4 (set_status_once ns name status message observedGeneration cephx));
  mret None.

(** ** Monitors of mirroring *)

Definition blockPoolChannelKeyName (p : CephBlockPool) : string := bp_Namespace p +:+ "/" +:+ bp_Name p.

Definition cancelMirrorMonitoring (key : string) : MC unit := contexts ← get_contexts; set_contexts (delete key contexts).

(** ** Deletion *)

Definition GetRadosNamespaceName (n : CephBlockPoolRadosNamespace) : string :=
  if String.eqb (rns_SpecName n) ImplicitNamespaceKey then ImplicitNamespaceVal
  else or_default (rns_SpecName n) (rns_Name n).

(** The names of the rados namespaces of the pool. *)
Definition cephBlockPoolDependents (p : CephBlockPool) : MC (list string) :=
  namespaces ← wrapM (record (ListNamespaces (bp_Namespace p)) (on_env (env_list_namespaces (bp_Namespace p))))
                 "%s. failed to list CephBlockPoolRadosNamespace for CephBlockPool %q" [bp_Name p];
  mret (GetRadosNamespaceName <$> List.filter (fun n => String.eqb (rns_BlockPoolName n) (bp_Name p)) namespaces).

Definition lower (c : ascii) : ascii := if (65 <=? ascii_Z c) && (ascii_Z c <=? 90) then ascii_of_nat (nat_of_ascii c + 32) else c.

Definition ForceDeleteRequested (annotations : gmap string string) : bool :=
  match annotations !! "rook.io/force-deletion" with
  | Some value => String.eqb (map_bytes lower value) "true"
  | None => false
  end.

(** The settings of the job that removes the images of a pool. *)
Definition pool_cleanup_config (p : CephBlockPool) : gmap string string := {["BLOCKPOOL_NAME" := bp_Name p]}.

Definition cleanup_pool (p : CephBlockPool) : MC unit :=
  let jobName := ObjectName.TruncateNodeNameForJob "cleanup-cephblockpool-%s" (bp_Name p) in
  wrapM (api "cleanup" "Job" jobName (env_start_cleanup "CephBlockPool" jobName (pool_cleanup_config p)))
    "failed to run clean up job to clean the cephblockpool %q" [bp_Name p].

Definition handleDeletionBlocked (p : CephBlockPool) : MC unit :=
  let name := pool_Name (ToNamedPoolSpec p) in
  deps ← cephBlockPoolDependents p;
  let dependents := match deps with [] => false | _ => true end in
  poolPresent ← wrapM (IsPoolPresent name) "failed to check pool presence" [];
  isEmpty ← (if (poolPresent : bool) then IsPoolEmpty name deps else mret false);
  let notEmpty := negb (isEmpty || negb poolPresent) in
  _ ← try_ (api "conditions" "CephBlockPool" (bp_Name p) (env_update_conditions p notEmpty dependents));
  _ ← (if negb isEmpty && ForceDeleteRequested (bp_Annotations p)
       then wrapM (cleanup_pool p) "failed to create clean up job for ceph blockpool %q" [bp_Name p]
       else mret ());
  if dependents || notEmpty
  then fail (Errorf "pool %q cannot be deleted because it is not empty or has dependents" [bp_Name p]) else mret ().

Definition deletePool (p : NamedPoolSpec) : MC unit :=
  poolPresent ← wrapM (IsPoolPresent (pool_Name p)) "failed to check pool presence" [];
  _ ← (if (poolPresent : bool) then wrapM (DeletePool (pool_Name p)) "failed to delete pool %q" [pool_Name p] else mret ());
  if IsErasureCoded (pool_Spec p)
  then _ ← try_ (DeleteErasureCodeProfile (GetErasureCodeProfileForPool (pool_Name p))); mret ()
  else mret ().

(** ** Creation *)

Definition poolApplicationNameRBD : string := "rbd".

(** [CreatePool] may change the application through the pointer. *)
Definition createPool (version : CephVersion) (clusterSpec : ClusterSpec) (p : NamedPoolSpec) : MC unit :=
  let p := {| pool_Name := pool_Name p;
              pool_Spec := set_Application (or_default (Application (pool_Spec p)) poolApplicationNameRBD) (pool_Spec p) |} in
  p ← wrapM (CreatePool version clusterSpec p) "failed to configure pool %q" [pool_Name p];
  if negb (String.eqb (Application (pool_Spec p)) poolApplicationNameRBD) then mret ()
  else _ ← wrapM (rbd ["pool"; "init"; pool_Name p]) "failed to initialize pool %q for RBD use. %s" [pool_Name p]; mret ().

(** ** Mirroring *)

Definition canConfigurePoolMirroring (p : NamedPoolSpec) : bool := negb (IsErasureCoded (pool_Spec p)).

Fixpoint any_mirrored (poolName : string) (namespaces : list string) : MC bool :=
  match namespaces with
  | [] => mret false
  | namespace :: namespaces =>
      let name := poolName +:+ "/" +:+ namespace in
      mirrorInfo ← wrapM (GetPoolMirroringInfo name) "failed to get mirroring info for the rados namespace %q" [name];
      if negb (String.eqb (info_Mode mirrorInfo) "disabled") then mret true else any_mirrored poolName namespaces
  end.

Definition isAnyRadosNamespaceMirrored (poolName : string) : MC bool :=
  namespaces ← wrapM (ListRadosNamespacesInPool poolName) "failed to list rados namespace in pool %q" [poolName];
  any_mirrored poolName namespaces.

Definition disableMirroring (pool : string) : MC unit :=
  mirrorInfo ← wrapM (GetPoolMirroringInfo pool) "failed to get mirroring info for the pool %q" [pool];
  if String.eqb (info_Mode mirrorInfo) "disabled" then mret ()
  else
    mirroringEnabled ← wrapM (isAnyRadosNamespaceMirrored pool) "failed to check if any rados namespace is mirrored" [];
    if (mirroringEnabled : bool)
    then fail (Errorf "mirroring must be disabled in all radosnamespaces in the pool before disabling mirroring in the pool" [])
    else
      _ ← (if String.eqb (info_Mode mirrorInfo) "image" then
             images ← wrapM (GetMirroredPoolImages pool) "failed to list mirrored images for pool %q" [pool];
             match images with
             | [] => mret ()
             | _ => fail (Errorf "there are images in the pool %q. Please manually disable mirroring for each image" [pool])
             end
           else mret ());
      _ ← forM_ (info_Peers mirrorInfo) (fun uuid =>
            if String.eqb uuid "" then mret ()
            else wrapM (RemoveClusterPeer pool uuid) "failed to remove cluster peer with UUID %q for the pool %q" [uuid; pool]);
      wrapM (DisablePoolMirroring pool) "failed to disable mirroring for pool %q" [pool].

(** [CreateBootstrapPeerSecret] for a pool; the name is the one of the resource. *)
Definition CreateRBDMirrorBootstrapPeer (poolName : string) : MC string :=
  wrapM (rbd ["mirror"; "pool"; "peer"; "bootstrap"; "create"; poolName]) "failed to create rbd-mirror peer token for pool %q. %s" [poolName].

Definition CreateBootstrapPeerSecret (p : CephBlockPool) : MC unit :=
  bootstrapToken ← wrapM (CreateRBDMirrorBootstrapPeer (bp_Name p)) "failed to create %s-mirror bootstrap peer" ["rbd"];
  token ← wrapM (lift (expand_token (W := W) bootstrapToken)) "failed to add extra information to rbd-mirror bootstrap peer" [];
  let secret := "pool-peer-token-" +:+ bp_Name p in
  r ← try_ (api "write" "Secret" secret (env_write_secret secret (<["token" := token]> {["pool" := bp_Name p]})));
  match r with
  | Err err => if IsAlreadyExists err then mret () else fail (Wrapf err "failed to create %s-mirror bootstrap peer %q secret" ["rbd"; secret])
  | Ok _ => mret ()
  end.

Definition ValidatePeerToken (data : gmap string string) : result unit :=
  if bool_decide (data = ∅) then Err (Errorf "failed to lookup 'data' secret field (empty)" [])
  else match data !! "token" with
  | Some token =>
      if String.eqb token "" then Err (Errorf "failed to lookup %q key in secret bootstrap peer (missing or empty)" ["token"]) else Ok ()
  | None => Err (Errorf "failed to lookup %q key in secret bootstrap peer (missing or empty)" ["token"])
  end.

(** The token is handed over in a temporary file; copying it to a container for a Multus network is left
    out. *)
Definition ImportRBDMirrorBootstrapPeer (poolName direction token : string) : MC unit :=
  path ← wrapM (record TempFile (on_env env_temp_file)) "failed to create temporary token file for pool %q" [poolName];
  _ ← wrapM (record (AppendFile path token) (on_env (env_append_file path token))) "failed to write token to file %q" [path];
  deferred (record (RemoveFile path) (on_env (env_remove_file path))) (
    _ ← wrapM (rbd (["mirror"; "pool"; "peer"; "bootstrap"; "import"; poolName; path] ++
                    (if String.eqb direction "" then [] else ["--direction"; direction])))
          "failed to add rbd-mirror peer token for pool %q. %s" [poolName];
    mret ()).

Definition reconcileAddBootstrapPeer (p : CephBlockPool) (ns : string) : MC unit :=
  match Peers (Mirroring (bp_Spec p)) with
  | None => mret ()
  | Some secretNames =>
      forM_ secretNames (fun peerSecret =>
        data ← wrapM (api "get" "Secret" peerSecret (env_get_secret ns peerSecret)) "failed to fetch kubernetes secret %q bootstrap peer" [peerSecret];
        _ ← wrapM (lift (ValidatePeerToken data)) "failed to validate rbd-mirror bootstrap peer secret %q data" [peerSecret];
        wrapM (ImportRBDMirrorBootstrapPeer (bp_Name p) (default "" (data !! "direction")) (default "" (data !! "token")))
          "failed to import bootstrap peer token" [])
  end.

Definition reset_mirroring_status (p : CephBlockPool) : MC unit :=
  _ ← try_ (api "mirroring" "CephBlockPool" (bp_Name p) (env_reset_mirroring_status (bp_Name p))); mret ().

(** Starts or stops the monitor of a pool that is mirrored. *)
Definition monitor_mirrored (p : CephBlockPool) (existed : bool) : MC unit :=
  let key := blockPoolChannelKeyName p in
  contexts ← get_contexts;
  let started := default false (contexts !! key) in
  if MirrorCheckDisabled (bp_Spec p) then
    _ ← (if existed && started then cancelMirrorMonitoring key else mret ());
    reset_mirroring_status p
  else if started then mret ()
  else if String.eqb (mirror_Mode (Mirroring (bp_Spec p))) mirrorModeInitOnly then mret ()
  else
    _ ← set_contexts (<[key := true]> contexts);
    _ ← try_ (api "monitor" "CephBlockPool" (bp_Name p) (env_start_monitor (bp_Name p))); mret ().

(** With the result, the error of the status and the error. *)
Definition configurePoolMirroring (ns name : string) (p : CephBlockPool) (observedGeneration : Z) (cluster : CephCluster) :
    MC (Result * option gerror * option gerror) :=
  let key := blockPoolChannelKeyName p in
  contexts ← get_contexts;
  let existed := bool_decide (is_Some (contexts !! key)) in
  _ ← (if existed then mret () else set_contexts (<[key := false]> contexts));
  if mirror_Enabled (Mirroring (bp_Spec p)) then
    r ← try_ (CreateBootstrapPeerSecret p);
    match r with
    | Err err =>
        statusErr ← updateStatus ns name ConditionFailure "Failed to create the block pool. See the operator log for details."
                      ObservedGenerationNotAvailable None;
        match statusErr with
        | Some e => mret (ImmediateRetryResult, statusErr, Some (Wrapf e "failed to update %q status to %q" [name; ConditionFailure]))
        | None => mret (ImmediateRetryResult, statusErr, Some (Wrapf err "failed to create rbd-mirror bootstrap peer for pool %q." [bp_Name p]))
        end
    | Ok _ =>
        statusErr ← updateStatus ns name ConditionProgressing "Configuring block pool mirroring" observedGeneration (Some (RBDMirrorPeer cluster));
        match statusErr with
        | Some e => mret (ImmediateRetryResult, statusErr, Some (Wrapf e "failed to update %q status to %q" [name; ConditionProgressing]))
        | None =>
            peers ← try_ (reconcileAddBootstrapPeer p ns);
            match peers with
            | Err err => mret (ImmediateRetryResult, statusErr, Some (Wrapf err "failed to add ceph rbd mirror peer" []))
            | Ok _ =>
                ids ← try_ (api "poolIDs" "ConfigMap" (bp_Name p) (env_pool_id_map p));
                match ids with
                | Err err =>
                    mret (Done, statusErr, Some (Wrapf err "failed to update pool ID mapping config for the pool %q" [bp_Name p]))
                | Ok _ =>
                    statusErr ← updateStatus ns name ConditionReady "Block pool configured successfully" observedGeneration None;
                    _ ← monitor_mirrored p existed;
                    mret (Done, statusErr, None)
                end
            end
        end
    end
  else
    _ ← try_ (disableMirroring (pool_Name (ToNamedPoolSpec p)));
    statusErr ← updateStatus ns name ConditionReady "Block pool configured successfully" observedGeneration
                  (Some {| KeyGeneration := 0; KeyCephVersion := ""; KeyType := "" |});
    contexts ← get_contexts;
    _ ← (if existed && default false (contexts !! key) then cancelMirrorMonitoring key else mret ());
    _ ← reset_mirroring_status p;
    mret (Done, statusErr, None).


(** ** The reconcile *)

Definition IsReadyToReconcile (ns : string) : MC (option CephCluster * bool * bool * Result) :=
  r ← try_ (record (ListClusters ns) (on_env (env_list_clusters ns)));
  match r with
  | Err _ => mret (None, false, false, ImmediateRetryResult)
  | Ok [] => mret (None, false, false, WaitForRequeueIfCephClusterNotReady)
  | Ok (cluster :: _) =>
      if HasDataDirCleanPolicy cluster && cl_Deleted cluster
      then mret (Some cluster, false, false, WaitForRequeueIfCephClusterNotReady)
      else mret (Some cluster, cluster_ready cluster, true, WaitForRequeueIfCephClusterNotReady)
  end.

(** [if err != nil { return res, ..., err }] *)
Definition or_return {A} (res : Result) (m : MC A) (k : A -> MC (Result * option gerror)) : MC (Result * option gerror) :=
  r ← try_ m; match r with Ok a => k a | Err e => mret (res, Some e) end.

Definition remove_finalizer (p : CephBlockPool) : MC unit :=
  wrapM (api "remove-finalizer" "CephBlockPool" (bp_Name p) (env_remove_finalizer p)) "failed to remove finalizer" [].

(** The resource is being deleted. *)
Definition reconcile_deletion (ns : string) (p : CephBlockPool) : MC (Result * option gerror) :=
  or_return WaitForRequeueIfFinalizerBlocked (handleDeletionBlocked p) (fun _ =>
  _ ← cancelMirrorMonitoring (blockPoolChannelKeyName p);
  or_return ImmediateRetryResult (wrapM (deletePool (ToNamedPoolSpec p)) "failed to delete pool %q. " [bp_Name p]) (fun _ =>
  _ ← try_ (configureRBDStats ns (bp_Name p));
  or_return ImmediateRetryResult (remove_finalizer p) (fun _ => mret (Done, None)))).

(** A failure that only means that the operator is not initialized yet. *)
Definition not_initialized (e : gerror) : bool := Contains (error_text (W := W) e) UninitializedCephConfigError.

(** The pool is created or updated, and then its mirroring. *)
Definition reconcile_creation (ns name : string) (p : CephBlockPool) (cluster : CephCluster) : MC (Result * option gerror) :=
  v ← try_ (validatePool (cl_Spec cluster) p);
  match v with
  | Err err =>
      if not_initialized err then mret (WaitForRequeueIfOperatorNotInitialized, None)
      else mret (ImmediateRetryResult, Some (Wrapf err "invalid pool CR %q spec" [bp_Name p]))
  | Ok _ =>
      or_return ImmediateRetryResult (wrapM (lift (GetImageVersion cluster)) "failed to fetch ceph version from cephcluster %q" []) (fun version =>
      c ← try_ (wrapM (createPool version (cl_Spec cluster) (ToNamedPoolSpec p)) "failed to configure pool %q." [bp_Name p]);
      match c with
      | Err err =>
          if not_initialized err then mret (WaitForRequeueIfOperatorNotInitialized, None)
          else
            _ ← updateStatus ns name ConditionFailure "Failed to create the block pool. See the operator log for details."
                  ObservedGenerationNotAvailable None;
            mret (ImmediateRetryResult, Some (Wrapf err "failed to create pool %q." [bp_Name p]))
      | Ok _ =>
          or_return Done (wrapM (configureRBDStats ns "") "failed to enable/disable stats collection for pool(s)" []) (fun _ =>
          '(result, statusErr, err) ←
            (if canConfigurePoolMirroring (ToNamedPoolSpec p) then configurePoolMirroring ns name p (bp_Generation p) cluster
             else
               statusErr ← updateStatus ns name ConditionReady "Block pool configured successfully" (bp_Generation p) None;
               mret (Done, statusErr, None));
          match err, statusErr with
          | Some e, _ => mret (result, Some e)
          | None, Some e => mret (ImmediateRetryResult, Some (Wrapf e "failed to update status of pool %q to %q." [bp_Name p; ConditionReady]))
          | None, None => mret (Done, None)
          end)
      end)
  end.

(** The pool after its finalizer and its first status. *)
Definition reconcile_pool (ns name : string) (p : CephBlockPool) : MC (Result * option gerror) :=
  '(cluster, isReady, clusterExists, response) ← IsReadyToReconcile ns;
  match cluster, isReady with
  | Some cluster, true =>
      or_return ImmediateRetryResult (wrapM (api "load" "ClusterInfo" ns (env_load_cluster_info ns)) "failed to populate cluster info" []) (fun _ =>
      if bp_Deleted p then reconcile_deletion ns p else reconcile_creation ns name p cluster)
  | _, _ =>
      if bp_Deleted p && negb clusterExists then
        _ ← cancelMirrorMonitoring (blockPoolChannelKeyName p);
        or_return ImmediateRetryResult (remove_finalizer p) (fun _ => mret (Done, None))
      else mret (response, None)
  end.

Definition reconcile (ns name : string) : MC (Result * option gerror) :=
  r ← try_ (get_pool ns name);
  match r with
  | Err err =>
      if IsNotFound err then _ ← cancelMirrorMonitoring (ns +:+ "/" +:+ name); mret (Done, None)
      else mret (ImmediateRetryResult, Some (Wrapf err "failed to get CephBlockPool" []))
  | Ok p =>
      or_return ImmediateRetryResult (wrapM (api "add-finalizer" "CephBlockPool" name (env_add_finalizer p)) "failed to add finalizer" []) (fun updated =>
      if (updated : bool) then mret (Done, None)
      else
        statusErr ← match bp_Status p with
                    | None => updateStatus ns name ConditionProgressing "Initializing block pool" ObservedGenerationNotAvailable
                                (Some {| KeyGeneration := 0; KeyCephVersion := ""; KeyType := "" |})
                    | Some _ => mret None
                    end;
        match statusErr with
        | Some e => mret (ImmediateRetryResult, Some (Wrapf e "failed to update %q status to %q" [name; ConditionProgressing]))
        | None => reconcile_pool ns name p
        end)
  end.


End Controller.


End BlockPool.
