(* ===== verification/PoolLab.v ===== *)
(** * PoolLab: a concrete Ceph with pools

    An instance of the environments of the pools (files Pools and BlockPool), given by the answers to
    commands and requests, with decoders of a toy format.  The theorems hold for every environment; the
    witnesses run in this one. *)

From stdpp Require Import base gmap strings list fin_maps.
From Stdlib Require Import ZArith Ascii.
From S2P Require Import Prelude CephVersion Cephx OsdBase Pools BlockPool.
Import Log Version Cephx Pools BlockPool.
Open Scope Z_scope.

Module PoolLab.

Record Lab := {
  lab_ceph : list string -> result string;
  lab_rbd : list string -> result string;
  lab_pool : result CephBlockPool;
  lab_namespaces : list CephBlockPoolRadosNamespace;
  lab_clusters : result (list CephCluster);
  lab_status : result unit;
}.

Definition answer {A} (f : Lab -> result A) : M Lab A := fun lab => (lab, f lab).

(** Decoders: names are separated by commas, a field is [{name:value}]. *)
Definition names (s : string) : list string := split_byte "," s.

Definition field (name s : string) : option string :=
  match strip_prefix ("{" +:+ name +:+ ":") s with
  | Some r => Some (TrimRight (fun c => Ascii.eqb c "}") r)
  | None => None
  end.

Definition toy_details (s : string) (d : CephStoragePoolDetails) : option CephStoragePoolDetails :=
  match field "rule" s, field "size" s with
  | Some rule, _ => Some {| det_Name := det_Name d; det_Number := det_Number d; det_Size := det_Size d; det_CrushRule := rule |}
  | None, Some size =>
      Some {| det_Name := det_Name d; det_Number := det_Number d; det_Size := default 0 (Atoi size); det_CrushRule := det_CrushRule d |}
  | None, None => None
  end.

Definition toy_rule (name : string) : ruleSpec :=
  {| rule_ID := 1; rule_Name := name; Ruleset := 1; rule_Type := 1; rule_MinSize := 1; rule_MaxSize := 10;
     Steps := [{| Operation := "take"; step_Number := 0; Item := -1; ItemName := "default"; step_Type := "" |};
               {| Operation := "chooseleaf_firstn"; step_Number := 0; Item := 0; ItemName := ""; step_Type := "host" |}; stepEmit] |}.

#[global] Instance lab_pools : PoolEnv Lab := {
  env_ceph args := answer (fun lab => lab_ceph lab args);
  env_rbd args := answer (fun lab => lab_rbd lab args);
  env_tool _ := answer (fun _ => Ok "");
  env_temp_file := answer (fun _ => Ok "/tmp/1");
  env_append_file _ _ := answer (fun _ => Ok ());
  env_remove_file _ := answer (fun _ => Ok ());
  env_mutex _ lab := lab;
  error_text e := match e with External t => t | _ => "" end;
  exit_status _ := None;
  json_pools s := Some ((fun n => {| sum_Name := n; sum_Number := 1 |}) <$> names s);
  json_details := toy_details;
  json_applications s := Some (names s);
  json_statistics s := (fun n => {| images_Count := n; images_SnapCount := 0 |}) <$> Atoi s;
  json_crush_map s := Some {| Types := ["host"; "rack"]; Buckets := ["default"]; Rules := toy_rule <$> names s |};
  json_rule s := Some (toy_rule s);
  json_ec_profile _ := None;
  json_ec_profiles _ := None;
  json_mirror_info _ := None;
  json_mirrored_images _ := None;
  json_schedules _ := None;
  json_namespaces s := Some (names s);
  json_ints _ := Some [0];
  parse_quantity _ := Ok 0;
  range_map m := map_to_list m;
  range_map_ok m := reflexivity (map_to_list m);
}.

#[global] Instance lab_block_pools : BlockPoolEnv Lab := {
  bp_pool_env := lab_pools;
  env_get_pool _ _ := answer lab_pool;
  env_list_pools _ := answer (fun _ => Ok []);
  env_list_namespaces _ := answer (fun lab => Ok (lab_namespaces lab));
  env_list_clusters _ := answer lab_clusters;
  env_update_pool_status _ := answer lab_status;
  env_add_finalizer _ := answer (fun _ => Ok false);
  env_remove_finalizer _ := answer (fun _ => Ok ());
  env_update_conditions _ _ _ := answer (fun _ => Ok ());
  env_load_cluster_info _ := answer (fun _ => Ok ());
  env_start_cleanup _ _ _ := answer (fun _ => Ok ());
  env_get_secret _ _ := answer (fun _ => Ok ∅);
  env_write_secret _ _ := answer (fun _ => Ok ());
  expand_token t := Ok t;
  env_pool_id_map _ := answer (fun _ => Ok ());
  env_reset_mirroring_status _ := answer (fun _ => Ok ());
  env_start_monitor _ := answer (fun _ => Ok ());
}.

(** ** Specs *)

Definition no_ratio : Ratio := {| ratio_sign := Eq; ratio_text := "0" |}.

Definition replicas (n : Z) (ratio : Ratio) (sub : string) : ReplicatedSpec :=
  {| Size := n; TargetSizeRatio := ratio; RequireSafeReplicaSize := false; ReplicasPerFailureDomain := 0; SubFailureDomain := sub; HybridStorage := None |}.

Definition chunks (k m : Z) : ErasureCodedSpec :=
  {| CodingChunks := m; DataChunks := k; Algorithm := ""; StripeUnit := None; CrushNumFailureDomains := 0; CrushOSDsPerFailureDomain := 0 |}.

Definition spec (domain : string) (rep : ReplicatedSpec) (ec : ErasureCodedSpec) : PoolSpec :=
  {| FailureDomain := domain; CrushRoot := ""; DeviceClass := ""; EnableCrushUpdates := Some true; CompressionMode := "";
     Replicated := rep; ErasureCoded := ec; Parameters := ∅; EnableRBDStats := false;
     Mirroring := {| mirror_Enabled := false; mirror_Mode := ""; SnapshotSchedules := []; Peers := None |};
     MirrorCheckDisabled := false; Quotas := {| MaxBytes := None; MaxSize := None; MaxObjects := None |}; Application := "" |}.

Definition three : PoolSpec := spec "host" (replicas 3 no_ratio "") (chunks 0 0).

Definition block_pool (deleted : bool) (p : PoolSpec) : CephBlockPool :=
  {| bp_Namespace := "rook-ceph"; bp_Name := "rbd"; bp_Generation := 1; bp_Deleted := deleted; bp_Annotations := ∅; spec_Name := "";
     bp_Spec := p; bp_Status := Some no_status |}.

Definition plain_cluster : ClusterSpec := {| StretchZones := None; StorageConfig := None |}.

Definition healthy_cluster : CephCluster :=
  {| cl_Spec := plain_cluster; cl_Deleted := false; Confirmation := ""; cl_Status := Some {| Health := "HEALTH_OK"; Details := ∅ |};
     cl_Image := "ceph:v19"; cl_Version := Some ("ceph:v19", "19.2.0-0"); RBDMirrorPeer := {| KeyGeneration := 0; KeyCephVersion := ""; KeyType := "" |};
     cl_External := false; cl_SkipUpgradeChecks := false; cl_ContinueUpgrade := false;
     cl_CephxDaemon := {| KeyRotationPolicy := ""; cfg_KeyGeneration := 0; cfg_KeyType := "" |} |}.

(** One pool, [rbd], with the rule of its name; a rule that no pool uses. *)
Definition toy_ceph (rule : string) (args : list string) : result string :=
  match args with
  | "osd" :: "lspools" :: _ => Ok "rbd"
  | "osd" :: "pool" :: "get" :: _ => Ok ("{size:3}{rule:" +:+ rule +:+ "}")
  | "osd" :: "crush" :: "dump" :: _ => Ok "replicated_rule,rbd,old"
  | "osd" :: "crush" :: "rule" :: "dump" :: name :: _ => Ok name
  | _ => Ok ""
  end.

(** Two images after a line of the log, watched by one client, with a snapshot each. *)
Definition toy_rbd (args : list string) : result string :=
  match args with
  | "pool" :: "stats" :: _ => Ok "0"
  | "ls" :: _ => Ok ("starting" +:+ String "010" "[a,b] done")
  | "status" :: _ => Ok "10.0.0.1:0"
  | "snap" :: "ls" :: _ => Ok "s"
  | _ => Ok ""
  end.

Definition lab (deleted : bool) (rule : string) : Lab :=
  {| lab_ceph := toy_ceph rule; lab_rbd := toy_rbd; lab_pool := Ok (block_pool deleted three); lab_namespaces := [];
     lab_clusters := Ok [healthy_cluster]; lab_status := Ok () |}.

End PoolLab.
