(* ===== verification/PoolSafety.v ===== *)
(** * PoolSafety: pools are deleted when they are empty, and rules are kept while they are needed

    The theorems on files Pools and BlockPool. *)

From stdpp Require Import base gmap strings list fin_maps.
From Stdlib Require Import ZArith Ascii.
From S2P Require Import Prelude CephVersion Cephx OsdBase Pools BlockPool PoolLab.
Import Log Version Cephx Pools BlockPool PoolLab.
Open Scope Z_scope.

Module PoolSafety.

(** Programs and the definitions they are made of. *)
Create HintDb pools discriminated.

#[export] Hint Unfold ListPoolSummaries GetPoolNamesByID GetPoolApplication GetPoolDetails IsPoolPresent GetPoolStatistics
  checkIsPoolEmpty checkForImagesInPool getRadosNamespaceStatistics checkForImagesInRadosNamespace ListRadosNamespacesInPool
  IsPoolEmpty GetCrushMap getCurrentCrushMap getCrushRule deleteCrushRule setCrushRule createReplicationCrushRule
  GetCompiledCrushMap decompileCRUSHMap compileCRUSHMap injectCRUSHMap remove_file updateCrushMap createStretchCrushRule
  createHybridCrushRule GetPoolMirroringInfo GetMirroredPoolImages enablePoolMirroring DisablePoolMirroring RemoveClusterPeer
  enableSnapshotSchedule removeSnapshotSchedule listSnapshotSchedules removeSnapshotSchedules EnableSnapshotSchedules
  SetPoolProperty setPoolQuota SetPoolReplicatedSizeProperty givePoolAppTag set_quotas setCommonPoolProperties
  GetErasureCodeProfileDetails CreateErasureCodeProfile DeleteErasureCodeProfile createECPoolForApp updatePoolCrushRuleLocked
  prepare_rule ensure_replicated CreatePoolWithPGs CreatePool deferred decode ceph rbd tool : pools.

#[export] Hint Unfold GetDeviceClassOSDs validateDeviceClassOSDs validateDeviceClasses ValidatePoolSpec validatePool
  monstore_Set monstore_Delete monstore_Get configureRBDStats updatePoolID set_status_once updateStatus get_pool api
  cephBlockPoolDependents isAnyRadosNamespaceMirrored disableMirroring CreateRBDMirrorBootstrapPeer CreateBootstrapPeerSecret
  ImportRBDMirrorBootstrapPeer reconcileAddBootstrapPeer reset_mirroring_status createPool : pools.

(** ** Triples of the reconcilers *)

Section Reconcilers.
Context {W : Type} `{BlockPoolEnv W} (needs : list call -> call -> Prop).

Lemma triple_or_return {A} res (m : MW (gmap string bool * W) A) k P R :
  triple needs P m (fun r h => forall a, r = Ok a -> R a h) ->
  (forall a, triple needs (R a) (k a) (fun _ _ => True)) ->
  triple needs P (or_return (W := W) res m k) (fun _ _ => True).
Proof.
  intros Hm Hk. unfold or_return. eapply triple_bind; [apply triple_try|intros r|done].
  - instantiate (1 := fun r h => forall a, r = Ok (Ok a) -> R a h). eapply triple_conseq; [exact Hm|done|]. intros r h Hr a E.
    injection E as ->. by apply Hr.
  - destruct r as [a|e]; [|by apply triple_ret]. eapply triple_conseq; [apply Hk|intros h Hr; by apply Hr|done].
Qed.

End Reconcilers.

(** ** Deleting a pool *)

Section Deletion.
Context {W : Type} `{BlockPoolEnv W} (ns name : string).

(** The resource was read and is being deleted, no rados namespace refers to it, and then rbd counted no
    images and no snapshots in the pool. *)
Definition deletable (n : string) (h : list call) : Prop :=
  exists p namespaces out stats,
    [GetPool ns name (Ok p); ListNamespaces (bp_Namespace p) (Ok namespaces); Rbd ["pool"; "stats"; n] (Ok out)] `sublist_of` h /\
    bp_Deleted p = true /\ n = pool_Name (ToNamedPoolSpec p) /\
    Forall (fun m => rns_BlockPoolName m <> bp_Name p) namespaces /\
    json_statistics (W := W) out = Some stats /\ no_images stats = true.

(** The pool was deleted, or Ceph did not list it. *)
Definition pool_gone (n : string) (h : list call) : Prop :=
  (exists out, Ceph (delete_pool_args n) (Ok out) ∈ h) \/
  exists out pools, Ceph ["osd"; "lspools"] (Ok out) ∈ h /\ json_pools (W := W) out = Some pools /\ n ∉ (sum_Name <$> pools).

(** No cluster was listed that is to stay. *)
Definition no_cluster (r : result (list CephCluster)) : Prop :=
  match r with Ok (c :: _) => HasDataDirCleanPolicy c && cl_Deleted c = true | _ => True end.

Definition finalizable (h : list call) : Prop :=
  exists p, GetPool ns name (Ok p) ∈ h /\ bp_Deleted p = true /\
    ((exists r, ListClusters ns r ∈ h /\ no_cluster r) \/ pool_gone (pool_Name (ToNamedPoolSpec p)) h).

Definition deletion_needs (h : list call) (ev : call) : Prop :=
  match ev with
  | Ceph args _ => forall n, args = delete_pool_args n -> deletable n h
  | Api verb _ _ _ => verb = "remove-finalizer" -> finalizable h
  | _ => True
  end.

Abbreviation free := (fun ev => forall h, deletion_needs h ev).

(** A program none of whose calls needs anything. *)
Ltac calls :=
  repeat first
    [ progress intros
    | apply harmless_bind | apply harmless_try | apply harmless_wrapM | apply harmless_forM
    | apply harmless_ret | apply harmless_fail | apply harmless_lift | apply harmless_silent
    | apply harmless_record
    | progress autounfold with pools
    | case_match ];
  try (cbn in *; first [done | discriminate | congruence]).

Lemma mutex_free {W'} `{PoolEnv W'} a : harmless free (mutex (W := W') a).
Proof. unfold mutex. calls. Qed.

Lemma validatePool_free c p : harmless free (validatePool (W := gmap string bool * W) c p).
Proof. calls. Qed.

Lemma setCommon_free v p : harmless free (setCommonPoolProperties (W := gmap string bool * W) v p).
Proof. calls. Qed.

Lemma read_locked_free {A} (m : MW (gmap string bool * W) A) : harmless free m -> harmless free (read_locked m).
Proof. intros Hm. unfold read_locked, mutex. calls. Qed.

Lemma createReplicated_free v c p n : harmless free (createReplicatedPoolForApp (W := gmap string bool * W) v c p n).
Proof. unfold createReplicatedPoolForApp. apply read_locked_free. calls. Qed.

Lemma createPool_free v c p : harmless free (createPool (W := W) v c p).
Proof. calls; try apply createReplicated_free; calls. Qed.

Lemma stats_free n d : harmless free (configureRBDStats (W := W) n d).
Proof. calls. Qed.

Lemma status_once_free n m s msg g x : harmless free (set_status_once (W := W) n m s msg g x).
Proof. calls. Qed.

Lemma retry_free {A} n f : harmless free f -> harmless free (RetryOnConflict (W := W) (A := A) n f).
Proof. intros Hf. induction n as [|n IH]; cbn [RetryOnConflict]; [done|]. calls; done. Qed.

Lemma updateStatus_free n m s msg g x : harmless free (updateStatus (W := W) n m s msg g x).
Proof. unfold updateStatus. apply harmless_bind; [apply harmless_try, retry_free, status_once_free|calls]. Qed.

Lemma any_mirrored_free pool l : harmless free (any_mirrored (W := W) pool l).
Proof. induction l as [|x l IH]; cbn [any_mirrored]; calls; done. Qed.

Lemma disableMirroring_free pool : harmless free (disableMirroring (W := W) pool).
Proof. calls; apply any_mirrored_free. Qed.


Lemma get_contexts_free : harmless free (get_contexts (W := W)).
Proof. intros h e. exists []. by rewrite app_nil_r. Qed.

Lemma set_contexts_free c : harmless free (set_contexts (W := W) c).
Proof. intros h e. exists []. by rewrite app_nil_r. Qed.

Lemma cancel_free key : harmless free (cancelMirrorMonitoring (W := W) key).
Proof. unfold cancelMirrorMonitoring. apply harmless_bind; [apply get_contexts_free|intros c; apply set_contexts_free]. Qed.

Lemma configureMirroring_free n m p g c : harmless free (configurePoolMirroring (W := W) n m p g c).
Proof.
  unfold configurePoolMirroring, monitor_mirrored.
  calls; first [apply get_contexts_free | apply set_contexts_free | apply cancel_free | apply retry_free, status_once_free
               | apply any_mirrored_free].
Qed.


(** The resource is being deleted and no rados namespace refers to it. *)
Definition listed (p : CephBlockPool) (h : list call) : Prop :=
  exists namespaces,
    [GetPool ns name (Ok p); ListNamespaces (bp_Namespace p) (Ok namespaces)] `sublist_of` h /\
    bp_Deleted p = true /\ Forall (fun m => rns_BlockPoolName m <> bp_Name p) namespaces.

Lemma lasting_listed p : lasting (listed p).
Proof. intros h l (nss & Hs & Hr). exists nss. split; [by apply happened_later|done]. Qed.

Lemma lasting_deletable n : lasting (deletable n).
Proof. intros h l (p & nss & out & st & Hs & Hr). exists p, nss, out, st. split; [by apply happened_later|done]. Qed.

Lemma lasting_gone n : lasting (pool_gone n).
Proof.
  intros h l [(out & Hin)|(out & pools & Hin & Hr)]; [left|right].
  - exists out. apply elem_of_app. by left.
  - exists out, pools. split; [apply elem_of_app; by left|done].
Qed.

Lemma dependents_triple p :
  triple deletion_needs (fun h => [GetPool ns name (Ok p)] `sublist_of` h /\ bp_Deleted p = true)
    (cephBlockPoolDependents (W := W) p) (fun r h => r = Ok [] -> listed p h).
Proof.
  unfold cephBlockPoolDependents. eapply triple_bind; [apply triple_wrapM, triple_record|intros nss; apply triple_ret|].
  - intros r h [Hs Hd]. split; [done|]. instantiate (1 := fun r h => forall nss, r = Ok nss ->
      ([GetPool ns name (Ok p); ListNamespaces (bp_Namespace p) (Ok nss)] `sublist_of` h /\ bp_Deleted p = true)).
    intros nss E. destruct r as [x|err]; [|done]. injection E as ->. split; [|done]. by apply (happened_snoc [_]).
  - intros h Hn E. destruct (Hn nss eq_refl) as [Hs Hd]. exists nss. split_and!; [done..|].
    injection E as E%fmap_nil_inv. apply Forall_forall. intros m Hm Heq.
    assert (m ∈ List.filter (fun m => String.eqb (rns_BlockPoolName m) (bp_Name p)) nss) as Hin.
    { apply list_elem_of_In, filter_In. split; [by apply list_elem_of_In|by apply String.eqb_eq]. }
    rewrite E in Hin. by apply elem_of_nil in Hin.
  - intros err h Hn E. done.
Qed.

Lemma IsPoolPresent_triple n P :
  lasting P -> triple deletion_needs P (IsPoolPresent (W := gmap string bool * W) n) (fun r h => P h /\ (r = Ok false -> pool_gone n h)).
Proof.
  intros HP. unfold IsPoolPresent, ListPoolSummaries, ceph.
  eapply triple_bind; [apply triple_wrapM; eapply triple_bind|..].
  - apply triple_wrapM, triple_record. intros r h Hp. split; [by intros k E|].
    instantiate (1 := fun r h => P h /\ forall out, r = Ok out -> Ceph ["osd"; "lspools"] (Ok out) ∈ h).
    split; [by apply HP|]. intros out E. destruct r; [injection E as ->; apply elem_of_app; right; apply list_elem_of_here|done].
  - intros out. instantiate (1 := fun r h => P h /\ forall pools, r = Ok pools ->
      exists out, Ceph ["osd"; "lspools"] (Ok out) ∈ h /\ json_pools (W := W) out = Some pools).
    unfold decode. destruct (json_pools out) as [pools|] eqn:Ej; [apply triple_ret|apply triple_fail].
    + intros h [Hp Hin]. split; [done|]. intros pools' E. injection E as <-. exists out. split; [by apply Hin|done].
    + intros h [Hp _]. split; [done|]. intros pools E. done.
  - intros err h [Hp _]. cbn. split; [done|]. intros pools E. done.
  - intros pools. apply triple_ret. intros h [Hp Hin]. split; [done|]. intros E. injection E as E.
    destruct (Hin pools eq_refl) as (out & Hm & Hj). right. exists out, pools. split_and!; [done..|].
    intros (s & Heq & Hs)%list_elem_of_fmap. apply not_true_iff_false in E. apply E, existsb_exists. exists s.
    split; [by apply list_elem_of_In|]. rewrite Heq. by apply String.eqb_eq.
  - intros err h [Hp _]. done.
Qed.

Lemma checkForImages_triple p :
  triple deletion_needs (listed p) (checkForImagesInPool (W := gmap string bool * W) (pool_Name (ToNamedPoolSpec p)))
    (fun r h => r = Ok () -> deletable (pool_Name (ToNamedPoolSpec p)) h).
Proof.
  unfold checkForImagesInPool, checkIsPoolEmpty, GetPoolStatistics, rbd. set (n := pool_Name (ToNamedPoolSpec p)).
  eapply triple_bind.
  - eapply triple_bind; [apply triple_try; eapply triple_bind|..].
    + apply triple_wrapM, triple_record. intros r h (nss & Hs & Hr). split; [done|].
      instantiate (1 := fun r h => forall out stats, r = Ok out -> json_statistics (W := W) out = Some stats -> no_images stats = true -> deletable n h).
      intros out stats E Hj Hn. destruct r as [x|]; [|done]. injection E as ->.
      exists p, nss, out, stats. split; [by apply (happened_snoc [_; _])|]. destruct Hr. done.
    + intros out. instantiate (1 := fun r h => match r with Ok (Ok stats) => no_images stats = true -> deletable n h | _ => True end).
      unfold decode. destruct (json_statistics out) as [stats|] eqn:Ej; [apply triple_ret|apply triple_fail; done].
      intros h Hd Hn. by eapply Hd.
    + intros err h _. done.
    + intros [stats|err]; [|destruct (Contains _ _); [apply triple_ret|apply triple_fail]].
      * apply triple_ret. instantiate (1 := fun r h => r = Ok true -> deletable n h). intros h Hd E. injection E as E. auto.
      * intros h _ E. done.
      * intros h _ E. done.
    + intros err h _ E. done.
  - intros [|]; [apply triple_ret|apply triple_fail]; intros h Hd E; [by apply Hd|done].
  - intros err h _ E. done.
Qed.

Lemma lasting_true : lasting (fun _ : list call => True).
Proof. by intros h l. Qed.

Lemma DeletePool_triple p :
  triple deletion_needs (listed p) (DeletePool (W := gmap string bool * W) (pool_Name (ToNamedPoolSpec p)))
    (fun r h => r = Ok () -> pool_gone (pool_Name (ToNamedPoolSpec p)) h).
Proof.
  unfold DeletePool. set (n := pool_Name (ToNamedPoolSpec p)).
  eapply triple_bind; [apply (triple_free _ _ (listed p)); [calls|apply lasting_listed]| |done].
  intros details. apply (triple_bind _ _ _ _ (fun r h => r = Ok () -> deletable n h)); [| |done].
  { apply triple_wrapM. eapply triple_conseq; [apply (checkForImages_triple p)|done|]. intros [[]|err] h Hd E; [by apply Hd|done]. }
  intros []. eapply triple_bind.
  - apply triple_wrapM, triple_record. intros r h Hd. split.
    + intros k E. injection E as <- _. by apply Hd.
    + instantiate (1 := fun r h => forall out, r = Ok out -> pool_gone n h). intros out E. left. exists out.
      destruct r; [injection E as ->; apply elem_of_app; right; apply list_elem_of_here|done].
  - intros out. eapply triple_conseq; [|intros h Hd; exact (Hd out eq_refl)|intros r h Hg _; exact Hg].
    apply triple_free; [|apply lasting_gone]. calls.
  - done.
Qed.


Lemma namespaces_empty_free n l : harmless free (namespaces_empty (W := gmap string bool * W) n l).
Proof. induction l as [|x l IH]; cbn [namespaces_empty]; calls; done. Qed.

Lemma IsPoolEmpty_free n l : harmless free (IsPoolEmpty (W := gmap string bool * W) n l).
Proof. calls; apply namespaces_empty_free. Qed.

(** A program that ends in an error or with what was known. *)
Lemma triple_ok_free {A} (m : MW (gmap string bool * W) A) P :
  harmless free m -> lasting P -> triple deletion_needs P m (fun r h => P h).
Proof. intros Hm HP. by apply triple_free. Qed.

Lemma handleDeletionBlocked_triple p :
  triple deletion_needs (fun h => [GetPool ns name (Ok p)] `sublist_of` h /\ bp_Deleted p = true)
    (handleDeletionBlocked (W := W) p) (fun r h => r = Ok () -> listed p h).
Proof.
  unfold handleDeletionBlocked. eapply triple_bind; [apply dependents_triple| |done]. intros deps.
  assert (lasting (fun h => deps = [] -> listed p h)) as Hl by (intros h l Hd E; apply lasting_listed; auto).
  apply (triple_bind _ _ _ _ (fun _ h => deps = [] -> listed p h)); [|intros present|by intros err h _ E].
  { eapply triple_conseq; [apply triple_ok_free; [calls|exact Hl]|intros h Hd E; apply Hd; by subst|done]. }
  apply (triple_bind _ _ _ _ (fun _ h => deps = [] -> listed p h)); [|intros isEmpty|by intros err h _ E].
  { destruct present; apply triple_ok_free; [apply IsPoolEmpty_free|exact Hl|apply harmless_ret|exact Hl]. }
  apply (triple_bind _ _ _ _ (fun _ h => deps = [] -> listed p h)); [|intros c|by intros err h _ E].
  { apply triple_ok_free; [calls|exact Hl]. }
  apply (triple_bind _ _ _ _ (fun _ h => deps = [] -> listed p h)); [|intros []|by intros err h _ E].
  { destruct (_ && _); apply triple_ok_free; [calls|exact Hl|apply harmless_ret|exact Hl]. }
  destruct deps as [|d deps]; cbn [orb].
  - destruct (negb _); [apply triple_fail; done|apply triple_ret]. intros h Hd _. by apply Hd.
  - apply triple_fail. done.
Qed.

Lemma deletePool_triple p :
  triple deletion_needs (listed p) (deletePool (W := W) (ToNamedPoolSpec p))
    (fun r h => r = Ok () -> pool_gone (pool_Name (ToNamedPoolSpec p)) h).
Proof.
  unfold deletePool. set (n := pool_Name (ToNamedPoolSpec p)).
  apply (triple_bind _ _ _ _ (fun r h => listed p h /\ (r = Ok false -> pool_gone n h))); [|intros present|by intros err h _ E].
  { apply triple_wrapM. eapply triple_conseq; [apply (IsPoolPresent_triple n (listed p)), lasting_listed|done|].
    intros [b|err] h [Hl Hg]; (split; [exact Hl|]); [exact Hg|done]. }
  apply (triple_bind _ _ _ _ (fun r h => r = Ok () -> pool_gone n h)); [|intros []|by intros err h _ E].
  { destruct present; [|apply triple_ret; intros h [_ Hg] _; by apply Hg]. apply triple_wrapM.
    eapply triple_conseq; [apply (DeletePool_triple p)|by intros h [Hl _]|]. intros [[]|err] h Hg E; [by apply Hg|done]. }
  eapply triple_conseq; [apply (triple_ok_free _ (pool_gone n)); [calls|apply lasting_gone]|intros h Hg; by apply Hg|].
  by intros r h Hg _.
Qed.

(** The call that removes the finalizer. *)
Lemma remove_finalizer_triple p :
  triple deletion_needs finalizable (remove_finalizer (W := W) p) (fun _ _ => True).
Proof. unfold remove_finalizer, api. apply triple_wrapM, triple_record. intros r h Hf. split; [by intros _|done]. Qed.

Lemma reconcile_deletion_triple p :
  triple deletion_needs (fun h => [GetPool ns name (Ok p)] `sublist_of` h /\ bp_Deleted p = true)
    (reconcile_deletion (W := W) ns p) (fun _ _ => True).
Proof.
  unfold reconcile_deletion. set (n := pool_Name (ToNamedPoolSpec p)).
  apply triple_or_return with (R := fun _ => listed p).
  { eapply triple_conseq; [apply handleDeletionBlocked_triple|done|]. intros [[]|] h Hr [] E; [by apply Hr|done]. }
  intros _. eapply triple_bind; [apply (triple_ok_free _ (listed p)); [apply cancel_free|apply lasting_listed]|intros []|done].
  apply triple_or_return with (R := fun _ h => listed p h /\ pool_gone n h).
  { apply triple_wrapM. eapply triple_conseq; [apply triple_frame; [apply lasting_listed|apply (deletePool_triple p)]|by intros h Hl|].
    intros [[]|] h [Hl Hr] [] E; [by auto|done]. }
  intros _. eapply triple_bind; [|intros r|done].
  { apply (triple_ok_free _ (fun h => listed p h /\ pool_gone n h)); [apply harmless_try, stats_free|].
    apply lasting_and; [apply lasting_listed|apply lasting_gone]. }
  apply triple_or_return with (R := fun _ _ => True); [|intros _; by apply triple_ret].
  eapply triple_conseq; [apply remove_finalizer_triple| |done]. intros h [(nss & Hs & Hd & _) Hg]. exists p.
  split_and!; [|done|by right]. eapply elem_of_sublist; [apply list_elem_of_here|exact Hs].
Qed.

Lemma reconcile_creation_free p c : harmless free (reconcile_creation (W := W) ns name p c).
Proof.
  unfold reconcile_creation, or_return.
  apply harmless_bind; [apply harmless_try, validatePool_free|intros [v|err]]; [|case_match; apply harmless_ret].
  apply harmless_bind; [apply harmless_try, harmless_wrapM, harmless_lift|intros [version|err]]; [|apply harmless_ret].
  apply harmless_bind; [apply harmless_try, harmless_wrapM, createPool_free|intros [c'|err]].
  2: { case_match; [apply harmless_ret|]. apply harmless_bind; [apply updateStatus_free|intros; apply harmless_ret]. }
  apply harmless_bind; [apply harmless_try, harmless_wrapM, stats_free|intros [st|err]]; [|apply harmless_ret].
  apply harmless_bind; [|intros [[result statusErr] e]; destruct e, statusErr; apply harmless_ret].
  case_match; [apply configureMirroring_free|]. apply harmless_bind; [apply updateStatus_free|intros; apply harmless_ret].
Qed.

Lemma IsReady_triple P :
  lasting P -> triple deletion_needs P (IsReadyToReconcile (W := W) ns)
    (fun r h => P h /\ forall c ready response, r = Ok (c, ready, false, response) -> exists r', ListClusters ns r' ∈ h /\ no_cluster r').
Proof.
  intros HP. unfold IsReadyToReconcile.
  apply (triple_bind _ _ _ _ (fun r h => P h /\ forall r', r = Ok r' -> ListClusters ns r' ∈ h)); [apply triple_try, triple_record|intros r|].
  - intros r h Hp. split_and!; [done|by apply HP|]. intros r' E. injection E as <-. apply elem_of_app. right. apply list_elem_of_here.
  - destruct r as [[|c cs]|err]; [apply triple_ret|destruct (_ && _) eqn:Ec; apply triple_ret|apply triple_ret]; intros h [Hp Hin]; (split; [done|]);
      intros; simplify_eq; eexists; (split; [by apply Hin|done]).
  - intros err h [Hp _]. done.
Qed.

Lemma reconcile_pool_triple p :
  triple deletion_needs (fun h => [GetPool ns name (Ok p)] `sublist_of` h) (reconcile_pool (W := W) ns name p) (fun _ _ => True).
Proof.
  unfold reconcile_pool. eapply triple_bind; [apply IsReady_triple, lasting_happened|intros [[[cluster ready] clusterExists] response]|done].
  set (P := fun h => _ `sublist_of` h /\ _).
  assert (lasting P) as HP.
  { intros h l [Hs Hc]. split; [by apply happened_later|]. intros c rdy resp E. destruct (Hc c rdy resp E) as (r' & Hin & Hn).
    exists r'. split; [apply elem_of_app; by left|done]. }
  assert (triple deletion_needs P
    (if bp_Deleted p && negb clusterExists
     then _ ← cancelMirrorMonitoring (blockPoolChannelKeyName p); or_return (W := W) ImmediateRetryResult (remove_finalizer p) (fun _ => mret (Done, None))
     else mret (response, None)) (fun _ _ => True)) as Hgone.
  { destruct (bp_Deleted p) eqn:Ed, clusterExists eqn:Ec; cbn [andb negb]; try (by apply triple_ret).
    eapply triple_bind; [apply (triple_ok_free _ P); [apply cancel_free|exact HP]|intros []|done].
    apply triple_or_return with (R := fun _ _ => True); [|intros _; by apply triple_ret].
    eapply triple_conseq; [apply remove_finalizer_triple| |done]. intros h [Hs Hc]. exists p.
    split_and!; [eapply elem_of_sublist; [apply list_elem_of_here|exact Hs]|done|left]. by eapply Hc. }
  destruct cluster as [c|], ready; [|exact Hgone..].
  apply triple_or_return with (R := fun _ => P); [|intros _].
  { eapply triple_conseq; [apply (triple_ok_free _ P); [calls|exact HP]|done|by intros r h Hp a _]. }
  destruct (bp_Deleted p) eqn:Ed.
  - eapply triple_conseq; [apply reconcile_deletion_triple|by intros h [Hs _]|done].
  - eapply triple_conseq; [apply (triple_ok_free _ P); [apply reconcile_creation_free|exact HP]|done|done].
Qed.

Lemma reconcile_triple : triple deletion_needs (fun _ => True) (reconcile (W := W) ns name) (fun _ _ => True).
Proof.
  unfold reconcile.
  apply (triple_bind _ _ _ _ (fun r h => forall p, r = Ok (Ok p) -> [GetPool ns name (Ok p)] `sublist_of` h)); [apply triple_try, triple_record|intros r|done].
  { intros r h _. split; [done|]. intros p E. injection E as ->. apply (happened_snoc [] h), sublist_nil_l. }
  destruct r as [p|err]; [|eapply triple_conseq; [apply (triple_ok_free _ (fun _ => True)); [|apply lasting_true]|done|done]].
  2: { case_match; [|apply harmless_ret]. apply harmless_bind; [apply cancel_free|intros; apply harmless_ret]. }
  set (P := fun h => [GetPool ns name (Ok p)] `sublist_of` h).
  apply triple_or_return with (R := fun _ => P); [|intros [|]].
  { eapply triple_conseq; [apply (triple_ok_free _ P); [calls|apply lasting_happened]|intros h Hp; by apply Hp|by intros r h Hp a _]. }
  { by apply triple_ret. }
  eapply triple_bind; [apply (triple_ok_free _ P); [|apply lasting_happened]|intros [e|]|done].
  - case_match; [apply harmless_ret|apply updateStatus_free].
  - by apply triple_ret.
  - apply reconcile_pool_triple.
Qed.

(** C20: a block pool is deleted in Ceph only if its resource was read and is being deleted, no rados
    namespace refers to it, and then rbd counted no images and no snapshots in it; and the finalizer of
    a resource is removed only if the resource is being deleted and its pool was deleted, or was not
    there, or no cluster that stays was listed. *)
Theorem deletion_is_checked e pre post ev :
  log (reconcile (W := W) ns name (World e [])).1 = pre ++ ev :: post -> deletion_needs pre ev.
Proof. intros E. destruct (triple_run _ _ _ _ e reconcile_triple I) as [Hg _]. by eapply Hg. Qed.


End Deletion.

(** ** The lock on CRUSH rules *)

Inductive held := Free | Reading | Writing.

#[global] Instance held_eq_dec : EqDecision held.
Proof. solve_decision. Defined.

Definition lock_step (s : held) (ev : call) : held :=
  match ev with
  | Mutex RLock => Reading
  | Mutex WLock => Writing
  | Mutex _ => Free
  | _ => s
  end.

(** How the lock is held after some calls. *)
Definition holds (l : list call) : held := foldl lock_step Free l.

Definition removes_rule (ev : call) : Prop := exists n r, ev = Ceph (rm_rule_args n) r.

(** A rule is created, or a pool is made to use a rule. *)
Definition uses_rule (ev : call) : Prop :=
  exists args r, ev = Ceph args r /\
    ((exists n root domain class, args = create_rule_args n root domain class) \/
     (exists f, args = ["osd"; "setcrushmap"; "--in-file"; f]) \/
     (exists p n, args = set_rule_args p n) \/
     (exists p pgs n, args = create_pool_args p pgs n)).

Definition is_mutex (ev : call) : Prop := match ev with Mutex _ => True | _ => False end.

(** What the reconcile of a pool does under the lock, and what the cleanup does. *)
Definition reading_call (ev : call) : Prop := ~ is_mutex ev /\ ~ removes_rule ev.

Definition writing_call (ev : call) : Prop := ~ is_mutex ev /\ ~ uses_rule ev.

Section Runs.
Context {W : Type} `{PoolEnv W}.

Ltac not_removal := split; [exact (fun H => H)|let E := fresh in intros (? & ? & E); cbn in E; simplify_eq].

Ltac not_use :=
  split; [exact (fun H => H)|];
  intros (args & r' & E & [(n & root & domain & class & ->)|[(f & ->)|[(p' & n & ->)|(p' & pgs & n & ->)]]]); cbn in E; discriminate.

Ltac inside :=
  repeat first
    [ progress intros
    | apply harmless_bind | apply harmless_try | apply harmless_wrapM | apply harmless_forM
    | apply harmless_ret | apply harmless_fail | apply harmless_lift | apply harmless_silent
    | apply harmless_record
    | progress autounfold with pools
    | case_match ].

Lemma createReplicated_body v c pool pgs :
  harmless reading_call (
    poolDetails ← try_ (GetPoolDetails (W := W) (pool_Name pool));
    '(crushRuleName, checkFailureDomain) ← prepare_rule c pool (is_ok poolDetails);
    _ ← ensure_replicated c pool pgs crushRuleName poolDetails;
    _ ← setCommonPoolProperties v pool;
    if (checkFailureDomain : bool) || negb (String.eqb (DeviceClass (pool_Spec pool)) "")
    then wrapM (updatePoolCrushRuleLocked c pool) "failed to update crush rule for pool %q" [pool_Name pool]
    else mret ()).
Proof. inside; not_removal. Qed.

Lemma update_body c pool : harmless reading_call (updatePoolCrushRuleLocked (W := W) c pool).
Proof. inside; not_removal. Qed.

(** The calls of a program that runs under the lock. *)
Lemma locked_yields {A} (m : MW W A) (a b : lock_action) (inner : call -> Prop) :
  harmless inner m ->
  yields (fun _ => True) (_ ← mutex a; deferred (mutex b) m) (fun _ l => exists l', l = Mutex a :: l' ++ [Mutex b] /\ Forall inner l').
Proof.
  intros Hm h e. unfold deferred, mutex, record, try_, lift, mbind, M_bind. cbn.
  destruct (Hm (h ++ [Mutex a]) (env_mutex a e)) as (l & Hl & Hin).
  destruct (m (World (env_mutex a e) (h ++ [Mutex a]))) as [[e1 h1] r]. cbn in *. subst h1.
  exists (Mutex a :: l ++ [Mutex b]). split_and!; [|by apply Forall_true|by exists l].
  rewrite <- !(assoc_L (++)). done.
Qed.

Lemma used_rules_calls pools used : harmless writing_call (used_rules (W := W) pools used).
Proof. revert used. induction pools as [|p pools IH]; intros used; cbn [used_rules]; inside; try apply IH; not_use. Qed.

Lemma delete_unused_calls used rules last : harmless writing_call (delete_unused (W := W) used rules last).
Proof. revert last. induction rules as [|x rules IH]; intros last; cbn [delete_unused]; inside; try apply IH; not_use. Qed.

Lemma cleanup_body : harmless writing_call (
    usedRules ← getUsedCrushRules (W := W);
    if bool_decide (usedRules = ∅) then mret ()
    else
      crushMap ← GetCrushMap;
      lastErr ← delete_unused usedRules (Rules crushMap) None;
      match lastErr with None => mret () | Some err => fail err end).
Proof.
  unfold getUsedCrushRules.
  inside; try apply used_rules_calls; try apply delete_unused_calls; not_use.
Qed.

End Runs.


(** The calls of the reconcile of a replicated pool, those of a cleanup, and those of the deletion of a pool,
    which takes no lock, in any environment. *)
Inductive pool_run : list call -> Prop :=
| created_pool W (H : PoolEnv W) v c pool pgs (e : W) :
    IsReplicated (pool_Spec pool) = true -> pool_run (log (CreatePoolWithPGs v c pool pgs (World e [])).1)
| updated_rule W (H : PoolEnv W) c pool (e : W) : pool_run (log (updatePoolCrushRule c pool (World e [])).1).

Inductive cleanup_run : list call -> Prop :=
| cleaned_up W (H : PoolEnv W) (e : W) : cleanup_run (log (CleanupUnusedCrushRules (World e [])).1).

Inductive deletion_run (name : string) : list call -> Prop :=
| deleted_pool W (H : PoolEnv W) (e : W) : deletion_run name (log (DeletePool name (World e [])).1).

(** A deletion uses no rule, and removes one only after the pool was deleted. *)
Definition deletion_call (name : string) (h : list call) (ev : call) : Prop :=
  ~ uses_rule ev /\ (removes_rule ev -> exists out, Ceph (delete_pool_args name) (Ok out) ∈ h).

Lemma deletion_run_shape name l : deletion_run name l -> guarded (deletion_call name) l.
Proof.
  intros [W H e]. enough (triple (deletion_call name) (fun _ => True) (DeletePool name) (fun _ _ => True)) as Ht by apply (triple_run _ _ _ _ e Ht I).
  assert (forall args r h, (forall n, args <> rm_rule_args n) -> ~ uses_rule (Ceph args r) -> deletion_call name h (Ceph args r)) as Hcall.
  { intros args r h Hn Hu. split; [done|]. intros (n & r' & E). injection E as E _. by destruct (Hn n). }
  assert (forall args r, args !! 1%nat = Some "pool" -> args !! 2%nat <> Some "set" -> args !! 2%nat <> Some "create" -> ~ uses_rule (Ceph args r)) as Huse.
  { intros args r H1 H2 H3 (args' & r' & E & Ha). injection E as -> _.
    destruct Ha as [(n & root & domain & class & ->)|[(f & ->)|[(p & n & ->)|(p & pgs & n & ->)]]]; cbn in *; simplify_eq; auto. }
  unfold DeletePool. eapply (triple_bind _ _ _ _ (fun _ _ => True)); [|intros pool|done].
  { apply triple_free; [|done]. unfold GetPoolDetails, decode. apply harmless_wrapM, harmless_bind.
    - apply harmless_wrapM, harmless_record. intros r h. apply Hcall; [done|by apply Huse].
    - intros out. case_match; [apply harmless_ret|apply harmless_fail]. }
  eapply (triple_bind _ _ _ _ (fun _ _ => True)); [|intros []|done].
  { apply triple_free; [|done]. apply harmless_wrapM. unfold checkForImagesInPool, checkIsPoolEmpty, GetPoolStatistics, decode.
    repeat first [progress intros|apply harmless_bind|apply harmless_try|apply harmless_wrapM|apply harmless_ret|apply harmless_fail|apply harmless_record|case_match].
    all: split; [by intros (args & r' & [=] & _)|by intros (n & r' & [=])]. }
  eapply (triple_bind _ _ _ _ (fun r h => forall o, r = Ok o -> exists out, Ceph (delete_pool_args name) (Ok out) ∈ h)); [|intros o|done].
  { apply triple_wrapM, triple_record. intros r h _. split; [apply Hcall; [done|by apply Huse]|]. intros o E. destruct r as [out|]; [|done].
    exists out. apply elem_of_app. right. apply list_elem_of_here. }
  case_match; [by apply triple_ret|]. eapply (triple_bind _ _ _ _ (fun _ _ => True)); [|by intros; apply triple_ret|done].
  apply triple_try. unfold deleteCrushRule. eapply (triple_bind _ _ _ _ (fun _ _ => True)); [|by intros; apply triple_ret|done].
  apply triple_wrapM, triple_record. intros r h Hd. split; [|done]. split; [|intros _; by eapply Hd].
  intros (args & r' & E & [(n & root & domain & class & ->)|[(f & ->)|[(p & n & ->)|(p & pgs & n & ->)]]]); cbn in E; discriminate.
Qed.

Lemma pool_run_shape l : pool_run l -> l = [] \/ exists l', l = Mutex RLock :: l' ++ [Mutex RUnlock] /\ Forall reading_call l'.
Proof.
  intros [W H v c pool pgs e Hr|W H c pool e].
  - unfold CreatePoolWithPGs. destruct (String.eqb (pool_Name pool) "") eqn:En; [by left|right].
    assert (IsReplicated (pool_Spec (override_application pool)) = true) as -> by (unfold override_application; repeat case_match; done).
    assert (forall A (m : MW W unit) (a : A), log ((m ≫= fun _ => mret a) (World e [])).1 = log (m (World e [])).1) as ->.
    { intros A m a. unfold mbind, M_bind. by destruct (m (World e [])) as [w [[]|]]. }
    apply (yields_run _ _ _ e (locked_yields _ RLock RUnlock _ (createReplicated_body v c _ pgs))).
  - right. apply (yields_run _ _ _ e (locked_yields _ RLock RUnlock _ (update_body c pool))).
Qed.

Lemma cleanup_run_shape l : cleanup_run l -> exists l', l = Mutex WLock :: l' ++ [Mutex WUnlock] /\ Forall writing_call l'.
Proof.
  intros [W H e]. apply (yields_run _ _ _ e (locked_yields _ WLock WUnlock _ cleanup_body)).
Qed.

(** Before a call inside, the lock is held. *)
Lemma inside_holds (a b : lock_action) (inner : call -> Prop) l pre ev post :
  (forall ev, inner ev -> ~ is_mutex ev) -> Forall inner l -> ~ is_mutex ev ->
  Mutex a :: l ++ [Mutex b] = pre ++ ev :: post ->
  exists p, pre = Mutex a :: p /\ Forall inner p.
Proof.
  intros Hin Hl Hev E. destruct pre as [|x pre]; [cbn in E; injection E as <- _; by destruct Hev|].
  injection E as <- E. exists pre. split; [done|].
  destruct post as [|y post _] using rev_ind.
  { apply app_inj_tail in E as [-> <-]. by destruct Hev. }
  rewrite app_comm_cons, (assoc_L (++)) in E. apply app_inj_tail in E as [-> _].
  by apply Forall_app in Hl as [Hl _].
Qed.

Lemma holds_inside a (inner : call -> Prop) p :
  (forall ev, inner ev -> ~ is_mutex ev) -> Forall inner p -> holds (Mutex a :: p) = lock_step Free (Mutex a).
Proof.
  intros Hin Hp. change (holds (Mutex a :: p)) with (foldl lock_step (lock_step Free (Mutex a)) p).
  generalize (lock_step Free (Mutex a)). clear a. induction Hp as [|x p Hx Hp IH]; intros s; [done|].
  cbn [foldl]. rewrite IH. destruct x; try done. by destruct (Hin _ Hx).
Qed.

(** *** Runs side by side *)

(** The calls of several runs in the order in which they happen, each with the number of its run. *)
Abbreviation schedule := (list (nat * call)) (only parsing).

Definition calls_of (t : nat) (s : schedule) : list call := (List.filter (fun x => Nat.eqb x.1 t) s).*2.

(** The lock is granted to a reader while nobody writes, and to a writer while nobody reads or writes
    ([sync.RWMutex]). *)
Definition lock_respected (s : schedule) : Prop :=
  forall pre t a post, s = pre ++ (t, Mutex a) :: post ->
    match a with
    | RLock => forall t', holds (calls_of t' pre) <> Writing
    | WLock => forall t', holds (calls_of t' pre) = Free
    | _ => True
    end.

Lemma calls_of_app t s s' : calls_of t (s ++ s') = calls_of t s ++ calls_of t s'.
Proof. unfold calls_of. by rewrite List.filter_app, fmap_app. Qed.

Lemma calls_of_cons t x s : calls_of t (x :: s) = (if Nat.eqb x.1 t then [x.2] else []) ++ calls_of t s.
Proof. unfold calls_of. cbn. by destruct (Nat.eqb x.1 t). Qed.

Lemma holds_snoc l ev : holds (l ++ [ev]) = lock_step (holds l) ev.
Proof. unfold holds. by rewrite foldl_app. Qed.

Lemma respected_prefix s x : lock_respected (s ++ [x]) -> lock_respected s.
Proof. intros Hr pre t a post ->. apply (Hr pre t a (post ++ [x])). by rewrite <- (assoc_L (++)). Qed.

Lemma one_writer s t t' :
  lock_respected s -> t <> t' -> holds (calls_of t s) = Writing -> holds (calls_of t' s) = Free.
Proof.
  revert t t'. induction s as [|[u ev] s IH] using rev_ind; intros t t' Hr Hne Hw; [done|].
  pose proof (respected_prefix _ _ Hr) as Hr'. rewrite !calls_of_app, !calls_of_cons in *. cbn in *. rewrite !app_nil_r in *.
  destruct (Nat.eqb_spec u t) as [->|Ht]; [destruct (Nat.eqb_spec t t') as [->|_]; [done|]|].
  - rewrite holds_snoc in Hw. rewrite app_nil_r.
    destruct ev; cbn in Hw; try (by apply (IH t)). destruct a; try done. by apply (Hr s t WLock [] eq_refl).
  - rewrite app_nil_r in Hw. pose proof (IH t t' Hr' Hne Hw) as Hfree.
    destruct (Nat.eqb_spec u t') as [->|_]; [|by rewrite app_nil_r]. rewrite holds_snoc, Hfree.
    destruct ev; try done. destruct a; try done.
    + by destruct (Hr s t' RLock [] eq_refl t).
    + pose proof (Hr s t' WLock [] eq_refl t) as Hf. cbn in Hf. congruence.
Qed.


Lemma uses_not_mutex ev : uses_rule ev -> ~ is_mutex ev.
Proof. intros (args & r & -> & _). exact (fun H => H). Qed.

Lemma removes_not_mutex ev : removes_rule ev -> ~ is_mutex ev.
Proof. intros (n & r & ->). exact (fun H => H). Qed.

Lemma removes_not_uses ev : removes_rule ev -> ~ uses_rule ev.
Proof.
  intros (n & r & ->) (args & r' & E & [(m & root & domain & class & ->)|[(f & ->)|[(p & m & ->)|(p & pgs & m & ->)]]]); cbn in E; discriminate.
Qed.

Definition part_of_run (l : list call) : Prop :=
  exists k, l `prefix_of` k /\ (pool_run k \/ cleanup_run k \/ exists name, deletion_run name k).

(** The calls are those of a deletion of the pool, which is deleted. *)
Definition pool_deleted (name : string) (l : list call) : Prop :=
  exists k out, deletion_run name k /\ l `prefix_of` k /\ Ceph (delete_pool_args name) (Ok out) ∈ l.

(** A run that removes a rule writes at that moment or has deleted a pool; a run reads from its first use of a
    rule to its last. *)
Lemma removal_writes pre ev post :
  part_of_run (pre ++ ev :: post) -> removes_rule ev -> holds pre = Writing \/ exists name, pool_deleted name (pre ++ ev :: post).
Proof.
  intros (k & Hpre & Hk) Hev. destruct Hk as [Hk|[Hk|[name Hk]]].
  3:{ right. exists name. pose proof (deletion_run_shape _ _ Hk) as Hg. pose proof Hpre as [rest Er]. rewrite <- (assoc_L (++)) in Er.
      destruct (Hg pre ev (post ++ rest) Er) as [_ Hr]. destruct (Hr Hev) as [out Ho]. exists k, out. split_and!; [done..|]. apply elem_of_app. by left. }
  all: left; destruct Hpre as [rest ->]; rewrite <- (assoc_L (++)) in Hk; cbn in Hk.
  - exfalso. apply pool_run_shape in Hk as [E|(l & E & Hl)]; [by destruct pre|].
    assert (ev ∈ Mutex RLock :: l ++ [Mutex RUnlock]) as Hin by (rewrite <- E; apply elem_of_app; right; apply list_elem_of_here).
    rewrite Forall_forall in Hl. destruct Hev as (n & r & ->). set_unfold in Hin. destruct Hin as [?|[Hin|?]]; [done| |naive_solver].
    apply (Hl _ Hin). by exists n, r.
  - apply cleanup_run_shape in Hk as (l & E & Hl).
    destruct (inside_holds WLock WUnlock writing_call l pre ev (post ++ rest)) as (p & -> & Hp); [by intros x [Hx _]|done|by apply removes_not_mutex|by symmetry|].
    rewrite (holds_inside _ writing_call); [done|by intros x [Hx _]|done].
Qed.

Lemma use_reads pre ev1 mid ev2 post mid1 mid2 :
  part_of_run (pre ++ ev1 :: mid ++ ev2 :: post) -> uses_rule ev1 -> uses_rule ev2 -> mid = mid1 ++ mid2 ->
  holds (pre ++ ev1 :: mid1) = Reading.
Proof.
  intros (k & [rest ->] & Hk) H1 H2 ->. set (q := pre ++ ev1 :: mid1).
  assert ((pre ++ ev1 :: (mid1 ++ mid2) ++ ev2 :: post) ++ rest = (q ++ mid2) ++ ev2 :: post ++ rest) as Eq.
  { unfold q. rewrite <- ?(assoc_L (++)). cbn. by rewrite <- ?(assoc_L (++)). }
  rewrite Eq in Hk. destruct Hk as [[E|(l & E & Hl)]%pool_run_shape|[(l & E & Hl)%cleanup_run_shape|[name Hk%deletion_run_shape]]].
  4: by destruct (Hk _ _ _ eq_refl).
  - unfold q in E. by destruct pre.
  - symmetry in E. apply (inside_holds RLock RUnlock reading_call) in E as (p & Ep & Hp); [|by intros x [Hx _]|done|by apply uses_not_mutex].
    destruct q as [|x q'] eqn:Eqq; [by destruct pre|]. injection Ep as -> Ep. rewrite (holds_inside _ reading_call); [done|by intros x [Hx _]|].
    rewrite <- Ep in Hp. by apply Forall_app in Hp as [Hp _].
  - exfalso. rewrite Forall_forall in Hl. assert (ev2 ∈ Mutex WLock :: l ++ [Mutex WUnlock]) as Hin.
    { rewrite <- E. apply elem_of_app. right. apply list_elem_of_here. }
    set_unfold in Hin. pose proof (uses_not_mutex _ H2) as Hm. destruct Hin as [->|[Hin|Hin]]; [by apply Hm|by apply (Hl _ Hin)|].
    destruct Hin as [->|[]]. by apply Hm.
Qed.

(** C21: while reconciles of replicated pools, cleanups of CRUSH rules and deletions of pools run side by
    side, in any order the lock allows and however far each has come, a rule is removed between the moment
    at which a reconcile creates or uses a rule and the moment at which it last does only by the deletion of a
    pool, which takes no lock, after that pool was deleted; no cleanup removes one. *)
Theorem rule_is_kept s pre t ev1 mid ev2 post :
  lock_respected s -> (forall t, part_of_run (calls_of t s)) ->
  s = pre ++ (t, ev1) :: mid ++ (t, ev2) :: post -> uses_rule ev1 -> uses_rule ev2 ->
  forall t' ev, (t', ev) ∈ mid -> removes_rule ev -> exists name, pool_deleted name (calls_of t' s).
Proof.
  intros Hr Hruns -> H1 H2 t' ev (mid1 & mid2 & ->)%list_elem_of_split Hrm.
  set (q := pre ++ (t, ev1) :: mid1).
  assert (pre ++ (t, ev1) :: (mid1 ++ (t', ev) :: mid2) ++ (t, ev2) :: post = q ++ (t', ev) :: mid2 ++ (t, ev2) :: post) as Es.
  { unfold q. rewrite <- ?(assoc_L (++)). cbn. by rewrite <- ?(assoc_L (++)). }
  assert (holds (calls_of t q) = Reading) as Hread.
  { pose proof (Hruns t) as Ht. rewrite calls_of_app, calls_of_cons, !calls_of_app, !calls_of_cons in Ht. cbn in Ht. rewrite !Nat.eqb_refl in Ht.
    unfold q. rewrite calls_of_app, calls_of_cons. cbn. rewrite Nat.eqb_refl. cbn in *.
    by eapply (use_reads _ _ (calls_of t mid1 ++ (if Nat.eqb t' t then [ev] else []) ++ calls_of t mid2)). }
  pose proof (Hruns t') as Ht'. rewrite Es, calls_of_app, calls_of_cons in Ht' |- *. cbn in Ht' |- *. rewrite Nat.eqb_refl in Ht' |- *.
  destruct (removal_writes _ _ _ Ht' Hrm) as [Hwrite|Hd]; [exfalso|done].
  rewrite Es in Hr. destruct (Nat.eq_dec t' t) as [->|Hne]; [congruence|].
  assert (lock_respected q) as Hq.
  { intros pre' u a post' E. apply (Hr pre' u a (post' ++ (t', ev) :: mid2 ++ (t, ev2) :: post)). rewrite E, <- (assoc_L (++)). done. }
  pose proof (one_writer q t' t Hq Hne Hwrite). congruence.
Qed.


(** ** Which rules a cleanup removes *)

Section Cleanup.
Context {W : Type} `{PoolEnv W}.

(** The rule of a pool as Ceph told it. *)
Definition told_rule (pool : CephStoragePoolSummary) (rule : string) (h : list call) : Prop :=
  exists out details, Ceph ["osd"; "pool"; "get"; sum_Name pool; "all"] (Ok out) ∈ h /\
    ParsePoolDetails (W := W) out = Some details /\ det_CrushRule details = rule.

Definition told_pools (pools : list CephStoragePoolSummary) (h : list call) : Prop :=
  exists out, Ceph ["osd"; "lspools"] (Ok out) ∈ h /\ json_pools (W := W) out = Some pools.

(** Before a rule is removed the rules of all pools were read, none of them is this one, some pool has a
    rule, and the rule is not Ceph's default one. *)
Definition removable (n : string) (h : list call) : Prop :=
  n <> "replicated_rule" /\
  exists pools, told_pools pools h /\
    (forall pool, pool ∈ pools -> exists rule, told_rule pool rule h /\ (rule <> n \/ rule = "")) /\
    (exists pool rule, pool ∈ pools /\ told_rule pool rule h /\ rule <> "").

Definition cleanup_needs (h : list call) (ev : call) : Prop :=
  match ev with Ceph args _ => forall n, args = rm_rule_args n -> removable n h | _ => True end.

(** What is known of the rules in use after the pools were read. *)
Definition covers (pools : list CephStoragePoolSummary) (used : gset string) (h : list call) : Prop :=
  (forall pool, pool ∈ pools -> exists rule, told_rule pool rule h /\ (rule = "" \/ rule ∈ used)) /\
  (forall rule, rule ∈ used -> rule <> "" /\ exists pool, pool ∈ pools /\ told_rule pool rule h).

Lemma lasting_told pool rule : lasting (told_rule pool rule).
Proof. intros h l (out & d & Hin & Hr). exists out, d. split; [apply elem_of_app; by left|done]. Qed.

Lemma lasting_covers pools used : lasting (covers pools used).
Proof.
  intros h l [Ha Hb]. split.
  - intros pool Hp. destruct (Ha pool Hp) as (rule & Ht & Hr). exists rule. split; [by apply lasting_told|done].
  - intros rule Hr. destruct (Hb rule Hr) as (Hn & pool & Hp & Ht). split; [done|]. exists pool. split; [done|by apply lasting_told].
Qed.

Lemma GetPoolDetails_told pool P :
  lasting P ->
  triple cleanup_needs P (GetPoolDetails (W := W) (sum_Name pool))
    (fun r h => P h /\ forall d, r = Ok d -> told_rule pool (det_CrushRule d) h).
Proof.
  intros HP. unfold GetPoolDetails, ceph.
  apply (triple_bind _ _ _ _ (fun r h => P h /\ forall out, r = Ok out -> Ceph ["osd"; "pool"; "get"; sum_Name pool; "all"] (Ok out) ∈ h)).
  - apply triple_wrapM, triple_record. intros r h Hp. split_and!; [by intros n E|by apply HP|].
    intros out E. destruct r; [|done]. injection E as ->. apply elem_of_app. right. apply list_elem_of_here.
  - intros out. unfold decode. destruct (ParsePoolDetails out) as [d|] eqn:Ep; [apply triple_ret|apply triple_fail]; intros h [Hp Hin];
      (split; [done|]); [|done]. intros d' E. injection E as <-. exists out, d. split; [by apply Hin|done].
  - intros err h [Hp _]. done.
Qed.

Lemma covers_add pools pool used d h :
  covers pools used h -> told_rule pool (det_CrushRule d) h ->
  covers (pools ++ [pool]) (if String.eqb (det_CrushRule d) "" then used else {[det_CrushRule d]} ∪ used) h.
Proof.
  intros [Ha Hb] Ht. split.
  - intros q [Hq| ->%list_elem_of_singleton]%elem_of_app.
    + destruct (Ha q Hq) as (rule & Hr & Hu). exists rule. split; [done|]. case_match; [done|]. set_solver.
    + exists (det_CrushRule d). split; [done|]. destruct (String.eqb_spec (det_CrushRule d) ""); [by left|right; set_solver].
  - intros rule Hr.
    assert (rule ∈ used \/ (det_CrushRule d <> "" /\ rule = det_CrushRule d)) as [Hu|[Hn ->]].
    { destruct (String.eqb_spec (det_CrushRule d) ""); [by left|]. set_solver. }
    + destruct (Hb rule Hu) as (Hn & q & Hq & Hqt). split; [done|]. exists q. split; [apply elem_of_app; by left|done].
    + split; [done|]. exists pool. split; [apply elem_of_app; right; by apply list_elem_of_singleton|done].
Qed.

Lemma used_rules_triple seen pools used P :
  lasting P ->
  triple cleanup_needs (fun h => P h /\ covers seen used h) (used_rules (W := W) pools used)
    (fun r h => P h /\ forall u, r = Ok u -> covers (seen ++ pools) u h).
Proof.
  intros HP. revert seen used. induction pools as [|pool pools IH]; intros seen used; cbn [used_rules].
  { apply triple_ret. intros h [Hp Hc]. split; [done|]. intros u E. injection E as <-. by rewrite app_nil_r. }
  eapply triple_bind.
  - apply triple_wrapM. eapply triple_conseq; [apply (GetPoolDetails_told pool (fun h => P h /\ covers seen used h))|done|].
    { apply lasting_and; [done|apply lasting_covers]. }
    intros r h Hr. instantiate (1 := fun r h => (P h /\ covers seen used h) /\ forall d, r = Ok d -> told_rule pool (det_CrushRule d) h).
    destruct Hr as [Hp Hd]. split; [done|]. intros d E. apply wrap_err_ok in E. by apply Hd.
  - intros d. eapply triple_conseq; [apply (IH (seen ++ [pool]))| |].
    + intros h [[Hp Hc] Hd]. split; [done|]. apply covers_add; [done|by apply Hd].
    + intros r h [Hp Hu]. split; [done|]. intros u E. specialize (Hu u E). by rewrite <- (assoc_L (++)) in Hu.
  - intros err h [[Hp _] _]. done.
Qed.

Lemma delete_unused_triple used rules last P :
  lasting P -> (forall h n, P h -> n ∉ used -> n <> "replicated_rule" -> removable n h) ->
  triple cleanup_needs P (delete_unused (W := W) used rules last) (fun _ _ => True).
Proof.
  intros HP Hrm. revert last. induction rules as [|x rules IH]; intros last; cbn [delete_unused]; [by apply triple_ret|].
  destruct (bool_decide_reflect (rule_Name x ∈ used)); [by apply IH|].
  destruct (String.eqb_spec (rule_Name x) "replicated_rule"); [by apply IH|].
  apply (triple_bind _ _ _ _ (fun _ => P)); [|intros r; by apply IH|done]. apply triple_try. unfold deleteCrushRule, ceph.
  apply (triple_bind _ _ _ _ (fun _ => P)); [|by intros out; apply triple_ret|done]. apply triple_wrapM, triple_record.
  intros r h Hp. split; [|by apply HP]. intros k E. injection E as <-. by apply Hrm.
Qed.

Lemma ListPools_triple :
  triple cleanup_needs (fun _ => True) (ListPoolSummaries (W := W)) (fun r h => forall pools, r = Ok pools -> told_pools pools h).
Proof.
  unfold ListPoolSummaries, ceph.
  apply (triple_bind _ _ _ _ (fun r h => forall out, r = Ok out -> Ceph ["osd"; "lspools"] (Ok out) ∈ h)); [apply triple_wrapM, triple_record|..].
  - intros r h _. split; [by intros n E|]. intros out E. destruct r; [|done]. injection E as ->. apply elem_of_app. right. apply list_elem_of_here.
  - intros out. unfold decode. destruct (json_pools out) as [pools|] eqn:Ej; [apply triple_ret|by apply triple_fail].
    intros h Hin pools' E. injection E as <-. exists out. split; [by apply Hin|done].
  - done.
Qed.

Lemma lasting_pools pools : lasting (told_pools pools).
Proof. intros h l (out & Hin & Hj). exists out. split; [apply elem_of_app; by left|done]. Qed.

Lemma covered_removable pools used n h :
  told_pools pools h -> covers pools used h -> used <> ∅ -> n ∉ used -> n <> "replicated_rule" -> removable n h.
Proof.
  intros Ht [Ha Hb] Hu Hn Hr. split; [done|]. exists pools. split_and!; [done|..].
  - intros pool Hp. destruct (Ha pool Hp) as (rule & Hrule & [->|Hin]); [by exists ""; auto|]. exists rule. split; [done|left]. by intros ->.
  - apply set_choose_L in Hu as [rule Hin]. destruct (Hb rule Hin) as (Hne & pool & Hp & Htold). by exists pool, rule.
Qed.

Ltac calls :=
  repeat first
    [ progress intros
    | apply harmless_bind | apply harmless_try | apply harmless_wrapM
    | apply harmless_ret | apply harmless_fail | apply harmless_record
    | progress autounfold with pools
    | case_match ].

Lemma cleanup_triple : triple cleanup_needs (fun _ => True) (CleanupUnusedCrushRules (W := W)) (fun _ _ => True).
Proof.
  unfold CleanupUnusedCrushRules, write_locked, deferred.
  eapply triple_bind; [apply (triple_free _ _ (fun _ => True)); [unfold mutex; calls; done|by apply lasting_const]|intros []|done].
  assert (forall A (r : result A), triple cleanup_needs (fun _ => True) (_ ← try_ (mutex (W := W) WUnlock); lift r) (fun _ _ => True)) as Hunlock.
  { intros A r. eapply triple_conseq; [apply (triple_free _ _ (fun _ => True)); [|by apply lasting_const]|done|done]. unfold mutex. calls; [done|apply harmless_lift]. }
  apply (triple_bind _ _ _ _ (fun _ _ => True)); [apply triple_try|intros r; apply Hunlock|done].
  unfold getUsedCrushRules.
  apply (triple_bind _ _ _ _ (fun r h => forall used, r = Ok used -> exists pools, told_pools pools h /\ covers pools used h)); [|intros used|done].
  { eapply triple_bind; [apply ListPools_triple|intros pools|done].
    eapply triple_conseq; [apply (used_rules_triple [] pools ∅ (told_pools pools)), lasting_pools| |].
    - intros h Hp. split; [by apply Hp|]. split; [by intros p ?%elem_of_nil|set_solver].
    - intros r h [Hp Hu] used E. exists pools. split; [done|by apply Hu]. }
  destruct (bool_decide_reflect (used = ∅)); [by apply triple_ret|].
  set (P := fun h => exists pools, told_pools pools h /\ covers pools used h).
  assert (lasting P) as HP.
  { intros h l (pools & Ht & Hc). exists pools. split; [by apply lasting_pools|by apply lasting_covers]. }
  eapply triple_bind; [|intros crush|done].
  { eapply triple_conseq; [apply (triple_free _ _ P); [calls; by intros k E|exact HP]|intros h Hu; by apply Hu|done]. }
  eapply triple_bind; [apply (delete_unused_triple used _ _ P HP)|intros [err|]; [by apply triple_fail|by apply triple_ret]|done].
  intros h k (pools & Ht & Hc) Hk Hr. by eapply covered_removable.
Qed.

(** A cleanup removes a CRUSH rule only after it read the rules of all pools that Ceph lists and none
    of them was this rule, and at least one pool has a rule; Ceph's default rule is never removed. *)
Theorem cleanup_is_checked e pre post ev :
  log (CleanupUnusedCrushRules (W := W) (World e [])).1 = pre ++ ev :: post -> cleanup_needs pre ev.
Proof. intros E. destruct (triple_run _ _ _ _ e cleanup_triple I) as [Hg _]. by eapply Hg. Qed.

End Cleanup.


(** ** Witnesses *)

(** The lock rules checked for the runs with a number below [n]. *)
Definition granted (n : nat) (pre : schedule) (ev : call) : bool :=
  match ev with
  | Mutex RLock => forallb (fun t => negb (bool_decide (holds (calls_of t pre) = Writing))) (seq 0 n)
  | Mutex WLock => forallb (fun t => bool_decide (holds (calls_of t pre) = Free)) (seq 0 n)
  | _ => true
  end.

Fixpoint respects (n : nat) (pre s : schedule) : bool :=
  match s with
  | [] => true
  | x :: s => bool_decide (x.1 < n)%nat && granted n pre x.2 && respects n (pre ++ [x]) s
  end.

Lemma calls_of_none n t s : Forall (fun x => (x.1 < n)%nat) s -> (n <= t)%nat -> calls_of t s = [].
Proof.
  intros Hs Ht. induction Hs as [|x s Hx Hs IH]; [done|]. rewrite calls_of_cons, IH. destruct (Nat.eqb_spec x.1 t); [lia|done].
Qed.

Lemma respects_sound n pre s :
  Forall (fun x => (x.1 < n)%nat) pre -> lock_respected pre -> respects n pre s = true -> lock_respected (pre ++ s).
Proof.
  revert pre. induction s as [|[t ev] s IH]; intros pre Hpre Hr Hc; [by rewrite app_nil_r|].
  cbn [respects] in Hc. apply andb_prop in Hc as [[Hn%bool_decide_eq_true Hg]%andb_prop Hc].
  rewrite cons_middle, (assoc_L (++)). apply IH; [by apply Forall_app; split; [|by constructor]| |done].
  intros pre' u a post E. destruct post as [|y post _] using rev_ind.
  - apply app_inj_tail in E as [<- Eu]. injection Eu as -> ->.
    assert (forall t', holds (calls_of t' pre) = Free \/ (t' < n)%nat) as Hcases.
    { intros t'. destruct (decide (t' < n)%nat); [by right|left]. by rewrite (calls_of_none n) by (done || lia). }
    destruct a; try done; cbn in Hg; rewrite forallb_forall in Hg; intros t'; destruct (Hcases t') as [->|Hlt]; try done;
      specialize (Hg t' (proj2 (in_seq n 0 t') ltac:(lia))).
    + by apply negb_true_iff, bool_decide_eq_false in Hg.
    + by apply bool_decide_eq_true in Hg.
  - rewrite app_comm_cons, (assoc_L (++)) in E. apply app_inj_tail in E as [-> _]. by apply (Hr pre' u a post).
Qed.

Definition rbd_pool : NamedPoolSpec := {| pool_Name := "rbd"; pool_Spec := three |}.

Definition update_log : list call := log (updatePoolCrushRule plain_cluster rbd_pool (World (lab false "rbd") [])).1.

Definition cleanup_log : list call := log (CleanupUnusedCrushRules (World (lab false "rbd") [])).1.

(** A first reconcile has created its rule when a second one starts and comes as far; then the first one
    uses its rule and ends, the second one too, and a cleanup runs. *)
Definition before_use : schedule := ((fun ev => (0%nat, ev)) <$> take 3 update_log).

Definition meanwhile : schedule := ((fun ev => (1%nat, ev)) <$> take 4 update_log).

Definition after_use : schedule :=
  (0%nat, Mutex RUnlock) :: ((fun ev => (1%nat, ev)) <$> drop 4 update_log) ++ ((fun ev => (2%nat, ev)) <$> cleanup_log).

Definition creates : call := Ceph (create_rule_args "rbd_host" "default" "host" "") (Ok "").

Definition attaches : call := Ceph (set_rule_args "rbd" "rbd_host") (Ok "").

Definition deletes_pool (ev : call) : bool := match ev with Ceph ("osd" :: "pool" :: "delete" :: _) _ => true | _ => false end.

Lemma deleted_member name t s : pool_deleted name (calls_of t s) -> existsb (fun x => deletes_pool x.2) s = true.
Proof.
  intros (k & out & _ & _ & Hin). unfold calls_of in Hin. apply list_elem_of_fmap in Hin as ([u ev] & E & Hin). cbn in E. subst ev.
  apply list_elem_of_In, filter_In in Hin as [Hin _]. apply existsb_exists. by exists (u, Ceph (delete_pool_args name) (Ok out)).
Qed.

Lemma rule_is_kept_witness :
  meanwhile <> [] /\ (forall t' ev, (t', ev) ∈ meanwhile -> ~ removes_rule ev).
Proof.
  split; [discriminate|]. intros t' ev Hin Hrm.
  destruct (rule_is_kept (before_use ++ (0%nat, creates) :: meanwhile ++ (0%nat, attaches) :: after_use) before_use 0 creates meanwhile attaches after_use)
    with (t' := t') (ev := ev) as [name Hd]; [| | | | |done|done|].
  - apply (respects_sound 3 []); [constructor|by intros [] ? ? ? ?|vm_compute; reflexivity].
  - intros [|[|[|t]]].
    + exists update_log. split; [exists []; vm_compute; reflexivity|left; apply updated_rule].
    + exists update_log. split; [exists []; vm_compute; reflexivity|left; apply updated_rule].
    + exists cleanup_log. split; [exists []; vm_compute; reflexivity|right; left; apply cleaned_up].
    + exists cleanup_log. split; [exists cleanup_log; rewrite (calls_of_none 3); [done| |lia]|right; left; apply cleaned_up].
      by apply (bool_decide_unpack _).
  - reflexivity.
  - exists (create_rule_args "rbd_host" "default" "host" ""), (Ok ""). split; [done|left]. by exists "rbd_host", "default", "host", "".
  - exists (set_rule_args "rbd" "rbd_host"), (Ok ""). split; [done|right; right; left]. by exists "rbd", "rbd_host".
  - apply deleted_member in Hd. vm_compute in Hd. discriminate Hd.
Defined.

(** The deletion of a pool does not ask for the lock: it can remove a rule that a reconcile has just created and
    is about to use. *)
Definition deletion_run_log : list call := log (DeletePool "rbd" (World (lab false "rbd_host") [])).1.

Definition deleted_meanwhile : schedule :=
  ((fun ev => (0%nat, ev)) <$> take 4 update_log) ++ ((fun ev => (1%nat, ev)) <$> deletion_run_log) ++ ((fun ev => (0%nat, ev)) <$> drop 4 update_log).

Example rule_removed_with_pool :
  lock_respected deleted_meanwhile /\ deletion_run "rbd" deletion_run_log /\
  update_log !! 3%nat = Some creates /\ update_log !! 4%nat = Some attaches /\ last deletion_run_log = Some (Ceph (rm_rule_args "rbd_host") (Ok "")).
Proof.
  split; [apply (respects_sound 2 []); [constructor|by intros [] ? ? ? ?|vm_compute; reflexivity]|].
  split; [apply deleted_pool|]. split_and!; vm_compute; reflexivity.
Qed.

Definition start (l : Lab) : world (gmap string bool * Lab) call := World (∅, l) [].

Definition deletion_log : list call := log (reconcile "rook-ceph" "rbd" (start (lab true "rbd"))).1.

Lemma deletion_is_checked_witness :
  deletion_log !! 11%nat = Some (Ceph (delete_pool_args "rbd") (Ok "")) /\ deletable (W := Lab) "rook-ceph" "rbd" "rbd" (take 11 deletion_log).
Proof.
  split; [vm_compute; reflexivity|].
  apply (deletion_is_checked (W := Lab) "rook-ceph" "rbd" (∅, lab true "rbd") (take 11 deletion_log) (drop 12 deletion_log)
           (Ceph (delete_pool_args "rbd") (Ok ""))); [vm_compute; reflexivity|reflexivity].
Defined.

Lemma cleanup_is_checked_witness :
  cleanup_log !! 4%nat = Some (Ceph (rm_rule_args "old") (Ok "")) /\ removable (W := Lab) "old" (take 4 cleanup_log).
Proof.
  split; [vm_compute; reflexivity|].
  apply (cleanup_is_checked (W := Lab) (lab false "rbd") (take 4 cleanup_log) (drop 5 cleanup_log) (Ceph (rm_rule_args "old") (Ok "")));
    [vm_compute; reflexivity|reflexivity].
Defined.

(** ** What the theorems do not promise *)

(** When the clusters cannot be listed, the finalizer of a resource that is being deleted is removed
    although its pool is still there. *)
Example finalizer_lost :
  let l := {| lab_ceph := toy_ceph "rbd"; lab_rbd := toy_rbd; lab_pool := Ok (block_pool true three); lab_namespaces := [];
              lab_clusters := Err (External "timeout"); lab_status := Ok () |} in
  log (reconcile "rook-ceph" "rbd" (start l)).1 =
  [GetPool "rook-ceph" "rbd" (Ok (block_pool true three)); Api "add-finalizer" "CephBlockPool" "rbd" false;
   ListClusters "rook-ceph" (Err (External "timeout")); Api "remove-finalizer" "CephBlockPool" "rbd" false].
Proof. vm_compute. reflexivity. Qed.

(** The deletion of a pool removes the rule of the pool also if it is the default rule, which the cleanup
    takes care to keep. *)
Example default_rule_removed :
  log (DeletePool "rbd" (World (lab true "replicated_rule") [])).1 !! 3%nat = Some (Ceph (rm_rule_args "replicated_rule") (Ok "")).
Proof. vm_compute. reflexivity. Qed.

(** A pool without a device class whose rule already has the wanted failure domain gets a new rule: the
    root is taken for the device class. *)
Example rule_replaced : update_log !! 3%nat = Some creates /\ update_log !! 4%nat = Some attaches /\ extractPoolDetails (toy_rule "rbd") = ("host", "default").
Proof. vm_compute. split_and!; reflexivity. Qed.

(** An error of the status is lost: the reconcile succeeds although the status could not be written. *)
Example status_error_lost :
  let l := {| lab_ceph := toy_ceph "rbd"; lab_rbd := toy_rbd; lab_pool := Ok (block_pool false three); lab_namespaces := [];
              lab_clusters := Ok [healthy_cluster]; lab_status := Err (External "forbidden") |} in
  (updateStatus "rook-ceph" "rbd" ConditionReady "" 1 None (start l)).2 = Ok None.
Proof. vm_compute. reflexivity. Qed.


End PoolSafety.
