(* ===== verification/PoolFacts.v ===== *)
(** * PoolFacts: the pure parts of the pools

    New rule IDs are fresh, the details of a pool are read back, the list of pools with statistics, and
    what a validated pool satisfies (files Pools and BlockPool). *)

From stdpp Require Import base gmap strings list fin_maps sorting.
From Stdlib Require Import ZArith Ascii Lia.
From S2P Require Import Prelude CephVersion Cephx OsdBase Pools BlockPool PoolLab.
Import Log Version Cephx Pools BlockPool PoolLab.
Open Scope Z_scope.

Module PoolFacts.

(** ** New rule IDs *)

Lemma rule_id_exists rules id : checkIfRuleIDExists rules id = true <-> id ∈ (rule_ID <$> rules).
Proof.
  unfold checkIfRuleIDExists. rewrite existsb_exists, list_elem_of_fmap. split.
  - intros (x & Hx%list_elem_of_In & <-%Z.eqb_eq). by exists x.
  - intros (x & -> & Hx). exists x. split; [by apply list_elem_of_In|apply Z.eqb_refl].
Qed.

Lemma next_rule_id_spec fuel rules k :
  match next_rule_id fuel rules k with
  | Some id => k <= id /\ checkIfRuleIDExists rules id = false /\ forall j, k <= j < id -> checkIfRuleIDExists rules j = true
  | None => forall j, k <= j < k + Z.of_nat fuel -> checkIfRuleIDExists rules j = true
  end.
Proof.
  revert k. induction fuel as [|fuel IH]; intros k; cbn [next_rule_id]; [intros j Hj; lia|].
  destruct (checkIfRuleIDExists rules k) eqn:Ek; [|split_and!; [lia|done|lia]].
  specialize (IH (k + 1)). destruct (next_rule_id fuel rules (k + 1)) as [id|].
  - destruct IH as (Hk & Hid & Hj). split_and!; [lia|done|]. intros j Hr. destruct (decide (j = k)) as [->|]; [done|]. apply Hj. lia.
  - intros j Hr. destruct (decide (j = k)) as [->|]; [done|]. apply IH. lia.
Qed.

(** As many IDs as there are rules, and one more, cannot all be taken. *)
Lemma some_id_free rules k : exists j, k <= j < k + Z.of_nat (S (length rules)) /\ checkIfRuleIDExists rules j = false.
Proof.
  destruct (decide (Forall (fun j => checkIfRuleIDExists rules j = true) (seqZ k (Z.of_nat (S (length rules)))))) as [Hall|Hn].
  - exfalso. assert (length (seqZ k (Z.of_nat (S (length rules)))) <= length (rule_ID <$> rules))%nat as Hlen.
    { apply submseteq_length, NoDup_submseteq; [apply NoDup_seqZ|]. intros j Hj. rewrite Forall_forall in Hall.
      by apply rule_id_exists, Hall. }
    rewrite length_seqZ, length_fmap in Hlen. lia.
  - apply not_Forall_Exists in Hn; [|apply _]. apply Exists_exists in Hn as (j & Hj%elem_of_seqZ & Hf). exists j.
    split; [lia|]. by apply not_true_iff_false.
Qed.

(** A new rule gets the next free ID after the one of the last rule, and the search for it ends: no
    rule has the ID, and every ID between the two is taken. *)
Theorem fresh_rule_id rules rule :
  last rules = Some rule ->
  exists id, generateRuleID rules = Ok id /\ rule_ID rule < id /\ id ∉ (rule_ID <$> rules) /\
    forall j, rule_ID rule < j < id -> j ∈ (rule_ID <$> rules).
Proof.
  intros Hl. unfold generateRuleID. rewrite Hl. pose proof (next_rule_id_spec (S (length rules)) rules (rule_ID rule + 1)) as Hs.
  destruct (next_rule_id _ _ _) as [id|].
  - destruct Hs as (Hle & Hf & Hj). exists id. split_and!; [done|lia|by rewrite <- rule_id_exists, Hf|]. intros j Hr.
    apply rule_id_exists, Hj. lia.
  - destruct (some_id_free rules (rule_ID rule + 1)) as (j & Hr & Hf). rewrite Hs in Hf; [done|lia].
Qed.

Definition demo_rule (id : Z) : ruleSpec :=
  {| rule_ID := id; rule_Name := "r"; Ruleset := id; rule_Type := 1; rule_MinSize := 1; rule_MaxSize := 10; Steps := [] |}.

Lemma fresh_rule_id_witness : generateRuleID [demo_rule 2; demo_rule 3; demo_rule 1] = Ok 4 /\ 4 ∉ (rule_ID <$> [demo_rule 2; demo_rule 3; demo_rule 1]).
Proof.
  split; [reflexivity|].
  destruct (fresh_rule_id [demo_rule 2; demo_rule 3; demo_rule 1] (demo_rule 1) eq_refl) as (id & E & _ & Hn & _).
  vm_compute in E. injection E as <-. exact Hn.
Defined.

(** Without any rule the code panics. *)
Example no_rules_panic : is_ok (generateRuleID []) = false.
Proof. reflexivity. Qed.

(** ** The details of a pool *)

(** Objects without nested braces, one after the other as [ceph osd pool get all] prints them. *)
Definition object_text (body : string) : string := "{" +:+ body +:+ "}".

Definition flat (body : string) : bool := free_of "{" body && free_of "}" body.

Fixpoint objects_text (bodies : list string) : string :=
  match bodies with
  | [] => ""
  | body :: bodies => object_text body +:+ objects_text bodies
  end.

Lemma split_objects_free s t x l :
  free_of "}" s = true -> split_objects t = x :: l -> split_objects (s +:+ t) = (s +:+ x) :: l.
Proof.
  intros Hs Ht. induction s as [|c s IH]; [done|]. cbn in Hs. apply andb_prop in Hs as [Hc Hs]. specialize (IH Hs).
  change (String c s +:+ t) with (String c (s +:+ t)). change (String c s +:+ x) with (String c (s +:+ x)).
  apply negb_true_iff in Hc. cbn [split_objects]. destruct (s +:+ t) as [|d r] eqn:E.
  - destruct s; [|done]. cbn in E. subst t. cbn in IH. by injection IH as <- <-.
  - rewrite Hc. cbn [andb]. by rewrite IH.
Qed.

Lemma HasPrefix_byte c d s : HasPrefix (String d s) (String c "") = Ascii.eqb c d.
Proof. unfold HasPrefix. cbn [strip_prefix]. by destruct (Ascii.eqb c d). Qed.

Lemma free_byte c d s : free_of c (String d s) = true -> Ascii.eqb c d = false /\ free_of c s = true.
Proof.
  unfold free_of. cbn [all_chars]. intros [Hd Hs]%andb_prop. split; [|done]. rewrite Ascii.eqb_sym. by apply negb_true_iff.
Qed.

Lemma HasSuffix_snoc s c : HasSuffix (s +:+ String c "") (String c "") = true.
Proof. unfold HasSuffix. rewrite rev_snoc. apply HasPrefix_spec. by exists (String.rev s). Qed.

Lemma HasSuffix_free s c : free_of c s = true -> HasSuffix s (String c "") = false.
Proof.
  intros Hf. destruct s as [|d s _] using string_snoc_ind; [done|]. unfold HasSuffix. rewrite rev_snoc.
  rewrite free_of_app in Hf. apply andb_prop in Hf as [_ [Hd _]%free_byte]. change (String.rev (String c "")) with (String c ""). by rewrite HasPrefix_byte.
Qed.

(** The text after its first brace, and the pieces between "}{". *)
Fixpoint rest_text (body : string) (bodies : list string) : string :=
  match bodies with
  | [] => body +:+ "}"
  | next :: bodies => body +:+ ("}" +:+ "{" +:+ rest_text next bodies)
  end.

Fixpoint pieces (body : string) (bodies : list string) : list string :=
  match bodies with
  | [] => [body +:+ "}"]
  | next :: bodies => body :: pieces next bodies
  end.

Lemma objects_rest body bodies : objects_text (body :: bodies) = "{" +:+ rest_text body bodies.
Proof.
  revert body. induction bodies as [|next bodies IH]; intros body.
  - cbn [objects_text rest_text]. unfold object_text. by rewrite app_string_nil_r.
  - change (objects_text (body :: next :: bodies)) with (object_text body +:+ objects_text (next :: bodies)).
    rewrite IH. unfold object_text. cbn [rest_text]. by rewrite !app_string_assoc.
Qed.

Lemma split_rest body bodies : Forall (fun b => flat b = true) (body :: bodies) -> split_objects (rest_text body bodies) = pieces body bodies.
Proof.
  revert body. induction bodies as [|next bodies IH]; intros body Hf; cbn [rest_text pieces];
    apply Forall_cons in Hf as [[_ Hb]%andb_prop Hf].
  - by apply split_objects_free.
  - rewrite (split_objects_free body _ "" (split_objects (rest_text next bodies))); [by rewrite app_string_nil_r, IH|done|done].
Qed.

Lemma flat_opens b : free_of "{" b = true -> HasPrefix b "{" = false.
Proof. destruct b as [|d b]; [done|]. intros [Hd _]%free_byte. by rewrite HasPrefix_byte. Qed.

Lemma opens_snoc b : free_of "{" b = true -> HasPrefix (b +:+ "}") "{" = false.
Proof. intros Hb. apply flat_opens. by rewrite free_of_app, Hb. Qed.

Lemma close_open s : HasPrefix s "{" = false -> close_object ("{" +:+ s) = close_object s.
Proof. intros Hs. unfold close_object. rewrite Hs. by rewrite (proj2 (HasPrefix_spec ("{" +:+ s) "{")) by (by exists s). Qed.

Lemma close_pieces body bodies :
  Forall (fun b => flat b = true) (body :: bodies) -> close_object <$> pieces body bodies = object_text <$> (body :: bodies).
Proof.
  revert body. induction bodies as [|next bodies IH]; intros body Hf; cbn [pieces fmap list_fmap];
    apply Forall_cons in Hf as [[Ho Hc]%andb_prop Hf].
  - f_equal. unfold close_object. rewrite opens_snoc by done. rewrite <- app_string_assoc, HasSuffix_snoc. by rewrite app_string_assoc.
  - rewrite (IH next Hf). f_equal. unfold close_object.
    rewrite flat_opens by done.
    rewrite HasSuffix_free; [by rewrite app_string_assoc|]. by rewrite free_of_app, Hc.
Qed.

Lemma foldl_fmap_l {A B C} (g : A -> B) (f : C -> B -> C) acc l : foldl f acc (g <$> l) = foldl (fun c a => f c (g a)) acc l.
Proof. revert acc. by induction l as [|x l IH]; intros acc; cbn; [|rewrite IH]. Qed.

Section Details.
Context {W : Type} `{PoolEnv W}.

Lemma decode_fold units d :
  decode_details (W := W) units d = foldl (fun acc u => acc ≫= json_details (W := W) (close_object u)) (Some d) units.
Proof.
  revert d. induction units as [|u units IH]; intros d; cbn; [done|]. destruct (json_details (close_object u) d) as [d'|]; cbn; [apply IH|].
  clear IH. by induction units.
Qed.

(** The objects that [ceph osd pool get all] prints one after the other, without nested braces, are
    decoded one after the other, each on top of the fields the earlier ones have set. *)
Theorem details_are_read bodies :
  bodies <> [] -> Forall (fun body => flat body = true) bodies ->
  ParsePoolDetails (W := W) (objects_text bodies) =
  foldl (fun acc body => acc ≫= json_details (W := W) (object_text body)) (Some no_details) bodies.
Proof.
  intros Hne Hf. destruct bodies as [|body bodies]; [done|].
  unfold ParsePoolDetails. rewrite decode_fold, objects_rest.
  assert (exists x l, pieces body bodies = x :: l) as (x & l & Ep) by (destruct bodies; by eexists _, _).
  rewrite (split_objects_free "{" _ x l); [|done|by rewrite split_rest].
  assert (close_object ("{" +:+ x) = close_object x) as Ex.
  { apply close_open. apply Forall_cons in Hf as [[Ho Hc]%andb_prop _]. destruct bodies; cbn in Ep; injection Ep as <- _; [|by apply flat_opens].
    by apply opens_snoc. }
  pose proof (close_pieces body bodies Hf) as Ec. rewrite Ep in Ec.
  rewrite <- (foldl_fmap_l close_object (fun acc u => acc ≫= json_details (W := W) u)).
  by rewrite fmap_cons, Ex, <- fmap_cons, Ec, (foldl_fmap_l object_text (fun acc u => acc ≫= json_details (W := W) u)).
Qed.

End Details.


(** The order of bytes on strings. *)
#[global] Instance string_le_total : Total string_le.
Proof. intros a b. apply String.leb_total. Qed.

#[global] Instance string_le_antisym : AntiSymm (=) string_le.
Proof. intros a b. apply String.leb_antisym. Qed.

#[global] Instance string_le_trans : Transitive string_le.
Proof.
  intros a. unfold string_le, String.leb. induction a as [|x a IH]; intros [|y b] [|z c]; cbn; try done.
  unfold Ascii.compare. intros H1 H2. specialize (IH b c).
  destruct (N.compare_spec (N_of_ascii x) (N_of_ascii y)), (N.compare_spec (N_of_ascii y) (N_of_ascii z)),
    (N.compare_spec (N_of_ascii x) (N_of_ascii z)); try done; try lia. by apply IH.
Qed.

(** ** The pools with statistics *)

Lemma add_unique_spec removed acc l :
  NoDup acc -> (forall x, x ∈ acc -> x <> "" /\ x ∉ removed) ->
  NoDup (add_unique removed acc l) /\
  forall x, x ∈ add_unique removed acc l <-> x ∈ acc \/ (x ∈ l /\ x <> "" /\ x ∉ removed).
Proof.
  revert acc. induction l as [|y l IH]; intros acc Hnd Hacc; cbn [add_unique]; [split; [done|set_solver]|].
  destruct (String.eqb_spec y ""); cbn [orb].
  { destruct (IH acc Hnd Hacc) as [Hn Hx]. split; [done|]. intros x. rewrite Hx. set_solver. }
  destruct (bool_decide_reflect (y ∈ removed)); cbn [orb].
  { destruct (IH acc Hnd Hacc) as [Hn Hx]. split; [done|]. intros x. rewrite Hx. set_solver. }
  destruct (bool_decide_reflect (y ∈ acc)).
  { destruct (IH acc Hnd Hacc) as [Hn Hx]. split; [done|]. intros x. rewrite Hx. set_solver. }
  destruct (IH (acc ++ [y])) as [Hn Hx].
  - apply NoDup_app. split_and!; [done|set_solver|apply NoDup_singleton].
  - set_solver.
  - split; [done|]. intros x. rewrite Hx. set_solver.
Qed.

Lemma stats_pools_spec existing rook removed :
  NoDup (stats_pools existing rook removed) /\ Sorted string_le (stats_pools existing rook removed) /\
  forall x, x ∈ stats_pools existing rook removed <-> x <> "" /\ x ∉ removed /\ (x ∈ existing \/ x ∈ rook).
Proof.
  unfold stats_pools. destruct (add_unique_spec removed [] existing) as [Hn1 H1]; [apply NoDup_nil_2|set_solver|].
  destruct (add_unique_spec removed (add_unique removed [] existing) rook) as [Hn2 H2]; [done|intros x; rewrite H1; set_solver|].
  split_and!.
  - by rewrite sort_strings_Permutation.
  - apply Sorted_merge_sort, _.
  - intros x. rewrite elem_of_sort_strings, H2, H1. set_solver.
Qed.

(** The list of pools with statistics that is written has every pool once, in order: those that were
    in the list and those that want statistics, without the ones that are deleted or do not want them;
    reading the written list and computing it again changes nothing. *)
Theorem stats_are_settled existing rook removed :
  NoDup (stats_pools existing rook removed) /\
  (forall x, x ∈ stats_pools existing rook removed <-> x <> "" /\ x ∉ removed /\ (x ∈ existing \/ x ∈ rook)) /\
  (Forall (fun x => free_of "," x = true) (existing ++ rook) ->
   generateStatsPoolList (split_byte "," (generateStatsPoolList existing rook removed)) rook removed =
   generateStatsPoolList existing rook removed).
Proof.
  destruct (stats_pools_spec existing rook removed) as (Hn & Hs & Hx). split_and!; [done|exact Hx|]. intros Hf.
  unfold generateStatsPoolList. set (l := stats_pools existing rook removed) in *. f_equal.
  assert (forall x, x ∈ split_byte "," (Join l ",") <-> x ∈ l \/ (l = [] /\ x = "")) as Hsplit.
  { intros x. destruct (decide (l = [])) as [->|Hne]; [cbn; set_solver|]. rewrite split_Join; [naive_solver|done|].
    apply Forall_forall. intros y [_ [_ Hy]]%Hx. rewrite Forall_forall in Hf. apply Hf. set_solver. }
  destruct (stats_pools_spec (split_byte "," (Join l ",")) rook removed) as (Hn' & Hs' & Hx').
  apply (Sorted_unique string_le); [done..|]. apply NoDup_Permutation; [done..|]. intros x. rewrite Hx', Hsplit, Hx. naive_solver.
Qed.


(** ** Validated pools *)

Section Valid.
Context {W : Type} `{PoolEnv W}.

(** Ceph has OSDs of the class. *)
Definition class_in_use (class : string) (l : list call) : Prop :=
  exists out osd osds, Ceph ["osd"; "crush"; "class"; "ls-osd"; class] (Ok out) ∈ l /\ json_ints (W := W) out = Some (osd :: osds).

Definition optional_in (name : string) (names : list string) : Prop := name = "" \/ name ∈ names.

(** The names that a pool uses are in the CRUSH map that was read. *)
Definition names_known (p : PoolSpec) (l : list call) : Prop :=
  let sub := SubFailureDomain (Replicated p) in
  (FailureDomain p = "" /\ CrushRoot p = "" /\ sub = "") \/
  exists out crush, Ceph ["osd"; "crush"; "dump"] (Ok out) ∈ l /\ json_crush_map (W := W) out = Some crush /\
    optional_in (FailureDomain p) (Types crush) /\ optional_in (CrushRoot p) (Buckets crush) /\ optional_in sub (Types crush).

Definition replicas_sound (rep : ReplicatedSpec) : Prop :=
  ReplicasPerFailureDomain rep < Size rep /\
  (ReplicasPerFailureDomain rep <> 0 -> (ReplicasPerFailureDomain rep | Size rep)) /\
  (Size rep = 1 -> RequireSafeReplicaSize rep = false).

Definition mirroring_sound (m : MirroringSpec) : Prop :=
  mirror_Enabled m = true ->
  mirror_Mode m ∈ ["image"; "pool"; "init-only"] /\ forall s, s ∈ SnapshotSchedules m -> StartTime s <> "" -> Interval s <> "".

Definition well_formed (c : ClusterSpec) (p : PoolSpec) (l : list call) : Prop :=
  ~ (IsReplicated p = true /\ IsErasureCoded p = true) /\
  (IsStretchCluster c = true -> IsErasureCoded p = false /\ (IsReplicated p = true -> Size (Replicated p) = 4)) /\
  (FailureDomain p <> "" -> FailureDomain p <> SubFailureDomain (Replicated p)) /\
  (IsReplicated p = true -> replicas_sound (Replicated p)) /\
  mirroring_sound (Mirroring p) /\ names_known p l /\
  (forall hybrid, HybridStorage (Replicated p) = Some hybrid ->
     class_in_use (PrimaryDeviceClass hybrid) l /\ class_in_use (SecondaryDeviceClass hybrid) l).

Lemma require_ok b e : require b e = Ok () <-> b = true.
Proof. by destruct b. Qed.

Lemma result_seq_ok (a b : result unit) : (_ ← a; b) = Ok () <-> a = Ok () /\ b = Ok ().
Proof. destruct a as [[]|]; naive_solver. Qed.

Lemma kind_ok_spec c p :
  kind_ok c p = Ok () ->
  ~ (IsReplicated p = true /\ IsErasureCoded p = true) /\
  (IsStretchCluster c = true -> IsErasureCoded p = false /\ (IsReplicated p = true -> Size (Replicated p) = 4)) /\
  (FailureDomain p <> "" -> FailureDomain p <> SubFailureDomain (Replicated p)).
Proof.
  unfold kind_ok. rewrite !result_seq_ok, !require_ok. intros (Ha & Hb & Hc). split_and!.
  - intros [E1 E2]. by rewrite E1, E2 in Ha.
  - intros Es. rewrite Es, result_seq_ok, !require_ok in Hc. destruct Hc as [H4 Hec]. split; [by apply negb_true_iff|].
    intros Er. rewrite Er in H4. by apply Z.eqb_eq.
  - intros Hne E. rewrite <- E, String.eqb_refl, andb_true_r in Hb. by destruct (String.eqb_spec (FailureDomain p) "").
Qed.

Lemma replicas_ok_spec p : replicas_ok p = Ok () -> IsReplicated p = true -> replicas_sound (Replicated p).
Proof.
  unfold replicas_ok. intros Hk Hr. rewrite Hr, !result_seq_ok, !require_ok in Hk. destruct Hk as (Hs & Hlt & Hmod).
  split_and!.
  - apply negb_true_iff, Z.leb_gt in Hlt. lia.
  - intros Hne. apply orb_true_iff in Hmod as [E%Z.eqb_eq|E%Z.eqb_eq]; [done|]. by apply Z.mod_divide.
  - intros E. rewrite E in Hs. by destruct (RequireSafeReplicaSize _).
Qed.

Lemma mirroring_ok_spec m : mirroring_ok m = Ok () -> mirroring_sound m.
Proof.
  unfold mirroring_ok. intros Hk He. rewrite He, result_seq_ok, require_ok in Hk. destruct Hk as [Hm Hs].
  apply bool_decide_eq_true in Hm. split; [done|]. intros s Hin Hst Hi. rewrite forE_ok in Hs. specialize (Hs s Hin). rewrite require_ok in Hs.
  rewrite Hi in Hs. cbn in Hs. by destruct (String.eqb_spec (StartTime s) "").
Qed.

Lemma optional_ok name names : String.eqb name "" || bool_decide (name ∈ names) = true -> optional_in name names.
Proof. intros [E%String.eqb_eq|E%bool_decide_eq_true]%orb_true_iff; [by left|by right]. Qed.

Lemma crush_ok_spec p crush :
  crush_ok p crush = Ok () ->
  optional_in (FailureDomain p) (Types crush) /\ optional_in (CrushRoot p) (Buckets crush) /\
  optional_in (SubFailureDomain (Replicated p)) (Types crush).
Proof. unfold crush_ok. rewrite !result_seq_ok, !require_ok. intros (Ha & Hb & Hc). split_and!; by apply optional_ok. Qed.

Abbreviation any := (fun _ : call => True).

Lemma class_yields class : yields any (validateDeviceClassOSDs (W := W) class) (fun r l => r = Ok () -> class_in_use class l).
Proof.
  unfold validateDeviceClassOSDs, GetDeviceClassOSDs, ceph, decode. apply yields_bind, yields_wrapM, yields_bind, yields_wrapM, yields_record.
  intros [out|err]; (split; [done|]); cbn; [|done]. destruct (json_ints out) as [[|osd osds]|] eqn:Ej; [apply yields_ret; cbn; by apply yields_fail| |by apply yields_fail].
  apply yields_ret. cbn. apply yields_ret. intros _. exists out, osd, osds. split; [apply list_elem_of_here|done].
Qed.

Lemma crush_map_yields p :
  yields any (if String.eqb (FailureDomain p) "" && String.eqb (CrushRoot p) ""
              then mret {| Types := []; Buckets := []; Rules := [] |}
              else wrapM (GetCrushMap (W := W)) "failed to get crush map" [])
    (fun r l => forall crush, r = Ok crush -> crush_ok p crush = Ok () -> names_known p l).
Proof.
  destruct (_ && _) eqn:E.
  - apply yields_ret. intros crush Ec Hk. injection Ec as <-. left. apply andb_prop in E as [E1%String.eqb_eq E2%String.eqb_eq].
    apply crush_ok_spec in Hk as (_ & _ & [Hs|Hs%elem_of_nil]); done.
  - unfold GetCrushMap, ceph, decode. apply yields_wrapM, yields_bind, yields_wrapM, yields_record. intros [out|err]; (split; [done|]); cbn; [|done].
    destruct (json_crush_map out) as [crush|] eqn:Ej; [apply yields_ret|by apply yields_fail]. intros crush' Ec Hk. injection Ec as <-.
    right. exists out, crush. apply crush_ok_spec in Hk as (Ha & Hb & Hc). split_and!; [apply list_elem_of_here|done..].
Qed.

Lemma hybrid_yields (h : option HybridStorageSpec) :
  yields any (match h with
              | Some hybrid => wrapM (validateDeviceClasses (W := W) hybrid) "failed to validate device classes for hybrid storage pool spec" []
              | None => mret ()
              end)
    (fun r l => r = Ok () -> forall hybrid, h = Some hybrid -> class_in_use (PrimaryDeviceClass hybrid) l /\ class_in_use (SecondaryDeviceClass hybrid) l).
Proof.
  destruct h as [hybrid|]; [|by apply yields_ret]. unfold validateDeviceClasses. apply yields_wrapM, yields_bind, yields_wrapM.
  eapply yields_mono; [|apply class_yields]. intros [[]|err] l _ Hp; cbn; [|done]. apply yields_wrapM.
  eapply yields_mono; [|apply class_yields]. intros r l' _ Hs E h' Eh. injection Eh as <-. rewrite !wrap_err_ok in E.
  specialize (Hp eq_refl). specialize (Hs E). split.
  - destruct Hp as (out & osd & osds & Hin & Hj). exists out, osd, osds. split; [apply elem_of_app; by left|done].
  - destruct Hs as (out & osd & osds & Hin & Hj). exists out, osd, osds. split; [apply elem_of_app; by right|done].
Qed.

Lemma class_later class l l' : class_in_use class l -> class_in_use class (l ++ l').
Proof. intros (out & osd & osds & Hin & Hj). exists out, osd, osds. split; [apply elem_of_app; by left|done]. Qed.

Lemma ValidatePoolSpec_yields c p : yields any (ValidatePoolSpec (W := W) c p) (fun r l => r = Ok () -> well_formed c p l).
Proof.
  unfold ValidatePoolSpec. apply yields_bind. eapply yields_mono; [|apply hybrid_yields]. intros [[]|err] l1 _ Hh; [|done].
  specialize (Hh eq_refl). apply yields_bind, yields_lift. destruct (kind_ok c p) as [[]|] eqn:Ek; cbn; [|done].
  apply kind_ok_spec in Ek as (Hx & Hst & Hfd). apply yields_bind. eapply yields_mono; [|apply crush_map_yields].
  intros [crush|err] l2 _ Hn; [|done]. specialize (Hn crush eq_refl). apply yields_bind, yields_lift.
  destruct (crush_ok p crush) as [[]|]; cbn; [|done]. specialize (Hn eq_refl). apply yields_bind, yields_lift.
  destruct (replicas_ok p) as [[]|] eqn:Er; cbn; [|done]. apply yields_bind, yields_lift.
  destruct (compression_ok (Parameters p)) as [[]|]; cbn; [|done]. apply yields_lift. intros Em. rewrite !app_nil_r.
  split_and!; [done..|by apply replicas_ok_spec|by apply mirroring_ok_spec| |].
  - destruct Hn as [Hn|(out & cr & Hin & Hr)]; [by left|right]. exists out, cr. split; [apply elem_of_app; by right|done].
  - intros hybrid E. destruct (Hh hybrid E). split; by apply class_later.
Qed.

(** A pool that passes validation is well-formed: it is not replicated and erasure coded at once, its
    replicas divide evenly over the failure domains, a stretch cluster has four of them, the names it
    uses are in the CRUSH map, its mirroring mode and schedules are legal, and Ceph has OSDs of the
    device classes of a hybrid pool. *)
Theorem validated_is_well_formed c p e e' l :
  validatePool (W := W) c p (World e []) = (World e' l, Ok ()) -> well_formed c (bp_Spec p) l.
Proof.
  intros Hrun. assert (yields any (validatePool (W := W) c p) (fun r l => r = Ok () -> well_formed c (bp_Spec p) l)) as Hy.
  { unfold validatePool. destruct (String.eqb (bp_Name p) ""); [by apply yields_fail|].
    destruct (String.eqb (bp_Namespace p) ""); [by apply yields_fail|]. apply yields_bind, yields_lift.
    destruct (ValidateCephBlockPool p) as [[]|]; cbn; [|done]. apply ValidatePoolSpec_yields. }
  pose proof (yields_run _ _ _ e Hy) as Hq. rewrite Hrun in Hq. by apply Hq.
Qed.

End Valid.


(** ** Witnesses *)

Lemma details_are_read_witness :
  ParsePoolDetails (W := Lab) (objects_text ["size:3"; "rule:rbd"]) =
  Some {| det_Name := ""; det_Number := 0; det_Size := 3; det_CrushRule := "rbd" |}.
Proof.
  rewrite (details_are_read (W := Lab) ["size:3"; "rule:rbd"]); [vm_compute; reflexivity|done|by apply (bool_decide_unpack _)].
Defined.

Lemma validated_is_well_formed_witness :
  (validatePool plain_cluster (block_pool false three) (World (lab false "rbd") [])).2 = Ok () /\
  names_known (W := Lab) three [Ceph ["osd"; "crush"; "dump"] (Ok "replicated_rule,rbd,old")].
Proof.
  split; [vm_compute; reflexivity|].
  assert (well_formed (W := Lab) plain_cluster three [Ceph ["osd"; "crush"; "dump"] (Ok "replicated_rule,rbd,old")]) as (_ & _ & _ & _ & _ & Hn & _);
    [|exact Hn].
  apply (validated_is_well_formed (W := Lab) plain_cluster (block_pool false three) (lab false "rbd") (lab false "rbd")). vm_compute. reflexivity.
Defined.

Lemma stats_are_settled_witness :
  generateStatsPoolList ["rbd"; "old"; ""] ["new"; "rbd"] ["old"] = "new,rbd" /\
  generateStatsPoolList (split_byte "," "new,rbd") ["new"; "rbd"] ["old"] = "new,rbd".
Proof.
  assert (generateStatsPoolList ["rbd"; "old"; ""] ["new"; "rbd"] ["old"] = "new,rbd") as E by (vm_compute; reflexivity).
  split; [exact E|]. destruct (stats_are_settled ["rbd"; "old"; ""] ["new"; "rbd"] ["old"]) as (_ & _ & Hs).
  rewrite E in Hs. apply Hs. by apply (bool_decide_unpack _).
Defined.

(** ** What validation lets through or keeps out *)

(** A pool with only a target ratio passes, and is then refused when it is created. *)
Example ratio_only_refused :
  let p := spec "host" (replicas 0 {| ratio_sign := Gt; ratio_text := "0.2" |} "") (chunks 0 0) in
  ValidateCephBlockPool (block_pool false p) = Ok () /\
  (CreatePool Squid plain_cluster {| pool_Name := "rbd"; pool_Spec := p |} (World (lab false "rbd") [])).2 =
  Err (Errorf "pool %q type is not defined as replicated or erasure coded" ["rbd"]).
Proof. split; vm_compute; reflexivity. Qed.

(** An erasure coded pool without coding chunks passes: the check for them can never fail. *)
Example no_coding_chunks : ValidateCephBlockPool (block_pool false (spec "host" (replicas 0 no_ratio "") (chunks 2 0))) = Ok ().
Proof. vm_compute. reflexivity. Qed.

(** A sub failure domain is unknown if no failure domain and no root are given, since the CRUSH map is
    then not read; here [rack] is one of its types. *)
Example sub_domain_unknown :
  (ValidatePoolSpec plain_cluster (spec "" (replicas 3 no_ratio "rack") (chunks 0 0)) (World (lab false "rbd") [])).2 =
  Err (Errorf "unrecognized crush sub domain %s" ["rack"]) /\
  (ValidatePoolSpec plain_cluster (spec "host" (replicas 3 no_ratio "rack") (chunks 0 0)) (World (lab false "rbd") [])).2 = Ok ().
Proof. split; vm_compute; reflexivity. Qed.


End PoolFacts.
