(* ===== verification/FsClient.v ===== *)
(** * FsClient: file systems of Ceph

    Models, of [pkg/daemon/ceph/client], [filesystem.go], [filesystem_mirror.go], [subvolumegroup.go], the
    part of [auth.go] and [mgr.go] the file systems use, and the daemons' settings in
    [pkg/operator/ceph/config/monstore.go].

    The class [FsEnv] extends the environment of the pools with the resources of file systems, the
    deployments of their metadata servers and the decoders of Ceph's answers. *)

From stdpp Require Import base gmap strings list fin_maps.
From Stdlib Require Import ZArith Ascii.
From S2P Require Import Prelude CephVersion Kube Upgrade Cephx OsdBase Pools BlockPool.
Import Log Version Cephx Pools BlockPool.
Open Scope Z_scope.

Module FsClient.

(** ** What Ceph answers *)

Record MDSInfo := { GID : Z; mds_Name : string; Rank : Z; State : string }.

(** Of the map of metadata servers; the entries of [Info] in the order in which they are visited. *)
Record MDSMap := {
  MaxMDS : Z;
  Up : gmap string Z;
  map_MetadataPool : Z;
  map_DataPools : list Z;
  Info : list (string * MDSInfo);
}.

Record CephFilesystemDetails := { fs_ID : Z; fs_MDSMap : MDSMap }.

(** Of the dump of the file systems, the names of the standby servers. *)
Record MDSDump := { Standbys : list string }.

(** A key of Ceph: type and ID of its entity, and its type. *)
Record KeyDumpSecret := { entity_type : string; entity_id : string; key_type : string }.

(** An option of a daemon with the section it is set in. *)
Record Option_ := { opt_Who : string; opt_Option : string }.

(** ** The environment *)

Class FsEnv (W : Type) := {
  fs_pool_env :: BlockPoolEnv W;
  fs_cmd :: Upgrade.CephCmd W;
  env_get_fs : string -> string -> M W CephFilesystem;
  env_update_fs_status : CephFilesystem -> M W unit;
  env_add_fs_finalizer : CephFilesystem -> M W bool;
  env_remove_fs_finalizer : CephFilesystem -> M W unit;
  (** the condition that says whether the deletion is blocked by dependents *)
  env_fs_condition : CephFilesystem -> bool -> M W unit;
  env_start_fs_monitor : string -> M W unit;
  env_list_groups : string -> M W (list CephFilesystemSubVolumeGroup);
  (** by the index of the file system and the name of the group *)
  env_find_groups : string -> string -> M W (list CephFilesystemSubVolumeGroup);
  env_get_group : string -> string -> M W CephFilesystemSubVolumeGroup;
  env_update_group_status : CephFilesystemSubVolumeGroup -> M W unit;
  env_add_group_finalizer : CephFilesystemSubVolumeGroup -> M W bool;
  env_remove_group_finalizer : CephFilesystemSubVolumeGroup -> M W unit;
  (** [csi.CreateUpdateClientProfileSubVolumeGroup] *)
  env_client_profile : string -> string -> M W unit;
  env_list_deployments : string -> string -> M W (list Kube.Deployment);
  env_get_deployment : string -> string -> M W Kube.Deployment;
  env_create_deployment : Kube.Deployment -> M W unit;
  env_update_deployment : Kube.Deployment -> M W unit;
  env_delete_deployment : string -> string -> M W unit;
  env_delete_secret : string -> string -> M W unit;
  (** a secret with a keyring: its resource version *)
  env_create_keyring : string -> string -> M W string;
  env_update_keyring : string -> string -> M W string;
  (** the job that asks the image of the cluster for its version *)
  env_detect_version : string -> M W CephVersion;
  (** whether the context of a poll ended *)
  env_poll_ended : M W bool;
  env_sleep : Z -> M W unit;
  (** [time.Now().UTC().Format(time.RFC3339)] *)
  env_time_text : M W string;
  (** whether keys may be rotated, per namespace *)
  env_allow_map : M W AllowMap;
  (** the pods of a metadata server, its labels and annotations of the user and of the versions *)
  mds_template : CephFilesystem -> CephVersion -> string -> string -> result Kube.PodTemplate;
  mds_extra_labels : CephFilesystem -> CephVersion -> gmap string string;
  mds_annotations : CephFilesystem -> gmap string string;
  patch_is_empty : Kube.Deployment -> Kube.Deployment -> result bool;
  set_last_applied : Kube.Deployment -> result Kube.Deployment;
  (** [SetControllerReference] on the object of this name *)
  owner_reference : string -> result unit;
  (** the namespace of the operator, from its environment *)
  operator_namespace : string;
  json_fs : string -> option CephFilesystemDetails;
  json_fs_dump : string -> option MDSDump;
  (** the names in a list of objects *)
  json_named : string -> option (list string);
  json_clones : string -> option (list string);
  json_auth_key : string -> option string;
  json_rotated : string -> option (list string);
  json_key_dump : string -> option (list KeyDumpSecret);
  json_daemon_config : string -> option (list Option_);
  (** the quota, where the text [infinite], null or nothing is 0 *)
  json_bytes_quota : string -> option Z;
  json_token : string -> option string;
  json_reports : string -> option (list string);
}.

Definition EINVAL : Z := 22.

Definition EPERM : Z := 1.

Definition ENOTSUP : Z := 95.

Definition ENOTEMPTY : Z := 39.

(** ** Commands *)

Section Client.
Context {W : Type} `{FsEnv W}.

Abbreviation MC := (MW (gmap string bool * W)).

(** [exec.ExitStatus] looks at the type of the error itself: not through wrapping. *)
Definition ExitStatus (e : gerror) : option Z := match e with External _ => exit_status (W := W) e | _ => None end.

Definition run (args : list string) : MC unit := _ ← ceph args; mret ().

Definition getFilesystem (fsName : string) : MC CephFilesystemDetails :=
  buf ← ceph ["fs"; "get"; fsName];
  decode (json_fs (W := W) buf) "unmarshal failed raw buffer response %s" [buf].

Definition ListFilesystems : MC (list string) :=
  buf ← wrapM (ceph ["fs"; "ls"]) "failed to list filesystems" [];
  decode (json_named (W := W) buf) "unmarshal failed raw buffer response %s" [buf].

Definition AllowStandbyReplay (fsName : string) (allowStandbyReplay : bool) (wantedStandbyDaemons : Z) : MC unit :=
  _ ← wrapM (ceph ["fs"; "set"; fsName; "allow_standby_replay"; FormatBool allowStandbyReplay])
        "failed to set allow_standby_replay to filesystem %s" [fsName];
  let wantedStandbyDaemons := if allowStandbyReplay then wantedStandbyDaemons else 0 in
  wrapM (run ["fs"; "set"; fsName; "standby_count_wanted"; Itoa wantedStandbyDaemons])
    "failed to set standby_count_wanted to filesystem %s" [fsName].

Definition AddDataPoolToFilesystem (name poolName : string) : MC unit :=
  r ← try_ (ceph ["fs"; "add_data_pool"; name; poolName]);
  match r with
  | Err err =>
      if bool_decide (ExitStatus err = Some EINVAL) then mret ()
      else fail (Wrapf err "failed to add pool %q to file system %q. (%v)" [poolName; name])
  | Ok _ => mret ()
  end.

(** Failures to add the other pools are only logged. *)
Definition CreateFilesystem (name metadataPool : string) (dataPools : list string) : MC unit :=
  match dataPools with
  | [] => fail (Errorf "at least one data pool is required" [])
  | dataPool :: dataPools =>
      _ ← wrapM (ceph ["fs"; "flag"; "set"; "enable_multiple"; "true"; "--yes-i-really-mean-it"]) "failed to enable multiple file systems" [];
      _ ← wrapM (ceph ["fs"; "new"; name; metadataPool; dataPool]) "failed enabling ceph fs %q" [name];
      forM_ dataPools (fun pool => _ ← try_ (AddDataPoolToFilesystem name pool); mret ())
  end.

Definition max_mds_args (fsName : string) (activeMDSCount : Z) : list string := ["fs"; "set"; fsName; "max_mds"; Itoa activeMDSCount].

Definition SetNumMDSRanks (fsName : string) (activeMDSCount : Z) : MC unit :=
  wrapM (run (max_mds_args fsName activeMDSCount)) "failed to set filesystem %s num mds ranks (max_mds) to %d" [fsName; Itoa activeMDSCount].

Definition failMDS (gid : Z) : MC unit := wrapM (run ["mds"; "fail"; Itoa gid]) "failed to fail mds %d" [Itoa gid].

Definition FailAllStandbyReplayMDS (fsName : string) : MC unit :=
  fs ← wrapM (getFilesystem fsName) "failed to fail standby-replay MDSes for fs %q" [fsName];
  forM_ (Info (fs_MDSMap fs)).*2 (fun info =>
    if String.eqb (State info) "up:standby-replay"
    then wrapM (failMDS (GID info)) "failed to fail MDS %q for filesystem %q in up:standby-replay state" [mds_Name info; fsName]
    else mret ()).

(** The entry of a map that is kept as a list. *)
Fixpoint lookup_entry {A} (key : string) (l : list (string * A)) : option A :=
  match l with
  | [] => None
  | (k, a) :: l => if String.eqb k key then Some a else lookup_entry key l
  end.

Definition GetMdsIdByRank (fsName : string) (rank : Z) : MC string :=
  fs ← wrapM (getFilesystem fsName) "failed to get ceph fs dump" [];
  match Up (fs_MDSMap fs) !! ("mds_" +:+ Itoa rank) with
  | None => fail (Errorf "failed to get mds gid from rank %d" [Itoa rank])
  | Some gid =>
      match lookup_entry ("gid_" +:+ Itoa gid) (Info (fs_MDSMap fs)) with
      | None => fail (Errorf "failed to get mds info for rank %d" [Itoa rank])
      | Some info => mret (mds_Name info)
      end
  end.

(** [wait.PollUntilContextTimeout], which asks at once and then after every interval: [n] times at most. *)
Fixpoint poll (n : nat) (cond : MC bool) : MC bool :=
  match n with
  | O => mret false
  | S n =>
      done ← cond;
      if (done : bool) then mret true
      else
        ended ← silent (on_env env_poll_ended);
        if (ended : bool) then mret false else poll n cond
  end.

Definition activeRanksSuccess (upCount desiredRanks : Z) (moreIsOkay : bool) : bool :=
  if moreIsOkay then desiredRanks <=? upCount else upCount =? desiredRanks.

Definition ranks_active (desired : Z) (moreIsOkay : bool) (m : MDSMap) : bool :=
  (MaxMDS m =? desired) && activeRanksSuccess (Z.of_nat (size (Up m))) desired moreIsOkay.

(** Three minutes with an interval of three seconds. *)
Definition rank_polls : nat := 61.

Definition WaitForActiveRanks (fsName : string) (desiredActiveRanks : Z) (moreIsOkay : bool) : MC unit :=
  became ← poll rank_polls (
    r ← try_ (getFilesystem fsName);
    mret (match r with Ok fs => ranks_active desiredActiveRanks moreIsOkay (fs_MDSMap fs) | Err _ => false end));
  if (became : bool) then mret ()
  else fail (Errorf "timeout waiting for number active mds daemons for filesystem %q to become %q" [fsName; Itoa desiredActiveRanks]).

Definition FailFilesystem (fsName : string) : MC unit := wrapM (run ["fs"; "fail"; fsName]) "failed to fail filesystem %s" [fsName].

Definition deleteFSPool (poolNames : gmap Z string) (id : Z) : MC unit :=
  match poolNames !! id with
  | None => fail (Errorf "pool %d not found" [Itoa id])
  | Some name => DeletePool name
  end.

(** Every pool is tried; the last error is returned. *)
Fixpoint delete_pools (poolNames : gmap Z string) (ids : list Z) (lastErr : option gerror) : MC unit :=
  match ids with
  | [] => match lastErr with None => mret () | Some err => fail err end
  | id :: ids =>
      r ← try_ (deleteFSPool poolNames id);
      delete_pools poolNames ids (match r with Ok _ => lastErr | Err err => Some err end)
  end.

Definition deleteFSPools (fs : CephFilesystemDetails) : MC unit :=
  poolNames ← wrapM GetPoolNamesByID "failed to get pool names" [];
  delete_pools poolNames (map_MetadataPool (fs_MDSMap fs) :: map_DataPools (fs_MDSMap fs)) None.

Definition rm_fs_args (fsName : string) : list string := ["fs"; "rm"; fsName; "--yes-i-really-mean-it"].

Definition RemoveFilesystem (fsName : string) (preservePoolsOnDelete : bool) : MC unit :=
  fs ← wrapM (getFilesystem fsName) "filesystem %s not found" [fsName];
  _ ← wrapM (ceph (rm_fs_args fsName)) "Failed to delete ceph fs %s" [fsName];
  if preservePoolsOnDelete then mret ()
  else wrapM (deleteFSPools fs) "failed to delete fs %s pools" [fsName].

Definition GetMDSDump : MC MDSDump :=
  buf ← wrapM (ceph ["fs"; "dump"]) "failed to dump fs info" [];
  decode (json_fs_dump (W := W) buf) "failed to unmarshal fs dump. %s" [buf].

(** The regular expression [^name-[a-z]{1}$]; a dot in the name stands for any character. *)
Fixpoint matches_standby (fsName name : string) : bool :=
  match fsName, name with
  | "", String c (String d "") => Ascii.eqb c "-" && (97 <=? ascii_Z d) && (ascii_Z d <=? 122)
  | String c fsName, String d name =>
      (Ascii.eqb c d || (Ascii.eqb c "." && negb (Ascii.eqb d "010"))) && matches_standby fsName name
  | _, _ => false
  end.

Definition filesystemHasStandby (dump : MDSDump) (fsName : string) : bool := existsb (matches_standby fsName) (Standbys dump).

(** Two minutes with an interval of three seconds. *)
Definition standby_polls : nat := 41.

Definition WaitForNoStandbys (fsName : string) : MC unit :=
  gone ← poll standby_polls (
    r ← try_ GetMDSDump;
    mret (match r with Ok dump => negb (filesystemHasStandby dump fsName) | Err _ => false end));
  if (gone : bool) then mret () else fail (Errorf "timeout waiting for no standbys" []).

(** ** Subvolumes *)

Definition listSubvolumeGroups (fsName : string) : MC (list string) :=
  buf ← wrapM (ceph ["fs"; "subvolumegroup"; "ls"; fsName]) "failed to list subvolumegroups in filesystem %q" [fsName];
  decode (json_named (W := W) buf) "failed to unmarshal subvolumegroup list for filesystem %q" [fsName].

Definition NoSubvolumeGroup : string := "".

Definition subvolume_ls_args (fsName groupName : string) : list string :=
  ["fs"; "subvolume"; "ls"; fsName] ++ (if String.eqb groupName NoSubvolumeGroup then [] else [groupName]).

Definition listSubvolumesInGroup (fsName groupName : string) : MC (list string) :=
  buf ← wrapM (ceph (subvolume_ls_args fsName groupName)) "failed to list subvolumes in filesystem %q subvolume group %q" [fsName; groupName];
  decode (json_named (W := W) buf) "failed to unmarshal subvolume list for filesystem %q subvolume group %q" [fsName; groupName].

Definition listSubVolumeSnapshots (fsName subVolumeName groupName : string) : MC (list string) :=
  buf ← wrapM (ceph ["fs"; "subvolume"; "snapshot"; "ls"; fsName; subVolumeName; "--group_name"; groupName])
          "failed to list subvolumes in filesystem %q subvolume group %q" [fsName; groupName];
  decode (json_named (W := W) buf) "failed to unmarshal snapshots for subvolume %q for filesystem %q subvolume group %q"
    [subVolumeName; fsName; groupName].

Definition listSubVolumeSnapshotPendingClones (fsName subVolumeName snap groupName : string) : MC (list string) :=
  buf ← wrapM (ceph ["fs"; "subvolume"; "snapshot"; "info"; fsName; subVolumeName; snap; "--group_name"; groupName])
          "failed to list pending clones available for snapshot %q in filesystem %q in subvolume group %q" [snap; fsName; groupName];
  decode (json_clones (W := W) buf) "failed to unmarshal pending clones list for snapshot %q in filesystem %q subvolume group %q"
    [snap; fsName; groupName].

Definition getCephFSSubVolumeGroupInfo (volName groupName : string) : MC Z :=
  output ← wrapM (ceph ["fs"; "subvolumegroup"; "info"; volName; groupName]) "failed to get subvolume group %q in filesystem %q. %s" [groupName; volName];
  decode (json_bytes_quota (W := W) output) "failed to unmarshal into subvolumeGroupInfo" [].

Definition resizeCephFSSubVolumeGroup (volName groupName : string) (quota : Z) : MC unit :=
  wrapM (run ["fs"; "subvolumegroup"; "resize"; volName; groupName; "--no-shrink"; Itoa quota])
    "failed to resize subvolume group %q in filesystem %q. %s" [groupName; volName].

(** The quota and the data pool, if a spec is given. *)
Definition CreateCephFSSubVolumeGroup (volName groupName : string) (svgSpec : option (option Z * string)) : MC unit :=
  let quota := match svgSpec with Some (quota, _) => quota | None => None end in
  let args := ["fs"; "subvolumegroup"; "create"; volName; groupName] ++
              match svgSpec with
              | Some (quota, pool) =>
                  match quota with Some q => ["--size=" +:+ Itoa q] | None => [] end ++
                  (if String.eqb pool "" then [] else ["--pool_layout=" +:+ pool])
              | None => []
              end in
  info ← try_ (getCephFSSubVolumeGroupInfo volName groupName);
  _ ← match info with
      | Err err =>
          match ExitStatus err with
          | Some code =>
              if code =? ENOENT then mret ()
              else fail (Wrapf err "failed to create subvolume group %q in filesystem %q" [groupName; volName])
          | None => mret ()
          end
      | Ok current =>
          match quota with
          | Some q =>
              if q =? current then mret ()
              else wrapM (resizeCephFSSubVolumeGroup volName groupName q) "failed to create subvolume group %q in filesystem %q" [groupName; volName]
          | None => mret ()
          end
      end;
  wrapM (run args) "failed to create subvolume group %q in filesystem %q. %s" [groupName; volName].

Definition DeleteCephFSSubVolumeGroup (volName groupName : string) : MC unit := run ["fs"; "subvolumegroup"; "rm"; volName; groupName].

End Client.

(** ** Pinning *)

(** The sign of [x - n] for an integer [n]. *)
Definition float_compare (x : Float64) (n : Z) : comparison :=
  if 0 <=? exponent x then (mantissa x * 2 ^ exponent x ?= n) else (mantissa x ?= n * 2 ^ (- exponent x)).

Definition negative (x : Float64) : bool := match float_compare x 0 with Lt => true | _ => false end.

Definition above_one (x : Float64) : bool := match float_compare x 1 with Gt => true | _ => false end.

Definition export_error (p : PinningSpec) : option gerror :=
  match Export p with
  | Some e =>
      if 256 <? e then Some (Errorf "validate pinning type failed, Export: value too big %d" [Itoa e])
      else if e <? -1 then Some (Errorf "validate pinning type failed, Export: negative value %d not allowed except -1" [Itoa e])
      else None
  | None => None
  end.

Definition distributed_error (p : PinningSpec) : option gerror :=
  match Distributed p with
  | Some d =>
      if negb (d =? 1) && negb (d =? 0) then Some (Errorf "validate pinning type failed, Distributed: unknown value %d" [Itoa d]) else None
  | None => None
  end.

Definition random_error (p : PinningSpec) : option gerror :=
  match Random p with
  | Some r =>
      if negative (fraction r) || above_one (fraction r)
      then Some (Errorf "validate pinning type failed, Random: value %.2f is not between 0.0 and 1.0 (inclusive)" [fraction_short r]) else None
  | None => None
  end.

Definition given {A} (o : option A) : nat := match o with Some _ => 1 | None => 0 end.

(** An error that is found later replaces one that was found before. *)
Definition validatePinningValues (p : PinningSpec) : result unit :=
  if (1 <? given (Export p) + given (Distributed p) + given (Random p))%nat
  then Err (Errorf "only one pinning type can be set at a time" [])
  else
    match random_error p, distributed_error p, export_error p with
    | Some e, _, _ | None, Some e, _ | None, None, Some e => Err e
    | None, None, None => Ok ()
    end.

Definition pin_setting (p : PinningSpec) : list string :=
  match Distributed p, Export p, Random p with
  | Some d, _, _ => ["distributed"; Itoa d]
  | None, Some e, _ => ["export"; Itoa e]
  | None, None, Some r => ["random"; fraction_text r]
  | None, None, None => ["distributed"; "1"]
  end.

Section Keys.
Context {W : Type} `{FsEnv W}.

Abbreviation MC := (MW (gmap string bool * W)).

Definition PinCephFSSubVolumeGroup (volName : string) (p : PinningSpec) (groupName : string) : MC unit :=
  _ ← wrapM (lift (validatePinningValues p)) "failed to pin subvolume group %q" [groupName];
  wrapM (run (["fs"; "subvolumegroup"; "pin"; volName; groupName] ++ pin_setting p)) "failed to pin subvolume group %q. %s" [groupName].

(** ** Mirroring of snapshots *)

Definition RemoveFilesystemMirrorPeer (peerUUID : string) : MC unit :=
  wrapM (run ["fs"; "snapshot"; "mirror"; "peer_remove"; peerUUID]) "failed to remove cephfs-mirror peer for filesystem %q. %s" [peerUUID].

Definition EnableFilesystemSnapshotMirror (filesystem : string) : MC unit :=
  wrapM (run ["fs"; "snapshot"; "mirror"; "enable"; filesystem]) "failed to enable ceph filesystem snapshot mirror for filesystem %q. %s" [filesystem].

Definition DisableFilesystemSnapshotMirror (filesystem : string) : MC unit :=
  r ← try_ (ceph ["fs"; "snapshot"; "mirror"; "disable"; filesystem]);
  match r with
  | Err err =>
      if bool_decide (ExitStatus (W := W) err = Some ENOTSUP) then mret ()
      else fail (Wrapf err "failed to disable ceph filesystem snapshot mirror for filesystem %q. %s" [filesystem])
  | Ok _ => mret ()
  end.

(** A failure without an exit status is ignored too. *)
Definition AddSnapshotSchedule (path interval startTime filesystem : string) : MC unit :=
  r ← try_ (ceph (["fs"; "snap-schedule"; "add"; path; interval] ++ (if String.eqb startTime "" then [] else [startTime]) ++
                  ["fs=" +:+ filesystem]));
  match r with
  | Err err =>
      match ExitStatus (W := W) err with
      | Some code =>
          if code =? EEXIST then mret ()
          else fail (Wrapf err "failed to add snapshot schedule every %q to ceph filesystem %q on path %q. %s" [interval; filesystem; path])
      | None => mret ()
      end
  | Ok _ => mret ()
  end.

Definition AddSnapshotScheduleRetention (path duration filesystem : string) : MC unit :=
  r ← try_ (ceph ["fs"; "snap-schedule"; "retention"; "add"; path; duration; "fs=" +:+ filesystem]);
  match r with
  | Err err =>
      if bool_decide (ExitStatus (W := W) err = Some ENOENT) then mret ()
      else fail (Wrapf err "failed to add snapshot schedule retention %s to ceph filesystem %q on path %q. %s" [duration; filesystem; path])
  | Ok _ => mret ()
  end.

(** Newlines are taken out of the answer. *)
Fixpoint without_newlines (s : string) : string :=
  match s with
  | "" => ""
  | String c s => if Ascii.eqb c "010" then without_newlines s else String c (without_newlines s)
  end.

Definition GetSnapshotScheduleStatus (filesystem : string) : MC (list string) :=
  output ← wrapM (ceph ["fs"; "snap-schedule"; "status"; "/"; "recursive=true"; "--fs=" +:+ filesystem])
             "failed to retrieve snapshot schedule status for ceph filesystem %q. %s" [filesystem];
  decode (json_reports (W := W) (without_newlines output)) "failed to unmarshal filesystem mirror snapshot schedule status response" [].

Definition ImportFSMirrorBootstrapPeer (fsName token : string) : MC unit :=
  wrapM (run ["fs"; "snapshot"; "mirror"; "peer_bootstrap"; "import"; fsName; OsdBase.TrimSpace token])
    "failed to import cephfs-mirror peer token for filesystem %q. %s" [fsName].

Definition CreateFSMirrorBootstrapPeer (fsid fsName : string) : MC string :=
  output ← wrapM (ceph ["fs"; "snapshot"; "mirror"; "peer_bootstrap"; "create"; fsName; "client.mirror"; fsid])
             "failed to create cephfs-mirror peer token for filesystem %q. %s" [fsName];
  decode (json_token (W := W) output) "failed to unmarshal cephfs-mirror peer token create response. %s" [output].

Definition GetFSMirrorDaemonStatus (fsName : string) : MC (list string) :=
  output ← wrapM (ceph ["fs"; "snapshot"; "mirror"; "daemon"; "status"]) "failed to retrieve filesystem mirror status for filesystem %q. %s" [fsName];
  decode (json_reports (W := W) output) "failed to unmarshal filesystem mirror status response. %q." [output].

(** ** Modules of the manager *)

Definition enableModule (name : string) (force : bool) (action : string) : MC unit :=
  wrapM (run (["mgr"; "module"; action; name] ++ (if force then ["--force"] else []))) "failed to enable mgr module %q" [name].

Fixpoint enable_retries (n : nat) (name : string) (force : bool) : MC unit :=
  r ← try_ (enableModule name force "enable");
  match r, n with
  | Ok _, _ => mret ()
  | Err _, S n => _ ← silent (on_env (env_sleep 5)); enable_retries n name force
  | Err err, O => fail (Wrapf err "failed to enable mgr module %q even after %d retries" [name; "5"])
  end.

Definition MgrEnableModule (name : string) (force : bool) : MC unit :=
  if String.eqb name "balancer" then mret () else enable_retries 4 name force.

(** ** Keys *)

Definition AuthGetKey (name : string) : MC string :=
  buf ← wrapM (ceph ["auth"; "get-key"; name]) "failed to get key for %s" [name];
  decode (json_auth_key (W := W) buf) "failed to unmarshal get/create key response" [].

(** The flag is left out where Ceph does not know it. *)
Definition key_type_args (version : CephVersion) (keyType : string) : list string :=
  let keyType := if negb (Aes256kKeysSupported version) && IsLegacyKeyType keyType then "" else keyType in
  if String.eqb keyType "" then [] else ["--key-type"; keyType].

Definition AuthGetOrCreateKey (version : CephVersion) (name keyType : string) (caps : list string) : MC string :=
  buf ← wrapM (ceph (["auth"; "get-or-create-key"; name] ++ caps ++ key_type_args version keyType)) "failed get-or-create-key %s" [name];
  decode (json_auth_key (W := W) buf) "failed to unmarshal get/create key response" [].

Definition AuthUpdateCaps (name : string) (caps : list string) : MC unit :=
  wrapM (run (["auth"; "caps"; name] ++ caps)) "failed to update caps for %s" [name].

Definition AuthRotate (version : CephVersion) (name keyType : string) : MC string :=
  buf ← wrapM (ceph (["auth"; "rotate"; name] ++ key_type_args version keyType)) "failed auth rotate %s" [name];
  data ← decode (json_rotated (W := W) buf) "failed to unmarshal auth rotate %s response" [name];
  match data with
  | [] => fail (Errorf "auth rotate %s returned no results" [name])
  | key :: _ => mret key
  end.

Definition AuthDelete (name : string) : MC unit := wrapM (run ["auth"; "del"; name]) "failed to delete auth for %s" [name].

Definition AuthDumpKeys : MC (list KeyDumpSecret) :=
  output ← wrapM (ceph ["auth"; "dump-keys"]) "failed to dump ceph auth keys" [];
  decode (json_key_dump (W := W) output) "failed to unmarshal ceph auth keys" [].

(** The types that occur; the code returns them in some order. *)
Definition DetermineCephxKeyTypesForEntityType (entityType entityIdPrefix : string) : MC (list string) :=
  secrets ← wrapM AuthDumpKeys "failed to dump ceph auth keys" [];
  mret (remove_dups (key_type <$> List.filter (fun s =>
          String.eqb (entity_type s) entityType && (String.eqb entityIdPrefix "" || HasPrefix (entity_id s) entityIdPrefix)) secrets)).

(** ** The settings of a daemon *)

Definition GetDaemon (who : string) : MC (list Option_) :=
  out ← wrapM (ceph ["config"; "get"; who]) "failed to get config for daemon %q. output: %s" [who];
  options ← decode (json_daemon_config (W := W) out) "failed to parse json config for daemon %q. json: %s" [who; out];
  mret (List.filter (fun o => String.eqb (opt_Who o) who) options).

Definition DeleteDaemon (who : string) : MC unit :=
  configOptions ← wrapM (GetDaemon who) "failed to get daemon config for %q" [who];
  forM_ configOptions (fun o => wrapM (monstore_Delete who (opt_Option o)) "failed to delete option %q on %q" [opt_Option o; who]).

End Keys.

End FsClient.
