(* ===== verification/Mds.v ===== *)
(** * Mds: the metadata servers of a file system

    Models [pkg/operator/ceph/file/mds]: [mds.go], [config.go] and, of [spec.go], the deployments;
    [UpdateCephDeploymentAndWait] of [pkg/operator/ceph/cluster/mon/spec.go] with
    [UpdateDeploymentAndWait] of [pkg/operator/k8sutil/deployment.go]; the keys of daemons in
    [pkg/operator/ceph/config/keyring/store.go] and, of [pkg/operator/ceph/controller/spec.go], the labels,
    the check of the memory and the fenced daemons.

    The pod template is the operation [mds_template] of [FsEnv]. *)

From stdpp Require Import base gmap strings list fin_maps.
From Stdlib Require Import ZArith Ascii.
From S2P Require Import Prelude Names CephVersion Kube Upgrade Cephx OsdBase OsdReplace Pools BlockPool FsClient.
Import Log Version Cephx Pools BlockPool FsClient.
Open Scope Z_scope.

Module Mds.

(** ** Floating point

    Of [float64], what the computation of the cache size needs: rounding to 53 bits, ties to even.  The
    exponents that occur are far from the limits of the format. *)

Definition round53 (m e : Z) : Float64 :=
  let k := Z.log2 (Z.abs m) - 52 in
  if k <=? 0 then {| mantissa := m; exponent := e |}
  else
    let q := m / 2 ^ k in
    let r := m mod 2 ^ k in
    let half := 2 ^ (k - 1) in
    {| mantissa := if r <? half then q else if half <? r then q + 1 else if Z.even q then q else q + 1; exponent := e + k |}.

Definition float_of_int (n : Z) : Float64 := round53 n 0.

Definition float_mul (x y : Float64) : Float64 := round53 (mantissa x * mantissa y) (exponent x + exponent y).

Definition int_of_float (x : Float64) : Z :=
  if 0 <=? exponent x then mantissa x * 2 ^ exponent x else Z.quot (mantissa x) (2 ^ (- exponent x)).

(** 0.5 and the [float64] next to 0.8 *)
Definition mdsCacheMemoryLimitFactor : Float64 := {| mantissa := 1; exponent := -1 |}.

Definition mdsCacheMemoryRequestFactor : Float64 := {| mantissa := 7205759403792794; exponent := -53 |}.

Definition cache_memory (memory : Z) (factor : Float64) : Z := int_of_float (float_mul (float_of_int memory) factor).

Definition configOptions (fs : CephFilesystem) : gmap string string :=
  let spec := MetadataServer (fs_Spec fs) in
  let limit := Limits_Memory (mds_Resources spec) in
  let request := Requests_Memory (mds_Resources spec) in
  let cache : gmap string string :=
    if negb (limit =? 0)
    then {["mds_cache_memory_limit" := Itoa (cache_memory limit (default mdsCacheMemoryLimitFactor (CacheMemoryLimitFactor spec)))]}
    else if negb (request =? 0)
    then {["mds_cache_memory_limit" := Itoa (cache_memory request (default mdsCacheMemoryRequestFactor (CacheMemoryRequestFactor spec)))]}
    else ∅ in
  <["mds_join_fs" := fs_Name fs]> cache.

Definition uint64 (z : Z) : Z := z mod 2 ^ 64.

(** A memory below the recommended one is only logged. *)
Definition CheckPodMemory (r : ResourceRequirements) : result unit :=
  if negb (Limits_Memory r =? 0) && (uint64 (Limits_Memory r) <? uint64 (Requests_Memory r))
  then Err (Errorf "User has specified a pod memory limit below the pod memory request in the cluster CR." [])
  else Ok ().

(** ** Names and labels *)

Definition AppName : string := "rook-ceph-mds".

(** Each server is identified by the file system and a letter. *)
Definition daemon_name (fsName letter : string) : string := fsName +:+ "-" +:+ letter.

Definition resource_name (fsName letter : string) : string := AppName +:+ "-" +:+ fsName +:+ "-" +:+ letter.

Definition AppLabels (appName namespace : string) : gmap string string := <["app" := appName]> {["rook_cluster" := namespace]}.

Definition CephDaemonAppLabels (operatorNamespace appName namespace daemonType daemonID parentName resourceKind : string)
    (includeNewLabels : bool) : gmap string string :=
  let labels := AppLabels appName namespace in
  let labels :=
    if includeNewLabels then
      <["rook.io/operator-namespace" := operatorNamespace]>
        (<["app.kubernetes.io/created-by" := "rook-ceph-operator"]> (<["app.kubernetes.io/managed-by" := "rook-ceph-operator"]>
          (<["app.kubernetes.io/part-of" := parentName]> (<["app.kubernetes.io/component" := resourceKind]>
            (<["app.kubernetes.io/instance" := daemonID]> (<["app.kubernetes.io/name" := "ceph-" +:+ daemonType]>
              (<["ceph_daemon_type" := daemonType]> labels)))))))
    else labels in
  <[daemonType := daemonID]> (<["ceph_daemon_id" := daemonID]> labels).

(** ** The cluster of metadata servers *)

Record Cluster := {
  c_fs : CephFilesystem;
  c_version : CephVersion;
  c_skipUpgradeChecks : bool;
  c_continueUpgrade : bool;
  shouldRotateCephxKeys : bool;
}.

(** An annotation of the pods of a deployment. *)
Definition annotate_pods (key value : string) (d : Kube.Deployment) : Kube.Deployment :=
  let t := Kube.Template d in
  {| Kube.dep_namespace := Kube.dep_namespace d; Kube.dep_name := Kube.dep_name d; Kube.dep_labels := Kube.dep_labels d;
     Kube.dep_annotations := Kube.dep_annotations d; Kube.CreationTimestamp := Kube.CreationTimestamp d; Kube.Replicas := Kube.Replicas d;
     Kube.ProgressDeadlineSeconds := Kube.ProgressDeadlineSeconds d;
     Kube.Template := {| Kube.tpl_annotations := <[key := value]> (Kube.tpl_annotations t); Kube.NodeSelector := Kube.NodeSelector t;
                         Kube.Containers := Kube.Containers t; Kube.InitContainers := Kube.InitContainers t |};
     Kube.ObservedGeneration := Kube.ObservedGeneration d; Kube.UpdatedReplicas := Kube.UpdatedReplicas d;
     Kube.ReadyReplicas := Kube.ReadyReplicas d; Kube.dep_conditions := Kube.dep_conditions d |}.

(** [errors.Wrapf], which returns nil for nil. *)
Definition Wrapf_opt (e : option gerror) (fmt : string) (args : list string) : option gerror :=
  match e with Some e => Some (Wrapf e fmt args) | None => None end.

(** A panic ends the reconcile; its text is only logged. *)
Definition Panic : gerror := Errorf "panic: runtime error: invalid memory address or nil pointer dereference" [].

Fixpoint is_panic (e : gerror) : bool :=
  match e with
  | Errorf fmt _ => String.eqb fmt "panic: runtime error: invalid memory address or nil pointer dereference"
  | Wrapf e _ _ => is_panic e
  | _ => false
  end.

(** [strings.ReplaceAll(s, pat, "")] for a pattern that is not empty; [skip] characters of a match are left. *)
Fixpoint remove_all (pat : string) (skip : nat) (s : string) : string :=
  match s with
  | "" => ""
  | String c rest =>
      match skip with
      | S skip => remove_all pat skip rest
      | O => if HasPrefix s pat then remove_all pat (String.length pat - 1) rest else String c (remove_all pat O rest)
      end
  end.

Section Mds.
Context {W : Type} `{FsEnv W}.

Abbreviation MC := (MW (gmap string bool * W)).

#[global] Instance fs_world_cmd : Upgrade.CephCmd (world (gmap string bool * W) call) := {
  Upgrade.run_ceph args := ceph args;
  Upgrade.unmarshal_versions := Upgrade.unmarshal_versions (W := W);
  Upgrade.unmarshal_tree := Upgrade.unmarshal_tree (W := W);
  Upgrade.unmarshal_osds := Upgrade.unmarshal_osds (W := W);
  Upgrade.unmarshal_status := Upgrade.unmarshal_status (W := W);
  Upgrade.ctx_err := silent (on_env Upgrade.ctx_err);
  Upgrade.wait_delay d := silent (on_env (Upgrade.wait_delay d));
  Upgrade.load_cluster_info := silent (on_env Upgrade.load_cluster_info);
  Upgrade.write_connection_config i := silent (on_env (Upgrade.write_connection_config i));
}.

(** ** Deployments *)

Definition list_deployments (ns selector : string) : MC (list Kube.Deployment) :=
  record (ListDeployments ns selector) (on_env (env_list_deployments ns selector)).

Definition get_deployment (ns name : string) : MC Kube.Deployment := record (GetDeployment ns name) (on_env (env_get_deployment ns name)).

Definition create_deployment (d : Kube.Deployment) : MC unit := record (CreateDeployment d) (on_env (env_create_deployment d)).

Definition update_deployment (d : Kube.Deployment) : MC unit := record (UpdateDeployment d) (on_env (env_update_deployment d)).

Definition delete_deployment (ns name : string) : MC unit := record (DeleteDeployment ns name) (on_env (env_delete_deployment ns name)).

(** The error is formatted into a new one. *)
Definition reformat {A} (m : MC A) (fmt : string) (args : list string) : MC A :=
  r ← try_ m; match r with Ok a => mret a | Err _ => fail (Errorf fmt args) end.

(** The 100 checks of [WaitForDeploymentToStart]. *)
Fixpoint wait_started (n : nat) (d : Kube.Deployment) : MC unit :=
  match n with
  | O => fail (Errorf "gave up waiting for deployment %q to update" [Kube.dep_name d])
  | S n =>
      now ← reformat (get_deployment (Kube.dep_namespace d) (Kube.dep_name d)) "failed to get deployment %q. %v" [Kube.dep_name d];
      if negb (Kube.ObservedGeneration now =? Kube.ObservedGeneration d) && (0 <? Kube.UpdatedReplicas now) && (0 <? Kube.ReadyReplicas now)
      then mret ()
      else if existsb (fun c => String.eqb c.1 "Progressing" && String.eqb c.2 "ProgressDeadlineExceeded") (Kube.dep_conditions now)
      then fail (Errorf "gave up waiting for deployment %q to update because %q" [Kube.dep_name d; "ProgressDeadlineExceeded"])
      else _ ← silent (on_env (env_sleep 3)); wait_started n d
  end.

Definition WaitForDeploymentToStart (d : Kube.Deployment) : MC unit := wait_started 100 d.

Definition UpdateDeploymentAndWait (ns : string) (modified : Kube.Deployment) (verifyCallback : string -> MC unit) : MC unit :=
  let name := Kube.dep_name modified in
  current ← reformat (get_deployment ns name) "failed to get deployment %s. %+v" [name];
  let patchChanged := match patch_is_empty (W := W) current modified with Err _ => true | Ok empty => negb empty end in
  if negb patchChanged then mret ()
  else
    _ ← reformat (verifyCallback "stop") "failed to check if deployment %q can be updated. %v" [name];
    modified ← reformat (lift (set_last_applied (W := W) modified)) "failed to set hash annotation on deployment %q. %v" [name];
    _ ← reformat (update_deployment modified) "failed to update deployment %q. %v" [name];
    _ ← WaitForDeploymentToStart current;
    reformat (verifyCallback "continue") "failed to check if deployment %q can continue: %v" [name].

(** The timeout of the upgrade of OSDs has no influence on other daemons. *)
Definition verify_callback (c : Cluster) (deployment daemonType daemonName action : string) : MC unit :=
  if c_skipUpgradeChecks c then mret ()
  else
    r ← try_ (if String.eqb action "stop" then Upgrade.OkToStop 0 deployment daemonType daemonName
              else if String.eqb action "continue" then Upgrade.OkToContinue 0 deployment daemonType else mret ());
    match r with
    | Ok _ => mret ()
    | Err err =>
        if c_continueUpgrade c then mret ()
        else fail (Wrapf err "failed to check if we can %s the deployment %s" [action; deployment])
    end.

Definition UpdateCephDeploymentAndWait (c : Cluster) (d : Kube.Deployment) (daemonType daemonName : string) : MC unit :=
  UpdateDeploymentAndWait (fs_Namespace (c_fs c)) d (verify_callback c (Kube.dep_name d) daemonType daemonName).

(** The names of the daemons whose deployments are fenced. *)
Definition GetDaemonsToSkipReconcile (ns daemonName label : string) : MC (gset string) :=
  deployments ← wrapM (list_deployments ns ("app=" +:+ label +:+ "," +:+ OsdReplace.SkipReconcileLabelKey))
                  "failed to query %q to skip reconcile" [daemonName];
  mret (list_to_set (omap (fun d => Kube.dep_labels d !! daemonName) deployments)).

(** ** Keys ([keyring/store.go]) *)

Definition GenerateKey (version : CephVersion) (user keyType : string) (access : list string) : MC string :=
  r ← try_ (AuthGetOrCreateKey version user keyType access);
  match r with
  | Ok key => mret key
  | Err _ =>
      _ ← wrapM (AuthUpdateCaps user access) "failed to get, create, or update auth key for %s" [user];
      wrapM (AuthGetKey user) "failed to get key after updating existing auth capabilities for %s" [user]
  end.

Definition RotateKey (version : CephVersion) (user keyType : string) : MC string :=
  wrapM (AuthRotate version user keyType) "failed to rotate key for %q" [user].

Definition keyringSecretName (resourceName : string) : string := resourceName +:+ "-keyring".

Definition CreateSecret (ns secretName keyring : string) : MC string :=
  r ← try_ (api "get" "Secret" secretName (env_get_secret ns secretName));
  match r with
  | Err err =>
      if IsNotFound err
      then wrapM (api "create" "Secret" secretName (env_create_keyring secretName keyring)) "failed to create secret for %s" [secretName]
      else fail (Wrapf err "failed to get secret for %s" [secretName])
  | Ok _ => wrapM (api "update" "Secret" secretName (env_update_keyring secretName keyring)) "failed to update secret for %s" [secretName]
  end.

Definition CreateOrUpdate (ns resourceName keyring : string) : MC string :=
  let name := keyringSecretName resourceName in
  _ ← wrapM (lift (owner_reference (W := W) name)) "failed to set owner reference to keyring secret %q" [name];
  CreateSecret ns name keyring.

(** ** Configuration of a server ([config.go]) *)

Definition newline : string := String "010" "".

Definition quote : string := String "034" "".

Definition keyringTemplate (daemonID key : string) : string :=
  newline +:+ "[mds." +:+ daemonID +:+ "]" +:+ newline +:+ "key = " +:+ key +:+ newline +:+
  "caps mon = " +:+ quote +:+ "allow profile mds" +:+ quote +:+ newline +:+
  "caps osd = " +:+ quote +:+ "allow *" +:+ quote +:+ newline +:+
  "caps mds = " +:+ quote +:+ "allow" +:+ quote +:+ newline.

Definition generateKeyring (c : Cluster) (resourceName daemonID : string) : MC string :=
  let user := "mds." +:+ daemonID in
  let access := ["osd"; "allow *"; "mds"; "allow"; "mon"; "allow profile mds"] in
  key ← GenerateKey (c_version c) user CephxKeyTypeUndefined access;
  key ← (if shouldRotateCephxKeys c
         then wrapM (RotateKey (c_version c) user CephxKeyTypeUndefined) "failed to rotate cephx key for CephFileSystem %q" [resourceName]
         else mret key);
  _ ← try_ (api "delete" "Secret" resourceName (env_delete_secret (fs_Namespace (c_fs c)) resourceName));
  CreateOrUpdate (fs_Namespace (c_fs c)) resourceName (keyringTemplate daemonID key).

Definition setDefaultFlagsMonConfigStore (c : Cluster) (mdsID : string) : MC unit :=
  let who := "mds." +:+ mdsID in
  forM_ (range_map (W := W) (configOptions (c_fs c))) (fun '(flag, val) =>
    wrapM (monstore_Set who flag val) "failed to set %q to %q on %q" [flag; val; who]).

(** ** Starting servers ([mds.go]) *)

Definition podLabels (fs : CephFilesystem) (daemonID : string) (includeNewLabels : bool) : gmap string string :=
  <["rook_file_system" := fs_Name fs]>
    (CephDaemonAppLabels (operator_namespace (W := W)) AppName (fs_Namespace fs) "mds" daemonID (fs_Name fs)
       "cephfilesystems.ceph.rook.io" includeNewLabels).

(** Labels of the user and of the versions are added, and do not replace the ones of the pods. *)
Definition makeDeployment (c : Cluster) (resourceName daemonID : string) : result Kube.Deployment :=
  let fs := c_fs c in
  template ← mds_template (W := W) fs (c_version c) resourceName daemonID;
  Ok {| Kube.dep_namespace := fs_Namespace fs; Kube.dep_name := resourceName;
        Kube.dep_labels := podLabels fs daemonID true ∪ mds_extra_labels (W := W) fs (c_version c);
        Kube.dep_annotations := mds_annotations (W := W) fs; Kube.CreationTimestamp := 0; Kube.Replicas := Some 1;
        Kube.ProgressDeadlineSeconds := None; Kube.Template := template; Kube.ObservedGeneration := 0;
        Kube.UpdatedReplicas := 0; Kube.ReadyReplicas := 0; Kube.dep_conditions := [] |}.

Definition startDeployment (c : Cluster) (daemonLetterID : string) : MC string :=
  let fs := c_fs c in
  let daemonName := daemon_name (fs_Name fs) daemonLetterID in
  let resourceName := resource_name (fs_Name fs) daemonLetterID in
  version ← wrapM (generateKeyring c resourceName daemonName) "failed to generate keyring for %q" [resourceName];
  flags ← try_ (setDefaultFlagsMonConfigStore c daemonName);
  _ ← match flags with
      | Ok _ => mret ()
      | Err err =>
          match ExitStatus (W := W) err with
          | Some code => if code =? EPERM then mret () else fail (Wrapf err "failed to set default rgw config options" [])
          | None => mret ()
          end
      end;
  d ← wrapM (lift (makeDeployment c resourceName daemonName)) "failed to create deployment" [];
  let d := annotate_pods "cephx-key-identifier" version d in
  _ ← wrapM (lift (owner_reference (W := W) (Kube.dep_name d))) "failed to set owner reference for ceph filesystem %q secret" [Kube.dep_name d];
  d ← wrapM (lift (set_last_applied (W := W) d)) "failed to set annotation for deployment %q" [Kube.dep_name d];
  created ← try_ (create_deployment d);
  match created with
  | Ok _ => mret (Kube.dep_name d)
  | Err err =>
      if IsAlreadyExists err then
        _ ← wrapM (get_deployment (fs_Namespace fs) (Kube.dep_name d)) "failed to get existing mds deployment %q for update" [Kube.dep_name d];
        _ ← wrapM (UpdateCephDeploymentAndWait c d "mds" daemonLetterID) "failed to update mds deployment %q" [Kube.dep_name d];
        mret (Kube.dep_name d)
      else fail (Wrapf err "failed to create mds deployment %s" [resourceName])
  end.

(** Whether a server runs a version older than the one of the cluster; the versions in the order of the visit. *)
Fixpoint any_older (target : CephVersion) (versions : list string) : result bool :=
  match versions with
  | [] => Ok false
  | key :: versions =>
      current ← ExtractCephVersion key;
      if IsSuperior target current then Ok true else any_older target versions
  end.

Definition isCephUpgrade (c : Cluster) : MC bool :=
  allVersions ← Upgrade.GetAllCephDaemonVersions;
  lift (any_older (c_version c) (Upgrade.Mds allVersions).*1).

Definition getMdsDeployments (ns fsName : string) : MC (list Kube.Deployment) :=
  let selector := "rook_file_system=" +:+ fsName in
  wrapM (reformat (list_deployments ns selector) "failed to list deployments with labelSelector %s: %v" [selector])
    "could not get deployments for filesystem %s (matching label selector %q)" [fsName; selector].

Definition deleteMdsDeployment (ns name : string) : MC unit :=
  wrapM (delete_deployment ns name) "failed to delete mds deployment %s" [name].

(** The error is a value; what fails is a panic: other errors of the first request are not looked at and
    the object that comes with them has no replicas. *)
Definition scaleMdsDeployment (ns name : string) (replicas : Z) : MC (option gerror) :=
  r ← try_ (get_deployment ns name);
  match r with
  | Err err =>
      if negb (replicas =? 0) && IsNotFound err
      then mret (Some (Wrapf err "failed to scale mds deployment %q to %d" [name; Itoa replicas]))
      else fail Panic
  | Ok d =>
      match Kube.Replicas d with
      | None => fail Panic
      | Some n =>
          if n =? replicas then mret None
          else
            u ← try_ (update_deployment (OsdBase.with_replicas d (Some replicas)));
            mret (match u with Ok _ => None | Err err => Some (Wrapf err "failed to scale mds deployment %s to %d replicas" [name; Itoa replicas]) end)
      end
  end.

Definition DeleteMdsCephObjects (mdsID : string) : MC unit :=
  let who := "mds." +:+ mdsID in
  _ ← wrapM (DeleteDaemon who) "failed to delete mds config for %q in mon configuration database" [who];
  AuthDelete who.

(** The number of errors; the first time the ranks are not as desired ends the loop. *)
Fixpoint scale_down (c : Cluster) (activeCount : Z) (desired : gset string) (del : bool) (deps : list Kube.Deployment) (errCount : Z) : MC Z :=
  match deps with
  | [] => mret errCount
  | d :: deps =>
      let name := Kube.dep_name d in
      if bool_decide (name ∈ desired) then scale_down c activeCount desired del deps errCount
      else
        r ← try_ (WaitForActiveRanks (fs_Name (c_fs c)) activeCount true);
        match r with
        | Err _ => mret (errCount + 1)
        | Ok _ =>
            if del then
              x ← try_ (deleteMdsDeployment (fs_Namespace (c_fs c)) name);
              _ ← try_ (DeleteMdsCephObjects (remove_all (AppName +:+ "-") 0 name));
              scale_down c activeCount desired del deps (match x with Ok _ => errCount | Err _ => errCount + 1 end)
            else
              x ← scaleMdsDeployment (fs_Namespace (c_fs c)) name 0;
              scale_down c activeCount desired del deps (match x with None => errCount | Some _ => errCount + 1 end)
        end
  end.

(** The error that is wrapped at the end is the one of the listing, which is nil there. *)
Definition scaleDownDeployments (c : Cluster) (replicas activeCount : Z) (desired : gset string) (del : bool) : MC unit :=
  deps ← wrapM (getMdsDeployments (fs_Namespace (c_fs c)) (fs_Name (c_fs c)))
           "cannot verify the removal of extraneous mds deployments for filesystem %s." [fs_Name (c_fs c)];
  if negb (replicas <? Z.of_nat (length deps)) then mret ()
  else
    errCount ← scale_down c activeCount desired del deps 0;
    if 0 <? errCount then
      match Wrapf_opt None "%d error(s) during deletion of extraneous mds deployments, see logs above" [Itoa errCount] with
      | Some err => fail err
      | None => mret ()
      end
    else mret ().

Definition upgradeMDS (c : Cluster) : MC unit :=
  let fsName := fs_Name (c_fs c) in
  _ ← wrapM (AllowStandbyReplay fsName false 0) "failed to setting allow_standby_replay to false" [];
  _ ← wrapM (FailAllStandbyReplayMDS fsName) "failed to fail mds agent in up:standby-replay state" [];
  _ ← wrapM (SetNumMDSRanks fsName 1) "failed setting active mds count to %d" ["1"];
  _ ← wrapM (WaitForActiveRanks fsName 1 false) "failed waiting for active ranks to be 1" [];
  daemonName ← wrapM (GetMdsIdByRank fsName 0) "failed to get mds id from rank 0" [];
  let daemonLetterID := default "" (last (split_byte "-" daemonName)) in
  _ ← wrapM (scaleDownDeployments c 1 1 {[resource_name fsName daemonLetterID]} false) "failed to scale down deployments during upgrade" [];
  _ ← wrapM (WaitForNoStandbys fsName) "failed to wait for stopping all standbys" [];
  _ ← wrapM (startDeployment c daemonLetterID) "failed to upgrade mds %q" [daemonName];
  mret ().

Definition finishedWithDaemonUpgrade (fs : CephFilesystem) : MC unit :=
  let activeMDSCount := ActiveCount (MetadataServer (fs_Spec fs)) in
  _ ← wrapM (SetNumMDSRanks (fs_Name fs) activeMDSCount) "Failed to restore filesystem %s following daemon upgrade" [fs_Name fs];
  wrapM (AllowStandbyReplay (fs_Name fs) (ActiveStandby (MetadataServer (fs_Spec fs))) activeMDSCount) "failed to set allow_standby_replay to true" [].

(** The deployments that are wanted, unless a fenced server ends the reconcile. *)
Fixpoint start_daemons (c : Cluster) (skip : gset string) (letters : list string) (desired : gset string) : MC (option (gset string)) :=
  match letters with
  | [] => mret (Some desired)
  | letter :: letters =>
      if bool_decide (letter ∈ skip) then mret None
      else
        deployment ← wrapM (startDeployment c letter) "failed to start deployment for MDS %q for filesystem %q" [letter; fs_Name (c_fs c)];
        start_daemons c skip letters ({[deployment]} ∪ desired)
  end.

(** With standbys every server has one more. *)
Definition mds_replicas (m : MetadataServerSpec) : Z := if ActiveStandby m then wrap32 (ActiveCount m * 2) else ActiveCount m.

Definition daemon_letters (n : Z) : list string := DaemonName.IndexToName ∘ Z.of_nat <$> seq 0 (Z.to_nat n).

Definition start_servers (c : Cluster) : MC unit :=
  let spec := MetadataServer (fs_Spec (c_fs c)) in
  let replicas := mds_replicas spec in
  skip ← wrapM (GetDaemonsToSkipReconcile (fs_Namespace (c_fs c)) "mds" AppName) "failed to check for mds to skip reconcile" [];
  r ← start_daemons c skip (daemon_letters replicas) ∅;
  match r with
  | None => mret ()
  | Some desired => wrapM (scaleDownDeployments c replicas (ActiveCount spec) desired true) "failed to scale down mds deployments" []
  end.

(** What restores the file system after an upgrade is deferred only when the upgrade was successful. *)
Definition Start (c : Cluster) : MC unit :=
  let fs := c_fs c in
  _ ← wrapM (lift (CheckPodMemory (mds_Resources (MetadataServer (fs_Spec fs))))) "error checking pod memory" [];
  isUpgrade ← wrapM (isCephUpgrade c) "failed to determine if MDS cluster for filesystem %q needs upgraded" [fs_Name fs];
  _ ← (if (isUpgrade : bool) then wrapM (upgradeMDS c) "failed to upgrade MDS cluster for filesystem %q" [fs_Name fs] else mret ());
  deferred (if (isUpgrade : bool) then finishedWithDaemonUpgrade fs else mret ()) (start_servers c).

End Mds.

End Mds.
