(* ===== verification/FileController.v ===== *)
(** * FileController: the controller of file systems

    Models [pkg/operator/ceph/file]: [filesystem.go], [controller.go], [dependent.go], [status.go] and, of
    [health.go], a check of the mirroring; of [pkg/operator/ceph/controller] the detection of versions
    ([version.go]) and the token of file systems ([mirror_peer.go]).

    As for block pools the reconciler's own state is the map of running monitors; the programs run in
    [world (Contexts * W) call]. *)

From stdpp Require Import base gmap strings list fin_maps.
From Stdlib Require Import ZArith Ascii.
From S2P Require Import Prelude Names CephVersion Kube Upgrade Cephx OsdBase Pools BlockPool FsClient Mds.
Import Log Version Cephx Pools BlockPool FsClient Mds.
Open Scope Z_scope.

Module FileController.

(** ** Names of pools *)

Definition defaultCSISubvolumeGroup : string := "csi".

Definition dataPoolSuffix : string := "data".

Definition metaDataPoolSuffix : string := "metadata".

Definition cephfsApplication : string := "cephfs".

Definition dataPoolName (fsName : string) (preserve : bool) (i : nat) (pool : NamedPoolSpec) : string :=
  if String.eqb (pool_Name pool) "" then fsName +:+ "-" +:+ dataPoolSuffix +:+ Itoa (Z.of_nat i)
  else if preserve then pool_Name pool
  else fsName +:+ "-" +:+ pool_Name pool.

Definition generateDataPoolNames (fsName : string) (spec : FilesystemSpec) : list string :=
  imap (dataPoolName fsName (PreservePoolNames spec)) (DataPools spec).

Definition generateMetaDataPoolName (fsName : string) (spec : option FilesystemSpec) : string :=
  match spec with
  | None => fsName +:+ "-" +:+ metaDataPoolSuffix
  | Some spec =>
      let name := pool_Name (MetadataPool spec) in
      if String.eqb name "" then fsName +:+ "-" +:+ metaDataPoolSuffix
      else if PreservePoolNames spec then name
      else fsName +:+ "-" +:+ name
  end.

Definition GenerateMetaDataPoolName (fsName : string) : string := generateMetaDataPoolName fsName None.

Fixpoint has_duplicates (seen : gset string) (pools : list NamedPoolSpec) : bool :=
  match pools with
  | [] => false
  | pool :: pools =>
      if String.eqb (pool_Name pool) "" then has_duplicates seen pools
      else if bool_decide (pool_Name pool ∈ seen) then true
      else has_duplicates ({[pool_Name pool]} ∪ seen) pools
  end.

Definition hasDuplicatePoolNames (pools : list NamedPoolSpec) : bool := has_duplicates ∅ pools.

(** A pool of the file system. *)
Definition fs_pool (name : string) (pool : NamedPoolSpec) : NamedPoolSpec :=
  {| pool_Name := name; pool_Spec := set_Application cephfsApplication (pool_Spec pool) |}.

Definition set_preserve (f : CephFilesystem) : CephFilesystem :=
  let s := fs_Spec f in
  {| fs_Namespace := fs_Namespace f; fs_Name := fs_Name f; fs_Generation := fs_Generation f; fs_Deleted := fs_Deleted f;
     fs_Spec := {| MetadataPool := MetadataPool s; DataPools := DataPools s; PreservePoolNames := PreservePoolNames s;
                   PreservePoolsOnDelete := PreservePoolsOnDelete s; PreserveFilesystemOnDelete := true;
                   MetadataServer := MetadataServer s; fs_Mirroring := fs_Mirroring s; fs_MirrorCheckDisabled := fs_MirrorCheckDisabled s |};
     fs_Status := fs_Status f |}.

Definition set_fs_status (f : CephFilesystem) (s : CephFilesystemStatus) : CephFilesystem :=
  {| fs_Namespace := fs_Namespace f; fs_Name := fs_Name f; fs_Generation := fs_Generation f; fs_Deleted := fs_Deleted f;
     fs_Spec := fs_Spec f; fs_Status := Some s |}.

Definition no_fs_status : CephFilesystemStatus :=
  {| fss_Phase := ""; fss_Message := ""; fss_Info := None; SnapshotScheduleStatus := None; MirroringStatus := None; fss_Conditions := [];
     fss_ObservedGeneration := 0; fss_Cephx := empty_status |}.

(** What the mirroring check writes: a new status that takes over only the named fields. *)
Definition toCustomResourceStatus (now : string) (current : CephFilesystemStatus) (mirrorStatus snapSchedStatus : list string) (details : string) :
    CephFilesystemStatus :=
  let changed := match SnapshotScheduleStatus current, MirroringStatus current with
                 | Some s, _ => LastChanged s
                 | None, Some m => LastChanged m
                 | None, None => ""
                 end in
  let checked (l : list string) := match l with [] => "" | _ => now end in
  {| fss_Phase := fss_Phase current; fss_Message := fss_Message current; fss_Info := fss_Info current;
     SnapshotScheduleStatus := Some {| LastChecked := checked snapSchedStatus; LastChanged := ""; report_Details := details;
                                       report_Items := snapSchedStatus |};
     MirroringStatus := Some {| LastChecked := checked mirrorStatus; LastChanged := changed; report_Details := details;
                                report_Items := mirrorStatus |};
     fss_Conditions := []; fss_ObservedGeneration := 0; fss_Cephx := empty_status |}.

Definition SnapShotScheduleEnabled (m : FSMirroringSpec) : bool := match fsm_SnapshotSchedules m with [] => false | _ => true end.

Definition fsChannelKeyName (f : CephFilesystem) : string := fs_Namespace f +:+ "/" +:+ fs_Name f.

Definition WaitForRequeueIfCephClusterIsUpgrading : Result := {| Requeue := true; RequeueAfter := 60 |}.

Definition ignoredDependentSubvolumeGroups : list string := ["_nogroup"; "_index"; "_legacy"; "_deleting"].

Definition ignoreSVG (name : string) : bool := bool_decide (name ∈ ignoredDependentSubvolumeGroups).

Section File.
Context {W : Type} `{FsEnv W}.

Abbreviation MC := (MW (gmap string bool * W)).

Definition get_fs (ns name : string) : MC CephFilesystem := record (GetFs ns name) (on_env (env_get_fs ns name)).

(** ** Creating and updating ([filesystem.go]) *)

Definition validateFilesystem (clusterSpec : ClusterSpec) (f : CephFilesystem) : MC unit :=
  let spec := fs_Spec f in
  if String.eqb (fs_Name f) "" then fail (Errorf "missing name" [])
  else if String.eqb (fs_Namespace f) "" then fail (Errorf "missing namespace" [])
  else if ActiveCount (MetadataServer spec) <? 1 then fail (Errorf "MetadataServer.ActiveCount must be at least 1" [])
  else
    match DataPools spec with
    | [] => mret ()
    | _ =>
        if hasDuplicatePoolNames (DataPools spec) then fail (Errorf "duplicate pool names in the data pool spec" [])
        else
          _ ← wrapM (ValidatePoolSpec clusterSpec (pool_Spec (MetadataPool spec))) "invalid metadata pool" [];
          forM_ (DataPools spec) (fun p => wrapM (ValidatePoolSpec clusterSpec (pool_Spec p)) "Invalid data pool" [])
    end.

Definition createOrUpdatePools (version : CephVersion) (clusterSpec : ClusterSpec) (fsName : string) (spec : FilesystemSpec) : MC unit :=
  let metadataPool := fs_pool (generateMetaDataPoolName fsName (Some spec)) (MetadataPool spec) in
  _ ← wrapM (CreatePool version clusterSpec metadataPool) "failed to update metadata pool %q" [pool_Name metadataPool];
  forM_ (zip (generateDataPoolNames fsName spec) (DataPools spec)) (fun '(name, pool) =>
    _ ← wrapM (CreatePool version clusterSpec (fs_pool name pool)) "failed to update datapool  %q" [name]; mret ()).

Definition updateFilesystem (version : CephVersion) (clusterSpec : ClusterSpec) (fsName : string) (spec : FilesystemSpec) : MC unit :=
  _ ← try_ (SetNumMDSRanks fsName (ActiveCount (MetadataServer spec)));
  _ ← wrapM (createOrUpdatePools version clusterSpec fsName spec) "failed to set pools size" [];
  forM_ (generateDataPoolNames fsName spec) (AddDataPoolToFilesystem fsName).

(** Pools that Ceph has already are taken as they are. *)
Definition create_data_pools (version : CephVersion) (clusterSpec : ClusterSpec) (existing : list string) (pools : list (string * NamedPoolSpec)) : MC unit :=
  forM_ pools (fun '(name, pool) =>
    if bool_decide (name ∈ existing) then mret ()
    else
      _ ← wrapM (CreatePool version clusterSpec (fs_pool name pool)) "failed to create data pool %q" [name];
      if IsErasureCoded (pool_Spec pool) then _ ← try_ (SetPoolProperty name "allow_ec_overwrites" "true"); mret ()
      else mret ()).

Definition doFilesystemCreate (version : CephVersion) (clusterSpec : ClusterSpec) (fsName : string) (spec : FilesystemSpec) : MC unit :=
  r ← try_ (getFilesystem fsName);
  match r with
  | Ok _ => updateFilesystem version clusterSpec fsName spec
  | Err _ =>
      match DataPools spec with
      | [] => fail (Errorf "at least one data pool must be specified" [])
      | _ =>
          poolNames ← wrapM GetPoolNamesByID "failed to get pool names" [];
          let existing := (map_to_list poolNames).*2 in
          let metadataPool := fs_pool (generateMetaDataPoolName fsName (Some spec)) (MetadataPool spec) in
          _ ← (if bool_decide (pool_Name metadataPool ∈ existing) then mret metadataPool
               else wrapM (CreatePool version clusterSpec metadataPool) "failed to create metadata pool %q" [pool_Name metadataPool]);
          let dataPoolNames := generateDataPoolNames fsName spec in
          _ ← create_data_pools version clusterSpec existing (zip dataPoolNames (DataPools spec));
          CreateFilesystem fsName (pool_Name metadataPool) dataPoolNames
      end
  end.

Definition mds_cluster (cluster : CephCluster) (version : CephVersion) (f : CephFilesystem) (rotate : bool) : Cluster :=
  {| c_fs := f; c_version := version; c_skipUpgradeChecks := cl_SkipUpgradeChecks cluster;
     c_continueUpgrade := cl_ContinueUpgrade cluster; shouldRotateCephxKeys := rotate |}.

Definition createFilesystem (cluster : CephCluster) (version : CephVersion) (f : CephFilesystem) (rotate : bool) : MC unit :=
  let spec := fs_Spec f in
  let server := MetadataServer spec in
  _ ← Start (mds_cluster cluster version f rotate);
  _ ← match DataPools spec with
      | [] => mret ()
      | _ => wrapM (doFilesystemCreate version (cl_Spec cluster) (fs_Name f) spec) "failed to create filesystem %q" [fs_Name f]
      end;
  _ ← wrapM (AllowStandbyReplay (fs_Name f) (ActiveStandby server) (ActiveCount server)) "failed to set allow_standby_replay to filesystem %q" [fs_Name f];
  _ ← (if 1 <? ActiveCount server then _ ← try_ (SetNumMDSRanks (fs_Name f) (ActiveCount server)); mret () else mret ());
  wrapM (CreateCephFSSubVolumeGroup (fs_Name f) defaultCSISubvolumeGroup None) "failed to create subvolume group %q" [defaultCSISubvolumeGroup].

(** ** Deleting *)

Definition downFilesystem (fsName : string) : MC unit := FailFilesystem fsName.

(** The file system goes down whatever the spec says; its removal is a best effort. *)
Definition deleteFilesystem (f : CephFilesystem) : MC unit :=
  let spec := fs_Spec f in
  _ ← forM_ (daemon_letters (wrap32 (ActiveCount (MetadataServer spec) * 2))) (fun letter =>
        wrapM (DeleteMdsCephObjects (daemon_name (fs_Name f) letter)) "failed to delete mds ceph objects for filesystem %q" [fs_Name f]);
  _ ← try_ (downFilesystem (fs_Name f));
  match DataPools spec with
  | [] => mret ()
  | _ =>
      if PreserveFilesystemOnDelete spec then mret ()
      else _ ← try_ (RemoveFilesystem (fs_Name f) (PreservePoolsOnDelete spec)); mret ()
  end.

(** ** Dependents ([dependent.go]) *)

Definition filesystemExists (name : string) : MC bool :=
  r ← try_ (getFilesystem name);
  match r with
  | Ok _ => mret true
  | Err err =>
      if bool_decide (ExitStatus (W := W) err = Some ENOENT) then mret false
      else fail (Wrapf err "failed to check for existence of CephFilesystem %q" [name])
  end.

(** The groups that have subvolumes, and whether some could not be listed. *)
Fixpoint groups_in_use (fsName : string) (groups : list string) (deps : list string) (failed : bool) : MC (list string * bool) :=
  match groups with
  | [] => mret (deps, failed)
  | g :: groups =>
      if ignoreSVG g then groups_in_use fsName groups deps failed
      else
        r ← try_ (listSubvolumesInGroup fsName g);
        match r with
        | Err _ => groups_in_use fsName groups deps true
        | Ok [] => groups_in_use fsName groups deps failed
        | Ok _ => groups_in_use fsName groups (deps ++ [if String.eqb g NoSubvolumeGroup then "<no group>" else g]) failed
        end
  end.

Definition subvolumeGroupDependents (fsName : string) : MC (list string) :=
  svgs ← wrapM (listSubvolumeGroups fsName) "failed to get Ceph subvolume groups containing subvolumes" [];
  '(deps, failed) ← groups_in_use fsName (svgs ++ [NoSubvolumeGroup]) [] false;
  if (failed : bool)
  then fail (Errorf "failed to list subvolumes in filesystem %q for one or more subvolume groups" [fsName])
  else mret deps.

Definition list_groups (ns : string) : MC (list CephFilesystemSubVolumeGroup) := record (ListGroups ns) (on_env (env_list_groups ns)).

(** When it is not known whether the file system exists no dependents are reported. *)
Definition cephFilesystemDependents (f : CephFilesystem) : MC (list string) :=
  r ← try_ (filesystemExists (fs_Name f));
  match r with
  | Err _ => mret []
  | Ok exists_ =>
      deps ← (if (exists_ : bool)
              then wrapM (subvolumeGroupDependents (fs_Name f)) "failed to get dependents of CephFilesystem %q" [fs_Name f]
              else mret []);
      groups ← wrapM (list_groups (fs_Namespace f)) "%s. failed to list CephFilesystemSubVolumeGroups for CephFilesystem %q" [fs_Name f];
      mret (deps ++ (svg_Name <$> List.filter (fun g => String.eqb (svg_FilesystemName g) (fs_Name f)) groups))
  end.

(** ** The status ([status.go]) *)

Definition set_fs_status_once (observedGeneration : Z) (ns name status message : string) (info : option (gmap string string))
    (cephx : option CephxStatus) : MC (option CephFilesystem) :=
  r ← try_ (get_fs ns name);
  match r with
  | Err err =>
      if IsNotFound err then mret None else fail (Wrapf err "failed to retrieve filesystem %q to update status to %q." [name; status])
  | Ok fs =>
      let old := default no_fs_status (fs_Status fs) in
      let new := set_fs_status fs
        {| fss_Phase := status; fss_Message := message; fss_Info := info; SnapshotScheduleStatus := SnapshotScheduleStatus old;
           MirroringStatus := MirroringStatus old; fss_Conditions := fss_Conditions old;
           fss_ObservedGeneration := if observedGeneration =? ObservedGenerationNotAvailable then fss_ObservedGeneration old else observedGeneration;
           fss_Cephx := default (fss_Cephx old) cephx |} in
      _ ← wrapM (record (SetFsStatus new) (on_env (env_update_fs_status new))) "failed to set filesystem %q status to %q." [name; status];
      mret (Some new)
  end.

(** [None] for the empty object of a resource that is gone. *)
Definition updateStatus (observedGeneration : Z) (ns name status message : string) (info : option (gmap string string))
    (cephx : option CephxStatus) : MC (option CephFilesystem) :=
  RetryOnConflict 4 (set_fs_status_once observedGeneration ns name status message info cephx).

Definition updateStatusMirroring (ns name : string) (mirrorStatus snapSchedStatus : list string) (details : string) : MC unit :=
  r ← try_ (get_fs ns name);
  match r with
  | Err _ => mret ()
  | Ok fs =>
      now ← silent (on_env env_time_text);
      let new := set_fs_status fs (toCustomResourceStatus now (default no_fs_status (fs_Status fs)) mirrorStatus snapSchedStatus details) in
      _ ← try_ (record (SetFsStatus new) (on_env (env_update_fs_status new))); mret ()
  end.

(** A check of the mirroring ([health.go]); an error is written into the status twice. *)
Definition checkMirroringHealth (ns name : string) (spec : FilesystemSpec) : MC unit :=
  mirrorStatus ← try_ (GetFSMirrorDaemonStatus name);
  match mirrorStatus with
  | Err err => _ ← updateStatusMirroring ns name [] [] (error_text (W := W) err); fail err
  | Ok mirrorStatus =>
      snapSchedStatus ← try_ (match fs_Mirroring spec with
                              | Some m => if SnapShotScheduleEnabled m then GetSnapshotScheduleStatus name else mret []
                              | None => mret []
                              end);
      match snapSchedStatus with
      | Err err => _ ← updateStatusMirroring ns name [] [] (error_text (W := W) err); fail err
      | Ok snapSchedStatus => updateStatusMirroring ns name mirrorStatus snapSchedStatus ""
      end
  end.

(** One round of [checkMirroring]. *)
Definition check_round (ns name : string) (spec : FilesystemSpec) : MC unit :=
  r ← try_ (checkMirroringHealth ns name spec);
  match r with
  | Err err => updateStatusMirroring ns name [] [] (error_text (W := W) err)
  | Ok _ => mret ()
  end.

(** ** Versions ([version.go]) *)

(** The version of the image comes first. *)
Definition CurrentAndDesiredCephVersion (ns jobName : string) : MC (CephVersion * CephVersion) :=
  desired ← wrapM (api "detect" "Job" (jobName +:+ "-detect-version") (env_detect_version ns)) "failed to detect ceph image version" [];
  running ← wrapM (Upgrade.LeastUptodateDaemonVersion "mon") "failed to retrieve current ceph %q version" ["mon"];
  mret (desired, running).

Definition ErrorCephUpgradingRequeue (runningCephVersion desiredCephVersion : CephVersion) : gerror :=
  Errorf "waiting for ceph upgrade to finish. current version: %s. expected version: %s. will reconcile again in %s"
    [String_ runningCephVersion; String_ desiredCephVersion; "1m0s"].

(** ** Mirroring *)

Definition reconcileMirroring (name : string) (m : FSMirroringSpec) : MC unit :=
  _ ← wrapM (MgrEnableModule "mirroring" false) "failed to enable mirroring mgr module" [];
  _ ← wrapM (EnableFilesystemSnapshotMirror name) "failed to enable mirroring on filesystem %q" [name];
  if SnapShotScheduleEnabled m then
    _ ← wrapM (MgrEnableModule "snap_schedule" false) "failed to enable snap_schedule mgr module" [];
    _ ← forM_ (fsm_SnapshotSchedules m) (fun '(path, snap) =>
          wrapM (AddSnapshotSchedule path (Interval snap) (StartTime snap) name) "failed to add snapshot schedules on filesystem %q" [name]);
    forM_ (fsm_SnapshotRetention m) (fun retention =>
      wrapM (AddSnapshotScheduleRetention (retention_Path retention) (retention_Duration retention) name)
        "failed to add snapshot retention on filesystem %q" [name])
  else mret ().

Definition reconcileAddBootstrapPeer (ns name : string) (m : FSMirroringSpec) : MC unit :=
  match fsm_Peers m with
  | None => mret ()
  | Some secretNames =>
      forM_ secretNames (fun peerSecret =>
        data ← wrapM (api "get" "Secret" peerSecret (env_get_secret ns peerSecret)) "failed to fetch kubernetes secret %q fs-mirror bootstrap peer" [peerSecret];
        _ ← wrapM (lift (ValidatePeerToken data)) "failed to validate fs-mirror bootstrap peer secret %q data" [peerSecret];
        wrapM (ImportFSMirrorBootstrapPeer name (default "" (data !! "token"))) "failed to import filesystem bootstrap peer token" [])
  end.

Definition peer_secret_name (f : CephFilesystem) : string := "fs-peer-token-" +:+ fs_Name f.

Definition CreateBootstrapPeerSecret (fsid : string) (f : CephFilesystem) : MC unit :=
  token ← wrapM (CreateFSMirrorBootstrapPeer fsid (fs_Name f)) "failed to create %s-mirror bootstrap peer" ["cephfs"];
  let secret := peer_secret_name f in
  _ ← wrapM (lift (owner_reference (W := W) secret)) "failed to set owner reference for %s-mirror bootstrap peer secret %q" ["cephfs"; secret];
  r ← try_ (api "write" "Secret" secret (env_write_secret secret (<["token" := token]> {["fs" := fs_Name f]})));
  match r with
  | Err err => if IsAlreadyExists err then mret () else fail (Wrapf err "failed to create %s-mirror bootstrap peer %q secret" ["cephfs"; secret])
  | Ok _ => mret ()
  end.

Definition GenerateStatusInfo (f : CephFilesystem) : gmap string string := {["fsMirrorBootstrapPeerSecretName" := peer_secret_name f]}.

(** ** The reconcile ([controller.go]) *)

Definition cancel_fs_monitoring (f : CephFilesystem) : MC unit :=
  contexts ← get_contexts; set_contexts (delete (fsChannelKeyName f) contexts).

Definition remove_fs_finalizer (f : CephFilesystem) : MC unit :=
  wrapM (api "remove-finalizer" "CephFilesystem" (fs_Name f) (env_remove_fs_finalizer f)) "failed to remove finalizer" [].

(** One attempt of [UpdateStatusConditionsWithRetry], which reads the object anew. *)
Definition update_condition_once (f : CephFilesystem) (blocked : bool) : MC CephFilesystem :=
  latest ← wrapM (get_fs (fs_Namespace f) (fs_Name f)) "failed to get latest %s %q" ["CephFilesystem"; fs_Name f];
  _ ← wrapM (api "conditions" "CephFilesystem" (fs_Name f) (env_fs_condition latest blocked)) "failed to update %s %q status conditions"
        ["CephFilesystem"; fs_Name f];
  mret latest.

(** The resource is being deleted. *)
Definition reconcile_fs_deletion (f : CephFilesystem) : MC (Result * option gerror) :=
  or_return Done (cephFilesystemDependents f) (fun deps =>
  match deps with
  | _ :: _ =>
      r ← try_ (RetryOnConflict 4 (update_condition_once f true));
      mret (WaitForRequeueIfFinalizerBlocked,
            Some (match r with
                  | Err err => err
                  | Ok _ => Errorf "CephFilesystem %q will not be deleted until all dependents are removed" [fs_Name f]
                  end))
  | [] =>
      r ← try_ (RetryOnConflict 4 (update_condition_once f false));
      let f := match r with Ok latest => latest | Err _ => f end in
      or_return Done (wrapM (Upgrade.LeastUptodateDaemonVersion "mon") "failed to retrieve current ceph %q version" ["mon"]) (fun _ =>
      or_return Done (wrapM (deleteFilesystem f) "failed to delete filesystem %q. " [fs_Name f]) (fun _ =>
      _ ← cancel_fs_monitoring f;
      or_return Done (remove_fs_finalizer f) (fun _ => mret (Done, None))))
  end).

Definition reconcileCreateFilesystem (cluster : CephCluster) (version : CephVersion) (f : CephFilesystem) (rotate : bool) : MC unit :=
  _ ← (if cl_External cluster then
         '(_, r) ← Upgrade.validate_external version;
         wrapM (lift r) "refusing to run new crd" []
       else mret ());
  let f := if PreservePoolsOnDelete (fs_Spec f) && negb (PreserveFilesystemOnDelete (fs_Spec f)) then set_preserve f else f in
  wrapM (createFilesystem cluster version f rotate) "failed to create filesystem %q" [fs_Name f].

(** Starts the monitor unless it runs. *)
Definition monitor_fs (f : CephFilesystem) : MC unit :=
  contexts ← get_contexts;
  if fs_MirrorCheckDisabled (fs_Spec f) || default false (contexts !! fsChannelKeyName f) then mret ()
  else
    _ ← try_ (api "monitor" "CephFilesystem" (fs_Name f) (env_start_fs_monitor (fs_Name f)));
    set_contexts (<[fsChannelKeyName f := true]> contexts).

(** [or_return] where the failure is written into the status first. *)
Definition or_failed (ns name : string) (res : Result) (m : MC unit) (k : MC (Result * option gerror)) : MC (Result * option gerror) :=
  r ← try_ m;
  match r with
  | Ok _ => k
  | Err err =>
      s ← try_ (updateStatus ObservedGenerationNotAvailable ns name ConditionFailure
                  "Failed to create the filesystem. See the operator log for details." None None);
      match s with
      | Err statusErr => mret (Done, Some (Wrapf statusErr "failed to set failure status on cephFileSystem %q" [name]))
      | Ok _ => mret (res, Some err)
      end
  end.

Definition reconcile_mirroring (fsid ns name : string) (generation : Z) (f : CephFilesystem) (m : FSMirroringSpec) (cephxStatus : CephxStatus) : MC (Result * option gerror) :=
  or_return ImmediateRetryResult (wrapM (reconcileMirroring (fs_Name f) m) "failed to configure mirroring for filesystem %q." [fs_Name f]) (fun _ =>
  or_failed ns name ImmediateRetryResult
    (wrapM (CreateBootstrapPeerSecret fsid f) "failed to create cephfs-mirror bootstrap peer for filesystem %q." [fs_Name f]) (
  or_return ImmediateRetryResult (wrapM (reconcileAddBootstrapPeer ns (fs_Name f) m) "failed to configure mirroring for filesystem %q." [fs_Name f]) (fun _ =>
  or_return Done (wrapM (updateStatus generation ns name ConditionReady "Filesystem configured successfully" (Some (GenerateStatusInfo f)) (Some cephxStatus))
                    "failed to set ready status for cephFileSystem %q" [name]) (fun _ =>
  _ ← monitor_fs f; mret (Done, None))))).

(** After the file system was created or updated; [generation] is the one that was read at first. *)
Definition finish_creation (fsid ns name : string) (generation : Z) (f : CephFilesystem) (cephxStatus : CephxStatus) : MC (Result * option gerror) :=
  let ready := or_return Done (wrapM (updateStatus generation ns name ConditionReady "Filesystem configured successfully" None (Some cephxStatus))
                                 "failed to set ready status for cephFileSystem %q" [name]) (fun _ => mret (Done, None)) in
  or_return Done (wrapM (updateStatus generation ns name ConditionProgressing "Configuring filesystem" None (Some cephxStatus))
                    "failed to set cephx status for cephFileSystem %q" [name]) (fun _ =>
  match fs_Mirroring (fs_Spec f) with
  | None => ready
  | Some m =>
      if fsm_Enabled m then reconcile_mirroring fsid ns name generation f m cephxStatus
      else or_return Done (wrapM (DisableFilesystemSnapshotMirror (fs_Name f)) "failed to disable mirroring on filesystem %q" [fs_Name f]) (fun _ => ready)
  end).

(** The first of the two versions is taken for the running one.  A panic is not an error of the code: it
    ends the reconcile. *)
Definition reconcile_fs_creation (fsid ns name : string) (generation : Z) (f : CephFilesystem) (cluster : CephCluster) : MC (Result * option gerror) :=
  versions ← try_ (CurrentAndDesiredCephVersion (fs_Namespace f) "ceph-file-controller");
  match versions with
  | Err err =>
      if not_initialized (W := W) err then mret (WaitForRequeueIfOperatorNotInitialized, None)
      else mret (Done, Some (Wrapf err "failed to detect running and desired ceph version" []))
  | Ok (runningCephVersion, desiredCephVersion) =>
      if negb (cl_External cluster) && negb (bool_decide (runningCephVersion = desiredCephVersion))
      then mret (WaitForRequeueIfCephClusterIsUpgrading, Some (ErrorCephUpgradingRequeue desiredCephVersion runningCephVersion))
      else
        v ← try_ (validateFilesystem (cl_Spec cluster) f);
        match v with
        | Err err =>
            if not_initialized (W := W) err then mret (WaitForRequeueIfOperatorNotInitialized, None)
            else mret (Done, Some (Wrapf err "invalid object filesystem %q arguments" [fs_Name f]))
        | Ok _ =>
            allow ← silent (on_env env_allow_map);
            let old := fss_Cephx (default no_fs_status (fs_Status f)) in
            or_return Done (wrapM (lift (ShouldRotateCephxKeys allow (cl_CephxDaemon cluster) runningCephVersion desiredCephVersion old true ns))
                              "failed to determine if cephx keys should be rotated" []) (fun rotate =>
            created ← try_ (reconcileCreateFilesystem cluster runningCephVersion f rotate);
            match created with
            | Err err =>
                if is_panic err then fail err
                else or_failed ns name Done (fail err) (mret (Done, None))
            | Ok _ =>
                let status := UpdatedCephxStatus rotate (cl_CephxDaemon cluster) runningCephVersion old CephxKeyTypeUndefined in
                types ← try_ (DetermineCephxKeyTypesForEntityType "mds" (fs_Name f +:+ "-"));
                let status := match types with
                              | Ok [t] => {| KeyGeneration := KeyGeneration status; KeyCephVersion := KeyCephVersion status; KeyType := t |}
                              | _ => status
                              end in
                finish_creation fsid ns name generation f status
            end)
        end
  end.

(** The file system after its finalizer and its first status. *)
Definition reconcile_fs (fsid ns name : string) (generation : Z) (f : CephFilesystem) : MC (Result * option gerror) :=
  '(cluster, isReady, clusterExists, response) ← IsReadyToReconcile ns;
  match cluster, isReady with
  | Some cluster, true =>
      contexts ← get_contexts;
      _ ← (if bool_decide (is_Some (contexts !! fsChannelKeyName f)) then mret () else set_contexts (<[fsChannelKeyName f := false]> contexts));
      or_return Done (wrapM (api "load" "ClusterInfo" ns (env_load_cluster_info ns)) "failed to populate cluster info" []) (fun _ =>
      if fs_Deleted f then reconcile_fs_deletion f else reconcile_fs_creation fsid ns name generation f cluster)
  | _, _ =>
      if fs_Deleted f && negb clusterExists then
        _ ← cancel_fs_monitoring f;
        or_return Done (remove_fs_finalizer f) (fun _ => mret (Done, None))
      else mret (response, None)
  end.

Definition reconcile_file (fsid ns name : string) : MC (Result * option gerror) :=
  r ← try_ (get_fs ns name);
  match r with
  | Err err =>
      if IsNotFound err then contexts ← get_contexts; _ ← set_contexts (delete (ns +:+ "/" +:+ name) contexts); mret (Done, None)
      else mret (Done, Some (Wrapf err "failed to get cephFilesystem" []))
  | Ok f =>
      or_return Done (wrapM (api "add-finalizer" "CephFilesystem" name (env_add_fs_finalizer f)) "failed to add finalizer" []) (fun updated =>
      if (updated : bool) then mret (Done, None)
      else
        match fs_Status f with
        | Some _ => reconcile_fs fsid ns name (fs_Generation f) f
        | None =>
            or_return Done (wrapM (updateStatus ObservedGenerationNotAvailable ns name ConditionProgressing "Initializing filesystem" None
                                     (Some UninitializedCephxStatus)) "failed to initialize cephx status for cephFileSystem %q" [name]) (fun fresh =>
            match fresh with
            | None => mret (Done, Some (Errorf "failed to update ceph filesystem status" []))
            | Some fresh => reconcile_fs fsid ns name (fs_Generation f) fresh
            end)
        end)
  end.

End File.

End FileController.
