(* ===== verification/SubVolume.v ===== *)
(** * SubVolume: the controller of subvolume groups

    Models [pkg/operator/ceph/file/subvolumegroup/controller.go]. *)

From stdpp Require Import base gmap strings list fin_maps.
From Stdlib Require Import ZArith Ascii.
From S2P Require Import Prelude Names CephVersion Kube Upgrade Cephx OsdBase Pools BlockPool FsClient Mds FileController.
Import Log Version Cephx Pools BlockPool FsClient Mds FileController.
Open Scope Z_scope.

Module SubVolume.

Definition getSubvolumeGroupName (g : CephFilesystemSubVolumeGroup) : string := or_default (svg_SpecName g) (svg_Name g).

Definition buildClusterID (g : CephFilesystemSubVolumeGroup) : string :=
  if negb (String.eqb (svg_ClusterID g) "") then svg_ClusterID g
  else ObjectName.Hash (svg_Namespace g +:+ "-" +:+ svg_FilesystemName g +:+ "-file-" +:+ getSubvolumeGroupName g).

Definition formatPinning (p : PinningSpec) : string :=
  match Export p, Distributed p, Random p with
  | Some e, _, _ => "export=" +:+ Itoa e
  | None, Some d, _ => "distributed=" +:+ Itoa d
  | None, None, Some r => "random=" +:+ fraction_short r
  | None, None, None => "distributed=1"
  end.

(** Groups are indexed by their file system and their name in Ceph. *)
Definition group_index (g : CephFilesystemSubVolumeGroup) : string := svg_FilesystemName g +:+ "/" +:+ getSubvolumeGroupName g.

Definition isCSICephFSSecret (name : string) : bool :=
  HasPrefix name "rook-csi-cephfs-provisioner" || HasPrefix name "rook-csi-cephfs-node".

Definition set_group_status (g : CephFilesystemSubVolumeGroup) (s : string * string * gmap string string * Z) : CephFilesystemSubVolumeGroup :=
  {| svg_Namespace := svg_Namespace g; svg_Name := svg_Name g; svg_Generation := svg_Generation g; svg_Deleted := svg_Deleted g;
     svg_Annotations := svg_Annotations g; svg_SpecName := svg_SpecName g; svg_FilesystemName := svg_FilesystemName g;
     Pinning := Pinning g; svg_Quota := svg_Quota g; svg_DataPoolName := svg_DataPoolName g; svg_ClusterID := svg_ClusterID g;
     svg_Status := Some s |}.

Section SubVolume.
Context {W : Type} `{FsEnv W}.

Abbreviation MC := (MW (gmap string bool * W)).

Definition get_group (ns name : string) : MC CephFilesystemSubVolumeGroup := record (GetGroup ns name) (on_env (env_get_group ns name)).

Definition find_groups (ns index : string) : MC (list CephFilesystemSubVolumeGroup) := record (FindGroups ns index) (on_env (env_find_groups ns index)).

Definition set_group_status_once (observedGeneration : Z) (ns name status message : string) : MC unit :=
  r ← try_ (get_group ns name);
  match r with
  | Err err =>
      if IsNotFound err then mret ()
      else fail (Wrapf err "failed to retrieve ceph filesystem subvolume group %q to update status to %q" [name; status])
  | Ok g =>
      let old := match svg_Status g with Some (_, _, _, generation) => generation | None => 0 end in
      let new := set_group_status g
        (status, message, <["clusterID" := buildClusterID g]> {["pinning" := formatPinning (Pinning g)]},
         if observedGeneration =? ObservedGenerationNotAvailable then old else observedGeneration) in
      wrapM (record (SetGroupStatus new) (on_env (env_update_group_status new))) "failed to set ceph filesystem subvolume group %q status to %q" [name; status]
  end.

(** An error is only logged. *)
Definition update_group_status (observedGeneration : Z) (ns name status message : string) : MC unit :=
  _ ← try_ (RetryOnConflict 4 (set_group_status_once observedGeneration ns name status message)); mret ().

Definition createOrUpdateSubVolumeGroup (g : CephFilesystemSubVolumeGroup) : MC unit :=
  wrapM (CreateCephFSSubVolumeGroup (svg_FilesystemName g) (getSubvolumeGroupName g) (Some (svg_Quota g, svg_DataPoolName g)))
    "failed to create ceph filesystem subvolume group %q" [svg_Name g].

(** The job is told the default name of the metadata pool. *)
Definition group_cleanup_config (g : CephFilesystemSubVolumeGroup) : gmap string string :=
  <["SUB_VOLUME_GROUP_NAME" := getSubvolumeGroupName g]> (<["FILESYSTEM_NAME" := svg_FilesystemName g]>
    (<["CSI_CEPHFS_RADOS_NAMESPACE" := "csi"]> {["METADATA_POOL_NAME" := GenerateMetaDataPoolName (svg_FilesystemName g)]})).

Definition cleanup (g : CephFilesystemSubVolumeGroup) : MC unit :=
  let jobName := ObjectName.TruncateNodeNameForJob "cleanup-svg-%s" (svg_FilesystemName g +:+ "-" +:+ svg_Name g) in
  wrapM (api "cleanup" "Job" jobName (env_start_cleanup "CephFilesystemSubVolumeGroup" jobName (group_cleanup_config g)))
    "failed to run clean up job to clean the ceph resources in cephFS subVolumeGroup %q" [svg_Name g].

Definition deleteSubVolumeGroup (g : CephFilesystemSubVolumeGroup) : MC unit :=
  r ← try_ (DeleteCephFSSubVolumeGroup (svg_FilesystemName g) (getSubvolumeGroupName g));
  match r with
  | Ok _ => mret ()
  | Err err =>
      let code := ExitStatus (W := W) err in
      if bool_decide (code = Some ENOENT) then mret ()
      else if bool_decide (code = Some ENOTEMPTY) then
        if ForceDeleteRequested (svg_Annotations g) then
          _ ← wrapM (cleanup g) "failed to clean up all the ceph resources created by subVolumeGroup %q" [svg_Name g];
          fail (Wrapf err "failed to delete ceph filesystem subvolume group %q, started clean up job to delete the subvolumes" [svg_Name g])
        else fail (Wrapf err "failed to delete ceph filesystem subvolume group %q, remove the subvolumes first" [svg_Name g])
      else fail (Wrapf err "failed to delete ceph filesystem subvolume group %q" [svg_Name g])
  end.

Definition remove_group_finalizer (g : CephFilesystemSubVolumeGroup) : MC unit :=
  wrapM (api "remove-finalizer" "CephFilesystemSubVolumeGroup" (svg_Name g) (env_remove_group_finalizer g)) "failed to remove finalizer" [].

(** Of several resources of the same group only the last one deletes the group. *)
Definition reconcile_group_deletion (ns : string) (g : CephFilesystemSubVolumeGroup) (cluster : CephCluster) : MC (Result * option gerror) :=
  or_return Done (wrapM (find_groups ns (group_index g)) "failed to list cephFilesystemSubvolumeGroup" []) (fun same =>
  r ← try_ (if cl_External cluster then mret () else if (length same <=? 1)%nat then deleteSubVolumeGroup g else mret ());
  match r with
  | Err err =>
      if not_initialized (W := W) err then mret (WaitForRequeueIfOperatorNotInitialized, None)
      else mret (Done, Some (Wrapf err "failed to delete ceph filesystem subvolume group %q" [svg_Name g]))
  | Ok _ => or_return Done (remove_group_finalizer g) (fun _ => mret (Done, None))
  end).

(** The file system must be there and ready; waiting for it is not an error. *)
Definition create_group (ns name : string) (g : CephFilesystemSubVolumeGroup) : MC (Result * option gerror) :=
  r ← try_ (get_fs ns (svg_FilesystemName g));
  match r with
  | Err err =>
      if IsNotFound err
      then mret (Done, Some (Wrapf err "failed to fetch ceph filesystem %q, cannot create subvolume group %q" [svg_FilesystemName g; svg_Name g]))
      else mret (Done, Some (Wrapf err "failed to get cephFilesystemSubVolumeGroup" []))
  | Ok f =>
      if match fs_Status f with Some s => negb (String.eqb (fss_Phase s) ConditionReady) | None => true end
      then mret ({| Requeue := true; RequeueAfter := 10 |},
                 Wrapf_opt None "failed to fetch ceph filesystem %q, cannot create subvolume group %q" [svg_FilesystemName g; svg_Name g])
      else
        c ← try_ (createOrUpdateSubVolumeGroup g);
        match c with
        | Err err =>
            if not_initialized (W := W) err then mret (WaitForRequeueIfOperatorNotInitialized, None)
            else
              _ ← update_group_status ObservedGenerationNotAvailable ns name ConditionFailure
                    "Failed to create the subvolume group. See the operator log for details.";
              mret (Done, Some (Wrapf err "failed to create or update ceph filesystem subvolume group %q" [svg_Name g]))
        | Ok _ =>
            or_return Done (wrapM (PinCephFSSubVolumeGroup (svg_FilesystemName g) (Pinning g) (getSubvolumeGroupName g))
                              "failed to pin filesystem subvolume group %q" [svg_Name g]) (fun _ =>
            _ ← update_group_status (svg_Generation g) ns name ConditionReady "Subvolume group configured successfully";
            mret (Done, None))
        end
  end.

Definition reconcile_group_creation (ns name : string) (g : CephFilesystemSubVolumeGroup) (cluster : CephCluster) : MC (Result * option gerror) :=
  or_return Done (wrapM (Upgrade.LeastUptodateDaemonVersion "osd") "failed to retrieve current ceph %q version" ["osd"]) (fun _ =>
  if cl_External cluster then
    _ ← update_group_status (svg_Generation g) ns name ConditionReady "Subvolume group configured successfully";
    or_return Done (wrapM (api "profile" "ClientProfile" (svg_Name g) (env_client_profile (getSubvolumeGroupName g) (buildClusterID g)))
                      "failed to create ceph csi-op config CR for subvolume" []) (fun _ => mret (Done, None))
  else create_group ns name g).

Definition reconcile_group (ns name : string) (g : CephFilesystemSubVolumeGroup) : MC (Result * option gerror) :=
  '(cluster, isReady, clusterExists, response) ← IsReadyToReconcile ns;
  match cluster, isReady with
  | Some cluster, true =>
      or_return Done (wrapM (api "load" "ClusterInfo" ns (env_load_cluster_info ns)) "failed to populate cluster info" []) (fun _ =>
      if svg_Deleted g then reconcile_group_deletion ns g cluster else reconcile_group_creation ns name g cluster)
  | _, _ =>
      if svg_Deleted g && negb clusterExists
      then or_return ImmediateRetryResult (remove_group_finalizer g) (fun _ => mret (Done, None))
      else mret (response, None)
  end.

Definition reconcile_subvolumegroup (ns name : string) : MC (Result * option gerror) :=
  r ← try_ (get_group ns name);
  match r with
  | Err err =>
      if IsNotFound err then mret (Done, None) else mret (Done, Some (Wrapf err "failed to get cephFilesystemSubVolumeGroup" []))
  | Ok g =>
      or_return Done (wrapM (api "add-finalizer" "CephFilesystemSubVolumeGroup" name (env_add_group_finalizer g)) "failed to add finalizer" []) (fun updated =>
      if (updated : bool) then mret (Done, None)
      else
        _ ← match svg_Status g with
            | None => update_group_status ObservedGenerationNotAvailable ns name ConditionProgressing "Initializing subvolume group"
            | Some _ => mret ()
            end;
        reconcile_group ns name g)
  end.

End SubVolume.

End SubVolume.
