(* ===== verification/CsiKeys.v ===== *)
(** * CsiKeys: the Ceph users of CSI and their secrets

    Models [pkg/operator/ceph/csi/secrets.go]: for each of the four users of CSI a Ceph client per
    generation of its key, [client.csi-rbd-node.3] for the third one; a rotation makes a new client, old
    clients are deleted up to the number of prior keys to keep, and the secrets name the newest one. *)

From stdpp Require Import base gmap strings list fin_maps sorting.
From Stdlib Require Import ZArith Ascii.
From S2P Require Import Prelude CephVersion MonStore Cephx Pools BlockPool FsClient Mds.
Import Log Version Cephx Pools BlockPool FsClient Mds.
Open Scope Z_scope.

Module CsiKeys.

Definition csiKeyringRBDProvisionerUsername : string := "client.csi-rbd-provisioner".
Definition csiKeyringRBDNodeUsername : string := "client.csi-rbd-node".
Definition CsiRBDNodeSecret : string := "rook-csi-rbd-node".
Definition CsiRBDProvisionerSecret : string := "rook-csi-rbd-provisioner".
Definition csiKeyringCephFSProvisionerUsername : string := "client.csi-cephfs-provisioner".
Definition csiKeyringCephFSNodeUsername : string := "client.csi-cephfs-node".
Definition CsiCephFSNodeSecret : string := "rook-csi-cephfs-node".
Definition CsiCephFSProvisionerSecret : string := "rook-csi-cephfs-provisioner".

Definition cephCSIKeyringRBDNodeCaps : list string := ["mon"; "profile rbd"; "mgr"; "allow rw"; "osd"; "profile rbd"].

Definition cephCSIKeyringRBDProvisionerCaps : list string :=
  ["mon"; "profile rbd, allow command 'osd blocklist'"; "mgr"; "allow rw"; "osd"; "profile rbd"].

Definition cephCSIKeyringCephFSNodeCaps : list string :=
  ["mon"; "allow r"; "mgr"; "allow rw"; "osd"; "allow rwx tag cephfs metadata=*, allow rw tag cephfs data=*"; "mds"; "allow rw"].

Definition cephCSIKeyringCephFSProvisionerCaps : list string :=
  ["mon"; "allow r, allow command 'osd blocklist'"; "mgr"; "allow rw"; "osd"; "allow rw tag cephfs metadata=*"; "mds"; "allow *"].

(** ** Names of clients *)

(** The base name of a client and its generation, 0 without a suffix. *)
Definition parseCsiClient (c : string) : result (string * Z) :=
  let parts (a b : string) (suffix : option string) : result (string * Z) :=
    if negb (String.eqb a "client") then Err (Errorf "CSI client name %q does not begin with client" [c])
    else if HasSuffix b " " then Err (Errorf "no CSI client name found matching with %s contains space" [c])
    else
      match suffix with
      | None => Ok (a +:+ "." +:+ b, 0)
      | Some s =>
          match Atoi s with
          | None => Err (Errorf "failed to parse generation for CSI client name %q" [c])
          | Some gen =>
              if gen <? 0 then Err (Errorf "parsed generation for CSI client name %q is negative" [c]) else Ok (a +:+ "." +:+ b, gen)
          end
      end in
  match split_byte "." c with
  | [a; b] => parts a b None
  | [a; b; s] => parts a b (Some s)
  | _ => Err (Errorf "unexpected CSI client name format: %q" [c])
  end.

(** Where the error is only logged the name is empty and the generation 0. *)
Definition base_name (c : string) : string := match parseCsiClient c with Ok (base, _) => base | Err _ => "" end.

Definition generation (c : string) : Z := match parseCsiClient c with Ok (_, gen) => gen | Err _ => 0 end.

Definition generateCsiUserIdWithGenerationSuffix (clientBaseName : string) (keyGeneration : Z) : string :=
  if 0 <? keyGeneration then clientBaseName +:+ "." +:+ Itoa keyGeneration else clientBaseName.

Definition getMatchingClient (authList : list string) (clientBaseName : string) : list string :=
  List.filter (fun entity => String.eqb (base_name entity) clientBaseName) authList.

Fixpoint dedup_loop (allKeys : gset string) (l : list string) : list string :=
  match l with
  | [] => []
  | v :: l => if bool_decide (v ∈ allKeys) then dedup_loop allKeys l else v :: dedup_loop ({[v]} ∪ allKeys) l
  end.

Definition deduplicate (l : list string) : list string := dedup_loop ∅ l.

(** The newest key is counted in [numKeys]. *)
Definition deleteCount (numKeys keepPriorCount : Z) : Z :=
  let c := numKeys - keepPriorCount - 1 in if c <? 0 then 0 else c.

Definition getPriorKeyCount (currentKeyCount : Z) : Z := Z.max 0 (currentKeyCount - 1).

(** The order of generations; clients of the same generation are in some order. *)
Definition older (x y : string * Z) : Prop := x.2 <= y.2.

(** The widths of the fields: [uint32] and [uint8]. *)
Definition typed (cluster : CsiCephx) : Prop := is_uint32 (cfg_KeyGeneration (csi_Config cluster)) /\ 0 <= KeepPriorKeyCountMax cluster < 2 ^ 8.

Class CsiEnv (W : Type) := {
  csi_fs :: FsEnv W;
  env_get_csi_cephx : string -> string -> M W CsiCephx;
  csi_cephx_typed ns name w cluster : (env_get_csi_cephx ns name w).2 = Ok cluster -> typed cluster;
  env_set_csi_cephx : string -> string -> CsiCephx -> M W unit;
  env_put_secret : string -> string -> string -> gmap string string -> M W unit;
  (** the controller of a secret: API version, kind and name *)
  env_secret_owner : string -> string -> M W (option (string * string * string));
  (** the group of an API version *)
  api_group : string -> option string;
  (** the entities of [auth ls] *)
  json_auth_list : string -> option (list string);
  (** [sort.Slice], which is not stable *)
  sort_clients : list (string * Z) -> list (string * Z);
  sort_clients_perm l : sort_clients l ≡ₚ l;
  sort_clients_sorted l : StronglySorted older (sort_clients l);
  (** the order in which the keys of a map are visited *)
  range_keys : gset string -> list string;
  range_keys_ok s : range_keys s ≡ₚ elements s;
}.

Section Keys.
Context {W : Type} `{CsiEnv W}.

Abbreviation MC := (MW (gmap string bool * W)).

Definition sortCSIClientName (clientList : list string) : list string := (sort_clients (W := W) ((fun name => (name, generation name)) <$> clientList)).*1.

Definition AuthList : MC (list string) :=
  output ← wrapM (ceph ["auth"; "ls"]) "failed to list ceph auth ls" [];
  decode (json_auth_list (W := W) output) "failed to unmarshal auth ls response" [].

(** The highest generation and all the clients with the base name. *)
Definition getCsiKeyRotationInfo (keyBaseName : string) : MC (Z * list string) :=
  authList ← AuthList;
  let keyWithBaseName := getMatchingClient authList keyBaseName in
  match last (sortCSIClientName keyWithBaseName) with
  | None => mret (0, keyWithBaseName)
  | Some c =>
      '(_, currentMaxKeyGen) ← wrapM (lift (parseCsiClient c)) "failed to get currentMaxKeyCount from key entity" [];
      mret (currentMaxKeyGen, keyWithBaseName)
  end.

(** The clients that were deleted, up to the first failure. *)
Fixpoint delete_clients (count : Z) (l : list string) : MC (list string * option gerror) :=
  match l with
  | [] => mret ([], None)
  | c :: l =>
      r ← try_ (AuthDelete c);
      match r with
      | Err err => mret ([], Some (Wrapf err "failed to delete CSI key %s more than keepPriorCount %d" [c; Itoa count]))
      | Ok _ => '(deleted, err) ← delete_clients count l; mret (c :: deleted, err)
      end
  end.

Definition deleteOldKeyGen (allKeyWithBaseName : list string) (count : Z) : MC (list string * option gerror) :=
  let sortedClientList := sortCSIClientName allKeyWithBaseName in
  if (length sortedClientList <? 2)%nat then mret ([], None)
  else delete_clients count (take (Z.to_nat (deleteCount (Z.of_nat (length sortedClientList)) count)) sortedClientList).

(** The client must exist: its key is read, or it is created. *)
Definition ensure_client (version : CephVersion) (cfg : CephxConfig) (latestClientId : string) (keyCaps : list string) : MC string :=
  r ← try_ (AuthGetKey latestClientId);
  match r with
  | Err _ => wrapM (AuthGetOrCreateKey version latestClientId (cfg_KeyType cfg) keyCaps) "failed to create CSI client %q key" [latestClientId]
  | Ok key => _ ← wrapM (AuthUpdateCaps latestClientId keyCaps) "failed to update caps for CSI client %q key" [latestClientId]; mret key
  end.

(** The recorded generation can be out of step with the clients that exist; theirs counts. *)
Definition interpreted_status (status : CephxStatus) (currentMaxKeyGen : Z) : CephxStatus :=
  {| KeyGeneration := currentMaxKeyGen mod 2 ^ 32; KeyCephVersion := KeyCephVersion status; KeyType := KeyType status |}.

(** Client, key, number of keys, and whether there was a rotation. *)
Definition createCSIKeyring (version : CephVersion) (ns : string) (cluster : CsiCephx) (csiKeyringName : string) (keyCaps : list string) :
    MC (string * string * Z * bool) :=
  let cfg := csi_Config cluster in
  '(currentMaxKeyGen, allKeyWithBaseName) ← wrapM (getCsiKeyRotationInfo csiKeyringName) "failed to determine key rotation info for CSI key %s" [csiKeyringName];
  let interpretedCephxStatus := interpreted_status (csi_Status cluster) currentMaxKeyGen in
  allow ← silent (on_env env_allow_map);
  shouldRotate ← wrapM (lift (ShouldRotateCephxKeys allow cfg version version interpretedCephxStatus false ns))
                   "failed to call `shouldRotateCephxKeys` during CSI key rotation" [];
  let desiredCephxStatus := UpdatedCephxStatus shouldRotate cfg version interpretedCephxStatus (cfg_KeyType cfg) in
  let latestClientId := generateCsiUserIdWithGenerationSuffix csiKeyringName (KeyGeneration desiredCephxStatus) in
  key ← ensure_client version cfg latestClientId keyCaps;
  let allKeyWithBaseName := deduplicate (allKeyWithBaseName ++ [latestClientId]) in
  '(keysDeleted, _) ← deleteOldKeyGen allKeyWithBaseName (KeepPriorKeyCountMax cluster);
  mret (latestClientId, key, Z.of_nat (length allKeyWithBaseName) - Z.of_nat (length keysDeleted), shouldRotate).

(** ** Secrets *)

Definition put_secret (verb ns name : string) (data : gmap string string) : MC unit :=
  record (WriteSecret verb ns name data) (on_env (env_put_secret verb ns name data)).

Definition CreateSecret (ns secretName : string) (data : gmap string string) : MC unit :=
  r ← try_ (api "get" "Secret" secretName (env_get_secret ns secretName));
  match r with
  | Err err =>
      if IsNotFound err then wrapM (put_secret "create" ns secretName data) "failed to create secret for %s" [secretName]
      else fail (Wrapf err "failed to get secret for %s" [secretName])
  | Ok _ => wrapM (put_secret "update" ns secretName data) "failed to update secret for %s" [secretName]
  end.

Definition secret_data (user key : string) : gmap string string := <["userID" := user]> {["userKey" := key]}.

(** Name and key per secret; a secret that is not in the content is written empty. *)
Definition createOrUpdateCSISecret (ns : string) (csiSecretContent : gmap string (string * string)) : MC unit :=
  let names : gset string := {[CsiRBDProvisionerSecret; CsiRBDNodeSecret; CsiCephFSProvisionerSecret; CsiCephFSNodeSecret]} in
  forM_ (range_keys (W := W) names) (fun secretName =>
    let '(user, key) := default ("", "") (csiSecretContent !! secretName) in
    _ ← wrapM (lift (owner_reference (W := W) secretName)) "failed to set owner reference to keyring secret %q" [secretName];
    wrapM (CreateSecret ns secretName (secret_data user key)) "failed to create kubernetes secret %q for cluster %q" [secretName; ns]).

Definition IsSameOwnerReference (ownerRef resourceRef : string * string * string) : bool :=
  let '(v, kind, name) := ownerRef in
  let '(v', kind', name') := resourceRef in
  match api_group (W := W) v, api_group (W := W) v' with
  | Some g, Some g' => String.eqb g g' && String.eqb kind kind' && String.eqb name name'
  | _, _ => false
  end.

(** A secret without a controller is one of the user. *)
Definition DeleteSecretIfOwnedBy (secretName ns : string) (owner : string * string * string) : MC unit :=
  r ← try_ (api "get" "Secret" secretName (env_secret_owner ns secretName));
  match r with
  | Err err => if IsNotFound err then mret () else fail (Wrapf err "failed to get secret %s" [secretName])
  | Ok None => mret ()
  | Ok (Some secretOwner) =>
      if negb (IsSameOwnerReference secretOwner owner) then mret ()
      else
        d ← try_ (api "delete" "Secret" secretName (env_delete_secret ns secretName));
        match d with
        | Err err => if IsNotFound err then mret () else fail (Wrapf err "failed to delete secret %s" [secretName])
        | Ok _ => mret ()
        end
  end.

Definition deleteOwnedCSISecretsByCephCluster (ns clusterName : string) : MC unit :=
  forM_ [CsiRBDNodeSecret; CsiRBDProvisionerSecret; CsiCephFSNodeSecret; CsiCephFSProvisionerSecret] (fun secretName =>
    wrapM (DeleteSecretIfOwnedBy secretName ns ("ceph.rook.io/v1", "CephCluster", clusterName)) "failed to delete secret %q" [secretName]).

(** ** The status, and the whole *)

Definition get_csi_cephx (ns name : string) : MC CsiCephx := record (GetCsiCephx ns name) (on_env (env_get_csi_cephx ns name)).

Definition set_cephx_once (ns name : string) (cephxStatus : CephxStatus) (currentKeyCount : Z) : MC unit :=
  r ← try_ (get_csi_cephx ns name);
  match r with
  | Err err => if IsNotFound err then mret () else fail (Wrapf err "failed to retrieve cephCluster %q to update CSICephxStatus" [ns])
  | Ok cluster =>
      let new := {| csi_Config := csi_Config cluster; KeepPriorKeyCountMax := KeepPriorKeyCountMax cluster; csi_Status := cephxStatus;
                    PriorKeyCount := getPriorKeyCount currentKeyCount mod 2 ^ 8 |} in
      wrapM (record (SetCsiCephx ns name new) (on_env (env_set_csi_cephx ns name new)))
        "failed to update cephCluster %q to update csi cephx status to %+v in namespace %q" [name; ns]
  end.

Definition updateCephStatusWithCephxStatus (version : CephVersion) (ns name : string) (cluster : CsiCephx) (didRotate : bool) (currentKeyCount : Z) : MC unit :=
  let cfg := csi_Config cluster in
  let cephxStatus := UpdatedCephxStatus didRotate cfg version (csi_Status cluster) (cfg_KeyType cfg) in
  wrapM (RetryOnConflict 4 (set_cephx_once ns name cephxStatus currentKeyCount))
    "failed to get and update Ceph cluster %q status in namespace %q when updating csi cephx status" [name; ns].

Definition create_csi_secrets (version : CephVersion) (ns name : string) (cluster : CsiCephx) : MC unit :=
  '(rbdProvName, rbdProvKey, rbdProvKeyCount, didRotateRbdProvisioner) ←
     wrapM (createCSIKeyring version ns cluster csiKeyringRBDProvisionerUsername cephCSIKeyringRBDProvisionerCaps)
       "failed to create csi rbd provisioner ceph keyring" [];
  '(rbdNodeName, rbdNodeKey, rbdNodeKeyCount, didRotateRbdNode) ←
     wrapM (createCSIKeyring version ns cluster csiKeyringRBDNodeUsername cephCSIKeyringRBDNodeCaps) "failed to create csi rbd node ceph keyring" [];
  '(cFSProvName, cFSProvKey, cFSProvKeyCount, didRotateCephFsProvisioner) ←
     wrapM (createCSIKeyring version ns cluster csiKeyringCephFSProvisionerUsername cephCSIKeyringCephFSProvisionerCaps)
       "failed to create csi cephfs provisioner ceph keyring" [];
  '(cFSNodeName, cFSNodeKey, cFSNodeKeyCount, didRotateCephFsNode) ←
     wrapM (createCSIKeyring version ns cluster csiKeyringCephFSNodeUsername cephCSIKeyringCephFSNodeCaps) "failed to create csi cephfs node ceph keyring" [];
  let csiSecretContent : gmap string (string * string) :=
    <[CsiRBDProvisionerSecret := (MonStore.TrimPrefix rbdProvName "client.", rbdProvKey)]>
    (<[CsiRBDNodeSecret := (MonStore.TrimPrefix rbdNodeName "client.", rbdNodeKey)]>
    (<[CsiCephFSProvisionerSecret := (MonStore.TrimPrefix cFSProvName "client.", cFSProvKey)]>
    {[CsiCephFSNodeSecret := (MonStore.TrimPrefix cFSNodeName "client.", cFSNodeKey)]})) in
  _ ← wrapM (createOrUpdateCSISecret ns csiSecretContent) "failed to create kubernetes csi secret" [];
  updateCephStatusWithCephxStatus version ns name cluster
    (didRotateRbdProvisioner || didRotateRbdNode || didRotateCephFsProvisioner || didRotateCephFsNode)
    (Z.max rbdProvKeyCount (Z.max rbdNodeKeyCount (Z.max cFSProvKeyCount cFSNodeKeyCount))).

Definition CreateCSISecrets (version : CephVersion) (SkipUserCreation : bool) (ns name : string) : MC unit :=
  if SkipUserCreation then deleteOwnedCSISecretsByCephCluster ns name
  else
    r ← try_ (get_csi_cephx ns name);
    match r with
    | Err err => if IsNotFound err then mret () else fail (Wrapf err "failed to retrieve cephCluster %q to generate CSICephx keys" [ns])
    | Ok cluster => create_csi_secrets version ns name cluster
    end.

End Keys.

End CsiKeys.
