(* ===== verification/RadosNamespace.v ===== *)
(** * RadosNamespace: the controller of the rados namespaces of block pools

    Models [pkg/operator/ceph/pool/radosnamespace/controller.go].  Like the controller of block pools it
    keeps a monitor of the mirroring per namespace; which of them run is part of the world. *)

From stdpp Require Import base gmap strings list fin_maps.
From Stdlib Require Import ZArith Ascii.
From S2P Require Import Prelude Names CephVersion Upgrade Cephx OsdBase Pools BlockPool FsClient Mds.
Import Log Version Cephx Pools BlockPool FsClient Mds.
Open Scope Z_scope.

Module RadosNamespace.

Class NamespaceEnv (W : Type) := {
  namespace_fs :: FsEnv W;
  env_get_namespace : string -> string -> M W CephBlockPoolRadosNamespace;
  (** by the index of the pool and the name of the namespace *)
  env_find_namespaces : string -> string -> M W (list CephBlockPoolRadosNamespace);
  env_update_namespace_status : CephBlockPoolRadosNamespace -> M W unit;
  env_add_namespace_finalizer : CephBlockPoolRadosNamespace -> M W bool;
  env_remove_namespace_finalizer : CephBlockPoolRadosNamespace -> M W unit;
  (** the condition that says whether the deletion is blocked by images *)
  env_namespace_condition : CephBlockPoolRadosNamespace -> bool -> M W unit;
  (** [csi.CreateUpdateClientProfileRadosNamespace] *)
  env_namespace_profile : string -> string -> M W unit;
  (** [go checker.CheckMirroring], and the mirroring part of the status *)
  env_start_namespace_monitor : string -> M W unit;
  env_reset_namespace_mirroring : string -> M W unit;
}.

Definition isCSIRBDSecret (name : string) : bool := HasPrefix name "rook-csi-rbd-provisioner" || HasPrefix name "rook-csi-rbd-node".

(** Resources are indexed by their pool and their name in Ceph. *)
Definition namespace_index (n : CephBlockPoolRadosNamespace) : string := rns_BlockPoolName n +:+ "/" +:+ GetRadosNamespaceName n.

(** The implicit namespace of a pool is named like the pool. *)
Definition poolAndRadosNamespaceName (n : CephBlockPoolRadosNamespace) : string :=
  if String.eqb (GetRadosNamespaceName n) "" then rns_BlockPoolName n else namespace_index n.

(** Its callers pass the two names in the other order. *)
Definition radosNamespaceChannelKeyName (name namespace : string) : string := namespace +:+ "/" +:+ name.

Definition channel_key (n : CephBlockPoolRadosNamespace) (ns : string) : string := radosNamespaceChannelKeyName ns (poolAndRadosNamespaceName n).

Definition buildClusterID (n : CephBlockPoolRadosNamespace) : string :=
  if negb (String.eqb (rns_ClusterID n) "") then rns_ClusterID n
  else ObjectName.Hash (rns_Namespace n +:+ "-" +:+ rns_BlockPoolName n +:+ "-block-" +:+ GetRadosNamespaceName n).

Definition set_namespace_status (n : CephBlockPoolRadosNamespace) (s : string * string * gmap string string) : CephBlockPoolRadosNamespace :=
  {| rns_Namespace := rns_Namespace n; rns_Name := rns_Name n; rns_Deleted := rns_Deleted n; rns_Annotations := rns_Annotations n;
     rns_SpecName := rns_SpecName n; rns_BlockPoolName := rns_BlockPoolName n; rns_Mirroring := rns_Mirroring n;
     rns_ClusterID := rns_ClusterID n; rns_Status := Some s |}.

Definition checkBlockPoolMirroring (p : CephBlockPool) : bool := negb (mirror_Enabled (Mirroring (bp_Spec p))).

Section Controller.
Context {W : Type} `{NamespaceEnv W}.

Abbreviation MC := (MW (gmap string bool * W)).

Definition get_namespace (ns name : string) : MC CephBlockPoolRadosNamespace := record (GetNamespace ns name) (on_env (env_get_namespace ns name)).

Definition find_namespaces (ns index : string) : MC (list CephBlockPoolRadosNamespace) :=
  record (FindNamespaces ns index) (on_env (env_find_namespaces ns index)).

(** ** Status *)

Definition set_namespace_status_once (ns name status message : string) : MC unit :=
  r ← try_ (get_namespace ns name);
  match r with
  | Err err =>
      if IsNotFound err then mret ()
      else fail (Wrapf err "failed to retrieve ceph blockpool rados namespace %q to update status to %q" [name; status])
  | Ok n =>
      let new := set_namespace_status n (status, message, {["clusterID" := buildClusterID n]}) in
      wrapM (record (SetNamespaceStatus new) (on_env (env_update_namespace_status new)))
        "failed to set ceph blockpool rados namespace %q status to %q" [name; status]
  end.

(** An error is only logged. *)
Definition update_namespace_status (ns name status message : string) : MC unit :=
  _ ← try_ (RetryOnConflict 4 (set_namespace_status_once ns name status message)); mret ().

(** ** Creation and deletion *)

(** The implicit namespace is always there. *)
Definition createOrUpdateRadosNamespace (n : CephBlockPoolRadosNamespace) : MC unit :=
  if String.eqb (GetRadosNamespaceName n) "" then mret ()
  else wrapM (CreateRadosNamespace (rns_BlockPoolName n) (GetRadosNamespaceName n)) "failed to create ceph blockpool rados namespace %q" [rns_Name n].

(** The settings of the job that removes the images of a namespace. *)
Definition namespace_cleanup_config (n : CephBlockPoolRadosNamespace) : gmap string string :=
  <["BLOCKPOOL_NAME" := rns_BlockPoolName n]> {["RADOS_NAMESPACE" := GetRadosNamespaceName n]}.

Definition cleanup_namespace (n : CephBlockPoolRadosNamespace) : MC unit :=
  let jobName := ObjectName.TruncateNodeNameForJob "cleanup-radosnamespace-%s" (rns_BlockPoolName n +:+ "-" +:+ rns_Name n) in
  wrapM (api "cleanup" "Job" jobName (env_start_cleanup "CephBlockPoolRadosNamespace" jobName (namespace_cleanup_config n)))
    "failed to run clean up job to clean the ceph resources in radosNamespace %q" [rns_Name n].

(** Whether the namespace holds images, and the error. *)
Definition deleteRadosNamespace (n : CephBlockPoolRadosNamespace) : MC (bool * option gerror) :=
  let name := GetRadosNamespaceName n in
  if String.eqb name "" then mret (false, None)
  else
    '(containsImages, deleteErr) ← DeleteRadosNamespace (rns_BlockPoolName n) name;
    _ ← try_ (api "condition" "CephBlockPoolRadosNamespace" (rns_Name n) (env_namespace_condition n containsImages));
    cleanupErr ← (if containsImages && ForceDeleteRequested (rns_Annotations n) then try_ (cleanup_namespace n) else mret (Ok ()));
    match cleanupErr, deleteErr with
    | Err err, _ => mret (containsImages, Some (Wrapf err "failed to create clean up job for rados namespace %q" [rns_Name n]))
    | Ok _, Some err => mret (containsImages, Some (Wrapf err "failed to delete rados namespace %q" [rns_Name n]))
    | Ok _, None => mret (false, None)
    end.

(** ** Mirroring *)

Definition reset_namespace_mirroring (n : CephBlockPoolRadosNamespace) : MC unit :=
  _ ← try_ (api "mirroring" "CephBlockPoolRadosNamespace" (rns_Name n) (env_reset_namespace_mirroring (rns_Name n))); mret ().

Definition enable_mirroring (version : CephVersion) (n : CephBlockPoolRadosNamespace) (p : CephBlockPool) (m : RadosNamespaceMirroring) : MC unit :=
  let name := poolAndRadosNamespaceName n in
  let key := channel_key n (bp_Namespace p) in
  if checkBlockPoolMirroring p
  then fail (Errorf "mirroring is disabled for block pool %q, cannot enable mirroring for radosnamespace %q" [bp_Name p; name])
  else
    _ ← wrapM (EnableRBDRadosNamespaceMirroring version name (RemoteNamespace m) (rnm_Mode m)) "failed to enable rbd rados namespace mirroring" [];
    _ ← wrapM (EnableSnapshotSchedules name (rnm_SnapshotSchedules m)) "failed to enable snapshot scheduling for rbd rados namespace %q" [name];
    if MirrorCheckDisabled (bp_Spec p) then mret ()
    else
      contexts ← get_contexts;
      if default false (contexts !! key) then mret ()
      else
        _ ← set_contexts (<[key := true]> contexts);
        _ ← try_ (api "monitor" "CephBlockPoolRadosNamespace" (rns_Name n) (env_start_namespace_monitor name)); mret ().

Definition disable_mirroring (n : CephBlockPoolRadosNamespace) (mode : string) : MC unit :=
  let name := poolAndRadosNamespaceName n in
  if String.eqb mode "disabled" then mret ()
  else
    _ ← (if String.eqb mode "image" then
           images ← wrapM (GetMirroredPoolImages name) "failed to list mirrored images for radosnamespace %q" [name];
           match images with
           | [] => mret ()
           | _ => fail (Errorf "there are images in the radosnamespace %q. Please manually disable mirroring for each image" [name])
           end
         else mret ());
    wrapM (DisableRBDRadosNamespaceMirroring name) "failed to disable rbd rados namespace mirroring" [].

Definition reconcileMirroring (version : CephVersion) (n : CephBlockPoolRadosNamespace) (p : CephBlockPool) : MC unit :=
  let name := poolAndRadosNamespaceName n in
  let key := channel_key n (bp_Namespace p) in
  mirrorInfo ← wrapM (GetPoolMirroringInfo name) "failed to get mirroring info for the radosnamespace %q" [name];
  contexts ← get_contexts;
  let existed := bool_decide (is_Some (contexts !! key)) in
  _ ← (if existed then mret () else set_contexts (<[key := false]> contexts));
  _ ← match rns_Mirroring n with
      | Some m => enable_mirroring version n p m
      | None => disable_mirroring n (info_Mode mirrorInfo)
      end;
  if MirrorCheckDisabled (bp_Spec p) || (checkBlockPoolMirroring p && bool_decide (rns_Mirroring n = None)) then
    contexts ← get_contexts;
    _ ← (if existed && default false (contexts !! key) then cancelMirrorMonitoring key else mret ());
    reset_namespace_mirroring n
  else mret ().

(** ** The reconcile *)

Definition remove_namespace_finalizer (n : CephBlockPoolRadosNamespace) : MC unit :=
  wrapM (api "remove-finalizer" "CephBlockPoolRadosNamespace" (rns_Name n) (env_remove_namespace_finalizer n)) "failed to remove finalizer" [].

(** Of several resources of the same namespace only the last one deletes it. *)
Definition reconcile_namespace_deletion (ns : string) (n : CephBlockPoolRadosNamespace) (cluster : CephCluster) : MC (Result * option gerror) :=
  let finish := or_return Done (remove_namespace_finalizer n) (fun _ => mret (Done, None)) in
  or_return Done (wrapM (find_namespaces ns (namespace_index n)) "failed to list cephBlockPoolRadosNamespace" []) (fun same =>
  if cl_External cluster then finish
  else if (length same <=? 1)%nat then
    '(containsImages, err) ← deleteRadosNamespace n;
    match err with
    | Some err =>
        if (containsImages : bool) then mret (WaitForRequeueIfFinalizerBlocked, Some err)
        else if not_initialized (W := W) err then mret (WaitForRequeueIfOperatorNotInitialized, None)
        else mret (Done, Some (Wrapf err "failed to delete ceph blockpool rados namespace %q" [rns_Name n]))
    | None => _ ← cancelMirrorMonitoring (channel_key n (rns_Namespace n)); finish
    end
  else finish).

(** The pool must be there and ready; waiting for it is not an error. *)
Definition create_namespace (version : CephVersion) (ns name : string) (n : CephBlockPoolRadosNamespace) : MC (Result * option gerror) :=
  r ← try_ (get_pool ns (rns_BlockPoolName n));
  match r with
  | Err err =>
      if IsNotFound err
      then mret (Done, Some (Wrapf err "failed to fetch ceph blockpool %q, cannot create rados namespace %q" [rns_BlockPoolName n; rns_Name n]))
      else mret (Done, Some (Wrapf err "failed to get cephBlockPoolRadosNamespace" []))
  | Ok p =>
      if match bp_Status p with Some s => negb (String.eqb (Phase s) ConditionReady) | None => true end
      then mret ({| Requeue := true; RequeueAfter := 10 |},
                 Wrapf_opt None "failed to fetch ceph blockpool %q, cannot create rados namespace %q" [rns_BlockPoolName n; rns_Name n])
      else
        c ← try_ (createOrUpdateRadosNamespace n);
        match c with
        | Err err =>
            if not_initialized (W := W) err then mret (WaitForRequeueIfOperatorNotInitialized, None)
            else
              _ ← update_namespace_status ns name ConditionFailure "Failed to create the rados namespace. See the operator log for details.";
              mret (Done, Some (Wrapf err "failed to create or update ceph pool rados namespace %q" [rns_Name n]))
        | Ok _ =>
            or_return Done (reconcileMirroring version n p) (fun _ =>
            _ ← update_namespace_status ns name ConditionReady "Rados namespace configured successfully";
            mret (Done, None))
        end
  end.

Definition reconcile_namespace_creation (version : CephVersion) (ns name : string) (n : CephBlockPoolRadosNamespace) (cluster : CephCluster) :
    MC (Result * option gerror) :=
  if cl_External cluster then
    _ ← update_namespace_status ns name ConditionReady "Rados namespace configured successfully";
    or_return Done (wrapM (api "profile" "ClientProfile" (rns_Name n) (env_namespace_profile (GetRadosNamespaceName n) (buildClusterID n)))
                      "failed to create ceph csi-op config CR for RadosNamespace" []) (fun _ => mret (Done, None))
  else
    (* mirroring needs the version of the image *)
    or_return ImmediateRetryResult
      (match rns_Mirroring n with
       | Some _ => wrapM (lift (GetImageVersion cluster)) "failed to fetch ceph version from cephcluster %q running in namespace %q" []
       | None => mret version
       end)
      (fun version => create_namespace version ns name n).

Definition reconcile_namespace (ns name : string) (n : CephBlockPoolRadosNamespace) : MC (Result * option gerror) :=
  '(cluster, isReady, clusterExists, response) ← IsReadyToReconcile ns;
  match cluster, isReady with
  | Some cluster, true =>
      or_return Done (wrapM (api "load" "ClusterInfo" ns (env_load_cluster_info ns)) "failed to populate cluster info" []) (fun _ =>
      or_return Done (wrapM (Upgrade.LeastUptodateDaemonVersion "osd") "failed to retrieve current ceph %q version" ["osd"]) (fun version =>
      if rns_Deleted n then reconcile_namespace_deletion ns n cluster else reconcile_namespace_creation version ns name n cluster))
  | _, _ =>
      if rns_Deleted n && negb clusterExists then
        _ ← cancelMirrorMonitoring (channel_key n (rns_Namespace n));
        or_return ImmediateRetryResult (remove_namespace_finalizer n) (fun _ => mret (Done, None))
      else mret (response, None)
  end.

Definition reconcile_radosnamespace (ns name : string) : MC (Result * option gerror) :=
  r ← try_ (get_namespace ns name);
  match r with
  | Err err =>
      if IsNotFound err then mret (Done, None) else mret (Done, Some (Wrapf err "failed to get cephBlockPoolRadosNamespace" []))
  | Ok n =>
      or_return Done (wrapM (api "add-finalizer" "CephBlockPoolRadosNamespace" name (env_add_namespace_finalizer n)) "failed to add finalizer" []) (fun updated =>
      if (updated : bool) then mret (Done, None)
      else
        _ ← match rns_Status n with
            | None => update_namespace_status ns name ConditionProgressing "Initializing rados namespace"
            | Some _ => mret ()
            end;
        reconcile_namespace ns name n)
  end.

End Controller.

End RadosNamespace.
