(* ===== verification/Cleanup.v ===== *)
(** * Cleanup: the jobs that remove what a resource holds

    Models [pkg/daemon/ceph/cleanup/radosnamespace.go] and [subvolumegroups.go] with what they use of
    [pkg/daemon/ceph/client]: [image.go], the OMAP and subvolume commands of [subvolumegroup.go] and
    [Blocklist] of [osd.go]; and the commands [rook ceph clean] of [cmd/rook/ceph/cleanup.go] that start
    them with the settings of the job.

    The jobs are started by the controllers of files BlockPool, RadosNamespace and SubVolume. *)

From stdpp Require Import base gmap strings list fin_maps.
From Stdlib Require Import ZArith Ascii.
From S2P Require Import Prelude Pools BlockPool FsClient.
Import Log Pools BlockPool FsClient.
Open Scope Z_scope.

Module Cleanup.

(** ** Images ([image.go]) *)

Record CephBlockImage := { image_ID : string; image_Name : string }.

Class CleanupEnv (W : Type) := {
  cleanup_fs :: FsEnv W;
  json_images : string -> option (list CephBlockImage);
  (** the names that were decoded, and whether the decoding failed *)
  json_snapshots : string -> list string * bool;
  (** the addresses of the watchers *)
  json_watchers : string -> option (list string);
  (** the order in which a set is visited *)
  range_set : gset string -> list string;
  range_set_ok s : range_set s ≡ₚ elements s;
}.

(** [s] up to the last [c]. *)
Fixpoint upto_last (c : ascii) (s : string) : option string :=
  match s with
  | "" => None
  | String d s =>
      match upto_last c s with
      | Some t => Some (String d t)
      | None => if Ascii.eqb d c then Some (String d "") else None
      end
  end.

(** What the regular expression captures: of the first line that starts with an opening bracket and has a
    closing one, what is up to the last closing one. *)
Fixpoint json_line (lines : list string) : option string :=
  match lines with
  | [] => None
  | String "[" rest :: lines => match upto_last "]" rest with Some t => Some (String "[" t) | None => json_line lines end
  | _ :: lines => json_line lines
  end.

Definition newline : ascii := "010".

Definition getImageSpec (name poolName : string) : string := poolName +:+ "/" +:+ name.

Definition getImageSpecInRadosNamespace (poolName namespace imageID : string) : string :=
  if String.eqb namespace "" then poolName +:+ "/" +:+ imageID else poolName +:+ "/" +:+ namespace +:+ "/" +:+ imageID.

Definition getImageSnapshotSpec (poolName imageName snapshot : string) : string := poolName +:+ "/" +:+ imageName +:+ "@" +:+ snapshot.

Definition in_namespace (args : list string) (namespace : string) : list string :=
  args ++ (if String.eqb namespace "" then [] else ["--namespace"; namespace]).

Definition list_images_args (poolName namespace : string) : list string := in_namespace ["ls"; "-l"; poolName] namespace.

Definition list_snaps_args (poolName imageName namespace : string) : list string :=
  in_namespace ["snap"; "ls"; getImageSpec imageName poolName] namespace.

Definition rm_snap_args (poolName imageName snapshot namespace : string) : list string :=
  in_namespace ["snap"; "rm"; getImageSnapshotSpec poolName imageName snapshot] namespace.

Definition trash_args (poolName imageName namespace : string) : list string :=
  in_namespace ["trash"; "mv"; getImageSpec imageName poolName] namespace.

Definition purge_args (poolName imageID namespace : string) : list string :=
  ["rbd"; "task"; "add"; "trash"; "remove"; getImageSpecInRadosNamespace poolName namespace imageID].

Definition status_args (poolName imageName namespace : string) : list string :=
  in_namespace ["status"; getImageSpec imageName poolName] namespace.

(** In seconds. *)
Definition ClientBlocklistDuration : string := "1200".

Definition blocklist_args (address : string) : list string := ["osd"; "blocklist"; "add"; address; ClientBlocklistDuration].

Section Jobs.
Context {W : Type} `{CleanupEnv W}.

Abbreviation MC := (MW (gmap string bool * W)).

Definition run_rbd (args : list string) (fmt : string) (names : list string) : MC unit := _ ← wrapM (rbd args) fmt names; mret ().

Definition ListImagesInRadosNamespace (poolName namespace : string) : MC (list CephBlockImage) :=
  buf ← wrapM (rbd (list_images_args poolName namespace)) "failed to list images for pool %s" [poolName];
  match json_line (split_byte newline buf) with
  | None => mret []
  | Some text => decode (json_images (W := W) text) "unmarshal failed, raw buffer response: %s" [text]
  end.

Definition ListImagesInPool (poolName : string) : MC (list CephBlockImage) := ListImagesInRadosNamespace poolName "".

(** With the error, what was decoded of the names. *)
Definition ListSnapshotsInRadosNamespace (poolName imageName namespace : string) : MC (list string * option gerror) :=
  r ← try_ (rbd (list_snaps_args poolName imageName namespace));
  match r with
  | Err err => mret ([], Some (Wrapf err "failed to list snapshots of image %q in cephblockpool %q" [imageName; poolName]))
  | Ok buf =>
      let '(snapshots, failed) := json_snapshots (W := W) buf in
      mret (snapshots, if failed then Some (Errorf "unmarshal failed, raw buffer response: %s" [buf]) else None)
  end.

Definition DeleteSnapshotInRadosNamespace (poolName imageName snapshot namespace : string) : MC unit :=
  run_rbd (rm_snap_args poolName imageName snapshot namespace) "failed to delete snapshot %q of image %q in cephblockpool %q" [snapshot; imageName; poolName].

Definition MoveImageToTrashInRadosNamespace (poolName imageName namespace : string) : MC unit :=
  run_rbd (trash_args poolName imageName namespace) "failed to move image %q in cephblockpool %q to trash" [imageName; poolName].

Definition DeleteImageFromTrashInRadosNamespace (poolName imageID namespace : string) : MC unit :=
  wrapM (run (purge_args poolName imageID namespace)) "failed to delete image %q in cephblockpool %q from trash" [imageID; poolName].

Definition DeleteImageInRadosNamespace (name poolName namespace : string) : MC unit :=
  run_rbd (in_namespace ["rm"; getImageSpec name poolName] namespace) "failed to delete image %s in pool %s, output: %s" [name; poolName].

Definition DeleteImageInPool (name poolName : string) : MC unit := DeleteImageInRadosNamespace name poolName "".

(** The watchers of an image. *)
Definition GetRBDImageStatus (poolName imageName namespace : string) : MC (list string) :=
  buf ← wrapM (rbd (status_args poolName imageName namespace)) "failed to get status of the image %q in cephblockpool %q" [imageName; poolName];
  decode (json_watchers (W := W) buf) "failed to unmarshal rbd status output" [].

Definition Blocklist (address : string) : MC unit := wrapM (run (blocklist_args address)) "failed to blockist client %q" [address].

(** ** The images of a pool or of a rados namespace ([radosnamespace.go]) *)

Fixpoint get_clients (poolName radosNamespace : string) (images : list CephBlockImage) (clientSet : gset string) : MC (gset string) :=
  match images with
  | [] => mret clientSet
  | image :: images =>
      clients ← wrapM (GetRBDImageStatus poolName (image_Name image) radosNamespace) "failed to list watchers for the image %q in %s"
                  [image_Name image; radosNamespace];
      get_clients poolName radosNamespace images (list_to_set clients ∪ clientSet)
  end.

Definition getClients (images : list CephBlockImage) (poolName radosNamespace : string) : MC (gset string) :=
  get_clients poolName radosNamespace images ∅.

Definition blocklistClients (images : list CephBlockImage) (poolName radosNamespace : string) : MC unit :=
  clients ← wrapM (getClients images poolName radosNamespace) "failed to get clients for all the images in pool %q in namespace %q" [poolName; radosNamespace];
  forM_ (range_set (W := W) clients) (fun client =>
    wrapM (Blocklist client) "failed to blocklist client %q in pool %q in namespace %q" [client; poolName; radosNamespace]).

(** An error is kept, in place of an earlier one, and the job goes on. *)
Definition note (m : MC unit) (fmt : string) (args : list string) (retErr : option gerror) : MC (option gerror) :=
  r ← try_ (wrapM m fmt args); mret (match r with Ok _ => retErr | Err err => Some err end).

Fixpoint delete_snapshots (poolName radosNamespace imageName : string) (snaps : list string) (retErr : option gerror) : MC (option gerror) :=
  match snaps with
  | [] => mret retErr
  | snap :: snaps =>
      retErr ← note (DeleteSnapshotInRadosNamespace poolName imageName snap radosNamespace) "failed to delete snapshot %q of the image %q in %s"
                 [snap; imageName] retErr;
      delete_snapshots poolName radosNamespace imageName snaps retErr
  end.

Definition cleanup_image (poolName radosNamespace : string) (image : CephBlockImage) (retErr : option gerror) : MC (option gerror) :=
  let name := image_Name image in
  '(snaps, err) ← ListSnapshotsInRadosNamespace poolName name radosNamespace;
  let retErr := match err with Some e => Some (Wrapf e "failed to list snapshots for the image %q in %s" [name]) | None => retErr end in
  retErr ← delete_snapshots poolName radosNamespace name snaps retErr;
  retErr ← note (MoveImageToTrashInRadosNamespace poolName name radosNamespace) "failed to move image %q to trash in %s" [name] retErr;
  note (DeleteImageFromTrashInRadosNamespace poolName (image_ID image) radosNamespace) "failed to add task to remove image %q from trash in %s" [name] retErr.

Fixpoint cleanup_each (poolName radosNamespace : string) (images : list CephBlockImage) (retErr : option gerror) : MC (option gerror) :=
  match images with
  | [] => mret retErr
  | image :: images => retErr ← cleanup_image poolName radosNamespace image retErr; cleanup_each poolName radosNamespace images retErr
  end.

Definition returned (retErr : option gerror) : MC unit := match retErr with None => mret () | Some err => fail err end.

Definition cleanupImages (poolName radosNamespace : string) : MC unit :=
  images ← wrapM (ListImagesInRadosNamespace poolName radosNamespace) "failed to list images in %s" [poolName; radosNamespace];
  _ ← wrapM (blocklistClients images poolName radosNamespace) "failed to add clients to the blocklist" [];
  retErr ← cleanup_each poolName radosNamespace images None;
  returned retErr.

Definition RadosNamespaceCleanup (poolName radosNamespace : string) : MC unit := cleanupImages poolName radosNamespace.

Definition BlockPoolCleanup (poolName : string) : MC unit := cleanupImages poolName "".

(** ** The subvolumes of a group ([subvolumegroups.go]) *)

(** What follows the second dash; [SplitAfterN] keeps the separators in the parts before it. *)
Definition getOMAPValue (subVol : string) : string :=
  match after_byte "-" subVol ≫= after_byte "-" with Some subvol_id => "csi.volume." +:+ subvol_id | None => "" end.

Definition rados (args : list string) : MC string := tool ("rados" :: args).

Definition get_omap_args (omapObj poolName namespace : string) : list string :=
  ["getomapval"; omapObj; "csi.volname"; "-p"; poolName; "--namespace"; namespace; "/dev/stdout"].

Definition rm_omap_args (omapValue poolName namespace : string) : list string := ["rm"; omapValue; "-p"; poolName; "--namespace"; namespace].

Definition rm_key_args (omapKey poolName namespace : string) : list string :=
  ["rmomapkey"; "csi.volumes.default"; omapKey; "-p"; poolName; "--namespace"; namespace].

(** The name of the volume is on the second of two lines. *)
Definition omap_key (resp : string) : string :=
  match split_byte newline resp with
  | [_; pvcName] => if String.eqb pvcName "" then "" else "ceph.volume." +:+ pvcName
  | _ => ""
  end.

Definition GetOMAPKey (omapObj poolName namespace : string) : MC string :=
  buf ← wrapM (rados (get_omap_args omapObj poolName namespace)) "failed to list omapKeys for omapObj %q" [omapObj];
  mret (omap_key buf).

Definition DeleteOmapValue (omapValue poolName namespace : string) : MC unit :=
  _ ← wrapM (rados (rm_omap_args omapValue poolName namespace)) "failed to delete omap value %q in pool %q" [omapValue; poolName]; mret ().

Definition DeleteOmapKey (omapKey poolName namespace : string) : MC unit :=
  _ ← wrapM (rados (rm_key_args omapKey poolName namespace)) "failed to delete omapKey %q in pool %q" [omapKey; poolName]; mret ().

Definition CleanUpOMAPDetails (objName poolName namespace : string) : MC unit :=
  let omapValue := getOMAPValue objName in
  if String.eqb omapValue "" then fail (Errorf "failed to get OMAP value for object %q" [objName])
  else
    omapKey ← wrapM (GetOMAPKey omapValue poolName namespace) "failed to get OMAP key for omapObj %q. %v" [omapValue];
    _ ← wrapM (DeleteOmapValue omapValue poolName namespace) "failed to delete OMAP value %q. %v" [omapValue];
    if String.eqb omapKey "" then mret ()
    else wrapM (DeleteOmapKey omapKey poolName namespace) "failed to delete OMAP key %q. %v" [omapKey].

Definition rm_subvolume_args (fs subvol svg : string) : list string := ["fs"; "subvolume"; "rm"; fs; subvol; svg; "--force"].

Definition rm_subvolume_snap_args (fs subvol svg snap : string) : list string :=
  ["fs"; "subvolume"; "snapshot"; "rm"; fs; subvol; snap; "--group_name"; svg].

Definition cancel_clone_args (fs svg clone : string) : list string := ["fs"; "clone"; "cancel"; fs; clone; "--group_name"; svg].

Definition DeleteSubVolume (fs subvol svg : string) : MC unit :=
  wrapM (run (rm_subvolume_args fs subvol svg)) "failed to delete subvolume %q in filesystem %q" [subvol; fs].

Definition DeleteSubvolumeSnapshot (fs subvol svg snap : string) : MC unit :=
  wrapM (run (rm_subvolume_snap_args fs subvol svg snap)) "failed to delete subvolume %q in filesystem %q" [subvol; fs].

Definition CancelSnapshotClone (fs svg clone : string) : MC unit :=
  wrapM (run (cancel_clone_args fs svg clone)) "failed to cancel clone %q in filesystem %q in group %q" [clone; fs; svg].

Definition CancelPendingClones (snapshots : list string) (fsName subvol svg : string) : MC unit :=
  forM_ snapshots (fun snapshot =>
    pendingClones ← wrapM (listSubVolumeSnapshotPendingClones fsName subvol snapshot svg) "failed to list all the pending clones for snapshot %q" [snapshot];
    forM_ pendingClones (fun pendingClone =>
      wrapM (CancelSnapshotClone fsName svg pendingClone) "failed to cancel the pending clone %q for snapshot %q" [pendingClone; snapshot])).

Definition DeleteSubVolumeSnapshots (snapshots : list string) (fsName subvol svg : string) : MC unit :=
  forM_ snapshots (fun snapshot =>
    wrapM (DeleteSubvolumeSnapshot fsName subvol svg snapshot) "failed to delete snapshot %q for subvolume %q in group %q. %v" [snapshot; subvol; svg]).

Definition cleanup_subvolume (fsName svg poolName csiNamespace subVolume : string) (retErr : option gerror) : MC (option gerror) :=
  retErr ← note (CleanUpOMAPDetails subVolume poolName csiNamespace) "failed to clean up OMAP details for the subvolume %q." [subVolume] retErr;
  r ← try_ (listSubVolumeSnapshots fsName subVolume svg);
  retErr ← match r with
           | Err err => mret (Some (Wrapf err "failed to list snapshots for subvolume %q in group %q." [subVolume; svg]))
           | Ok snapshots =>
               retErr ← note (CancelPendingClones snapshots fsName subVolume svg) "failed to cancel pending clones for subvolume %q in group %q"
                          [subVolume; svg] retErr;
               note (DeleteSubVolumeSnapshots snapshots fsName subVolume svg) "failed to delete snapshots for subvolume %q in group %q" [subVolume; svg] retErr
           end;
  note (DeleteSubVolume fsName subVolume svg) "failed to delete subvolume group %q." [subVolume] retErr.

Fixpoint cleanup_subvolumes (fsName svg poolName csiNamespace : string) (l : list string) (retErr : option gerror) : MC (option gerror) :=
  match l with
  | [] => mret retErr
  | subVolume :: l =>
      retErr ← cleanup_subvolume fsName svg poolName csiNamespace subVolume retErr;
      cleanup_subvolumes fsName svg poolName csiNamespace l retErr
  end.

Definition SubVolumeGroupCleanup (fsName svg poolName csiNamespace : string) : MC unit :=
  subVolumeList ← wrapM (listSubvolumesInGroup fsName svg) "failed to list cephFS subVolumes in subVolumeGroup %q" [svg];
  retErr ← cleanup_subvolumes fsName svg poolName csiNamespace subVolumeList None;
  match retErr with
  | None => mret ()
  | Some err => fail (Wrapf err "clean up for cephFS subVolumeGroup %q didn't complete successfully." [svg])
  end.

(** ** The commands of the jobs ([cmd/rook/ceph/cleanup.go]) *)

Section Commands.
(** The environment of the process; a variable that is not set is empty. *)
Variable environ : gmap string string.

Definition getenv (name : string) : string := default "" (environ !! name).

(** Without the variable the process is terminated. *)
Definition required (name msg : string) : MC string :=
  if String.eqb (getenv name) "" then fail (Errorf msg []) else mret (getenv name).

Definition startSubVolumeGroupCleanUp : MC unit :=
  fsName ← required "FILESYSTEM_NAME" "ceph filesystem name is not available in the pod environment variables";
  subVolumeGroupName ← required "SUB_VOLUME_GROUP_NAME" "cephFS SubVolumeGroup name is not available in the pod environment variables";
  csiNamespace ← required "CSI_CEPHFS_RADOS_NAMESPACE" "CSI rados namespace name is not available in the pod environment variables";
  poolName ← required "METADATA_POOL_NAME" "cephFS metadata pool name is not available in the pod environment variables";
  wrapM (SubVolumeGroupCleanup fsName subVolumeGroupName poolName csiNamespace) "failed to cleanup cephFS %q SubVolumeGroup %q in the namespace %q. %v"
    [fsName; subVolumeGroupName].

Definition startRadosNamespaceCleanup : MC unit :=
  poolName ← required "BLOCKPOOL_NAME" "cephblockpool name is not available in the pod environment variables";
  radosNamespace ← required "RADOS_NAMESPACE" "cephblockpool radosNamespace is not available in the pod environment variables";
  wrapM (RadosNamespaceCleanup poolName radosNamespace) "failed to cleanup cephBlockPoolRadosNamespace %q resources in the pool %q. %v"
    [radosNamespace; poolName].

Definition startBlockPoolCleanup : MC unit :=
  poolName ← required "BLOCKPOOL_NAME" "cephblockpool name is not available in the pod environment variables";
  wrapM (BlockPoolCleanup poolName) "failed to cleanup cephBlockPool %q resource %v" [poolName].

(** The subcommand is the kind of the resource. *)
Definition cleanUpCmd (kind : string) : MC unit :=
  if String.eqb kind "CephFilesystemSubVolumeGroup" then startSubVolumeGroupCleanUp
  else if String.eqb kind "CephBlockPoolRadosNamespace" then startRadosNamespaceCleanup
  else if String.eqb kind "CephBlockPool" then startBlockPoolCleanup
  else fail (Errorf "unknown command" [kind]).

End Commands.

End Jobs.

End Cleanup.
