(* ===== verification/FsCalm.v ===== *)
(** * FsCalm: the calls of the file systems that take nothing away

    Which programs of the files FsClient, Mds, FileController and SubVolume neither delete nor change
    what the safety theorems are about, and the tactic that goes through their calls. *)

From stdpp Require Import base gmap strings list fin_maps.
From Stdlib Require Import ZArith Ascii.
From S2P Require Import Prelude Names CephVersion Kube Upgrade Cephx OsdBase Pools BlockPool PoolSafety FsClient Mds FileController SubVolume.
Import Log Version Cephx Pools BlockPool PoolSafety FsClient Mds FileController SubVolume.
Open Scope Z_scope.

Module FsCalm.

(** ** Calls that take nothing away *)

(** Programs and the definitions they are made of. *)
Create HintDb fs discriminated.

#[export] Hint Unfold getFilesystem ListFilesystems AllowStandbyReplay AddDataPoolToFilesystem CreateFilesystem SetNumMDSRanks failMDS
  FailAllStandbyReplayMDS GetMdsIdByRank WaitForActiveRanks FailFilesystem GetMDSDump WaitForNoStandbys listSubvolumeGroups
  listSubvolumesInGroup subvolume_ls_args getCephFSSubVolumeGroupInfo resizeCephFSSubVolumeGroup CreateCephFSSubVolumeGroup PinCephFSSubVolumeGroup
  EnableFilesystemSnapshotMirror DisableFilesystemSnapshotMirror AddSnapshotSchedule AddSnapshotScheduleRetention ImportFSMirrorBootstrapPeer
  CreateFSMirrorBootstrapPeer enableModule MgrEnableModule AuthGetKey AuthGetOrCreateKey AuthUpdateCaps AuthRotate AuthDelete AuthDumpKeys
  DetermineCephxKeyTypesForEntityType GetDaemon DeleteDaemon run max_mds_args : fs.

#[export] Hint Unfold GenerateKey RotateKey CreateSecret CreateOrUpdate generateKeyring setDefaultFlagsMonConfigStore reformat
  list_deployments get_deployment GetDaemonsToSkipReconcile getMdsDeployments DeleteMdsCephObjects isCephUpgrade finishedWithDaemonUpgrade
  get_fs validateFilesystem createOrUpdatePools updateFilesystem create_data_pools doFilesystemCreate downFilesystem filesystemExists
  subvolumeGroupDependents list_groups cephFilesystemDependents set_fs_status_once CurrentAndDesiredCephVersion reconcileMirroring
  FileController.reconcileAddBootstrapPeer FileController.CreateBootstrapPeerSecret update_condition_once get_group find_groups set_group_status_once
  createOrUpdateSubVolumeGroup cleanup : fs.

#[export] Hint Unfold Upgrade.unmarshal Upgrade.getAllCephDaemonVersionsString Upgrade.GetAllCephDaemonVersions Upgrade.getCephMonVersionString
  Upgrade.GetCephMonVersion Upgrade.validate_external Upgrade.LeastUptodateDaemonVersion : fs.

(** A call that neither deletes a pool, a file system or a group nor removes a finalizer. *)
Definition gentle (ev : call) : Prop :=
  match ev with
  | Ceph args _ => (forall n, args <> delete_pool_args n) /\ (forall n, args <> rm_fs_args n) /\
                   (forall fs g, args <> ["fs"; "subvolumegroup"; "rm"; fs; g])
  | Api verb _ _ _ => verb <> "remove-finalizer"
  | _ => True
  end.

(** A gentle call that changes no deployment either. *)
Definition mild (ev : call) : Prop :=
  gentle ev /\
  match ev with
  | CreateDeployment _ _ | UpdateDeployment _ _ | DeleteDeployment _ _ _ => False
  | _ => True
  end.

Lemma mild_gentle ev : mild ev -> gentle ev.
Proof. by intros []. Qed.

(** Programs that are known to be mild. *)
Create HintDb calm discriminated.

(** Goes through the calls of a program. *)
Ltac calls :=
  repeat first
    [ progress intros
    | solve [auto 2 with calm nocore]
    | apply harmless_bind | apply harmless_try | apply harmless_wrapM | apply harmless_forM
    | apply harmless_ret | apply harmless_fail | apply harmless_lift | apply harmless_silent
    | apply harmless_record
    | progress autounfold with pools fs
    | case_match ];
  try (unfold mild, gentle in *; cbn in *; repeat split; intros; first [done | discriminate | congruence]).

Section Calm.
Context {W : Type} `{FsEnv W}.

Abbreviation MC := (MW (gmap string bool * W)).

Lemma contexts_mild : harmless mild (get_contexts (W := W)).
Proof. intros h e. exists []. by rewrite app_nil_r. Qed.
#[local] Hint Resolve contexts_mild : calm.

Lemma set_contexts_mild c : harmless mild (set_contexts (W := W) c).
Proof. intros h e. exists []. by rewrite app_nil_r. Qed.
#[local] Hint Resolve set_contexts_mild : calm.

Lemma locked_mild {A} (m : MC A) : harmless mild m -> harmless mild (read_locked m).
Proof. intros Hm. unfold read_locked, mutex. calls. Qed.

Lemma createReplicated_mild v c p n : harmless mild (createReplicatedPoolForApp (W := gmap string bool * W) v c p n).
Proof. unfold createReplicatedPoolForApp. apply locked_mild. calls. Qed.
#[local] Hint Resolve createReplicated_mild : calm.

Lemma CreatePool_mild v c p : harmless mild (CreatePool (W := gmap string bool * W) v c p).
Proof. calls. Qed.
#[local] Hint Resolve CreatePool_mild : calm.

Lemma poll_mild n cond : harmless mild cond -> harmless mild (poll (W := W) n cond).
Proof. intros Hc. induction n as [|n IH]; cbn [poll]; calls; done. Qed.

Lemma ranks_mild fs n b : harmless mild (WaitForActiveRanks (W := W) fs n b).
Proof. unfold WaitForActiveRanks. apply harmless_bind; [apply poll_mild|]; calls. Qed.
#[local] Hint Resolve ranks_mild : calm.

Lemma standbys_mild fs : harmless mild (WaitForNoStandbys (W := W) fs).
Proof. unfold WaitForNoStandbys. apply harmless_bind; [apply poll_mild|]; calls. Qed.
#[local] Hint Resolve standbys_mild : calm.

Lemma module_mild name force : harmless mild (MgrEnableModule (W := W) name force).
Proof.
  unfold MgrEnableModule. case_match; [calls|]. generalize 4%nat. intros n.
  induction n as [|n IH]; cbn [enable_retries]; calls; done.
Qed.
#[local] Hint Resolve module_mild : calm.

Lemma retry_mild {A} n (f : MC A) : harmless mild f -> harmless mild (RetryOnConflict (W := W) n f).
Proof. intros Hf. induction n as [|n IH]; cbn [RetryOnConflict]; [done|]. calls; done. Qed.

Lemma fs_status_mild g ns n s m i x : harmless mild (FileController.updateStatus (W := W) g ns n s m i x).
Proof. unfold FileController.updateStatus. apply retry_mild. calls. Qed.
#[local] Hint Resolve fs_status_mild : calm.

Lemma ready_mild ns : harmless mild (IsReadyToReconcile (W := W) ns).
Proof. unfold IsReadyToReconcile. calls. Qed.
#[local] Hint Resolve ready_mild : calm.

Lemma groups_mild fs l deps b : harmless mild (groups_in_use (W := W) fs l deps b).
Proof. revert deps b. induction l as [|g l IH]; intros deps b; cbn [groups_in_use]; calls; apply IH. Qed.
#[local] Hint Resolve groups_mild : calm.

Lemma create_fs_pools_mild v c n spec : harmless mild (doFilesystemCreate (W := W) v c n spec).
Proof. unfold doFilesystemCreate, updateFilesystem, createOrUpdatePools, create_data_pools. calls. Qed.
#[local] Hint Resolve create_fs_pools_mild : calm.

(** ** Restarting servers *)

Lemma context_retries ok n d (f : MC unit) : harmless ok f -> harmless ok (Upgrade.RetryWithContext n d f).
Proof.
  intros Hf. unfold Upgrade.RetryWithContext. generalize (S (Z.to_nat n)), 0. intros fuel.
  induction fuel as [|fuel IH]; intros tries; cbn [Upgrade.retry_loop]; [apply harmless_fail|].
  apply harmless_bind; [apply harmless_silent|intros [e|]; [apply harmless_fail|]].
  apply harmless_bind; [by apply harmless_try|intros [u|err]; [apply harmless_ret|]].
  case_match; [apply harmless_fail|]. apply harmless_bind; [apply harmless_silent|intros [e|]; [apply harmless_fail|apply IH]].
Qed.

Lemma continue_mild t d k : harmless mild (Upgrade.OkToContinue (W := world (gmap string bool * W) call) t d k).
Proof.
  unfold Upgrade.OkToContinue. case_match; [|apply harmless_ret]. apply harmless_wrapM. unfold Upgrade.okToContinueMDSDaemon.
  case_match. apply context_retries. unfold Upgrade.MdsActiveOrStandbyReplay, Upgrade.Status. calls.
Qed.
#[local] Hint Resolve continue_mild : calm.

Lemma stop_mild t d k x : harmless mild (Upgrade.OkToStop (W := world (gmap string bool * W) call) t d k x).
Proof.
  unfold Upgrade.OkToStop. case_match. apply harmless_bind; [calls|intros v].
  apply harmless_bind; [unfold Upgrade.osdDoNothing, Upgrade.allOSDsSameHost, Upgrade.HostTree, Upgrade.OsdListNum; calls|intros []; [apply harmless_ret|]].
  apply harmless_wrapM, context_retries. unfold Upgrade.okToStopDaemon. case_match; [apply harmless_ret|].
  apply harmless_bind; [apply harmless_wrapM, harmless_record|intros; apply harmless_ret].
  intros r. split; [|done]. repeat split; intros; discriminate || congruence.
Qed.
#[local] Hint Resolve stop_mild : calm.

Lemma verify_mild c d k x a : harmless mild (verify_callback (W := W) c d k x a).
Proof. unfold verify_callback. calls. Qed.
#[local] Hint Resolve verify_mild : calm.

Lemma wait_started_mild n d : harmless mild (wait_started (W := W) n d).
Proof. induction n as [|n IH]; cbn [wait_started]; calls; done. Qed.

Lemma WaitForDeploymentToStart_mild d : harmless mild (WaitForDeploymentToStart (W := W) d).
Proof. apply wait_started_mild. Qed.
#[local] Hint Resolve WaitForDeploymentToStart_mild : calm.

(** What restarts servers is gentle. *)

Lemma gentle_of_mild {A} (m : MC A) : harmless mild m -> harmless gentle m.
Proof. apply harmless_impl, mild_gentle. Qed.

Lemma keyring_mild c r d : harmless mild (generateKeyring (W := W) c r d).
Proof. calls. Qed.
#[local] Hint Resolve keyring_mild : calm.

Lemma flags_mild c d : harmless mild (setDefaultFlagsMonConfigStore (W := W) c d).
Proof. unfold setDefaultFlagsMonConfigStore. apply harmless_forM. intros [flag val]. calls. Qed.
#[local] Hint Resolve flags_mild : calm.

Lemma objects_mild d : harmless mild (DeleteMdsCephObjects (W := W) d).
Proof. calls. Qed.
#[local] Hint Resolve objects_mild : calm.

(** Goes through the binds; a part that changes no deployment is mild. *)
Ltac gentles :=
  repeat first
    [ solve [auto 2 with calm nocore]
    | solve [apply gentle_of_mild; auto 2 with calm nocore]
    | apply harmless_ret | apply harmless_fail | apply harmless_lift | apply harmless_silent
    | apply harmless_bind; [|intros] | apply harmless_try | apply harmless_wrapM
    | apply harmless_record; intros; exact I
    | case_match ].

Lemma update_gentle ns d v : (forall a, harmless mild (v a)) -> harmless gentle (UpdateDeploymentAndWait (W := W) ns d v).
Proof.
  intros Hv. unfold UpdateDeploymentAndWait, reformat, get_deployment, update_deployment.
  gentles; apply gentle_of_mild, Hv.
Qed.

Lemma UpdateCeph_gentle c d k x : harmless gentle (UpdateCephDeploymentAndWait (W := W) c d k x).
Proof. apply update_gentle. auto with calm. Qed.
#[local] Hint Resolve UpdateCeph_gentle : calm.

Lemma start_gentle c l : harmless gentle (startDeployment (W := W) c l).
Proof. unfold startDeployment, create_deployment, get_deployment. gentles. Qed.
#[local] Hint Resolve start_gentle : calm.

Lemma scale_gentle c k desired del deps e : harmless gentle (scale_down (W := W) c k desired del deps e).
Proof.
  revert e. induction deps as [|d deps IH]; intros e; cbn [scale_down]; [apply harmless_ret|].
  case_match; [apply IH|]. apply harmless_bind; [apply harmless_try, gentle_of_mild, ranks_mild|intros [[]|err]; [|apply harmless_ret]].
  unfold deleteMdsDeployment, delete_deployment, scaleMdsDeployment, update_deployment.
  unfold get_deployment; destruct del; gentles; apply IH.
Qed.

Lemma scaleDown_gentle c r k desired del : harmless gentle (scaleDownDeployments (W := W) c r k desired del).
Proof. unfold scaleDownDeployments, getMdsDeployments, reformat, list_deployments. gentles; apply scale_gentle. Qed.
#[local] Hint Resolve scaleDown_gentle : calm.

Lemma daemons_gentle c skip l desired : harmless gentle (start_daemons (W := W) c skip l desired).
Proof.
  revert desired. induction l as [|x l IH]; intros desired; cbn [start_daemons]; [apply harmless_ret|].
  case_match; [apply harmless_ret|]. apply harmless_bind; [apply harmless_wrapM, start_gentle|intros; apply IH].
Qed.
#[local] Hint Resolve daemons_gentle : calm.

Lemma fs_commands_mild fs :
  harmless mild (AllowStandbyReplay (W := W) fs false 0) /\ harmless mild (FailAllStandbyReplayMDS (W := W) fs) /\
  (forall n, harmless mild (SetNumMDSRanks (W := W) fs n)) /\ (forall r, harmless mild (GetMdsIdByRank (W := W) fs r)).
Proof. split_and!; calls. Qed.

Lemma finished_mild fs : harmless mild (finishedWithDaemonUpgrade (W := W) fs).
Proof. calls. Qed.
#[local] Hint Resolve finished_mild : calm.

Lemma upgrade_gentle c : harmless gentle (upgradeMDS (W := W) c).
Proof.
  unfold upgradeMDS. destruct (fs_commands_mild (fs_Name (c_fs c))) as (H1 & H2 & H3 & H4). gentles.
  all: by apply gentle_of_mild.
Qed.
#[local] Hint Resolve upgrade_gentle : calm.

Lemma Start_gentle c : harmless gentle (Start (W := W) c).
Proof.
  unfold Start, start_servers, deferred, isCephUpgrade, GetDaemonsToSkipReconcile, list_deployments. gentles.
  all: apply gentle_of_mild; calls.
Qed.
#[local] Hint Resolve Start_gentle : calm.

End Calm.

#[export] Hint Resolve contexts_mild set_contexts_mild createReplicated_mild CreatePool_mild ranks_mild standbys_mild module_mild fs_status_mild ready_mild groups_mild create_fs_pools_mild continue_mild stop_mild verify_mild WaitForDeploymentToStart_mild keyring_mild flags_mild objects_mild UpdateCeph_gentle start_gentle scaleDown_gentle daemons_gentle finished_mild upgrade_gentle Start_gentle : calm.

End FsCalm.
