(* ===== verification/FsLab.v ===== *)
(** * FsLab: a concrete Ceph with a file system

    An instance of the environment of the file systems (class [FsEnv] of file FsClient), given by its
    answers, with decoders of a toy format.  The theorems hold for every environment; the witnesses run
    in this one. *)

From stdpp Require Import base gmap strings list fin_maps.
From Stdlib Require Import ZArith Ascii.
From S2P Require Import Prelude CephVersion Kube Upgrade Cephx OsdBase Pools BlockPool PoolLab FsClient Mds.
Import Log Version Cephx Pools BlockPool PoolLab FsClient Mds.
Open Scope Z_scope.

Module FsLab.

Record FsLab := {
  fl_ceph : list string -> result string;
  fl_clusters : result (list CephCluster);
  fl_fs : CephFilesystem;
  fl_group : CephFilesystemSubVolumeGroup;
  (** the resources of groups *)
  fl_groups : list CephFilesystemSubVolumeGroup;
  fl_deployments : list Kube.Deployment;
}.

Definition says {A} (f : FsLab -> result A) : M FsLab A := fun l => (l, f l).

(** The names of an answer; none in the empty one. *)
Definition toy_names (s : string) : list string := if String.eqb s "" then [] else names s.

Definition named_pools (s : string) : list CephStoragePoolSummary :=
  imap (fun i n => {| sum_Name := n; sum_Number := Z.of_nat i + 1 |}) (toy_names s).

#[global] Instance fs_lab_pools : PoolEnv FsLab := {
  env_ceph args := says (fun l => fl_ceph l args);
  env_rbd args := says (fun _ => toy_rbd args);
  env_tool _ := says (fun _ => Ok "");
  env_temp_file := says (fun _ => Ok "/tmp/1");
  env_append_file _ _ := says (fun _ => Ok ());
  env_remove_file _ := says (fun _ => Ok ());
  env_mutex _ l := l;
  error_text e := match e with External t => t | _ => "" end;
  exit_status e := match e with External t => if String.eqb t "ENOENT" then Some ENOENT else if String.eqb t "EIO" then Some 5 else None | _ => None end;
  json_pools s := Some (named_pools s);
  json_details := toy_details;
  json_applications s := Some (names s);
  json_statistics s := (fun n => {| images_Count := n; images_SnapCount := 0 |}) <$> Atoi s;
  json_crush_map s := Some {| Types := ["host"; "rack"]; Buckets := ["default"]; Rules := toy_rule <$> names s |};
  json_rule s := Some (toy_rule s);
  json_ec_profile _ := None;
  json_ec_profiles _ := None;
  json_mirror_info s := Some {| info_Mode := s; info_Peers := [] |};
  json_mirrored_images _ := None;
  json_schedules _ := None;
  json_namespaces s := Some (names s);
  json_ints _ := Some [0];
  parse_quantity _ := Ok 0;
  range_map m := map_to_list m;
  range_map_ok m := reflexivity (map_to_list m);
}.

#[global] Instance fs_lab_block_pools : BlockPoolEnv FsLab := {
  bp_pool_env := fs_lab_pools;
  env_get_pool _ _ := says (fun _ => Err (External "not found"));
  env_list_pools _ := says (fun _ => Ok []);
  env_list_namespaces _ := says (fun _ => Ok []);
  env_list_clusters _ := says fl_clusters;
  env_update_pool_status _ := says (fun _ => Ok ());
  env_add_finalizer _ := says (fun _ => Ok false);
  env_remove_finalizer _ := says (fun _ => Ok ());
  env_update_conditions _ _ _ := says (fun _ => Ok ());
  env_load_cluster_info _ := says (fun _ => Ok ());
  env_start_cleanup _ _ _ := says (fun _ => Ok ());
  env_get_secret _ _ := says (fun _ => Ok ∅);
  env_write_secret _ _ := says (fun _ => Ok ());
  expand_token t := Ok t;
  env_pool_id_map _ := says (fun _ => Ok ());
  env_reset_mirroring_status _ := says (fun _ => Ok ());
  env_start_monitor _ := says (fun _ => Ok ());
}.

(** The answer to [versions] is the version that all daemons run. *)
#[global] Instance fs_lab_cmd : Upgrade.CephCmd FsLab := {
  Upgrade.run_ceph args := says (fun l => fl_ceph l args);
  Upgrade.unmarshal_versions s :=
    Some {| Upgrade.Mon := [(s, 3)]; Upgrade.Mgr := []; Upgrade.Osd := [(s, 3)]; Upgrade.Rgw := []; Upgrade.Mds := [(s, 2)];
            Upgrade.RbdMirror := []; Upgrade.CephFSMirror := []; Upgrade.Overall := [] |};
  Upgrade.unmarshal_tree _ := None;
  Upgrade.unmarshal_osds _ := None;
  Upgrade.unmarshal_status _ := Some {| Upgrade.HealthStatus := "HEALTH_OK"; Upgrade.ByRank := []; Upgrade.UpStandby := 1 |};
  Upgrade.ctx_err := says (fun _ => Ok None);
  Upgrade.wait_delay _ := says (fun _ => Ok None);
  Upgrade.load_cluster_info := says (fun _ => Ok (None, None));
  Upgrade.write_connection_config _ := says (fun _ => Ok ());
}.

(** One rank, whose server is [a], with a standby for it; the answer tells the wanted number of ranks. *)
Definition toy_fs (s : string) : option CephFilesystemDetails :=
  (fun n => {| fs_ID := 1; fs_MDSMap := {| MaxMDS := n; Up := {["mds_0" := 11]}; map_MetadataPool := 1; map_DataPools := [2];
     Info := [("gid_11", {| GID := 11; mds_Name := "myfs-a"; Rank := 0; State := "up:active" |});
              ("gid_12", {| GID := 12; mds_Name := "myfs-b"; Rank := 0; State := "up:standby-replay" |})] |} |}) <$> Atoi s.

(** An updated deployment is rolled out at once. *)
Definition rolled_out (d : Kube.Deployment) (l : FsLab) : FsLab :=
  let roll d' :=
    if String.eqb (Kube.dep_name d') (Kube.dep_name d)
    then {| Kube.dep_namespace := Kube.dep_namespace d; Kube.dep_name := Kube.dep_name d; Kube.dep_labels := Kube.dep_labels d;
            Kube.dep_annotations := Kube.dep_annotations d; Kube.CreationTimestamp := Kube.CreationTimestamp d'; Kube.Replicas := Kube.Replicas d;
            Kube.ProgressDeadlineSeconds := Kube.ProgressDeadlineSeconds d; Kube.Template := Kube.Template d;
            Kube.ObservedGeneration := Kube.ObservedGeneration d' + 1; Kube.UpdatedReplicas := 1; Kube.ReadyReplicas := 1; Kube.dep_conditions := [] |}
    else d' in
  {| fl_ceph := fl_ceph l; fl_clusters := fl_clusters l; fl_fs := fl_fs l; fl_group := fl_group l; fl_groups := fl_groups l;
     fl_deployments := roll <$> fl_deployments l |}.

#[global] Instance fs_lab : FsEnv FsLab := {
  fs_pool_env := fs_lab_block_pools;
  fs_cmd := fs_lab_cmd;
  env_get_fs _ _ := says (fun l => Ok (fl_fs l));
  env_update_fs_status _ := says (fun _ => Ok ());
  env_add_fs_finalizer _ := says (fun _ => Ok false);
  env_remove_fs_finalizer _ := says (fun _ => Ok ());
  env_fs_condition _ _ := says (fun _ => Ok ());
  env_start_fs_monitor _ := says (fun _ => Ok ());
  env_list_groups _ := says (fun l => Ok (fl_groups l));
  env_find_groups _ _ := says (fun l => Ok (fl_groups l));
  env_get_group _ _ := says (fun l => Ok (fl_group l));
  env_update_group_status _ := says (fun _ => Ok ());
  env_add_group_finalizer _ := says (fun _ => Ok false);
  env_remove_group_finalizer _ := says (fun _ => Ok ());
  env_client_profile _ _ := says (fun _ => Ok ());
  env_list_deployments _ selector := says (fun l => Ok (if String.eqb selector "rook_file_system=myfs" then fl_deployments l else []));
  env_get_deployment _ name := says (fun l =>
    match List.filter (fun d => String.eqb (Kube.dep_name d) name) (fl_deployments l) with d :: _ => Ok d | [] => Err (External "not found") end);
  env_create_deployment d := says (fun l =>
    if existsb (fun d' => String.eqb (Kube.dep_name d') (Kube.dep_name d)) (fl_deployments l)
    then Err (APIStatus AlreadyExists) else Ok ());
  env_update_deployment d := fun l => (rolled_out d l, Ok ());
  env_delete_deployment _ _ := says (fun _ => Ok ());
  env_delete_secret _ _ := says (fun _ => Ok ());
  env_create_keyring _ _ := says (fun _ => Ok "1");
  env_update_keyring _ _ := says (fun _ => Ok "1");
  env_detect_version _ := says (fun _ => Ok (mkv 19 2 1 0 ""));
  env_poll_ended := says (fun _ => Ok false);
  env_sleep _ := says (fun _ => Ok ());
  env_time_text := says (fun _ => Ok "now");
  env_allow_map := says (fun _ => Ok ∅);
  mds_template _ _ _ _ := Ok Kube.empty_template;
  mds_extra_labels _ _ := ∅;
  mds_annotations _ := ∅;
  patch_is_empty _ _ := Ok false;
  set_last_applied d := Ok d;
  owner_reference _ := Ok ();
  operator_namespace := "rook-ceph";
  json_fs := toy_fs;
  json_fs_dump s := Some {| Standbys := toy_names s |};
  json_named s := Some (toy_names s);
  json_clones s := Some (toy_names s);
  json_auth_key s := Some s;
  json_rotated s := Some [s];
  json_key_dump _ := Some [];
  json_daemon_config _ := Some [];
  json_bytes_quota _ := Some 0;
  json_token s := Some s;
  json_reports _ := Some [];
}.

(** ** Objects *)

Definition servers (active : Z) (standby : bool) : MetadataServerSpec :=
  {| ActiveCount := active; ActiveStandby := standby; mds_Resources := {| Limits_Memory := 4294967296; Requests_Memory := 4294967296 |};
     CacheMemoryLimitFactor := None; CacheMemoryRequestFactor := None |}.

Definition named (name : string) : NamedPoolSpec := {| pool_Name := name; pool_Spec := three |}.

Definition fs_spec (preserve_pools preserve : bool) : FilesystemSpec :=
  {| MetadataPool := named ""; DataPools := [named ""]; PreservePoolNames := false; PreservePoolsOnDelete := preserve_pools;
     PreserveFilesystemOnDelete := preserve; MetadataServer := servers 1 true; fs_Mirroring := None; fs_MirrorCheckDisabled := false |}.

Definition toy_status : CephFilesystemStatus :=
  {| fss_Phase := "Ready"; fss_Message := ""; fss_Info := None; SnapshotScheduleStatus := None; MirroringStatus := None; fss_Conditions := [];
     fss_ObservedGeneration := 1; fss_Cephx := {| KeyGeneration := 0; KeyCephVersion := ""; KeyType := "" |} |}.

Definition myfs (deleted : bool) (s : FilesystemSpec) : CephFilesystem :=
  {| fs_Namespace := "rook-ceph"; fs_Name := "myfs"; fs_Generation := 1; fs_Deleted := deleted; fs_Spec := s; fs_Status := Some toy_status |}.

Definition group (deleted : bool) (name spec_name : string) : CephFilesystemSubVolumeGroup :=
  {| svg_Namespace := "rook-ceph"; svg_Name := name; svg_Generation := 1; svg_Deleted := deleted; svg_Annotations := ∅;
     svg_SpecName := spec_name; svg_FilesystemName := "myfs"; Pinning := {| Export := None; Distributed := None; Random := None |};
     svg_Quota := None; svg_DataPoolName := ""; svg_ClusterID := ""; svg_Status := Some ("Ready", "", ∅, 1) |}.

Definition mds_deployment (letter : string) : Kube.Deployment :=
  {| Kube.dep_namespace := "rook-ceph"; Kube.dep_name := resource_name "myfs" letter; Kube.dep_labels := ∅; Kube.dep_annotations := ∅;
     Kube.CreationTimestamp := 0; Kube.Replicas := Some 1; Kube.ProgressDeadlineSeconds := None; Kube.Template := Kube.empty_template;
     Kube.ObservedGeneration := 1; Kube.UpdatedReplicas := 1; Kube.ReadyReplicas := 1; Kube.dep_conditions := [] |}.

Definition v19 : string := "ceph version 19.2.0 (0123) squid (stable)".

(** The file system [myfs] with one rank, the group [csi] without subvolumes, and two pools. *)
Definition fs_ceph (args : list string) : result string :=
  match args with
  | "fs" :: "get" :: _ => Ok "1"
  | ["fs"; "subvolumegroup"; "ls"; _] => Ok "_nogroup,csi"
  | "versions" :: _ => Ok v19
  | "osd" :: "lspools" :: _ => Ok "myfs-metadata,myfs-data0"
  | "osd" :: "pool" :: "get" :: _ => Ok "{size:3}{rule:}"
  | _ => Ok ""
  end.

Definition fs_lab_with (ceph : list string -> result string) (f : CephFilesystem) (groups : list CephFilesystemSubVolumeGroup)
    (letters : list string) : FsLab :=
  {| fl_ceph := ceph; fl_clusters := Ok [healthy_cluster]; fl_fs := f; fl_group := group true "csi" ""; fl_groups := groups;
     fl_deployments := mds_deployment <$> letters |}.

Definition begin (l : FsLab) : world (gmap string bool * FsLab) call := World (∅, l) [].

End FsLab.
