(* ===== verification/FsSafety.v ===== *)
(** * FsSafety: file systems and groups are removed when nothing needs them

    What must have happened before a reconcile of a file system (file FileController), or of a subvolume
    group (file SubVolume), removes something. *)

From stdpp Require Import base gmap strings list fin_maps.
From Stdlib Require Import ZArith Ascii.
From S2P Require Import Prelude Names CephVersion Kube Upgrade Cephx OsdBase Pools BlockPool PoolSafety FsClient Mds FileController SubVolume FsCalm FsLab.
Import Log Version Cephx Pools BlockPool PoolSafety FsClient Mds FileController SubVolume FsCalm FsLab.
Open Scope Z_scope.

Module FsSafety.

Lemma filter_nil_none {A} (p : A -> bool) l : List.filter p l = [] -> Forall (fun x => p x = false) l.
Proof. induction l as [|x l IH]; cbn; [constructor|]. destruct (p x) eqn:Ep; [done|]. intros Hl. constructor; auto. Qed.

(** ** What was known stays known *)

Lemma lasting_exists {A} (P : A -> list call -> Prop) : (forall a, lasting (P a)) -> lasting (fun h => exists a, P a h).
Proof. intros HP h l [a Ha]. exists a. by apply HP. Qed.

Lemma lasting_or (P Q : list call -> Prop) : lasting P -> lasting Q -> lasting (fun h => P h \/ Q h).
Proof. intros HP HQ h l [Hp|Hq]; [left; by apply HP|right; by apply HQ]. Qed.

Lemma lasting_forall {A} (P : A -> list call -> Prop) l : (forall a, lasting (P a)) -> lasting (fun h => Forall (fun a => P a h) l).
Proof. intros HP h l' Hl. eapply Forall_impl; [exact Hl|]. intros a Ha. by apply HP. Qed.

Lemma lasting_when (Q : Prop) (D : list call -> Prop) : lasting D -> lasting (fun h => Q -> D h).
Proof. intros HD h l Hq q. by apply HD, Hq. Qed.

Ltac lasts := repeat first [progress intros | apply lasting_exists | apply lasting_and | apply lasting_or | apply lasting_member
                           | apply lasting_forall | apply lasting_const ].

(** ** Triples of commands *)

Section Triples.
Context {W : Type} `{FsEnv W} (needs : list call -> call -> Prop).

Abbreviation MC := (MW (gmap string bool * W)).

(** A call that is recorded keeps what lasts, and its answer is known. *)
Lemma recorded_triple {A} (ev : result A -> call) (m : M (gmap string bool * W) A) P :
  lasting P -> (forall r h, P h -> needs h (ev r)) -> triple needs P (record ev m) (fun r h => P h /\ ev r ∈ h).
Proof.
  intros HP Hn. apply triple_record. intros r h Hp. split_and!; [by apply Hn|by apply HP|].
  apply elem_of_app. right. apply list_elem_of_here.
Qed.

Lemma decode_triple {A} (o : option A) msg args P :
  triple needs P (decode (W := gmap string bool * W) o msg args) (fun r h => P h /\ match r with Ok a => o = Some a | Err _ => o = None end).
Proof. unfold decode. destruct o; [apply triple_ret|apply triple_fail]; done. Qed.

(** A command whose answer is decoded, with its error as it is. *)
Lemma answered_triple {A} args (dec : string -> option A) msg margs P :
  lasting P -> (forall r h, P h -> needs h (Ceph args r)) ->
  triple needs P (buf ← ceph (W := gmap string bool * W) args; decode (dec buf) msg (margs buf))
    (fun r h => P h /\ match r with
                       | Ok a => exists out, Ceph args (Ok out) ∈ h /\ dec out = Some a
                       | Err e => Ceph args (Err e) ∈ h \/ (exists out, Ceph args (Ok out) ∈ h /\ dec out = None /\ e = Errorf msg (margs out))
                       end).
Proof.
  intros HP Hn. eapply triple_bind; [by apply recorded_triple|intros out|].
  - unfold decode. destruct (dec out) as [a|] eqn:Ed; [apply triple_ret|apply triple_fail]; intros h [Hp Hin]; (split; [done|]).
    + by exists out.
    + right. by exists out.
  - intros err h [Hp Hin]. split; [done|by left].
Qed.

(** A wrapped call with the decoder of its answer: it was made, and what is known when it succeeds. *)
Lemma decoded_record_triple {A} (ev : result string -> call) (m : M (gmap string bool * W) string) (dec : string -> option A) msg margs fmt fargs P :
  lasting P -> (forall r h, P h -> needs h (ev r)) ->
  triple needs P (buf ← wrapM (record ev m) fmt fargs; decode (W := gmap string bool * W) (dec buf) msg (margs buf))
    (fun r h => (P h /\ exists r', ev r' ∈ h) /\ forall a, r = Ok a -> exists out, ev (Ok out) ∈ h /\ dec out = Some a).
Proof.
  intros HP Hn.
  apply (triple_bind _ _ _ _ (fun r h => (P h /\ exists r', ev r' ∈ h) /\ forall out, r = Ok out -> ev (Ok out) ∈ h)); [|intros out|by intros err h []].
  - apply triple_wrapM. eapply triple_conseq; [by apply recorded_triple|done|].
    intros [out|err] h [Hp Hin]; (split; [by split; [|eexists]|]); [|done]. by intros out' [= <-].
  - eapply triple_conseq; [apply decode_triple|intros h Hh; exact Hh|]. intros r h [[Hp Hin] Hr]. split; [done|].
    intros a ->. exists out. auto.
Qed.

Lemma decoded_triple {A} args (dec : string -> option A) msg margs fmt fargs P :
  lasting P -> (forall r h, P h -> needs h (Ceph args r)) ->
  triple needs P (buf ← wrapM (ceph (W := gmap string bool * W) args) fmt fargs; decode (dec buf) msg (margs buf))
    (fun r h => P h /\ forall a, r = Ok a -> exists out, Ceph args (Ok out) ∈ h /\ dec out = Some a).
Proof. intros HP Hn. eapply triple_conseq; [by apply decoded_record_triple|done|]. by intros r h [[Hp _] Hr]. Qed.

Lemma decoded_rbd_triple {A} args (dec : string -> option A) msg margs fmt fargs P :
  lasting P -> (forall r h, P h -> needs h (Rbd args r)) ->
  triple needs P (buf ← wrapM (rbd (W := gmap string bool * W) args) fmt fargs; decode (dec buf) msg (margs buf))
    (fun r h => P h /\ forall a, r = Ok a -> exists out, Rbd args (Ok out) ∈ h /\ dec out = Some a).
Proof. intros HP Hn. eapply triple_conseq; [by apply decoded_record_triple|done|]. by intros r h [[Hp _] Hr]. Qed.

Lemma triple_wrapped {A} (m : MC A) fmt args P (R : A -> list call -> Prop) :
  triple needs P m (fun r h => P h /\ forall a, r = Ok a -> R a h) ->
  triple needs P (wrapM m fmt args) (fun r h => P h /\ forall a, r = Ok a -> R a h).
Proof.
  intros Hm. apply triple_wrapM. eapply triple_conseq; [exact Hm|done|].
  intros [a|err] h [Hp Hr]; (split; [done|]); [|done]. by intros a' [= <-]; apply Hr.
Qed.

(** A value of a retried program is one that an attempt returned. *)
Lemma retry_triple {A} n (f : MC A) P (Q : result A -> list call -> Prop) :
  (forall r h, Q r h -> P h) -> triple needs P f Q -> triple needs P (RetryOnConflict (W := W) n f) Q.
Proof.
  intros HQ Hf. induction n as [|n IH]; cbn [RetryOnConflict]; [done|].
  eapply triple_bind; [apply tried_triple, Hf|intros [a|e]|done].
  - by apply triple_ret.
  - destruct (IsConflict e); [|by apply triple_fail]. eapply triple_conseq; [exact IH|apply HQ|done].
Qed.

(** Goes on after a program whose error ends the whole. *)
Lemma triple_seq {A B} (m : MC A) (k : A -> MC B) P (R : A -> list call -> Prop) (Q : list call -> Prop) :
  triple needs P m (fun r h => Q h /\ forall a, r = Ok a -> R a h) ->
  (forall a, triple needs (R a) (k a) (fun _ => Q)) -> triple needs P (m ≫= k) (fun _ => Q).
Proof.
  intros Hm Hk. eapply triple_bind; [exact Hm|intros a|by intros err h [Hq _]].
  eapply triple_conseq; [apply Hk|intros h [_ Hr]; by apply Hr|done].
Qed.

(** Something that is retried while the context lasts did succeed. *)
Lemma context_retry_triple n d (f : MC unit) P Q :
  (forall r h, Q r h -> P h) -> (forall e h, P h -> Q (Err e) h) -> triple needs P f Q ->
  triple needs P (Upgrade.RetryWithContext n d f) Q.
Proof.
  intros HQ HE Hf. unfold Upgrade.RetryWithContext. generalize (S (Z.to_nat n)), 0. intros fuel.
  induction fuel as [|fuel IH]; intros tries; cbn [Upgrade.retry_loop]; [by apply triple_fail, HE|].
  assert (forall X (m : M (gmap string bool * W) X), triple needs P (silent m) (fun _ => P)) as Hs.
  { intros X m h Hg Hp. apply logs_silent. by intros r. }
  eapply triple_bind; [apply Hs|intros [e|]; [by apply triple_fail, HE|]|intros; by apply HE].
  eapply triple_bind; [apply tried_triple, Hf|intros [[]|e]|done].
  - by apply triple_ret.
  - case_match; [apply triple_fail; intros h Hq; eapply HE, HQ, Hq|].
    eapply triple_bind; [eapply triple_conseq; [apply Hs|apply HQ|done]|intros [e'|]|intros; by apply HE]; [by apply triple_fail, HE|apply IH].
Qed.

(** A poll that ended well did so with an answer of its condition. *)
Lemma poll_triple n (cond : MC bool) P (R : list call -> Prop) :
  triple needs P cond (fun r h => P h /\ (r = Ok true -> R h)) ->
  triple needs P (poll n cond) (fun r h => P h /\ (r = Ok true -> R h)).
Proof.
  intros Hc. assert (triple needs P (mret false : MC bool) (fun r h => P h /\ (r = Ok true -> R h))) as Hf by by apply triple_ret.
  induction n as [|n IH]; cbn [poll]; [exact Hf|].
  eapply triple_bind; [exact Hc|intros [|]; [by apply triple_ret; intros h [Hp Hr]; auto|]|by intros err h []].
  apply (triple_bind _ _ _ _ (fun _ => P)); [|by intros [|]|by intros err h Hp].
  intros h Hg [Hp _]. apply logs_silent. by intros r.
Qed.

(** The cluster that a reconcile looks at. *)
Definition cluster_listed (ns : string) (c : option CephCluster) (clusterExists : bool) (h : list call) : Prop :=
  exists r, ListClusters ns r ∈ h /\ (clusterExists = false -> no_cluster r) /\ (forall c', c = Some c' -> exists l, r = Ok (c' :: l)).

Lemma ready_triple ns P :
  lasting P -> (forall r h, needs h (ListClusters ns r)) ->
  triple needs P (IsReadyToReconcile (W := W) ns)
    (fun r h => P h /\ forall c ready ex response, r = Ok (c, ready, ex, response) -> cluster_listed ns c ex h).
Proof.
  intros HP Hn. unfold IsReadyToReconcile.
  eapply triple_bind; [apply tried_triple, (recorded_triple (ListClusters ns) _ P HP); auto|intros r|done].
  destruct r as [[|c cs]|err]; [apply triple_ret|destruct (_ && _) eqn:Ec; apply triple_ret|apply triple_ret]; intros h [Hp Hin]; (split; [done|]);
    intros; simplify_eq; eexists; (split_and!; [by apply Hin|done|]); intros; simplify_eq; eauto.
Qed.

Lemma lasting_listed_cluster ns c b : lasting (cluster_listed ns c b).
Proof. unfold cluster_listed. lasts. Qed.

End Triples.

(** ** Deleting a file system *)

Section FsDeletion.
Context {W : Type} `{FsEnv W} (ns name : string).

Abbreviation MC := (MW (gmap string bool * W)).

(** An object as it was read, up to its status. *)
Definition same_resource (f g : CephFilesystem) : Prop :=
  fs_Namespace f = fs_Namespace g /\ fs_Name f = fs_Name g /\ fs_Deleted f = fs_Deleted g /\ fs_Spec f = fs_Spec g.

Definition resource_read (f : CephFilesystem) (h : list call) : Prop :=
  exists g, GetFs ns name (Ok g) ∈ h /\ same_resource g f.

Definition fs_get_args (fsName : string) : list string := ["fs"; "get"; fsName].

(** The answer of Ceph was neither the file system nor that there is none. *)
Definition existence_unknown (fsName : string) (h : list call) : Prop :=
  exists r, Ceph (fs_get_args fsName) r ∈ h /\
    match r with Ok out => json_fs (W := W) out = None | Err err => ExitStatus (W := W) err <> Some ENOENT end.

Definition fs_absent (fsName : string) (h : list call) : Prop :=
  exists err, Ceph (fs_get_args fsName) (Err err) ∈ h /\ ExitStatus (W := W) err = Some ENOENT.

(** A group that Ceph keeps for itself, or one in which no subvolume was listed. *)
Definition group_unused (fsName : string) (h : list call) (g : string) : Prop :=
  ignoreSVG g = true \/ exists out, Ceph (subvolume_ls_args fsName g) (Ok out) ∈ h /\ json_named (W := W) out = Some [].

Definition fs_unused (fsName : string) (h : list call) : Prop :=
  exists out svgs, Ceph ["fs"; "subvolumegroup"; "ls"; fsName] (Ok out) ∈ h /\ json_named (W := W) out = Some svgs /\
    Forall (group_unused fsName h) (svgs ++ [NoSubvolumeGroup]).

Definition no_dependents (f : CephFilesystem) (h : list call) : Prop :=
  existence_unknown (fs_Name f) h \/
  ((fs_absent (fs_Name f) h \/ fs_unused (fs_Name f) h) /\
   exists groups, ListGroups (fs_Namespace f) (Ok groups) ∈ h /\ Forall (fun g => svg_FilesystemName g <> fs_Name f) groups).

(** The deletion of [f] was checked; [f'] is what is deleted: [f] or the object as it was read after. *)
Definition checked (f' : CephFilesystem) (h : list call) : Prop :=
  exists f, resource_read f h /\ fs_Deleted f = true /\ no_dependents f h /\
    (f' = f \/ GetFs (fs_Namespace f) (fs_Name f) (Ok f') ∈ h).

Definition fs_removable (n : string) (h : list call) : Prop :=
  exists f, checked f h /\ n = fs_Name f /\ DataPools (fs_Spec f) <> [] /\ PreserveFilesystemOnDelete (fs_Spec f) = false.

(** The file system was removed; it had these details before. *)
Definition removed (f : CephFilesystem) (details : CephFilesystemDetails) (h : list call) : Prop :=
  checked f h /\ (exists out, Ceph (fs_get_args (fs_Name f)) (Ok out) ∈ h /\ json_fs (W := W) out = Some details) /\
  exists r, Ceph (rm_fs_args (fs_Name f)) (Ok r) ∈ h.

Definition fs_pools (details : CephFilesystemDetails) : list Z := map_MetadataPool (fs_MDSMap details) :: map_DataPools (fs_MDSMap details).

Definition pool_named (id : Z) (n : string) (h : list call) : Prop :=
  exists out pools, Ceph ["osd"; "lspools"] (Ok out) ∈ h /\ json_pools (W := W) out = Some pools /\
    {| sum_Name := n; sum_Number := id |} ∈ pools.

Definition counted_empty (n : string) (h : list call) : Prop :=
  exists out stats, Rbd ["pool"; "stats"; n] (Ok out) ∈ h /\ json_statistics (W := W) out = Some stats /\ no_images stats = true.

(** The pool belongs to a file system that was removed, whose pools are not to be preserved, and rbd
    counted no images in it. *)
Definition fs_pool_removable (n : string) (h : list call) : Prop :=
  exists f details, removed f details h /\ fs_removable (fs_Name f) h /\ PreservePoolsOnDelete (fs_Spec f) = false /\
    (exists id, id ∈ fs_pools details /\ pool_named id n h) /\ counted_empty n h.

Definition fs_finalizable (h : list call) : Prop :=
  (exists f r, resource_read f h /\ fs_Deleted f = true /\ ListClusters ns r ∈ h /\ no_cluster r) \/ exists f, checked f h.

Definition fs_needs (h : list call) (ev : call) : Prop :=
  match ev with
  | Ceph args _ => (forall n, args = rm_fs_args n -> fs_removable n h) /\ (forall n, args = delete_pool_args n -> fs_pool_removable n h)
  | Api verb _ _ _ => verb = "remove-finalizer" -> fs_finalizable h
  | _ => True
  end.

Lemma gentle_needs ev : gentle ev -> forall h, fs_needs h ev.
Proof. destruct ev; cbn; intros Hg h; try done. destruct Hg as (Hd & Hr & _). split; intros n E; exfalso; naive_solver. Qed.

Lemma gentle_triple {A} (m : MC A) P : harmless gentle m -> lasting P -> triple fs_needs P m (fun _ => P).
Proof. intros Hm HP. apply triple_free; [|done]. eapply harmless_impl; [apply gentle_needs|done]. Qed.

Lemma mild_triple {A} (m : MC A) P : harmless mild m -> lasting P -> triple fs_needs P m (fun _ => P).
Proof. intros Hm. apply gentle_triple. by apply gentle_of_mild. Qed.

(** *** What was known stays known *)

Lemma lasting_read f : lasting (resource_read f).
Proof. unfold resource_read. lasts. Qed.

Lemma lasting_dependents f : lasting (no_dependents f).
Proof. unfold no_dependents, existence_unknown, fs_absent, fs_unused, group_unused. lasts. Qed.

Lemma lasting_checked f : lasting (checked f).
Proof. unfold checked. lasts. Qed.

Lemma lasting_removable n : lasting (fs_removable n).
Proof. unfold fs_removable. lasts. Qed.

Lemma lasting_removed f d : lasting (removed f d).
Proof. unfold removed. lasts. Qed.


(** *** Dependents *)

Lemma harmless_args P args : gentle (Ceph args (Ok "")) -> forall (r : result string) h, P h -> fs_needs h (Ceph args r).
Proof. intros Hg r h _. by apply gentle_needs. Qed.

Lemma exists_triple P fsName :
  lasting P -> triple fs_needs P (filesystemExists (W := W) fsName)
    (fun r h => P h /\ match r with Ok true => True | Ok false => fs_absent fsName h | Err _ => existence_unknown fsName h end).
Proof.
  intros HP. unfold filesystemExists, getFilesystem.
  eapply triple_bind; [apply tried_triple, (answered_triple _ (fs_get_args fsName) _ _ (fun buf => [buf]) P HP)|intros [d|err]|done].
  - apply harmless_args. repeat split; intros; discriminate.
  - apply triple_ret. by intros h [Hp _].
  - case_bool_decide as Hc; [apply triple_ret|apply triple_fail]; intros h [Hp [Hin|(out & Hin & Hj & ->)]]; (split; [done|]).
    + by exists err.
    + done.
    + by exists (Err err).
    + by exists (Ok out).
Qed.

Lemma groups_triple P fsName groups deps failed :
  lasting P -> triple fs_needs P (groups_in_use (W := W) fsName groups deps failed)
    (fun r h => P h /\ (r = Ok ([], false) -> deps = [] /\ failed = false /\ Forall (group_unused fsName h) groups)).
Proof.
  intros HP. revert P HP deps failed. induction groups as [|g groups IH]; intros P HP deps failed; cbn [groups_in_use].
  { apply triple_ret. intros h Hp. split; [done|]. intros [= -> ->]. by repeat constructor. }
  destruct (ignoreSVG g) eqn:Eg.
  { eapply triple_conseq; [by apply IH|done|]. intros r h [Hp Hr]. split; [done|]. intros E. destruct (Hr E) as (-> & -> & Hf).
    split_and!; [done..|]. constructor; [by left|done]. }
  eapply triple_bind; [apply tried_triple, decoded_triple; [exact HP|]|intros [[|x l]|err]|done].
  - apply harmless_args. unfold subvolume_ls_args. repeat split; intros; discriminate.
  - eapply triple_conseq; [apply (IH (fun h => P h /\ group_unused fsName h g)); lasts; done| |].
    + intros h [Hp Hr]. split; [done|]. right. by apply Hr.
    + intros r h [[Hp Hu] Hr]. split; [done|]. intros E. destruct (Hr E) as (-> & -> & Hf). by split_and!; [..|constructor].
  - eapply triple_conseq; [by apply IH|by intros h [Hp _]|]. intros r h [Hp Hr]. split; [done|]. intros E.
    destruct (Hr E) as (Hd & _). by apply app_eq_nil in Hd as [_ Hd].
  - eapply triple_conseq; [by apply IH|by intros h [Hp _]|]. intros r h [Hp Hr]. split; [done|]. intros E. by destruct (Hr E) as (_ & ? & _).
Qed.

Lemma svg_triple P fsName :
  lasting P -> triple fs_needs P (subvolumeGroupDependents (W := W) fsName) (fun r h => P h /\ (r = Ok [] -> fs_unused fsName h)).
Proof.
  intros HP. unfold subvolumeGroupDependents, listSubvolumeGroups.
  eapply triple_bind; [apply (triple_wrapped _ _ _ _ _ (fun svgs h => exists out, Ceph ["fs"; "subvolumegroup"; "ls"; fsName] (Ok out) ∈ h /\
    json_named (W := W) out = Some svgs)), decoded_triple; [exact HP|]|intros svgs|by intros err h [Hp _]].
  { apply harmless_args. repeat split; intros; discriminate. }
  eapply triple_bind.
  - eapply triple_conseq; [apply (groups_triple (fun h => P h /\ exists out, Ceph ["fs"; "subvolumegroup"; "ls"; fsName] (Ok out) ∈ h /\
      json_named (W := W) out = Some svgs)); lasts; done| |intros r h Hr; exact Hr]. intros h [Hp Hr]. split; [done|by apply Hr].
  - intros [deps [|]]; cbn; [apply triple_fail|apply triple_ret]; intros h [[Hp (out & Hin & Hj)] Hr]; (split; [done|]); [done|].
    intros [= ->]. destruct (Hr eq_refl) as (_ & _ & Hf). by exists out, svgs.
  - by intros err h [[Hp _] _].
Qed.

Lemma fs_dependents_triple P f :
  lasting P -> triple fs_needs P (cephFilesystemDependents (W := W) f) (fun r h => P h /\ (r = Ok [] -> no_dependents f h)).
Proof.
  intros HP. unfold cephFilesystemDependents.
  eapply triple_bind; [by apply tried_triple, exists_triple|intros [b|err]|done].
  2: { apply triple_ret. intros h [Hp Hu]. split; [done|by left]. }
  set (K := fun h => fs_absent (fs_Name f) h \/ fs_unused (fs_Name f) h).
  apply (triple_bind _ _ _ _ (fun r h => P h /\ (r = Ok [] -> K h))); [|intros deps|by intros err h [Hp _]].
  { destruct b; [|apply triple_ret; intros h [Hp Ha]; split; [done|by left]].
    apply triple_wrapM. eapply triple_conseq; [by apply svg_triple|by intros h [Hp _]|].
    intros [l|err] h [Hp Hu]; (split; [done|]); [intros E; right; auto|done]. }
  eapply triple_bind; [eapply triple_wrapped, triple_conseq; [apply (recorded_triple _ _ _ (fun h => P h /\ (Ok (A := list string) deps = Ok [] -> K h)))|done|]|intros groups|].
  - intros h l [Hp Hk]. split; [by apply HP|]. intros E. assert (lasting K) as HK by (unfold K, fs_absent, fs_unused, group_unused; lasts).
    by apply HK, Hk.
  - done.
  - instantiate (1 := fun groups h => ListGroups (fs_Namespace f) (Ok groups) ∈ h). intros r h [Hp Hin]. split; [done|]. by intros a ->.
  - apply triple_ret. intros h [[Hp Hk] Hin]. split; [done|]. intros [= [-> Hnil%fmap_nil_inv]%app_eq_nil]. right.
    split; [by apply Hk|]. exists groups. split; [by apply Hin|]. eapply Forall_impl; [by apply filter_nil_none|].
    intros g Hg%String.eqb_neq. done.
  - by intros err h [[Hp _] _].
Qed.

(** *** Pools *)

Lemma empty_triple P n :
  lasting P -> triple fs_needs P (checkForImagesInPool (W := gmap string bool * W) n) (fun r h => P h /\ (r = Ok () -> counted_empty n h)).
Proof.
  intros HP. unfold checkForImagesInPool, checkIsPoolEmpty, GetPoolStatistics.
  set (K := fun stats (h : list call) => exists out, Rbd ["pool"; "stats"; n] (Ok out) ∈ h /\ json_statistics (W := W) out = Some stats).
  apply (triple_bind _ _ _ _ (fun r h => P h /\ (r = Ok true -> counted_empty n h))).
  - eapply triple_bind; [apply tried_triple, (triple_bind _ _ _ _ (fun r h => P h /\ forall out, r = Ok out -> Rbd ["pool"; "stats"; n] (Ok out) ∈ h))|intros [stats|err]|done].
    + apply triple_wrapM. eapply triple_conseq; [by apply recorded_triple|done|]. intros [out|err] h [Hp Hin]; (split; [done|]); [|done].
      by intros out' [= <-].
    + intros out. eapply triple_conseq; [apply decode_triple|intros h Hh; exact Hh|]. instantiate (1 := fun r h => P h /\ forall stats, r = Ok stats -> K stats h).
      intros r h [[Hp Hin] Hr]. split; [done|]. intros stats ->. exists out. auto.
    + by intros err h [Hp _].
    + apply triple_ret. intros h [Hp Hk]. split; [done|]. intros [= Hn]. destruct (Hk stats eq_refl) as (out & Hin & Hj). by exists out, stats.
    + case_match; [apply triple_ret|apply triple_fail]; by intros h [Hp _].
  - intros [|]; [apply triple_ret|apply triple_fail]; intros h [Hp Hr]; (split; [done|]); [by intros _; apply Hr|done].
  - by intros err h [Hp _].
Qed.

Lemma lookup_names id n pools (m : gmap Z string) :
  foldl (fun names p => <[sum_Number p := sum_Name p]> names) m pools !! id = Some n ->
  {| sum_Name := n; sum_Number := id |} ∈ pools \/ m !! id = Some n.
Proof.
  revert m. induction pools as [|p pools IH]; intros m; cbn; [by right|]. intros [Hin|Hl]%IH; [left; by right|].
  destruct (decide (sum_Number p = id)) as [<-|Hne]; [|right; by rewrite lookup_insert_ne in Hl].
  rewrite lookup_insert_eq in Hl. injection Hl as <-. left. destruct p. apply list_elem_of_here.
Qed.

Lemma names_triple P :
  lasting P -> triple fs_needs P (GetPoolNamesByID (W := gmap string bool * W))
    (fun r h => P h /\ forall names, r = Ok names -> forall id n, names !! id = Some n -> pool_named id n h).
Proof.
  intros HP. unfold GetPoolNamesByID, ListPoolSummaries.
  eapply triple_bind; [apply (triple_wrapped _ _ _ _ _ (fun pools h => exists out, Ceph ["osd"; "lspools"] (Ok out) ∈ h /\
    json_pools (W := W) out = Some pools)), decoded_triple; [exact HP|]|intros pools|by intros err h [Hp _]].
  { apply harmless_args. repeat split; intros; discriminate. }
  apply triple_ret. intros h [Hp Hr]. split; [done|]. intros names [= <-] id n [Hin|Hl]%lookup_names; [|by rewrite lookup_empty in Hl].
  destruct (Hr pools eq_refl) as (out & Hc & Hj). by exists out, pools.
Qed.

Lemma DeletePool_fs_triple P n :
  lasting P -> (forall h, P h -> counted_empty n h -> fs_pool_removable n h) ->
  triple fs_needs P (DeletePool (W := gmap string bool * W) n) (fun _ => P).
Proof.
  intros HP Hn. unfold DeletePool.
  apply triple_seq with (R := fun _ => P); [|intros details].
  { eapply triple_conseq; [apply (mild_triple _ P); [calls|done]|done|]. by intros r h Hp. }
  apply triple_seq with (R := fun _ h => P h /\ counted_empty n h); [|intros []].
  { eapply triple_conseq; [apply (triple_wrapped _ _ _ _ _ (fun _ => counted_empty n)); eapply triple_conseq; [by apply empty_triple|done|]|done|].
    - intros [[]|e] h [Hp Hc]; (split; [done|]); [by intros _ _; apply Hc|done].
    - intros r h [Hp Hc]. split; [done|]. intros a E. split; [done|by eapply Hc]. }
  apply triple_seq with (R := fun _ => P); [|intros out].
  { apply triple_wrapM, triple_record. intros r h [Hp Hc]. split; [split; intros m E|split]; [done| |by apply HP|by intros; apply HP].
    injection E as <- _. by apply Hn. }
  eapply triple_conseq; [apply (mild_triple _ P); [calls|done]|done|done].
Qed.

Lemma delete_pools_triple P names ids last :
  lasting P -> (forall id n, id ∈ ids -> names !! id = Some n -> forall h, P h -> counted_empty n h -> fs_pool_removable n h) ->
  triple fs_needs P (delete_pools (W := W) names ids last) (fun _ => P).
Proof.
  intros HP. revert last. induction ids as [|id ids IH]; intros last Hn; cbn [delete_pools].
  { destruct last; [by apply triple_fail|by apply triple_ret]. }
  apply (triple_bind _ _ _ _ (fun _ => P)); [|intros r|done].
  - apply triple_try. unfold deleteFSPool. destruct (names !! id) as [n|] eqn:En; [|by apply triple_fail].
    apply DeletePool_fs_triple; [done|]. intros h. eapply Hn; [apply list_elem_of_here|done].
  - apply IH. intros id' n Hin. apply Hn. by apply list_elem_of_further.
Qed.

Lemma RemoveFilesystem_triple f :
  DataPools (fs_Spec f) <> [] -> PreserveFilesystemOnDelete (fs_Spec f) = false ->
  triple fs_needs (checked f) (RemoveFilesystem (W := W) (fs_Name f) (PreservePoolsOnDelete (fs_Spec f))) (fun _ => checked f).
Proof.
  intros Hd Hp. unfold RemoveFilesystem, getFilesystem. assert (lasting (checked f)) as HP by apply lasting_checked.
  set (K := fun d (h : list call) => checked f h /\ exists out, Ceph (fs_get_args (fs_Name f)) (Ok out) ∈ h /\ json_fs (W := W) out = Some d).
  apply triple_seq with (R := K); [|intros d].
  { apply triple_wrapM. eapply triple_conseq; [apply (answered_triple _ (fs_get_args (fs_Name f)) _ _ (fun buf => [buf]) _ HP)|done|].
    - apply harmless_args. repeat split; intros; discriminate.
    - intros [d|e] h [Hc Hr]; (split; [done|]); [|done]. by intros d' [= <-]. }
  apply triple_seq with (R := fun _ => removed f d); [|intros out].
  { apply triple_wrapM, triple_record. intros r h [Hc Ho]. split; [split; intros n E|].
    - injection E as <-. by exists f.
    - done.
    - assert (checked f (h ++ [Ceph (rm_fs_args (fs_Name f)) r])) as Hc' by by apply HP.
      split; [done|]. intros a Ea. split_and!; [done| |].
      + destruct Ho as (o & Hin & Hj). exists o. split; [|done]. apply elem_of_app. by left.
      + destruct r as [x|]; [|done]. exists x. apply elem_of_app. right. apply list_elem_of_here. }
  destruct (PreservePoolsOnDelete (fs_Spec f)) eqn:Epp; [apply triple_ret; by intros h []|].
  apply triple_wrapM. unfold deleteFSPools.
  assert (lasting (removed f d)) as HR by apply lasting_removed.
  apply triple_seq with (R := fun names h => removed f d h /\ forall id n, names !! id = Some n -> pool_named id n h); [|intros names].
  { eapply triple_conseq; [apply (triple_wrapped _ _ _ _ _ (fun names h => forall id n, names !! id = Some n -> pool_named id n h)); by apply names_triple|done|].
    intros r h [Hr Hn]. split; [by destruct Hr|]. intros a E. split; [done|by apply Hn]. }
  set (P := fun h => _ /\ _).
  assert (lasting P) as HPP.
  { apply lasting_and; [done|]. intros h l Hl id n Hi. assert (lasting (pool_named id n)) as Hx by (unfold pool_named; lasts). by apply Hx, Hl. }
  eapply triple_conseq; [apply (delete_pools_triple P names (fs_pools d) None HPP)|done|intros r h [[Hc _] _]; exact Hc].
  intros id n Hid Hn h [Hr Hk] Hc. exists f, d.
  split_and!; [done|exists f; split_and!; [by destruct Hr|done..]|done| |done]. exists id. split; [done|by apply Hk].
Qed.

Lemma deleteFilesystem_triple f : triple fs_needs (checked f) (deleteFilesystem (W := W) f) (fun _ => checked f).
Proof.
  assert (lasting (checked f)) as HP by apply lasting_checked. unfold deleteFilesystem.
  eapply triple_bind; [apply mild_triple; [calls|exact HP]|intros []|done].
  eapply triple_bind; [apply mild_triple; [calls|exact HP]|intros r|done].
  destruct (DataPools (fs_Spec f)) as [|p l] eqn:Ed; [by apply triple_ret|].
  destruct (PreserveFilesystemOnDelete (fs_Spec f)) eqn:Ep; [by apply triple_ret|].
  apply (triple_bind _ _ _ _ (fun _ => checked f)); [|by intros; apply triple_ret|done].
  apply triple_try, RemoveFilesystem_triple; [by rewrite Ed|done].
Qed.

(** *** The reconcile *)

Lemma latest_triple P f blocked :
  lasting P -> triple fs_needs P (RetryOnConflict (W := W) 4 (update_condition_once f blocked))
    (fun r h => P h /\ forall latest, r = Ok latest -> GetFs (fs_Namespace f) (fs_Name f) (Ok latest) ∈ h).
Proof.
  intros HP. apply retry_triple; [by intros r h []|]. unfold update_condition_once.
  set (K := fun latest => fun h => P h /\ GetFs (fs_Namespace f) (fs_Name f) (Ok latest) ∈ h).
  eapply triple_bind; [eapply (triple_wrapped _ _ _ _ _ (fun latest h => GetFs (fs_Namespace f) (fs_Name f) (Ok latest) ∈ h)), triple_conseq;
    [apply (recorded_triple _ (GetFs _ _) _ P HP); done|done|intros r h [Hp Hin]; split; [done|]; by intros a ->]|intros latest|by intros err h []].
  apply (triple_bind _ _ _ _ (fun _ => K latest)); [|intros []; apply triple_ret|by intros err h []].
  - eapply triple_conseq; [apply (mild_triple _ (K latest)); [calls|unfold K; lasts; done]|intros h [Hp Hr]; split; [done|by apply Hr]|done].
  - intros h [Hp Hin]. split; [done|]. by intros ? [= <-].
Qed.

Lemma finalizer_triple f : triple fs_needs fs_finalizable (remove_fs_finalizer (W := W) f) (fun _ _ => True).
Proof. unfold remove_fs_finalizer, api. apply triple_wrapM, triple_record. intros r h Hf. split; [by intros _|done]. Qed.

(** A gentle step of the reconcile. *)
Lemma gentle_return {A} res (m : MC A) k P :
  harmless gentle m -> lasting P -> (forall a, triple fs_needs P (k a) (fun _ _ => True)) ->
  triple fs_needs P (or_return (W := W) res m k) (fun _ _ => True).
Proof.
  intros Hm HP Hk. apply triple_or_return with (R := fun _ => P); [|done].
  eapply triple_conseq; [by apply gentle_triple|done|]. by intros r h Hp a _.
Qed.

Lemma reconcile_fs_deletion_triple f :
  triple fs_needs (fun h => resource_read f h /\ fs_Deleted f = true) (reconcile_fs_deletion (W := W) f) (fun _ _ => True).
Proof.
  set (P := fun h => _ /\ _). assert (lasting P) as HP by (unfold P; lasts; apply lasting_read).
  unfold reconcile_fs_deletion.
  apply triple_or_return with (R := fun deps h => P h /\ (deps = [] -> no_dependents f h)).
  { eapply triple_conseq; [by apply fs_dependents_triple|done|]. intros r h [Hp Hr] deps ->. split; [done|]. intros ->. by apply Hr. }
  intros [|d deps].
  - apply (triple_bind _ _ _ _ (fun r h => match r with Ok (Ok latest) => checked latest h | _ => checked f h end)); [|intros r|done].
    + eapply triple_conseq; [apply tried_triple, (latest_triple (fun h => P h /\ no_dependents f h))| |].
      * apply lasting_and; [done|apply lasting_dependents].
      * intros h [Hp Hn]. auto.
      * intros [[latest|e]|e] h Hr; [..|done]; destruct Hr as [[[Hread Hdel] Hn] Hl]; exists f; split_and!; auto.
    + set (f' := match r with Ok latest => latest | Err _ => f end).
      assert (lasting (checked f')) as HC by apply lasting_checked.
      eapply triple_conseq; [apply (gentle_return _ _ _ (checked f')); [apply gentle_of_mild; calls|done|]|by destruct r|done]. intros v.
      apply triple_or_return with (R := fun _ => checked f'); [|intros []].
      { apply triple_wrapM. eapply triple_conseq; [apply deleteFilesystem_triple|done|]. by intros. }
      eapply triple_bind; [apply mild_triple; [unfold cancel_fs_monitoring; calls|exact HC]|intros []|done].
      apply triple_or_return with (R := fun _ _ => True); [|by intros; apply triple_ret].
      eapply triple_conseq; [apply finalizer_triple| |done]. intros h Hc. right. by exists f'.
  - eapply triple_conseq; [apply (gentle_triple _ P)|by intros h []|done]; [|done].
    apply harmless_bind; [apply harmless_try, gentle_of_mild, retry_mild; calls|intros; apply harmless_ret].
Qed.

Lemma or_return_gentle {A} res (m : MC A) k :
  harmless gentle m -> (forall a, harmless gentle (k a)) -> harmless gentle (or_return (W := W) res m k).
Proof. intros Hm Hk. unfold or_return. apply harmless_bind; [by apply harmless_try|intros [a|e]; [apply Hk|apply harmless_ret]]. Qed.

Lemma or_failed_gentle n m res c k :
  harmless gentle c -> harmless gentle k -> harmless gentle (or_failed (W := W) n m res c k).
Proof.
  intros Hc Hk. unfold or_failed. apply harmless_bind; [by apply harmless_try|intros [a|e]; [done|]].
  apply harmless_bind; [apply harmless_try, gentle_of_mild; auto with calm|intros [s|e']; apply harmless_ret].
Qed.

Lemma createFilesystem_gentle cluster version f rotate : harmless gentle (createFilesystem (W := W) cluster version f rotate).
Proof.
  unfold createFilesystem. apply harmless_bind; [auto with calm|intros []].
  apply gentle_of_mild. calls.
Qed.

Lemma finish_gentle fsid n m g f x : harmless gentle (finish_creation (W := W) fsid n m g f x).
Proof.
  unfold finish_creation, reconcile_mirroring, monitor_fs.
  repeat first [apply or_return_gentle; [|intros] | apply or_failed_gentle | case_match | apply harmless_ret]; try (apply gentle_of_mild; calls).
Qed.

Lemma creation_gentle fsid n m g f c : harmless gentle (reconcile_fs_creation (W := W) fsid n m g f c).
Proof.
  unfold reconcile_fs_creation, reconcileCreateFilesystem.
  apply harmless_bind; [apply gentle_of_mild; calls|intros [[v v']|err]; [|case_match; apply harmless_ret]].
  case_match; [apply harmless_ret|].
  apply harmless_bind; [apply gentle_of_mild; calls|intros [[]|err]; [|case_match; apply harmless_ret]].
  apply harmless_bind; [apply harmless_silent|intros allow]. apply or_return_gentle; [apply gentle_of_mild; calls|intros rotate].
  apply harmless_bind; [apply harmless_try; apply harmless_bind; [apply gentle_of_mild; calls|intros []]|intros [[]|err]].
  - apply harmless_wrapM, createFilesystem_gentle.
  - apply harmless_bind; [apply gentle_of_mild; calls|intros t; apply finish_gentle].
  - case_match; [apply harmless_fail|]. apply or_failed_gentle; [apply harmless_fail|apply harmless_ret].
Qed.

Lemma reconcile_fs_triple fsid g f :
  triple fs_needs (resource_read f) (reconcile_fs (W := W) fsid ns name g f) (fun _ _ => True).
Proof.
  unfold reconcile_fs. eapply triple_bind; [apply ready_triple; [apply lasting_read|done]|intros [[[cluster ready] clusterExists] response]|done].
  set (P := fun h => resource_read f h /\ cluster_listed ns cluster clusterExists h).
  assert (lasting P) as HP by (apply lasting_and; [apply lasting_read|apply lasting_listed_cluster]).
  apply triple_conseq with (P' := P) (Q' := fun _ _ => True); [|intros h [Hr Hc]; split; [done|by eapply Hc]|done].
  assert (triple fs_needs P
    (if fs_Deleted f && negb clusterExists
     then _ ← cancel_fs_monitoring f; or_return (W := W) Done (remove_fs_finalizer f) (fun _ => mret (Done, None))
     else mret (response, None)) (fun _ _ => True)) as Hgone.
  { destruct (fs_Deleted f) eqn:Ed, clusterExists eqn:Ec; cbn [andb negb]; try (by apply triple_ret).
    eapply triple_bind; [apply (mild_triple _ P); [unfold cancel_fs_monitoring; calls|exact HP]|intros []|done].
    apply triple_or_return with (R := fun _ _ => True); [|intros _; by apply triple_ret].
    eapply triple_conseq; [apply finalizer_triple| |done]. intros h [Hs Hc]. left. destruct Hc as (r & Hin & Hn & _). exists f, r. auto. }
  destruct cluster as [c|], ready; [|exact Hgone..].
  eapply triple_bind; [apply mild_triple; [auto with calm|exact HP]|intros contexts|done].
  eapply triple_bind; [apply mild_triple; [calls|exact HP]|intros []|done].
  apply gentle_return; [apply gentle_of_mild; calls|done|intros _].
  destruct (fs_Deleted f) eqn:Ed.
  - eapply triple_conseq; [apply reconcile_fs_deletion_triple|by intros h [Hs _]|done].
  - eapply triple_conseq; [apply (gentle_triple _ P); [apply creation_gentle|done]|done|done].
Qed.

(** What a first status returns is the resource as it was read, with a status. *)
Lemma fresh_triple P g s m i x :
  lasting P -> triple fs_needs P (FileController.updateStatus (W := W) g ns name s m i x)
    (fun r h => P h /\ forall f, r = Ok (Some f) -> resource_read f h).
Proof.
  intros HP. apply retry_triple; [by intros r h []|]. unfold set_fs_status_once.
  eapply triple_bind; [apply tried_triple, (recorded_triple _ (GetFs ns name) _ P HP); done|intros [f|err]|done].
  2: { case_match; [apply triple_ret|apply triple_fail]; intros h [Hp _]; (split; [done|]); by intros. }
  set (new := set_fs_status f _). set (K := fun h => P h /\ resource_read new h).
  assert (lasting K) as HK by (unfold K, resource_read; lasts; done).
  apply (triple_bind _ _ _ _ (fun _ => K)); [|intros []; apply triple_ret|by intros err h []].
  - eapply triple_conseq; [apply (mild_triple _ K); [calls|done]| |done]. intros h [Hp Hin]. split; [done|]. by exists f.
  - intros h [Hp Hr]. split; [done|]. by intros ? [= <-].
Qed.

Lemma reconcile_file_triple fsid : triple fs_needs (fun _ => True) (reconcile_file (W := W) fsid ns name) (fun _ _ => True).
Proof.
  unfold reconcile_file.
  eapply triple_bind; [apply tried_triple, (recorded_triple _ (GetFs ns name) _ (fun _ => True)); done|intros [f|err]|done].
  2: { eapply triple_conseq; [apply (mild_triple _ (fun _ => True)); [calls|done]|done|done]. }
  eapply triple_conseq; [apply (gentle_return _ _ _ (resource_read f)); [apply gentle_of_mild; calls|apply lasting_read|]| |done].
  2: { intros h [_ Hin]. by exists f. }
  intros [|]; [by apply triple_ret|]. destruct (fs_Status f); [apply reconcile_fs_triple|].
  apply triple_or_return with (R := fun fresh h => forall f', fresh = Some f' -> resource_read f' h); [|intros [fresh|]].
  - apply triple_wrapM. eapply triple_conseq; [apply (fresh_triple (resource_read f)), lasting_read|done|].
    intros [o|err] h [_ Hr] a E; [|done]. injection E as <-. by intros f' ->; apply Hr.
  - eapply triple_conseq; [apply reconcile_fs_triple|intros h Hr; by apply Hr|done].
  - by apply triple_ret.
Qed.

(** C22: a file system is removed from Ceph only if its resource was read and is being deleted, has data
    pools and is not to be preserved, and no resource of a subvolume group names it and Ceph lists no
    subvolume in any of its groups (or has no such file system), unless Ceph's answer does not tell whether
    it exists; a pool is deleted only after its file system was removed, if pools are not preserved, and
    rbd counted no images in it; and the finalizer is removed only from a resource that is being deleted
    and after that check, or when no cluster that stays was listed. *)
Theorem fs_deletion_is_checked fsid e pre post ev :
  log (reconcile_file (W := W) fsid ns name (World e [])).1 = pre ++ ev :: post -> fs_needs pre ev.
Proof. intros E. destruct (triple_run _ _ _ _ e (reconcile_file_triple fsid) I) as [Hg _]. by eapply Hg. Qed.

End FsDeletion.

(** ** Deleting a subvolume group *)

Section GroupDeletion.
Context {W : Type} `{FsEnv W} (ns name : string).

Abbreviation MC := (MW (gmap string bool * W)).

Definition rm_group_args (fs g : string) : list string := ["fs"; "subvolumegroup"; "rm"; fs; g].

(** The resource is being deleted and the first cluster that was listed is [c]. *)
Definition group_read (g : CephFilesystemSubVolumeGroup) (h : list call) : Prop := GetGroup ns name (Ok g) ∈ h /\ svg_Deleted g = true.

Definition found (g : CephFilesystemSubVolumeGroup) (same : list CephFilesystemSubVolumeGroup) (h : list call) : Prop :=
  FindGroups ns (group_index g) (Ok same) ∈ h.

Definition first_cluster (c : CephCluster) (h : list call) : Prop := exists l, ListClusters ns (Ok (c :: l)) ∈ h.

Definition group_removable (fs n : string) (h : list call) : Prop :=
  exists g same c, group_read g h /\ found g same h /\ (length same <= 1)%nat /\ first_cluster c h /\ cl_External c = false /\
    fs = svg_FilesystemName g /\ n = getSubvolumeGroupName g.

(** The group was removed, was not there, or stays because it is not the operator's or another resource
    stands for it. *)
Definition group_settled (g : CephFilesystemSubVolumeGroup) (h : list call) : Prop :=
  (exists r, Ceph (rm_group_args (svg_FilesystemName g) (getSubvolumeGroupName g)) r ∈ h /\
     match r with Ok _ => True | Err err => ExitStatus (W := W) err = Some ENOENT end) \/
  (exists c, first_cluster c h /\ cl_External c = true) \/
  (exists same, found g same h /\ (1 < length same)%nat).

Definition group_finalizable (h : list call) : Prop :=
  exists g, group_read g h /\ (group_settled g h \/ exists r, ListClusters ns r ∈ h /\ no_cluster r).

Definition group_needs (h : list call) (ev : call) : Prop :=
  match ev with
  | Ceph args _ => (forall n, args <> rm_fs_args n) /\ (forall n, args <> delete_pool_args n) /\
                   (forall fs n, args = rm_group_args fs n -> group_removable fs n h)
  | Api verb _ _ _ => verb = "remove-finalizer" -> group_finalizable h
  | _ => True
  end.

Lemma gentle_group_triple {A} (m : MC A) P : harmless gentle m -> lasting P -> triple group_needs P m (fun _ => P).
Proof.
  intros Hm HP. apply triple_free; [|done]. eapply harmless_impl; [|done]. intros ev Hg h. destruct ev; cbn in *; try done.
  destruct Hg as (Hd & Hr & Hg). split_and!; [done..|]. intros fs n E. exfalso. by eapply Hg.
Qed.

Lemma group_return {A} res (m : MC A) k P :
  harmless gentle m -> lasting P -> (forall a, triple group_needs P (k a) (fun _ _ => True)) ->
  triple group_needs P (or_return (W := W) res m k) (fun _ _ => True).
Proof.
  intros Hm HP Hk. apply triple_or_return with (R := fun _ => P); [|done].
  eapply triple_conseq; [by apply gentle_group_triple|done|]. by intros r h Hp a _.
Qed.

Lemma lasting_group_read g : lasting (group_read g).
Proof. unfold group_read. lasts. Qed.

Lemma deleteSubVolumeGroup_triple g P :
  lasting P -> (forall h, P h -> group_removable (svg_FilesystemName g) (getSubvolumeGroupName g) h) ->
  triple group_needs P (deleteSubVolumeGroup (W := W) g) (fun r h => P h /\ (r = Ok () -> group_settled g h)).
Proof.
  intros HP Hr. unfold deleteSubVolumeGroup, DeleteCephFSSubVolumeGroup, run.
  set (args := ["fs"; _; _; _; _]).
  apply (triple_bind _ _ _ _ (fun r h => P h /\ match r with Ok (Ok _) => exists o, Ceph args (Ok o) ∈ h | Ok (Err e) => Ceph args (Err e) ∈ h | _ => False end));
    [apply triple_try; eapply triple_bind; [apply recorded_triple; [exact HP|]|intros out; apply triple_ret|]|intros [[]|err]|by intros err h []].
  - intros r h Hp. split_and!; [done..|]. intros fs n [= <- <-]. by apply Hr.
  - intros h [Hp Hin]. split; [done|by exists out].
  - by intros err h [Hp Hin].
  - apply triple_ret. intros h [Hp (o & Ho)]. split; [done|]. intros _. left. by exists (Ok o).
  - case_bool_decide as Hc; [apply triple_ret; intros h [Hp Hin]; split; [done|]; intros _; left; by exists (Err err)|].
    assert (forall X (m : MC X), harmless gentle m -> triple group_needs (fun h => P h /\ Ceph args (Err err) ∈ h) m (fun _ => P)) as Hg.
    { intros X m Hm. eapply triple_conseq; [by apply (gentle_group_triple _ P)|by intros h []|done]. }
    case_bool_decide; [case_match|]; [|apply triple_fail; intros h [Hp _]; by split..].
    eapply triple_bind; [apply Hg, gentle_of_mild; calls|intros []; apply triple_fail; by intros h Hp|]. by intros e h Hp.
Qed.

Lemma group_finalizer_triple g : triple group_needs group_finalizable (remove_group_finalizer (W := W) g) (fun _ _ => True).
Proof. unfold remove_group_finalizer, api. apply triple_wrapM, triple_record. intros r h Hf. split; [by intros _|done]. Qed.

Lemma reconcile_group_deletion_triple g c :
  triple group_needs (fun h => group_read g h /\ first_cluster c h) (reconcile_group_deletion (W := W) ns g c) (fun _ _ => True).
Proof.
  set (P := fun h => _ /\ _). assert (lasting P) as HP by (unfold P, first_cluster; lasts; apply lasting_group_read).
  unfold reconcile_group_deletion. apply triple_or_return with (R := fun same h => P h /\ found g same h).
  { apply triple_wrapM. eapply triple_conseq; [by apply recorded_triple|done|]. intros [same|err] h [Hp Hin] a E; [|done]. by injection E as <-. }
  intros same. set (K := fun h => _ /\ _). assert (lasting K) as HK by (unfold K, found; lasts; done).
  apply (triple_bind _ _ _ _ (fun r h => P h /\ match r with Ok (Ok _) => group_settled g h | _ => True end)); [apply triple_try|intros [[]|err]|done].
  - destruct (cl_External c) eqn:Ex; [apply triple_ret; intros h [[Hr Hc] Hf]; split; [done|]; right; left; by exists c|].
    destruct (length same <=? 1)%nat eqn:El.
    + eapply triple_conseq; [apply (deleteSubVolumeGroup_triple g K HK)|done|].
      * intros h [[Hr Hc] Hf]. apply Nat.leb_le in El. exists g, same, c. by split_and!.
      * intros [[]|e] h [[Hp _] Hs]; (split; [done|]); [by apply Hs|done].
    + apply triple_ret. intros h [Hp Hf]. split; [done|]. right; right. exists same. apply Nat.leb_gt in El. by split.
  - apply triple_or_return with (R := fun _ _ => True); [|intros _; by apply triple_ret].
    eapply triple_conseq; [apply group_finalizer_triple| |done]. intros h [[Hr _] Hs]. exists g. auto.
  - case_match; by apply triple_ret.
Qed.

Lemma group_status_mild g n m s t : harmless mild (update_group_status (W := W) g n m s t).
Proof. unfold update_group_status. apply harmless_bind; [apply harmless_try, retry_mild; calls|intros; apply harmless_ret]. Qed.
#[local] Hint Resolve group_status_mild : calm.

Lemma group_creation_gentle g c : harmless gentle (reconcile_group_creation (W := W) ns name g c).
Proof.
  apply gentle_of_mild. unfold reconcile_group_creation, create_group, or_return. calls.
Qed.

Lemma reconcile_group_triple g :
  triple group_needs (fun h => GetGroup ns name (Ok g) ∈ h) (reconcile_group (W := W) ns name g) (fun _ _ => True).
Proof.
  unfold reconcile_group. eapply triple_bind; [apply ready_triple; [apply lasting_member|done]|intros [[[cluster ready] clusterExists] response]|done].
  set (P := fun h => GetGroup ns name (Ok g) ∈ h /\ cluster_listed ns cluster clusterExists h).
  assert (lasting P) as HP by (apply lasting_and; [apply lasting_member|apply lasting_listed_cluster]).
  apply triple_conseq with (P' := P) (Q' := fun _ _ => True); [|intros h [Hr Hc]; split; [done|by eapply Hc]|done].
  assert (triple group_needs P
    (if svg_Deleted g && negb clusterExists
     then or_return (W := W) ImmediateRetryResult (remove_group_finalizer g) (fun _ => mret (Done, None))
     else mret (response, None)) (fun _ _ => True)) as Hgone.
  { destruct (svg_Deleted g) eqn:Ed, clusterExists eqn:Ec; cbn [andb negb]; try (by apply triple_ret).
    apply triple_or_return with (R := fun _ _ => True); [|intros _; by apply triple_ret].
    eapply triple_conseq; [apply group_finalizer_triple| |done]. intros h [Hs (r & Hin & Hn & _)]. exists g. split; [done|]. right. exists r. auto. }
  destruct cluster as [c|], ready; [|exact Hgone..].
  apply group_return; [apply gentle_of_mild; calls|done|intros _].
  destruct (svg_Deleted g) eqn:Ed.
  - eapply triple_conseq; [apply reconcile_group_deletion_triple| |done]. intros h [Hr (r & Hin & _ & Hc)].
    split; [done|]. destruct (Hc c eq_refl) as [l ->]. by exists l.
  - eapply triple_conseq; [apply (gentle_group_triple _ P); [apply group_creation_gentle|done]|done|done].
Qed.

Lemma reconcile_subvolumegroup_triple : triple group_needs (fun _ => True) (reconcile_subvolumegroup (W := W) ns name) (fun _ _ => True).
Proof.
  unfold reconcile_subvolumegroup.
  eapply triple_bind; [apply tried_triple, (recorded_triple _ (GetGroup ns name) _ (fun _ => True)); done|intros [g|err]|done].
  2: { case_match; by apply triple_ret. }
  eapply triple_conseq; [apply (group_return _ _ _ (fun h => GetGroup ns name (Ok g) ∈ h)); [apply gentle_of_mild; calls|apply lasting_member|]|by intros h []|done].
  intros [|]; [by apply triple_ret|].
  eapply triple_bind; [apply gentle_group_triple; [apply gentle_of_mild; calls|apply lasting_member]|intros []|done].
  apply reconcile_group_triple.
Qed.

(** C25: a reconcile of a subvolume group removes a group from Ceph only if its resource was read and is
    being deleted, the cluster is not external and no second resource stands for the same group of the
    same file system; it never removes a file system or a pool; and the finalizer is removed only from a
    resource that is being deleted, after the group was removed or found missing or is to stay, or when no
    cluster that stays was listed. *)
Theorem group_deletion_is_checked e pre post ev :
  log (reconcile_subvolumegroup (W := W) ns name (World e [])).1 = pre ++ ev :: post -> group_needs pre ev.
Proof. intros E. destruct (triple_run _ _ _ _ e reconcile_subvolumegroup_triple I) as [Hg _]. by eapply Hg. Qed.

End GroupDeletion.

(** ** Witnesses *)

Definition doomed_lab : FsLab := fs_lab_with fs_ceph (myfs true (fs_spec false false)) [] ["a"; "b"].

Definition fs_deletion_log : list call := log (reconcile_file "fsid" "rook-ceph" "myfs" (begin doomed_lab)).1.

Lemma fs_deletion_is_checked_witness :
  fs_deletion_log !! 18%nat = Some (Ceph (rm_fs_args "myfs") (Ok "")) /\ fs_removable (W := FsLab) "rook-ceph" "myfs" "myfs" (take 18 fs_deletion_log).
Proof.
  split; [vm_compute; reflexivity|].
  apply (fs_deletion_is_checked (W := FsLab) "rook-ceph" "myfs" "fsid" (∅, doomed_lab) (take 18 fs_deletion_log) (drop 19 fs_deletion_log)
           (Ceph (rm_fs_args "myfs") (Ok ""))); [symmetry; apply take_drop_middle; vm_compute; reflexivity|reflexivity].
Defined.

Definition group_deletion_log : list call := log (reconcile_subvolumegroup "rook-ceph" "csi" (begin doomed_lab)).1.

Lemma group_deletion_is_checked_witness :
  group_deletion_log !! 5%nat = Some (Ceph (rm_group_args "myfs" "csi") (Ok "")) /\
  group_removable "rook-ceph" "csi" "myfs" "csi" (take 5 group_deletion_log).
Proof.
  split; [vm_compute; reflexivity|].
  apply (group_deletion_is_checked (W := FsLab) "rook-ceph" "csi" (∅, doomed_lab) (take 5 group_deletion_log) (drop 6 group_deletion_log)
           (Ceph (rm_group_args "myfs" "csi") (Ok ""))); [symmetry; apply take_drop_middle; vm_compute; reflexivity|reflexivity].
Defined.

(** ** What the theorems do not promise *)

(** The commands of a run. *)
Definition commands (l : list call) : list (list string) := omap (fun ev => match ev with Ceph args _ => Some args | _ => None end) l.

(** When Ceph's answer does not tell whether the file system exists, the file system is taken down and its
    finalizer is removed, although a resource of a group names it and a subvolume is in use. *)
Definition flaky_ceph (used : list string) (args : list string) : result string :=
  match args with
  | "fs" :: "get" :: _ => Err (External "EIO")
  | "fs" :: "subvolume" :: "ls" :: _ => Ok (String.concat "," used)
  | _ => fs_ceph args
  end.

Example dependents_unseen :
  let l := fs_lab_with (flaky_ceph ["vol"]) (myfs true (fs_spec false false)) [group false "csi" ""] [] in
  let h := log (reconcile_file "fsid" "rook-ceph" "myfs" (begin l)).1 in
  (cephFilesystemDependents (fl_fs l) (begin l)).2 = Ok [] /\ ["fs"; "fail"; "myfs"] ∈ commands h /\
  last h = Some (Api "remove-finalizer" "CephFilesystem" "myfs" false).
Proof. split_and!; [vm_compute; reflexivity|apply (bool_decide_unpack _); vm_compute; exact I|vm_compute; reflexivity]. Qed.

(** A resource whose pools are to be preserved is created as if the file system were to be preserved, but its
    deletion removes the file system. *)
Example preserved_pools_fs_removed :
  rm_fs_args "myfs" ∈ commands (log (reconcile_file "fsid" "rook-ceph" "myfs" (begin (fs_lab_with fs_ceph (myfs true (fs_spec true false)) [] []))).1).
Proof. apply (bool_decide_unpack _). vm_compute. exact I. Qed.

(** The finalizer is removed also when Ceph refused to remove the file system. *)
Example removal_failed :
  let refuses args := match args with "fs" :: "rm" :: _ => Err (External "EPERM") | _ => fs_ceph args end in
  last (log (reconcile_file "fsid" "rook-ceph" "myfs" (begin (fs_lab_with refuses (myfs true (fs_spec false false)) [] []))).1) =
  Some (Api "remove-finalizer" "CephFilesystem" "myfs" false).
Proof. vm_compute. reflexivity. Qed.

End FsSafety.
