(* ===== verification/CleanupSafety.v ===== *)
(** * CleanupSafety: what the cleanup jobs remove, and when they report success

    The theorems on file Cleanup. *)

From stdpp Require Import base gmap strings list fin_maps.
From Stdlib Require Import ZArith Ascii.
From S2P Require Import Prelude Pools BlockPool PoolLab FsClient Mds FileController SubVolume RadosNamespace Cleanup FsLab FsSafety.
Import Log Pools BlockPool PoolLab FsClient Mds FileController SubVolume RadosNamespace Cleanup FsLab FsSafety.
Open Scope Z_scope.

Module CleanupSafety.

(** ** Triples of a job that keeps its last error *)

Section Notes.
Context {W : Type} `{CleanupEnv W} (needs : list call -> call -> Prop).

Abbreviation MC := (MW (gmap string bool * W)).

(** A command whose output does not matter: it was tried, and if there is no error it was successful. *)
Definition tried (ev : result string -> call) (h : list call) : Prop := exists r, ev r ∈ h.

Definition succeeded (ev : result string -> call) (h : list call) : Prop := exists out, ev (Ok out) ∈ h.

Lemma lasting_tried ev : lasting (tried ev).
Proof. unfold tried. lasts. Qed.

Lemma lasting_succeeded ev : lasting (succeeded ev).
Proof. unfold succeeded. lasts. Qed.

Definition command_post (ev : result string -> call) (P : list call -> Prop) (r : result unit) (h : list call) : Prop :=
  (P h /\ tried ev h) /\ (r = Ok () -> succeeded ev h).

Lemma command_triple (ev : result string -> call) (m : M (gmap string bool * W) string) P :
  lasting P -> (forall r h, P h -> needs h (ev r)) -> triple needs P (_ ← record ev m; mret () : MC unit) (command_post ev P).
Proof.
  intros HP Hn. eapply triple_bind; [by apply recorded_triple|intros out; apply triple_ret; intros h [Hp Hin]|intros err h [Hp Hin]].
  - split; [split; [done|by exists (Ok out)]|]. intros _. by exists out.
  - split; [split; [done|by exists (Err err)]|done].
Qed.

Lemma command_wrapped (m : MC unit) ev fmt args P : triple needs P m (command_post ev P) -> triple needs P (wrapM m fmt args) (command_post ev P).
Proof.
  intros Hm. apply triple_wrapM. eapply triple_conseq; [exact Hm|done|]. intros [[]|err] h [Hp Hr]; (split; [done|]); [done|].
  by intros ?.
Qed.

Lemma run_rbd_triple args fmt names P :
  lasting P -> (forall r h, P h -> needs h (Rbd args r)) -> triple needs P (run_rbd (W := W) args fmt names) (command_post (Rbd args) P).
Proof.
  intros HP Hn. unfold run_rbd.
  apply (triple_bind _ _ _ _ (fun r h => (P h /\ tried (Rbd args) h) /\ (forall out, r = Ok out -> succeeded (Rbd args) h))).
  - apply triple_wrapM. eapply triple_conseq; [by apply recorded_triple|done|]. intros [out|err] h [Hp Hin]; (split; [by split; [|eexists]|]); [|done].
    intros out' _. by exists out.
  - intros out. apply triple_ret. intros h [Hp Hs]. split; [done|]. intros _. by eapply Hs.
  - by intros err h [Hp _].
Qed.

Lemma note_triple (m : MC unit) fmt args e P P' D R :
  triple needs P m (fun r h => P' h /\ (r = Ok () -> R h)) -> lasting D ->
  triple needs (fun h => P h /\ (e = None -> D h)) (note (W := W) m fmt args e)
    (fun r h => match r with Ok e' => P' h /\ (e' = None -> D h /\ R h) | Err _ => False end).
Proof.
  intros Hm HD. unfold note.
  eapply triple_bind; [|intros r|].
  - apply tried_triple, triple_wrapM. eapply triple_conseq; [apply (triple_frame _ _ _ _ _ (lasting_when (e = None) D HD) Hm)|tauto|].
    instantiate (1 := fun r h => (e = None -> D h) /\ P' h /\ (r = Ok () -> R h)).
    intros [[]|err] h (Hd & Hp & Hr); split_and!; auto; discriminate.
  - apply triple_ret. destruct r as [[]|err]; intros h (Hd & Hp & Hr); (split; [done|]); [|done]. auto.
  - done.
Qed.

(** A loop over a list that stops at the first error. *)
Lemma each_done_triple {A} (f : A -> MC unit) (l : list A) P (R : A -> list call -> Prop) :
  (forall a, lasting (R a)) -> (forall a, a ∈ l -> triple needs P (f a) (fun r h => P h /\ (r = Ok () -> R a h))) ->
  triple needs P (forM_ l f) (fun r h => P h /\ (r = Ok () -> Forall (fun a => R a h) l)).
Proof.
  intros HR. induction l as [|a l IH]; intros Hf; cbn [forM_]; [by apply triple_ret|].
  eapply triple_bind; [apply Hf, list_elem_of_here|intros []|by intros err h [Hp _]].
  eapply triple_conseq; [apply (triple_frame _ (R a)); [apply HR|apply IH; intros x Hx; apply Hf; by right]|intros h [Hp Ha]; split; [by apply Ha|done]|].
  intros r h (Ha & Hp & Hl). split; [done|]. intros E. constructor; [done|by apply Hl].
Qed.

End Notes.

(** ** The images of a pool *)

Section Images.
Context {W : Type} `{CleanupEnv W} (poolName radosNamespace : string).

Abbreviation MC := (MW (gmap string bool * W)).

(** The images in an answer of rbd. *)
Definition images_in (out : string) : option (list CephBlockImage) :=
  match json_line (split_byte newline out) with None => Some [] | Some text => json_images (W := W) text end.

Definition images_listed (images : list CephBlockImage) (h : list call) : Prop :=
  exists out, Rbd (list_images_args poolName radosNamespace) (Ok out) ∈ h /\ images_in out = Some images.

Definition watchers_told (image : CephBlockImage) (watchers : list string) (h : list call) : Prop :=
  exists out, Rbd (status_args poolName (image_Name image) radosNamespace) (Ok out) ∈ h /\ json_watchers (W := W) out = Some watchers.

(** The watchers of every image were read, and all of them were put on the blocklist. *)
Definition fenced (images : list CephBlockImage) (h : list call) : Prop :=
  Forall (fun image => exists watchers, watchers_told image watchers h /\
    Forall (fun address => succeeded (Ceph (blocklist_args address)) h) watchers) images.

Definition snaps_told (image : CephBlockImage) (r : result string) (h : list call) : Prop :=
  Rbd (list_snaps_args poolName (image_Name image) radosNamespace) r ∈ h.

Definition decoded_snaps (r : result string) : list string := match r with Ok out => (json_snapshots (W := W) out).1 | Err _ => [] end.

(** Every call of the job, with what must have happened before. *)
Inductive job_call (h : list call) : call -> Prop :=
| lists_images r : job_call h (Rbd (list_images_args poolName radosNamespace) r)
| asks_status images image r :
    images_listed images h -> image ∈ images -> job_call h (Rbd (status_args poolName (image_Name image) radosNamespace) r)
| blocklists images image watchers address r :
    images_listed images h -> image ∈ images -> watchers_told image watchers h -> address ∈ watchers ->
    job_call h (Ceph (blocklist_args address) r)
| lists_snaps images image r :
    images_listed images h -> image ∈ images -> fenced images h ->
    job_call h (Rbd (list_snaps_args poolName (image_Name image) radosNamespace) r)
| removes_snap images image told snap r :
    images_listed images h -> image ∈ images -> fenced images h -> snaps_told image told h -> snap ∈ decoded_snaps told ->
    job_call h (Rbd (rm_snap_args poolName (image_Name image) snap radosNamespace) r)
| trashes images image told r :
    images_listed images h -> image ∈ images -> fenced images h -> snaps_told image told h ->
    Forall (fun snap => tried (Rbd (rm_snap_args poolName (image_Name image) snap radosNamespace)) h) (decoded_snaps told) ->
    job_call h (Rbd (trash_args poolName (image_Name image) radosNamespace) r)
| purges images image r :
    images_listed images h -> image ∈ images -> fenced images h ->
    tried (Rbd (trash_args poolName (image_Name image) radosNamespace)) h ->
    job_call h (Ceph (purge_args poolName (image_ID image) radosNamespace) r).

(** All of the image is gone: its snapshots were listed and removed, it was moved to the trash, and its
    removal from there is scheduled. *)
Definition image_removed (h : list call) (image : CephBlockImage) : Prop :=
  (exists out snaps, snaps_told image (Ok out) h /\ json_snapshots (W := W) out = (snaps, false) /\
    Forall (fun snap => succeeded (Rbd (rm_snap_args poolName (image_Name image) snap radosNamespace)) h) snaps) /\
  succeeded (Rbd (trash_args poolName (image_Name image) radosNamespace)) h /\
  succeeded (Ceph (purge_args poolName (image_ID image) radosNamespace)) h.

Lemma lasting_images images : lasting (images_listed images).
Proof. unfold images_listed. lasts. Qed.

Lemma lasting_watchers image l : lasting (watchers_told image l).
Proof. unfold watchers_told. lasts. Qed.

Lemma lasting_fenced images : lasting (fenced images).
Proof. unfold fenced, watchers_told, succeeded. lasts. Qed.

Lemma lasting_snaps image r : lasting (snaps_told image r).
Proof. unfold snaps_told. lasts. Qed.

Lemma lasting_removed_image image : lasting (fun h => image_removed h image).
Proof. unfold image_removed, snaps_told, succeeded. lasts. Qed.

Lemma images_triple :
  triple job_call (fun _ => True) (ListImagesInRadosNamespace (W := W) poolName radosNamespace)
    (fun r h => True /\ forall images, r = Ok images -> images_listed images h).
Proof.
  unfold ListImagesInRadosNamespace.
  apply (triple_bind _ _ _ _ (fun r h => forall out, r = Ok out -> Rbd (list_images_args poolName radosNamespace) (Ok out) ∈ h)).
  - apply triple_wrapM. eapply triple_conseq; [apply (recorded_triple _ _ _ (fun _ => True)); [lasts|intros; apply lists_images]|done|].
    intros [out|err] h [_ Hin]; [|done]. by intros out' [= <-].
  - intros out. destruct (json_line (split_byte newline out)) as [text|] eqn:Et.
    + unfold decode. destruct (json_images text) as [images|] eqn:Ej; [apply triple_ret|by apply triple_fail]. intros h Hin. split; [done|].
      intros ? [= <-]. exists out. split; [by apply Hin|]. unfold images_in. by rewrite Et.
    + apply triple_ret. intros h Hin. split; [done|]. intros ? [= <-]. exists out. split; [by apply Hin|]. unfold images_in. by rewrite Et.
  - done.
Qed.

(** *** Fencing *)

(** The clients that were collected are the watchers of the images so far. *)
Definition collected (images seen : list CephBlockImage) (clients : gset string) (h : list call) : Prop :=
  Forall (fun image => exists watchers, watchers_told image watchers h /\ list_to_set watchers ⊆ clients) seen /\
  forall address, address ∈ clients -> exists image watchers, image ∈ images /\ watchers_told image watchers h /\ address ∈ watchers.

Lemma lasting_collected images seen clients : lasting (collected images seen clients).
Proof.
  intros h l [Ha Hb]. split.
  - eapply Forall_impl; [exact Ha|]. intros image (ws & Hw & Hs). exists ws. split; [by apply lasting_watchers|done].
  - intros a (image & ws & Hi & Hw & Hin)%Hb. exists image, ws. split_and!; [done|by apply lasting_watchers|done].
Qed.

Lemma collected_add images seen clients image watchers h :
  image ∈ images -> collected images seen clients h -> watchers_told image watchers h ->
  collected images (seen ++ [image]) (list_to_set watchers ∪ clients) h.
Proof.
  intros Hi [Ha Hb] Hw. split.
  - apply Forall_app. split; [|by repeat constructor; exists watchers; split; [|set_solver]].
    eapply Forall_impl; [exact Ha|]. intros i (ws & Hws & Hs). exists ws. split; [done|set_solver].
  - intros a [Hin%elem_of_list_to_set|Hin]%elem_of_union; [by exists image, watchers|by apply Hb].
Qed.

Lemma clients_triple images seen rest clients :
  images = seen ++ rest ->
  triple job_call (fun h => images_listed images h /\ collected images seen clients h) (get_clients (W := W) poolName radosNamespace rest clients)
    (fun r h => images_listed images h /\ forall c, r = Ok c -> collected images images c h).
Proof.
  revert seen clients. induction rest as [|image rest IH]; intros seen clients Himg; cbn [get_clients].
  { rewrite app_nil_r in Himg. subst seen. apply triple_ret. intros h [Hl Hc]. split; [done|]. by intros c [= <-]. }
  set (P := fun h => images_listed images h /\ collected images seen clients h).
  assert (lasting P) as HP by (apply lasting_and; [apply lasting_images|apply lasting_collected]).
  assert (image ∈ images) as Hin by (subst images; apply elem_of_app; right; apply list_elem_of_here).
  eapply triple_bind; [apply (triple_wrapped _ _ _ _ P (fun ws h => watchers_told image ws h)); unfold GetRBDImageStatus|intros ws|].
  - apply (decoded_rbd_triple _ _ _ _ (fun _ => []) _ _ P HP). intros r h [Hl _]. by eapply asks_status.
  - eapply triple_conseq; [apply (IH (seen ++ [image])); by rewrite <- (assoc_L (++))| |done].
    intros h [[Hl Hc] Hw]. split; [done|]. apply collected_add; auto.
  - intros err h [[Hl _] _]. by split.
Qed.

Lemma blocklist_triple images clients :
  triple job_call (fun h => images_listed images h /\ collected images images clients h)
    (forM_ (range_set (W := W) clients) (fun client =>
       wrapM (Blocklist (W := W) client) "failed to blocklist client %q in pool %q in namespace %q" [client; poolName; radosNamespace]))
    (fun r h => (images_listed images h /\ collected images images clients h) /\
                (r = Ok () -> Forall (fun a => succeeded (Ceph (blocklist_args a)) h) (range_set (W := W) clients))).
Proof.
  apply each_done_triple; [intros a; apply lasting_succeeded|]. intros a Hin.
  set (P := fun h => images_listed images h /\ collected images images clients h).
  eapply (triple_conseq _ P P); [apply (command_wrapped _ _ (Ceph (blocklist_args a))), command_wrapped, command_triple|done|].
  - apply lasting_and; [apply lasting_images|apply lasting_collected].
  - rewrite range_set_ok, elem_of_elements in Hin. intros r h [Hl [_ Hc]]. destruct (Hc a Hin) as (image & ws & Hi & Hw & Ha). by eapply blocklists.
  - by intros r h [[Hp _] Hs].
Qed.

Lemma fencing_triple images :
  triple job_call (images_listed images) (blocklistClients (W := W) images poolName radosNamespace)
    (fun r h => images_listed images h /\ (r = Ok () -> fenced images h)).
Proof.
  unfold blocklistClients, getClients.
  eapply triple_bind.
  - apply (triple_wrapped _ _ _ _ (images_listed images) (fun c h => collected images images c h)).
    eapply triple_conseq; [by apply (clients_triple images [] images)| |by intros r h]. intros h Hl. split; [done|]. split; [constructor|set_solver].
  - intros clients. eapply triple_conseq; [apply (blocklist_triple images clients)| |].
    + intros h [Hl Hc]. split; [done|by apply Hc].
    + intros r h [[Hl [Ha _]] Hr]. split; [done|]. intros E. specialize (Hr E). eapply Forall_impl; [exact Ha|].
      intros image (ws & Hw & Hs). exists ws. split; [done|]. apply Forall_forall. intros a Hin. rewrite Forall_forall in Hr. apply Hr.
      rewrite range_set_ok. apply elem_of_elements, Hs. by apply elem_of_list_to_set.
  - intros err h [Hl _]. by split.
Qed.

(** *** Removing *)

Lemma snapshots_triple (image : CephBlockImage) told seen rest e P D :
  lasting P -> lasting D -> decoded_snaps told = seen ++ rest ->
  (forall h, P h -> snaps_told image told h /\ exists images, images_listed images h /\ image ∈ images /\ fenced images h) ->
  triple job_call
    (fun h => (P h /\ Forall (fun s => tried (Rbd (rm_snap_args poolName (image_Name image) s radosNamespace)) h) seen) /\
              (e = None -> D h /\ Forall (fun s => succeeded (Rbd (rm_snap_args poolName (image_Name image) s radosNamespace)) h) seen))
    (delete_snapshots (W := W) poolName radosNamespace (image_Name image) rest e)
    (fun r h => match r with
                | Ok e' => (P h /\ Forall (fun s => tried (Rbd (rm_snap_args poolName (image_Name image) s radosNamespace)) h) (decoded_snaps told)) /\
                           (e' = None -> D h /\ Forall (fun s => succeeded (Rbd (rm_snap_args poolName (image_Name image) s radosNamespace)) h) (decoded_snaps told))
                | Err _ => False
                end).
Proof.
  intros HP HD. revert seen e. induction rest as [|s rest IH]; intros seen e Hsnaps Hknown; cbn [delete_snapshots].
  { apply triple_ret. intros h Hh. by rewrite Hsnaps, app_nil_r. }
  eapply triple_bind; [|intros e'|].
  - eapply note_triple.
    + eapply run_rbd_triple; [apply lasting_and; [exact HP|unfold tried; lasts]|]. intros r h [Hp _].
      destruct (Hknown h Hp) as (Hs & images & Hl & Hi & Hf). eapply removes_snap; [done..|]. rewrite Hsnaps. apply elem_of_app. right. apply list_elem_of_here.
    + apply lasting_and; [exact HD|unfold succeeded; lasts].
  - eapply triple_conseq; [apply (IH (seen ++ [s]) e')| |done]; [by rewrite Hsnaps, <- (assoc_L (++))|done|].
    intros h [[[Hp Ht] Htry] Hd]. split.
    + split; [done|]. apply Forall_app. split; [done|by repeat constructor].
    + intros E. destruct (Hd E) as [[Hd1 Hs] Hs']. split; [done|]. apply Forall_app. split; [done|by repeat constructor].
  - done.
Qed.

(** The snapshots that were told are removed, and then the image. *)
Lemma removal_triple images image told e D :
  image ∈ images -> lasting D ->
  triple job_call (fun h => ((images_listed images h /\ fenced images h) /\ snaps_told image told h) /\ (e = None -> D h))
    (retErr ← delete_snapshots (W := W) poolName radosNamespace (image_Name image) (decoded_snaps told) e;
     retErr ← note (MoveImageToTrashInRadosNamespace poolName (image_Name image) radosNamespace) "failed to move image %q to trash in %s" [image_Name image] retErr;
     note (DeleteImageFromTrashInRadosNamespace poolName (image_ID image) radosNamespace) "failed to add task to remove image %q from trash in %s" [image_Name image] retErr)
    (fun r h => match r with
                | Ok e' => ((images_listed images h /\ fenced images h) /\ snaps_told image told h) /\
                    (e' = None -> ((D h /\ Forall (fun s => succeeded (Rbd (rm_snap_args poolName (image_Name image) s radosNamespace)) h) (decoded_snaps told)) /\
                      succeeded (Rbd (trash_args poolName (image_Name image) radosNamespace)) h) /\ succeeded (Ceph (purge_args poolName (image_ID image) radosNamespace)) h)
                | Err _ => False
                end).
Proof.
  intros Hin HD. set (P := fun h => (images_listed images h /\ fenced images h) /\ snaps_told image told h).
  assert (lasting P) as HP by (apply lasting_and; [apply lasting_and; [apply lasting_images|apply lasting_fenced]|apply lasting_snaps]).
  eapply triple_bind; [|intros e2; eapply triple_bind; [|intros e3|]|].
  - eapply triple_conseq; [apply (snapshots_triple image told [] _ e P D HP HD)| |intros r h Hr; exact Hr]; [done|..].
    + intros h [[Hl Hf] Hs]. split; [done|]. by exists images.
    + intros h [Hp Hd]. split; [split; [done|constructor]|]. intros E. split; [auto|constructor].
  - eapply note_triple; [eapply run_rbd_triple; [apply lasting_and; [exact HP|unfold tried; lasts]|]|].
    + intros r h [[[Hl Hf] Hs] Ht]. by eapply trashes.
    + apply lasting_and; [done|unfold succeeded; lasts].
  - eapply triple_conseq; [eapply (note_triple _ _ _ _ e3 (fun h => P h /\ tried (Rbd (trash_args poolName (image_Name image) radosNamespace)) h))| |].
    + apply command_wrapped, command_triple; [apply lasting_and; [done|apply lasting_tried]|]. intros r h [[[Hl Hf] _] Ht]. by eapply purges.
    + instantiate (1 := fun h => (D h /\ Forall (fun s => succeeded (Rbd (rm_snap_args poolName (image_Name image) s radosNamespace)) h) (decoded_snaps told)) /\
        succeeded (Rbd (trash_args poolName (image_Name image) radosNamespace)) h).
      unfold succeeded. lasts; done.
    + intros h [[[Hp Ht] Htry] Hd]. split; [by split|done].
    + intros [e4|err] h; [|done]. intros [[[Hp _] _] Hd]. by split.
  - done.
  - done.
Qed.

(** The snapshots that are known after they were listed. *)
Lemma listing_triple images image P :
  image ∈ images -> lasting P -> (forall h, P h -> images_listed images h /\ fenced images h) ->
  triple job_call P (ListSnapshotsInRadosNamespace (W := W) poolName (image_Name image) radosNamespace)
    (fun r h => match r with
                | Ok (snaps, err) => exists told, (P h /\ snaps_told image told h) /\ snaps = decoded_snaps told /\
                                       (err = None -> exists out, told = Ok out /\ json_snapshots (W := W) out = (snaps, false))
                | Err _ => False
                end).
Proof.
  intros Hin HP Hk. unfold ListSnapshotsInRadosNamespace. eapply triple_bind; [apply tried_triple, (recorded_triple _ _ _ P HP)|intros told|done].
  - intros r h Hp. destruct (Hk h Hp). by eapply lists_snaps.
  - destruct told as [out|err].
    + destruct (json_snapshots out) as [snaps failed] eqn:Ej. apply triple_ret. intros h [Hp Hs]. exists (Ok out). cbn. rewrite Ej.
      split_and!; [done..|]. destruct failed; [done|]. intros _. by exists out.
    + apply triple_ret. intros h [Hp Hs]. exists (Err err). by split_and!.
Qed.

Lemma image_triple images image e D :
  image ∈ images -> lasting D ->
  triple job_call (fun h => (images_listed images h /\ fenced images h) /\ (e = None -> D h)) (cleanup_image (W := W) poolName radosNamespace image e)
    (fun r h => match r with
                | Ok e' => (images_listed images h /\ fenced images h) /\ (e' = None -> D h /\ image_removed h image)
                | Err _ => False
                end).
Proof.
  intros Hin HD. unfold cleanup_image. eapply triple_bind; [apply (listing_triple images image _ Hin)|intros [snaps err]|done].
  - apply lasting_and; [apply lasting_and; [apply lasting_images|apply lasting_fenced]|by apply lasting_when].
  - by intros h [].
  - intros h Hg (told & [[Hp Hd] Hs] & -> & Herr).
    set (K := exists out, told = Ok out /\ json_snapshots (W := W) out = (decoded_snaps told, false)) in *.
    eapply logs_mono; [|apply (removal_triple images image told _ (fun h => D h /\ K) Hin); [by apply lasting_and; [|apply lasting_const]|done|split; [done|by destruct err; [|auto]]]].
    intros [e'|?] h' (Hg' & Hpre & Hr); [|by destruct Hr]. split; [done|split; [done|]]. destruct Hr as [[Hp' Hs'] Hd']. split; [done|]. intros E.
    destruct (Hd' E) as ([[[Hdh (out & -> & Hj)] Hsn] Htr] & Hpu). split; [done|]. split; [|by split].
    by exists out, (decoded_snaps (Ok out)).
Qed.

Lemma each_triple images seen rest e :
  images = seen ++ rest ->
  triple job_call (fun h => (images_listed images h /\ fenced images h) /\ (e = None -> Forall (image_removed h) seen))
    (cleanup_each (W := W) poolName radosNamespace rest e)
    (fun r h => match r with Ok e' => images_listed images h /\ (e' = None -> Forall (image_removed h) images) | Err _ => False end).
Proof.
  revert seen e. induction rest as [|image rest IH]; intros seen e Himg; cbn [cleanup_each].
  { rewrite app_nil_r in Himg. subst seen. apply triple_ret. by intros h [[Hl _] Hd]. }
  eapply triple_bind; [apply (image_triple images image e (fun h => Forall (image_removed h) seen))|intros e'|done].
  - subst images. apply elem_of_app. right. apply list_elem_of_here.
  - apply lasting_forall. intros i. apply lasting_removed_image.
  - eapply triple_conseq; [apply (IH (seen ++ [image]) e')| |done]; [by rewrite <- (assoc_L (++))|].
    intros h [Hp Hd]. split; [done|]. intros E. destruct (Hd E). apply Forall_app. split; [done|by apply Forall_singleton].
Qed.

Lemma cleanup_images_triple :
  triple job_call (fun _ => True) (cleanupImages (W := W) poolName radosNamespace)
    (fun r h => r = Ok () -> exists images, images_listed images h /\ Forall (image_removed h) images).
Proof.
  unfold cleanupImages.
  eapply triple_bind; [apply (triple_wrapped _ _ _ _ (fun _ => True) (fun images h => images_listed images h)), images_triple|intros images|done].
  eapply triple_bind; [|intros []|done].
  - eapply triple_conseq; [apply (triple_wrapped _ _ _ _ (images_listed images) (fun _ h => fenced images h))| |intros r h Hr; exact Hr].
    + eapply triple_conseq; [apply fencing_triple|done|]. intros [[]|err] h [Hl Hf]; (split; [done|]); [by intros; apply Hf|done].
    + intros h [_ Hl]. by apply Hl.
  - eapply triple_bind; [eapply triple_conseq; [apply (each_triple images [] images None)| |intros r h Hr; exact Hr]|intros e|done].
    + done.
    + intros h [Hl Hf]. split; [split; [done|by apply (Hf ())]|constructor].
    + unfold returned. destruct e; [by apply triple_fail|apply triple_ret]. intros h [Hl Hr] _. exists images. auto.
Qed.

(** C26: every call of the job that removes the images of a pool or of a rados namespace is one of these, in
    this order: it lists the images; it reads the watchers of the images; it puts watchers on the
    blocklist; and only when all watchers of all images are on it, it lists and removes the snapshots of an
    image, moves the image to the trash once the removal of its snapshots was tried, and has it removed
    from there.  When the job reports success, every image that was listed is removed with all its
    snapshots. *)
Theorem images_are_fenced e :
  let '(w, r) := cleanupImages (W := W) poolName radosNamespace (World e []) in
  guarded job_call (log w) /\
  (r = Ok () -> exists images, images_listed images (log w) /\ Forall (image_removed (log w)) images).
Proof.
  destruct (triple_run _ _ _ _ e cleanup_images_triple I) as [Hg Hr]. by destruct (cleanupImages poolName radosNamespace (World e [])).
Qed.

End Images.

(** ** The subvolumes of a group *)

Section Groups.
Context {W : Type} `{CleanupEnv W} (fsName svg poolName csiNamespace : string).

Abbreviation MC := (MW (gmap string bool * W)).

Definition snapshot_ls_args (subVolume : string) : list string := ["fs"; "subvolume"; "snapshot"; "ls"; fsName; subVolume; "--group_name"; svg].

Definition snapshot_info_args (subVolume snapshot : string) : list string :=
  ["fs"; "subvolume"; "snapshot"; "info"; fsName; subVolume; snapshot; "--group_name"; svg].

Definition subvolumes_told (l : list string) (h : list call) : Prop :=
  exists out, Ceph (subvolume_ls_args fsName svg) (Ok out) ∈ h /\ json_named (W := W) out = Some l.

Definition snapshots_told (subVolume : string) (l : list string) (h : list call) : Prop :=
  exists out, Ceph (snapshot_ls_args subVolume) (Ok out) ∈ h /\ json_named (W := W) out = Some l.

Definition clones_told (subVolume snapshot : string) (l : list string) (h : list call) : Prop :=
  exists out, Ceph (snapshot_info_args subVolume snapshot) (Ok out) ∈ h /\ json_clones (W := W) out = Some l.

Definition Rados (args : list string) : result string -> call := Tool ("rados" :: args).

(** The key of the subvolume in the directory of volumes, as it was read. *)
Definition omap_read (subVolume key : string) (h : list call) : Prop :=
  exists out, Rados (get_omap_args (getOMAPValue subVolume) poolName csiNamespace) (Ok out) ∈ h /\ key = omap_key out.

Definition listed_subvolume (subVolume : string) (h : list call) : Prop := exists l, subvolumes_told l h /\ subVolume ∈ l.

(** Every call of the job, with what must have happened before. *)
Inductive group_call (h : list call) : call -> Prop :=
| lists_subvolumes r : group_call h (Ceph (subvolume_ls_args fsName svg) r)
| reads_omap subVolume r :
    listed_subvolume subVolume h -> getOMAPValue subVolume <> "" ->
    group_call h (Rados (get_omap_args (getOMAPValue subVolume) poolName csiNamespace) r)
| removes_omap subVolume key r :
    listed_subvolume subVolume h -> omap_read subVolume key h ->
    group_call h (Rados (rm_omap_args (getOMAPValue subVolume) poolName csiNamespace) r)
| removes_key subVolume key r :
    listed_subvolume subVolume h -> omap_read subVolume key h -> key <> "" ->
    succeeded (Rados (rm_omap_args (getOMAPValue subVolume) poolName csiNamespace)) h ->
    group_call h (Rados (rm_key_args key poolName csiNamespace) r)
| lists_snapshots subVolume r : listed_subvolume subVolume h -> group_call h (Ceph (snapshot_ls_args subVolume) r)
| asks_clones subVolume snapshots snapshot r :
    listed_subvolume subVolume h -> snapshots_told subVolume snapshots h -> snapshot ∈ snapshots ->
    group_call h (Ceph (snapshot_info_args subVolume snapshot) r)
| cancels_clone subVolume snapshots snapshot clones clone r :
    listed_subvolume subVolume h -> snapshots_told subVolume snapshots h -> snapshot ∈ snapshots ->
    clones_told subVolume snapshot clones h -> clone ∈ clones -> group_call h (Ceph (cancel_clone_args fsName svg clone) r)
| removes_snapshot subVolume snapshots snapshot r :
    listed_subvolume subVolume h -> snapshots_told subVolume snapshots h -> snapshot ∈ snapshots ->
    group_call h (Ceph (rm_subvolume_snap_args fsName subVolume svg snapshot) r)
| removes_subvolume subVolume r :
    listed_subvolume subVolume h -> tried (Ceph (snapshot_ls_args subVolume)) h ->
    group_call h (Ceph (rm_subvolume_args fsName subVolume svg) r).

(** No trace of the subvolume in the directory of volumes. *)
Definition omap_removed (subVolume : string) (h : list call) : Prop :=
  exists key, omap_read subVolume key h /\ succeeded (Rados (rm_omap_args (getOMAPValue subVolume) poolName csiNamespace)) h /\
    (key = "" \/ succeeded (Rados (rm_key_args key poolName csiNamespace)) h).

Definition clones_cancelled (subVolume snapshot : string) (h : list call) : Prop :=
  exists clones, clones_told subVolume snapshot clones h /\ Forall (fun clone => succeeded (Ceph (cancel_clone_args fsName svg clone)) h) clones.

(** The subvolume and all that is known of it is gone. *)
Definition subvolume_removed (h : list call) (subVolume : string) : Prop :=
  (omap_removed subVolume h /\
   exists snapshots, snapshots_told subVolume snapshots h /\
     Forall (fun snapshot => clones_cancelled subVolume snapshot h) snapshots /\
     Forall (fun snapshot => succeeded (Ceph (rm_subvolume_snap_args fsName subVolume svg snapshot)) h) snapshots) /\
  succeeded (Ceph (rm_subvolume_args fsName subVolume svg)) h.

Lemma lasting_listed_subvolume subVolume : lasting (listed_subvolume subVolume).
Proof. unfold listed_subvolume, subvolumes_told. lasts. Qed.

Lemma lasting_omap_read subVolume key : lasting (omap_read subVolume key).
Proof. unfold omap_read. lasts. Qed.

Lemma lasting_omap_removed subVolume : lasting (omap_removed subVolume).
Proof. unfold omap_removed, omap_read, succeeded. lasts. Qed.

Lemma lasting_snapshots_told subVolume l : lasting (snapshots_told subVolume l).
Proof. unfold snapshots_told. lasts. Qed.

Lemma lasting_clones_told subVolume snapshot l : lasting (clones_told subVolume snapshot l).
Proof. unfold clones_told. lasts. Qed.

Lemma lasting_cancelled subVolume snapshot : lasting (clones_cancelled subVolume snapshot).
Proof. unfold clones_cancelled, clones_told, succeeded. lasts. Qed.

Lemma lasting_subvolume_removed subVolume : lasting (fun h => subvolume_removed h subVolume).
Proof. unfold subvolume_removed, omap_removed, omap_read, snapshots_told, clones_cancelled, clones_told, succeeded. lasts. Qed.

(** A command of [rados] whose output does not matter. *)
Lemma rados_triple args fmt names P :
  lasting P -> (forall r h, P h -> group_call h (Rados args r)) ->
  triple group_call P (_ ← wrapM (rados (W := W) args) fmt names; mret () : MC unit) (fun r h => P h /\ (r = Ok () -> succeeded (Rados args) h)).
Proof.
  intros HP Hn. apply (triple_bind _ _ _ _ (fun r h => P h /\ forall out, r = Ok out -> succeeded (Rados args) h)).
  - apply triple_wrapM. eapply triple_conseq; [by apply recorded_triple|done|]. intros [out|err] h [Hp Hin]; (split; [done|]); [|done].
    intros out' _. by exists out.
  - intros out. apply triple_ret. intros h [Hp Hs]. split; [done|]. intros _. by eapply Hs.
  - by intros err h [Hp _].
Qed.

Lemma omap_triple subVolume :
  triple group_call (listed_subvolume subVolume) (CleanUpOMAPDetails (W := W) subVolume poolName csiNamespace)
    (fun r h => listed_subvolume subVolume h /\ (r = Ok () -> omap_removed subVolume h)).
Proof.
  unfold CleanUpOMAPDetails, GetOMAPKey, DeleteOmapValue, DeleteOmapKey.
  destruct (String.eqb_spec (getOMAPValue subVolume) "") as [|Hv]; [by apply triple_fail|].
  eapply triple_bind; [apply (triple_wrapped _ _ _ _ (listed_subvolume subVolume) (fun key h => omap_read subVolume key h))|intros key|by intros err h [Hl _]].
  - apply (triple_bind _ _ _ _ (fun r h => listed_subvolume subVolume h /\ forall out, r = Ok out -> omap_read subVolume (omap_key out) h)).
    + apply triple_wrapM. eapply triple_conseq; [apply recorded_triple; [apply lasting_listed_subvolume|]|done|].
      * intros r h Hl. by apply (reads_omap _ subVolume).
      * intros [out|err] h [Hl Hin]; (split; [done|]); [|done]. intros ? [= <-]. by exists out.
    + intros out. apply triple_ret. intros h [Hl Hr]. split; [done|]. intros ? [= <-]. by apply Hr.
    + by intros err h [Hl _].
  - set (P := fun h => listed_subvolume subVolume h /\ omap_read subVolume key h).
    assert (lasting P) as HP by (apply lasting_and; [apply lasting_listed_subvolume|apply lasting_omap_read]).
    eapply triple_bind.
    + eapply triple_conseq; [apply (triple_wrapped _ _ _ _ P (fun _ => succeeded (Rados (rm_omap_args (getOMAPValue subVolume) poolName csiNamespace))))| |intros r h Hr; exact Hr].
      * eapply triple_conseq; [apply (rados_triple _ _ _ P HP)|done|].
        -- intros r h [Hl Hr]. by eapply removes_omap.
        -- intros [[]|err] h [Hp Hs]; (split; [done|]); [by intros; apply Hs|done].
      * intros h [Hl Hr]. split; [done|by apply Hr].
    + intros []. destruct (String.eqb_spec key "") as [->|Hk].
      * apply triple_ret. intros h [[Hl Hr] Hs]. split; [done|]. intros _. exists "". split_and!; [done|by apply (Hs ())|by left].
      * apply triple_wrapM. eapply triple_conseq; [apply (rados_triple (rm_key_args key poolName csiNamespace) _ _
          (fun h => P h /\ succeeded (Rados (rm_omap_args (getOMAPValue subVolume) poolName csiNamespace)) h))| |].
        -- apply lasting_and; [done|apply lasting_succeeded].
        -- intros r h [[Hl Hr] Hs]. by eapply removes_key.
        -- intros h [Hp Hs]. split; [done|by apply (Hs ())].
        -- intros [[]|err] h [[[Hl Hr] Hs] Hk']; (split; [done|]); [|done]. intros _. exists key. split_and!; [done|done|right; by apply Hk'].
    + by intros err h [[Hl _] _].
Qed.

(** *** Snapshots *)

Definition snapshots_known (subVolume : string) (snapshots : list string) (h : list call) : Prop :=
  listed_subvolume subVolume h /\ snapshots_told subVolume snapshots h.

Lemma lasting_known subVolume snapshots : lasting (snapshots_known subVolume snapshots).
Proof. apply lasting_and; [apply lasting_listed_subvolume|apply lasting_snapshots_told]. Qed.

Lemma clones_triple subVolume snapshots snapshot :
  snapshot ∈ snapshots ->
  triple group_call (snapshots_known subVolume snapshots)
    (pendingClones ← wrapM (listSubVolumeSnapshotPendingClones (W := W) fsName subVolume snapshot svg)
                       "failed to list all the pending clones for snapshot %q" [snapshot];
     forM_ pendingClones (fun pendingClone =>
       wrapM (CancelSnapshotClone fsName svg pendingClone) "failed to cancel the pending clone %q for snapshot %q" [pendingClone; snapshot]))
    (fun r h => snapshots_known subVolume snapshots h /\ (r = Ok () -> clones_cancelled subVolume snapshot h)).
Proof.
  intros Hin. unfold listSubVolumeSnapshotPendingClones.
  eapply triple_bind; [apply (triple_wrapped _ _ _ _ (snapshots_known subVolume snapshots) (fun l h => clones_told subVolume snapshot l h)), decoded_triple|intros clones|].
  - apply lasting_known.
  - intros r h [Hl Hs]. by eapply asks_clones.
  - set (P := fun h => snapshots_known subVolume snapshots h /\ clones_told subVolume snapshot clones h).
    eapply triple_conseq; [apply (each_done_triple (W := W) group_call _ _ P (fun c => succeeded (Ceph (cancel_clone_args fsName svg c))))| |].
    + intros c. apply lasting_succeeded.
    + intros c Hc. eapply (triple_conseq _ P P); [apply (command_wrapped _ _ (Ceph (cancel_clone_args fsName svg c))), command_wrapped, command_triple|done|].
      * apply lasting_and; [apply lasting_known|apply lasting_clones_told].
      * intros r h [[Hl Hs] Ht]. by eapply cancels_clone.
      * by intros r h [[Hp _] Hs].
    + intros h [Hk Hc]. split; [done|by apply Hc].
    + intros r h [[Hk Hc] Hs]. split; [done|]. intros E. exists clones. split; [done|by apply Hs].
  - by intros err h [Hk _].
Qed.

Lemma cancel_triple subVolume snapshots :
  triple group_call (snapshots_known subVolume snapshots) (CancelPendingClones (W := W) snapshots fsName subVolume svg)
    (fun r h => snapshots_known subVolume snapshots h /\ (r = Ok () -> Forall (fun s => clones_cancelled subVolume s h) snapshots)).
Proof.
  apply (each_done_triple group_call _ _ _ (fun s h => clones_cancelled subVolume s h)); [intros s; apply lasting_cancelled|].
  intros s Hs. by apply clones_triple.
Qed.

Lemma rm_snapshots_triple subVolume snapshots :
  triple group_call (snapshots_known subVolume snapshots) (DeleteSubVolumeSnapshots (W := W) snapshots fsName subVolume svg)
    (fun r h => snapshots_known subVolume snapshots h /\
                (r = Ok () -> Forall (fun s => succeeded (Ceph (rm_subvolume_snap_args fsName subVolume svg s)) h) snapshots)).
Proof.
  apply (each_done_triple group_call _ _ _ (fun s => succeeded (Ceph (rm_subvolume_snap_args fsName subVolume svg s)))); [intros s; apply lasting_succeeded|].
  intros s Hs. eapply triple_conseq; [apply (command_wrapped _ _ (Ceph (rm_subvolume_snap_args fsName subVolume svg s))), command_wrapped, command_triple| |].
  - apply (lasting_known subVolume snapshots).
  - intros r h [Hl Ht]. by eapply removes_snapshot.
  - done.
  - by intros r h [[Hp _] Hr].
Qed.

(** The snapshots that were told are gone, with their clones. *)
Definition snapshots_gone (subVolume : string) (h : list call) : Prop :=
  exists snapshots, snapshots_told subVolume snapshots h /\ Forall (fun s => clones_cancelled subVolume s h) snapshots /\
    Forall (fun s => succeeded (Ceph (rm_subvolume_snap_args fsName subVolume svg s)) h) snapshots.

Lemma lasting_snapshots_gone subVolume : lasting (snapshots_gone subVolume).
Proof. unfold snapshots_gone, snapshots_told, clones_cancelled, clones_told, succeeded. lasts. Qed.

Lemma told_triple subVolume snapshots e D :
  lasting D ->
  triple group_call (fun h => snapshots_known subVolume snapshots h /\ (e = None -> D h))
    (retErr ← note (W := W) (CancelPendingClones snapshots fsName subVolume svg) "failed to cancel pending clones for subvolume %q in group %q" [subVolume; svg] e;
     note (DeleteSubVolumeSnapshots snapshots fsName subVolume svg) "failed to delete snapshots for subvolume %q in group %q" [subVolume; svg] retErr)
    (fun r h => match r with
                | Ok e' => (listed_subvolume subVolume h /\ tried (Ceph (snapshot_ls_args subVolume)) h) /\ (e' = None -> D h /\ snapshots_gone subVolume h)
                | Err _ => False
                end).
Proof.
  intros HD. eapply triple_bind; [eapply note_triple; [apply cancel_triple|exact HD]|intros e'|done].
  eapply triple_conseq; [eapply note_triple; [apply rm_snapshots_triple|]|intros h Hh; exact Hh|].
  - apply lasting_and; [exact HD|]. apply lasting_forall. intros s. apply lasting_cancelled.
  - intros [e2|err] h Hr; [|by destruct Hr]. destruct Hr as [[Hl (out & Hin & Hj)] Hd]. split; [split; [done|by eexists]|]. intros E.
    destruct (Hd E) as [[Hdh Hc] Hs]. split; [done|]. exists snapshots. split_and!; [by exists out|done|done].
Qed.

Lemma subvolume_triple subVolume e D :
  lasting D ->
  triple group_call (fun h => listed_subvolume subVolume h /\ (e = None -> D h)) (cleanup_subvolume (W := W) fsName svg poolName csiNamespace subVolume e)
    (fun r h => match r with Ok e' => e' = None -> D h /\ subvolume_removed h subVolume | Err _ => False end).
Proof.
  intros HD. unfold cleanup_subvolume, listSubVolumeSnapshots. set (D1 := fun h => D h /\ omap_removed subVolume h).
  assert (lasting D1) as HD1 by (apply lasting_and; [done|apply lasting_omap_removed]).
  eapply triple_bind; [eapply note_triple; [apply omap_triple|exact HD]|intros e1|done].
  set (P := fun h => listed_subvolume subVolume h /\ (e1 = None -> D1 h)).
  assert (lasting P) as HP by (apply lasting_and; [apply lasting_listed_subvolume|by apply lasting_when]).
  eapply triple_bind; [apply tried_triple, (decoded_record_triple _ (Ceph (snapshot_ls_args subVolume)) _ _ _ (fun _ => [subVolume; fsName; svg]) _ _ P HP)|intros told|done].
  { intros r h [Hl _]. by apply lists_snapshots. }
  eapply triple_bind; [|intros e2|].
  - instantiate (1 := fun r h => match r with
      | Ok e' => (listed_subvolume subVolume h /\ tried (Ceph (snapshot_ls_args subVolume)) h) /\ (e' = None -> D1 h /\ snapshots_gone subVolume h)
      | Err _ => False end).
    destruct told as [snapshots|err]; [|by apply triple_ret; intros h [[[Hl _] Ht] _]].
    eapply triple_conseq; [apply (told_triple subVolume snapshots e1 D1 HD1)| |done].
    intros h [[[Hl Hd] _] Hs]. split; [split; [done|by apply Hs]|done].
  - eapply triple_conseq; [apply (note_triple group_call _ _ _ e2 (fun h => listed_subvolume subVolume h /\ tried (Ceph (snapshot_ls_args subVolume)) h)
        (fun _ => True) (fun h => D1 h /\ snapshots_gone subVolume h) (succeeded (Ceph (rm_subvolume_args fsName subVolume svg))))| |].
    + eapply triple_conseq; [apply (command_wrapped _ _ (Ceph (rm_subvolume_args fsName subVolume svg))), command_triple| |].
      * apply lasting_and; [apply lasting_listed_subvolume|apply lasting_tried].
      * intros r h [Hl Ht]. by apply (removes_subvolume _ subVolume).
      * done.
      * by intros r h [_ Hs].
    + apply lasting_and; [done|apply lasting_snapshots_gone].
    + done.
    + intros [e3|err] h Hr; [|by destruct Hr]. destruct Hr as [_ Hd]. intros E. destruct (Hd E) as [[[Hdh Ho] Hg] Hs]. by split_and!.
  - done.
Qed.

Lemma subvolumes_triple l seen rest e :
  l = seen ++ rest ->
  triple group_call (fun h => subvolumes_told l h /\ (e = None -> Forall (subvolume_removed h) seen))
    (cleanup_subvolumes (W := W) fsName svg poolName csiNamespace rest e)
    (fun r h => match r with Ok e' => subvolumes_told l h /\ (e' = None -> Forall (subvolume_removed h) l) | Err _ => False end).
Proof.
  assert (lasting (subvolumes_told l)) as Ht by (unfold subvolumes_told; lasts).
  revert seen e. induction rest as [|v rest IH]; intros seen e Hl; cbn [cleanup_subvolumes].
  { rewrite app_nil_r in Hl. subst seen. by apply triple_ret. }
  eapply triple_bind; [|intros e'|].
  - eapply triple_conseq; [apply (triple_frame _ (subvolumes_told l) _ _ _ Ht (subvolume_triple v e (fun h => Forall (subvolume_removed h) seen)
      (lasting_forall _ _ (fun i => lasting_subvolume_removed i))))| |intros r h Hr; exact Hr].
    intros h [Hs Hd]. split; [done|]. split; [|done]. exists l. split; [done|]. subst l. apply elem_of_app. right. apply list_elem_of_here.
  - eapply triple_conseq; [apply (IH (seen ++ [v]) e')| |done]; [by rewrite <- (assoc_L (++))|].
    intros h [Hs Hd]. split; [done|]. intros E. destruct (Hd E). apply Forall_app. split; [done|by apply Forall_singleton].
  - by intros err h [].
Qed.

Lemma group_cleanup_triple :
  triple group_call (fun _ => True) (SubVolumeGroupCleanup (W := W) fsName svg poolName csiNamespace)
    (fun r h => r = Ok () -> exists l, subvolumes_told l h /\ Forall (subvolume_removed h) l).
Proof.
  unfold SubVolumeGroupCleanup, listSubvolumesInGroup.
  eapply triple_bind; [apply (triple_wrapped _ _ _ _ (fun _ => True) (fun l h => subvolumes_told l h)), decoded_triple|intros l|done].
  - lasts.
  - intros. apply lists_subvolumes.
  - eapply triple_bind; [eapply triple_conseq; [apply (subvolumes_triple l [] l None)| |intros r h Hr; exact Hr]|intros [e|]|done].
    + done.
    + intros h [_ Hl]. split; [by apply Hl|constructor].
    + by apply triple_fail.
    + apply triple_ret. intros h [Hl Hr] _. exists l. auto.
Qed.

(** C27: every call of the job that removes the subvolumes of a group is one of these: it lists the
    subvolumes of the group; for a subvolume that was listed it reads and removes its entry in the
    directory of volumes, lists its snapshots, and of these asks for pending clones, cancels the clones
    that it is told, and removes the snapshots; and it removes the subvolume after it tried to list its
    snapshots.  When the job reports success, every subvolume that was listed is removed with its entry,
    its snapshots and their pending clones. *)
Theorem subvolumes_are_removed e :
  let '(w, r) := SubVolumeGroupCleanup (W := W) fsName svg poolName csiNamespace (World e []) in
  guarded group_call (log w) /\
  (r = Ok () -> exists l, subvolumes_told l (log w) /\ Forall (subvolume_removed (log w)) l).
Proof.
  destruct (triple_run _ _ _ _ e group_cleanup_triple I) as [Hg Hr]. by destruct (SubVolumeGroupCleanup fsName svg poolName csiNamespace (World e [])).
Qed.

End Groups.

(** ** The jobs that the controllers start *)

Section Started.
Context {W : Type} `{CleanupEnv W}.

Abbreviation MC := (MW (gmap string bool * W)).

Lemma required_set environ name msg v w : environ !! name = Some v -> v <> "" -> required (W := W) environ name msg w = (w, Ok v).
Proof. intros He Hv. unfold required, getenv. rewrite He. cbn. by destruct (String.eqb_spec v ""). Qed.

(** The command of the job is the run of [m], up to the text of its error. *)
Definition runs (kind : string) (config : gmap string string) (m : MC unit) : Prop :=
  forall w, (cleanUpCmd (W := W) config kind w).1 = (m w).1 /\ is_ok (cleanUpCmd (W := W) config kind w).2 = is_ok (m w).2.

Lemma wrapM_same {A} (m : MC A) fmt args w : (wrapM m fmt args w).1 = (m w).1 /\ is_ok (wrapM m fmt args w).2 = is_ok (m w).2.
Proof. unfold wrapM. by destruct (m w) as [w' [|]]. Qed.

(** With the settings that the controller of groups gives it, the job removes the subvolumes of this
    group. *)
Lemma group_job_started g :
  svg_FilesystemName g <> "" -> getSubvolumeGroupName g <> "" ->
  runs "CephFilesystemSubVolumeGroup" (group_cleanup_config g)
    (SubVolumeGroupCleanup (svg_FilesystemName g) (getSubvolumeGroupName g) (GenerateMetaDataPoolName (svg_FilesystemName g)) "csi").
Proof.
  intros Hf Hg w. unfold cleanUpCmd, startSubVolumeGroupCleanUp. cbn [String.eqb Ascii.eqb Bool.eqb].
  unfold mbind, M_bind. rewrite (required_set _ _ _ (svg_FilesystemName g)) by done. rewrite (required_set _ _ _ (getSubvolumeGroupName g)) by done.
  rewrite (required_set _ _ _ "csi") by done. rewrite (required_set _ _ _ (GenerateMetaDataPoolName (svg_FilesystemName g))); [apply wrapM_same|done|].
  unfold GenerateMetaDataPoolName. by destruct (svg_FilesystemName g).
Qed.

(** The job of a rados namespace, which is never the implicit one, removes its images. *)
Lemma namespace_job_started n :
  rns_BlockPoolName n <> "" -> GetRadosNamespaceName n <> "" ->
  runs "CephBlockPoolRadosNamespace" (namespace_cleanup_config n) (RadosNamespaceCleanup (rns_BlockPoolName n) (GetRadosNamespaceName n)).
Proof.
  intros Hp Hn w. unfold cleanUpCmd, startRadosNamespaceCleanup. cbn [String.eqb Ascii.eqb Bool.eqb].
  unfold mbind, M_bind. rewrite (required_set _ _ _ (rns_BlockPoolName n)) by done. rewrite (required_set _ _ _ (GetRadosNamespaceName n)) by done.
  apply wrapM_same.
Qed.

(** The job of a pool removes the images of the pool with the name of the resource. *)
Lemma pool_job_started p : bp_Name p <> "" -> runs "CephBlockPool" (pool_cleanup_config p) (BlockPoolCleanup (bp_Name p)).
Proof.
  intros Hp w. unfold cleanUpCmd, startBlockPoolCleanup. cbn [String.eqb Ascii.eqb Bool.eqb].
  unfold mbind, M_bind. rewrite (required_set _ _ _ (bp_Name p)) by done. apply wrapM_same.
Qed.

End Started.

(** ** Witnesses *)

Definition toy_images (s : string) : list CephBlockImage :=
  (fun n => {| image_ID := "id-" +:+ n; image_Name := n |}) <$> names (TrimRight (fun c => Ascii.eqb c "]") (default "" (strip_prefix "[" s))).

#[global] Instance lab_cleanup : CleanupEnv FsLab := {
  json_images s := Some (toy_images s);
  json_snapshots s := (toy_names s, false);
  json_watchers s := Some (toy_names s);
  range_set s := elements s;
  range_set_ok s := reflexivity (elements s);
}.

Definition group_ceph (args : list string) : result string :=
  match args with
  | "fs" :: "subvolume" :: "ls" :: _ => Ok "csi-vol-1"
  | "fs" :: "subvolume" :: "snapshot" :: "ls" :: _ => Ok "s"
  | _ => Ok ""
  end.

Definition cleanup_lab : FsLab := fs_lab_with group_ceph (myfs true (fs_spec false false)) [] [].

Definition images_run : world (gmap string bool * FsLab) call * result unit := cleanupImages "rbd" "ns1" (begin cleanup_lab).

Lemma images_are_fenced_witness :
  images_run.2 = Ok () /\ log images_run.1 !! 4%nat = Some (Rbd (list_snaps_args "rbd" "a" "ns1") (Ok "s")) /\
  exists images, images_listed (W := FsLab) "rbd" "ns1" images (log images_run.1) /\ Forall (image_removed (W := FsLab) "rbd" "ns1" (log images_run.1)) images.
Proof.
  split; [vm_compute; reflexivity|]. split; [vm_compute; reflexivity|].
  pose proof (images_are_fenced (W := FsLab) "rbd" "ns1" (∅, cleanup_lab)) as Ht. fold (begin cleanup_lab) in Ht. fold images_run in Ht.
  destruct images_run as [w r] eqn:E. apply Ht. change r with (w, r).2. rewrite <- E. vm_compute. reflexivity.
Defined.

Definition group_run : world (gmap string bool * FsLab) call * result unit := SubVolumeGroupCleanup "myfs" "csi" "myfs-metadata" "csi" (begin cleanup_lab).

Lemma subvolumes_are_removed_witness :
  group_run.2 = Ok () /\ log group_run.1 !! 6%nat = Some (Ceph (rm_subvolume_args "myfs" "csi-vol-1" "csi") (Ok "")) /\
  exists l, subvolumes_told (W := FsLab) "myfs" "csi" l (log group_run.1) /\ Forall (subvolume_removed (W := FsLab) "myfs" "csi" "myfs-metadata" "csi" (log group_run.1)) l.
Proof.
  split; [vm_compute; reflexivity|]. split; [vm_compute; reflexivity|].
  pose proof (subvolumes_are_removed (W := FsLab) "myfs" "csi" "myfs-metadata" "csi" (∅, cleanup_lab)) as Ht. fold (begin cleanup_lab) in Ht. fold group_run in Ht.
  destruct group_run as [w r] eqn:E. apply Ht. change r with (w, r).2. rewrite <- E. vm_compute. reflexivity.
Defined.

(** ** What the theorems do not promise *)

(** The job of a pool that is named by its spec looks for images in a pool with the name of the resource. *)
Example pool_job_misses_pool :
  let p := {| bp_Namespace := "rook-ceph"; bp_Name := "builtin-mgr"; bp_Generation := 1; bp_Deleted := true; bp_Annotations := ∅; spec_Name := ".mgr";
              bp_Spec := three; bp_Status := None |} in
  pool_Name (ToNamedPoolSpec p) = ".mgr" /\
  head (log (cleanUpCmd (W := FsLab) (pool_cleanup_config p) "CephBlockPool" (begin cleanup_lab)).1) =
    Some (Rbd (list_images_args "builtin-mgr" "") (Ok ("starting" +:+ String "010" "[a,b] done"))).
Proof. vm_compute. split; reflexivity. Qed.

(** When the output of rbd has its list on several lines no image is seen. *)
Example list_on_lines : json_line (split_byte newline ("[" +:+ String "010" "  a" +:+ String "010" "]")) = None.
Proof. reflexivity. Qed.

End CleanupSafety.
