(* ===== verification/CsiSafety.v ===== *)
(** * CsiSafety: the secrets of CSI name clients that exist

    The theorems on file CsiKeys. *)

From stdpp Require Import base gmap strings list fin_maps sorting.
From Stdlib Require Import ZArith Ascii.
From S2P Require Import Prelude CephVersion MonStore Cephx Pools BlockPool FsClient Mds CsiKeys FsLab FsSafety CleanupSafety.
Import Log Version Cephx Pools BlockPool FsClient Mds CsiKeys FsLab FsSafety CleanupSafety.
Open Scope Z_scope.

Module CsiSafety.

(** ** Names *)

(** A base name that the parser gives back. *)
Definition csi_user (base : string) : Prop :=
  exists b, base = "client." +:+ b /\ free_of "." b = true /\ HasSuffix b " " = false.

(** The name of a client of a generation is read back. *)
Lemma parse_generated base gen :
  csi_user base -> fits gen -> parseCsiClient (generateCsiUserIdWithGenerationSuffix base gen) = Ok (base, gen).
Proof.
  intros (b & -> & Hb & Hs) Hg. pose proof Hg as [Hg0 _]. unfold generateCsiUserIdWithGenerationSuffix, parseCsiClient. destruct (Z.ltb_spec 0 gen) as [Hp|Hp].
  - replace (("client." +:+ b) +:+ "." +:+ Itoa gen) with ("client" +:+ String "." (b +:+ String "." (Itoa gen))).
    2:{ by rewrite (app_string_assoc "client."). }
    rewrite split_byte_app by done. rewrite split_byte_app by done. rewrite split_byte_free by (by apply Itoa_free).
    cbn. rewrite Hs. rewrite Atoi_fits by done. destruct (Z.ltb_spec gen 0); [lia|done].
  - change ("client." +:+ b) with ("client" +:+ String "." b). rewrite split_byte_app, split_byte_free by done. cbn. rewrite Hs. do 2 f_equal. lia.
Qed.

Lemma generated_base base gen : csi_user base -> fits gen -> base_name (generateCsiUserIdWithGenerationSuffix base gen) = base.
Proof. intros Hb Hg. unfold base_name. by rewrite parse_generated. Qed.

Lemma generated_generation base gen : csi_user base -> fits gen -> generation (generateCsiUserIdWithGenerationSuffix base gen) = gen.
Proof. intros Hb Hg. unfold generation. by rewrite parse_generated. Qed.

Lemma generation_nonneg c : 0 <= generation c.
Proof. unfold generation, parseCsiClient. repeat case_match; simplify_eq/=; lia. Qed.

(** ** Lists of clients *)

Lemma dedup_elem seen l c : c ∈ dedup_loop seen l <-> c ∈ l /\ c ∉ seen.
Proof.
  revert seen. induction l as [|v l IH]; intros seen; cbn; [set_solver|].
  case_bool_decide as Hv; [rewrite IH|rewrite !elem_of_cons, IH]; destruct (decide (c = v)); set_solver.
Qed.

Lemma dedup_nodup seen l : NoDup (dedup_loop seen l).
Proof.
  revert seen. induction l as [|v l IH]; intros seen; cbn; [constructor|].
  case_bool_decide; [done|]. constructor; [|done]. rewrite dedup_elem. set_solver.
Qed.

Section Sorted.
Context {W : Type} `{CsiEnv W}.

Lemma sorted_perm l : sortCSIClientName (W := W) l ≡ₚ l.
Proof.
  unfold sortCSIClientName. rewrite sort_clients_perm, <- list_fmap_compose. cbn. by rewrite list_fmap_id.
Qed.

Lemma sorted_strongly l : StronglySorted (fun a b => generation a <= generation b) (sortCSIClientName (W := W) l).
Proof.
  unfold sortCSIClientName. pose proof (sort_clients_sorted (W := W) ((fun name => (name, generation name)) <$> l)) as Hs.
  assert (Forall (fun x => x.2 = generation x.1) (sort_clients (W := W) ((fun name => (name, generation name)) <$> l))) as Hf.
  { rewrite sort_clients_perm, Forall_fmap. by apply Forall_true. }
  induction Hs as [|x k Hs IH Hx]; [constructor|]. inversion Hf as [|? ? Ex Hf']; subst. cbn. constructor; [by apply IH|].
  rewrite Forall_fmap. rewrite Forall_forall in *. intros y Hy. cbn. specialize (Hx y Hy). unfold older in Hx. rewrite <- Ex, <- (Hf' y Hy). done.
Qed.

(** Of a sorted list the first ones are not newer than the others. *)
Lemma older_first l n c s :
  c ∈ take n (sortCSIClientName (W := W) l) -> s ∈ drop n (sortCSIClientName (W := W) l) -> generation c <= generation s.
Proof.
  intros Hc Hs. pose proof (sorted_strongly l) as Hk. rewrite <- (take_drop n (sortCSIClientName (W := W) l)) in Hk.
  by eapply (StronglySorted_app_1_elem_of _ _ _ _ _ Hk).
Qed.

(** The last one is a newest one. *)
Lemma last_newest l c s : last (sortCSIClientName (W := W) l) = Some c -> s ∈ l -> generation s <= generation c.
Proof.
  intros Hc Hs. rewrite <- (sorted_perm l) in Hs. pose proof (sorted_strongly l) as Hk.
  apply last_Some in Hc as [k Hc]. rewrite Hc in *. apply elem_of_app in Hs as [Hs| ->%list_elem_of_singleton]; [|done].
  apply (StronglySorted_app_1_elem_of _ _ _ _ _ Hk Hs), list_elem_of_here.
Qed.

End Sorted.

(** ** What the calls of a run tell *)

Section Keyrings.
Context {W : Type} `{CsiEnv W}.

Abbreviation MC := (MW (gmap string bool * W)).

Definition del_args (c : string) : list string := ["auth"; "del"; c].

Definition auth_listed (names : list string) (h : list call) : Prop :=
  exists out, Ceph ["auth"; "ls"] (Ok out) ∈ h /\ json_auth_list (W := W) out = Some names.

(** Ceph told the key of the client, which therefore exists. *)
Definition key_told (user key : string) (h : list call) : Prop :=
  exists args out, Ceph args (Ok out) ∈ h /\ json_auth_key (W := W) out = Some key /\
    (args = ["auth"; "get-key"; user] \/ exists rest, args = ["auth"; "get-or-create-key"; user] ++ rest).

Definition all_clients (base : string) (names : list string) (user : string) : list string := deduplicate (getMatchingClient names base ++ [user]).

(** The recorded status is not the one of a new cluster, and the clients are named and numbered as the
    operator does it. *)
Definition regular (cluster : CsiCephx) (base : string) (names : list string) : Prop :=
  KeyCephVersion (csi_Status cluster) <> UninitializedCephxKeyCephVersion /\
  Forall (fun c => base_name c = base -> generation c < max_uint32 /\ c = generateCsiUserIdWithGenerationSuffix base (generation c)) names.

(** A client may go: the newest one exists, and as many clients of the user as are to be kept and one more
    stay, of which none is older and none was deleted before, the newest one among them. *)
Definition retired (cluster : CsiCephx) (base : string) (h : list call) (c : string) : Prop :=
  exists names user key kept, auth_listed names h /\ key_told user key h /\ base_name user = base /\
    c ∈ all_clients base names user /\ c ∉ kept /\ NoDup kept /\ kept ⊆ all_clients base names user /\
    Z.of_nat (length kept) = KeepPriorKeyCountMax cluster + 1 /\
    Forall (fun s => generation c <= generation s /\ forall r, Ceph (del_args s) r ∉ h) kept /\
    (regular cluster base names -> user ∈ kept).

(** ** The clients that are deleted *)

Section Kept.
Context (all : list string) (keep : Z) (Hkeep : 0 <= keep).

Definition surplus : nat := Z.to_nat (deleteCount (Z.of_nat (length (sortCSIClientName (W := W) all))) keep).

Definition doomed : list string := take surplus (sortCSIClientName (W := W) all).

Definition kept : list string := drop surplus (sortCSIClientName (W := W) all).

Lemma doomed_kept : doomed ++ kept ≡ₚ all.
Proof. unfold doomed, kept. by rewrite take_drop, sorted_perm. Qed.

Lemma kept_length c : c ∈ doomed -> Z.of_nat (length kept) = keep + 1.
Proof.
  intros Hc. assert (surplus <> O) as Hs. { unfold doomed in Hc. destruct surplus; [by apply elem_of_nil in Hc|done]. }
  unfold kept. rewrite length_drop. revert Hs. unfold surplus, deleteCount.
  destruct (Z.ltb_spec (Z.of_nat (length (sortCSIClientName (W := W) all)) - keep - 1) 0); lia.
Qed.

Lemma some_kept : all <> [] -> exists s, s ∈ kept.
Proof.
  intros Hne. destruct kept as [|s l] eqn:E; [|exists s; apply list_elem_of_here]. exfalso.
  apply (f_equal length) in E. unfold kept, surplus, deleteCount in E. rewrite length_drop in E. cbn [length] in E.
  assert (length (sortCSIClientName (W := W) all) <> O) as Hl. { rewrite sorted_perm. by destruct all. }
  destruct (Z.ltb_spec (Z.of_nat (length (sortCSIClientName (W := W) all)) - keep - 1) 0); lia.
Qed.

Lemma doomed_not_kept c : NoDup all -> c ∈ doomed -> c ∉ kept.
Proof. intros Hn Hc Hd. rewrite <- doomed_kept, NoDup_app in Hn. destruct Hn as (_ & Hn & _). by apply (Hn c). Qed.

Lemma nodup_kept : NoDup all -> NoDup kept.
Proof. rewrite <- doomed_kept, NoDup_app. tauto. Qed.

(** The only client of the highest generation is kept. *)
Lemma newest_kept user : user ∈ all -> (forall s, s ∈ all -> generation user <= generation s -> s = user) -> user ∈ kept.
Proof.
  intros Hu Hmax. destruct some_kept as [s Hs]; [by intros ->; apply elem_of_nil in Hu|].
  assert (s ∈ all) as Ha. { rewrite <- doomed_kept. apply elem_of_app. by right. }
  rewrite <- doomed_kept, elem_of_app in Hu. destruct Hu as [Hu|]; [|done].
  rewrite <- (Hmax s Ha); [done|]. by eapply older_first.
Qed.

End Kept.

(** ** The generation of the newest client *)

Lemma desired_generation cfg v status rotate keyType :
  KeyCephVersion status <> UninitializedCephxKeyCephVersion -> is_uint32 (cfg_KeyGeneration cfg) -> 0 <= KeyGeneration status < max_uint32 ->
  is_uint32 (KeyGeneration (UpdatedCephxStatus rotate cfg v status keyType)) /\
  KeyGeneration status <= KeyGeneration (UpdatedCephxStatus rotate cfg v status keyType).
Proof.
  intros Hi Hc Hs. unfold UpdatedCephxStatus. rewrite (proj2 (String.eqb_neq _ _) Hi). unfold is_uint32, max_uint32, uint32_incr in *.
  destruct rotate; cbn; [|lia]. rewrite Z.mod_small by lia.
  destruct (String.eqb _ _); cbn; [destruct (Z.ltb_spec (KeyGeneration status + 1) (cfg_KeyGeneration cfg))|]; lia.
Qed.

Lemma desired_range cfg v status rotate keyType :
  is_uint32 (cfg_KeyGeneration cfg) -> is_uint32 (KeyGeneration status) -> is_uint32 (KeyGeneration (UpdatedCephxStatus rotate cfg v status keyType)).
Proof.
  unfold UpdatedCephxStatus, is_uint32, max_uint32, uint32_incr. intros Hc Hs.
  pose proof (Z.mod_pos_bound (KeyGeneration status + 1) (2 ^ 32) ltac:(lia)). repeat case_match; cbn; lia.
Qed.

(** ** The keyring of one user *)

(** Writes a secret or the status. *)
Definition writes (ev : call) : bool := match ev with WriteSecret _ _ _ _ _ | SetCsiCephx _ _ _ _ => true | _ => false end.

(** Neither deletes a client nor writes. *)
Definition quiet (ev : call) : Prop := (forall c r, ev <> Ceph (del_args c) r) /\ writes ev = false.

(** The calls for a user: they write nothing and delete only clients of this user. *)
Definition keyring_call (base : string) (ev : call) : Prop :=
  (forall c r, ev = Ceph (del_args c) r -> base_name c = base) /\ writes ev = false.

Lemma quiet_keyring base ev : quiet ev -> keyring_call base ev.
Proof. intros [Hd Hw]. split; [|done]. intros c r E. by destruct (Hd c r). Qed.

Lemma quiet_ceph args r : (forall c, args <> del_args c) -> quiet (Ceph args r).
Proof. intros Ha. split; [intros c r' [= E _]; by destruct (Ha c)|done]. Qed.

Lemma ceph_yields ok args (Q : result string -> list call -> Prop) :
  (forall r, ok (Ceph args r) /\ Q r [Ceph args r]) -> yields ok (ceph (W := gmap string bool * W) args) Q.
Proof. apply yields_record. Qed.

(** A command whose answer is decoded. *)
Lemma decoded_yields {A} ok args fmt names (o : string -> option A) msg margs :
  (forall r, ok (Ceph args r)) ->
  yields ok (out ← wrapM (ceph args) fmt names; decode (o out) msg margs : MC A)
    (fun r l => match r with Ok a => exists out, Ceph args (Ok out) ∈ l /\ o out = Some a | Err _ => True end).
Proof.
  intros Hok. apply yields_bind, yields_wrapM, ceph_yields. intros r. split; [apply Hok|]. destruct r as [out|err]; cbn; [|done].
  unfold decode. destruct (o out) as [a|] eqn:E; [apply yields_ret|by apply yields_fail]. exists out. split; [apply list_elem_of_here|done].
Qed.

Lemma rotation_info_yields base :
  base <> "" ->
  yields quiet (getCsiKeyRotationInfo (W := W) base) (fun r l =>
    match r with
    | Ok (gen, matching) => 0 <= gen /\ exists names, auth_listed names l /\ matching = getMatchingClient names base /\
        Forall (fun s => generation s <= gen) matching /\ (gen = 0 \/ exists s, s ∈ matching /\ generation s = gen)
    | Err _ => True
    end).
Proof.
  intros Hb. unfold getCsiKeyRotationInfo, AuthList. apply yields_bind. eapply yields_mono; [|apply decoded_yields; intros r; by apply quiet_ceph].
  intros [names|err] l _ Hl; [|done]. cbn in Hl. destruct (last (sortCSIClientName (W := W) (getMatchingClient names base))) as [c|] eqn:El.
  - assert (c ∈ getMatchingClient names base) as Hc. { rewrite <- (sorted_perm (W := W)). by apply last_Some_elem_of. }
    apply yields_bind, yields_wrapM, yields_lift. destruct (parseCsiClient c) as [[b gen]|err] eqn:Ep; cbn; [|done].
    apply yields_ret. assert (generation c = gen) as Hg by (unfold generation; by rewrite Ep).
    split; [rewrite <- Hg; apply generation_nonneg|]. exists names. rewrite app_nil_r. split_and!; [done|done| |right; by exists c].
    apply Forall_forall. intros s Hs. rewrite <- Hg. by eapply last_newest.
  - apply yields_ret. split; [done|]. exists names. rewrite app_nil_r. split_and!; [done|done| |by left].
    apply last_None in El. assert (getMatchingClient names base = []) as -> by (by apply Permutation_nil_r; rewrite <- (sorted_perm (W := W)), El).
    constructor.
Qed.

Lemma ensure_yields v cfg user caps :
  yields quiet (ensure_client (W := W) v cfg user caps) (fun r l => match r with Ok key => key_told user key l | Err _ => True end).
Proof.
  unfold ensure_client, AuthGetKey, AuthGetOrCreateKey, AuthUpdateCaps, run. apply yields_bind, yields_try.
  eapply yields_mono; [|apply decoded_yields; intros r; by apply quiet_ceph]. intros [key|err] l _ Hl; cbn.
  - apply yields_bind, yields_wrapM, yields_wrapM, yields_bind, ceph_yields. intros r. split; [by apply quiet_ceph|].
    destruct r as [out'|err]; cbn; [|done]. apply yields_ret. apply yields_ret. destruct Hl as (out & Hin & Hk).
    exists ["auth"; "get-key"; user], out. split_and!; [apply elem_of_app; by left|done|by left].
  - apply yields_wrapM. eapply yields_mono; [|apply decoded_yields; intros r; by apply quiet_ceph].
    intros [key|err'] l' _ Hl'; [|done]. destruct Hl' as (out & Hin & Hk).
    do 2 eexists. split_and!; [apply elem_of_app; right; exact Hin|done|right]. eexists. reflexivity.
Qed.

Lemma delete_yields count l :
  yields (fun ev => exists c r, c ∈ l /\ ev = Ceph (del_args c) r) (delete_clients (W := W) count l) (fun _ _ => True).
Proof.
  induction l as [|c l IH]; cbn [delete_clients]; [by apply yields_ret|]. unfold AuthDelete, run.
  apply yields_bind, yields_try, yields_wrapM, yields_bind, ceph_yields. intros r.
  split; [exists c, r; split; [apply list_elem_of_here|done]|]. destruct r as [out|err]; cbn; [|by apply yields_ret].
  apply yields_ret. apply yields_bind. eapply yields_impl; [|eapply yields_mono; [|exact IH]].
  - intros ev (c' & r & Hc & ->). exists c', r. split; [by right|done].
  - intros [[deleted err]|err] l' _ _; [by apply yields_ret|done].
Qed.

(** The newest client of a user: of its base name, and the only one of its generation or above. *)
Lemma latest_client cluster base names gen v rotate :
  csi_user base -> typed cluster -> 0 <= gen -> Forall (fun s => generation s <= gen) (getMatchingClient names base) ->
  (gen = 0 \/ exists s, s ∈ getMatchingClient names base /\ generation s = gen) ->
  let cfg := csi_Config cluster in
  let user := generateCsiUserIdWithGenerationSuffix base
                (KeyGeneration (UpdatedCephxStatus rotate cfg v (interpreted_status (csi_Status cluster) gen) (cfg_KeyType cfg))) in
  base_name user = base /\
  (regular cluster base names -> forall s, s ∈ all_clients base names user -> generation user <= generation s -> s = user).
Proof.
  intros Hb [Hc _] Hg Hall Hmax cfg user.
  assert (forall z, is_uint32 z -> fits z) as Hfits. { unfold is_uint32, max_uint32, fits, max_int64. lia. }
  assert (is_uint32 (KeyGeneration (interpreted_status (csi_Status cluster) gen))) as Hi.
  { unfold is_uint32, max_uint32. cbn. pose proof (Z.mod_pos_bound gen (2 ^ 32) ltac:(lia)). lia. }
  pose proof (desired_range cfg v _ rotate (cfg_KeyType cfg) Hc Hi) as Hr. split; [by apply generated_base, Hfits|].
  intros [Hu Hnames] s Hs Hle. unfold all_clients, deduplicate in Hs. rewrite dedup_elem, elem_of_app, list_elem_of_singleton in Hs.
  destruct Hs as [[Hs| ->] _]; [|done]. rewrite Forall_forall in Hall, Hnames.
  assert (forall x, x ∈ getMatchingClient names base -> x ∈ names /\ base_name x = base) as Hm.
  { intros x Hx. unfold getMatchingClient in Hx. apply list_elem_of_In, filter_In in Hx as [Hx Ex]. split; [by apply list_elem_of_In|by apply String.eqb_eq]. }
  assert (gen < max_uint32) as Hlt.
  { destruct Hmax as [->|(x & Hx & <-)]; [unfold max_uint32; lia|]. destruct (Hm x Hx) as [Hin Hbx]. by apply (Hnames x Hin Hbx). }
  destruct (Hm s Hs) as [Hin Hbs]. destruct (Hnames s Hin Hbs) as [_ Es]. rewrite Es. unfold user. f_equal.
  assert (gen mod 2 ^ 32 = gen) as Emod. { apply Z.mod_small. unfold max_uint32 in Hlt. lia. }
  destruct (desired_generation cfg v (interpreted_status (csi_Status cluster) gen) rotate (cfg_KeyType cfg) Hu Hc) as [_ Hge].
  { cbn. rewrite Emod. lia. }
  cbn [KeyGeneration interpreted_status] in Hge. rewrite Emod in Hge. specialize (Hall s Hs).
  unfold user in Hle. rewrite generated_generation in Hle by (done || by apply Hfits). lia.
Qed.

(** Deletions are of clients that may go. *)
Definition retires (cluster : CsiCephx) (base : string) (h : list call) (ev : call) : Prop :=
  forall c r, ev = Ceph (del_args c) r -> retired cluster base h c.

(** Ceph told the key of the user, and the user was not deleted. *)
Definition user_valid (cluster : CsiCephx) (base user key : string) (h : list call) : Prop :=
  base_name user = base /\ key_told user key h /\
  exists names, auth_listed names h /\ (regular cluster base names -> forall r, Ceph (del_args user) r ∉ h).

Definition keyring_post (cluster : CsiCephx) (base : string) (r : result (string * string * Z * bool)) (l : list call) : Prop :=
  guarded_from (retires cluster base) [] l /\ match r with Ok (user, key, _, _) => user_valid cluster base user key l | Err _ => True end.

Lemma quiet_retires cluster base h l : Forall quiet l -> guarded_from (retires cluster base) h l.
Proof. intros Hl. apply guarded_from_all. eapply Forall_impl; [exact Hl|]. intros ev [Hd _] pre c r E. by destruct (Hd c r). Qed.

Lemma quiet_not_deleted l user r : Forall quiet l -> Ceph (del_args user) r ∉ l.
Proof. rewrite Forall_forall. intros Hl Hin. by destruct (Hl _ Hin) as [Hd _]; apply (Hd user r). Qed.

Lemma listed_app names l l' : auth_listed names l -> auth_listed names (l ++ l').
Proof. intros (out & Hin & Hd). exists out. split; [apply elem_of_app; by left|done]. Qed.

Lemma told_app user key l l' : key_told user key l -> key_told user key (l ++ l').
Proof. intros (args & out & Hin & Hk). exists args, out. split; [apply elem_of_app; by left|done]. Qed.

Lemma all_base base names user c : base_name user = base -> c ∈ all_clients base names user -> base_name c = base.
Proof.
  intros Hu. unfold all_clients, deduplicate, getMatchingClient. rewrite dedup_elem, elem_of_app, list_elem_of_singleton.
  intros [[Hc| ->] _]; [|done]. apply list_elem_of_In, filter_In in Hc as [_ Hc]. by apply String.eqb_eq.
Qed.

(** The deletions after the newest client is known to exist. *)
Lemma old_keys_yields cluster base names user key h :
  typed cluster -> Forall quiet h -> auth_listed names h -> key_told user key h -> base_name user = base ->
  (regular cluster base names -> forall s, s ∈ all_clients base names user -> generation user <= generation s -> s = user) ->
  yields (keyring_call base) (deleteOldKeyGen (W := W) (all_clients base names user) (KeepPriorKeyCountMax cluster))
    (fun _ l => guarded_from (retires cluster base) h l /\ (regular cluster base names -> forall r, Ceph (del_args user) r ∉ l)).
Proof.
  intros [_ Hkeep] Hq Hl Hk Hu Hnew. set (all := all_clients base names user) in *.
  assert (NoDup all) as Hnd by apply dedup_nodup.
  assert (user ∈ all) as Hin. { unfold all, all_clients, deduplicate. rewrite dedup_elem, elem_of_app, list_elem_of_singleton. split; [by right|set_solver]. }
  unfold deleteOldKeyGen. destruct (_ <? 2)%nat; [apply yields_ret; split; [apply guarded_from_nil|intros _ r Hr; by apply elem_of_nil in Hr]|].
  change (take _ _) with (doomed all (KeepPriorKeyCountMax cluster)).
  pose proof (doomed_kept all (KeepPriorKeyCountMax cluster)) as Hsplit.
  assert (forall c, c ∈ doomed all (KeepPriorKeyCountMax cluster) -> c ∈ all) as Hd. { intros c Hc. rewrite <- Hsplit. apply elem_of_app. by left. }
  eapply yields_impl; [|eapply yields_mono; [|apply delete_yields]].
  - intros ev (c & r & Hc & ->). split; [intros c' r' [= -> _]; eapply all_base; [exact Hu|by apply Hd]|done].
  - intros r l Hall _. rewrite Forall_forall in Hall. split.
    + intros pre ev post -> c r' ->. destruct (Hall (Ceph (del_args c) r')) as (c' & r2 & Hc & [= <- _]).
      { apply elem_of_app. right. apply list_elem_of_here. }
      exists names, user, key, (kept all (KeepPriorKeyCountMax cluster)).
      split_and!; [by apply listed_app|by apply told_app|done|by apply Hd|by apply doomed_not_kept|by apply nodup_kept| |by eapply kept_length; [lia|]| |].
      * intros s Hs. change (s ∈ all). rewrite <- Hsplit. apply elem_of_app. by right.
      * apply Forall_forall. intros s Hs. split; [by eapply older_first|]. intros rs [Hr|Hr]%elem_of_app; [by eapply quiet_not_deleted in Hr|].
        destruct (Hall (Ceph (del_args s) rs)) as (s' & rs' & Hs' & [= <- _]); [apply elem_of_app; by left|]. by eapply (doomed_not_kept all).
      * intros Hreg. apply newest_kept; [lia|done|by apply Hnew].
    + intros Hreg r' Hr. destruct (Hall _ Hr) as (c' & r2 & Hc & [= <- _]). eapply (doomed_not_kept all); [done|exact Hc|].
      apply newest_kept; [lia|done|by apply Hnew].
Qed.

Lemma told_later user key l l' : key_told user key l' -> key_told user key (l ++ l').
Proof. intros (args & out & Hin & Hk). exists args, out. split; [apply elem_of_app; by right|done]. Qed.

Lemma listed_later names l l' : auth_listed names l' -> auth_listed names (l ++ l').
Proof. intros (out & Hin & Hd). exists out. split; [apply elem_of_app; by right|done]. Qed.

(** What is known of a client stays known when other calls come before or after. *)
Lemma retired_after cluster base h l c :
  (forall s r, Ceph (del_args s) r ∈ h -> base_name s <> base) -> retired cluster base l c -> retired cluster base (h ++ l) c.
Proof.
  intros Hh (names & user & key & ks & Hl & Hk & Hu & Hc & Hn & Hd & Hsub & Hlen & Hks & Hreg). exists names, user, key, ks.
  split_and!; [by apply listed_later|by apply told_later|done..| |done]. rewrite Forall_forall in Hks |- *. intros s Hs.
  destruct (Hks s Hs) as [Hg Hns]. split; [done|]. intros r [Hr|Hr]%elem_of_app; [|by eapply Hns].
  apply (Hh s r Hr). eapply all_base; [exact Hu|by apply Hsub].
Qed.

Lemma valid_later cluster base user key h l :
  user_valid cluster base user key h -> (forall r, Ceph (del_args user) r ∉ l) -> user_valid cluster base user key (h ++ l).
Proof.
  intros (Hb & Hk & names & Hl & Hd) Hn. split_and!; [done|by apply told_app|]. exists names. split; [by apply listed_app|].
  intros Hreg r [Hr|Hr]%elem_of_app; [by eapply Hd|by eapply Hn].
Qed.

Lemma valid_before cluster base user key h l :
  user_valid cluster base user key l -> (forall r, Ceph (del_args user) r ∉ h) -> user_valid cluster base user key (h ++ l).
Proof.
  intros (Hb & Hk & names & Hl & Hd) Hn. split_and!; [done|by apply told_later|]. exists names. split; [by apply listed_later|].
  intros Hreg r [Hr|Hr]%elem_of_app; [by eapply Hn|by eapply Hd].
Qed.

(** The keyring of a user: the clients that are deleted may go, and the client that is returned is valid. *)
Lemma keyring_yields v ns cluster base caps :
  csi_user base -> typed cluster ->
  yields (keyring_call base) (createCSIKeyring (W := W) v ns cluster base caps) (keyring_post cluster base).
Proof.
  intros Hb Ht. assert (base <> "") as Hne by (by destruct Hb as (b & -> & _)). unfold createCSIKeyring.
  apply yields_bind, yields_wrapM. eapply yields_mono; [|apply (yields_weaken quiet); [apply quiet_keyring|by apply rotation_info_yields]].
  intros [[gen matching]|err] l1 _ [Hq1 Hinfo]; [|by split; [apply quiet_retires|]].
  destruct Hinfo as (Hg & names & Hl & -> & Hall & Hmax). cbn [wrap_err].
  assert (forall r (l : list call), Forall quiet l -> keyring_post cluster base (Err r) (l1 ++ l)) as Herr.
  { intros r l Hql. split; [|done]. apply quiet_retires. by apply Forall_app. }
  apply yields_bind, yields_silent. intros [allow|err]; [|by apply Herr].
  apply yields_bind, yields_wrapM, yields_lift. destruct (ShouldRotateCephxKeys _ _ _ _ _ _ _) as [rotate|err]; cbn [wrap_err]; [|by apply Herr].
  destruct (latest_client cluster base names gen v rotate Hb Ht Hg Hall Hmax) as [Hu Hnew].
  set (user := generateCsiUserIdWithGenerationSuffix _ _) in *.
  apply yields_bind. eapply yields_mono; [|apply (yields_weaken quiet); [apply quiet_keyring|apply ensure_yields]].
  intros [key|err] l2 _ [Hq2 Hk]; cbn [app]; [|by apply Herr].
  apply yields_bind. eapply yields_mono; [|apply (old_keys_yields cluster base names user key (l1 ++ l2))]; [|done| | | |done|done].
  2: by apply Forall_app.
  2: by apply listed_app.
  2: by apply told_later.
  intros r l3 _ [Hg3 Hd3].
  assert (guarded_from (retires cluster base) [] (l1 ++ l2 ++ l3)) as Hguard.
  { rewrite (assoc_L (++)). apply guarded_from_app; [|done]. apply quiet_retires. by apply Forall_app. }
  destruct r as [[deleted err]|err]; [|by split]. apply yields_ret. rewrite app_nil_r. split; [done|]. split_and!; [done| |].
  - by apply told_later, told_app.
  - exists names. split; [by apply listed_app|]. intros Hreg r. rewrite !elem_of_app.
    intros [Hr|[Hr|Hr]]; [by eapply quiet_not_deleted in Hr|by eapply quiet_not_deleted in Hr|by eapply (Hd3 Hreg)].
Qed.

End Keyrings.

(** ** The four users *)

(** The secrets and the users they are for. *)
Definition csi_users : list (string * string) :=
  [("rook-csi-rbd-provisioner", "client.csi-rbd-provisioner"); ("rook-csi-rbd-node", "client.csi-rbd-node");
   ("rook-csi-cephfs-provisioner", "client.csi-cephfs-provisioner"); ("rook-csi-cephfs-node", "client.csi-cephfs-node")].

Lemma csi_users_ok secret base : (secret, base) ∈ csi_users -> csi_user base.
Proof.
  intros Hin. assert (forall b, free_of "." b = true -> HasSuffix b " " = false -> csi_user ("client." +:+ b)) as Hu by (intros b; by exists b).
  unfold csi_users in Hin. repeat (apply elem_of_cons in Hin as [[= -> ->]|Hin]; [by apply Hu|]). by apply elem_of_nil in Hin.
Qed.

Section Secrets.
Context {W : Type} `{CsiEnv W} (ns name : string).

Abbreviation MC := (MW (gmap string bool * W)).

(** The secret was written. *)
Definition written (secret : string) (h : list call) : Prop :=
  exists verb data, WriteSecret verb ns secret data (Ok ()) ∈ h.

(** What must have happened before a client is deleted, a secret written or the status recorded. *)
Definition csi_call (h : list call) (ev : call) : Prop :=
  match ev with
  | Ceph args _ => forall c, args = del_args c ->
      exists cluster secret base, GetCsiCephx ns name (Ok cluster) ∈ h /\ (secret, base) ∈ csi_users /\ retired (W := W) cluster base h c
  | WriteSecret _ n secret data _ => n = ns /\
      exists cluster base user key, GetCsiCephx ns name (Ok cluster) ∈ h /\ (secret, base) ∈ csi_users /\
        data = {["userID" := MonStore.TrimPrefix user "client."; "userKey" := key]} /\ user_valid (W := W) cluster base user key h
  | SetCsiCephx n m _ _ => n = ns /\ m = name /\ forall secret base, (secret, base) ∈ csi_users -> written secret h
  | _ => True
  end.

Abbreviation triple := (triple (W := gmap string bool * W) csi_call).

(** What is known when the keyrings of [done] are finished: [done] has users with a client and its key. *)
Definition progress (cluster : CsiCephx) (done : list (string * (string * string))) (h : list call) : Prop :=
  GetCsiCephx ns name (Ok cluster) ∈ h /\ (forall c r, Ceph (del_args c) r ∈ h -> base_name c ∈ done.*1) /\
  Forall (fun x => user_valid (W := W) cluster x.1 x.2.1 x.2.2 h) done.

Definition no_deletion (ev : call) : Prop := forall c r, ev <> Ceph (del_args c) r.

Lemma progress_later cluster done h ev : no_deletion ev -> progress cluster done h -> progress cluster done (h ++ [ev]).
Proof.
  intros Hn (Hget & Hdel & Hv). split_and!; [by apply lasting_member| |].
  - intros c r [Hin|E%list_elem_of_singleton]%elem_of_app; [by eapply Hdel|by destruct (Hn c r)].
  - eapply Forall_impl; [exact Hv|]. intros [base [user key]] Hx. apply valid_later; [done|].
    intros r E%list_elem_of_singleton. by apply (Hn user r).
Qed.

Lemma keyring_triple v cluster secret base caps done :
  (secret, base) ∈ csi_users -> typed cluster -> base ∉ done.*1 ->
  triple (progress cluster done) (createCSIKeyring (W := W) v ns cluster base caps)
    (fun r h => match r with Ok (user, key, _, _) => progress cluster (done ++ [(base, (user, key))]) h | Err _ => True end).
Proof.
  intros Hs Ht Hb h Hg (Hget & Hdel & Hv). pose proof (csi_users_ok _ _ Hs) as Hu.
  eapply logs_mono; [|apply (keyring_yields v ns cluster base caps Hu Ht)]. intros r h' (l & -> & Hl & Hgl & Hr).
  assert (forall c r, Ceph (del_args c) r ∈ l -> base_name c = base) as Hbase.
  { rewrite Forall_forall in Hl. intros c r' Hin. by destruct (Hl _ Hin) as [Hc _]; eapply Hc. }
  split; [|split; [by exists l|]].
  - apply (guarded_from_app csi_call [] h l); [exact Hg|]. intros pre ev post E. rewrite Forall_forall in Hl.
    assert (ev ∈ l) as Hin by (rewrite E; apply elem_of_app; right; apply list_elem_of_here). destruct (Hl ev Hin) as [_ Hw].
    destruct ev; try done. intros c ->. exists cluster, secret, base. split_and!; [apply elem_of_app; by left|done|].
    apply retired_after; [|by eapply (Hgl pre _ post E)]. intros s r' Hin' Es. apply Hb. rewrite <- Es. by eapply Hdel.
  - destruct r as [[[[user key] n] rot]|err]; [|done]. split_and!; [by apply lasting_member| |].
    + rewrite fmap_app. intros c r' [Hin|Hin]%elem_of_app; apply elem_of_app; [left; by eapply Hdel|right].
      apply list_elem_of_singleton. by eapply Hbase.
    + apply Forall_app. split; [|apply Forall_singleton].
      * rewrite Forall_forall in Hv |- *. intros [b [u k]] Hin. apply valid_later; [by apply (Hv _ Hin)|]. intros r' Hr'.
        apply Hb. destruct (Hv _ Hin) as [Eb _]. cbn in *. rewrite <- (Hbase _ _ Hr'), Eb. by apply (list_elem_of_fmap_2 fst _ _ Hin).
      * apply valid_before; [done|]. intros r' Hr'. apply Hb. destruct Hr as [<- _]. by eapply Hdel.
Qed.

(** ** Writing the secrets *)

Lemma secret_triple cluster done secret base user key :
  (secret, base) ∈ csi_users -> (base, (user, key)) ∈ done ->
  triple (progress cluster done) (CreateSecret (W := W) ns secret (secret_data (MonStore.TrimPrefix user "client.") key))
    (fun r h => progress cluster done h /\ (r = Ok () -> written secret h)).
Proof.
  intros Hs Hin. unfold CreateSecret. eapply (triple_bind _ _ _ _ (fun _ => progress cluster done)); [| |by intros err h Hp].
  { apply triple_try. unfold api. apply triple_record. intros r h Hp. split; [done|]. by apply progress_later. }
  assert (forall verb fmt args, triple (progress cluster done) (wrapM (put_secret (W := W) verb ns secret (secret_data (MonStore.TrimPrefix user "client.") key)) fmt args)
            (fun r h => progress cluster done h /\ (r = Ok () -> written secret h))) as Hput.
  { intros verb fmt args. apply triple_wrapM, triple_record. intros r h Hp. split; [split; [done|]|split; [by apply progress_later|]].
    - pose proof Hp as (Hget & _ & Hv). rewrite Forall_forall in Hv. exists cluster, base, user, key. split_and!; [done|done|done|by apply (Hv _ Hin)].
    - intros E%wrap_err_ok. subst r. exists verb, (secret_data (MonStore.TrimPrefix user "client.") key). apply elem_of_app. right. apply list_elem_of_here. }
  intros [x|err]; [apply Hput|]. destruct (IsNotFound err); [apply Hput|]. apply triple_fail. intros h Hp. by split.
Qed.

Lemma lasting_written secret : lasting (written secret).
Proof. intros h l (verb & data & Hin). exists verb, data. by apply lasting_member. Qed.

(** The content of the secrets. *)
Definition contents (content : gmap string (string * string)) (done : list (string * (string * string))) : Prop :=
  forall secret base, (secret, base) ∈ csi_users ->
    exists user key, content !! secret = Some (MonStore.TrimPrefix user "client.", key) /\ (base, (user, key)) ∈ done.

Lemma secrets_triple cluster content done :
  contents content done ->
  triple (progress cluster done) (createOrUpdateCSISecret (W := W) ns content)
    (fun r h => progress cluster done h /\ (r = Ok () -> forall secret base, (secret, base) ∈ csi_users -> written secret h)).
Proof.
  intros Hc. unfold createOrUpdateCSISecret. set (names := {[_; _; _; _]} : gset string).
  assert (forall secret, secret ∈ names <-> exists base, (secret, base) ∈ csi_users) as Hnames.
  { intros secret. unfold names, csi_users. split.
    - rewrite !elem_of_union, !elem_of_singleton. intros [[[-> | ->]| ->]| ->]; eexists; apply list_elem_of_In; cbn; tauto.
    - intros [base Hin]. repeat (apply elem_of_cons in Hin as [[= -> ->]|Hin]; [set_solver|]). by apply elem_of_nil in Hin. }
  eapply triple_conseq; [apply (each_done_triple csi_call _ _ (progress cluster done) written)|done|].
  - apply lasting_written.
  - intros secret Hin. rewrite range_keys_ok, elem_of_elements, Hnames in Hin. destruct Hin as [base Hb].
    destruct (Hc secret base Hb) as (user & key & -> & Hd). cbn [default].
    eapply (triple_bind _ _ _ _ (fun _ => progress cluster done)); [by apply triple_wrapM, triple_lift|intros x|by intros err h Hp].
    apply triple_wrapM. eapply triple_conseq; [by apply (secret_triple cluster done secret base user key)|done|].
    intros r h [Hp Hr]. split; [done|]. intros E%wrap_err_ok. by apply Hr.
  - intros r h [Hp Hr]. split; [done|]. intros E secret base Hb. specialize (Hr E). rewrite Forall_forall in Hr.
    apply Hr. rewrite range_keys_ok, elem_of_elements, Hnames. by exists base.
Qed.

(** ** The status, and the whole *)

Definition all_written (h : list call) : Prop := forall secret base, (secret, base) ∈ csi_users -> written secret h.

Lemma lasting_all_written : lasting all_written.
Proof. intros h l Hw secret base Hb. by eapply lasting_written, Hw. Qed.

Lemma status_triple v cluster rotated n :
  triple all_written (updateCephStatusWithCephxStatus (W := W) v ns name cluster rotated n) (fun _ => all_written).
Proof.
  unfold updateCephStatusWithCephxStatus. apply triple_wrapM, retry_triple; [done|]. unfold set_cephx_once.
  eapply (triple_bind _ _ _ _ (fun _ => all_written)); [| |done].
  { apply triple_try, triple_record. intros r h Hw. split; [done|by apply lasting_all_written]. }
  intros [c|err]; [|destruct (IsNotFound err); [by apply triple_ret|by apply triple_fail]].
  apply triple_wrapM, triple_record. intros r h Hw. split; [done|by apply lasting_all_written].
Qed.

(** The keyring of the next user. *)
Lemma next_keyring {A} v cluster secret base caps done fmt args (k : string * string * Z * bool -> MC A) Q :
  (secret, base) ∈ csi_users -> typed cluster -> base ∉ done.*1 -> (forall err h, Q (Err err) h) ->
  (forall user key n rotated, triple (progress cluster (done ++ [(base, (user, key))])) (k (user, key, n, rotated)) Q) ->
  triple (progress cluster done) (wrapM (createCSIKeyring (W := W) v ns cluster base caps) fmt args ≫= k) Q.
Proof.
  intros Hs Ht Hb He Hk.
  apply (triple_bind _ _ _ _ (fun r h => match r with Ok (user, key, _, _) => progress cluster (done ++ [(base, (user, key))]) h | Err _ => True end));
    [|intros [[[user key] n] rotated]; apply Hk|].
  - apply triple_wrapM. eapply triple_conseq; [by apply (keyring_triple v cluster secret base caps done)|done|].
    intros [[[[user key] n] rotated]|err] h Hr; [exact Hr|]. cbn. exact I.
  - intros err h _. apply He.
Qed.

Ltac user := apply list_elem_of_In; cbn; tauto.

Lemma create_secrets_triple v cluster :
  typed cluster ->
  triple (progress cluster []) (create_csi_secrets (W := W) v ns name cluster) (fun r h => r = Ok () -> all_written h).
Proof.
  intros Ht. unfold create_csi_secrets.
  eapply (next_keyring v cluster "rook-csi-rbd-provisioner" csiKeyringRBDProvisionerUsername); [user|done|by apply not_elem_of_nil|done|intros u1 k1 n1 r1].
  eapply (next_keyring v cluster "rook-csi-rbd-node" csiKeyringRBDNodeUsername); [user|done|cbn; set_solver|done|intros u2 k2 n2 r2].
  eapply (next_keyring v cluster "rook-csi-cephfs-provisioner" csiKeyringCephFSProvisionerUsername); [user|done|cbn; set_solver|done|intros u3 k3 n3 r3].
  eapply (next_keyring v cluster "rook-csi-cephfs-node" csiKeyringCephFSNodeUsername); [user|done|cbn; set_solver|done|intros u4 k4 n4 r4].
  cbn [app]. set (done := [_; _; _; _]). eapply (triple_bind _ _ _ _ (fun r h => r = Ok () -> all_written h)); [|intros []|done].
  - apply triple_wrapM. eapply triple_conseq; [apply (secrets_triple cluster _ done)|done|].
    + intros secret base Hin. unfold csi_users in Hin. unfold done.
      repeat (apply elem_of_cons in Hin as [[= -> ->]|Hin]; [do 2 eexists; split; [by simplify_map_eq|user]|]). by apply elem_of_nil in Hin.
    + intros r h [_ Hr] E%wrap_err_ok. exact (Hr E).
  - eapply triple_conseq; [apply status_triple|intros h Hh; by apply Hh|done].
Qed.

(** The cluster that is read has numbers of the width of its fields. *)
Lemma get_cluster_triple :
  triple (fun h => h = []) (get_csi_cephx (W := W) ns name)
    (fun r h => h = [GetCsiCephx ns name r] /\ forall cluster, r = Ok cluster -> typed cluster).
Proof.
  intros h Hg -> [m e]. unfold get_csi_cephx, record, on_env. cbn.
  destruct (env_get_csi_cephx ns name e) as [e' r] eqn:E. cbn. split_and!; [|by eexists|done|].
  - apply (guarded_snoc _ [] _ Hg). done.
  - intros cluster ->. eapply (csi_cephx_typed ns name e). by rewrite E.
Qed.

(** C32: reconciling the users of CSI deletes a client of Ceph only if it is one of a CSI user of this cluster, Ceph
    has told the key of the current client of this user, and as many clients of the user as are to be kept, and
    one more, stay, of which none is older and none was deleted before; if the recorded status is not that of a
    new cluster and the clients of the user are numbered as the operator does it, the current one stays.  It
    writes a secret only in the namespace of the cluster, with a client of the user of this secret and the key
    that Ceph told of this client, which under the same proviso was not deleted.  It records the status only
    after all four secrets were written; and when it reports success all of them were, unless the creation of
    users is switched off or the cluster was not found. *)
Theorem csi_secrets_are_valid v skip e :
  let run := CreateCSISecrets (W := W) v skip ns name (World e []) in
  guarded csi_call (log run.1) /\
  (run.2 = Ok () -> skip = true \/ (exists err, log run.1 = [GetCsiCephx ns name (Err err)] /\ IsNotFound err = true) \/ all_written (log run.1)).
Proof.
  cbv zeta. apply (triple_run csi_call (CreateCSISecrets (W := W) v skip ns name) (fun h => h = [])
    (fun r h => r = Ok () -> skip = true \/ (exists err, h = [GetCsiCephx ns name (Err err)] /\ IsNotFound err = true) \/ all_written h)); [|done].
  unfold CreateCSISecrets. destruct skip.
  - eapply triple_conseq; [apply (triple_free _ _ (fun _ => True)); [|done]|done|by left].
    unfold deleteOwnedCSISecretsByCephCluster, DeleteSecretIfOwnedBy, api.
    repeat first [progress intros|apply harmless_forM|apply harmless_bind|apply harmless_try|apply harmless_wrapM|apply harmless_ret|apply harmless_fail
                 |apply harmless_record|case_match]; done.
  - eapply triple_bind; [apply tried_triple, get_cluster_triple|intros [cluster|err]|done].
    + intros h Hg [-> Ht]. apply (triple_conseq _ _ _ _ _ _ (create_secrets_triple v cluster (Ht cluster eq_refl))
        (fun h Hh => Hh) (fun r h Hr E => or_intror (or_intror (Hr E)))); [done|].
      split_and!; [apply list_elem_of_here| |constructor]. by intros c r Hin%list_elem_of_singleton.
    + destruct (IsNotFound err) eqn:En; [apply triple_ret|by apply triple_fail]. intros h [-> _] _. right; left. by exists err.
Qed.

End Secrets.

(** ** A laboratory *)

#[global] Instance older_dec : RelDecision older.
Proof. intros x y. unfold older. apply _. Defined.

#[global] Instance older_total : Total older.
Proof. intros x y. unfold older. lia. Qed.

#[global] Instance older_trans : Transitive older.
Proof. intros x y z. unfold older. lia. Qed.

(** A cluster that is read as given; Ceph lists the names of its answer. *)
Definition csi_lab (cluster : CsiCephx) (Ht : typed cluster) : CsiEnv FsLab := {|
  csi_fs := fs_lab;
  env_get_csi_cephx _ _ := says (fun _ => Ok cluster);
  csi_cephx_typed _ _ _ _ E := match E in _ = r return match r with Ok c => typed c | Err _ => True end with eq_refl => Ht end;
  env_set_csi_cephx _ _ _ := says (fun _ => Ok ());
  env_put_secret _ _ _ _ := says (fun _ => Ok ());
  env_secret_owner _ _ := says (fun _ => Ok None);
  api_group v := head (split_byte "/" v);
  json_auth_list s := Some (toy_names s);
  sort_clients := merge_sort older;
  sort_clients_perm := merge_sort_Permutation older;
  sort_clients_sorted l := StronglySorted_merge_sort older l;
  range_keys s := elements s;
  range_keys_ok s := reflexivity (elements s);
|}.

Definition restored : CsiCephx :=
  {| csi_Config := {| KeyRotationPolicy := ""; cfg_KeyGeneration := 0; cfg_KeyType := "" |}; KeepPriorKeyCountMax := 0;
     csi_Status := {| KeyGeneration := 0; KeyCephVersion := "Uninitialized"; KeyType := "" |}; PriorKeyCount := 0 |}.

Lemma restored_typed : typed restored.
Proof. unfold typed, is_uint32, max_uint32. cbn. lia. Qed.

(** Ceph with some clients, which it lists; [broken] is one that it cannot create. *)
Definition csi_ceph (clients broken : string) (args : list string) : result string :=
  match args with
  | ["auth"; "ls"] => Ok clients
  | ["auth"; "get-key"; c] => if bool_decide (c ∈ toy_names clients) then Ok "key" else Err (External "ENOENT")
  | "auth" :: "get-or-create-key" :: c :: _ => if String.eqb c broken then Err (External "timeout") else Ok "key"
  | _ => Ok ""
  end.

Definition csi_run (clients broken : string) :=
  CreateCSISecrets (H := csi_lab restored restored_typed) (mkv 19 2 1 0 "") false "rook-ceph" "my-cluster"
    (begin (fs_lab_with (csi_ceph clients broken) (myfs false (fs_spec false false)) [] [])).

(** The deletions and the secrets of a run, with the client of each. *)
Definition csi_changes (l : list call) : list (string * string) :=
  omap (fun ev => match ev with
                  | Ceph ["auth"; "del"; c] (Ok _) => Some ("del", c)
                  | WriteSecret _ _ secret data _ => Some (secret, default "" (data !! "userID"))
                  | _ => None
                  end) l.

(** A client without a number makes room for the first generation, and the secrets are written. *)
Lemma csi_secrets_are_valid_witness :
  let run := csi_run "client.csi-rbd-node" "" in
  csi_changes (log run.1) !! 0%nat = Some ("del", "client.csi-rbd-node") /\ all_written "rook-ceph" (log run.1) /\
  exists cluster secret base, GetCsiCephx "rook-ceph" "my-cluster" (Ok cluster) ∈ take 7 (log run.1) /\ (secret, base) ∈ csi_users /\
    retired (H := csi_lab restored restored_typed) cluster base (take 7 (log run.1)) "client.csi-rbd-node".
Proof.
  cbv zeta. split; [vm_compute; reflexivity|].
  destruct (csi_secrets_are_valid (H := csi_lab restored restored_typed) "rook-ceph" "my-cluster" (mkv 19 2 1 0 "") false
              (∅, fs_lab_with (csi_ceph "client.csi-rbd-node" "") (myfs false (fs_spec false false)) [] [])) as [Hg Hs].
  split.
  - destruct Hs as [E|[(err & E & _)|Hw]]; [vm_compute; reflexivity|discriminate E|vm_compute in E; discriminate E|exact Hw].
  - refine (Hg (take 7 (log (csi_run "client.csi-rbd-node" "").1)) (Ceph (del_args "client.csi-rbd-node") (Ok "")) (drop 8 (log (csi_run "client.csi-rbd-node" "").1)) _ _ eq_refl).
    vm_compute. reflexivity.
Defined.

(** ** What the theorem does not promise *)

(** A client is deleted as soon as there is a newer one, and its secret written when all users have one: when
    one of them fails in between, the secret of the first still names the client that is gone. *)
Example deleted_before_written :
  is_ok (csi_run "client.csi-rbd-provisioner" "client.csi-cephfs-node.1").2 = false /\
  csi_changes (log (csi_run "client.csi-rbd-provisioner" "client.csi-cephfs-node.1").1) = [("del", "client.csi-rbd-provisioner")].
Proof. split; vm_compute; reflexivity. Qed.

(** A cluster whose status is that of a new one starts with the first generation, also if Ceph has a newer
    client: then the client of the first generation, which the secret names, is deleted as an old one. *)
Example newest_deleted :
  is_ok (csi_run "client.csi-rbd-node.3" "").2 = true /\
  ("del", "client.csi-rbd-node.1") ∈ csi_changes (log (csi_run "client.csi-rbd-node.3" "").1) /\
  ("rook-csi-rbd-node", "csi-rbd-node.1") ∈ csi_changes (log (csi_run "client.csi-rbd-node.3" "").1).
Proof.
  split; [vm_compute; reflexivity|]. split; apply (bool_decide_unpack _); vm_compute; exact I.
Qed.

End CsiSafety.
