(* ===== verification/NamespaceSafety.v ===== *)
(** * NamespaceSafety: rados namespaces are removed when nothing needs them

    What must have happened before a reconcile of a rados namespace (file RadosNamespace) removes the
    namespace, the images in it, its mirroring or its finalizer. *)

From stdpp Require Import base gmap strings list fin_maps.
From Stdlib Require Import ZArith Ascii.
From S2P Require Import Prelude Names CephVersion Upgrade Cephx OsdBase Pools BlockPool PoolLab PoolSafety FsClient Mds RadosNamespace FsCalm FsLab FsSafety.
Import Log Version Cephx Pools BlockPool PoolLab PoolSafety FsClient Mds RadosNamespace FsCalm FsLab FsSafety.
Open Scope Z_scope.

Module NamespaceSafety.

#[export] Hint Unfold createOrUpdateRadosNamespace CreateRadosNamespace cleanup_namespace reset_namespace_mirroring get_namespace
  find_namespaces set_namespace_status_once enable_mirroring EnableRBDRadosNamespaceMirroring schedule_args : pools.

Section Namespaces.
Context {W : Type} `{NamespaceEnv W} (ns name : string).

Abbreviation MC := (MW (gmap string bool * W)).

Definition rm_namespace_args (pool n : string) : list string := ["namespace"; "remove"; "--pool"; pool; "--namespace"; n].

Definition stats_args (pool n : string) : list string := ["pool"; "stats"; "--pool"; pool; "--namespace"; n].

Definition disable_mirror_args (x : string) : list string := ["mirror"; "pool"; "disable"; x].

Definition namespace_read (n : CephBlockPoolRadosNamespace) (h : list call) : Prop := GetNamespace ns name (Ok n) ∈ h.

Definition same_found (n : CephBlockPoolRadosNamespace) (same : list CephBlockPoolRadosNamespace) (h : list call) : Prop :=
  FindNamespaces ns (namespace_index n) (Ok same) ∈ h.

Definition statistics_told (n : CephBlockPoolRadosNamespace) (r : result string) (h : list call) : Prop :=
  Rbd (stats_args (rns_BlockPoolName n) (GetRadosNamespaceName n)) r ∈ h.

(** rbd counted no images and no snapshots in the namespace, or did not find it. *)
Definition namespace_empty (n : CephBlockPoolRadosNamespace) (h : list call) : Prop :=
  exists r, statistics_told n r h /\
    match r with
    | Ok out => exists stats, json_statistics (W := W) out = Some stats /\ no_images stats = true
    | Err err => exit_status (W := W) err = Some ENOENT
    end.

Definition namespace_removable (pool nm : string) (h : list call) : Prop :=
  exists n same c, (namespace_read n h /\ first_cluster ns c h /\ same_found n same h) /\ rns_Deleted n = true /\
    (length same <= 1)%nat /\ cl_External c = false /\ nm <> "" /\
    pool = rns_BlockPoolName n /\ nm = GetRadosNamespaceName n /\ namespace_empty n h.

(** The images are removed on request, if there are any. *)
Definition images_doomed (h : list call) : Prop :=
  exists n out stats, namespace_read n h /\ rns_Deleted n = true /\ ForceDeleteRequested (rns_Annotations n) = true /\
    statistics_told n (Ok out) h /\ json_statistics (W := W) out = Some stats /\ no_images stats = false.

(** The resource does not ask for mirroring, and no image is mirrored by itself. *)
Definition unmirrored (x : string) (h : list call) : Prop :=
  exists n info, namespace_read n h /\ rns_Deleted n = false /\ rns_Mirroring n = None /\ x = poolAndRadosNamespaceName n /\
    (exists out, Rbd ["mirror"; "pool"; "info"; x] (Ok out) ∈ h /\ json_mirror_info (W := W) out = Some info) /\
    (info_Mode info = "image" -> exists out, Rbd ["mirror"; "pool"; "status"; "--verbose"; x] (Ok out) ∈ h /\ json_mirrored_images (W := W) out = Some []).

(** The namespace is the implicit one, was removed or not found, or stays because it is not the operator's
    or another resource stands for it. *)
Definition namespace_settled (n : CephBlockPoolRadosNamespace) (h : list call) : Prop :=
  GetRadosNamespaceName n = "" \/
  (exists r, Rbd (rm_namespace_args (rns_BlockPoolName n) (GetRadosNamespaceName n)) r ∈ h /\
     match r with Ok _ => True | Err err => exit_status (W := W) err = Some ENOENT end) \/
  (exists c, first_cluster ns c h /\ cl_External c = true) \/
  (exists same, same_found n same h /\ (1 < length same)%nat).

Definition namespace_finalizable (h : list call) : Prop :=
  exists n, namespace_read n h /\ rns_Deleted n = true /\ (namespace_settled n h \/ exists r, ListClusters ns r ∈ h /\ no_cluster r).

Definition namespace_needs (h : list call) (ev : call) : Prop :=
  match ev with
  | Rbd args _ => (forall pool nm, args = rm_namespace_args pool nm -> namespace_removable pool nm h) /\
                  (forall x, args = disable_mirror_args x -> unmirrored x h)
  | Ceph args _ => forall n, args <> delete_pool_args n
  | Api verb _ _ _ => (verb = "remove-finalizer" -> namespace_finalizable h) /\ (verb = "cleanup" -> images_doomed h)
  | _ => True
  end.

Abbreviation quiet := (fun ev => forall h, namespace_needs h ev).

(** Goes through the calls of a program that needs nothing. *)
Ltac quiets :=
  repeat first
    [ progress intros
    | solve [auto 2 with calm nocore]
    | apply harmless_bind | apply harmless_try | apply harmless_wrapM | apply harmless_forM
    | apply harmless_ret | apply harmless_fail | apply harmless_lift | apply harmless_silent
    | apply harmless_record
    | progress autounfold with pools fs
    | case_match ];
  try (unfold namespace_needs, rm_namespace_args, disable_mirror_args in *; cbn in *; repeat split; intros; first [done | discriminate | congruence]).

Lemma quiet_triple {A} (m : MC A) P : harmless quiet m -> lasting P -> triple namespace_needs P m (fun _ => P).
Proof. intros Hm HP. by apply triple_free. Qed.

Lemma quiet_return {A} res (m : MC A) k P :
  harmless quiet m -> lasting P -> (forall a, triple namespace_needs P (k a) (fun _ _ => True)) ->
  triple namespace_needs P (or_return (W := W) res m k) (fun _ _ => True).
Proof.
  intros Hm HP Hk. apply triple_or_return with (R := fun _ => P); [|done].
  eapply triple_conseq; [by apply quiet_triple|done|]. by intros r h Hp a _.
Qed.

Lemma contexts_quiet : harmless quiet (get_contexts (W := W)).
Proof. intros h e. exists []. by rewrite app_nil_r. Qed.
#[local] Hint Resolve contexts_quiet : calm.

Lemma set_contexts_quiet c : harmless quiet (set_contexts (W := W) c).
Proof. intros h e. exists []. by rewrite app_nil_r. Qed.
#[local] Hint Resolve set_contexts_quiet : calm.

Lemma cancel_quiet key : harmless quiet (cancelMirrorMonitoring (W := W) key).
Proof. unfold cancelMirrorMonitoring. quiets. Qed.
#[local] Hint Resolve cancel_quiet : calm.

Lemma retry_quiet {A} k (f : MC A) : harmless quiet f -> harmless quiet (RetryOnConflict (W := W) k f).
Proof. intros Hf. induction k as [|k IH]; cbn [RetryOnConflict]; [done|]. quiets; done. Qed.

Lemma namespace_status_quiet m x s t : harmless quiet (update_namespace_status (W := W) m x s t).
Proof. unfold update_namespace_status. apply harmless_bind; [apply harmless_try, retry_quiet; quiets|intros; apply harmless_ret]. Qed.
#[local] Hint Resolve namespace_status_quiet : calm.

Lemma enable_quiet v n p m : harmless quiet (enable_mirroring (W := W) v n p m).
Proof. quiets. Qed.
#[local] Hint Resolve enable_quiet : calm.

Lemma version_quiet : harmless quiet (Upgrade.LeastUptodateDaemonVersion (W := world (gmap string bool * W) call) "osd").
Proof. quiets. Qed.

(** *** Deletion *)

Lemma lasting_namespace_read n : lasting (namespace_read n).
Proof. unfold namespace_read. lasts. Qed.

Lemma lasting_cluster c : lasting (first_cluster ns c).
Proof. unfold first_cluster. lasts. Qed.

Lemma lasting_same n same : lasting (same_found n same).
Proof. unfold same_found. lasts. Qed.

Lemma lasting_namespace_settled n : lasting (namespace_settled n).
Proof. unfold namespace_settled, first_cluster, same_found. lasts. Qed.

(** What rbd counted decides whether the namespace is empty. *)
Definition counted (n : CephBlockPoolRadosNamespace) (containsImages : bool) (err : option gerror) (h : list call) : Prop :=
  (containsImages = true -> exists out stats, statistics_told n (Ok out) h /\ json_statistics (W := W) out = Some stats /\ no_images stats = false) /\
  (err = None -> namespace_empty n h).

Lemma statistics_triple n P :
  lasting P ->
  triple namespace_needs P (getRadosNamespaceStatistics (W := gmap string bool * W) (rns_BlockPoolName n) (GetRadosNamespaceName n))
    (fun r h => P h /\ forall stats, r = Ok stats ->
       (exists err, statistics_told n (Err err) h /\ exit_status (W := W) err = Some ENOENT /\ no_images stats = true) \/
       exists out, statistics_told n (Ok out) h /\ json_statistics (W := W) out = Some stats).
Proof.
  intros HP. unfold getRadosNamespaceStatistics, rbd.
  eapply triple_bind; [apply tried_triple, (recorded_triple _ (Rbd (stats_args (rns_BlockPoolName n) (GetRadosNamespaceName n))) _ P HP); [by quiets|..]|intros [out|err]|done].
  - eapply triple_conseq; [apply decode_triple|intros h Hh; exact Hh|]. intros r h [[Hp Hin] Hr]. split; [done|]. intros stats ->. right. by exists out.
  - case_bool_decide; [apply triple_ret|by apply triple_fail; intros h [Hp _]]. intros h [Hp Hin]. split; [done|]. intros stats [= <-]. left. by exists err.
Qed.

Lemma count_triple n P :
  lasting P ->
  triple namespace_needs P (checkForImagesInRadosNamespace (W := gmap string bool * W) (rns_BlockPoolName n) (GetRadosNamespaceName n))
    (fun r h => match r with Ok (b, err) => P h /\ counted n b err h | Err _ => False end).
Proof.
  intros HP. unfold checkForImagesInRadosNamespace.
  eapply triple_bind; [by apply tried_triple, statistics_triple|intros [stats|err]|done].
  - destruct (no_images stats) eqn:Es; apply triple_ret; intros h [Hp Hs]; (split; [done|]); (split; [|try done]); [done|..];
      destruct (Hs stats eq_refl) as [(err & Ht & He & Hn)|(out & Ht & Hj)]; [| |congruence|by exists out, stats].
    + intros _. by exists (Err err).
    + intros _. exists (Ok out). split; [done|]. by exists stats.
  - apply triple_ret. intros h [Hp _]. by split.
Qed.

Lemma delete_triple n P :
  lasting P -> (forall h, P h -> namespace_empty n h -> namespace_removable (rns_BlockPoolName n) (GetRadosNamespaceName n) h) ->
  triple namespace_needs P (DeleteRadosNamespace (W := gmap string bool * W) (rns_BlockPoolName n) (GetRadosNamespaceName n))
    (fun r h => match r with
                | Ok (b, err) => P h /\
                    (b = true -> exists out stats, statistics_told n (Ok out) h /\ json_statistics (W := W) out = Some stats /\ no_images stats = false) /\
                    (err = None -> namespace_settled n h)
                | Err _ => False
                end).
Proof.
  intros HP Hrm. unfold DeleteRadosNamespace, rbd.
  eapply triple_bind; [by apply count_triple|intros [b [err|]]|done].
  { apply triple_ret. intros h (Hp & Hc & _). by split_and!. }
  set (K := fun h => P h /\ namespace_empty n h).
  apply (triple_conseq _ _ K _ _ (fun r h => match r with
    | Ok (b, err) => P h /\ b = false /\ (err = None -> namespace_settled n h) | Err _ => False end)).
  - eapply triple_bind; [apply tried_triple, (recorded_triple _ (Rbd (rm_namespace_args (rns_BlockPoolName n) (GetRadosNamespaceName n))) _ K)|intros [out|err]|done].
    + apply lasting_and; [done|]. intros h l (r & Hin & Hr). exists r. split; [by apply lasting_member|done].
    + intros r h [Hp He]. split; [|by intros x]. intros pool nm [= <- <-]. auto.
    + apply triple_ret. intros h [[Hp _] Hin]. split_and!; [done..|]. intros _. right; left. by exists (Ok out).
    + case_bool_decide; apply triple_ret; intros h [[Hp _] Hin]; split_and!; try done. intros _. right; left. by exists (Err err).
  - intros h (Hp & _ & He). split; [done|by apply He].
  - intros [[b' err]|] h; [|done]. intros (Hp & -> & Hs). by split_and!.
Qed.

Lemma deleteRadosNamespace_triple n same c :
  rns_Deleted n = true -> (length same <= 1)%nat -> cl_External c = false ->
  triple namespace_needs (fun h => namespace_read n h /\ first_cluster ns c h /\ same_found n same h) (deleteRadosNamespace (W := W) n)
    (fun r h => match r with Ok (_, err) => namespace_read n h /\ (err = None -> namespace_settled n h) | Err _ => False end).
Proof.
  intros Hd Hl Hx. set (P := fun h => namespace_read n h /\ first_cluster ns c h /\ same_found n same h).
  assert (lasting P) as HP by (apply lasting_and; [apply lasting_namespace_read|apply lasting_and; [apply lasting_cluster|apply lasting_same]]).
  unfold deleteRadosNamespace. destruct (String.eqb_spec (GetRadosNamespaceName n) "") as [Hn|Hn].
  { apply triple_ret. intros h [Hr _]. split; [done|]. intros _. by left. }
  eapply triple_bind; [apply (delete_triple n P HP)|intros [b err]|done].
  { intros h Hp He. by exists n, same, c. }
  set (Q := fun h => P h /\ (b = true -> exists out stats, statistics_told n (Ok out) h /\ json_statistics (W := W) out = Some stats /\ no_images stats = false) /\
                     (err = None -> namespace_settled n h)).
  assert (lasting Q) as HQ.
  { unfold Q. apply lasting_and; [done|]. apply lasting_and; apply lasting_when; [unfold statistics_told; lasts|apply lasting_namespace_settled]. }
  eapply triple_bind; [apply tried_triple, (quiet_triple _ Q); [quiets|exact HQ]|intros r0|done].
  apply (triple_bind _ _ _ _ (fun r h => match r with Ok _ => Q h | Err _ => False end)); [|intros r|done].
  - destruct (b && ForceDeleteRequested (rns_Annotations n)) eqn:Eb; [|by apply triple_ret]. apply andb_prop in Eb as [-> Hf].
    apply triple_try. unfold cleanup_namespace, api. apply triple_wrapM. eapply triple_conseq; [apply (recorded_triple _ _ _ Q HQ)|done|by intros r h []].
    intros r h ((Hr & _) & Hi & _). split; [done|]. intros _. destruct (Hi eq_refl) as (out & stats & Ht & Hj & Hs). by exists n, out, stats.
  - destruct r, err; apply triple_ret; intros h ([Hr _] & _ & Hs); (split; [done|]); try done.
Qed.

Lemma namespace_finalizer_triple n : triple namespace_needs namespace_finalizable (remove_namespace_finalizer (W := W) n) (fun _ _ => True).
Proof. unfold remove_namespace_finalizer, api. apply triple_wrapM, triple_record. intros r h Hf. split; [|done]. by split; [intros _|]. Qed.

Lemma finish_triple n res P :
  (forall h, P h -> namespace_finalizable h) ->
  triple namespace_needs P (or_return (W := W) res (remove_namespace_finalizer n) (fun _ => mret (Done, None))) (fun _ _ => True).
Proof.
  intros HP. apply triple_or_return with (R := fun _ _ => True); [|intros _; by apply triple_ret].
  by eapply triple_conseq; [apply namespace_finalizer_triple|exact HP|].
Qed.

Lemma namespace_deletion_triple n c :
  rns_Deleted n = true ->
  triple namespace_needs (fun h => namespace_read n h /\ first_cluster ns c h) (reconcile_namespace_deletion (W := W) ns n c) (fun _ _ => True).
Proof.
  intros Hd. set (P := fun h => _ /\ _). assert (lasting P) as HP by (apply lasting_and; [apply lasting_namespace_read|apply lasting_cluster]).
  unfold reconcile_namespace_deletion. apply triple_or_return with (R := fun same h => P h /\ same_found n same h).
  { apply triple_wrapM. eapply triple_conseq; [by apply recorded_triple|done|]. intros [same|err] h [Hp Hin] a E; [|done]. by injection E as <-. }
  intros same. destruct (cl_External c) eqn:Ex.
  { apply finish_triple. intros h [[Hr Hc] _]. exists n. split_and!; [done..|]. left. right; right; left. by exists c. }
  destruct (length same <=? 1)%nat eqn:El; [apply Nat.leb_le in El|apply Nat.leb_gt in El].
  - eapply triple_bind; [eapply triple_conseq; [by apply (deleteRadosNamespace_triple n same c)|by intros h [[Hr Hc] Hs]|intros r h Hr; exact Hr]|intros [b [err|]]|done].
    + repeat case_match; by apply triple_ret.
    + eapply triple_bind; [apply quiet_triple; [quiets|]|intros u|done].
      * apply lasting_and; [apply lasting_namespace_read|apply lasting_when, lasting_namespace_settled].
      * apply finish_triple. intros h [Hr Hs]. exists n. auto.
  - apply finish_triple. intros h [[Hr Hc] Hs]. exists n. split_and!; [done..|]. left. right; right; right. by exists same.
Qed.

(** *** Mirroring *)

Lemma disable_triple n info P :
  lasting P ->
  (forall h, P h -> namespace_read n h /\ rns_Deleted n = false /\ rns_Mirroring n = None /\
     exists out, Rbd ["mirror"; "pool"; "info"; poolAndRadosNamespaceName n] (Ok out) ∈ h /\ json_mirror_info (W := W) out = Some info) ->
  triple namespace_needs P (disable_mirroring (W := W) n (info_Mode info)) (fun _ => P).
Proof.
  intros HP Hk. unfold disable_mirroring, GetMirroredPoolImages, DisableRBDRadosNamespaceMirroring.
  destruct (String.eqb (info_Mode info) "disabled"); [by apply triple_ret|].
  set (K := fun h : list call => info_Mode info = "image" -> exists out, Rbd ["mirror"; "pool"; "status"; "--verbose"; poolAndRadosNamespaceName n] (Ok out) ∈ h /\
                       json_mirrored_images (W := W) out = Some []).
  apply (triple_bind _ _ _ _ (fun r h => P h /\ (r = Ok () -> K h))); [|intros []|by intros err h []].
  - destruct (String.eqb_spec (info_Mode info) "image") as [Hm|Hm]; [|by apply triple_ret; intros h Hp; split; [|intros _ ?]].
    eapply triple_bind; [apply (triple_wrapped _ _ _ _ P (fun images (h : list call) => exists out,
      Rbd ["mirror"; "pool"; "status"; "--verbose"; poolAndRadosNamespaceName n] (Ok out) ∈ h /\ json_mirrored_images (W := W) out = Some images))|intros [|x l]|by intros err h []].
    + apply (decoded_rbd_triple _ _ _ _ (fun _ => []) _ _ P HP). by quiets.
    + apply triple_ret. intros h [Hp Hr]. split; [done|]. intros _ _. by apply Hr.
    + apply triple_fail. by intros h [Hp _].
  - apply triple_wrapM, (triple_bind _ _ _ _ (fun _ => P)); [apply triple_wrapM|intros out; by apply triple_ret|done].
    eapply triple_conseq; [apply (recorded_triple _ (Rbd (disable_mirror_args (poolAndRadosNamespaceName n))) _ (fun h => P h /\ K h))| |by intros r h [[Hp _] _]].
    + apply lasting_and; [done|]. apply lasting_when. lasts.
    + intros r h [Hp Hi]. split; [by intros pool nm|]. intros x [= <-]. destruct (Hk h Hp) as (Hr & Hd & Hm & Ho). by exists n, info.
    + intros h [Hp Hkk]. split; [done|by apply Hkk].
Qed.

Lemma mirroring_triple v n p :
  rns_Deleted n = false -> triple namespace_needs (namespace_read n) (reconcileMirroring (W := W) v n p) (fun _ _ => True).
Proof.
  intros Hd. unfold reconcileMirroring, GetPoolMirroringInfo.
  eapply triple_bind; [apply (triple_wrapped _ _ _ _ (namespace_read n) (fun info (h : list call) => exists out,
    Rbd ["mirror"; "pool"; "info"; poolAndRadosNamespaceName n] (Ok out) ∈ h /\ json_mirror_info (W := W) out = Some info))|intros info|done].
  { apply (decoded_rbd_triple _ _ _ _ (fun _ => []) _ _ (namespace_read n) (lasting_namespace_read n)). by quiets. }
  set (P := fun h : list call => namespace_read n h /\ exists out,
    Rbd ["mirror"; "pool"; "info"; poolAndRadosNamespaceName n] (Ok out) ∈ h /\ json_mirror_info (W := W) out = Some info).
  assert (lasting P) as HP by (apply lasting_and; [apply lasting_namespace_read|lasts]).
  eapply triple_bind; [eapply triple_conseq; [apply (quiet_triple _ P); [quiets|exact HP]|intros h [Hr Hi]; split; [done|by apply Hi]|done]|intros contexts|done].
  eapply triple_bind; [apply quiet_triple; [quiets|exact HP]|intros []|done].
  apply (triple_bind _ _ _ _ (fun _ => P)); [|intros []|done].
  - destruct (rns_Mirroring n) as [m|] eqn:Em; [apply quiet_triple; [quiets|done]|].
    apply disable_triple; [done|]. by intros h [Hr Hi].
  - eapply triple_conseq; [apply (quiet_triple _ P); [quiets|exact HP]|done|done].
Qed.

Lemma creation_triple v n c :
  rns_Deleted n = false -> triple namespace_needs (namespace_read n) (reconcile_namespace_creation (W := W) v ns name n c) (fun _ _ => True).
Proof.
  intros Hd. unfold reconcile_namespace_creation, create_namespace.
  assert (forall A (m : MC A), harmless quiet m -> triple namespace_needs (namespace_read n) m (fun _ => namespace_read n)) as Hq.
  { intros A m Hm. apply quiet_triple; [done|apply lasting_namespace_read]. }
  destruct (cl_External c).
  { eapply triple_conseq; [apply Hq; unfold or_return; quiets|done|done]. }
  apply quiet_return; [quiets|apply lasting_namespace_read|intros version].
  eapply triple_bind; [apply tried_triple, Hq; quiets|intros [p|err]|done]; [|case_match; by apply triple_ret].
  case_match; [by apply triple_ret|].
  eapply triple_bind; [apply tried_triple, Hq; quiets|intros [u|err]|done].
  - apply triple_or_return with (R := fun _ _ => True).
    + by eapply triple_conseq; [apply mirroring_triple|..].
    + intros a. eapply triple_conseq; [apply (quiet_triple _ (fun _ => True)); [quiets|by apply lasting_const]|done|done].
  - eapply triple_conseq; [apply Hq; quiets|done|done].
Qed.

Lemma reconcile_namespace_triple n :
  triple namespace_needs (namespace_read n) (reconcile_namespace (W := W) ns name n) (fun _ _ => True).
Proof.
  unfold reconcile_namespace. eapply triple_bind; [apply ready_triple; [apply lasting_namespace_read|done]|intros [[[cluster ready] clusterExists] response]|done].
  set (P := fun h => namespace_read n h /\ cluster_listed ns cluster clusterExists h).
  assert (lasting P) as HP by (apply lasting_and; [apply lasting_namespace_read|apply lasting_listed_cluster]).
  apply triple_conseq with (P' := P) (Q' := fun _ _ => True); [|intros h [Hr Hc]; split; [done|by eapply Hc]|done].
  assert (triple namespace_needs P
    (if rns_Deleted n && negb clusterExists then
       _ ← cancelMirrorMonitoring (W := W) (channel_key n (rns_Namespace n));
       or_return (W := W) ImmediateRetryResult (remove_namespace_finalizer n) (fun _ => mret (Done, None))
     else mret (response, None)) (fun _ _ => True)) as Hgone.
  { destruct (rns_Deleted n) eqn:Ed, clusterExists eqn:Ec; cbn [andb negb]; try (by apply triple_ret).
    eapply triple_bind; [apply (quiet_triple _ P); [quiets|done]|intros []|done].
    apply finish_triple. intros h [Hs (r & Hin & Hn & _)]. exists n. split_and!; [done..|]. right. exists r. auto. }
  destruct cluster as [c|], ready; [|exact Hgone..].
  apply quiet_return; [quiets|done|intros _]. apply quiet_return; [quiets; apply version_quiet|done|intros v].
  destruct (rns_Deleted n) eqn:Ed.
  - eapply triple_conseq; [by apply namespace_deletion_triple| |done]. intros h [Hr (r & Hin & _ & Hc)].
    split; [done|]. destruct (Hc c eq_refl) as [l ->]. by exists l.
  - eapply triple_conseq; [by apply creation_triple|by intros h []|done].
Qed.

Lemma reconcile_radosnamespace_triple : triple namespace_needs (fun _ => True) (reconcile_radosnamespace (W := W) ns name) (fun _ _ => True).
Proof.
  unfold reconcile_radosnamespace.
  eapply triple_bind; [apply tried_triple, (recorded_triple _ (GetNamespace ns name) _ (fun _ => True)); done|intros [n|err]|done].
  2: { case_match; by apply triple_ret. }
  eapply triple_conseq; [apply (quiet_return _ _ _ (namespace_read n)); [quiets|apply lasting_namespace_read|]|by intros h []|done].
  intros [|]; [by apply triple_ret|].
  eapply triple_bind; [apply quiet_triple; [quiets|apply lasting_namespace_read]|intros []|done].
  apply reconcile_namespace_triple.
Qed.

(** C28: a reconcile of a rados namespace removes the namespace from Ceph only if its resource was read and
    is being deleted, the cluster is not external, no second resource stands for the same namespace of the
    same pool, it is not the implicit namespace, and rbd counted no images and no snapshots in it or did
    not find it; it starts the job that removes the images only if the resource is being deleted with the
    request to force that, and there are images; it disables the mirroring only of a namespace whose
    resource asks for none and of which no image is mirrored by itself; it never deletes a pool; and it
    removes the finalizer only from a resource that is being deleted, after the namespace was removed or
    not found or is to stay, or when no cluster that stays was listed. *)
Theorem namespace_deletion_is_checked e pre post ev :
  log (reconcile_radosnamespace (W := W) ns name (World e [])).1 = pre ++ ev :: post -> namespace_needs pre ev.
Proof. intros E. destruct (triple_run _ _ _ _ e reconcile_radosnamespace_triple I) as [Hg _]. by eapply Hg. Qed.

End Namespaces.

(** ** Witnesses *)

Definition toy_namespace (deleted : bool) (mirroring : option RadosNamespaceMirroring) : CephBlockPoolRadosNamespace :=
  {| rns_Namespace := "rook-ceph"; rns_Name := "ns1"; rns_Deleted := deleted; rns_Annotations := ∅; rns_SpecName := ""; rns_BlockPoolName := "rbd";
     rns_Mirroring := mirroring; rns_ClusterID := ""; rns_Status := Some ("Ready", "", ∅) |}.

#[global] Instance lab_namespaces_env : NamespaceEnv FsLab := {
  env_get_namespace _ _ := says (fun _ => Ok (toy_namespace true None));
  env_find_namespaces _ _ := says (fun _ => Ok [toy_namespace true None]);
  env_update_namespace_status _ := says (fun _ => Ok ());
  env_add_namespace_finalizer _ := says (fun _ => Ok false);
  env_remove_namespace_finalizer _ := says (fun _ => Ok ());
  env_namespace_condition _ _ := says (fun _ => Ok ());
  env_namespace_profile _ _ := says (fun _ => Ok ());
  env_start_namespace_monitor _ := says (fun _ => Ok ());
  env_reset_namespace_mirroring _ := says (fun _ => Ok ());
}.

Definition namespace_log : list call := log (reconcile_radosnamespace "rook-ceph" "ns1" (begin doomed_lab)).1.

Lemma namespace_deletion_is_checked_witness :
  namespace_log !! 7%nat = Some (Rbd (rm_namespace_args "rbd" "ns1") (Ok "")) /\
  namespace_removable (W := FsLab) "rook-ceph" "ns1" "rbd" "ns1" (take 7 namespace_log).
Proof.
  split; [vm_compute; reflexivity|].
  apply (namespace_deletion_is_checked (W := FsLab) "rook-ceph" "ns1" (∅, doomed_lab) (take 7 namespace_log) (drop 8 namespace_log)
           (Rbd (rm_namespace_args "rbd" "ns1") (Ok ""))); [symmetry; apply take_drop_middle; vm_compute; reflexivity|reflexivity].
Defined.

(** ** What the theorems do not promise *)

Definition mirrored_pool : CephBlockPool :=
  {| bp_Namespace := "rook-ceph"; bp_Name := "rbd"; bp_Generation := 1; bp_Deleted := false; bp_Annotations := ∅; spec_Name := "";
     bp_Spec := {| FailureDomain := ""; CrushRoot := ""; DeviceClass := ""; EnableCrushUpdates := None; CompressionMode := "";
                   Replicated := replicas 3 no_ratio ""; ErasureCoded := chunks 0 0; Parameters := ∅; EnableRBDStats := false;
                   Mirroring := {| mirror_Enabled := true; mirror_Mode := "image"; SnapshotSchedules := []; Peers := None |};
                   MirrorCheckDisabled := false; Quotas := {| MaxBytes := None; MaxSize := None; MaxObjects := None |}; Application := "" |};
     bp_Status := Some no_status |}.

(** When the mirroring of a namespace is taken out of its resource while its pool is still mirrored, the
    mirroring is disabled but its monitor goes on. *)
Example monitor_goes_on :
  let key := channel_key (toy_namespace false None) "rook-ceph" in
  let w := (reconcileMirroring (mkv 19 2 1 0 "") (toy_namespace false None) mirrored_pool (World ({[key := true]}, doomed_lab) [])).1 in
  log w !! 1%nat = Some (Rbd (disable_mirror_args "rbd/ns1") (Ok "")) /\ (env w).1 !! key = Some true.
Proof. vm_compute. split; reflexivity. Qed.

End NamespaceSafety.
