(* ===== verification/MdsSafety.v ===== *)
(** * MdsSafety: metadata servers are stopped when Ceph can do without them

    The order of the calls of [Start] and [upgradeMDS] (file Mds). *)

From stdpp Require Import base gmap strings list fin_maps.
From Stdlib Require Import ZArith Ascii.
From S2P Require Import Prelude Names CephVersion Kube Upgrade Cephx OsdBase Pools BlockPool PoolSafety FsClient Mds FileController FsCalm FsLab FsSafety.
Import Log Version Cephx Pools BlockPool PoolSafety FsClient Mds FileController FsCalm FsLab FsSafety.
Open Scope Z_scope.

Module MdsSafety.

(** The annotation with what was last applied does not rename a deployment. *)
Class FsLaws (W : Type) `{FsEnv W} := {
  last_applied_name d d' : set_last_applied (W := W) d = Ok d' -> Kube.dep_name d' = Kube.dep_name d;
}.

#[global] Instance fs_lab_laws : FsLaws FsLab.
Proof. constructor. by intros d d' [= <-]. Qed.

Section Servers.
Context {W : Type} `{FsLaws W} (c : Cluster).

Abbreviation MC := (MW (gmap string bool * W)).
Abbreviation fsName := (fs_Name (c_fs c)).
Abbreviation ns := (fs_Namespace (c_fs c)).

(** Ceph has just answered [mds ok-to-stop] for the letter of the server with success, unless the checks are
    skipped or not binding. *)
Definition may_stop (letter : string) (h : list call) : Prop :=
  c_skipUpgradeChecks c = true \/ c_continueUpgrade c = true \/
  exists h' out, h = h' ++ [Ceph ["mds"; "ok-to-stop"; letter] (Ok out)].

(** The file system was just seen with [n] wanted ranks and at least as many (or as many) that are up; before
    that, [P] was known. *)
Definition seen_active (P : list call -> Prop) (n : Z) (moreIsOkay : bool) (h : list call) : Prop :=
  exists h' out d, h = h' ++ [Ceph (fs_get_args fsName) (Ok out)] /\ P h' /\ json_fs (W := W) out = Some d /\
    ranks_active n moreIsOkay (fs_MDSMap d) = true.

Definition just_active : Z -> bool -> list call -> Prop := seen_active (fun _ => True).

(** The deployment was listed for this file system, among more than [replicas]. *)
Definition listed_among (replicas : Z) (n : string) (h : list call) : Prop :=
  exists deps, ListDeployments ns ("rook_file_system=" +:+ fsName) (Ok deps) ∈ h /\ replicas < Z.of_nat (length deps) /\ n ∈ (Kube.dep_name <$> deps).

(** The server of rank 0. *)
Definition rank_holder (d : CephFilesystemDetails) : option string :=
  gid ← Up (fs_MDSMap d) !! "mds_0"; mds_Name <$> lookup_entry ("gid_" +:+ Itoa gid) (Info (fs_MDSMap d)).

(** Standby replay was switched off, and then one rank was asked for. *)
Definition reduced (h : list call) : Prop :=
  exists o1 o2, [Ceph ["fs"; "set"; fsName; "allow_standby_replay"; "false"] (Ok o1); Ceph (max_mds_args fsName 1) (Ok o2)] `sublist_of` h.

(** After that, Ceph had exactly one rank. *)
Definition quiesced (h : list call) : Prop := exists h1 h2, h = h1 ++ h2 /\ seen_active reduced 1 false h1.

(** A call was made when [P] was known. *)
Definition made_after (P : list call -> Prop) (ev : call) (h : list call) : Prop := exists h1 h2, h = h1 ++ ev :: h2 /\ P h1.

(** After that, the server of rank 0 was looked up; this is the letter of the server that is kept. *)
Definition server_left (letter : string) (h : list call) : Prop :=
  exists out d n, made_after quiesced (Ceph (fs_get_args fsName) (Ok out)) h /\ json_fs (W := W) out = Some d /\ rank_holder d = Some n /\
    letter = default "" (last (split_byte "-" n)).

(** After that, the deployments to scale down were listed. *)
Definition scaling_down (letter : string) (h : list call) : Prop :=
  exists deps, made_after (server_left letter) (ListDeployments ns ("rook_file_system=" +:+ fsName) (Ok deps)) h.

(** After that, Ceph listed no standby of the file system, as the code recognizes one: by one letter after its
    name. *)
Definition no_standby (letter : string) (h : list call) : Prop :=
  exists out dump, made_after (scaling_down letter) (Ceph ["fs"; "dump"] (Ok out)) h /\ json_fs_dump (W := W) out = Some dump /\
    filesystemHasStandby dump fsName = false.

(** A deployment other than the one of rank 0 is scaled to zero while one rank is up. *)
Definition stops (d : Kube.Deployment) (h : list call) : Prop :=
  exists letter n d0 h', h = h' ++ [GetDeployment ns n (Ok d0)] /\ d = OsdBase.with_replicas d0 (Some 0) /\ quiesced h' /\ server_left letter h' /\
    n <> resource_name fsName letter /\ listed_among 1 n h' /\ just_active 1 true h'.

(** The deployment of rank 0 is updated when no other server of the file system is left. *)
Definition restarts (d : Kube.Deployment) (h : list call) : Prop :=
  exists letter, Kube.dep_name d = resource_name fsName letter /\ no_standby letter h.

Lemma seen_just P n more h : seen_active P n more h -> just_active n more h.
Proof. intros (h' & out & d & -> & _ & Hr). by exists h', out, d. Qed.

Lemma lasting_made P ev : lasting (made_after P ev).
Proof. intros h l (h1 & h2 & -> & Hp). exists h1, (h2 ++ l). split; [by rewrite <- (assoc_L (++))|done]. Qed.

Lemma made_now (P : list call -> Prop) ev h : P h -> made_after P ev (h ++ [ev]).
Proof. intros Hp. by exists h, []. Qed.

Lemma made_member P ev h : made_after P ev h -> ev ∈ h.
Proof. intros (h1 & h2 & -> & _). apply elem_of_app. right. apply list_elem_of_here. Qed.

Lemma made_impl (P Q : list call -> Prop) ev h : (forall h, P h -> Q h) -> made_after P ev h -> made_after Q ev h.
Proof. intros Hq (h1 & h2 & -> & Hp). exists h1, h2. auto. Qed.

Section Parts.
Context (needs : list call -> call -> Prop) (Hmild : forall ev, mild ev -> forall h, needs h ev).

Lemma mild_part {A} (m : MC A) P : harmless mild m -> lasting P -> triple needs P m (fun _ => P).
Proof. intros Hm HP. apply triple_free; [|done]. by eapply harmless_impl. Qed.

(** A mild program whose result is used no further. *)
Lemma mild_seq {A B} (m : MC A) (k : A -> MC B) P Q :
  harmless mild m -> lasting P -> (forall a, triple needs P (k a) Q) -> (forall e h, P h -> Q (Err e) h) -> triple needs P (m ≫= k) Q.
Proof. intros Hm HP Hk He. eapply triple_bind; [by apply mild_part|exact Hk|exact He]. Qed.

Lemma reformat_triple {A} (m : MC A) fmt args P (R : A -> list call -> Prop) :
  triple needs P m (fun r h => match r with Ok a => R a h | Err _ => P h end) ->
  triple needs P (reformat m fmt args) (fun r h => match r with Ok a => R a h | Err _ => P h end).
Proof.
  intros Hm. unfold reformat. eapply triple_bind; [by apply tried_triple|intros [a|e]|done]; [by apply triple_ret|by apply triple_fail].
Qed.

(** *** Whether a server can be stopped *)

Lemma okToStop_triple letter deployment P :
  lasting P -> triple needs P (Upgrade.OkToStop (W := world (gmap string bool * W) call) 0 deployment "mds" letter)
    (fun r h => P h /\ (r = Ok () -> exists h' out, h = h' ++ [Ceph ["mds"; "ok-to-stop"; letter] (Ok out)])).
Proof.
  intros HP. unfold Upgrade.OkToStop. destruct (Upgrade.getRetryConfig 0 "mds") as [retries delay].
  apply mild_seq; [calls|done|intros versions|done].
  apply (triple_bind _ _ _ _ (fun r h => P h /\ r = Ok false)); [by apply triple_ret|intros skip|by intros e h []].
  destruct skip; [apply triple_ret; by intros h [_ ?]|]. set (R := fun r h => P h /\ (r = Ok () -> _)).
  apply triple_wrapM. eapply (triple_conseq _ _ P _ _ R); [apply context_retry_triple|by intros h []|].
  - by intros r h [].
  - intros e h Hp. by split.
  - unfold Upgrade.okToStopDaemon. rewrite bool_decide_eq_false_2 by (unfold Upgrade.daemonNoCheck; set_solver).
    apply (triple_bind _ _ _ _ (fun r h => P h /\ forall out, r = Ok out -> exists h' out, h = h' ++ [Ceph ["mds"; "ok-to-stop"; letter] (Ok out)])).
    + apply triple_wrapM, triple_record. intros r h Hp. split; [apply Hmild; repeat split; intros; discriminate|].
      split; [by apply HP|]. intros out E. destruct r as [o|]; [|done]. by exists h, o.
    + intros out. apply triple_ret. intros h [Hp Hr]. split; [done|]. intros _. by eapply Hr.
    + intros e h [Hp _]. by split.
  - intros [[]|e] h Hr; [exact Hr|]. destruct Hr as [Hp _]. by split.
Qed.

Lemma stop_triple letter deployment P :
  lasting P -> triple needs P (verify_callback (W := W) c deployment "mds" letter "stop")
    (fun r h => match r with Ok _ => P h /\ may_stop letter h | Err _ => P h end).
Proof.
  intros HP. unfold verify_callback.
  destruct (c_skipUpgradeChecks c) eqn:Es; [apply triple_ret; intros h Hp; split; [done|by left]|].
  eapply triple_bind; [by apply tried_triple, okToStop_triple|intros [[]|e]|done].
  - apply triple_ret. intros h [Hp Hs]. split; [done|]. right; right. by apply Hs.
  - destruct (c_continueUpgrade c) eqn:Ec; [apply triple_ret|apply triple_fail]; intros h [Hp _]; [|done]. split; [done|]. right. by left.
Qed.

Lemma update_triple d letter P :
  lasting P -> (forall d' r h, P h -> Kube.dep_name d' = Kube.dep_name d -> may_stop letter h -> needs h (UpdateDeployment d' r)) ->
  triple needs P (UpdateCephDeploymentAndWait (W := W) c d "mds" letter) (fun _ => P).
Proof.
  intros HP Hn. unfold UpdateCephDeploymentAndWait, UpdateDeploymentAndWait.
  apply mild_seq; [calls|done|intros current|done]. destruct (negb _); [by apply triple_ret|].
  eapply triple_bind; [by apply reformat_triple, (stop_triple _ _ P)|intros []|done].
  apply (triple_bind _ _ _ _ (fun r h => match r with Ok d' => P h /\ may_stop letter h /\ Kube.dep_name d' = Kube.dep_name d | Err _ => P h end)); [|intros d'|done].
  { unfold reformat. eapply triple_bind; [apply tried_triple, (triple_lift _ _ _ (fun r h => (P h /\ may_stop letter h) /\ set_last_applied (W := W) d = r)); done|intros [d'|e]|done].
    - apply triple_ret. intros h [[Hp Hm] E]. split_and!; [done..|]. by eapply last_applied_name.
    - apply triple_fail. by intros h [[Hp _] _]. }
  apply (triple_bind _ _ _ _ (fun _ => P)); [|intros []|done].
  { unfold reformat. eapply triple_bind; [apply tried_triple, triple_record; intros r h (Hp & Hm & Hd)|intros [a|e]|done].
    - split; [by apply Hn|by apply HP].
    - by apply triple_ret.
    - by apply triple_fail. }
  apply mild_seq; [auto with calm|done|intros []|done]. apply mild_part; [calls|done].
Qed.

Lemma startDeployment_triple letter P :
  lasting P -> (forall d r h, P h -> Kube.dep_name d = resource_name fsName letter -> needs h (CreateDeployment d r)) ->
  (forall d r h, P h -> Kube.dep_name d = resource_name fsName letter -> may_stop letter h -> needs h (UpdateDeployment d r)) ->
  triple needs P (startDeployment (W := W) c letter) (fun r h => P h /\ forall n, r = Ok n -> n = resource_name fsName letter).
Proof.
  intros HP Hc Hu. set (name := resource_name fsName letter). unfold startDeployment.
  apply mild_seq; [calls|done|intros version|done].
  apply mild_seq; [apply harmless_try; auto with calm|done|intros flags|done].
  apply mild_seq; [calls|done|intros []|done].
  apply (triple_bind _ _ _ _ (fun r h => P h /\ forall d, r = Ok d -> Kube.dep_name d = name)); [|intros d|by intros e h []].
  { apply triple_wrapM, triple_lift. intros h Hp. split; [done|]. unfold makeDeployment. intros d E.
    destruct (mds_template _ _ _ _) as [t|e]; [|done]. cbn in E. by injection E as <-. }
  set (d' := annotate_pods _ _ d). set (K := fun h => P h /\ Kube.dep_name d = name). assert (lasting K) as HK by (unfold K; lasts; done).
  apply triple_conseq with (P' := K) (Q' := fun r h => P h /\ forall n, r = Ok n -> n = name); [|intros h [Hp Hd]; split; [done|by apply Hd]|done].
  apply mild_seq; [calls|done|intros []|by intros e h []].
  apply (triple_bind _ _ _ _ (fun r h => P h /\ forall d, r = Ok d -> Kube.dep_name d = name)); [|intros d''|by intros e h []].
  { apply triple_wrapM, triple_lift. intros h [Hp Hd]. split; [done|]. intros x E. destruct (set_last_applied d') as [y|] eqn:Ey; [|done].
    cbn in E. injection E as <-. apply last_applied_name in Ey. by rewrite Ey. }
  set (K' := fun h => P h /\ Kube.dep_name d'' = name). assert (lasting K') as HK' by (unfold K'; lasts; done).
  apply triple_conseq with (P' := K') (Q' := fun r h => P h /\ forall n, r = Ok n -> n = name); [|intros h [Hp Hd]; split; [done|by apply Hd]|done].
  assert (triple needs K' (mret (Kube.dep_name d'') : MC string) (fun r h => P h /\ forall n, r = Ok n -> n = name)) as Hret.
  { apply triple_ret. intros h [Hp Hd]. split; [done|]. by intros n [= <-]. }
  apply (triple_bind _ _ _ _ (fun _ => K')); [apply triple_try, triple_record|intros [[]|err]|by intros e h []].
  - intros r h [Hp Hd]. split; [by apply Hc|by apply HK'].
  - exact Hret.
  - case_match; [|apply triple_fail; by intros h []].
    apply mild_seq; [calls|done|intros x|by intros e h []].
    apply (triple_bind _ _ _ _ (fun _ => K')); [apply triple_wrapM|intros _; exact Hret|by intros e h []].
    eapply triple_conseq; [apply (update_triple d'' letter K' HK')|done|done].
    intros d3 r h [Hp Hd] E Hm. apply Hu; [done|by rewrite E|done].
Qed.

(** *** Ranks *)

Lemma last_get_triple P :
  lasting P -> triple needs P (getFilesystem (W := W) fsName)
    (fun r h => P h /\ forall d, r = Ok d -> exists h' out, h = h' ++ [Ceph (fs_get_args fsName) (Ok out)] /\ P h' /\ json_fs (W := W) out = Some d).
Proof.
  intros HP. unfold getFilesystem.
  apply (triple_bind _ _ _ _ (fun r h => P h /\ forall out, r = Ok out -> exists h', h = h' ++ [Ceph (fs_get_args fsName) (Ok out)] /\ P h')).
  - apply triple_record. intros r h Hp. split; [apply Hmild; repeat split; intros; discriminate|]. split; [by apply HP|].
    intros out ->. by exists h.
  - intros out. eapply triple_conseq; [apply decode_triple|intros h Hh; exact Hh|]. intros r h [[Hp Hl] Hr]. split; [done|]. intros d ->.
    destruct (Hl out eq_refl) as (h' & -> & Hp'). by exists h', out.
  - by intros e h [Hp _].
Qed.

Lemma ranks_triple n more P :
  lasting P -> triple needs P (WaitForActiveRanks (W := W) fsName n more) (fun r h => P h /\ (r = Ok () -> seen_active P n more h)).
Proof.
  intros HP. unfold WaitForActiveRanks.
  eapply triple_bind; [apply (poll_triple _ _ _ P (seen_active P n more))|intros [|]|by intros e h [Hp _]].
  - eapply triple_bind; [by apply tried_triple, last_get_triple|intros [d|e]|done]; apply triple_ret; intros h [Hp Hr]; (split; [done|]).
    + intros [= Ha]. destruct (Hr d eq_refl) as (h' & out & -> & Hp' & Hj). by exists h', out, d.
    + done.
  - apply triple_ret. intros h [Hp Hr]. split; [done|]. intros _. by apply Hr.
  - apply triple_fail. by intros h [Hp _].
Qed.

(** *** Scaling down *)

Lemma lasting_listed_among replicas n : lasting (listed_among replicas n).
Proof. unfold listed_among. lasts. Qed.

Lemma scale_to_zero_triple n k P :
  lasting P ->
  (forall d r h, P h -> just_active k true h -> needs (h ++ [GetDeployment ns n (Ok d)]) (UpdateDeployment (OsdBase.with_replicas d (Some 0)) r)) ->
  triple needs (fun h => P h /\ just_active k true h) (scaleMdsDeployment (W := W) ns n 0) (fun _ => P).
Proof.
  intros HP Hu. unfold scaleMdsDeployment.
  apply (triple_bind _ _ _ _ (fun r h => P h /\ forall d, r = Ok (Ok d) -> forall r', needs h (UpdateDeployment (OsdBase.with_replicas d (Some 0)) r'))).
  - apply triple_try, triple_record. intros r h [Hp Ha]. split; [by apply Hmild|]. split; [by apply HP|]. intros d [= ->] r'. by apply Hu.
  - intros [d|e].
    + destruct (Kube.Replicas d) as [m|]; [|apply triple_fail; by intros h []]. case_match; [apply triple_ret; by intros h []|].
      apply (triple_bind _ _ _ _ (fun _ => P)); [apply triple_try, triple_record|intros u; by apply triple_ret|done].
      intros r h [Hp Hn]. split; [by apply Hn|by apply HP].
    + case_match; [apply triple_ret|apply triple_fail]; by intros h [].
  - by intros e h [].
Qed.

Lemma scale_down_triple k desired (del : bool) deps P e :
  lasting P ->
  (del = true -> forall n r h, n ∈ (Kube.dep_name <$> deps) -> n ∉ desired -> P h -> just_active k true h -> needs h (DeleteDeployment ns n r)) ->
  (del = false -> forall n d r h, n ∈ (Kube.dep_name <$> deps) -> n ∉ desired -> P h -> just_active k true h ->
     needs (h ++ [GetDeployment ns n (Ok d)]) (UpdateDeployment (OsdBase.with_replicas d (Some 0)) r)) ->
  triple needs P (scale_down (W := W) c k desired del deps e) (fun _ => P).
Proof.
  intros HP. revert e. induction deps as [|d deps IH]; intros e Hd Hu; cbn [scale_down]; [by apply triple_ret|].
  assert (forall e, triple needs P (scale_down (W := W) c k desired del deps e) (fun _ => P)) as Hrest.
  { intros e'. apply IH; [intros E n r h Hin; apply (Hd E)|intros E n d' r h Hin; apply (Hu E)]; cbn; set_solver. }
  clear IH. case_bool_decide as Hin; [apply Hrest|].
  eapply triple_bind; [by apply tried_triple, ranks_triple|intros [[]|err]; [|apply triple_ret; by intros h []]|done].
  apply triple_conseq with (P' := fun h => P h /\ just_active k true h) (Q' := fun _ => P); [|intros h [Hp Ha]; split; [done|by eapply seen_just, Ha]|done].
  destruct del.
  - apply (triple_bind _ _ _ _ (fun _ => P)); [|intros x|done].
    + apply triple_try, triple_wrapM, triple_record. intros r h [Hp Ha]. split; [|by apply HP]. apply Hd; [done|cbn; set_solver|done..].
    + apply mild_seq; [apply harmless_try; auto with calm|done|intros y; apply Hrest|done].
  - apply (triple_bind _ _ _ _ (fun _ => P)); [|intros x; apply Hrest|done].
    apply scale_to_zero_triple; [done|]. intros d' r h Hp Ha. apply Hu; [done|cbn; set_solver|done..].
Qed.

Lemma scaleDown_triple replicas k desired (del : bool) P :
  lasting P ->
  (del = true -> forall n r h, listed_among replicas n h -> n ∉ desired -> P h -> just_active k true h -> needs h (DeleteDeployment ns n r)) ->
  (del = false -> forall n d r h, listed_among replicas n h -> n ∉ desired -> P h -> just_active k true h ->
     needs (h ++ [GetDeployment ns n (Ok d)]) (UpdateDeployment (OsdBase.with_replicas d (Some 0)) r)) ->
  triple needs P (scaleDownDeployments (W := W) c replicas k desired del)
    (fun r h => P h /\ forall u, r = Ok u -> exists deps, made_after P (ListDeployments ns ("rook_file_system=" +:+ fsName) (Ok deps)) h).
Proof.
  intros HP Hd Hu. unfold scaleDownDeployments, getMdsDeployments.
  set (L := fun deps (h : list call) => P h /\ made_after P (ListDeployments ns ("rook_file_system=" +:+ fsName) (Ok deps)) h).
  apply (triple_bind _ _ _ _ (fun r h => match r with Ok deps => L deps h | Err _ => P h end)); [|intros deps|done].
  { do 2 apply triple_wrapM. eapply triple_conseq; [apply (reformat_triple _ _ _ P L)|done|by intros [] h Hr].
    apply triple_record. intros r h Hp. split; [by apply Hmild|].
    destruct r; [split; [by apply HP|by apply made_now]|by apply HP]. }
  assert (forall h u, L deps h -> P h /\ forall v : unit, Ok u = Ok v ->
            exists deps, made_after P (ListDeployments ns ("rook_file_system=" +:+ fsName) (Ok deps)) h) as Hend by (intros h u [Hp Hl]; eauto).
  destruct (negb _) eqn:En; [apply triple_ret; eauto|]. apply negb_false_iff, Z.ltb_lt in En.
  apply (triple_bind _ _ _ _ (fun _ => L deps)); [|intros n|by intros e h []].
  - apply scale_down_triple; [unfold L; apply lasting_and; [done|apply lasting_made]| |];
      [intros -> n r h Hn Hi [Hp Hl%made_member]|intros -> n d r h Hn Hi [Hp Hl%made_member]]; [apply Hd|apply Hu]; try done; by exists deps.
  - cbn. destruct (0 <? n); apply triple_ret; eauto.
Qed.

(** *** Upgrading *)

Lemma lasting_quiesced : lasting quiesced.
Proof. intros h l (h1 & h2 & -> & Ha). exists h1, (h2 ++ l). split; [by rewrite (assoc_L (++))|done]. Qed.

Lemma lasting_left letter : lasting (server_left letter).
Proof. intros h l (out & d & n & Hm & Hr). exists out, d, n. split; [by apply lasting_made|done]. Qed.

Lemma lasting_scaling letter : lasting (scaling_down letter).
Proof. intros h l [deps Hm]. exists deps. by apply lasting_made. Qed.

Lemma lasting_standby letter : lasting (no_standby letter).
Proof. intros h l (out & dump & Hm & Hr). exists out, dump. split; [by apply lasting_made|done]. Qed.

Lemma reduced_lasting : lasting reduced.
Proof. unfold reduced. lasts; apply lasting_happened. Qed.

Definition replay_off (h : list call) : Prop := exists o, [Ceph ["fs"; "set"; fsName; "allow_standby_replay"; "false"] (Ok o)] `sublist_of` h.

Lemma lasting_replay_off : lasting replay_off.
Proof. unfold replay_off. lasts; apply lasting_happened. Qed.

Lemma replay_off_triple P :
  lasting P -> triple needs P (AllowStandbyReplay (W := W) fsName false 0) (fun r h => P h /\ forall u, r = Ok u -> replay_off h).
Proof.
  intros HP. unfold AllowStandbyReplay.
  apply (triple_bind _ _ _ _ (fun r h => P h /\ forall o, r = Ok o -> replay_off h)); [|intros o|by intros e h []].
  - apply triple_wrapM, triple_record. intros r h Hp. split; [apply Hmild; repeat split; intros; discriminate|]. split; [by apply HP|].
    intros o E. destruct r as [x|]; [|done]. exists x. apply (happened_snoc [] h), sublist_nil_l.
  - eapply triple_conseq; [apply (mild_part _ (fun h => P h /\ replay_off h)); [calls|apply lasting_and; [done|apply lasting_replay_off]]| |].
    + intros h [Hp Hr]. split; [done|by eapply Hr].
    + intros r h [Hp Hr]. by split.
Qed.

Lemma one_rank_triple P :
  lasting P -> triple needs (fun h => P h /\ replay_off h) (SetNumMDSRanks (W := W) fsName 1) (fun r h => P h /\ forall u, r = Ok u -> reduced h).
Proof.
  intros HP. unfold SetNumMDSRanks, run. apply triple_wrapM.
  apply (triple_bind _ _ _ _ (fun r h => P h /\ forall o, r = Ok o -> reduced h)); [|intros o; apply triple_ret; intros h [Hp Hr]; split; [done|intros _ _; by eapply Hr]|by intros e h []].
  apply triple_record. intros r h [Hp (o & Ho)]. split; [apply Hmild; repeat split; intros; discriminate|]. split; [by apply HP|].
  intros x ->. exists o, x. by apply (happened_snoc [_]).
Qed.

Lemma settled_triple P :
  lasting P -> triple needs (fun h => P h /\ reduced h) (WaitForActiveRanks (W := W) fsName 1 false) (fun r h => P h /\ forall u, r = Ok u -> quiesced h).
Proof.
  intros HP. eapply triple_conseq; [apply (ranks_triple 1 false (fun h => P h /\ reduced h)); apply lasting_and; [done|apply reduced_lasting]|done|].
  intros r h [[Hp _] Hr]. split; [done|]. intros [] ->. destruct (Hr eq_refl) as (h' & out & d & -> & [_ Hred] & Hrest).
  exists (h' ++ [Ceph (fs_get_args fsName) (Ok out)]), []. split; [by rewrite app_nil_r|]. by exists h', out, d.
Qed.

Lemma rank_zero_triple P :
  lasting P -> (forall h, P h -> quiesced h) -> triple needs P (GetMdsIdByRank (W := W) fsName 0)
    (fun r h => P h /\ forall n, r = Ok n -> server_left (default "" (last (split_byte "-" n))) h).
Proof.
  intros HP Hq. unfold GetMdsIdByRank.
  eapply triple_bind; [apply (triple_wrapped _ _ _ _ _ (fun d h => exists out, made_after quiesced (Ceph (fs_get_args fsName) (Ok out)) h /\ json_fs (W := W) out = Some d));
    eapply triple_conseq; [by apply last_get_triple|done|]|intros d|by intros e h []].
  - intros r h [Hp Hr]. split; [done|]. intros d ->. destruct (Hr d eq_refl) as (h' & out & -> & Hp' & Hj). exists out. split; [|done].
    by apply made_now, Hq.
  - change ("mds_" +:+ Itoa 0) with "mds_0". destruct (Up (fs_MDSMap d) !! "mds_0") as [gid|] eqn:Eu; [|apply triple_fail; by intros h []].
    destruct (lookup_entry _ _) as [info|] eqn:El; [apply triple_ret|apply triple_fail]; intros h [Hp Hr]; (split; [done|]); [|done].
    intros n [= <-]. destruct (Hr d eq_refl) as (out & Hin & Hj). exists out, d, (mds_Name info). split_and!; [done..| |done].
    unfold rank_holder. rewrite Eu. transitivity (mds_Name <$> lookup_entry ("gid_" +:+ Itoa gid) (Info (fs_MDSMap d))); [done|by rewrite El].
Qed.

(** A command whose answer is decoded, and what was known when it was run. *)
Lemma decoded_after_triple {A} args (dec : string -> option A) msg margs fmt fargs P :
  lasting P -> (forall r h, P h -> needs h (Ceph args r)) ->
  triple needs P (buf ← wrapM (ceph (W := gmap string bool * W) args) fmt fargs; decode (dec buf) msg (margs buf))
    (fun r h => P h /\ forall a, r = Ok a -> exists out, made_after P (Ceph args (Ok out)) h /\ dec out = Some a).
Proof.
  intros HP Hn. eapply (triple_bind _ _ _ _ (fun r h => P h /\ forall out, r = Ok out -> made_after P (Ceph args (Ok out)) h)).
  - apply triple_wrapM, triple_record. intros r h Hp. split; [by apply Hn|]. split; [by apply HP|]. destruct r; cbn; intros ? [= <-]. by apply made_now.
  - intros out. eapply triple_conseq; [apply decode_triple|intros h Hh; exact Hh|]. intros r h [[Hp Hm] Hr]. split; [done|].
    intros a ->. exists out. split; [by apply Hm|done].
  - by intros e h [Hp _].
Qed.

Lemma standbys_triple letter P :
  lasting P -> (forall h, P h -> scaling_down letter h) ->
  triple needs P (WaitForNoStandbys (W := W) fsName) (fun r h => P h /\ forall u, r = Ok u -> no_standby letter h).
Proof.
  intros HP Hq. unfold WaitForNoStandbys, GetMDSDump.
  eapply triple_bind; [apply (poll_triple _ _ _ P (no_standby letter))|intros [|]|by intros e h [Hp _]].
  - eapply triple_bind; [by apply tried_triple, decoded_after_triple; [|intros; apply Hmild; repeat split; intros; discriminate]|intros [dump|e]|done];
      apply triple_ret; intros h [Hp Hr]; (split; [done|]); [|done].
    intros [= Hs%negb_true_iff]. destruct (Hr dump eq_refl) as (out & Hin & Hj). exists out, dump. split; [by eapply made_impl|done].
  - apply triple_ret. intros h [Hp Hr]. split; [done|]. intros u _. by apply Hr.
  - apply triple_fail. by intros h [Hp _].
Qed.

(** A step whose result is what is known after it. *)
Lemma known_seq {A B} (m : MC A) fmt args (k : A -> MC B) P (R : A -> list call -> Prop) Q :
  triple needs P m (fun r h => Q h /\ forall a, r = Ok a -> R a h) ->
  (forall a, triple needs (fun h => Q h /\ R a h) (k a) (fun _ => Q)) -> triple needs P (wrapM m fmt args ≫= k) (fun _ => Q).
Proof.
  intros Hm Hk. apply triple_seq with (R := fun a h => Q h /\ R a h); [|done]. apply triple_wrapM. eapply triple_conseq; [exact Hm|done|].
  intros [a|e] h [Hq Hr]; (split; [done|]); [|done]. intros a' [= <-]. auto.
Qed.

Lemma upgrade_triple P :
  lasting P ->
  (forall d r h, P h -> restarts d h -> needs h (CreateDeployment d r)) ->
  (forall d letter r h, P h -> restarts d h -> Kube.dep_name d = resource_name fsName letter -> may_stop letter h -> needs h (UpdateDeployment d r)) ->
  (forall d r h, stops d h -> needs h (UpdateDeployment d r)) ->
  triple needs P (upgradeMDS (W := W) c) (fun _ => P).
Proof.
  intros HP Hc Hu Hs. unfold upgradeMDS.
  apply known_seq with (R := fun _ => replay_off); [by apply replay_off_triple|intros []].
  set (K := fun h => P h /\ replay_off h). assert (lasting K) as HK by (apply lasting_and; [done|apply lasting_replay_off]).
  apply mild_seq; [apply harmless_wrapM, fs_commands_mild|done|intros []|by intros e h []].
  apply known_seq with (R := fun _ => reduced); [by apply one_rank_triple|intros []].
  apply known_seq with (R := fun _ => quiesced); [by apply settled_triple|intros []].
  set (K1 := fun h => P h /\ quiesced h). assert (lasting K1) as HK1 by (apply lasting_and; [done|apply lasting_quiesced]).
  eapply triple_conseq; [apply (known_seq _ _ _ _ K1 (fun n => server_left (default "" (last (split_byte "-" n)))) K1); [apply rank_zero_triple; [done|by intros h []]|]|done|by intros r h []].
  intros name. set (letter := default "" _).
  set (K2 := fun h => K1 h /\ server_left letter h). assert (lasting K2) as HK2 by (apply lasting_and; [done|apply lasting_left]).
  apply triple_conseq with (P' := K2) (Q' := fun _ => K2); [|done|by intros r h []].
  apply known_seq with (R := fun _ => scaling_down letter).
  { eapply triple_conseq; [apply scaleDown_triple; [exact HK2|done|]|done|].
    - intros _ n d r h Hl Hn [[_ Hq] Hleft] Ha. apply Hs. exists letter, n, d, h. split_and!; try done. set_solver.
    - intros r h [Hk Hr]. split; [done|]. intros u E. destruct (Hr u E) as [deps Hm]. exists deps. eapply made_impl; [|exact Hm]. by intros ? []. }
  intros []. set (KS := fun h => K2 h /\ scaling_down letter h). assert (lasting KS) as HKS by (apply lasting_and; [done|apply lasting_scaling]).
  apply triple_conseq with (P' := KS) (Q' := fun _ => KS); [|done|by intros r h []].
  apply (known_seq _ _ _ _ _ (fun _ => no_standby letter)); [apply standbys_triple; [done|by intros h []]|intros []].
  set (K3 := fun h => KS h /\ no_standby letter h). assert (lasting K3) as HK3 by (apply lasting_and; [done|apply lasting_standby]).
  apply (triple_bind _ _ _ _ (fun _ => K3)); [|intros x; apply triple_ret; by intros h []|by intros e h []].
  apply triple_wrapM. eapply triple_conseq; [apply (startDeployment_triple letter K3 HK3)|done|by intros r h []].
  - intros d r h [[[[Hp _] _] _] Hst] E. apply Hc; [done|]. by exists letter.
  - intros d r h [[[[Hp _] _] _] Hst] E Hm. eapply Hu; [done|by exists letter|done|done].
Qed.

(** *** Starting all servers *)

Lemma start_daemons_triple skip letters desired P :
  lasting P -> (forall letter d r h, P h -> Kube.dep_name d = resource_name fsName letter -> needs h (CreateDeployment d r)) ->
  (forall letter d r h, P h -> Kube.dep_name d = resource_name fsName letter -> may_stop letter h -> needs h (UpdateDeployment d r)) ->
  triple needs P (start_daemons (W := W) c skip letters desired)
    (fun r h => P h /\ forall s, r = Ok (Some s) -> desired ⊆ s /\ forall letter, letter ∈ letters -> resource_name fsName letter ∈ s).
Proof.
  intros HP Hc Hu. revert desired. induction letters as [|letter letters IH]; intros desired; cbn [start_daemons].
  { apply triple_ret. intros h Hp. split; [done|]. intros s [= <-]. split; [done|]. by intros letter ?%elem_of_nil. }
  case_bool_decide; [apply triple_ret; by intros h Hp|].
  apply (triple_bind _ _ _ _ (fun r h => P h /\ forall n, r = Ok n -> n = resource_name fsName letter)); [|intros n|by intros e h []].
  - apply triple_wrapM. eapply triple_conseq; [by apply startDeployment_triple; eauto|done|].
    intros [n|e] h [Hp Hr]; (split; [done|]); [exact Hr|done].
  - intros h Hg [Hp ->%(fun f => f n eq_refl)]. eapply logs_mono; [|by apply IH]. intros r h' (Hg' & Hh & Hp' & Hr). split_and!; [done..|].
    intros s E. destruct (Hr s E) as [Hsub Hall]. apply union_subseteq in Hsub as [Hx Hsub]. split; [done|].
    intros l [->|Hl]%elem_of_cons; [by apply Hx, elem_of_singleton|by apply Hall].
Qed.

End Parts.

(** ** The theorems *)

(** What an upgrade needs before it changes a deployment. *)
Definition upgrade_needs (h : list call) (ev : call) : Prop :=
  match ev with
  | DeleteDeployment _ _ _ => False
  | CreateDeployment d _ => restarts d h
  | UpdateDeployment d _ => stops d h \/ (restarts d h /\ exists letter, Kube.dep_name d = resource_name fsName letter /\ may_stop letter h)
  | _ => True
  end.

(** C23: during an upgrade of the servers of a file system no deployment is deleted, and none is changed
    before standby replay was switched off, one rank was asked for and Ceph then had exactly one.  Then the
    server of rank 0 is looked up; then the deployments of the file system are listed, and one is scaled to
    zero only if it is another one and while one rank is up; then Ceph is asked until it lists no standby that has the name of the
    file system and one letter; and only then is the deployment of that server updated, after
    [mds ok-to-stop] of its letter succeeded or if the checks are skipped or not binding. *)
Theorem upgrade_is_ordered e pre post ev :
  log (upgradeMDS (W := W) c (World e [])).1 = pre ++ ev :: post -> upgrade_needs pre ev.
Proof.
  intros E. assert (triple upgrade_needs (fun _ => True) (upgradeMDS (W := W) c) (fun _ _ => True)) as Ht.
  { apply (upgrade_triple upgrade_needs); [|done|done| |].
    - intros x Hx h. by destruct x, Hx.
    - intros d letter r h _ Hr Hd Hm. right. split; [done|by exists letter].
    - intros d r h Hs. by left. }
  destruct (triple_run _ _ _ _ e Ht I) as [Hg _]. by eapply Hg.
Qed.

Abbreviation spec := (MetadataServer (fs_Spec (c_fs c))).

(** What [Start] needs before it stops a server. *)
Definition server_needs (h : list call) (ev : call) : Prop :=
  match ev with
  | DeleteDeployment ns' n _ =>
      ns' = ns /\ listed_among (mds_replicas spec) n h /\ just_active (ActiveCount spec) true h /\
      forall letter, letter ∈ daemon_letters (mds_replicas spec) -> n <> resource_name fsName letter
  | UpdateDeployment d _ => stops d h \/ exists letter, Kube.dep_name d = resource_name fsName letter /\ may_stop letter h
  | _ => True
  end.

Lemma mild_server ev : mild ev -> forall h, server_needs h ev.
Proof. intros [_ Hm] h. by destruct ev. Qed.

Lemma start_servers_triple : triple server_needs (fun _ => True) (start_servers (W := W) c) (fun _ _ => True).
Proof.
  unfold start_servers. apply (mild_seq _ mild_server); [calls|done|intros skip|done].
  eapply triple_bind; [apply (start_daemons_triple _ mild_server _ _ _ (fun _ => True)); try done|intros [desired|]|done].
  - intros letter d r h _ Hd Hm. right. by exists letter.
  - apply triple_wrapM. eapply triple_conseq; [apply (scaleDown_triple _ mild_server _ _ _ _ (fun _ => forall letter,
      letter ∈ daemon_letters (mds_replicas spec) -> resource_name fsName letter ∈ desired)); [apply lasting_const| |discriminate]| |done].
    + intros _ n r h Hl Hn Hin Ha. split_and!; [done..|]. intros letter Hlet ->. by apply Hn, Hin.
    + intros h [_ Hr]. by destruct (Hr desired eq_refl).
  - by apply triple_ret.
Qed.

Lemma Start_triple : triple server_needs (fun _ => True) (Start (W := W) c) (fun _ _ => True).
Proof.
  unfold Start. apply (mild_seq _ mild_server); [calls|done|intros []|done].
  apply (mild_seq _ mild_server); [calls|done|intros isUpgrade|done].
  apply (triple_bind _ _ _ _ (fun _ _ => True)); [|intros []|done].
  - destruct isUpgrade; [apply triple_wrapM, (upgrade_triple _ mild_server); try done|by apply triple_ret].
    + intros d letter r h _ _ Hd Hm. right. by exists letter.
    + intros d r h Hs. by left.
  - unfold deferred. apply (triple_bind _ _ _ _ (fun _ _ => True)); [apply triple_try, start_servers_triple|intros r|done].
    apply (mild_seq _ mild_server); [|done|intros x; by apply triple_lift|done]. apply harmless_try. case_match; [auto with calm|apply harmless_ret].
Qed.

(** C24: starting the servers of a file system deletes a deployment only if it was listed for the file
    system among more deployments than are wanted, is none of the wanted ones, and Ceph has just shown
    all wanted ranks active; and it updates a deployment only right after [mds ok-to-stop] of the letter of
    the deployment succeeded, or if the checks are skipped or not binding, or to scale down, in an upgrade, a
    server that does not have rank 0. *)
Theorem servers_are_kept e pre post ev :
  log (Start (W := W) c (World e [])).1 = pre ++ ev :: post -> server_needs pre ev.
Proof. intros E. destruct (triple_run _ _ _ _ e Start_triple I) as [Hg _]. by eapply Hg. Qed.

End Servers.

(** ** Witnesses *)

(** Version 19.2.1 is wanted where 19.2.0 runs. *)
Definition upgraded (f : CephFilesystem) : Cluster :=
  {| c_fs := f; c_version := mkv 19 2 1 0 ""; c_skipUpgradeChecks := false; c_continueUpgrade := false; shouldRotateCephxKeys := false |}.

Definition three_servers : FsLab := fs_lab_with fs_ceph (myfs false (fs_spec false false)) [] ["a"; "b"; "c"].

Definition upgrade_log : list call := log (upgradeMDS (upgraded (myfs false (fs_spec false false))) (begin three_servers)).1.

(** The deployments that are changed and deleted in a run. *)
Definition changes (l : list call) : list (string * option Z) :=
  omap (fun ev => match ev with
                  | UpdateDeployment d _ => Some (Kube.dep_name d, Kube.Replicas d)
                  | DeleteDeployment _ n _ => Some (n, None)
                  | _ => None
                  end) l.

Lemma upgrade_is_ordered_witness :
  changes upgrade_log = [("rook-ceph-mds-myfs-b", Some 0); ("rook-ceph-mds-myfs-c", Some 0); ("rook-ceph-mds-myfs-a", Some 1)] /\
  upgrade_needs (W := FsLab) (upgraded (myfs false (fs_spec false false))) (take 10 upgrade_log)
    (UpdateDeployment (OsdBase.with_replicas (mds_deployment "b") (Some 0)) (Ok ())).
Proof.
  split; [vm_compute; reflexivity|].
  apply (upgrade_is_ordered (W := FsLab) (upgraded (myfs false (fs_spec false false))) (∅, three_servers) (take 10 upgrade_log) (drop 11 upgrade_log)).
  symmetry. apply take_drop_middle. vm_compute. reflexivity.
Defined.

Definition start_log : list call := log (Start (upgraded (myfs false (fs_spec false false))) (begin three_servers)).1.

Definition deleted_at : nat := 61.

Lemma servers_are_kept_witness :
  start_log !! deleted_at = Some (DeleteDeployment "rook-ceph" "rook-ceph-mds-myfs-c" (Ok ())) /\
  just_active (W := FsLab) (upgraded (myfs false (fs_spec false false))) 1 true (take deleted_at start_log).
Proof.
  split; [vm_compute; reflexivity|].
  refine (proj1 (proj2 (proj2 (servers_are_kept (W := FsLab) (upgraded (myfs false (fs_spec false false))) (∅, three_servers) (take deleted_at start_log)
    (drop (S deleted_at) start_log) (DeleteDeployment "rook-ceph" "rook-ceph-mds-myfs-c" (Ok ())) _)))).
  symmetry. apply take_drop_middle. vm_compute. reflexivity.
Defined.

End MdsSafety.
