(* ===== verification/FsFacts.v ===== *)
(** * FsFacts: sizes and names of file systems

    The cache of a metadata server fits into its pod, the names of pools are distinct exactly when no name
    collides with a default one, and what the code of the file systems does not do. *)

From stdpp Require Import base gmap strings list fin_maps.
From Stdlib Require Import ZArith Ascii.
From S2P Require Import Prelude Names CephVersion Kube Upgrade Cephx OsdBase Pools BlockPool PoolLab FsClient Mds FileController SubVolume FsLab FsSafety MdsSafety.
Import Log Version Cephx Pools BlockPool PoolLab FsClient Mds FileController SubVolume FsLab FsSafety MdsSafety.
Open Scope Z_scope.

Module FsFacts.

(** ** The size of the cache *)

(** A value that is at most an integer of 53 bits is still so after rounding. *)
Lemma round53_below m e n :
  0 <= m -> e <= 0 -> 0 <= n < 2 ^ 53 -> m <= n * 2 ^ (- e) ->
  let x := round53 m e in
  0 <= mantissa x /\ exponent x <= 0 /\ mantissa x <= n * 2 ^ (- exponent x).
Proof.
  intros Hm He Hn Hle x. subst x. unfold round53. rewrite Z.abs_eq by done. set (k := Z.log2 m - 52).
  destruct (k <=? 0) eqn:Ek; cbn; [done|]. apply Z.leb_gt in Ek.
  pose proof (Z.pow_pos_nonneg 2 k ltac:(lia) ltac:(lia)) as Hk.
  assert (0 < m) as Hpos by (destruct (Z.eq_dec m 0) as [E|]; [subst m; unfold k in Ek; cbn in Ek; lia|lia]).
  assert (e + k <= 0) as Hek.
  { destruct (Z.le_gt_cases (e + k) 0) as [|Hgt]; [done|]. exfalso. pose proof (Z.log2_spec m Hpos) as [Hl _].
    replace (Z.log2 m) with (52 + (e + k) + - e) in Hl by (unfold k; lia). rewrite Z.pow_add_r in Hl by lia.
    pose proof (Z.pow_pos_nonneg 2 (- e) ltac:(lia) ltac:(lia)). pose proof (Z.pow_le_mono_r 2 53 (52 + (e + k)) ltac:(lia) ltac:(lia)). nia. }
  assert (2 ^ (- e) = 2 ^ (- (e + k)) * 2 ^ k) as Hsplit by (rewrite <- Z.pow_add_r by lia; f_equal; lia).
  set (b := 2 ^ (- (e + k))) in *. set (half := 2 ^ (k - 1)).
  assert (0 < half) as Hhalf by (apply Z.pow_pos_nonneg; lia).
  pose proof (Z.div_mod m (2 ^ k) ltac:(lia)) as Hdm. pose proof (Z.mod_pos_bound m (2 ^ k) Hk) as Hmod.
  set (q := m / 2 ^ k) in *. set (r := m mod 2 ^ k) in *. assert (0 <= q) by (apply Z.div_pos; lia).
  assert (q <= n * b) by nia. assert (half <= r -> q + 1 <= n * b) by nia.
  split_and!; [|done|]; repeat case_match; lia.
Qed.

Lemma float_compare_one f : above_one f = false -> negative f = false -> 0 <= mantissa f /\ mantissa f * 2 ^ Z.max (exponent f) 0 <= 2 ^ Z.max (- exponent f) 0.
Proof.
  unfold above_one, negative, float_compare. destruct (0 <=? exponent f) eqn:Ee; [apply Z.leb_le in Ee|apply Z.leb_gt in Ee].
  - pose proof (Z.pow_pos_nonneg 2 (exponent f) ltac:(lia) Ee). rewrite Z.max_l, Z.max_r by lia. change (2 ^ 0) with 1.
    set (p := 2 ^ exponent f) in *. intros Ha Hn. assert (0 <= mantissa f * p <= 1) as Hb.
    { destruct (Z.compare_spec (mantissa f * p) 1), (Z.compare_spec (mantissa f * p) 0); try done; lia. }
    split; [nia|lia].
  - rewrite Z.max_r, Z.max_l by lia. change (2 ^ 0) with 1. rewrite Z.mul_1_l, Z.mul_0_l.
    destruct (Z.compare_spec (mantissa f) (2 ^ - exponent f)), (Z.compare_spec (mantissa f) 0); intros; try done; lia.
Qed.

Lemma cache_memory_bounds mem f :
  0 <= mem < 2 ^ 53 -> negative f = false -> above_one f = false -> 0 <= cache_memory mem f <= mem.
Proof.
  intros Hmem Hneg Habove. destruct (float_compare_one f Habove Hneg) as [Hm Hle].
  assert (float_of_int mem = {| mantissa := mem; exponent := 0 |}) as Hint.
  { unfold float_of_int, round53. rewrite Z.abs_eq by lia. rewrite (proj2 (Z.leb_le _ 0)); [done|].
    destruct (Z.eq_dec mem 0) as [->|]; [done|]. pose proof (Z.log2_lt_pow2 mem 53 ltac:(lia)). lia. }
  unfold cache_memory, float_mul. rewrite Hint. cbn [mantissa exponent]. rewrite Z.add_0_l.
  set (m := mem * mantissa f). set (e := exponent f) in *.
  destruct (Z.le_gt_cases e 0) as [He|He].
  - rewrite Z.max_r, Z.max_l in Hle by lia. cbn in Hle. rewrite Z.mul_1_r in Hle.
    destruct (round53_below m e mem ltac:(unfold m; nia) He Hmem ltac:(unfold m; nia)) as (H1 & H2 & H3).
    set (x := round53 m e) in *. unfold int_of_float. destruct (0 <=? exponent x) eqn:Ex.
    + apply Z.leb_le in Ex. assert (exponent x = 0) as E0 by lia. rewrite E0 in *. cbn in *. lia.
    + apply Z.leb_gt in Ex. pose proof (Z.pow_pos_nonneg 2 (- exponent x) ltac:(lia) ltac:(lia)) as Hp. rewrite Z.quot_div_nonneg by lia.
      split; [apply Z.div_pos; lia|]. apply Z.div_le_upper_bound; lia.
  - rewrite Z.max_l, Z.max_r in Hle by lia. cbn in Hle. pose proof (Z.pow_gt_1 2 e ltac:(lia)) as [Hp _].
    assert (mantissa f = 0) as E0 by (specialize (Hp He); nia). assert (m = 0) as -> by (unfold m; nia). change (round53 0 e) with {| mantissa := 0; exponent := e |}.
    unfold int_of_float. cbn [mantissa exponent]. destruct (0 <=? e) eqn:Ee; [rewrite Z.mul_0_l; lia|]. apply Z.leb_gt in Ee. lia.
Qed.

(** The memory that the cache is measured by: the limit, or the request where there is no limit. *)
Definition pod_memory (r : ResourceRequirements) : Z := if Limits_Memory r =? 0 then Requests_Memory r else Limits_Memory r.

(** A factor from 0 to 1. *)
Definition is_fraction (f : Float64) : bool := negb (negative f) && negb (above_one f).

(** C40: the cache limit that a metadata server is told, computed in floating point with rounding, is a number
    of bytes from 0 up to the memory limit of its pod, or the request where there is no limit, for
    memories below 2^53 and factors from 0 to 1 (the defaults are such); it is told none if the pod has
    neither. *)
Theorem cache_fits fs :
  let spec := MetadataServer (fs_Spec fs) in
  0 <= pod_memory (mds_Resources spec) < 2 ^ 53 ->
  is_fraction (default mdsCacheMemoryLimitFactor (CacheMemoryLimitFactor spec)) = true ->
  is_fraction (default mdsCacheMemoryRequestFactor (CacheMemoryRequestFactor spec)) = true ->
  match configOptions fs !! "mds_cache_memory_limit" with
  | Some s => exists n, s = Itoa n /\ 0 <= n <= pod_memory (mds_Resources spec)
  | None => pod_memory (mds_Resources spec) = 0
  end.
Proof.
  intros spec Hmem [Hn1%negb_true_iff Ha1%negb_true_iff]%andb_prop [Hn2%negb_true_iff Ha2%negb_true_iff]%andb_prop.
  unfold configOptions. fold spec. unfold pod_memory in *. rewrite lookup_insert_ne by done.
  destruct (Limits_Memory (mds_Resources spec) =? 0) eqn:El; cbn [negb].
  - destruct (Requests_Memory (mds_Resources spec) =? 0) eqn:Er; cbn [negb]; [by apply Z.eqb_eq in Er|].
    rewrite lookup_singleton_eq. eexists. split; [done|]. by apply cache_memory_bounds.
  - rewrite lookup_singleton_eq. eexists. split; [done|]. by apply cache_memory_bounds.
Qed.

Lemma cache_fits_witness :
  configOptions (myfs false (fs_spec false false)) !! "mds_cache_memory_limit" = Some "2147483648" /\
  exists n, "2147483648" = Itoa n /\ 0 <= n <= 4294967296.
Proof.
  assert (configOptions (myfs false (fs_spec false false)) !! "mds_cache_memory_limit" = Some "2147483648") as E by (vm_compute; reflexivity).
  split; [exact E|]. pose proof (cache_fits (myfs false (fs_spec false false))) as Hc. cbv zeta in Hc. rewrite E in Hc. apply Hc; vm_compute.
  - split; [discriminate|reflexivity].
  - reflexivity.
  - reflexivity.
Defined.

(** ** Names of pools *)

Lemma has_duplicates_spec seen pools :
  has_duplicates seen pools = false <->
  NoDup (List.filter (fun n => negb (String.eqb n "")) (pool_Name <$> pools)) /\
  Forall (fun n => n ∉ seen) (List.filter (fun n => negb (String.eqb n "")) (pool_Name <$> pools)).
Proof.
  revert seen. induction pools as [|p pools IH]; intros seen; cbn [has_duplicates fmap list_fmap List.filter].
  { split; [by repeat constructor|done]. }
  destruct (String.eqb (pool_Name p) "") eqn:Ep; cbn [negb]; [apply IH|].
  case_bool_decide as Hin; [split; [done|]; by intros [_ [Hn _]%Forall_cons]|].
  rewrite IH, NoDup_cons, Forall_cons. set (l := List.filter _ _). split.
  - intros [Hd Hf]. rewrite Forall_forall in Hf. split_and!; [|done|done|].
    + intros Hl. apply (Hf _ Hl). set_solver.
    + apply Forall_forall. intros n Hl Hs. apply (Hf _ Hl). set_solver.
  - intros [[Hp Hd] [_ Hf]]. split; [done|]. rewrite Forall_forall in Hf |- *. intros n Hl [->%elem_of_singleton|Hs]%elem_of_union; [done|].
    by apply (Hf n).
Qed.

Lemma filter_once {A} (f : A -> bool) l i j x :
  NoDup (List.filter f l) -> f x = true -> l !! i = Some x -> l !! j = Some x -> i = j.
Proof.
  intros Hd Hx. revert i j. induction l as [|y l IH]; intros i j Hi Hj; [done|]. cbn [List.filter] in Hd.
  assert (forall k, l !! k = Some x -> x ∈ List.filter f l) as Hin.
  { intros k Hk. apply list_elem_of_In, filter_In. split; [|done]. by apply list_elem_of_In, list_elem_of_lookup_2 with k. }
  destruct i as [|i], j as [|j]; cbn in Hi, Hj; [done| | |].
  - injection Hi as ->. rewrite Hx in Hd. apply NoDup_cons in Hd as [Hn _]. by destruct Hn; eapply Hin.
  - injection Hj as ->. rewrite Hx in Hd. apply NoDup_cons in Hd as [Hn _]. by destruct Hn; eapply Hin.
  - f_equal. apply IH; [|done..]. destruct (f y); [by apply NoDup_cons in Hd as [_ Hd]|done].
Qed.

Lemma names_once pools i j p q :
  hasDuplicatePoolNames pools = false -> pools !! i = Some p -> pools !! j = Some q -> pool_Name p = pool_Name q -> pool_Name p <> "" -> i = j.
Proof.
  intros [Hd _]%has_duplicates_spec Hi Hj Heq Hne. eapply filter_once; [exact Hd| | |].
  - by apply negb_true_iff, String.eqb_neq.
  - by rewrite list_lookup_fmap, Hi.
  - rewrite list_lookup_fmap, Hj. cbn. by rewrite Heq.
Qed.

Lemma default_name_inj fs b i j p q :
  pool_Name p = "" -> pool_Name q = "" -> dataPoolName fs b i p = dataPoolName fs b j q -> i = j.
Proof.
  intros Hp Hq. unfold dataPoolName. rewrite Hp, Hq. cbn [String.eqb]. intros E%app_string_inj_l%app_string_inj_l%app_string_inj_l%Itoa_injective. lia.
Qed.

Lemma given_name_inj fs b i j p q :
  pool_Name p <> "" -> pool_Name q <> "" -> dataPoolName fs b i p = dataPoolName fs b j q -> pool_Name p = pool_Name q.
Proof.
  intros Hp%String.eqb_neq Hq%String.eqb_neq. unfold dataPoolName. rewrite Hp, Hq. destruct b; [done|].
  by intros E%app_string_inj_l%app_string_inj_l.
Qed.

(** When the validation found no pool name given twice, the data pools of a file system get pairwise
    different names in Ceph exactly if no given name is the default name of a pool without one; and the
    validation accepts every spec without repeated names. *)
Theorem data_pool_names_distinct fsName spec :
  (hasDuplicatePoolNames (DataPools spec) = false <-> NoDup (List.filter (fun n => negb (String.eqb n "")) (pool_Name <$> DataPools spec))) /\
  (hasDuplicatePoolNames (DataPools spec) = false ->
   NoDup (generateDataPoolNames fsName spec) <->
   forall i j p q, DataPools spec !! i = Some p -> DataPools spec !! j = Some q -> pool_Name p = "" -> pool_Name q <> "" ->
     dataPoolName fsName (PreservePoolNames spec) j q <> dataPoolName fsName (PreservePoolNames spec) i p).
Proof.
  split.
  { unfold hasDuplicatePoolNames. rewrite has_duplicates_spec. split; [by intros []|]. intros Hd. split; [done|]. apply Forall_forall. set_solver. }
  intros Hdup. set (b := PreservePoolNames spec). unfold generateDataPoolNames. fold b. rewrite NoDup_alt. split.
  - intros Hall i j p q Hi Hj Hp Hq Heq. assert (i = j) as ->.
    { apply (Hall i j (dataPoolName fsName b i p)); rewrite list_lookup_imap; [by rewrite Hi|by rewrite Hj; cbn; rewrite Heq]. }
    rewrite Hi in Hj. injection Hj as ->. done.
  - intros Hclash i j x Hi Hj. rewrite list_lookup_imap in Hi, Hj.
    destruct (DataPools spec !! i) as [p|] eqn:Ei; [|done]. destruct (DataPools spec !! j) as [q|] eqn:Ej; [|done].
    cbn in Hi, Hj. injection Hi as <-. injection Hj as Heq.
    destruct (decide (pool_Name p = "")) as [Hp|Hp], (decide (pool_Name q = "")) as [Hq|Hq].
    + by eapply (default_name_inj fsName b i j p q).
    + by destruct (Hclash i j p q).
    + by destruct (Hclash j i q p).
    + eapply (names_once _ i j p q); [done..| |done]. by eapply (given_name_inj fsName b i j p q).
Qed.

Definition two_pools (a b : string) : FilesystemSpec :=
  {| MetadataPool := named ""; DataPools := [named a; named b]; PreservePoolNames := false; PreservePoolsOnDelete := false;
     PreserveFilesystemOnDelete := false; MetadataServer := servers 1 true; fs_Mirroring := None; fs_MirrorCheckDisabled := false |}.

Lemma data_pool_names_distinct_witness :
  NoDup (generateDataPoolNames "myfs" (two_pools "" "fast")) /\ ~ NoDup (generateDataPoolNames "myfs" (two_pools "" "data0")).
Proof.
  split.
  - apply (proj2 (data_pool_names_distinct "myfs" (two_pools "" "fast"))); [vm_compute; reflexivity|].
    intros [|[|i]] [|[|j]] p q Hi Hj Hp Hq; simplify_eq/=; done.
  - intros Hd. eapply (proj1 (proj2 (data_pool_names_distinct "myfs" (two_pools "" "data0")) ltac:(vm_compute; reflexivity)) Hd 0%nat 1%nat); done.
Defined.

(** ** Names of servers *)

Lemma split_last sep a b : free_of sep b = true -> exists x l, split_byte sep (a +:+ String sep b) = x :: l ++ [b].
Proof.
  intros Hb. induction a as [|c a (x & l & E)].
  - exists "", []. change ("" +:+ String sep b) with (String sep b). cbn [split_byte]. by rewrite Ascii.eqb_refl, split_byte_free.
  - change (String c a +:+ String sep b) with (String c (a +:+ String sep b)). cbn [split_byte]. rewrite E.
    destruct (Ascii.eqb c sep); [by exists "", (x :: l)|by exists (String c x), l].
Qed.

(** The letter that an upgrade cuts off the name of the server of rank 0 is the one it was named with. *)
Lemma letter_recovered fsName letter :
  free_of "-" letter = true -> default "" (last (split_byte "-" (daemon_name fsName letter))) = letter.
Proof.
  intros Hl. unfold daemon_name. change ("-" +:+ letter) with (String "-" letter).
  destruct (split_last "-" fsName letter Hl) as (x & l & ->). by rewrite app_comm_cons, last_snoc.
Qed.

(** For a name without a dot exactly the servers with one lower case letter are matched. *)
Lemma matches_standby_spec fsName name :
  free_of "." fsName = true ->
  matches_standby fsName name = true <-> exists c, 97 <= ascii_Z c <= 122 /\ name = daemon_name fsName (String c "").
Proof.
  unfold daemon_name. revert name. induction fsName as [|x fsName IH]; intros name Hdot.
  - split.
    + destruct name as [|c [|d [|]]]; cbn; try done. intros [[->%Ascii.eqb_eq Hl%Z.leb_le]%andb_prop Hu%Z.leb_le]%andb_prop. by exists d.
    + intros (c & Hc & ->). cbn. rewrite (proj2 (Z.leb_le 97 (ascii_Z c))), (proj2 (Z.leb_le (ascii_Z c) 122)) by lia. done.
  - apply andb_prop in Hdot as [Hx%negb_true_iff Hdot]. destruct name as [|y name]; cbn [matches_standby].
    + split; [done|]. by intros (c & _ & [=]).
    + rewrite Hx, andb_false_l, orb_false_r, andb_true_iff, Ascii.eqb_eq, IH by done. split.
      * intros [-> (c & Hc & ->)]. by exists c.
      * intros (c & Hc & [= <- ->]). split; [done|]. by exists c.
Qed.

(** ** What the code of the servers does not do *)

(** Ceph that keeps two ranks wanted. *)
Definition busy_ceph (args : list string) : result string := match args with "fs" :: "get" :: _ => Ok "2" | _ => fs_ceph args end.

(** A failed upgrade leaves one rank wanted and standby replay off: nothing is restored. *)
Example failed_upgrade_not_restored :
  let r := Start (upgraded (myfs false (fs_spec false false))) (begin (fs_lab_with busy_ceph (myfs false (fs_spec false false)) [] ["a"])) in
  is_ok r.2 = false /\
  List.filter (fun args => existsb (fun a => String.eqb a "max_mds" || String.eqb a "allow_standby_replay") args) (commands (log r.1)) =
    [["fs"; "set"; "myfs"; "allow_standby_replay"; "false"]; max_mds_args "myfs" 1].
Proof. split; vm_compute; reflexivity. Qed.

(** The servers to be removed are all kept since the ranks are not as desired, and success is reported. *)
Example scale_down_error_lost :
  let r := scaleDownDeployments (upgraded (myfs false (fs_spec false false))) 1 1 {["rook-ceph-mds-myfs-a"]} true
             (begin (fs_lab_with busy_ceph (myfs false (fs_spec false false)) [] ["a"; "b"; "c"])) in
  r.2 = Ok () /\ changes (log r.1) = [].
Proof. split; vm_compute; reflexivity. Qed.

(** The deployments to skip are known by the name of the daemon, and looked up by the letter. *)
Example fence_not_found :
  podLabels (W := FsLab) (myfs false (fs_spec false false)) (daemon_name "myfs" "a") true !! "mds" = Some "myfs-a" /\
  daemon_letters 2 = ["a"; "b"].
Proof. split; vm_compute; reflexivity. Qed.

(** Ceph is asked about the server [a], while the server is called [myfs-a]. *)
Example letter_asked :
  ["mds"; "ok-to-stop"; "a"] ∈ commands upgrade_log /\ ["config"; "set"; "mds.myfs-a"; "mds_join_fs"; "myfs"] ∈ commands upgrade_log.
Proof. split; apply (bool_decide_unpack _); vm_compute; exact I. Qed.

(** A setting that Ceph refused, for another reason than that it is not permitted, is ignored. *)
Example flags_ignored :
  let refuses args := match args with "config" :: "set" :: _ => Err (External "EIO") | _ => fs_ceph args end in
  (startDeployment (upgraded (myfs false (fs_spec false false))) "z" (begin (fs_lab_with refuses (myfs false (fs_spec false false)) [] ["a"]))).2 =
  Ok "rook-ceph-mds-myfs-z".
Proof. vm_compute. reflexivity. Qed.

(** A deployment that is gone when it is to be stopped is a panic. *)
Example gone_deployment_panics :
  (scaleMdsDeployment "rook-ceph" "rook-ceph-mds-myfs-c" 0 (begin (fs_lab_with fs_ceph (myfs false (fs_spec false false)) [] ["a"]))).2 = Err Panic.
Proof. vm_compute. reflexivity. Qed.

(** The 27th server has a name of two letters, which is not taken for a standby. *)
Example two_letter_standby :
  let aa := daemon_name "myfs" (DaemonName.IndexToName 26) in aa = "myfs-aa" /\ matches_standby "myfs" aa = false.
Proof. split; vm_compute; reflexivity. Qed.

(** A check of the mirroring forgets the state of the keys, the conditions and when the schedules changed. *)
Lemma mirroring_check_forgets now s mirror snap details :
  let s' := toCustomResourceStatus now s mirror snap details in
  fss_Cephx s' = empty_status /\ fss_Conditions s' = [] /\ fss_ObservedGeneration s' = 0 /\
  LastChanged <$> SnapshotScheduleStatus s' = Some "".
Proof. done. Qed.

(** The version of the image comes first, the one of the monitors second. *)
Example versions_swapped :
  (CurrentAndDesiredCephVersion "rook-ceph" "job" (begin (fs_lab_with fs_ceph (myfs false (fs_spec false false)) [] []))).2 =
  Ok (mkv 19 2 1 0 "", mkv 19 2 0 0 "0123").
Proof. vm_compute. reflexivity. Qed.

(** A group whose data could not be read, for another reason than that it does not exist, is created. *)
Example group_error_ignored :
  let refuses args := match args with "fs" :: "subvolumegroup" :: "info" :: _ => Err (External "EIO") | _ => fs_ceph args end in
  (CreateCephFSSubVolumeGroup "myfs" "csi" None (begin (fs_lab_with refuses (myfs false (fs_spec false false)) [] []))).2 = Ok ().
Proof. vm_compute. reflexivity. Qed.

(** A data pool named [metadata] is the metadata pool. *)
Example metadata_collision :
  generateDataPoolNames "myfs" (two_pools "metadata" "") = [generateMetaDataPoolName "myfs" (Some (two_pools "metadata" "")); "myfs-data1"] /\
  hasDuplicatePoolNames (DataPools (two_pools "metadata" "")) = false.
Proof. split; vm_compute; reflexivity. Qed.

End FsFacts.
